(* ===== verification/_CoqProject ===== *)
-Q . S2P
Prelude.v
Target.v
Work.v
Codec.v
Merkle.v
Monetary.v
Index.v
StateMap.v
Coin.v
Assets.v
AssetFacts.v
AssetProps.v
AssetAudit.v
Vm.v
Registry.v
RegistryWire.v
Calls.v
Wire.v
Authorize.v
Policy.v
Block.v
Chain.v
Consensus.v
Fork.v
ForkProps.v
HeaderSync.v
State.v
StateRoot.v
CoinHost.v
CoinProps.v
AssetHost.v
AssetView.v
Settlement.v
Engine.v
SettleFacts.v
EngineFacts.v
EngineProps.v
VmTypes.v
Apply.v
ApplyFacts.v
Growth.v
Ledger.v
LedgerProps.v
LedgerRestore.v
Genesis.v
ChainSpec.v
Mempool.v
MempoolProps.v
Mining.v
MiningProps.v
NonceSearch.v
MiningLoop.v
HeaderCheckpoints.v
BranchSync.v
BranchSyncProps.v
CompactRelay.v
CompactRelayProps.v
