(* ===== verification/Prelude.v ===== *)
(** * The XPARQ kernel: a verification library

    XPARQ is a proof-of-work ledger with a native coin, user-issued assets and
    deployed programs.  Its core logic is the [kernel] crate; [crypto] supplies
    hashing and encoding, [extension] the monetary application the node
    installs, [runtime] the networked node.  This library models the kernel and
    the parts of the node that decide what the ledger says and what may become
    part of it, and proves them correct.

    ** How the program is put together

    A block arrives as bytes; [blockchain/block.rs] decodes and checks its
    structure, [consensus/block.rs] admits it: it must extend the chain
    ([blockchain/chain.rs]), claim the difficulty [consensus/policy] prescribes,
    carry proof of work under that target ([consensus/target.rs], [pow.rs]) and
    an authorized emission.  Competing branches live in the block graph of
    [consensus/fork], ordered by accumulated work; a change of best tip becomes
    a reorganization plan.  A block's operations are authorized program calls
    and deployments ([operation.rs], [program/authorization.rs]); a call is
    routed to the coin, asset or virtual machine program ([program/system]).
    Coin and asset programs are applications the node installs; they act on the
    ledger only through hosts ([ledger/applied/coin.rs],
    [program/asset_host.rs]) that check every step.  Executing operations
    changes the ledger state: live coins ([ledger/utxo/coin.rs]), assets
    ([ledger/utxo/asset]) and the program registry ([program/registry.rs]).
    Each change is journaled, so that a failed operation or a disconnected block
    can be rolled back.  All tables are persistent ordered maps
    ([state_map.rs]); their canonical encoding is what the state root commits
    to.

    The node starts from the genesis of its network ([genesis/mod.rs]), keeps
    operations that wait for a block ([runtime/src/node/mempool.rs]), builds
    candidates from them and searches their nonce ([node/mining.rs],
    [miner.rs]), finds common ancestors with peers by locators and checkpoints
    ([node/state.rs], [node/chain_sync.rs]) and moves to a better branch by
    rolling back and applying blocks on a private copy of its ledger, or where
    its journals do not reach the fork by replaying its own bodies
    ([node/recovery.rs]).

    ** Files, from the bottom up

    - [Prelude] (this file): results and the state-and-error monad, machine
      integers with explicit overflow, byte and limb lists, sums over finite
      maps, the [xparq] rewrite database and the tactics [inv_ok] (takes a
      straight-line fallible body apart) and [stays_tac].
    - [Target]: [consensus/target.rs].  [Work]: [consensus/fork/work.rs] and
      [fork/ordering.rs].  Byte and limb loops are related to arithmetic on the
      numbers they denote.
    - [Codec]: [crypto/src/hash.rs] and the Borsh primitives.  SHA3-256 is the
      parameter [Sha3]; [Sha3Spec] (a digest has 32 bytes) is all that is ever
      assumed of it, and [toy_sha3] shows it can hold.
    - [Merkle]: [blockchain/merkle.rs].  [Monetary]: amounts, identifiers, coin
      transitions and asset calls with their wire decoding.  [Policy]:
      [consensus/policy].
    - [Index]: the derived lookup tables the stores share, as relations they
      must equal, and tables in key order with their encoding.
    - [StateMap]: [state_map.rs] as an AVL tree.  The stores below use [gmap];
      [state_map_refines] and [state_map_iteration] are what justifies that.
    - [Coin]: [ledger/utxo/coin.rs].
    - [Assets]: the state and operations of [ledger/utxo/asset]; [AssetFacts]:
      invariants and the effect of every operation; [AssetProps]: the theorems;
      [AssetAudit]: full and incremental supply audits.
    - [Vm]: code validation and the scalar interpreter.  [Registry]: deployed
      programs, deployment, journaled writes and rollback; [RegistryWire]: their
      wire format.
    - [Calls]: the program-call envelope and its routes ([program/system]).
    - [Wire]: wire formats as records of an encoder, a decoder and their laws,
      with combinators; [Authorize]: keys, identities, authorizations,
      operations and their identifiers over those formats.  The signature
      verifiers are the parameter [SignatureBackend], of which nothing is
      assumed.
    - [Block], [Chain]: [blockchain/block.rs] and [blockchain/chain.rs].
    - [Consensus]: [consensus/block.rs] and [consensus/pow.rs]; Argon2id is the
      parameter [Argon2], and the state a block is committed to is the interface
      [ApplyBlockState], as in the source.
    - [Fork]: the block graph and reorganization plans; [ForkProps]: the graph
      invariant and the theorems.
    - [HeaderSync]: [consensus/header.rs], headers-first synchronization.
    - [State]: the ledger state, its journals, coin rollback and coin accounting.
    - [CoinHost]: coin applications as programs over the interface [CoinHost],
      the transfer application, and the kernel's host; [CoinProps]: the
      theorems.  [AssetHost]: the same for assets, panics included;
      [AssetView]: calls on a view of the entries they touch.
    - [Settlement]: the monetary proposals of deployed code ([program/vm_transfer])
      as computations of [Staged], whose state is discarded on failure;
      [Engine]: the version-4 interpreter, its account caches and entry points
      ([program/vm_app]).  [SettleFacts] and [EngineFacts]: weakest
      preconditions for staged computations and the engine's invariant;
      [EngineProps]: the theorems; [VmTypes]: the widths of every value the
      interpreter handles, as an invariant of its frames.
    - [StateRoot]: the canonical bytes of the ledger state and its root.
    - [Apply]: validation of program calls and deployments
      ([consensus/program_call], [consensus/deploy.rs]) against the interface
      [ProgramStateView], and their staged application ([ledger/applied]);
      [ApplyFacts]: what an applied operation does to the state; [Growth]: what
      it adds to the canonical bytes, and the burn that pays for it.
    - [Ledger]: the canonical ledger ([ledger/canonical.rs] and its modules):
      block execution, commit, tip rollback, journal retention, snapshots.  It is
      an instance of [ApplyBlockState].  [LedgerProps]: trails of journals, the
      ledger invariant and the theorems; [LedgerRestore]: restoration.
    - [Genesis]: the first block and ledger of a network; [ChainSpec]: the
      identity hash of the rules.
    - [Mempool]: the pending pool with its table, cache and remembered refusals;
      [MempoolProps]: the node over time and the theorems.  [Mining]: candidates
      and the commit of a mined block; [MiningProps]: the theorems.
    - [NonceSearch]: the threads of the nonce search as a machine driven by a
      schedule; [MiningLoop]: the loop of candidates, searches and commits.
    - [HeaderCheckpoints]: checkpoints of accumulated work, summaries of
      canonical headers, locators.
    - [BranchSync]: moving to a verified branch, the recovery without journals
      and the refresh of the cache; [BranchSyncProps]: the theorem.
    - [CompactRelay]: compact block relay; [CompactRelayProps]: its theorems.

    Structs are Records, enums Inductives, [Result] is [result], a method on
    [&mut self] is a function to the new state or a computation of [ST], which
    keeps what a failing call leaves behind.  Machine integers are [Z] with
    [checked_add], [saturating_add] and wrapping written out.  A panic is
    [None], or [Panicked] where the stack unwinds through an application.

    ** What the theorems show

    - Arithmetic: compact targets, scaling, long division and limb addition
      compute the numbers they mean; tip comparison is a total order;
      retargeting is total and bounded; emission and burn follow their formulas.
    - Stores: the coin store and the AVL map refine finite maps; derived indexes
      and cached totals are exact in every reachable state; encodings round-trip.
    - Assets: supply is conserved, the cached balances are exact while the
      registered maximum supplies stay below 2^127 (beyond that a rollback can
      saturate one, [rollback_saturates_balance]), authority is respected, rejected calls change
      nothing, journals undo accepted calls, audits are sound and complete, and
      the incremental audit agrees with the full one.
    - Blocks and consensus: decoding accepts exactly the canonical encodings of
      valid blocks; block hashes and operation identifiers commit to what they
      name, or two different strings hashed for them have one digest; admission and graph insertion accept
      exactly the blocks they should; the chain refines a list of linked
      headers; header-only validation accepts exactly the chains of headers that
      full validation would, from the whole list or from a bounded summary;
      fork choice does not depend on arrival order; reorganizations
      can always be planned.
    - Applications: whatever application is installed, a rejected transition
      changes nothing and an accepted one does exactly what was declared; the
      shipped transfer completes every payable intent.
    - Programs: validated scalar code cannot panic, terminates and is charged
      exactly what it executes; validated application code jumps only to
      instructions; an invocation of any deployed code returns within its fuel,
      conserves coins, spends only coins of programs, is undone by its journals,
      and its preview tells what it does; deployments roll back exactly.
    - Ledger: an operation or block that is refused changes nothing; an accepted
      one accounts for every coin, burns exactly what its bytes, its growth of the
      state and its fuel cost, leads to the committed root and is undone by
      its journals, except that the root test may refuse to undo the first
      block that mines where it also carries operations; every reachable ledger is sound; a snapshot is restored only
      with a history it fits; the state root commits to the whole state.
    - Node: a new node starts on a sound ledger, and the identity it compares
      with peers commits to every rule; the pool's caches are invisible, up to a collision among the strings the
      node hashed, and what
      is admitted replays on the tip; reconciliation keeps exactly what still
      applies; mining commits what it finds or retries, and selection fills the block; the
      nonce search is sound under every interleaving and finds what is there;
      checkpoints and summaries equal a scan of all headers; locators are
      canonical; a change of branch is all or nothing, by journals or by recovery, up to
      a refresh of the cache that fails after the commit; announcing a block by
      short identifiers is as good as sending it unless one collides with the
      pool, and no peer can make a node commit another block than announced.

    ** Fuel

    Loops that are not structural take fuel: the Merkle loops halve a length
    (64 iterations cover a 64-bit length), the code scanners consume a byte per
    iteration (the length of the code; [scan_enough], [decode_loop_flows]), AVL
    construction splits the item count ([build_spec]), iterators are drained
    with the table's length, walks along ancestors take the number of nodes
    ([plan_reorg_correct] needs no more).  An application frame takes one step
    per unit of the engine's fuel and nested calls eight levels, the limit the
    code enforces.  The loops of the node over heights take the number of heights
    between their bounds; the locator takes 64 rounds, the most it can push.
    Exhausting an interpreter's fuel counts as a panic, so the
    safety theorems prove termination.

    ** Not modelled

    The memoized state root and other caches that do not change results, the
    wall-clock metrics of a restore, Argon2id and the signature verifiers
    (parameters), signing, the rest of the node (the other messages between peers,
    RPC, the database and the snapshot files, the
    explorer index, the mining dashboard, and the cache refresh after a mined or
    relayed block), which is input and
    output around what is modelled, the wallet and the development kit, which
    are clients of the kernel, and vendored code. *)

From stdpp Require Export base option list gmap sets sorting.
From Stdlib Require Export ZArith Lia.

#[global] Open Scope Z_scope.

(** ** Results

    Rust's [Result<T, E>]; the [?] operator is the monadic bind of stdpp's
    notation [x ← e; k]. *)

Inductive result (E A : Type) : Type :=
| Ok (a : A)
| Err (e : E).
Arguments Ok {E A} a.
Arguments Err {E A} e.

#[global] Instance result_mret E : MRet (result E) := fun A a => Ok a.
#[global] Instance result_mbind E : MBind (result E) :=
  fun A B f r => match r with Ok a => f a | Err e => Err e end.
#[global] Instance result_fmap E : FMap (result E) :=
  fun A B f r => match r with Ok a => Ok (f a) | Err e => Err e end.

#[global] Instance result_eq_dec `{EqDecision E, EqDecision A} :
  EqDecision (result E A).
Proof. solve_decision. Defined.

(** [Option::ok_or]. *)
Definition ok_or {E A} (o : option A) (e : E) : result E A :=
  match o with Some a => Ok a | None => Err e end.

(** [Result::map_err]. *)
Definition map_err {E E' A} (f : E -> E') (r : result E A) : result E' A :=
  match r with Ok a => Ok a | Err e => Err (f e) end.

(** [Result::ok]. *)
Definition ok {E A} (r : result E A) : option A :=
  match r with Ok a => Some a | Err _ => None end.

(** [if cond { return Err(e); }] in front of the rest of a body. *)
Definition guard_err {E A} (cond : bool) (e : E) (k : result E A) : result E A :=
  if cond then Err e else k.

Notation "'fail_if' c 'with' e ; k" := (guard_err c e k)
  (at level 20, c at level 100, e at level 100, k at level 200) : stdpp_scope.

(** [Iterator::try_fold] over a result. *)
Fixpoint try_fold {E A B} (f : A -> B -> result E A) (l : list B) (a : A)
    : result E A :=
  match l with
  | [] => Ok a
  | b :: l' => a' ← f a b; try_fold f l' a'
  end.

(** Collecting an iterator of results into a vector. *)
Fixpoint collect {E A B} (f : A -> result E B) (l : list A) : result E (list B) :=
  match l with
  | [] => Ok []
  | a :: l' => b ← f a; bs ← collect f l'; Ok (b :: bs)
  end.

(** ** State and errors

    A fallible method on [&mut self]: the state it leaves behind, on failure
    too, and its result. *)
Definition ST (S E A : Type) : Type := S -> S * result E A.

#[global] Instance st_mret S E : MRet (ST S E) := fun A a s => (s, Ok a).
#[global] Instance st_mbind S E : MBind (ST S E) :=
  fun A B f m s =>
    match m s with (s, Ok a) => f a s | (s, Err e) => (s, Err e) end.

(** Reading the state, replacing it, and steps that check before they write. *)
Definition st_gets {S E A} (f : S -> A) : ST S E A := fun s => (s, Ok (f s)).
Definition st_modify {S E} (f : S -> S) : ST S E unit := fun s => (f s, Ok tt).
Definition st_lift {S E A} (r : result E A) : ST S E A := fun s => (s, r).
Definition st_check {S E A} (f : S -> result E A) : ST S E A := fun s => (s, f s).
Definition st_update {S E} (f : S -> result E S) : ST S E unit :=
  fun s => match f s with Ok s' => (s', Ok tt) | Err e => (s, Err e) end.
Definition st_require {S E} (c : bool) (e : E) : ST S E unit :=
  st_lift (if c then Ok tt else Err e).

(** [for x in l { f(x)?; }]. *)
Fixpoint st_iter {S E A} (f : A -> ST S E unit) (l : list A) : ST S E unit :=
  match l with
  | [] => mret tt
  | a :: l' => _ ← f a; st_iter f l'
  end.

(** ** Panics

    How a call ends: it returns, or the stack unwinds; and fallible calls that
    may unwind. *)
Inductive outcome (A : Type) : Type := Returned (a : A) | Panicked.
Arguments Returned {A} a.
Arguments Panicked {A}.

Definition Run (E A : Type) : Type := outcome (result E A).

#[global] Instance run_mret E : MRet (Run E) := fun A a => Returned (Ok a).
#[global] Instance run_mbind E : MBind (Run E) := fun A B f m =>
  match m with
  | Returned (Ok a) => f a
  | Returned (Err e) => Returned (Err e)
  | Panicked => Panicked
  end.
Definition run_lift {E A} (r : result E A) : Run E A := Returned r.
Definition run_require {E} (c : bool) (e : E) : Run E unit :=
  run_lift (if c then Ok tt else Err e).
Definition run_map_err {E E' A} (f : E -> E') (m : Run E A) : Run E' A :=
  match m with Returned r => Returned (map_err f r) | Panicked => Panicked end.

Lemma returns_bind {E A B} (m : Run E A) (f : A -> Run E B) b :
  m ≫= f = Returned (Ok b) <-> exists a, m = Returned (Ok a) /\ f a = Returned (Ok b).
Proof. destruct m as [[a|e]|]; cbn; naive_solver. Qed.

Lemma returns_require {E} (c : bool) (e : E) u : run_require c e = Returned (Ok u) <-> c = true.
Proof. destruct c, u; cbn; naive_solver. Qed.

Lemma returns_lift {E A} (r : result E A) a : run_lift r = Returned (Ok a) <-> r = Ok a.
Proof. unfold run_lift. naive_solver. Qed.

(** Naming the outcome of a computation by evaluating its result only. *)
Lemma pair_snd {A B} (p : A * B) b : p.2 = b -> p = (p.1, b).
Proof. by destruct p; simpl; intros ->. Qed.

(** ** Machine integers

    A w-bit unsigned integer is a [Z]; every operation states its overflow
    behaviour. *)

Definition fits (w x : Z) : Prop := 0 <= x < 2 ^ w.

Definition wrap (w x : Z) : Z := x mod 2 ^ w.

Definition checked_add (w a b : Z) : option Z :=
  if a + b <? 2 ^ w then Some (a + b) else None.

Definition checked_sub (a b : Z) : option Z :=
  if a <? b then None else Some (a - b).

Definition checked_mul (w a b : Z) : option Z :=
  if a * b <? 2 ^ w then Some (a * b) else None.

Definition saturating_add (w a b : Z) : Z := Z.min (a + b) (2 ^ w - 1).

Definition saturating_sub (a b : Z) : Z := Z.max 0 (a - b).

Definition saturating_mul (w a b : Z) : Z := Z.min (a * b) (2 ^ w - 1).

(** [x << k] on a w-bit integer drops the bits shifted out. *)
Definition shl (w x k : Z) : Z := wrap w (Z.shiftl x k).

(** [u32::try_from] and friends on a non-negative value. *)
Definition try_from (w x : Z) : option Z := if x <? 2 ^ w then Some x else None.

(** [usize::div_ceil]. *)
Definition div_ceil (a b : Z) : Z := (a + b - 1) / b.

(** ** Digit lists: big-endian byte arrays and limb arrays *)

(** The number a big-endian digit list denotes in base [B]. *)
Fixpoint digits_val (B : Z) (l : list Z) : Z :=
  match l with
  | [] => 0
  | d :: l' => d * B ^ Z.of_nat (length l') + digits_val B l'
  end.

Definition digits (B : Z) (l : list Z) : Prop := Forall (fun d => 0 <= d < B) l.

Abbreviation be_val := (digits_val 256).
Abbreviation bytes_wf := (digits 256).

(** [uN::to_le_bytes] with [n] bytes. *)
Fixpoint le_bytes (n : nat) (x : Z) : list Z :=
  match n with
  | O => []
  | S n' => x mod 256 :: le_bytes n' (x / 256)
  end.

(** [uN::from_le_bytes]. *)
Fixpoint le_val (l : list Z) : Z :=
  match l with
  | [] => 0
  | b :: l' => b + 256 * le_val l'
  end.

(** Rust's [Ord] on arrays and slices: lexicographic. *)
Fixpoint lex_compare (a b : list Z) : comparison :=
  match a, b with
  | [], [] => Eq
  | [], _ :: _ => Lt
  | _ :: _, [] => Gt
  | x :: a', y :: b' =>
      match x ?= y with
      | Eq => lex_compare a' b'
      | c => c
      end
  end.

Definition lex_leb (a b : list Z) : bool :=
  match lex_compare a b with Gt => false | _ => true end.

Definition lex_ltb (a b : list Z) : bool :=
  match lex_compare a b with Lt => true | _ => false end.

(** ** Sums over finite maps *)

Section map_sum.
Context `{Countable K} {V : Type}.

Definition map_sum (f : K -> V -> Z) (m : gmap K V) : Z :=
  map_fold (fun k v acc => f k v + acc) 0 m.

Lemma map_sum_empty f : map_sum f ∅ = 0.
Proof. apply map_fold_empty. Qed.

Lemma map_sum_insert f m k v :
  m !! k = None -> map_sum f (<[k := v]> m) = f k v + map_sum f m.
Proof.
  intros Hk. unfold map_sum.
  rewrite (map_fold_insert_L (fun k v acc => f k v + acc)); [done| |done].
  intros. lia.
Qed.

Lemma map_sum_delete f m k v :
  m !! k = Some v -> map_sum f m = f k v + map_sum f (delete k m).
Proof.
  intros Hk. rewrite <- (insert_delete_id m k v) at 1 by done.
  apply map_sum_insert, lookup_delete_eq.
Qed.

Lemma map_sum_ext f g m :
  (forall k v, m !! k = Some v -> f k v = g k v) -> map_sum f m = map_sum g m.
Proof.
  induction m as [|k v m Hk IH] using map_ind; intros Hfg; [done|].
  rewrite !map_sum_insert, IH, (Hfg k v); try done.
  - by rewrite lookup_insert_eq.
  - intros k' v' Hl. apply Hfg. rewrite lookup_insert_ne; [done|congruence].
Qed.

Lemma map_sum_nonneg f m :
  (forall k v, m !! k = Some v -> 0 <= f k v) -> 0 <= map_sum f m.
Proof.
  induction m as [|k v m Hk IH] using map_ind; intros Hf; [done|].
  rewrite map_sum_insert by done.
  specialize (Hf k v (lookup_insert_eq _ _ _)) as Hkv.
  assert (0 <= map_sum f m); [|lia].
  apply IH. intros k' v' Hl. apply Hf. rewrite lookup_insert_ne; [done|congruence].
Qed.

Lemma map_sum_lookup_le f m k v :
  (forall k v, m !! k = Some v -> 0 <= f k v) ->
  m !! k = Some v -> f k v <= map_sum f m.
Proof.
  intros Hf Hk. rewrite (map_sum_delete f m k v Hk).
  assert (0 <= map_sum f (delete k m)); [|lia].
  apply map_sum_nonneg. intros k' v' [_ Hl]%lookup_delete_Some. eauto.
Qed.

(** A map each of whose entries comes from one of two maps weighs at most
    both together. *)
Lemma map_sum_mixed_le f (m m1 m2 : gmap K V) :
  (forall k v, m1 !! k = Some v -> 0 <= f k v) ->
  (forall k v, m2 !! k = Some v -> 0 <= f k v) ->
  (forall k v, m !! k = Some v -> m1 !! k = Some v \/ m2 !! k = Some v) ->
  map_sum f m <= map_sum f m1 + map_sum f m2.
Proof.
  revert m1 m2. induction m as [|k v m Hk IH] using map_ind; intros m1 m2 H1 H2 Hm.
  - rewrite map_sum_empty. pose proof (map_sum_nonneg f m1 H1).
    pose proof (map_sum_nonneg f m2 H2). lia.
  - rewrite map_sum_insert by done.
    assert (forall k' v', m !! k' = Some v' -> k' ≠ k /\
      (m1 !! k' = Some v' \/ m2 !! k' = Some v')) as Hm'.
    { intros k' v' Hl. assert (k' ≠ k) by congruence. split; [done|]. apply Hm.
      by rewrite lookup_insert_ne. }
    destruct (Hm k v) as [Hv|Hv]; [apply lookup_insert_eq| |].
    + rewrite (map_sum_delete f m1 k v Hv). specialize (IH (delete k m1) m2).
      enough (map_sum f m <= map_sum f (delete k m1) + map_sum f m2) by lia.
      apply IH; [|done|].
      * intros ? ? [_ ?]%lookup_delete_Some. eauto.
      * intros k' v' [Hne Hor]%Hm'. by rewrite lookup_delete_ne.
    + rewrite (map_sum_delete f m2 k v Hv). specialize (IH m1 (delete k m2)).
      enough (map_sum f m <= map_sum f m1 + map_sum f (delete k m2)) by lia.
      apply IH; [done| |].
      * intros ? ? [_ ?]%lookup_delete_Some. eauto.
      * intros k' v' [Hne Hor]%Hm'. by rewrite lookup_delete_ne.
Qed.

Lemma map_sum_le f g m :
  (forall k v, m !! k = Some v -> f k v <= g k v) -> map_sum f m <= map_sum g m.
Proof.
  induction m as [|k v m Hk IH] using map_ind; intros Hf; [done|].
  rewrite !map_sum_insert by done.
  specialize (Hf k v (lookup_insert_eq _ _ _)) as Hkv.
  enough (map_sum f m <= map_sum g m) by lia.
  apply IH. intros k' v' Hl. apply Hf. rewrite lookup_insert_ne; [done|congruence].
Qed.

Lemma map_sum_zero f m :
  (forall k v, m !! k = Some v -> f k v = 0) -> map_sum f m = 0.
Proof.
  intros Hz. rewrite (map_sum_ext f (fun _ _ => 0)) by done. clear Hz.
  induction m as [|k v m Hk IH] using map_ind; [done|].
  by rewrite map_sum_insert.
Qed.
End map_sum.

(** Filtering lists on which the predicate is constant. *)
Lemma filter_keep {A} (P : A -> Prop) `{!forall a, Decision (P a)} l :
  Forall P l -> filter P l = l.
Proof. induction 1; [done|]. rewrite filter_cons, decide_True by done. by f_equal. Qed.

Lemma filter_drop {A} (P : A -> Prop) `{!forall a, Decision (P a)} l :
  Forall (fun a => ~ P a) l -> filter P l = [].
Proof. induction 1; [done|]. by rewrite filter_cons, decide_False. Qed.

(** The sum of a list, read left to right as the loops do. *)
Definition zsum (l : list Z) : Z := fold_right Z.add 0 l.

Lemma zsum_cons x l : zsum (x :: l) = x + zsum l.
Proof. done. Qed.

Lemma zsum_app l1 l2 : zsum (l1 ++ l2) = zsum l1 + zsum l2.
Proof. induction l1 as [|x l1 IH]; [done|]. simpl app. rewrite !zsum_cons. lia. Qed.

Lemma zsum_permutation l l' : l ≡ₚ l' -> zsum l = zsum l'.
Proof. induction 1; rewrite ?zsum_cons in *; lia. Qed.

Lemma zsum_nonneg l : Forall (fun x => 0 <= x) l -> 0 <= zsum l.
Proof. induction 1; [done|]. rewrite zsum_cons. lia. Qed.

(** ** Lemmas on machine integers *)

Lemma fits_pos w x : fits w x -> 0 <= x.
Proof. unfold fits. lia. Qed.

Lemma wrap_small w x : fits w x -> wrap w x = x.
Proof. apply Z.mod_small. Qed.

Lemma wrap_fits w x : 0 <= w -> fits w (wrap w x).
Proof. intros. apply Z.mod_pos_bound. lia. Qed.

Lemma checked_add_Some w a b c :
  checked_add w a b = Some c <-> c = a + b /\ a + b < 2 ^ w.
Proof.
  unfold checked_add. destruct (Z.ltb_spec (a + b) (2 ^ w)); split;
    intros Hc; destruct_and?; simplify_eq; try done; lia.
Qed.

Lemma checked_add_None w a b :
  checked_add w a b = None <-> 2 ^ w <= a + b.
Proof.
  unfold checked_add. destruct (Z.ltb_spec (a + b) (2 ^ w)); split; intros;
    try done; lia.
Qed.

Lemma checked_sub_Some a b c :
  checked_sub a b = Some c <-> c = a - b /\ b <= a.
Proof.
  unfold checked_sub. destruct (Z.ltb_spec a b); split; intros Hc;
    destruct_and?; simplify_eq; try done; lia.
Qed.

Lemma checked_sub_None a b : checked_sub a b = None <-> a < b.
Proof.
  unfold checked_sub. destruct (Z.ltb_spec a b); split; intros; try done; lia.
Qed.

Lemma checked_mul_Some w a b c :
  checked_mul w a b = Some c <-> c = a * b /\ a * b < 2 ^ w.
Proof.
  unfold checked_mul. destruct (Z.ltb_spec (a * b) (2 ^ w)); split; intros Hc;
    destruct_and?; simplify_eq; try done; lia.
Qed.

Lemma ok_or_Ok {E A} (o : option A) (e : E) a :
  ok_or o e = Ok a <-> o = Some a.
Proof. destruct o; split; intros; simplify_eq/=; done. Qed.

Lemma ok_or_Err {E A} (o : option A) (e e' : E) :
  ok_or o e = Err e' <-> o = None /\ e' = e.
Proof. destruct o; simpl; naive_solver. Qed.

Lemma bind_Ok {E A B} (r : result E A) (f : A -> result E B) b :
  r ≫= f = Ok b <-> exists a, r = Ok a /\ f a = Ok b.
Proof. destruct r; simpl; naive_solver. Qed.

Lemma guard_err_Ok {E A} c (e : E) (k : result E A) a :
  guard_err c e k = Ok a <-> c = false /\ k = Ok a.
Proof. destruct c; simpl; naive_solver. Qed.

Lemma st_bind_Ok {S E A B} (m : ST S E A) (f : A -> ST S E B) s s' b :
  (m ≫= f) s = (s', Ok b) <-> exists a s1, m s = (s1, Ok a) /\ f a s1 = (s', Ok b).
Proof. unfold mbind, st_mbind. destruct (m s) as [s1 [a|e]]; naive_solver. Qed.

Lemma st_bind_Err {S E A B} (m : ST S E A) (f : A -> ST S E B) s s' e :
  (m ≫= f) s = (s', Err e) <->
  m s = (s', Err e) \/ exists a s1, m s = (s1, Ok a) /\ f a s1 = (s', Err e).
Proof. unfold mbind, st_mbind. destruct (m s) as [s1 [a|e1]]; naive_solver. Qed.

Lemma st_update_Ok {S E} (f : S -> result E S) s s' u :
  st_update f s = (s', Ok u) <-> f s = Ok s'.
Proof. unfold st_update. destruct (f s), u; naive_solver. Qed.

Lemma st_lift_Ok {S E A} (r : result E A) (s s' : S) a :
  st_lift r s = (s', Ok a) <-> s' = s /\ r = Ok a.
Proof. unfold st_lift. naive_solver. Qed.

Lemma st_check_Ok {S E A} (f : S -> result E A) s s' a :
  st_check f s = (s', Ok a) <-> s' = s /\ f s = Ok a.
Proof. unfold st_check. split; [intros [= <- ->]; done|intros [-> ->]; done]. Qed.

Lemma st_require_Ok {S E} c (e : E) (s s' : S) u :
  st_require c e s = (s', Ok u) <-> s' = s /\ c = true.
Proof. unfold st_require, st_lift. destruct c, u; naive_solver. Qed.

Lemma st_modify_Ok {S E} (f : S -> S) s s' u :
  st_modify (E := E) f s = (s', Ok u) <-> s' = f s.
Proof. unfold st_modify. destruct u. split; [by intros [= <-]|by intros ->]. Qed.

(** A relation kept by every step of a loop is kept by the loop, whether or
    not it fails. *)
Lemma st_iter_inv {S E A} (P : S -> Prop) (f : A -> ST S E unit) l s :
  (forall a s, a ∈ l -> P s -> P (f a s).1) -> P s -> P (st_iter f l s).1.
Proof.
  revert s. induction l as [|a l IH]; intros s Hf Hs; [done|].
  cbn [st_iter]. unfold mbind, st_mbind. pose proof (Hf a s ltac:(by left) Hs) as Ha.
  destruct (f a s) as [s1 [[]|e]]; [|done]. apply IH; [|done].
  intros a' s' Ha'. apply Hf. by right.
Qed.

(** A computation every step of which relates its final to its initial state
    by a preorder, also when it fails. *)
Section stays.
Context {S E : Type} (R : S -> S -> Prop) `{!PreOrder R}.

Definition stays {A} (m : ST S E A) : Prop := forall s, R s (m s).1.

Lemma stays_bind {A B} (m : ST S E A) (f : A -> ST S E B) :
  stays m -> (forall a, stays (f a)) -> stays (m ≫= f).
Proof.
  intros Hm Hf s. unfold mbind, st_mbind. specialize (Hm s).
  destruct (m s) as [s1 [a|e]]; [|done]. etransitivity; [exact Hm|apply Hf].
Qed.

Lemma stays_lift {A} (r : result E A) : stays (st_lift r).
Proof. intros s. reflexivity. Qed.

Lemma stays_bind_Ok {A B} (a : A) (f : A -> ST S E B) :
  stays (f a) -> stays (st_lift (Ok a) ≫= f).
Proof. intros Hf s. apply Hf. Qed.

Lemma stays_require c (e : E) : stays (st_require c e).
Proof. intros s. reflexivity. Qed.

Lemma stays_check {A} (f : S -> result E A) : stays (st_check f).
Proof. intros s. reflexivity. Qed.

Lemma stays_ret {A} (a : A) : stays (mret a : ST S E A).
Proof. intros s. reflexivity. Qed.

Lemma stays_modify f : (forall s, R s (f s)) -> stays (st_modify f).
Proof. intros Hf s. apply Hf. Qed.

Lemma stays_update f : (forall s s', f s = Ok s' -> R s s') -> stays (st_update f).
Proof.
  intros Hf s. unfold st_update. destruct (f s) eqn:Hs; [by apply Hf|reflexivity].
Qed.

Lemma stays_iter {A} (f : A -> ST S E unit) l :
  (forall a, a ∈ l -> stays (f a)) -> stays (st_iter f l).
Proof.
  induction l as [|a l IH]; intros Hf; [apply stays_ret|].
  apply stays_bind; [apply Hf; by left|]. intros _. apply IH. intros. apply Hf. by right.
Qed.
End stays.

(** A computation that answers alike in related states and leaves related
    states. *)
Section related.
Context {S E : Type} (R : S -> S -> Prop).

Definition related {A} (m : ST S E A) : Prop :=
  forall v s, R v s -> (m v).2 = (m s).2 /\ R (m v).1 (m s).1.

Lemma related_ret {A} (x : A) : related (mret x).
Proof. by intros v s. Qed.

Lemma related_lift {A} (r : result E A) : related (st_lift r).
Proof. by intros v s. Qed.

Lemma related_lift_Ok {A B} (x : A) (f : A -> ST S E B) : related (f x) -> related (st_lift (Ok x) ≫= f).
Proof. done. Qed.

Lemma related_bind {A B} (m : ST S E A) (f : A -> ST S E B) :
  related m -> (forall x, related (f x)) -> related (m ≫= f).
Proof.
  intros Hm Hf v s Hvs. specialize (Hm v s Hvs). unfold mbind, st_mbind.
  destruct (m v) as [v1 r1], (m s) as [s1 r2]. cbn in Hm. destruct Hm as [-> Hag].
  destruct r2 as [x|e]; [by apply Hf|done].
Qed.

Lemma related_check_bind {A B} (f : S -> result E A) (k : A -> ST S E B) :
  (forall v s, R v s -> f v = f s) -> (forall x, related (k x)) -> related (st_check f ≫= k).
Proof. intros Hf Hk. apply related_bind; [|done]. intros v s Hvs. by split; [apply Hf|]. Qed.

Lemma related_modify (f : S -> S) : (forall v s, R v s -> R (f v) (f s)) -> related (st_modify f).
Proof. intros Hf v s Hvs. by split; [|apply Hf]. Qed.

Lemma related_update (f : S -> result E S) :
  (forall v s, R v s -> match f v, f s with
    | Ok v', Ok s' => R v' s' | Err e, Err e' => e = e' | _, _ => False end) ->
  related (st_update f).
Proof.
  intros Hf v s Hvs. specialize (Hf v s Hvs). unfold st_update.
  destruct (f v), (f s); try done. by subst.
Qed.

Lemma related_iter {A} (f : A -> ST S E unit) l :
  (forall x, x ∈ l -> related (f x)) -> related (st_iter f l).
Proof.
  induction l as [|x l IH]; intros Hl; [apply related_ret|]. cbn [st_iter].
  apply related_bind; [apply Hl; by left|]. intros _. apply IH. intros y Hy. apply Hl. by right.
Qed.
End related.

(** Take a straight-line computation apart into its writes. *)
Ltac stays_tac :=
  repeat first
    [ apply stays_bind; [apply _| |intros ?]
    | apply stays_lift; apply _ | apply stays_require; apply _
    | apply stays_check; apply _ | apply stays_ret; apply _
    | apply stays_modify | apply stays_update; [apply _|] ].

Create Rewrite HintDb xparq.
#[export] Hint Rewrite @st_bind_Ok @st_update_Ok @st_lift_Ok @st_check_Ok @st_require_Ok
  @st_modify_Ok : xparq.
#[export] Hint Rewrite @bind_Ok @guard_err_Ok @ok_or_Ok checked_add_Some
  checked_sub_Some checked_mul_Some : xparq.

(** Take a hypothesis [body = Ok r] (or [= Some r]) of a straight-line body
    apart into its guards and intermediate results. *)
Ltac inv_ok :=
  repeat first
    [ progress (autorewrite with xparq in *)
    | progress destruct_and?
    | progress simplify_eq/=
    | match goal with
      | H : ex _ |- _ => destruct H
      | H : mbind _ _ = Some _ |- _ => apply bind_Some in H as (? & ? & ?)
      | H : negb _ = false |- _ => apply negb_false_iff in H
      | H : negb _ = true |- _ => apply negb_true_iff in H
      | H : _ || _ = false |- _ => apply orb_false_iff in H as [? ?]
      | H : _ && _ = true |- _ => apply andb_true_iff in H as [? ?]
      | H : bool_decide _ = true |- _ => apply bool_decide_eq_true in H
      | H : bool_decide _ = false |- _ => apply bool_decide_eq_false in H
      end ].

Lemma map_err_Ok_inv {E E' A} (f : E -> E') (r : result E A) a : map_err f r = Ok a -> r = Ok a.
Proof. by destruct r; intros [= ->]. Qed.

(** ** Lemmas on digit lists *)

Section digits_facts.
Context (B : Z) (HB : 2 <= B).

Lemma digits_val_bound l :
  digits B l -> 0 <= digits_val B l < B ^ Z.of_nat (length l).
Proof.
  induction 1 as [|d l Hd Hl IH]; simpl length; cbn [digits_val]; [lia|].
  rewrite Nat2Z.inj_succ, Z.pow_succ_r by lia. nia.
Qed.

Lemma digits_val_app l1 l2 :
  digits_val B (l1 ++ l2) =
    digits_val B l1 * B ^ Z.of_nat (length l2) + digits_val B l2.
Proof.
  induction l1 as [|d l1 IH]; simpl app; cbn [digits_val]; [lia|].
  rewrite IH, length_app, Nat2Z.inj_add, Z.pow_add_r by lia. lia.
Qed.

Lemma digits_val_zeros n : digits_val B (replicate n 0) = 0.
Proof. induction n as [|n IH]; [done|]. cbn [digits_val replicate]. lia. Qed.

Lemma digits_zeros n : digits B (replicate n 0).
Proof. apply Forall_replicate. lia. Qed.

Lemma digits_val_zero_iff l :
  digits B l -> digits_val B l = 0 <-> Forall (fun d => d = 0) l.
Proof.
  intros Hl. split.
  - induction Hl as [|d l Hd Hl IH]; [done|]. cbn [digits_val]. intros Hz.
    pose proof (digits_val_bound l Hl).
    assert (0 < B ^ Z.of_nat (length l)) by (apply Z.pow_pos_nonneg; lia).
    assert (d = 0) by nia. subst. constructor; [done|]. apply IH. lia.
  - intros Hz. clear Hl. induction Hz as [|d l -> Hz IH]; [done|].
    cbn [digits_val]. lia.
Qed.

Lemma digits_val_insert l i x y :
  l !! i = Some y ->
  digits_val B (<[i := x]> l) =
    digits_val B l + (x - y) * B ^ Z.of_nat (length l - 1 - i).
Proof.
  revert i; induction l as [|d l IH]; intros [|i] Hi; simplify_eq/=.
  - replace (length l - 0 - 0)%nat with (length l) by lia. lia.
  - rewrite IH, length_insert by done.
    apply lookup_lt_Some in Hi.
    replace (length l - 0 - S i)%nat with (length l - 1 - i)%nat by lia. lia.
Qed.

Lemma digits_insert l i x : digits B l -> 0 <= x < B -> digits B (<[i := x]> l).
Proof. intros Hl Hx. by apply Forall_insert. Qed.

(** Lexicographic order on equal-width digit lists is numeric order. *)
Lemma lex_compare_val l1 l2 :
  digits B l1 -> digits B l2 -> length l1 = length l2 ->
  lex_compare l1 l2 = (digits_val B l1 ?= digits_val B l2).
Proof.
  intros Hl1. revert l2; induction Hl1 as [|x l1 Hx Hl1 IH];
    intros [|y l2] Hl2 Hlen; simplify_eq/=; [done|].
  apply Forall_cons in Hl2 as [Hy Hl2]. rewrite Hlen.
  pose proof (digits_val_bound l1 Hl1) as Hb1.
  pose proof (digits_val_bound l2 Hl2) as Hb2. rewrite Hlen in Hb1.
  set (P := B ^ Z.of_nat (length l2)) in *.
  destruct (Z.compare_spec x y) as [->|Hlt|Hgt].
  - rewrite IH by done. symmetry. apply Z.add_compare_mono_l.
  - symmetry. apply Z.compare_lt_iff. nia.
  - symmetry. apply Z.compare_gt_iff. nia.
Qed.

Lemma digits_val_inj l1 l2 :
  digits B l1 -> digits B l2 -> length l1 = length l2 ->
  digits_val B l1 = digits_val B l2 -> l1 = l2.
Proof.
  intros Hl1. revert l2; induction Hl1 as [|x l1 Hx Hl1 IH];
    intros [|y l2] Hl2 Hlen Heq; simplify_eq/=; [done|].
  apply Forall_cons in Hl2 as [Hy Hl2]. rewrite Hlen in Heq.
  pose proof (digits_val_bound l1 Hl1) as Hb1.
  pose proof (digits_val_bound l2 Hl2) as Hb2. rewrite Hlen in Hb1.
  set (P := B ^ Z.of_nat (length l2)) in *.
  assert (x = y) as -> by nia. f_equal. apply IH; [done|done|nia].
Qed.
End digits_facts.

(** Concrete digit lists are checked by evaluation. *)
Lemma digits_compute B l :
  forallb (fun d => (0 <=? d) && (d <? B)) l = true -> digits B l.
Proof.
  rewrite forallb_forall. intros Hl. apply Forall_forall. intros d Hd%list_elem_of_In.
  apply Hl in Hd. lia.
Qed.

(** Little-endian integers. *)
Lemma length_le_bytes n x : length (le_bytes n x) = n.
Proof. revert x; induction n; intros; simpl; auto. Qed.

Lemma le_bytes_wf n x : bytes_wf (le_bytes n x).
Proof.
  revert x; induction n as [|n IH]; intros x; cbn [le_bytes];
    [by apply Forall_nil|].
  apply Forall_cons; split; [apply Z.mod_pos_bound; lia|apply IH].
Qed.

Lemma le_val_le_bytes n x :
  0 <= x < 256 ^ Z.of_nat n -> le_val (le_bytes n x) = x.
Proof.
  revert x; induction n as [|n IH]; intros x Hx; cbn [le_bytes le_val]; [lia|].
  rewrite Nat2Z.inj_succ, Z.pow_succ_r in Hx by lia.
  rewrite IH.
  - pose proof (Z.div_mod x 256). lia.
  - split; [apply Z.div_pos; lia|]. apply Z.div_lt_upper_bound; lia.
Qed.

Lemma le_bytes_inj n x y :
  0 <= x < 256 ^ Z.of_nat n -> 0 <= y < 256 ^ Z.of_nat n ->
  le_bytes n x = le_bytes n y -> x = y.
Proof.
  intros Hx Hy Heq. by rewrite <- (le_val_le_bytes n x), Heq, le_val_le_bytes.
Qed.

(** The order of Rust arrays is a total order. *)
Lemma lex_compare_refl a : lex_compare a a = Eq.
Proof. induction a; simpl; [done|]. by rewrite Z.compare_refl. Qed.

Lemma lex_compare_Eq a b : lex_compare a b = Eq <-> a = b.
Proof.
  split; [|intros ->; apply lex_compare_refl].
  revert b; induction a as [|x a IH]; intros [|y b]; simpl; try done.
  destruct (Z.compare_spec x y); intros; try done. subst. f_equal. auto.
Qed.

Lemma lex_compare_antisym a b : lex_compare b a = CompOpp (lex_compare a b).
Proof.
  revert b; induction a as [|x a IH]; intros [|y b]; simpl; try done.
  rewrite (Z.compare_antisym x y). destruct (x ?= y); simpl; auto.
Qed.

Lemma lex_compare_lt_trans a b c :
  lex_compare a b = Lt -> lex_compare b c = Lt -> lex_compare a c = Lt.
Proof.
  revert b c; induction a as [|x a IH]; intros [|y b] [|z c]; simpl; try done.
  destruct (Z.compare_spec x y), (Z.compare_spec y z); intros; try done; subst.
  - rewrite Z.compare_refl. eauto.
  - by rewrite (proj2 (Z.compare_lt_iff y z)).
  - by rewrite (proj2 (Z.compare_lt_iff x z)).
  - by rewrite (proj2 (Z.compare_lt_iff x z)) by lia.
Qed.
