(* ===== verification/Target.v ===== *)
(** * Proof-of-work targets

    Models [kernel/src/consensus/target.rs]: the 256-bit big-endian target
    [PoWTarget], its Bitcoin-style compact encoding, and the percentage scaling
    used by difficulty adjustment. Every loop over bytes is the loop of the
    source; the theorems relate it to arithmetic on the number the bytes
    denote. *)

From S2P Require Import Prelude.

Definition POW_HASH_SIZE : nat := 32.
Definition COMPACT_MANTISSA_MASK : Z := 0x007fffff.
Definition COMPACT_SIGN_MASK : Z := 0x00800000.
Definition POW_LIMIT_BITS : Z := 0x201fffff.

(** [PoWTarget([u8; POW_HASH_SIZE])]. *)
Abbreviation PoWTarget := (list Z) (only parsing).

Definition target_wf (t : PoWTarget) : Prop :=
  length t = POW_HASH_SIZE /\ bytes_wf t.

Module PoWTarget.

Definition is_zero (t : PoWTarget) : bool := forallb (fun byte => byte =? 0) t.

Definition from_bytes (bytes : list Z) : option PoWTarget :=
  if is_zero bytes then None else Some bytes.

Definition meets (t : PoWTarget) (hash : list Z) : bool := lex_leb hash t.

(** The multiplication loop of [scale_ratio], from the last byte to the first:
    the low bytes of the product and the carry out. *)
Fixpoint scale_mul (numerator : Z) (bytes : list Z) : option (list Z * Z) :=
  match bytes with
  | [] => Some ([], 0)
  | byte :: rest =>
      '(low, carry) ← scale_mul numerator rest;
      product ← checked_mul 32 byte numerator;
      product ← checked_add 32 product carry;
      Some (Z.land product 0xff :: low, Z.shiftr product 8)
  end.

(** The division loop of [scale_ratio], from the first byte to the last. *)
Fixpoint scale_div (denominator remainder : Z) (wide : list Z) : list Z :=
  match wide with
  | [] => []
  | byte :: rest =>
      let value := Z.lor (shl 32 remainder 8) byte in
      wrap 8 (value / denominator) :: scale_div denominator (value mod denominator) rest
  end.

Definition scale_ratio (t : PoWTarget) (numerator denominator : Z)
    : option PoWTarget :=
  if (numerator =? 0) || (denominator =? 0) || (255 <? numerator)
     || (255 <? denominator)
  then None
  else
    '(low, carry) ← scale_mul numerator t;
    if 255 <? carry then None
    else
      match scale_div denominator 0 (wrap 8 carry :: low) with
      | [] => None
      | w0 :: bytes =>
          if negb (w0 =? 0) then None
          else if forallb (fun byte => byte =? 0) bytes
               then Some (<[(POW_HASH_SIZE - 1)%nat := 1]> bytes)
               else Some bytes
      end.

(** The byte loop of [from_compact] for exponents up to three. *)
Definition compact_small (size : nat) (value : Z) (bytes : list Z) : list Z :=
  foldl (fun bytes index =>
           <[(POW_HASH_SIZE - size + index)%nat :=
               Z.land (Z.shiftr value (8 * Z.of_nat (size - 1 - index))) 0xff]> bytes)
        bytes (seq 0 size).

(** The loop of [from_compact] over the three mantissa bytes for larger
    exponents; a non-zero byte left of the array is an overflow. *)
Fixpoint compact_place (index : Z) (mantissa_bytes bytes : list Z)
    : option (list Z) :=
  match mantissa_bytes with
  | [] => Some bytes
  | byte :: rest =>
      if index <? 0 then
        if negb (byte =? 0) then None else compact_place (index + 1) rest bytes
      else if Z.of_nat POW_HASH_SIZE <=? index then
        compact_place (index + 1) rest bytes
      else compact_place (index + 1) rest (<[Z.to_nat index := byte]> bytes)
  end.

Definition from_compact (compact : Z) : option PoWTarget :=
  let size := Z.shiftr compact 24 in
  let mantissa := Z.land compact COMPACT_MANTISSA_MASK in
  if negb (Z.land compact COMPACT_SIGN_MASK =? 0) then None
  else if (size =? 0) || (mantissa =? 0) then None
  else if (34 <? size) || ((0xff <? mantissa) && (33 <? size))
          || ((0xffff <? mantissa) && (32 <? size)) then None
  else
    let bytes := replicate POW_HASH_SIZE 0 in
    if size <=? 3 then
      let value := Z.shiftr mantissa (8 * (3 - size)) in
      from_bytes (compact_small (Z.to_nat size) value bytes)
    else
      let mantissa_bytes :=
        [Z.land (Z.shiftr mantissa 16) 0xff;
         Z.land (Z.shiftr mantissa 8) 0xff;
         Z.land mantissa 0xff] in
      bytes ← compact_place (Z.of_nat POW_HASH_SIZE - size) mantissa_bytes bytes;
      from_bytes bytes.

(** [iter().position(|byte| *byte != 0)]. *)
Fixpoint first_nonzero (bytes : list Z) : option nat :=
  match bytes with
  | [] => None
  | byte :: rest => if byte =? 0 then S <$> first_nonzero rest else Some O
  end.

(** The byte at [i], [0] past the end: [.get(i).copied().unwrap_or(0)]. *)
Definition byte_at (bytes : list Z) (i : nat) : Z := default 0 (bytes !! i).

Definition to_compact (t : PoWTarget) : Z :=
  match first_nonzero t with
  | None => 0
  | Some first =>
      let size := Z.of_nat (POW_HASH_SIZE - first) in
      let mantissa :=
        if size <=? 3 then
          shl 32 (foldl (fun value byte => Z.lor (shl 32 value 8) byte) 0 (drop first t))
              (8 * (3 - size))
        else
          Z.lor (Z.lor (shl 32 (byte_at t first) 16) (shl 32 (byte_at t (first + 1)) 8))
                (byte_at t (first + 2)) in
      let '(mantissa, size) :=
        if negb (Z.land mantissa COMPACT_SIGN_MASK =? 0)
        then (Z.shiftr mantissa 8, size + 1) else (mantissa, size) in
      Z.lor (shl 32 size 24) (Z.land mantissa COMPACT_MANTISSA_MASK)
  end.

(** [from_compact(POW_LIMIT_BITS).expect(..)]; [pow_limit_some] below shows the
    expectation holds. *)
Definition pow_limit : PoWTarget := default [] (from_compact POW_LIMIT_BITS).

Definition scale_ratio_consensus (t : PoWTarget) (numerator denominator : Z)
    : option PoWTarget :=
  if (numerator =? 0) || (denominator =? 0) || (255 <? numerator)
     || (255 <? denominator)
  then None
  else
    match scale_ratio t numerator denominator with
    | Some target => Some (if lex_ltb pow_limit target then pow_limit else target)
    | None => if denominator <? numerator then Some pow_limit else None
    end.

Definition from_consensus_compact (compact : Z) : option PoWTarget :=
  target ← from_compact compact;
  if negb (to_compact target =? compact) then None
  else if lex_ltb pow_limit target then None
  else Some target.

End PoWTarget.

Definition hash_meets_target (hash : list Z) (target : PoWTarget) : bool :=
  PoWTarget.meets target hash.

(** ** The numbers behind the encodings *)

(** The number a compact word denotes: mantissa * 256^(exponent - 3), rounded
    down for exponents below three. *)
Definition compact_value (compact : Z) : Z :=
  compact mod 2 ^ 23 * 256 ^ (compact / 2 ^ 24) / 256 ^ 3.

Definition compact_sign (compact : Z) : bool := Z.testbit compact 23.

(** ** Scaling *)

Module PoWTargetFacts.
Import PoWTarget.

Lemma land_ff x : Z.land x 0xff = x mod 256.
Proof. change 0xff with (Z.ones 8). by rewrite Z.land_ones. Qed.

(** A shifted value with room for the next byte: [(x << 8) | b]. *)
Lemma shl_lor_byte x b :
  0 <= x < 2 ^ 24 -> 0 <= b < 256 -> Z.lor (shl 32 x 8) b = x * 256 + b.
Proof.
  intros Hx Hb. unfold shl, wrap. rewrite Z.shiftl_mul_pow2, Z.mod_small by lia.
  rewrite <- Z.add_nocarry_lor; [lia|].
  apply Z.bits_inj'. intros n Hn. rewrite Z.bits_0, Z.land_spec.
  destruct (Z.ltb_spec n 8).
  - by rewrite Z.mul_pow2_bits_low by lia.
  - rewrite (Z.bits_above_log2 b n), andb_false_r; [done|lia|].
    destruct (Z.eq_dec b 0) as [->|]; [simpl; lia|].
    assert (Z.log2 b < 8) by (apply Z.log2_lt_pow2; lia). lia.
Qed.

Lemma scale_mul_spec numerator bytes :
  1 <= numerator <= 255 -> bytes_wf bytes ->
  exists low carry,
    scale_mul numerator bytes = Some (low, carry) /\
    length low = length bytes /\ bytes_wf low /\
    0 <= carry < numerator /\
    carry * 256 ^ Z.of_nat (length bytes) + be_val low = be_val bytes * numerator.
Proof.
  intros Hn. induction 1 as [|b bytes Hb Hbytes IH].
  - exists [], 0. repeat split; try done; try lia. apply Forall_nil_2.
  - destruct IH as (low & carry & Hm & Hlen & Hwf & Hc & Hval).
    cbn [scale_mul]. rewrite Hm. cbn [mbind option_bind].
    unfold checked_mul, checked_add.
    replace (b * numerator <? 2 ^ 32) with true by (symmetry; apply Z.ltb_lt; nia).
    cbn [mbind option_bind].
    replace (b * numerator + carry <? 2 ^ 32) with true
      by (symmetry; apply Z.ltb_lt; nia).
    cbn [mbind option_bind].
    rewrite land_ff, Z.shiftr_div_pow2 by lia. change (2 ^ 8) with 256.
    set (p := b * numerator + carry) in *.
    pose proof (Z.div_mod p 256 ltac:(lia)) as Hdm.
    pose proof (Z.mod_pos_bound p 256 ltac:(lia)) as Hmb.
    eexists _, _. split; [done|]. simpl length. repeat split.
    + lia.
    + apply Forall_cons; split; [lia|done].
    + apply Z.div_pos; [nia|lia].
    + apply Z.div_lt_upper_bound; [lia|]. subst p. nia.
    + cbn [digits_val]. rewrite Hlen, Nat2Z.inj_succ, Z.pow_succ_r by lia.
      set (P := 256 ^ Z.of_nat (length bytes)) in *. subst p. nia.
Qed.

Lemma scale_div_spec denominator remainder wide :
  1 <= denominator <= 255 -> 0 <= remainder < denominator -> bytes_wf wide ->
  let q := scale_div denominator remainder wide in
  length q = length wide /\ bytes_wf q /\
  be_val q =
    (remainder * 256 ^ Z.of_nat (length wide) + be_val wide) / denominator.
Proof.
  intros Hd Hr Hw. revert remainder Hr.
  induction Hw as [|b wide Hb Hw IH]; intros remainder Hr; cbn zeta.
  - simpl. repeat split; [apply Forall_nil_2|].
    rewrite Z.div_small; lia.
  - cbn [scale_div]. rewrite shl_lor_byte by lia.
    set (v := remainder * 256 + b).
    assert (0 <= v / denominator < 256) as Hq.
    { split; [apply Z.div_pos; lia|]. apply Z.div_lt_upper_bound; nia. }
    pose proof (Z.mod_pos_bound v denominator ltac:(lia)) as Hm.
    destruct (IH (v mod denominator) Hm) as (Hlen & Hwf & Hval).
    unfold wrap. rewrite (Z.mod_small (v / denominator)) by (simpl; lia).
    simpl length. repeat split; [lia|apply Forall_cons; split; [lia|done]|].
    cbn [digits_val]. rewrite Hlen, Hval, Nat2Z.inj_succ, Z.pow_succ_r by lia.
    set (P := 256 ^ Z.of_nat (length wide)).
    replace (remainder * (256 * P) + (b * P + be_val wide))
      with (v / denominator * P * denominator + (v mod denominator * P + be_val wide)).
    + rewrite Z.div_add_l by lia. lia.
    + pose proof (Z.div_mod v denominator ltac:(lia)). nia.
Qed.

Lemma is_zero_val bytes :
  bytes_wf bytes -> is_zero bytes = true <-> be_val bytes = 0.
Proof.
  intros Hwf. rewrite (digits_val_zero_iff 256) by (done || lia).
  unfold is_zero. rewrite forallb_forall, Forall_forall.
  setoid_rewrite list_elem_of_In. setoid_rewrite Z.eqb_eq. done.
Qed.

Lemma scale_ratio_spec t numerator denominator :
  target_wf t -> 1 <= numerator <= 255 -> 1 <= denominator <= 255 ->
  let q := be_val t * numerator / denominator in
  match scale_ratio t numerator denominator with
  | Some t' => target_wf t' /\ q < 2 ^ 256 /\ be_val t' = Z.max 1 q
  | None => 2 ^ 256 <= q
  end.
Proof.
  intros [Hlen Hwf] Hn Hd q. unfold scale_ratio.
  replace (numerator =? 0) with false by lia.
  replace (denominator =? 0) with false by lia.
  replace (255 <? numerator) with false by lia.
  replace (255 <? denominator) with false by lia. cbn [orb].
  destruct (scale_mul_spec numerator t Hn Hwf)
    as (low & carry & -> & Hll & Hlwf & Hc & Hv). cbn [mbind option_bind].
  replace (255 <? carry) with false by lia.
  unfold wrap. rewrite (Z.mod_small carry) by (simpl; lia).
  destruct (scale_div_spec denominator 0 (carry :: low)) as (Hl & Hw & Hval);
    [done|lia|by apply Forall_cons; split; [lia|]|].
  cbn zeta in *. destruct (scale_div _ _ _) as [|w0 bytes]; [done|].
  apply Forall_cons in Hw as [Hw0 Hbytes]. simpl in Hl. simplify_eq.
  cbn [digits_val] in Hval. rewrite Z.mul_0_l, Z.add_0_l, Hll, Hv, Hl, Hll, Hlen in Hval.
  change (256 ^ Z.of_nat POW_HASH_SIZE) with (2 ^ 256) in Hval. fold q in Hval.
  pose proof (digits_val_bound 256 ltac:(lia) bytes Hbytes) as Hb.
  rewrite Hl, Hll, Hlen in Hb. change (256 ^ Z.of_nat POW_HASH_SIZE) with (2 ^ 256) in Hb.
  assert (target_wf bytes) as Hbwf by (split; [unfold POW_HASH_SIZE in *; lia|done]).
  destruct (Z.eqb_spec w0 0) as [->|Hne]; cbn [negb]; [|lia].
  change (forallb (fun byte => byte =? 0) bytes) with (is_zero bytes).
  destruct (is_zero bytes) eqn:Hz.
  - apply is_zero_val in Hz; [|done].
    destruct (lookup_lt_is_Some_2 bytes (POW_HASH_SIZE - 1)) as [y Hy];
      [destruct Hbwf as [-> _]; unfold POW_HASH_SIZE; lia|].
    split; [|split; [lia|]].
    + split; [by rewrite length_insert; apply Hbwf|].
      apply digits_insert; [done|lia].
    + rewrite (digits_val_insert 256 _ _ _ _ Hy), Hz.
      assert (y = 0) as ->.
      { apply digits_val_zero_iff in Hz; [|lia|done].
        by rewrite Forall_lookup in Hz; eapply Hz. }
      rewrite (proj1 Hbwf). simpl. lia.
  - assert (be_val bytes <> 0) by (intros Hb0; apply is_zero_val in Hb0; [congruence|done]).
    repeat split; try apply Hbwf; lia.
Qed.

(** ** The compact encoding *)

Lemma land_mask x : Z.land x COMPACT_MANTISSA_MASK = x mod 2 ^ 23.
Proof. change COMPACT_MANTISSA_MASK with (Z.ones 23). by rewrite Z.land_ones. Qed.

Lemma land_sign x : 0 <= x -> (Z.land x COMPACT_SIGN_MASK =? 0) = negb (Z.testbit x 23).
Proof.
  intros Hx. change COMPACT_SIGN_MASK with (2 ^ 23).
  destruct (Z.testbit x 23) eqn:Hb; cbn [negb].
  - apply Z.eqb_neq. intros Hz. apply (f_equal (fun z => Z.testbit z 23)) in Hz.
    by rewrite Z.land_spec, Hb, Z.pow2_bits_true in Hz by lia.
  - apply Z.eqb_eq, Z.bits_inj'. intros n Hn. rewrite Z.land_spec, Z.bits_0.
    destruct (Z.eq_dec n 23) as [->|]; [by rewrite Hb|].
    by rewrite Z.pow2_bits_false, andb_false_r by done.
Qed.

Lemma zeros_wf : target_wf (replicate POW_HASH_SIZE 0).
Proof. split; [done|]. apply digits_zeros. lia. Qed.

(** Writing a byte over a zero adds it at its weight. *)
Lemma insert_zero_val bytes i b :
  target_wf bytes -> bytes !! i = Some 0 -> 0 <= b < 256 ->
  target_wf (<[i := b]> bytes) /\
  be_val (<[i := b]> bytes) = be_val bytes + b * 256 ^ (31 - Z.of_nat i).
Proof.
  intros [Hlen Hwf] Hi Hb. pose proof (lookup_lt_Some _ _ _ Hi) as Hlt.
  split; [split; [by rewrite length_insert|by apply digits_insert]|].
  rewrite (digits_val_insert 256 _ _ _ _ Hi), Z.sub_0_r, Hlen.
  unfold POW_HASH_SIZE in *. repeat f_equal. lia.
Qed.

Lemma mantissa_bytes_val m :
  0 <= m < 2 ^ 23 ->
  m = Z.land (Z.shiftr m 16) 0xff * 256 ^ 2 + Z.land (Z.shiftr m 8) 0xff * 256
      + Z.land m 0xff.
Proof.
  intros Hm. rewrite !land_ff, !Z.shiftr_div_pow2 by lia.
  rewrite (Z.mod_small (m / 2 ^ 16)) by
    (split; [apply Z.div_pos; lia|apply Z.div_lt_upper_bound; lia]).
  change (2 ^ 16) with (256 * 256). change (2 ^ 8) with 256.
  rewrite <- Z.div_div by lia.
  pose proof (Z.div_mod m 256 ltac:(lia)).
  pose proof (Z.div_mod (m / 256) 256 ltac:(lia)). lia.
Qed.

Lemma compact_small_val size value :
  (1 <= size <= 3)%nat -> 0 <= value < 256 ^ Z.of_nat size ->
  target_wf (compact_small size value (replicate POW_HASH_SIZE 0)) /\
  be_val (compact_small size value (replicate POW_HASH_SIZE 0)) = value.
Proof.
  intros Hs Hv.
  assert (forall k, 0 <= Z.land (Z.shiftr value k) 0xff < 256) as Hb
    by (intros; rewrite land_ff; apply Z.mod_pos_bound; lia).
  assert (value = Z.land (Z.shiftr value 16) 0xff * 256 ^ 2
            + Z.land (Z.shiftr value 8) 0xff * 256 + Z.land (Z.shiftr value 0) 0xff) as Hsplit.
  { assert (value < 256 ^ 3).
    { assert (256 ^ Z.of_nat size <= 256 ^ 3) by (apply Z.pow_le_mono_r; lia). lia. }
    rewrite !land_ff, !Z.shiftr_div_pow2 by lia.
    rewrite (Z.mod_small (value / 2 ^ 16)) by
      (split; [apply Z.div_pos; lia|apply Z.div_lt_upper_bound; lia]).
    change (2 ^ 16) with (256 * 256). change (2 ^ 8) with 256.
    change (2 ^ 0) with 1. rewrite <- Z.div_div, Z.div_1_r by lia.
    pose proof (Z.div_mod value 256 ltac:(lia)).
    pose proof (Z.div_mod (value / 256) 256 ltac:(lia)). lia. }
  assert (forall k, value < 2 ^ k -> 0 <= k -> Z.land (Z.shiftr value k) 0xff = 0) as Hz.
  { intros k Hk Hk0. rewrite Z.shiftr_div_pow2, Z.div_small by lia. done. }
  pose proof (Hb 16). pose proof (Hb 8). pose proof (Hb 0).
  assert (size = 1 \/ size = 2 \/ size = 3)%nat as [-> | [-> | ->]] by lia;
    [change (256 ^ Z.of_nat 1) with 256 in Hv|change (256 ^ Z.of_nat 2) with 65536 in Hv
    |change (256 ^ Z.of_nat 3) with 16777216 in Hv];
    cbn [compact_small seq foldl]; simpl Z.of_nat; simpl Z.mul;
    (split; [split; [done|repeat constructor; try apply Hb; lia]|]);
    cbn -[Z.land Z.shiftr Z.pow]; rewrite ?Z.mul_0_l, ?Z.add_0_l;
    change (Z.of_nat 0) with 0; change (Z.of_nat 1) with 1; change (Z.of_nat 2) with 2;
    change (8 * 0) with 0; change (8 * 1) with 8; change (8 * 2) with 16;
    rewrite ?Z.pow_0_r, ?Z.pow_1_r.
  - rewrite (Hz 16), (Hz 8) in Hsplit by (change (2 ^ 16) with 65536; change (2 ^ 8) with 256; lia).
    lia.
  - rewrite (Hz 16) in Hsplit by (change (2 ^ 16) with 65536; lia). lia.
  - lia.
Qed.

Ltac zbool :=
  repeat match goal with
  | |- context [?a <? ?b] => destruct (Z.ltb_spec a b); [try lia|try lia]
  | |- context [?a <=? ?b] => destruct (Z.leb_spec a b); [try lia|try lia]
  | |- context [?a =? ?b] => destruct (Z.eqb_spec a b); [try lia|try lia]
  end.

Lemma from_bytes_val bytes :
  target_wf bytes ->
  match from_bytes bytes with
  | Some t => t = bytes /\ 0 < be_val bytes
  | None => be_val bytes = 0
  end.
Proof.
  intros [_ Hwf]. unfold from_bytes. pose proof (is_zero_val bytes Hwf) as Hz.
  pose proof (digits_val_bound 256 ltac:(lia) bytes Hwf).
  destruct (is_zero bytes); [by apply Hz|]. split; [done|].
  assert (be_val bytes <> 0) by (intros Hb; apply Hz in Hb; done). lia.
Qed.

(** Three bytes placed from [index]: inside the array, or with the leading ones
    pushed off the left end, where they must be zero. *)
Lemma compact_place_val size b0 b1 b2 :
  3 < size <= 34 ->
  0 <= b0 < 256 -> 0 <= b1 < 256 -> 0 <= b2 < 256 ->
  (32 < size -> b0 = 0) -> (33 < size -> b1 = 0) ->
  exists bytes,
    compact_place (Z.of_nat POW_HASH_SIZE - size) [b0; b1; b2]
      (replicate POW_HASH_SIZE 0) = Some bytes /\
    target_wf bytes /\
    be_val bytes = (b0 * 256 ^ 2 + b1 * 256 + b2) * 256 ^ (size - 3).
Proof.
  intros Hs Hb0 Hb1 Hb2 H33 H34. change (Z.of_nat POW_HASH_SIZE) with 32.
  assert (forall i, (i < 32)%nat -> replicate POW_HASH_SIZE 0 !! i = Some 0) as Hrep
    by (intros; apply lookup_replicate_2; unfold POW_HASH_SIZE; lia).
  pose proof zeros_wf as Hwf0.
  assert (be_val (replicate POW_HASH_SIZE 0) = 0) as Hv0 by (apply digits_val_zeros; lia).
  assert (size <= 32 \/ size = 33 \/ size = 34) as [Hle | [-> | ->]] by lia.
  - cbn [compact_place]. change (Z.of_nat POW_HASH_SIZE) with 32. zbool.
    eexists; split; [done|].
    destruct (insert_zero_val (replicate POW_HASH_SIZE 0) (Z.to_nat (32 - size)) b0)
      as [Hwf1 Hv1]; [done|apply Hrep; lia|done|].
    destruct (insert_zero_val (<[Z.to_nat (32 - size) := b0]> (replicate POW_HASH_SIZE 0))
                (Z.to_nat (32 - size + 1)) b1) as [Hwf2 Hv2]; [done| |done|].
    { rewrite list_lookup_insert_ne by lia. apply Hrep. lia. }
    match type of Hv2 with be_val ?l2 = _ =>
      destruct (insert_zero_val l2 (Z.to_nat (32 - size + 1 + 1)) b2) as [Hwf3 Hv3] end;
      [done| |done|].
    { rewrite !list_lookup_insert_ne by lia. apply Hrep. lia. }
    split; [done|]. rewrite Hv3, Hv2, Hv1, Hv0, !Z2Nat.id by lia.
    replace (31 - (32 - size)) with (size - 3 + 2) by lia.
    replace (31 - (32 - size + 1)) with (size - 3 + 1) by lia.
    replace (31 - (32 - size + 1 + 1)) with (size - 3) by lia.
    rewrite !Z.pow_add_r by lia. rewrite Z.pow_1_r. ring.
  - rewrite (H33 ltac:(lia)). eexists; split; [reflexivity|].
    destruct (insert_zero_val (replicate POW_HASH_SIZE 0) 0 b1) as [Hwf1 Hv1];
      [done|apply Hrep; lia|done|].
    destruct (insert_zero_val (<[0%nat := b1]> (replicate POW_HASH_SIZE 0)) 1 b2)
      as [Hwf2 Hv2]; [done| |done|].
    { rewrite list_lookup_insert_ne by lia. apply Hrep. lia. }
    split; [done|]. etrans; [apply Hv2|]. rewrite Hv1, Hv0.
    change (31 - Z.of_nat 0) with (30 + 1). change (31 - Z.of_nat 1) with 30.
    change (33 - 3) with 30. rewrite Z.pow_add_r by lia. ring.
  - rewrite (H33 ltac:(lia)), (H34 ltac:(lia)). eexists; split; [reflexivity|].
    destruct (insert_zero_val (replicate POW_HASH_SIZE 0) 0 b2) as [Hwf1 Hv1];
      [done|apply Hrep; lia|done|].
    split; [done|]. etrans; [apply Hv1|]. rewrite Hv0.
    change (31 - Z.of_nat 0) with 31. change (34 - 3) with 31. ring.
Qed.

Lemma div_pow_small m s : 0 <= s <= 3 -> m * 256 ^ s / 256 ^ 3 = m / 256 ^ (3 - s).
Proof.
  intros Hs. replace (256 ^ 3) with (256 ^ (3 - s) * 256 ^ s)
    by (rewrite <- Z.pow_add_r by lia; f_equal; lia).
  apply Z.div_mul_cancel_r; apply Z.pow_nonzero; lia.
Qed.

Lemma div_pow_large m s : 3 <= s -> m * 256 ^ s / 256 ^ 3 = m * 256 ^ (s - 3).
Proof.
  intros Hs. replace (256 ^ s) with (256 ^ (s - 3) * 256 ^ 3)
    by (rewrite <- Z.pow_add_r by lia; f_equal; lia).
  rewrite Z.mul_assoc. apply Z.div_mul. lia.
Qed.

(** The two byte loops of [from_compact] build the number they should, given
    that the overflow tests passed. *)
Lemma compact_bytes_val m s :
  0 <= m < 2 ^ 23 -> 0 < s <= 34 ->
  (m <= 0xff \/ s <= 33) -> (m <= 0xffff \/ s <= 32) ->
  exists bytes, target_wf bytes /\ be_val bytes = m * 256 ^ s / 256 ^ 3 /\
    (if s <=? 3 then from_bytes
        (compact_small (Z.to_nat s) (Z.shiftr m (8 * (3 - s))) (replicate POW_HASH_SIZE 0))
     else bytes ← compact_place (Z.of_nat POW_HASH_SIZE - s)
            [Z.land (Z.shiftr m 16) 0xff; Z.land (Z.shiftr m 8) 0xff; Z.land m 0xff]
            (replicate POW_HASH_SIZE 0); from_bytes bytes) = from_bytes bytes.
Proof.
  intros Hm Hs H33 H32. destruct (Z.leb_spec s 3).
  - rewrite Z.shiftr_div_pow2, div_pow_small by lia.
    replace (2 ^ (8 * (3 - s))) with (256 ^ (3 - s))
      by (rewrite Z.pow_mul_r by lia; done).
    destruct (compact_small_val (Z.to_nat s) (m / 256 ^ (3 - s))) as [Hwf Hval];
      [lia| |by eauto].
    split; [apply Z.div_pos; lia|]. apply Z.div_lt_upper_bound; [lia|].
    rewrite Z2Nat.id, <- Z.pow_add_r by lia.
    replace (3 - s + s) with 3 by lia. lia.
  - pose proof (mantissa_bytes_val m Hm) as Hsplit.
    assert (forall x, 0 <= Z.land x 0xff < 256) as Hb
      by (intros; rewrite land_ff; apply Z.mod_pos_bound; lia).
    pose proof (Hb (Z.shiftr m 16)). pose proof (Hb (Z.shiftr m 8)). pose proof (Hb m).
    destruct (compact_place_val s (Z.land (Z.shiftr m 16) 0xff)
      (Z.land (Z.shiftr m 8) 0xff) (Z.land m 0xff)) as (bytes & -> & Hwf & Hval);
      try done; try lia.
    exists bytes. split_and!; [done| |done].
    by rewrite Hval, <- Hsplit, div_pow_large by lia.
Qed.

(** The three overflow tests of [from_compact] reject exactly the words whose
    number does not fit. *)
Lemma compact_overflow_val m s :
  0 < m < 2 ^ 23 -> 0 < s ->
  (34 <? s) || ((0xff <? m) && (33 <? s)) || ((0xffff <? m) && (32 <? s)) = true ->
  2 ^ 256 <= m * 256 ^ s / 256 ^ 3.
Proof.
  intros Hm Hs Hov.
  assert (33 <= s) as Hs33.
  { rewrite !orb_true_iff, !andb_true_iff, !Z.ltb_lt in Hov. lia. }
  rewrite div_pow_large by lia.
  destruct (Z.ltb_spec 34 s); cbn [orb] in Hov.
  { assert (256 ^ 32 <= 256 ^ (s - 3)) by (apply Z.pow_le_mono_r; lia).
    change (2 ^ 256) with (256 ^ 32). nia. }
  apply orb_true_iff in Hov as [[? ?]%andb_true_iff|[? ?]%andb_true_iff].
  - assert (s = 34) as -> by lia.
    change (2 ^ 256) with (256 * 256 ^ 31). change (34 - 3) with 31. nia.
  - assert (256 ^ 30 <= 256 ^ (s - 3)) by (apply Z.pow_le_mono_r; lia).
    change (2 ^ 256) with (65536 * 256 ^ 30). nia.
Qed.

Lemma from_compact_spec compact :
  fits 32 compact ->
  match from_compact compact with
  | Some t =>
      target_wf t /\ be_val t = compact_value compact /\
      compact_sign compact = false /\ 0 < compact_value compact < 2 ^ 256
  | None =>
      compact_sign compact = true \/ compact_value compact = 0 \/
      2 ^ 256 <= compact_value compact
  end.
Proof.
  intros Hc. unfold fits, from_compact, compact_value, compact_sign in *.
  rewrite land_sign, negb_involutive, land_mask, Z.shiftr_div_pow2 by lia.
  destruct (Z.testbit compact 23); [by left|].
  set (m := compact mod 2 ^ 23). set (s := compact / 2 ^ 24).
  assert (0 <= m < 2 ^ 23) as Hm by (apply Z.mod_pos_bound; lia).
  assert (0 <= s) as Hs by (apply Z.div_pos; lia).
  clearbody m s. clear compact Hc.
  destruct (Z.eqb_spec s 0) as [->|Hs0]; cbn [orb].
  { right; left. change (256 ^ 0) with 1. rewrite Z.div_small; lia. }
  destruct (Z.eqb_spec m 0) as [->|Hm0]; cbn [orb]; [by right; left|].
  destruct ((34 <? s) || _ || _) eqn:Hov.
  { right; right. apply compact_overflow_val; [lia|lia|done]. }
  rewrite !orb_false_iff, !andb_false_iff, !Z.ltb_ge in Hov.
  destruct (compact_bytes_val m s) as (bytes & Hwf & Hval & ->); [lia..|].
  pose proof (from_bytes_val bytes Hwf) as Hfb.
  pose proof (digits_val_bound 256 ltac:(lia) bytes (proj2 Hwf)) as Hb.
  rewrite (proj1 Hwf), Hval in Hb.
  destruct (from_bytes bytes); [|rewrite <- Hval; by auto].
  destruct Hfb as [-> Hpos]. rewrite Hval in Hpos.
  change (256 ^ Z.of_nat POW_HASH_SIZE) with (2 ^ 256) in Hb.
  by split_and!; try lia.
Qed.

Lemma testbit_top m : 0 <= m < 2 ^ 24 -> Z.testbit m 23 = (2 ^ 23 <=? m).
Proof.
  intros Hm. destruct (Z.leb_spec (2 ^ 23) m).
  - apply Z.testbit_true; [lia|].
    replace (m / 2 ^ 23) with 1; [done|].
    apply (Z.div_unique m (2 ^ 23) 1 (m - 2 ^ 23)); lia.
  - apply Z.testbit_false; [lia|]. by rewrite Z.div_small by lia.
Qed.

Lemma first_nonzero_spec t :
  bytes_wf t ->
  match first_nonzero t with
  | None => be_val t = 0
  | Some f =>
      exists rest, t = replicate f 0 ++ rest /\ (f < length t)%nat /\
        256 ^ (Z.of_nat (length rest) - 1) <= be_val rest
  end.
Proof.
  induction 1 as [|b t Hb Ht IH]; [done|]. cbn [first_nonzero].
  destruct (Z.eqb_spec b 0) as [->|Hnz].
  - destruct (first_nonzero t) as [f|]; simpl.
    + destruct IH as (rest & -> & Hf & Hv). exists rest. split_and!; [done|lia|done].
    + cbn [digits_val]. lia.
  - exists (b :: t). split_and!; [done|simpl; lia|]. simpl length.
    pose proof (digits_val_bound 256 ltac:(lia) t Ht). cbn [digits_val].
    replace (Z.of_nat (S (length t)) - 1) with (Z.of_nat (length t)) by lia. nia.
Qed.

(** Accumulating up to three bytes in a [u32]. *)
Lemma foldl_bytes_val l acc k :
  bytes_wf l -> 0 <= k -> k + Z.of_nat (length l) <= 4 -> 0 <= acc < 256 ^ k ->
  foldl (fun value byte => Z.lor (shl 32 value 8) byte) acc l =
    acc * 256 ^ Z.of_nat (length l) + be_val l.
Proof.
  intros Hl. revert acc k. induction Hl as [|b l Hb Hl IH]; intros acc k Hk Hlen Hacc.
  - simpl. lia.
  - simpl length in *. cbn [foldl digits_val].
    assert (acc < 2 ^ 24).
    { change (2 ^ 24) with (256 ^ 3).
      assert (256 ^ k <= 256 ^ 3) by (apply Z.pow_le_mono_r; lia). lia. }
    rewrite shl_lor_byte by lia. rewrite (IH _ (k + 1)).
    + rewrite Nat2Z.inj_succ, Z.pow_succ_r by lia. ring.
    + lia.
    + lia.
    + rewrite Z.pow_add_r by lia. lia.
Qed.

(** The normalised mantissa of [v] at exponent [s]. *)
Definition mantissa_at (v s : Z) : Z := v * 256 ^ 3 / 256 ^ s.

Lemma mantissa_at_add v s k :
  0 <= s -> 0 <= k -> mantissa_at v (s + k) = mantissa_at v s / 256 ^ k.
Proof.
  intros. unfold mantissa_at. rewrite Z.pow_add_r by lia.
  symmetry. apply Z.div_div; lia.
Qed.

Lemma mantissa_at_unique v s1 s2 :
  0 <= s1 -> 0 <= s2 ->
  2 ^ 15 <= mantissa_at v s1 < 2 ^ 23 -> 2 ^ 15 <= mantissa_at v s2 < 2 ^ 23 ->
  s1 = s2.
Proof.
  assert (forall s1 s2, 0 <= s1 -> s1 < s2 ->
    2 ^ 15 <= mantissa_at v s1 < 2 ^ 23 -> mantissa_at v s2 < 2 ^ 15) as Hlt.
  { intros a b Ha Hab [_ Hm]. replace b with (a + (b - a)) by lia.
    rewrite mantissa_at_add by lia.
    apply Z.div_lt_upper_bound; [lia|].
    assert (256 ^ 1 <= 256 ^ (b - a)) by (apply Z.pow_le_mono_r; lia). lia. }
  intros. destruct (Z.lt_trichotomy s1 s2) as [Hl|[->|Hl]]; [|done|];
    [specialize (Hlt s1 s2)|specialize (Hlt s2 s1)]; lia.
Qed.

Lemma shl_small w x k :
  0 <= k -> 0 <= x -> x * 2 ^ k < 2 ^ w -> shl w x k = x * 2 ^ k.
Proof.
  intros. unfold shl, wrap. rewrite Z.shiftl_mul_pow2 by done.
  apply Z.mod_small. nia.
Qed.

Lemma lor_three_bytes b0 b1 b2 :
  0 <= b0 < 256 -> 0 <= b1 < 256 -> 0 <= b2 < 256 ->
  Z.lor (Z.lor (shl 32 b0 16) (shl 32 b1 8)) b2 = (b0 * 256 + b1) * 256 + b2.
Proof.
  intros. rewrite <- (shl_lor_byte (b0 * 256 + b1)) by lia. f_equal.
  rewrite <- (shl_lor_byte b0) by lia.
  rewrite (shl_small 32 b0 8), (shl_small 32 b0 16), (shl_small 32 b1 8) by lia.
  rewrite <- !Z.shiftl_mul_pow2 by lia.
  rewrite (shl_small 32 (Z.lor _ _)); [|lia| |].
  - rewrite <- Z.shiftl_mul_pow2, Z.shiftl_lor, Z.shiftl_shiftl by lia. done.
  - apply Z.lor_nonneg. rewrite Z.shiftl_nonneg. lia.
  - rewrite Z.shiftl_mul_pow2, <- (shl_small 32 b0 8), shl_lor_byte by lia. lia.
Qed.

Lemma mantissa_at_range v n :
  1 <= n -> 256 ^ (n - 1) <= v < 256 ^ n -> 2 ^ 16 <= mantissa_at v n < 2 ^ 24.
Proof.
  intros Hn Hv. unfold mantissa_at.
  assert (256 ^ n = 256 ^ (n - 1) * 256) as Hp
    by (replace n with (n - 1 + 1) at 1 by lia; by rewrite Z.pow_add_r by lia).
  assert (0 < 256 ^ (n - 1)) by (apply Z.pow_pos_nonneg; lia).
  split; [apply Z.div_le_lower_bound|apply Z.div_lt_upper_bound]; lia.
Qed.

Lemma compact_word s m :
  0 <= s < 2 ^ 8 -> 0 <= m < 2 ^ 23 ->
  Z.lor (shl 32 s 24) (Z.land m COMPACT_MANTISSA_MASK) = s * 2 ^ 24 + m.
Proof.
  intros Hs Hm. rewrite land_mask, Z.mod_small, shl_small by lia.
  symmetry. apply Z.add_nocarry_lor, Z.bits_inj'. intros i Hi.
  rewrite Z.land_spec, Z.bits_0. destruct (Z.ltb_spec i 24).
  - by rewrite Z.mul_pow2_bits_low by lia.
  - rewrite (Z.bits_above_log2 m i), andb_false_r; [done|lia|].
    destruct (Z.eq_dec m 0) as [->|]; [simpl; lia|].
    assert (Z.log2 m < 23) by (apply Z.log2_lt_pow2; lia). lia.
Qed.

(** The leading three bytes of [n] significant bytes are the mantissa at
    exponent [n]. *)
Lemma leading_mantissa rest :
  bytes_wf rest -> (0 < length rest)%nat ->
  (if Z.of_nat (length rest) <=? 3
   then shl 32 (foldl (fun value byte => Z.lor (shl 32 value 8) byte) 0 rest)
            (8 * (3 - Z.of_nat (length rest)))
   else Z.lor (Z.lor (shl 32 (byte_at rest 0) 16) (shl 32 (byte_at rest 1) 8))
              (byte_at rest 2))
  = mantissa_at (be_val rest) (Z.of_nat (length rest)).
Proof.
  intros Hwf Hlen. pose proof (digits_val_bound 256 ltac:(lia) rest Hwf) as Hb.
  set (n := Z.of_nat (length rest)) in *. unfold mantissa_at.
  destruct (Z.leb_spec n 3).
  - rewrite (foldl_bytes_val rest 0 0) by (done || lia).
    rewrite Z.mul_0_l, Z.add_0_l. unfold shl, wrap.
    rewrite Z.shiftl_mul_pow2 by lia.
    replace (2 ^ (8 * (3 - n))) with (256 ^ (3 - n)) by (rewrite Z.pow_mul_r by lia; done).
    replace (be_val rest * 256 ^ 3) with (be_val rest * 256 ^ (3 - n) * 256 ^ n)
      by (rewrite <- Z.mul_assoc, <- Z.pow_add_r by lia; do 2 f_equal; lia).
    rewrite Z.div_mul by (apply Z.pow_nonzero; lia). apply Z.mod_small. split; [nia|].
    assert (256 ^ n * 256 ^ (3 - n) = 256 ^ 3) as Hp
      by (rewrite <- Z.pow_add_r by lia; f_equal; lia).
    assert (0 < 256 ^ (3 - n)) by (apply Z.pow_pos_nonneg; lia). nia.
  - destruct rest as [|b0 [|b1 [|b2 tl]]]; [simpl in *; lia..|].
    unfold digits in *. rewrite !Forall_cons in Hwf. destruct_and! Hwf.
    unfold byte_at. simpl default. rewrite lor_three_bytes by done.
    assert (n = Z.of_nat (length tl) + 3) as -> by (subst n; simpl length; lia).
    pose proof (digits_val_bound 256 ltac:(lia) tl ltac:(done)).
    cbn [digits_val length]. rewrite !Nat2Z.inj_succ, !Z.pow_succ_r, Z.pow_add_r by lia.
    rewrite Z.div_mul_cancel_r by (try apply Z.pow_nonzero; lia).
    set (P := 256 ^ Z.of_nat (length tl)) in *.
    replace (b0 * (256 * (256 * P)) + (b1 * (256 * P) + (b2 * P + be_val tl)))
      with (((b0 * 256 + b1) * 256 + b2) * P + be_val tl) by ring.
    rewrite Z.div_add_l, Z.div_small by lia. lia.
Qed.

(** The exponent [to_compact] chooses is the one at which the mantissa has its
    top bit clear and at least sixteen significant bits; the word is that
    exponent and mantissa. *)
Lemma to_compact_norm t :
  target_wf t -> 0 < be_val t ->
  exists s, 1 <= s <= 33 /\
    to_compact t = s * 2 ^ 24 + mantissa_at (be_val t) s /\
    2 ^ 15 <= mantissa_at (be_val t) s < 2 ^ 23.
Proof.
  intros [Hlen Hwf] Hpos. unfold to_compact.
  pose proof (first_nonzero_spec t Hwf) as Hf.
  destruct (first_nonzero t) as [f|]; [|lia].
  destruct Hf as (rest & -> & Hlt & Hlow).
  apply Forall_app in Hwf as [_ Hwf].
  rewrite digits_val_app, digits_val_zeros, Z.mul_0_l, Z.add_0_l in * by lia.
  rewrite length_app, length_replicate in *.
  replace (POW_HASH_SIZE - f)%nat with (length rest) by lia.
  rewrite drop_app_length' by (by rewrite length_replicate).
  assert (forall i, byte_at (replicate f 0 ++ rest) (f + i) = byte_at rest i) as Hat.
  { intros i. unfold byte_at. f_equal. rewrite lookup_app_r by (rewrite length_replicate; lia).
    f_equal. rewrite length_replicate. lia. }
  pose proof (Hat 0%nat) as Hat0. rewrite Nat.add_0_r in Hat0.
  rewrite Hat0, !Hat, leading_mantissa by (done || lia).
  pose proof (digits_val_bound 256 ltac:(lia) rest Hwf) as Hb.
  set (n := Z.of_nat (length rest)) in *. set (v := be_val rest) in *.
  assert (1 <= n <= 32) as Hn by (unfold POW_HASH_SIZE in *; lia).
  assert (2 ^ 16 <= mantissa_at v n < 2 ^ 24) as Hm by (apply mantissa_at_range; lia).
  rewrite land_sign, negb_involutive, testbit_top by lia.
  destruct (Z.leb_spec (2 ^ 23) (mantissa_at v n)).
  - assert (mantissa_at v (n + 1) = mantissa_at v n / 256) as Hs
      by (rewrite mantissa_at_add by lia; done).
    assert (2 ^ 15 <= mantissa_at v n / 256 < 2 ^ 16).
    { split; [apply Z.div_le_lower_bound; lia|apply Z.div_lt_upper_bound; lia]. }
    exists (n + 1). rewrite Z.shiftr_div_pow2, Hs by lia. change (2 ^ 8) with 256.
    split_and!; [lia..| |lia|lia]. by apply compact_word; lia.
  - exists n. split_and!; [lia..| |lia|lia]. by apply compact_word; lia.
Qed.

Lemma decoded_bounds v s m :
  0 < v -> 0 <= s -> m = mantissa_at v s -> 2 ^ 15 <= m < 2 ^ 23 ->
  let v' := m * 256 ^ s / 256 ^ 3 in
  0 < v' <= v /\ (v - v') * 2 ^ 15 < v /\ mantissa_at v' s = m.
Proof.
  intros Hv Hs Hdef Hm v'. unfold mantissa_at in Hdef.
  destruct (Z.le_gt_cases s 3).
  - assert (m = v * 256 ^ (3 - s)) as Hm'.
    { rewrite Hdef. replace (256 ^ 3) with (256 ^ (3 - s) * 256 ^ s)
        by (rewrite <- Z.pow_add_r by lia; f_equal; lia).
      rewrite Z.mul_assoc. apply Z.div_mul. apply Z.pow_nonzero; lia. }
    assert (v' = v) as ->.
    { subst v'. rewrite div_pow_small, Hm', Z.div_mul by
        (try apply Z.pow_nonzero; lia). done. }
    split_and!; [lia..|]. by rewrite Hdef.
  - assert (v' = m * 256 ^ (s - 3)) as Hv' by (apply div_pow_large; lia).
    set (Q := 256 ^ (s - 3)) in *.
    assert (0 < Q) by (apply Z.pow_pos_nonneg; lia).
    assert (m = v / Q) as Hm'.
    { rewrite Hdef. replace (256 ^ s) with (Q * 256 ^ 3)
        by (unfold Q; rewrite <- Z.pow_add_r by lia; f_equal; lia).
      apply Z.div_mul_cancel_r; lia. }
    pose proof (Z.div_mod v Q ltac:(lia)). pose proof (Z.mod_pos_bound v Q ltac:(lia)).
    split_and!; [nia..|].
    rewrite Hv'. unfold mantissa_at. replace (256 ^ s) with (Q * 256 ^ 3)
      by (unfold Q; rewrite <- Z.pow_add_r by lia; f_equal; lia).
    rewrite Z.div_mul_cancel_r, Z.div_mul by lia. done.
Qed.

(** Decoding what [to_compact] wrote: the low-order bytes below the mantissa
    are cleared, so the decoded target is never larger, and it is within one
    part in 2^15 of the original. *)
Lemma from_to_compact t :
  target_wf t -> 0 < be_val t ->
  exists t', from_compact (to_compact t) = Some t' /\ target_wf t' /\
    0 < be_val t' <= be_val t /\
    (be_val t - be_val t') * 2 ^ 15 < be_val t /\
    to_compact t' = to_compact t.
Proof.
  intros Hwf Hpos. destruct (to_compact_norm t Hwf Hpos) as (s & Hs & Hc & Hm).
  pose proof (digits_val_bound 256 ltac:(lia) t (proj2 Hwf)) as Hb.
  rewrite (proj1 Hwf) in Hb. change (256 ^ Z.of_nat POW_HASH_SIZE) with (2 ^ 256) in Hb.
  set (v := be_val t) in *. set (m := mantissa_at v s) in *.
  assert (fits 32 (to_compact t)) as Hfit by (unfold fits; lia).
  assert (to_compact t mod 2 ^ 23 = m) as Hmod.
  { rewrite Hc. replace (s * 2 ^ 24 + m) with (m + (s * 2) * 2 ^ 23) by lia.
    rewrite Z.mod_add, Z.mod_small; lia. }
  assert (to_compact t / 2 ^ 24 = s) as Hdiv
    by (rewrite Hc, Z.div_add_l, Z.div_small by lia; lia).
  assert (compact_sign (to_compact t) = false) as Hsign.
  { unfold compact_sign. apply Z.testbit_false; [lia|].
    rewrite Hc. replace (s * 2 ^ 24 + m) with (s * 2 * 2 ^ 23 + m) by lia.
    rewrite Z.div_add_l, (Z.div_small m) by lia.
    rewrite Z.add_0_r. apply Z.mod_mul. lia. }
  destruct (decoded_bounds v s m ltac:(lia) ltac:(lia) eq_refl Hm) as (Hle & Hgap & Hback).
  pose proof (from_compact_spec _ Hfit) as Hspec.
  unfold compact_value in Hspec. rewrite Hmod, Hdiv in Hspec.
  set (v' := m * 256 ^ s / 256 ^ 3) in *.
  destruct (from_compact (to_compact t)) as [t'|];
    [|destruct Hspec as [?|[?|?]]; [congruence|lia|lia]].
  destruct Hspec as (Hwf' & Hv' & _ & Hpos').
  exists t'. rewrite Hv'. split_and!; try done; try lia.
  destruct (to_compact_norm t' Hwf' ltac:(lia)) as (s' & Hs' & Hc' & Hm').
  rewrite Hv' in *. assert (s' = s) as ->.
  { apply (mantissa_at_unique v' s' s); [lia..|done|]. by rewrite Hback. }
  by rewrite Hc', Hback, Hc.
Qed.

End PoWTargetFacts.

(** ** Properties *)

Section target_properties.
Import PoWTarget PoWTargetFacts.

Lemma target_val_pos_bound t :
  target_wf t -> 0 <= be_val t < 2 ^ 256.
Proof.
  intros [Hlen Hwf]. pose proof (digits_val_bound 256 ltac:(lia) t Hwf) as Hb.
  by rewrite Hlen in Hb.
Qed.

Lemma lex_ltb_val t1 t2 :
  target_wf t1 -> target_wf t2 -> lex_ltb t1 t2 = (be_val t1 <? be_val t2).
Proof.
  intros [Hl1 H1] [Hl2 H2]. unfold lex_ltb.
  rewrite (lex_compare_val 256) by (done || lia || congruence). done.
Qed.

Lemma pow_limit_some :
  from_compact POW_LIMIT_BITS = Some pow_limit /\ target_wf pow_limit /\
  be_val pow_limit = 0x1fffff * 256 ^ 29.
Proof.
  split_and!; [by vm_compute| |by vm_compute].
  split; [by vm_compute|]. apply digits_compute. by vm_compute.
Qed.

(** Scaling a target is exact integer arithmetic: for ratio terms in
    [1, 255] the byte-wise long multiplication and long division return the
    32-byte big-endian form of floor(target * numerator / denominator), raised
    to 1 when the quotient is 0, and fail exactly when the quotient does not fit
    in 256 bits. *)
Theorem scale_ratio_exact t numerator denominator :
  target_wf t -> 1 <= numerator <= 255 -> 1 <= denominator <= 255 ->
  let q := be_val t * numerator / denominator in
  match scale_ratio t numerator denominator with
  | Some t' => target_wf t' /\ q < 2 ^ 256 /\ be_val t' = Z.max 1 q
  | None => 2 ^ 256 <= q
  end.
Proof. apply scale_ratio_spec. Qed.

Lemma scale_ratio_exact_witness :
  be_val (default [] (scale_ratio pow_limit 80 100)) = 0x1fffff * 256 ^ 29 * 80 / 100.
Proof.
  pose proof (scale_ratio_exact pow_limit 80 100 (proj1 (proj2 pow_limit_some))
    ltac:(lia) ltac:(lia)) as H.
  vm_compute in H. destruct H as (_ & _ & H). vm_compute. exact H.
Defined.

(** Difficulty scaling used by consensus is total and clamped: for every
    well-formed target and ratio terms in [1, 255] it returns
    min(max(1, floor(target * numerator / denominator)), limit), including when
    the exact quotient overflows 256 bits. *)
Theorem scale_ratio_consensus_clamped t numerator denominator :
  target_wf t -> 1 <= numerator <= 255 -> 1 <= denominator <= 255 ->
  exists t', scale_ratio_consensus t numerator denominator = Some t' /\
    target_wf t' /\
    be_val t' =
      Z.min (Z.max 1 (be_val t * numerator / denominator)) (be_val pow_limit).
Proof.
  intros Ht Hn Hd. unfold scale_ratio_consensus.
  replace (numerator =? 0) with false by lia. replace (denominator =? 0) with false by lia.
  replace (255 <? numerator) with false by lia.
  replace (255 <? denominator) with false by lia. cbn [orb].
  destruct pow_limit_some as (_ & Hlwf & Hlv).
  pose proof (scale_ratio_spec t numerator denominator Ht Hn Hd) as Hs. cbn zeta in Hs.
  pose proof (target_val_pos_bound t Ht) as Hb.
  destruct (scale_ratio t numerator denominator) as [t'|].
  - destruct Hs as (Hwf' & _ & Hv'). rewrite lex_ltb_val by done.
    destruct (Z.ltb_spec (be_val pow_limit) (be_val t')); eexists; split_and!;
      try done; lia.
  - destruct (Z.ltb_spec denominator numerator).
    + exists pow_limit. split_and!; [done..|]. rewrite Hlv. lia.
    + exfalso. assert (be_val t * numerator / denominator <= be_val t); [|lia].
      apply Z.div_le_upper_bound; nia.
Qed.

Lemma scale_ratio_consensus_clamped_witness :
  exists t', scale_ratio_consensus pow_limit 120 100 = Some t' /\
    be_val t' = be_val pow_limit.
Proof.
  destruct (scale_ratio_consensus_clamped pow_limit 120 100
    (proj1 (proj2 pow_limit_some)) ltac:(lia) ltac:(lia)) as (t' & Ht & _ & Hv).
  exists t'. split; [exact Ht|]. rewrite Hv. vm_compute. reflexivity.
Defined.

(** Decoding a compact target is exact: for every 32-bit word,
    [from_compact] returns the 32-byte form of mantissa * 256^(exponent - 3)
    when the sign bit is clear and that number is in [1, 2^256), and rejects the
    word in every other case. *)
Theorem from_compact_exact compact :
  fits 32 compact ->
  match from_compact compact with
  | Some t =>
      target_wf t /\ be_val t = compact_value compact /\
      compact_sign compact = false /\ 0 < compact_value compact < 2 ^ 256
  | None =>
      compact_sign compact = true \/ compact_value compact = 0 \/
      2 ^ 256 <= compact_value compact
  end.
Proof. apply from_compact_spec. Qed.

Lemma from_compact_exact_witness :
  compact_value 0x1d00ffff = 0xffff * 256 ^ 26.
Proof.
  pose proof (from_compact_exact 0x1d00ffff ltac:(unfold fits; lia)) as H.
  vm_compute. vm_compute in H. destruct H as (_ & H & _). exact H.
Defined.

(** Compact encoding round trip: encoding any non-zero target and decoding
    the word succeeds, never yields a larger (easier) target, loses less than
    one part in 2^15, and re-encodes to the same word. *)
Theorem compact_round_trip t :
  target_wf t -> 0 < be_val t ->
  exists t', from_compact (to_compact t) = Some t' /\ target_wf t' /\
    0 < be_val t' <= be_val t /\
    (be_val t - be_val t') * 2 ^ 15 < be_val t /\
    to_compact t' = to_compact t.
Proof. apply from_to_compact. Qed.

Lemma compact_round_trip_witness :
  exists t', from_compact (to_compact pow_limit) = Some t' /\
    be_val t' <= 0x1fffff * 256 ^ 29.
Proof.
  destruct pow_limit_some as (_ & Hwf & Hv).
  destruct (compact_round_trip pow_limit Hwf ltac:(rewrite Hv; lia))
    as (t' & H1 & _ & H2 & _).
  exists t'. split; [exact H1|]. rewrite Hv in H2. lia.
Defined.

(** Header words accepted by consensus are exactly the canonical encodings
    of targets in [1, limit]: a word is accepted iff it is what [to_compact]
    writes for some such target, and the decoded target determines the word. *)
Theorem from_consensus_compact_canonical compact :
  fits 32 compact ->
  (is_Some (from_consensus_compact compact) <->
   exists t, target_wf t /\ 0 < be_val t <= be_val pow_limit /\
     compact = to_compact t) /\
  (forall t, from_consensus_compact compact = Some t -> to_compact t = compact).
Proof.
  intros Hc. destruct pow_limit_some as (_ & Hlwf & _).
  assert (forall t, from_consensus_compact compact = Some t ->
    from_compact compact = Some t /\ to_compact t = compact /\
    lex_ltb pow_limit t = false) as Hinv.
  { intros t (t' & Ht & Hif)%bind_Some.
    destruct (Z.eqb_spec (to_compact t') compact); cbn [negb] in Hif; [|done].
    destruct (lex_ltb pow_limit t') eqn:?; by simplify_eq. }
  split; [|by intros t (_ & ? & _)%Hinv]. split.
  - intros [t (Hd & He & Hl)%Hinv]. exists t.
    pose proof (from_compact_spec compact Hc) as Hs. rewrite Hd in Hs.
    destruct Hs as (Hwf & Hv & _ & Hb). rewrite lex_ltb_val in Hl by done.
    split_and!; [done|lia|lia|done].
  - intros (t & Hwf & Hb & ->).
    destruct (from_to_compact t Hwf ltac:(lia)) as (t' & Hd & Hwf' & Hle & _ & He).
    unfold from_consensus_compact. rewrite Hd. cbn [mbind option_bind].
    rewrite He, Z.eqb_refl, lex_ltb_val by done. cbn [negb].
    destruct (Z.ltb_spec (be_val pow_limit) (be_val t')); [lia|by eauto].
Qed.

Lemma from_consensus_compact_canonical_witness :
  is_Some (from_consensus_compact POW_LIMIT_BITS).
Proof.
  apply (from_consensus_compact_canonical POW_LIMIT_BITS ltac:(unfold fits; vm_compute; by split)).
  exists pow_limit. destruct pow_limit_some as (_ & Hwf & Hv).
  split; [exact Hwf|]. split; [rewrite Hv; lia|]. vm_compute. reflexivity.
Defined.

(** [meets] compares numbers: the hash read big-endian is at most the target. *)
Lemma meets_val t hash :
  target_wf t -> target_wf hash -> meets t hash = (be_val hash <=? be_val t).
Proof.
  intros [Hl1 H1] [Hl2 H2]. unfold meets, lex_leb.
  rewrite (lex_compare_val 256) by (done || lia || congruence). done.
Qed.

End target_properties.
