(* ===== verification/Work.v ===== *)
(** * Chain work and tip ordering

    Models [kernel/src/consensus/fork/work.rs] and [fork/ordering.rs]: the
    512-bit saturating accumulator [Work], the 320-bit binary long division that
    turns a compact target into work, and the deterministic order on chain
    tips. Limb arrays are lists of 64-bit words, most significant first. *)

From S2P Require Import Prelude Target.

Abbreviation Work := (list Z) (only parsing).
Abbreviation limb_val := (digits_val (2 ^ 64)).
Abbreviation limbs_wf := (digits (2 ^ 64)).

Module Work.

Definition ZERO : Work := replicate 8 0.
Definition MAX : Work := replicate 8 (2 ^ 64 - 1).

Definition pow2 (exponent : Z) : Work :=
  if 512 <=? exponent then MAX
  else <[(7 - Z.to_nat (exponent / 64))%nat := shl 64 1 (exponent mod 64)]> ZERO.

(** The limb loop of [saturating_add], least significant limb first: the sum
    limbs and the carry out. *)
Fixpoint add_limbs (a b : list Z) : list Z * Z :=
  match a, b with
  | x :: a', y :: b' =>
      let '(result, carry) := add_limbs a' b' in
      let sum := x + y + carry in
      (wrap 64 sum :: result, Z.shiftr sum 64)
  | _, _ => ([], 0)
  end.

Definition saturating_add (self rhs : Work) : Work :=
  let '(result, carry) := add_limbs self rhs in
  if 0 <? carry then MAX else result.

End Work.

Definition work_wf (w : Work) : Prop := length w = 8%nat /\ limbs_wf w.
Definition u320_wf (v : list Z) : Prop := length v = 5%nat /\ limbs_wf v.

(** The first loop of [block_work]: [n] chunks of eight big-endian bytes. *)
Fixpoint chunk_limbs (n : nat) (bytes : list Z) : list Z :=
  match n with
  | O => []
  | S n' => be_val (take 8 bytes) :: chunk_limbs n' (drop 8 bytes)
  end.

(** [add_one_u320]: the incremented limbs and whether every limb overflowed. *)
Fixpoint add_one_u320 (value : list Z) : list Z * bool :=
  match value with
  | [] => ([], true)
  | x :: rest =>
      let '(rest', overflow) := add_one_u320 rest in
      if overflow then (wrap 64 (x + 1) :: rest', 2 ^ 64 <=? x + 1)
      else (x :: rest', false)
  end.

(** [shift_left_one_u320]: the shifted limbs and the carry out. *)
Fixpoint shift_left_one_u320 (value : list Z) : list Z * Z :=
  match value with
  | [] => ([], 0)
  | x :: rest =>
      let '(rest', carry) := shift_left_one_u320 rest in
      (Z.lor (shl 64 x 1) carry :: rest', Z.shiftr x 63)
  end.

Definition bit_u320 (value : list Z) (bit_index : nat) : bool :=
  let limb := (bit_index / 64)%nat in
  let offset := 63 - Z.of_nat (bit_index mod 64) in
  negb (Z.land (Z.shiftr (default 0 (value !! limb)) offset) 1 =? 0).

Definition set_bit_u320 (value : list Z) (bit_index : nat) : list Z :=
  let limb := (bit_index / 64)%nat in
  let offset := 63 - Z.of_nat (bit_index mod 64) in
  <[limb := Z.lor (default 0 (value !! limb)) (shl 64 1 offset)]> value.

(** [subtract_u320]: the difference limbs and the borrow out. *)
Fixpoint subtract_u320 (left right : list Z) : list Z * bool :=
  match left, right with
  | x :: left', y :: right' =>
      let '(rest, borrow) := subtract_u320 left' right' in
      let value := wrap 64 (x - y) in
      let first_borrow := x <? y in
      let b := if borrow : bool then 1 else 0 in
      (wrap 64 (value - b) :: rest, first_borrow || (value <? b))
  | _, _ => ([], false)
  end.

(** One iteration of the division loop on (quotient, remainder). *)
Definition divide_step (numerator denominator : list Z)
    (state : list Z * list Z) (bit_index : nat) : list Z * list Z :=
  let '(quotient, remainder) := state in
  let remainder := fst (shift_left_one_u320 remainder) in
  let remainder :=
    if bit_u320 numerator bit_index
    then <[4%nat := Z.lor (default 0 (remainder !! 4%nat)) 1]> remainder
    else remainder in
  if lex_leb denominator remainder
  then (set_bit_u320 quotient bit_index, fst (subtract_u320 remainder denominator))
  else (quotient, remainder).

Definition divide_u320 (numerator denominator : list Z) : option (list Z) :=
  if forallb (fun limb => limb =? 0) denominator then None
  else Some (fst (foldl (divide_step numerator denominator)
                        (replicate 5 0, replicate 5 0) (seq 0 320))).

Definition block_work (target_bits : Z) : option Work :=
  target ← PoWTarget.from_compact target_bits;
  let denominator := fst (add_one_u320 (0 :: chunk_limbs 4 target)) in
  let numerator := [1; 0; 0; 0; 0] in
  quotient ← divide_u320 numerator denominator;
  Some ([0; 0; 0] ++ quotient).

(** [Ordering::then_with]. *)
Definition then_with (c d : comparison) : comparison :=
  match c with Eq => d | _ => c end.

Definition compare_chain_tips (left_work : Work) (left_weight : Z) (left_hash : list Z)
    (right_work : Work) (right_weight : Z) (right_hash : list Z) : comparison :=
  then_with (lex_compare left_work right_work)
    (then_with (left_weight ?= right_weight) (lex_compare right_hash left_hash)).

(** ** Limb arithmetic *)

Module WorkFacts.

Lemma pow64 n : (2 ^ 64) ^ Z.of_nat n = 2 ^ (64 * Z.of_nat n).
Proof. by rewrite <- Z.pow_mul_r by lia. Qed.

Lemma limb_testbit l k y j :
  limbs_wf l -> l !! k = Some y -> 0 <= j < 64 ->
  Z.testbit (limb_val l) (64 * Z.of_nat (length l - 1 - k) + j) = Z.testbit y j.
Proof.
  intros Hl. revert k. induction Hl as [|d l Hd Hl IH]; intros [|k] Hk Hj; simplify_eq/=.
  - pose proof (digits_val_bound (2 ^ 64) ltac:(lia) l Hl) as Hb.
    rewrite Nat.sub_0_r, Nat.sub_0_r, pow64 in *.
    set (n := 64 * Z.of_nat (length l)) in *. assert (0 <= n) by lia.
    rewrite (Z.add_comm n j), <- Z.div_pow2_bits by lia.
    by rewrite Z.div_add_l, Z.div_small, Z.add_0_r by lia.
  - pose proof (lookup_lt_Some _ _ _ Hk) as Hlt.
    replace (length l - 0 - S k)%nat with (length l - 1 - k)%nat by lia.
    rewrite <- (IH k Hk Hj), pow64.
    set (n := 64 * Z.of_nat (length l)).
    set (p := 64 * Z.of_nat (length l - 1 - k) + j).
    assert (0 <= p < n) by (subst p n; lia).
    rewrite <- (Z.mod_pow2_bits_low (d * 2 ^ n + _) n p) by lia.
    rewrite Z.add_comm, Z.mod_add by lia. apply Z.mod_pow2_bits_low. lia.
Qed.

Lemma add_limbs_spec a b :
  limbs_wf a -> limbs_wf b -> length a = length b ->
  let '(r, c) := Work.add_limbs a b in
  limbs_wf r /\ length r = length a /\ 0 <= c <= 1 /\
  c * (2 ^ 64) ^ Z.of_nat (length a) + limb_val r = limb_val a + limb_val b.
Proof.
  intros Ha. revert b. induction Ha as [|x a Hx Ha IH]; intros [|y b] Hb Hlen;
    simplify_eq/=; [split_and!; try done; lia|].
  apply Forall_cons in Hb as [Hy Hb]. specialize (IH b Hb Hlen).
  destruct (Work.add_limbs a b) as [r c]. destruct IH as (Hr & Hlr & Hc & Hv).
  rewrite Z.shiftr_div_pow2 by lia. set (s := x + y + c).
  pose proof (Z.div_mod s (2 ^ 64) ltac:(lia)) as Hdm.
  pose proof (Z.mod_pos_bound s (2 ^ 64) ltac:(lia)) as Hm.
  split_and!.
  - apply Forall_cons; split; [done|done].
  - simpl. lia.
  - apply Z.div_pos; lia.
  - apply Z.lt_succ_r, Z.div_lt_upper_bound; lia.
  - cbn [digits_val]. unfold wrap. rewrite Hlr, Hlen, Nat2Z.inj_succ, Z.pow_succ_r in * by lia.
    set (P := (2 ^ 64) ^ Z.of_nat (length b)) in *. subst s. nia.
Qed.

Lemma add_one_spec v :
  limbs_wf v ->
  let '(r, c) := add_one_u320 v in
  limbs_wf r /\ length r = length v /\
  (if c then 1 else 0) * (2 ^ 64) ^ Z.of_nat (length v) + limb_val r = limb_val v + 1.
Proof.
  induction 1 as [|x v Hx Hv IH]; simpl; [split_and!; [by constructor|done|reflexivity]|].
  destruct (add_one_u320 v) as [r c]. destruct IH as (Hr & Hlr & Hval).
  set (P := (2 ^ 64) ^ Z.of_nat (length v)) in *.
  assert ((2 ^ 64) ^ Z.of_nat (S (length v)) = 2 ^ 64 * P) as HP
    by (subst P; by rewrite Nat2Z.inj_succ, Z.pow_succ_r by lia).
  destruct c; cbn [digits_val length]; rewrite Hlr, HP; fold P.
  - unfold wrap. destruct (Z.leb_spec (2 ^ 64) (x + 1)).
    + assert (x = 2 ^ 64 - 1) as -> by lia. split_and!; [|lia|].
      * apply Forall_cons; split; [by vm_compute|done].
      * replace ((2 ^ 64 - 1 + 1) mod 2 ^ 64) with 0 by done. lia.
    + rewrite Z.mod_small by lia. split_and!; [|lia|lia].
      apply Forall_cons; split; [lia|done].
  - split_and!; [by apply Forall_cons|lia|lia].
Qed.

Lemma lor_low_bit x c : 0 <= x -> 0 <= c <= 1 -> Z.lor (2 * x) c = 2 * x + c.
Proof.
  intros Hx Hc. assert (c = 0 \/ c = 1) as [->| ->] by lia.
  - by rewrite Z.lor_0_r, Z.add_0_r.
  - symmetry. apply Z.add_nocarry_lor, Z.bits_inj'. intros i Hi.
    rewrite Z.land_spec, Z.bits_0. destruct (Z.eq_dec i 0) as [->|].
    + by rewrite Z.testbit_even_0.
    + change (Z.testbit 1 i) with (Z.testbit (2 ^ 0) i). by rewrite Z.pow2_bits_false, andb_false_r.
Qed.

Lemma shift_left_spec v :
  limbs_wf v ->
  let '(r, c) := shift_left_one_u320 v in
  limbs_wf r /\ length r = length v /\ 0 <= c <= 1 /\
  c * (2 ^ 64) ^ Z.of_nat (length v) + limb_val r = 2 * limb_val v.
Proof.
  induction 1 as [|x v Hx Hv IH]; simpl; [split_and!; try done; by constructor|].
  destruct (shift_left_one_u320 v) as [r c]. destruct IH as (Hr & Hlr & Hc & Hval).
  rewrite Z.shiftr_div_pow2 by lia. unfold shl, wrap. rewrite Z.shiftl_mul_pow2 by lia.
  assert (x * 2 ^ 1 mod 2 ^ 64 = 2 * (x mod 2 ^ 63)) as ->.
  { change (2 ^ 64) with (2 ^ 63 * 2 ^ 1). rewrite Z.mul_mod_distr_r by lia. lia. }
  pose proof (Z.div_mod x (2 ^ 63) ltac:(lia)) as Hdm.
  pose proof (Z.mod_pos_bound x (2 ^ 63) ltac:(lia)) as Hm.
  rewrite lor_low_bit by lia. split_and!.
  - apply Forall_cons; split; [lia|done].
  - simpl. lia.
  - apply Z.div_pos; lia.
  - apply Z.lt_succ_r, Z.div_lt_upper_bound; lia.
  - cbn [digits_val]. rewrite Hlr, Nat2Z.inj_succ, Z.pow_succ_r in * by lia.
    set (P := (2 ^ 64) ^ Z.of_nat (length v)) in *. nia.
Qed.

Lemma subtract_spec a b :
  limbs_wf a -> limbs_wf b -> length a = length b ->
  let '(r, c) := subtract_u320 a b in
  limbs_wf r /\ length r = length a /\
  limb_val r = limb_val a - limb_val b + (if c then 1 else 0) * (2 ^ 64) ^ Z.of_nat (length a).
Proof.
  intros Ha. revert b. induction Ha as [|x a Hx Ha IH]; intros [|y b] Hb Hlen;
    simplify_eq/=; [split_and!; try done; by constructor|].
  apply Forall_cons in Hb as [Hy Hb]. specialize (IH b Hb Hlen).
  destruct (subtract_u320 a b) as [r c]. destruct IH as (Hr & Hlr & Hv).
  assert (wrap 64 (x - y) = x - y + (if x <? y then 2 ^ 64 else 0)) as Hw1.
  { unfold wrap. destruct (Z.ltb_spec x y); [|rewrite Z.mod_small; lia].
    rewrite <- (Z.mod_add _ 1), Z.mod_small by lia. lia. }
  set (w := wrap 64 (x - y)) in *.
  assert (0 <= w < 2 ^ 64) as Hw by (apply Z.mod_pos_bound; lia).
  set (bv := if c then 1 else 0) in *.
  assert (0 <= bv <= 1) as Hbv by (subst bv; destruct c; lia).
  assert (wrap 64 (w - bv) = w - bv + (if w <? bv then 2 ^ 64 else 0)) as Hw2.
  { unfold wrap. destruct (Z.ltb_spec w bv); [|rewrite Z.mod_small; lia].
    rewrite <- (Z.mod_add _ 1), Z.mod_small by lia. lia. }
  split_and!.
  - apply Forall_cons; split; [apply Z.mod_pos_bound; lia|done].
  - simpl. lia.
  - cbn [digits_val]. rewrite Hw2, Hv, Hlr, Hlen, Nat2Z.inj_succ, Z.pow_succ_r by lia.
    set (P := (2 ^ 64) ^ Z.of_nat (length b)).
    clearbody w bv P. clear Hw2 Hv. revert Hw1.
    destruct (Z.ltb_spec x y), (Z.ltb_spec w bv); cbn [orb]; intros; nia.
Qed.

Lemma zeros_u320 : u320_wf (replicate 5 0) /\ limb_val (replicate 5 0) = 0.
Proof. split; [split; [done|apply digits_zeros; lia]|apply digits_val_zeros; lia]. Qed.

Lemma u320_limb v i :
  u320_wf v -> (i < 320)%nat ->
  exists y, v !! (i / 64)%nat = Some y /\ 0 <= y < 2 ^ 64 /\
    (0 <= 63 - Z.of_nat (i mod 64) < 64) /\
    319 - Z.of_nat i =
      64 * Z.of_nat (length v - 1 - i / 64) + (63 - Z.of_nat (i mod 64)).
Proof.
  intros [Hlen Hwf] Hi.
  assert (i / 64 < 5)%nat by (apply Nat.Div0.div_lt_upper_bound; lia).
  pose proof (Nat.div_mod_eq i 64). pose proof (Nat.mod_upper_bound i 64 ltac:(lia)).
  destruct (lookup_lt_is_Some_2 v (i / 64)) as [y Hy]; [lia|].
  pose proof (proj1 (Forall_lookup _ _) Hwf _ _ Hy) as Hyb. cbn beta in Hyb.
  exists y. rewrite Hlen. set (q := (i / 64)%nat) in *. set (r := (i mod 64)%nat) in *.
  clearbody q r. split_and!; try done; lia.
Qed.

Lemma bit_u320_spec v i :
  u320_wf v -> (i < 320)%nat ->
  bit_u320 v i = Z.testbit (limb_val v) (319 - Z.of_nat i).
Proof.
  intros Hv Hi. destruct (u320_limb v i Hv Hi) as (y & Hy & Hr & Ho & ->).
  rewrite (limb_testbit v _ y) by (done || apply Hv). unfold bit_u320.
  rewrite Hy. simpl default. change 1 with (Z.ones 1). rewrite Z.land_ones by lia.
  rewrite Z.testbit_odd, Zmod_odd. by destruct (Z.odd _).
Qed.

Lemma set_bit_u320_spec v i :
  u320_wf v -> (i < 320)%nat ->
  Z.testbit (limb_val v) (319 - Z.of_nat i) = false ->
  u320_wf (set_bit_u320 v i) /\
  limb_val (set_bit_u320 v i) = limb_val v + 2 ^ (319 - Z.of_nat i).
Proof.
  intros Hv Hi Hbit. destruct (u320_limb v i Hv Hi) as (y & Hy & Hr & Ho & Hpos).
  rewrite Hpos in *. rewrite (limb_testbit v _ y) in Hbit by (done || apply Hv).
  set (o := 63 - Z.of_nat (i mod 64)) in *. unfold set_bit_u320. rewrite Hy. simpl default.
  fold o. assert (2 ^ o < 2 ^ 64) by (apply Z.pow_lt_mono_r; lia).
  assert (0 < 2 ^ o) by (apply Z.pow_pos_nonneg; lia).
  assert (Z.lor y (shl 64 1 o) = y + 2 ^ o) as ->.
  { unfold shl, wrap. rewrite Z.shiftl_mul_pow2, Z.mul_1_l, Z.mod_small by lia.
    symmetry. apply Z.add_nocarry_lor, Z.bits_inj'. intros n Hn.
    rewrite Z.land_spec, Z.bits_0. destruct (Z.eq_dec n o) as [->|].
    - by rewrite Hbit.
    - by rewrite Z.pow2_bits_false, andb_false_r by done. }
  assert (y + 2 ^ o < 2 ^ 64) as Hlt.
  { assert (y / 2 ^ o mod 2 = 0) as Hev
      by (apply Z.testbit_false; [lia|done]).
    pose proof (Z.div_mod y (2 ^ o) ltac:(lia)) as Hdm.
    pose proof (Z.mod_pos_bound y (2 ^ o) ltac:(lia)).
    assert (y / 2 ^ o < 2 ^ (64 - o)).
    { apply Z.div_lt_upper_bound; [lia|]. rewrite <- Z.pow_add_r by lia.
      replace (o + (64 - o)) with 64 by lia. lia. }
    assert (2 ^ (64 - o) mod 2 = 0).
    { replace (64 - o) with (1 + (63 - o)) by lia. rewrite Z.pow_add_r by lia.
      rewrite Z.mul_comm. by apply Z.mod_mul. }
    assert (y / 2 ^ o + 2 <= 2 ^ (64 - o)) by (Z.to_euclidean_division_equations; lia).
    assert (2 ^ o * 2 ^ (64 - o) = 2 ^ 64)
      by (rewrite <- Z.pow_add_r by lia; f_equal; lia). nia. }
  split.
  - split; [rewrite length_insert; apply Hv|]. apply digits_insert; [apply Hv|lia].
  - rewrite (digits_val_insert (2 ^ 64) _ _ _ _ Hy), pow64, Z.pow_add_r by lia. ring.
Qed.

Lemma u320_bound v : u320_wf v -> 0 <= limb_val v < 2 ^ 320.
Proof.
  intros [Hlen Hwf]. pose proof (digits_val_bound (2 ^ 64) ltac:(lia) v Hwf) as Hb.
  by rewrite Hlen in Hb.
Qed.

Lemma lex_leb_u320 a b :
  u320_wf a -> u320_wf b -> lex_leb a b = (limb_val a <=? limb_val b).
Proof.
  intros [Hla Ha] [Hlb Hb]. unfold lex_leb.
  rewrite (lex_compare_val (2 ^ 64)) by (done || lia || congruence). done.
Qed.

Lemma subtract_no_borrow a b :
  u320_wf a -> u320_wf b -> limb_val b <= limb_val a ->
  u320_wf (subtract_u320 a b).1 /\
  limb_val (subtract_u320 a b).1 = limb_val a - limb_val b.
Proof.
  intros Ha Hb Hle.
  pose proof (subtract_spec a b (proj2 Ha) (proj2 Hb)
    ltac:(rewrite (proj1 Ha), (proj1 Hb); done)) as Hs.
  destruct (subtract_u320 a b) as [r c]. destruct Hs as (Hwf & Hlen & Hv).
  rewrite (proj1 Ha) in *. cbn [fst].
  assert (u320_wf r) as Hr by done. pose proof (u320_bound r Hr).
  pose proof (u320_bound a Ha). pose proof (u320_bound b Hb).
  change ((2 ^ 64) ^ Z.of_nat 5) with (2 ^ 320) in Hv.
  split; [done|]. destruct c; lia.
Qed.

Section division.
Context (N D : list Z) (HN : u320_wf N) (HD : u320_wf D).
Context (HD0 : 0 < limb_val D < 2 ^ 319).

(** After [i] iterations the quotient and the remainder are those of the top
    [i] bits of the numerator. *)
Definition division_inv (i : nat) (state : list Z * list Z) : Prop :=
  let top := limb_val N / 2 ^ (320 - Z.of_nat i) in
  u320_wf state.1 /\ u320_wf state.2 /\
  limb_val state.1 = top / limb_val D * 2 ^ (320 - Z.of_nat i) /\
  limb_val state.2 = top mod limb_val D.

Lemma top_bits i :
  (i < 320)%nat ->
  limb_val N / 2 ^ (319 - Z.of_nat i) =
    2 * (limb_val N / 2 ^ (320 - Z.of_nat i))
    + Z.b2z (Z.testbit (limb_val N) (319 - Z.of_nat i)).
Proof.
  intros Hi. replace (320 - Z.of_nat i) with (319 - Z.of_nat i + 1) by lia.
  rewrite Z.pow_add_r, <- Z.div_div, Z.testbit_spec' by lia.
  apply Z.div_mod. lia.
Qed.

(** The remainder after shifting in the next bit of the numerator. *)
Lemma shifted_remainder i r :
  (i < 320)%nat -> u320_wf r -> limb_val r < limb_val D ->
  let r1 := (shift_left_one_u320 r).1 in
  let r2 := if bit_u320 N i
            then <[4%nat := Z.lor (default 0 (r1 !! 4%nat)) 1]> r1 else r1 in
  u320_wf r2 /\
  limb_val r2 = 2 * limb_val r + Z.b2z (Z.testbit (limb_val N) (319 - Z.of_nat i)).
Proof.
  intros Hi [Hlen Hwf] Hr r1 r2. pose proof (shift_left_spec r Hwf) as Hs.
  pose proof (digits_val_bound (2 ^ 64) ltac:(lia) r Hwf) as Hrb.
  assert (u320_wf r1 /\ limb_val r1 = 2 * limb_val r) as [Hwf1 Hv1].
  { subst r1 r2. destruct (shift_left_one_u320 r) as [r' c]. simpl.
    destruct Hs as (Hwf' & Hlen' & Hc & Hv). rewrite Hlen in *.
    change ((2 ^ 64) ^ Z.of_nat 5) with (2 ^ 320) in *.
    assert (c = 0) as -> by (pose proof (digits_val_bound (2 ^ 64) ltac:(lia) r' Hwf'); lia).
    split; [split; [by rewrite Hlen'|done]|lia]. }
  subst r2. rewrite <- (bit_u320_spec N i HN Hi).
  destruct (bit_u320 N i); simpl Z.b2z; [|by rewrite Z.add_0_r].
  destruct Hwf1 as [Hlen1 Hwf1].
  destruct (lookup_lt_is_Some_2 r1 4) as [y Hy]; [lia|]. rewrite Hy. simpl default.
  pose proof (proj1 (Forall_lookup _ _) Hwf1 _ _ Hy) as Hyb. cbn beta in Hyb.
  assert (y mod 2 = 0) as Hev.
  { pose proof (limb_testbit r1 4 y 0 Hwf1 Hy ltac:(lia)) as Hb.
    rewrite Hlen1, Hv1 in Hb.
    change (64 * Z.of_nat (5 - 1 - 4) + 0) with 0 in Hb.
    rewrite Z.testbit_even_0 in Hb.
    rewrite Z.bit0_odd in Hb. by rewrite Zmod_odd, <- Hb. }
  assert (Z.lor y 1 = y + 1) as ->.
  { assert (y = 2 * (y / 2)) as -> by (pose proof (Z.div_mod y 2); lia).
    apply lor_low_bit; [|lia]. apply Z.div_pos; lia. }
  assert (y + 1 < 2 ^ 64) by (Z.to_euclidean_division_equations; lia).
  split; [split; [by rewrite length_insert|apply digits_insert; [done|lia]]|].
  rewrite (digits_val_insert (2 ^ 64) _ _ _ _ Hy), Hlen1, Hv1. simpl Z.of_nat.
  rewrite Z.pow_0_r. lia.
Qed.

Lemma divide_step_inv i state :
  (i < 320)%nat -> division_inv i state ->
  division_inv (S i) (divide_step N D state i).
Proof.
  intros Hi. destruct state as [q r]. unfold division_inv. cbn [fst snd].
  intros (Hq & Hr & Hqv & Hrv).
  set (top := limb_val N / 2 ^ (320 - Z.of_nat i)) in *.
  pose proof (Z.mod_pos_bound top (limb_val D) ltac:(lia)) as Hmb.
  pose proof (Z.div_mod top (limb_val D) ltac:(lia)) as Hdm.
  destruct (shifted_remainder i r Hi Hr ltac:(lia)) as [Hr2 Hv2].
  cbn zeta in Hr2, Hv2. unfold divide_step.
  replace (320 - Z.of_nat (S i)) with (319 - Z.of_nat i) by lia.
  rewrite (top_bits i Hi). fold top.
  set (b := Z.b2z (Z.testbit (limb_val N) (319 - Z.of_nat i))) in *.
  assert (0 <= b <= 1) as Hb by (subst b; destruct (Z.testbit _ _); simpl; lia).
  set (r2 := if bit_u320 N i then _ else _) in *. clearbody r2.
  assert (2 ^ (320 - Z.of_nat i) = 2 * 2 ^ (319 - Z.of_nat i)) as Hpow
    by (rewrite <- Z.pow_succ_r by lia; f_equal; lia).
  rewrite lex_leb_u320 by done.
  destruct (Z.leb_spec (limb_val D) (limb_val r2)) as [Hle|Hgt]; cbn [fst snd].
  - destruct (subtract_no_borrow r2 D Hr2 HD Hle) as [Hr3 Hv3].
    destruct (set_bit_u320_spec q i Hq Hi) as [Hq' Hqv'].
    { rewrite Hqv. apply Z.mul_pow2_bits_low. lia. }
    split_and!; [done|done| |].
    + rewrite <- (Z.div_unique_pos (2 * top + b) (limb_val D)
        (2 * (top / limb_val D) + 1) (limb_val (subtract_u320 r2 D).1)) by lia.
      rewrite Hqv', Hqv, Hpow. ring.
    + apply (Z.mod_unique_pos _ _ (2 * (top / limb_val D) + 1)); lia.
  - split_and!; [done|done| |].
    + rewrite <- (Z.div_unique_pos (2 * top + b) (limb_val D) (2 * (top / limb_val D))
        (limb_val r2)) by lia. rewrite Hqv, Hpow. ring.
    + apply (Z.mod_unique_pos _ _ (2 * (top / limb_val D))); lia.
Qed.

Lemma divide_loop_inv i :
  (i <= 320)%nat ->
  division_inv i (foldl (divide_step N D) (replicate 5 0, replicate 5 0) (seq 0 i)).
Proof.
  induction i as [|i IH]; intros Hi.
  - destruct zeros_u320 as [Hwf Hv]. unfold division_inv. cbn [foldl seq fst snd].
    pose proof (digits_val_bound (2 ^ 64) ltac:(lia) N (proj2 HN)) as Hb.
    rewrite (proj1 HN) in Hb. change ((2 ^ 64) ^ Z.of_nat 5) with (2 ^ 320) in Hb.
    change (320 - Z.of_nat 0) with 320. rewrite Hv, (Z.div_small (limb_val N)) by lia.
    rewrite Z.div_0_l, Z.mod_0_l by lia. done.
  - rewrite seq_S, foldl_app. apply divide_step_inv; [lia|]. apply IH. lia.
Qed.

(** Binary long division is integer division. *)
Lemma divide_u320_spec :
  exists q, divide_u320 N D = Some q /\ u320_wf q /\
    limb_val q = limb_val N / limb_val D.
Proof.
  unfold divide_u320. destruct (forallb _ D) eqn:Hz.
  { exfalso. assert (limb_val D = 0); [|lia].
    apply digits_val_zero_iff; [lia|apply HD|].
    rewrite Forall_forall. intros x Hx%list_elem_of_In.
    rewrite forallb_forall in Hz. apply Hz in Hx. lia. }
  pose proof (divide_loop_inv 320 ltac:(lia)) as (Hq & _ & Hv & _).
  eexists; split_and!; [done|done|].
  rewrite Hv. change (320 - Z.of_nat 320) with 0.
  rewrite Z.pow_0_r, Z.div_1_r. lia.
Qed.
End division.

Lemma chunk_limbs_spec n bytes :
  bytes_wf bytes -> length bytes = (8 * n)%nat ->
  limbs_wf (chunk_limbs n bytes) /\ length (chunk_limbs n bytes) = n /\
  limb_val (chunk_limbs n bytes) = be_val bytes.
Proof.
  revert bytes. induction n as [|n IH]; intros bytes Hwf Hlen.
  - destruct bytes; [|done]. split_and!; try done. apply Forall_nil_2.
  - cbn [chunk_limbs digits_val length].
    destruct (IH (drop 8 bytes)) as (Hw & Hl & Hv).
    { by apply Forall_drop. }
    { rewrite length_drop. lia. }
    pose proof (digits_val_bound 256 ltac:(lia) (take 8 bytes)
      ltac:(by apply Forall_take)) as Hb.
    rewrite length_take_le in Hb by lia. split_and!.
    + apply Forall_cons; split; [exact Hb|done].
    + by rewrite Hl.
    + rewrite Hl, Hv. rewrite <- (take_drop 8 bytes) at 3.
      rewrite digits_val_app, length_drop, Hlen by lia.
      do 2 f_equal. change (2 ^ 64) with (256 ^ 8). rewrite <- Z.pow_mul_r by lia.
      f_equal. lia.
Qed.

Lemma block_work_spec target_bits :
  fits 32 target_bits ->
  match PoWTarget.from_compact target_bits, block_work target_bits with
  | Some t, Some w => work_wf w /\ limb_val w = 2 ^ 256 / (be_val t + 1)
  | None, None => True
  | _, _ => False
  end.
Proof.
  intros Hfit. unfold block_work.
  pose proof (PoWTargetFacts.from_compact_spec target_bits Hfit) as Hs.
  destruct (PoWTarget.from_compact target_bits) as [t|]; [|done].
  destruct Hs as ([Hlen Hwf] & Hv & _ & Hb). rewrite <- Hv in Hb. cbn [mbind option_bind].
  destruct (chunk_limbs_spec 4 t Hwf Hlen) as (Hcw & Hcl & Hcv).
  pose proof (add_one_spec (0 :: chunk_limbs 4 t)
    ltac:(apply Forall_cons; split; [lia|done])) as Ha.
  destruct (add_one_u320 _) as [d c]. cbn [length digits_val fst] in *.
  rewrite Hcl, Hcv in Ha. destruct Ha as (Hdw & Hdl & Hdv).
  change ((2 ^ 64) ^ Z.of_nat 5) with (2 ^ 320) in Hdv.
  pose proof (digits_val_bound (2 ^ 64) ltac:(lia) d Hdw) as Hdb.
  rewrite Hdl in Hdb. change ((2 ^ 64) ^ Z.of_nat 5) with (2 ^ 320) in Hdb.
  assert (c = false) as -> by (destruct c; [lia|done]).
  assert (u320_wf [1; 0; 0; 0; 0]) as HNwf.
  { split; [done|]. by apply digits_compute. }
  destruct (divide_u320_spec [1; 0; 0; 0; 0] d) as (q & -> & [Hql Hqw] & Hqv);
    [done|by split|lia|].
  cbn [mbind option_bind]. split.
  - split; [by rewrite length_app, Hql|]. apply Forall_app; split; [|done].
    by apply digits_compute.
  - rewrite digits_val_app, Hqv by lia. replace (limb_val d) with (be_val t + 1) by lia.
    done.
Qed.

End WorkFacts.

(** ** Properties *)

Section work_properties.
Import WorkFacts.

(** Chain work is exact: for every 32-bit word the 320-bit binary long
    division returns floor(2^256 / (target + 1)) as a well-formed 512-bit limb
    array, and it is undefined exactly when the word is not a valid target. *)
Theorem block_work_exact target_bits :
  fits 32 target_bits ->
  match PoWTarget.from_compact target_bits, block_work target_bits with
  | Some t, Some w => work_wf w /\ limb_val w = 2 ^ 256 / (be_val t + 1)
  | None, None => True
  | _, _ => False
  end.
Proof. apply block_work_spec. Qed.

Lemma block_work_exact_witness :
  exists w, block_work 0x1d00ffff = Some w /\
    limb_val w = 2 ^ 256 / (0xffff * 256 ^ 26 + 1).
Proof.
  pose proof (block_work_exact 0x1d00ffff ltac:(unfold fits; lia)) as H.
  destruct (PoWTarget.from_compact 0x1d00ffff) as [t|] eqn:Ht;
    [|vm_compute in Ht; discriminate].
  destruct (block_work 0x1d00ffff) as [w|]; [|contradiction].
  exists w. split; [reflexivity|]. destruct H as [_ ->]. do 2 f_equal.
  vm_compute in Ht. injection Ht as <-. vm_compute. reflexivity.
Defined.

Lemma work_bound w : work_wf w -> 0 <= limb_val w < 2 ^ 512.
Proof.
  intros [Hlen Hwf]. pose proof (digits_val_bound (2 ^ 64) ltac:(lia) w Hwf) as Hb.
  by rewrite Hlen in Hb.
Qed.

Lemma saturating_add_spec a b :
  work_wf a -> work_wf b ->
  work_wf (Work.saturating_add a b) /\
  limb_val (Work.saturating_add a b) = Z.min (limb_val a + limb_val b) (2 ^ 512 - 1).
Proof.
  intros Ha Hb. unfold Work.saturating_add.
  pose proof (add_limbs_spec a b (proj2 Ha) (proj2 Hb)
    ltac:(rewrite (proj1 Ha), (proj1 Hb); done)) as Hs.
  destruct (Work.add_limbs a b) as [r c]. destruct Hs as (Hwf & Hlen & Hc & Hv).
  rewrite (proj1 Ha) in *. change ((2 ^ 64) ^ Z.of_nat 8) with (2 ^ 512) in Hv.
  assert (work_wf r) as Hr by done. pose proof (work_bound r Hr).
  destruct (Z.ltb_spec 0 c).
  - split; [split; [done|by apply digits_compute]|].
    change (limb_val Work.MAX) with (2 ^ 512 - 1). lia.
  - split; [done|]. lia.
Qed.

(** Accumulating chain work is addition saturating at 2^512 - 1: the
    carry-propagating limb loop never wraps, so cumulative work never decreases
    along a branch. *)
Theorem work_saturating_add a b :
  work_wf a -> work_wf b ->
  let s := Work.saturating_add a b in
  work_wf s /\ limb_val s = Z.min (limb_val a + limb_val b) (2 ^ 512 - 1) /\
  lex_leb a s = true.
Proof.
  intros Ha Hb s. destruct (saturating_add_spec a b Ha Hb) as [Hwf Hv].
  split_and!; [done|done|]. unfold lex_leb.
  rewrite (lex_compare_val (2 ^ 64)); [|lia|apply Ha|apply Hwf|];
    [|subst s; by rewrite (proj1 Ha), (proj1 Hwf)].
  pose proof (work_bound a Ha). pose proof (work_bound b Hb). subst s. rewrite Hv.
  by destruct (Z.compare_spec (limb_val a) (Z.min (limb_val a + limb_val b) (2 ^ 512 - 1)));
    [..|lia].
Qed.

Lemma work_saturating_add_witness :
  limb_val (Work.saturating_add Work.MAX Work.MAX) = 2 ^ 512 - 1.
Proof.
  destruct (work_saturating_add Work.MAX Work.MAX) as (_ & H & _);
    [split; [reflexivity|by apply digits_compute]..|].
  rewrite H. vm_compute. reflexivity.
Defined.

(** A tip as fork choice sees it. *)
Definition tip : Type := (list Z * Z * list Z)%type.
Definition compare_tips (a b : tip) : comparison :=
  compare_chain_tips a.1.1 a.1.2 a.2 b.1.1 b.1.2 b.2.

Lemma compare_tips_antisym a b : compare_tips b a = CompOpp (compare_tips a b).
Proof.
  destruct a as [[wa ga] ha], b as [[wb gb] hb]. unfold compare_tips, compare_chain_tips.
  cbn [fst snd]. rewrite (lex_compare_antisym wa wb), (Z.compare_antisym ga gb),
    (lex_compare_antisym hb ha).
  by destruct (lex_compare wa wb), (ga ?= gb).
Qed.

Lemma compare_tips_Eq a b : compare_tips a b = Eq <-> a = b.
Proof.
  destruct a as [[wa ga] ha], b as [[wb gb] hb]. unfold compare_tips, compare_chain_tips.
  cbn [fst snd]. split.
  - destruct (lex_compare wa wb) eqn:Hw; [|done|done].
    destruct (ga ?= gb) eqn:Hg; [|done|done]. simpl. intros Hh.
    apply lex_compare_Eq in Hw, Hh. apply Z.compare_eq in Hg. by subst.
  - intros [= -> -> ->]. by rewrite !lex_compare_refl, Z.compare_refl.
Qed.

Lemma compare_tips_lt_trans a b c :
  compare_tips a b = Lt -> compare_tips b c = Lt -> compare_tips a c = Lt.
Proof.
  destruct a as [[wa ga] ha], b as [[wb gb] hb], c as [[wc gc] hc].
  unfold compare_tips, compare_chain_tips. cbn [fst snd].
  destruct (lex_compare wa wb) eqn:Hw1; [| |done];
    [apply lex_compare_Eq in Hw1 as ->|];
    (destruct (lex_compare wb wc) eqn:Hw2; [apply lex_compare_Eq in Hw2 as ->| |done]);
    rewrite ?lex_compare_refl, ?Hw1, ?Hw2; simpl; try done.
  - destruct (Z.compare_spec ga gb), (Z.compare_spec gb gc); simpl; try done; subst;
      rewrite ?Z.compare_refl; simpl; intros.
    + by apply (lex_compare_lt_trans hc hb ha).
    + by rewrite (proj2 (Z.compare_lt_iff gb gc)).
    + by rewrite (proj2 (Z.compare_lt_iff ga gc)).
    + by rewrite (proj2 (Z.compare_lt_iff ga gc)) by lia.
  - by rewrite (lex_compare_lt_trans wa wb wc).
Qed.

(** Tip comparison is a total order on (work, weight, hash): comparing two
    tips in either order gives opposite answers, only identical tips tie, the
    strict order is transitive, and more work always wins whatever the weights
    and hashes are. Every node therefore ranks the same tips the same way. *)
Theorem chain_tip_order :
  (forall a b, compare_tips b a = CompOpp (compare_tips a b)) /\
  (forall a b, compare_tips a b = Eq <-> a = b) /\
  (forall a b c, compare_tips a b = Lt -> compare_tips b c = Lt -> compare_tips a c = Lt) /\
  (forall wa ga ha wb gb hb, work_wf wa -> work_wf wb -> limb_val wb < limb_val wa ->
     compare_chain_tips wa ga ha wb gb hb = Gt).
Proof.
  split_and!; [apply compare_tips_antisym|apply compare_tips_Eq|apply compare_tips_lt_trans|].
  intros wa ga ha wb gb hb [Hla Ha] [Hlb Hb] Hlt. unfold compare_chain_tips.
  rewrite (lex_compare_val (2 ^ 64) ltac:(lia) wa wb) by (done || congruence).
  by rewrite (proj2 (Z.compare_gt_iff _ _)).
Qed.

End work_properties.
