(* ===== verification/Codec.v ===== *)
(** * Hash framing and canonical encoding

    Models [crypto/src/hash.rs] (hash domains and the preimage framing of
    [domain]), [crypto/src/codec.rs] (canonical lengths) and the Borsh encodings
    the kernel derives: little-endian integers, length-prefixed vectors and
    strings, tagged enums, concatenated struct fields. SHA3-256 itself is a
    parameter, the operational class [Sha3]. *)

From S2P Require Import Prelude.
From stdpp Require Import strings.
#[local] Open Scope Z_scope.

Definition HASH_SIZE : nat := 32.

(** A 32-byte array; [BlockHash], [PreviousHash], [CoinShare], [AssetContract],
    [Share] and [ProgramId] are newtypes over it. *)
Abbreviation Hash := (list Z) (only parsing).

Definition hash_wf (h : Hash) : Prop := length h = HASH_SIZE /\ bytes_wf h.

(** Bytes of an ASCII literal. *)
Fixpoint ascii_bytes (s : string) : list Z :=
  match s with
  | EmptyString => []
  | String c s' => Z.of_nat (Ascii.nat_of_ascii c) :: ascii_bytes s'
  end.

Inductive HashDomain : Type :=
| Transaction | Operation | CoinTransitionDomain | AssetIntent | HeaderDomain
| ChainSpec | MerkleNode | AccountState | XPARQArtifact | ProtocolState
| PoWSeed | PoWSalt | ProgramAccount | AssetDomain | ShareDomain | OutputDomain
| EmissionDomain | CompactBlockKey | Raw.

#[global] Instance HashDomain_eq_dec : EqDecision HashDomain.
Proof. solve_decision. Defined.

Definition tag (d : HashDomain) : list Z :=
  ascii_bytes
    match d with
    | Transaction => "XPARQ_HASH_TX"
    | Operation => "XPARQ_HASH_OPERATION"
    | CoinTransitionDomain => "XPARQ_COIN_TRANSITION"
    | AssetIntent => "XPARQ_ASSET_INTENT"
    | HeaderDomain => "XPARQ_HASH_BLOCK_HEADER"
    | ChainSpec => "XPARQ_HASH_CHAIN_SPEC"
    | MerkleNode => "XPARQ_HASH_MERKLE_NODE"
    | AccountState => "XPARQ_HASH_ACCOUNT_STATE"
    | XPARQArtifact => "XPARQ_HASH_ARTIFACT"
    | ProtocolState => "XPARQ_HASH_PROTOCOL_STATE"
    | PoWSeed => "XPARQ_POW_SEED"
    | PoWSalt => "XPARQ_POW_SALT"
    | ProgramAccount => "XPARQ_HASH_PROGRAM_ACCOUNT"
    | AssetDomain => "XPARQ_ASSET"
    | ShareDomain => "XPARQ_ASSET_SHARE"
    | OutputDomain => "XPARQ_COIN_OUTPUT"
    | EmissionDomain => "XPARQ_COIN_EMISSION"
    | CompactBlockKey => "XPARQ_COMPACT_BLOCK_KEY"
    | Raw => "XPARQ_HASH_RAW"
    end.

(** The vendored SHA3-256. *)
Class Sha3 := sha3_256 : list Z -> Hash.

(** What the kernel relies on: the digest is a 32-byte array. *)
Class Sha3Spec `{Sha3} := sha3_wf : forall bytes, hash_wf (sha3_256 bytes).

(** The bytes [domain] feeds to SHA3: tag, [u64] length, payload. *)
Definition domain_preimage (d : HashDomain) (bytes : list Z) : list Z :=
  tag d ++ le_bytes 8 (Z.of_nat (length bytes)) ++ bytes.

Definition domain `{Sha3} (d : HashDomain) (bytes : list Z) : Hash :=
  sha3_256 (domain_preimage d bytes).

(** ** Borsh *)

Class Borsh (A : Type) := {
  enc : A -> list Z;
  dec : list Z -> option (A * list Z);
}.

(** Decoding an encoding in front of any bytes returns the value and leaves the
    bytes. [bwf] is the range of values the Rust type can hold. *)
Class BorshLaw (A : Type) `{Borsh A} := {
  bwf : A -> Prop;
  dec_enc : forall a rest, bwf a -> dec (enc a ++ rest) = Some (a, rest);
}.

(** [try_from_slice]: the whole slice must be consumed. *)
Definition try_from_slice {A} `{Borsh A} (bytes : list Z) : option A :=
  '(a, rest) ← dec bytes;
  if decide (rest = []) then Some a else None.

Definition dec_uint (n : nat) (bytes : list Z) : option (Z * list Z) :=
  if (length bytes <? n)%nat then None
  else Some (le_val (take n bytes), drop n bytes).

(** [read_exact] of [n] raw bytes. *)
Definition dec_raw (n : nat) (bytes : list Z) : option (list Z * list Z) :=
  if (length bytes <? n)%nat then None else Some (take n bytes, drop n bytes).

(** The element loop of a vector decoder. *)
Fixpoint dec_items {A} (dec_item : list Z -> option (A * list Z)) (n : nat)
    (bytes : list Z) : option (list A * list Z) :=
  match n with
  | O => Some ([], bytes)
  | S n' =>
      '(a, bytes) ← dec_item bytes;
      '(l, bytes) ← dec_items dec_item n' bytes;
      Some (a :: l, bytes)
  end.

Definition enc_vec {A} (enc_item : A -> list Z) (l : list A) : list Z :=
  le_bytes 4 (Z.of_nat (length l)) ++ concat (enc_item <$> l).

Definition dec_vec {A} (dec_item : list Z -> option (A * list Z))
    (bytes : list Z) : option (list A * list Z) :=
  '(count, bytes) ← dec_uint 4 bytes;
  dec_items dec_item (Z.to_nat count) bytes.

(** [deserialize_bounded_vec] of [kernel/src/program/mod.rs]. *)
Definition deserialize_bounded_vec {A} (dec_item : list Z -> option (A * list Z))
    (maximum : Z) (bytes : list Z) : option (list A * list Z) :=
  '(length, bytes) ← dec_uint 4 bytes;
  if maximum <? length then None else dec_items dec_item (Z.to_nat length) bytes.

(** [canonical_fixed_map_length] of [crypto/src/codec.rs]. *)
Definition canonical_fixed_map_length (entries entry_bytes : Z) : option Z :=
  count ← try_from 32 entries;
  size ← checked_mul 64 count entry_bytes;
  checked_add 64 size 4.

(** Strict UTF-8, as [String::from_utf8] checks it. *)
Fixpoint utf8_valid (fuel : nat) (bytes : list Z) : bool :=
  let cont b := (0x80 <=? b) && (b <=? 0xbf) in
  match fuel, bytes with
  | _, [] => true
  | O, _ => false
  | S f, b0 :: r =>
      if b0 <? 0x80 then utf8_valid f r
      else if (0xc2 <=? b0) && (b0 <=? 0xdf) then
        match r with b1 :: r => cont b1 && utf8_valid f r | _ => false end
      else if (0xe0 <=? b0) && (b0 <=? 0xef) then
        match r with
        | b1 :: b2 :: r =>
            ((if b0 =? 0xe0 then 0xa0 else 0x80) <=? b1)
            && (b1 <=? (if b0 =? 0xed then 0x9f else 0xbf))
            && cont b2 && utf8_valid f r
        | _ => false
        end
      else if (0xf0 <=? b0) && (b0 <=? 0xf4) then
        match r with
        | b1 :: b2 :: b3 :: r =>
            ((if b0 =? 0xf0 then 0x90 else 0x80) <=? b1)
            && (b1 <=? (if b0 =? 0xf4 then 0x8f else 0xbf))
            && cont b2 && cont b3 && utf8_valid f r
        | _ => false
        end
      else false
  end.

Definition dec_string (bytes : list Z) : option (list Z * list Z) :=
  '(len, bytes) ← dec_uint 4 bytes;
  '(s, bytes) ← dec_raw (Z.to_nat len) bytes;
  if utf8_valid (length s) s then Some (s, bytes) else None.

(** ** Decoding inverts encoding *)

Lemma dec_uint_enc n x rest :
  0 <= x < 256 ^ Z.of_nat n -> dec_uint n (le_bytes n x ++ rest) = Some (x, rest).
Proof.
  intros Hx. unfold dec_uint. rewrite length_app, length_le_bytes.
  replace (n + length rest <? n)%nat with false by (symmetry; apply Nat.ltb_ge; lia).
  rewrite take_app_length', drop_app_length' by (by rewrite length_le_bytes).
  by rewrite le_val_le_bytes.
Qed.

Lemma dec_raw_enc n h rest :
  length h = n -> dec_raw n (h ++ rest) = Some (h, rest).
Proof.
  intros Hn. unfold dec_raw. rewrite length_app.
  replace (length h + length rest <? n)%nat with false by (symmetry; apply Nat.ltb_ge; lia).
  by rewrite take_app_length', drop_app_length'.
Qed.

Section vec.
Context {A : Type} (enc_item : A -> list Z) (dec_item : list Z -> option (A * list Z)).
Context (wf : A -> Prop)
  (Hitem : forall a rest, wf a -> dec_item (enc_item a ++ rest) = Some (a, rest)).

Lemma dec_items_enc l rest :
  Forall wf l ->
  dec_items dec_item (length l) (concat (enc_item <$> l) ++ rest) = Some (l, rest).
Proof.
  induction 1 as [|a l Ha Hl IH]; [done|]. cbn [length dec_items fmap list_fmap concat].
  by rewrite <- app_assoc, Hitem by done; cbn [mbind option_bind]; rewrite IH.
Qed.

Lemma dec_vec_enc l rest :
  Forall wf l -> Z.of_nat (length l) < 2 ^ 32 ->
  dec_vec dec_item (enc_vec enc_item l ++ rest) = Some (l, rest).
Proof.
  intros Hl Hlen. unfold dec_vec, enc_vec. rewrite <- app_assoc, dec_uint_enc by (simpl; lia).
  cbn [mbind option_bind]. rewrite Nat2Z.id. by apply dec_items_enc.
Qed.

Lemma bounded_vec_enc l maximum rest :
  Forall wf l -> Z.of_nat (length l) <= maximum < 2 ^ 32 ->
  deserialize_bounded_vec dec_item maximum (enc_vec enc_item l ++ rest) = Some (l, rest).
Proof.
  intros Hl Hlen. unfold deserialize_bounded_vec, enc_vec.
  rewrite <- app_assoc, dec_uint_enc by (simpl; lia). cbn [mbind option_bind].
  replace (maximum <? Z.of_nat (length l)) with false by lia.
  rewrite Nat2Z.id. by apply dec_items_enc.
Qed.
End vec.

Lemma try_from_slice_enc `{BorshLaw A} a :
  bwf a -> try_from_slice (enc a) = Some a.
Proof.
  intros Ha. unfold try_from_slice. rewrite <- (app_nil_r (enc a)), dec_enc by done. done.
Qed.

(** ** Nothing else decodes *)

Lemma bytes_wf_app (l k : list Z) : bytes_wf (l ++ k) <-> bytes_wf l /\ bytes_wf k.
Proof. apply Forall_app. Qed.

Lemma le_bytes_le_val l : bytes_wf l -> le_bytes (length l) (le_val l) = l.
Proof.
  induction l as [|b l IH]; [done|]. intros [Hb Hl]%Forall_cons. cbn [length le_bytes le_val].
  rewrite (Z.mul_comm 256), Z.mod_add, Z.div_add, Z.mod_small, Z.div_small by lia.
  by rewrite Z.add_0_l, IH.
Qed.

Lemma le_val_bounds l : bytes_wf l -> 0 <= le_val l < 256 ^ Z.of_nat (length l).
Proof.
  induction 1 as [|b l Hb Hl IH]; [done|]. cbn [length le_val].
  rewrite Nat2Z.inj_succ, Z.pow_succ_r by lia. cbn beta in Hb. lia.
Qed.

Lemma dec_uint_canonical n bytes x rest :
  bytes_wf bytes -> dec_uint n bytes = Some (x, rest) ->
  bytes = le_bytes n x ++ rest /\ 0 <= x < 256 ^ Z.of_nat n /\ bytes_wf rest.
Proof.
  intros Hb. unfold dec_uint. destruct (Nat.ltb_spec (length bytes) n) as [|Hn]; [done|].
  intros [= <- <-]. rewrite <- (take_drop n bytes) in Hb. apply bytes_wf_app in Hb as [Ht Hd].
  assert (length (take n bytes) = n) as Hl by (rewrite length_take; lia).
  split_and!; [|apply le_val_bounds in Ht; rewrite Hl in Ht; lia..|done].
  by rewrite <- Hl at 1; rewrite le_bytes_le_val, take_drop.
Qed.

Lemma dec_raw_canonical n bytes h rest :
  bytes_wf bytes -> dec_raw n bytes = Some (h, rest) ->
  bytes = h ++ rest /\ length h = n /\ bytes_wf h /\ bytes_wf rest.
Proof.
  intros Hb. unfold dec_raw. destruct (Nat.ltb_spec (length bytes) n) as [|Hn]; [done|].
  intros [= <- <-]. pose proof Hb as Hb'. rewrite <- (take_drop n bytes) in Hb'.
  apply bytes_wf_app in Hb' as [Ht Hd]. split_and!; [by rewrite take_drop|rewrite length_take; lia|done..].
Qed.

Section canonical_vec.
Context {A : Type} (enc_item : A -> list Z) (dec_item : list Z -> option (A * list Z)).
Context (wf : A -> Prop)
  (Hitem : forall bytes a rest, bytes_wf bytes -> dec_item bytes = Some (a, rest) ->
    bytes = enc_item a ++ rest /\ wf a /\ bytes_wf rest).

Lemma dec_items_canonical n bytes l rest :
  bytes_wf bytes -> dec_items dec_item n bytes = Some (l, rest) ->
  bytes = concat (enc_item <$> l) ++ rest /\ length l = n /\ Forall wf l /\ bytes_wf rest.
Proof.
  revert bytes l. induction n as [|n IH]; intros bytes l Hb; cbn [dec_items].
  { by intros [= <- <-]. }
  destruct (dec_item bytes) as [[a bytes1]|] eqn:Ha; cbn [mbind option_bind]; [|done].
  destruct (dec_items dec_item n bytes1) as [[l1 bytes2]|] eqn:Hl; cbn [mbind option_bind]; [|done].
  intros [= <- <-]. apply Hitem in Ha as (-> & Hwa & Hb1); [|done].
  apply IH in Hl as (-> & Hlen & Hwl & Hb2); [|done].
  split_and!; [|cbn; lia|by constructor|done]. cbn. by rewrite app_assoc.
Qed.

Lemma bounded_vec_canonical maximum bytes l rest :
  bytes_wf bytes -> deserialize_bounded_vec dec_item maximum bytes = Some (l, rest) ->
  bytes = enc_vec enc_item l ++ rest /\ Z.of_nat (length l) <= maximum /\ Forall wf l /\
  bytes_wf rest.
Proof.
  intros Hb. unfold deserialize_bounded_vec, enc_vec.
  destruct (dec_uint 4 bytes) as [[n bytes1]|] eqn:Hn; cbn [mbind option_bind]; [|done].
  apply dec_uint_canonical in Hn as (-> & Hr & Hb1); [|done].
  destruct (Z.ltb_spec maximum n); [done|]. intros Hl.
  apply dec_items_canonical in Hl as (-> & Hlen & Hwl & Hb2); [|done].
  rewrite Hlen, Z2Nat.id by lia. by rewrite app_assoc.
Qed.
End canonical_vec.

(** Whatever decodes is the encoding of the decoded value. *)
Class BorshCanonical (A : Type) `{BorshLaw A} :=
  dec_canonical : forall bytes a rest, bytes_wf bytes -> dec bytes = Some (a, rest) ->
    bytes = enc a ++ rest /\ bwf a /\ bytes_wf rest.

(** A slice decodes to a value exactly when it is that value's encoding. *)
Lemma try_from_slice_Some `{BorshCanonical A} bytes a :
  bytes_wf bytes -> try_from_slice bytes = Some a <-> bwf a /\ bytes = enc a.
Proof.
  intros Hb. split.
  - unfold try_from_slice. destruct (dec bytes) as [[x rest]|] eqn:Hd; cbn [mbind option_bind]; [|done].
    case_decide as Hr; [|done]. intros [= <-]. apply dec_canonical in Hd as (-> & Hw & _); [|done].
    by rewrite Hr, app_nil_r.
  - intros [Hw ->]. by apply try_from_slice_enc.
Qed.

(** An encoding is not a proper prefix of another. *)
Lemma enc_prefix_inj `{BorshLaw A} (a b : A) x y :
  bwf a -> bwf b -> enc a ++ x = enc b ++ y -> a = b /\ x = y.
Proof.
  intros Ha Hb Heq. pose proof (dec_enc a x Ha) as H1. rewrite Heq, (dec_enc b y Hb) in H1.
  by simplify_eq.
Qed.

(** Decoder inversion: one primitive read of a successful decoding. *)
Ltac dec_inv H :=
  lazymatch type of H with
  | mbind _ (dec_uint ?n ?b) = Some _ =>
      let E := fresh "E" in
      destruct (dec_uint n b) as [[? ?]|] eqn:E; cbn [mbind option_bind] in H; [|discriminate H];
      apply dec_uint_canonical in E as (-> & ? & ?); [|assumption]
  | mbind _ (dec_raw ?n ?b) = Some _ =>
      let E := fresh "E" in
      destruct (dec_raw n b) as [[? ?]|] eqn:E; cbn [mbind option_bind] in H; [|discriminate H];
      apply dec_raw_canonical in E as (-> & ? & ? & ?); [|assumption]
  end.

(** ** Domain separation *)

(** No tag of another domain, followed by a length below 2^40, starts like this
    one: the tags differ at a common position, or the longer tag spells a
    length of at least 2^40. *)
Fixpoint tags_differ (a b : list Z) : bool :=
  match a, b with
  | x :: a', y :: b' => negb (x =? y) || tags_differ a' b'
  | [], _ => negb (nth 5 b 0 =? 0)
  | _, [] => negb (nth 5 a 0 =? 0)
  end.

Definition all_domains : list HashDomain :=
  [Transaction; Operation; CoinTransitionDomain; AssetIntent; HeaderDomain;
   ChainSpec; MerkleNode; AccountState; XPARQArtifact; ProtocolState; PoWSeed;
   PoWSalt; ProgramAccount; AssetDomain; ShareDomain; OutputDomain;
   EmissionDomain; CompactBlockKey; Raw].

Lemma all_tags_differ d1 d2 : d1 <> d2 -> tags_differ (tag d1) (tag d2) = true.
Proof. by destruct d1, d2. Qed.

(** The sixth byte of a little-endian length below 2^40 is zero. *)
Lemma length_byte5 n : 0 <= n < 2 ^ 40 -> nth 5 (le_bytes 8 n) 0 = 0.
Proof.
  intros Hn. cbn [le_bytes nth]. rewrite !Z.div_div by lia.
  rewrite Z.div_small; [done|]. lia.
Qed.

Lemma nth_app_prefix (a b : list Z) i : (i < length a)%nat -> nth i (a ++ b) 0 = nth i a 0.
Proof. apply app_nth1. Qed.

Lemma tags_differ_preimage a b n m x y :
  0 <= n < 2 ^ 40 -> 0 <= m < 2 ^ 40 ->
  tags_differ a b = true ->
  a ++ le_bytes 8 n ++ x <> b ++ le_bytes 8 m ++ y.
Proof.
  intros Hn Hm. revert b. induction a as [|p a IH]; intros [|q b] Hd Heq.
  - done.
  - apply (f_equal (fun l => nth 5 l 0)) in Heq. rewrite app_nil_l in Heq.
    rewrite nth_app_prefix, length_byte5 in Heq by (rewrite ?length_le_bytes; lia).
    cbn [tags_differ] in Hd. destruct (Z.eqb_spec (nth 5 (q :: b) 0) 0) as [|Hne]; [done|].
    rewrite (nth_app_prefix (q :: b)) in Heq; [congruence|].
    destruct (Nat.lt_ge_cases 5 (length (q :: b))); [done|].
    by rewrite nth_overflow in Hne.
  - apply (f_equal (fun l => nth 5 l 0)) in Heq. rewrite app_nil_l in Heq.
    rewrite (nth_app_prefix (le_bytes 8 m)), length_byte5 in Heq by (rewrite ?length_le_bytes; lia).
    cbn [tags_differ] in Hd. destruct (Z.eqb_spec (nth 5 (p :: a) 0) 0) as [|Hne]; [done|].
    rewrite (nth_app_prefix (p :: a)) in Heq; [congruence|].
    destruct (Nat.lt_ge_cases 5 (length (p :: a))); [done|].
    by rewrite nth_overflow in Hne.
  - injection Heq as -> Heq. cbn [tags_differ] in Hd. rewrite Z.eqb_refl in Hd.
    by apply (IH b).
Qed.

(** Hash domains are separated: for payloads shorter than 2^40 bytes the
    framed preimage determines the domain and the payload, although some tags
    are prefixes of others. A collision between two domains would be a SHA3
    collision. *)
Theorem domain_preimage_injective d1 d2 bytes1 bytes2 :
  Z.of_nat (length bytes1) < 2 ^ 40 -> Z.of_nat (length bytes2) < 2 ^ 40 ->
  domain_preimage d1 bytes1 = domain_preimage d2 bytes2 ->
  d1 = d2 /\ bytes1 = bytes2.
Proof.
  intros H1 H2 Heq. unfold domain_preimage in Heq.
  destruct (decide (d1 = d2)) as [->|Hne].
  - split; [done|]. apply app_inv_head in Heq.
    by apply app_inj_1 in Heq as [_ ?]; [|rewrite !length_le_bytes].
  - exfalso. apply all_tags_differ in Hne.
    by eapply tags_differ_preimage in Heq; [| | |done]; [|lia..].
Qed.

Lemma domain_preimage_injective_witness :
  AssetDomain = AssetDomain /\ [1; 2] = [1; 2].
Proof.
  apply (domain_preimage_injective AssetDomain AssetDomain [1; 2] [1; 2]);
    [vm_compute; reflexivity..|reflexivity].
Defined.

Lemma hash_wf_compute h :
  (Nat.eqb (length h) HASH_SIZE && forallb (fun d => (0 <=? d) && (d <? 256)) h)%bool = true ->
  hash_wf h.
Proof.
  intros [Hl Hd]%andb_true_iff. split; [by apply Nat.eqb_eq|by apply digits_compute].
Qed.

(** ** A concrete digest for evaluating examples: the last 32 bytes of the
    input, padded with zeros. *)
Definition toy_sha3 : Sha3 :=
  fun bytes => take HASH_SIZE ((fun b => b mod 256) <$> (rev bytes ++ replicate HASH_SIZE 0)).

Lemma toy_sha3_spec : @Sha3Spec toy_sha3.
Proof.
  intros bytes. unfold sha3_256, toy_sha3. split.
  - rewrite length_take_le; [done|].
    rewrite length_fmap, length_app, length_replicate. unfold HASH_SIZE. lia.
  - apply Forall_take, Forall_fmap, Forall_true. intros b. simpl.
    apply Z.mod_pos_bound. lia.
Qed.
