(* ===== verification/Merkle.v ===== *)
(** * Merkle trees and inclusion proofs

    Models [kernel/src/blockchain/merkle.rs]. A level with an odd number of
    nodes promotes its last node unchanged. The three [while] loops halve a
    length, so 64 iterations cover every 64-bit [usize]; [MERKLE_FUEL] is that
    bound and [merkle_levels_single] shows it is never exhausted. *)

From S2P Require Import Prelude Codec.

Definition MERKLE_FUEL : nat := 64.

Section merkle.
Context `{Sha3}.

Definition merkle_parent (left right : Hash) (hash_domain : HashDomain) : Hash :=
  domain hash_domain (left ++ right).

Fixpoint merkle_parent_level (level : list Hash) (hash_domain : HashDomain)
    : list Hash :=
  match level with
  | first :: second :: rest =>
      merkle_parent first second hash_domain :: merkle_parent_level rest hash_domain
  | [last] => [last]
  | [] => []
  end.

(** [while level.len() > 1 { level = merkle_parent_level(..) }]. *)
Fixpoint merkle_levels (fuel : nat) (level : list Hash) (hash_domain : HashDomain)
    : list Hash :=
  match fuel with
  | O => level
  | S fuel' =>
      if (1 <? length level)%nat
      then merkle_levels fuel' (merkle_parent_level level hash_domain) hash_domain
      else level
  end.

Definition merkle_root (leaves : list Hash) (hash_domain : HashDomain) : option Hash :=
  match leaves with
  | [] => None
  | _ => head (merkle_levels MERKLE_FUEL leaves hash_domain)
  end.

Record MerkleInclusionProof := {
  leaf_index : Z;
  leaf_count : Z;
  siblings : list Hash;
}.

(** The loop of [create]: the siblings met on the way to the root. *)
Fixpoint create_siblings (fuel : nat) (level : list Hash) (index : nat)
    (hash_domain : HashDomain) : list Hash :=
  match fuel with
  | O => []
  | S fuel' =>
      if (1 <? length level)%nat then
        let sibling_index :=
          if Nat.even index then (index + 1)%nat else (index - 1)%nat in
        let rest := create_siblings fuel' (merkle_parent_level level hash_domain)
                      (index / 2) hash_domain in
        match level !! sibling_index with
        | Some sibling => sibling :: rest
        | None => rest
        end
      else []
  end.

Definition create (leaves : list Hash) (index : nat) (hash_domain : HashDomain)
    : option MerkleInclusionProof :=
  if (length leaves =? 0)%nat || (length leaves <=? index)%nat then None
  else
    leaf_index ← try_from 32 (Z.of_nat index);
    leaf_count ← try_from 32 (Z.of_nat (length leaves));
    Some {| leaf_index := leaf_index; leaf_count := leaf_count;
            siblings := create_siblings MERKLE_FUEL leaves index hash_domain |}.

(** The loop of [verify]: the root hash reached and the siblings left over;
    [None] when a sibling is missing. *)
Fixpoint verify_loop (fuel : nat) (siblings : list Hash) (index width : nat)
    (hash : Hash) (hash_domain : HashDomain) : option (Hash * list Hash) :=
  match fuel with
  | O => Some (hash, siblings)
  | S fuel' =>
      if (1 <? width)%nat then
        let has_sibling := Nat.odd index || (index + 1 <? width)%nat in
        '(hash, siblings) ←
          (if has_sibling then
             match siblings with
             | [] => None
             | sibling :: rest =>
                 Some (if Nat.even index
                       then merkle_parent hash sibling hash_domain
                       else merkle_parent sibling hash hash_domain, rest)
             end
           else Some (hash, siblings));
        verify_loop fuel' siblings (index / 2) (Nat.div2 (width + 1)) hash hash_domain
      else Some (hash, siblings)
  end.

Definition verify (proof : MerkleInclusionProof) (leaf root : Hash)
    (hash_domain : HashDomain) : bool :=
  let index := Z.to_nat (leaf_index proof) in
  let width := Z.to_nat (leaf_count proof) in
  if (width =? 0)%nat || (width <=? index)%nat || (64 <? length (siblings proof))%nat
  then false
  else
    match verify_loop MERKLE_FUEL (siblings proof) index width leaf hash_domain with
    | None => false
    | Some (hash, rest) => bool_decide (rest = []) && bool_decide (hash = root)
    end.

(** ** Levels *)

Lemma list_pair_ind {A} (P : list A -> Prop) :
  P [] -> (forall a, P [a]) -> (forall a b l, P l -> P (a :: b :: l)) -> forall l, P l.
Proof.
  intros H0 H1 H2. fix IH 1. intros [|a [|b l]]; [done|apply H1|apply H2, IH].
Qed.

Lemma length_parent_level d level :
  length (merkle_parent_level level d) = Nat.div2 (length level + 1).
Proof.
  induction level as [|a|a b l IH] using list_pair_ind; [done..|].
  cbn [merkle_parent_level length]. rewrite IH. done.
Qed.

(** The parent of position [i]: the hash of its pair, or the promoted node. *)
Lemma lookup_parent_level d level i :
  merkle_parent_level level d !! i =
    (first ← level !! (2 * i)%nat;
     Some match level !! (2 * i + 1)%nat with
          | Some second => merkle_parent first second d
          | None => first
          end).
Proof.
  revert i. induction level as [|a|a b l IH] using list_pair_ind; intros i.
  - by rewrite !lookup_nil.
  - destruct i as [|i]; [done|]. cbn [merkle_parent_level].
    replace (2 * S i)%nat with (S (2 * i + 1))%nat by lia. by rewrite !lookup_cons, !lookup_nil.
  - destruct i as [|i]; [done|]. cbn [merkle_parent_level].
    replace (2 * S i)%nat with (S (S (2 * i)))%nat by lia.
    replace (S (S (2 * i)) + 1)%nat with (S (S (2 * i + 1)))%nat by lia.
    rewrite !lookup_cons. cbn. apply IH.
Qed.

Lemma div2_le_pow2 n k :
  (n <= 2 ^ S k)%nat -> (Nat.div2 (n + 1) <= 2 ^ k)%nat.
Proof.
  intros Hn. rewrite Nat.div2_div. rewrite Nat.pow_succ_r' in Hn.
  apply Nat.lt_succ_r, Nat.Div0.div_lt_upper_bound. lia.
Qed.

Lemma div2_succ_pos n : (1 < n)%nat -> (0 < Nat.div2 (n + 1))%nat.
Proof. intros Hn. rewrite Nat.div2_div. apply Nat.div_str_pos. lia. Qed.

Lemma parent_index_bound i n :
  (i < n)%nat -> (1 < n)%nat -> (i / 2 < Nat.div2 (n + 1))%nat.
Proof.
  intros. rewrite Nat.div2_div. apply Nat.Div0.div_lt_upper_bound.
  pose proof (Nat.div_mod_eq (n + 1) 2). pose proof (Nat.mod_upper_bound (n + 1) 2). lia.
Qed.

Lemma merkle_levels_single d k level :
  (0 < length level <= 2 ^ k)%nat -> length (merkle_levels k level d) = 1%nat.
Proof.
  revert level. induction k as [|k IH]; intros level Hlen; cbn [merkle_levels].
  - change (2 ^ 0)%nat with 1%nat in Hlen. lia.
  - destruct (Nat.ltb_spec 1 (length level)); [|lia].
    apply IH. rewrite length_parent_level.
    split; [by apply div2_succ_pos|apply div2_le_pow2, Hlen].
Qed.

(** ** Completeness *)

Lemma even_double i : Nat.even i = true -> i = (2 * (i / 2))%nat.
Proof.
  intros Hi. apply Nat.even_spec in Hi as [k ->].
  rewrite (Nat.mul_comm 2 k), Nat.div_mul by lia. lia.
Qed.

Lemma odd_double i : Nat.even i = false -> i = (2 * (i / 2) + 1)%nat.
Proof.
  intros Hi. rewrite <- Nat.negb_odd in Hi. apply negb_false_iff in Hi.
  apply Nat.odd_spec in Hi as [k ->].
  replace ((2 * k + 1) / 2)%nat with k; [lia|].
  apply (Nat.div_unique _ 2 k 1); lia.
Qed.

Lemma length_create_siblings d k level i :
  (length (create_siblings k level i d) <= k)%nat.
Proof.
  revert level i. induction k as [|k IH]; intros level i; cbn [create_siblings]; [done|].
  specialize (IH (merkle_parent_level level d) (i / 2)%nat).
  destruct (_ <? _)%nat; [|cbn [length]; lia].
  cbn zeta. destruct (level !! _); cbn [length]; lia.
Qed.

Lemma verify_create d k level i leaf :
  (length level <= 2 ^ k)%nat -> level !! i = Some leaf ->
  exists root, head (merkle_levels k level d) = Some root /\
    verify_loop k (create_siblings k level i d) i (length level) leaf d = Some (root, []).
Proof.
  revert level i leaf. induction k as [|k IH]; intros level i leaf Hlen Hi.
  - pose proof (lookup_lt_Some _ _ _ Hi). change (2 ^ 0)%nat with 1%nat in Hlen.
    destruct level as [|x [|]]; simpl in *; try lia.
    assert (i = 0)%nat as -> by lia. simplify_eq/=. by exists leaf.
  - pose proof (lookup_lt_Some _ _ _ Hi) as Hlt.
    cbn [merkle_levels create_siblings verify_loop].
    destruct (Nat.ltb_spec 1 (length level)) as [Hw|Hw]; last first.
    { destruct level as [|x [|]]; simpl in *; try lia.
      assert (i = 0)%nat as -> by lia. simplify_eq/=. by exists leaf. }
    set (level' := merkle_parent_level level d).
    assert (length level' = Nat.div2 (length level + 1)) as Hlen'
      by apply length_parent_level.
    assert (length level' <= 2 ^ k)%nat as Hb by (rewrite Hlen'; by apply div2_le_pow2).
    pose proof (lookup_parent_level d level (i / 2)) as Hp. fold level' in Hp.
    rewrite <- Hlen'. rewrite <- Nat.negb_even. destruct (Nat.even i) eqn:Hev; cbn [negb orb].
    + apply even_double in Hev. rewrite <- Hev, Hi in Hp. cbn [mbind option_bind] in Hp.
      destruct (level !! (i + 1)%nat) as [s|] eqn:Hs.
      * replace (i + 1 <? length level)%nat with true
          by (symmetry; apply Nat.ltb_lt; eapply lookup_lt_Some, Hs).
        cbn [mbind option_bind]. by apply IH.
      * replace (i + 1 <? length level)%nat with false
          by (symmetry; apply Nat.ltb_ge; eapply lookup_ge_None, Hs).
        cbn [mbind option_bind]. by apply IH.
    + apply odd_double in Hev.
      destruct (lookup_lt_is_Some_2 level (2 * (i / 2))%nat) as [s Hs]; [lia|].
      replace (i - 1)%nat with (2 * (i / 2))%nat by lia.
      rewrite Hs in *. rewrite <- Hev, Hi in Hp. cbn [mbind option_bind] in *. by apply IH.
Qed.

(** ** Soundness *)

(** Two different byte strings with the same hash. *)
Definition collision (d : HashDomain) : Prop :=
  exists x y, x <> y /\ domain d x = domain d y.

Lemma merkle_parent_inj d a b a' b' :
  length a = length a' -> merkle_parent a b d = merkle_parent a' b' d ->
  (a = a' /\ b = b') \/ collision d.
Proof.
  intros Hlen Heq. destruct (decide (a ++ b = a' ++ b')) as [Happ|Hne].
  - left. by apply app_inj_1 in Happ.
  - right. by exists (a ++ b), (a' ++ b').
Qed.

Lemma length_merkle_parent `{!Sha3Spec} d a b :
  length (merkle_parent a b d) = HASH_SIZE.
Proof. apply (sha3_wf (domain_preimage d (a ++ b))). Qed.

Lemma parent_level_hash_wf `{!Sha3Spec} d level :
  Forall (fun h => length h = HASH_SIZE) level ->
  Forall (fun h => length h = HASH_SIZE) (merkle_parent_level level d).
Proof.
  induction level as [|a|a b l IH] using list_pair_ind; intros Hl; [done..|].
  rewrite !Forall_cons in Hl. destruct Hl as (_ & _ & Hl). cbn [merkle_parent_level].
  apply Forall_cons. split; [apply length_merkle_parent|by apply IH].
Qed.

Lemma verify_loop_sound `{!Sha3Spec} d k level sibs i leaf root :
  (length level <= 2 ^ k)%nat -> (i < length level)%nat ->
  Forall (fun h => length h = HASH_SIZE) level -> length leaf = HASH_SIZE ->
  Forall (fun h => length h = HASH_SIZE) sibs ->
  head (merkle_levels k level d) = Some root ->
  verify_loop k sibs i (length level) leaf d = Some (root, []) ->
  level !! i = Some leaf \/ collision d.
Proof.
  revert level sibs i leaf. induction k as [|k IH];
    intros level sibs i leaf Hlen Hi Hlv Hleaf Hsibs Hroot Hv.
  - change (2 ^ 0)%nat with 1%nat in Hlen.
    destruct level as [|x [|]]; simpl in *; try lia. simplify_eq.
    assert (i = 0)%nat as -> by lia. by left.
  - cbn [merkle_levels verify_loop] in *.
    destruct (Nat.ltb_spec 1 (length level)) as [Hw|Hw]; last first.
    { destruct level as [|x [|]]; simpl in *; try lia.
      assert (i = 0)%nat as -> by lia. simplify_eq/=. by left. }
    set (level' := merkle_parent_level level d) in *.
    assert (length level' = Nat.div2 (length level + 1)) as Hlen'
      by apply length_parent_level.
    rewrite <- Hlen' in Hv.
    assert (length level' <= 2 ^ k)%nat as Hb by (rewrite Hlen'; by apply div2_le_pow2).
    assert (i / 2 < length level')%nat as Hib by (rewrite Hlen'; by apply parent_index_bound).
    assert (Forall (fun h => length h = HASH_SIZE) level') as Hlv'
      by by apply parent_level_hash_wf.
    pose proof (lookup_parent_level d level (i / 2)) as Hp. fold level' in Hp.
    destruct (lookup_lt_is_Some_2 level i Hi) as [here Hhere].
    assert (length here = HASH_SIZE) as Hhl by (by eapply (proj1 (Forall_lookup _ _) Hlv)).
    rewrite <- Nat.negb_even in Hv.
    destruct (Nat.even i) eqn:Hev; cbn [negb orb] in Hv.
    + apply even_double in Hev. rewrite <- Hev, Hhere in Hp. cbn [mbind option_bind] in Hp.
      destruct (Nat.ltb_spec (i + 1) (length level)).
      * destruct sibs as [|s sibs]; [done|]. cbn [mbind option_bind] in Hv.
        apply Forall_cons in Hsibs as [Hs Hsibs].
        destruct (lookup_lt_is_Some_2 level (i + 1)) as [other Hother]; [done|].
        rewrite Hother in Hp.
        destruct (IH level' sibs _ _ Hb Hib Hlv' (length_merkle_parent d _ _) Hsibs Hroot Hv)
          as [Heq|]; [|by right]. rewrite Hp in Heq. injection Heq as Heq.
        destruct (merkle_parent_inj d here other leaf s) as [[-> _]|]; [congruence|done| |by right].
        by left.
      * cbn [mbind option_bind] in Hv. rewrite (lookup_ge_None_2 level (i + 1)) in Hp by lia.
        destruct (IH level' sibs _ _ Hb Hib Hlv' Hleaf Hsibs Hroot Hv) as [Heq|];
          [|by right]. left. congruence.
    + apply odd_double in Hev. destruct sibs as [|s sibs]; [done|].
      cbn [mbind option_bind] in Hv. apply Forall_cons in Hsibs as [Hs Hsibs].
      destruct (lookup_lt_is_Some_2 level (2 * (i / 2))%nat) as [other Hother]; [lia|].
      assert (length other = HASH_SIZE) by (by eapply (proj1 (Forall_lookup _ _) Hlv)).
      rewrite Hother in Hp. cbn [mbind option_bind] in Hp. rewrite <- Hev, Hhere in Hp.
      destruct (IH level' sibs _ _ Hb Hib Hlv' (length_merkle_parent d _ _) Hsibs Hroot Hv)
        as [Heq|]; [|by right]. rewrite Hp in Heq. injection Heq as Heq.
      destruct (merkle_parent_inj d other here s leaf) as [[_ ->]|]; [congruence|done| |by right].
      by left.
Qed.
End merkle.

(** ** Properties *)

Section merkle_properties.
Context `{Sha3}.

(** Merkle proof completeness: for any non-empty list of fewer than 2^32
    leaves and any position in it, the tree has a root, [create] returns a proof,
    and [verify] accepts that proof for the leaf and the root. *)
Theorem merkle_proof_complete d (leaves : list (list Z)) i leaf :
  Z.of_nat (length leaves) < 2 ^ 32 -> leaves !! i = Some leaf ->
  exists root proof,
    merkle_root leaves d = Some root /\ create leaves i d = Some proof /\
    verify proof leaf root d = true.
Proof.
  intros Hlen Hi. pose proof (lookup_lt_Some _ _ _ Hi) as Hlt.
  assert (length leaves <= 2 ^ MERKLE_FUEL)%nat as Hfuel.
  { apply Nat2Z.inj_le. rewrite Nat2Z.inj_pow. unfold MERKLE_FUEL.
    change (Z.of_nat 2 ^ Z.of_nat 64) with (2 ^ 64). lia. }
  destruct (verify_create d MERKLE_FUEL leaves i leaf Hfuel Hi) as (root & Hroot & Hv).
  unfold create, try_from.
  replace (length leaves =? 0)%nat with false by (symmetry; apply Nat.eqb_neq; lia).
  replace (length leaves <=? i)%nat with false by (symmetry; apply Nat.leb_gt; lia).
  replace (Z.of_nat i <? 2 ^ 32) with true by (symmetry; apply Z.ltb_lt; lia).
  replace (Z.of_nat (length leaves) <? 2 ^ 32) with true by (symmetry; apply Z.ltb_lt; lia).
  cbn [orb mbind option_bind]. exists root. eexists. split_and!; [|done|].
  - by destruct leaves.
  - unfold verify. cbn [leaf_index leaf_count siblings]. rewrite !Nat2Z.id, Hv.
    pose proof (length_create_siblings d MERKLE_FUEL leaves i).
    replace (length leaves =? 0)%nat with false by (symmetry; apply Nat.eqb_neq; lia).
    replace (length leaves <=? i)%nat with false by (symmetry; apply Nat.leb_gt; lia).
    replace (64 <? _)%nat with false
      by (symmetry; apply Nat.ltb_ge; unfold MERKLE_FUEL in *; lia).
    by rewrite !bool_decide_eq_true_2.
Qed.

(** Merkle proof soundness: a proof accepted against the root of a tree,
    with the tree's leaf count, is for the leaf at the claimed index; otherwise
    two different byte strings with the same domain hash exist. *)
Theorem merkle_proof_sound `{!Sha3Spec} d (leaves : list (list Z)) proof leaf root :
  Z.of_nat (length leaves) < 2 ^ 32 ->
  Forall (fun h => length h = HASH_SIZE) leaves -> length leaf = HASH_SIZE ->
  Forall (fun h => length h = HASH_SIZE) (siblings proof) ->
  leaf_count proof = Z.of_nat (length leaves) ->
  merkle_root leaves d = Some root ->
  verify proof leaf root d = true ->
  leaves !! Z.to_nat (leaf_index proof) = Some leaf \/ collision d.
Proof.
  intros Hlen Hlv Hleaf Hsibs Hcount Hroot Hv. unfold verify in Hv.
  rewrite Hcount, Nat2Z.id in Hv.
  destruct (_ || _ || _) eqn:Hg; [done|]. rewrite !orb_false_iff in Hg.
  destruct Hg as [[Hz%Nat.eqb_neq Hi%Nat.leb_gt] _].
  destruct (verify_loop _ _ _ _ _ _) as [[hash rest]|] eqn:Hloop; [|done].
  apply andb_true_iff in Hv as [->%bool_decide_eq_true ->%bool_decide_eq_true].
  assert (length leaves <= 2 ^ MERKLE_FUEL)%nat as Hfuel.
  { apply Nat2Z.inj_le. rewrite Nat2Z.inj_pow. unfold MERKLE_FUEL.
    change (Z.of_nat 2 ^ Z.of_nat 64) with (2 ^ 64). lia. }
  eapply (verify_loop_sound d MERKLE_FUEL); eauto.
  by destruct leaves.
Qed.
End merkle_properties.

Lemma merkle_proof_complete_witness :
  let leaves := [replicate 32 1; replicate 32 2; replicate 32 3] in
  exists root proof,
    @merkle_root toy_sha3 leaves MerkleNode = Some root /\
    @create toy_sha3 leaves 2 MerkleNode = Some proof /\
    @verify toy_sha3 proof (replicate 32 3) root MerkleNode = true.
Proof.
  apply (@merkle_proof_complete toy_sha3 MerkleNode
    [replicate 32 1; replicate 32 2; replicate 32 3] 2);
    [vm_compute; reflexivity|reflexivity].
Defined.

Lemma merkle_proof_sound_witness :
  let leaves := [replicate 32 1; replicate 32 2; replicate 32 3] in
  let proof := {| leaf_index := 2; leaf_count := 3;
                  siblings := [@merkle_parent toy_sha3 (replicate 32 1) (replicate 32 2) MerkleNode] |} in
  @verify toy_sha3 proof (replicate 32 3)
    (@merkle_parent toy_sha3 (@merkle_parent toy_sha3 (replicate 32 1) (replicate 32 2) MerkleNode)
      (replicate 32 3) MerkleNode) MerkleNode = true /\
  (leaves !! 2%nat = Some (replicate 32 3) \/ @collision toy_sha3 MerkleNode).
Proof.
  cbn zeta. split; [vm_compute; reflexivity|].
  refine (@merkle_proof_sound toy_sha3 toy_sha3_spec MerkleNode
    [replicate 32 1; replicate 32 2; replicate 32 3]
    {| leaf_index := 2; leaf_count := 3;
       siblings := [@merkle_parent toy_sha3 (replicate 32 1) (replicate 32 2) MerkleNode] |}
    (replicate 32 3)
    (@merkle_parent toy_sha3 (@merkle_parent toy_sha3 (replicate 32 1) (replicate 32 2) MerkleNode)
      (replicate 32 3) MerkleNode) _ _ _ _ _ _ _);
    try (vm_compute; reflexivity).
  - repeat constructor.
  - constructor; [vm_compute; reflexivity|constructor].
Defined.
