(* ===== verification/Monetary.v ===== *)
(** * Monetary types

    Models [kernel/src/common.rs], [kernel/src/monetary/coin.rs],
    [kernel/src/monetary/asset.rs], the asset calls of
    [kernel/src/program/system/asset_program] with their Borsh encodings and
    bounded decoders, and [kernel/src/program/coin_transition.rs]. *)

From S2P Require Import Prelude Codec.
#[local] Open Scope Z_scope.

Abbreviation ProgramId := (list Z) (only parsing).
Abbreviation CoinShare := (list Z) (only parsing).
Abbreviation AssetContract := (list Z) (only parsing).
Abbreviation Share := (list Z) (only parsing).

Inductive Owner : Type := Program (id : ProgramId).

#[global] Instance Owner_eq_dec : EqDecision Owner.
Proof. solve_decision. Defined.
#[global] Instance Owner_countable : Countable Owner.
Proof.
  by refine (inj_countable' (fun o => let 'Program id := o in id) Program _); intros [].
Defined.

Definition owner_program (o : Owner) : ProgramId := let 'Program id := o in id.

Inductive Recipient : Type := RecipientProgram (id : ProgramId) | BlockMiner.

Definition resolve (r : Recipient) (block_miner : ProgramId) : Owner :=
  match r with
  | RecipientProgram program => Program program
  | BlockMiner => Program block_miner
  end.

(** [Zeno(u64)] and [Unit(u128)]: checked arithmetic on amounts. *)
Module Zeno.
Definition checked_add (a b : Z) : option Z := Prelude.checked_add 64 a b.
Definition checked_sub (a b : Z) : option Z := Prelude.checked_sub a b.
Definition is_zero (a : Z) : bool := a =? 0.
End Zeno.

Module Unit.
Definition checked_add (a b : Z) : option Z := Prelude.checked_add 128 a b.
Definition checked_sub (a b : Z) : option Z := Prelude.checked_sub a b.
Definition saturating_add (a b : Z) : Z := Prelude.saturating_add 128 a b.
Definition is_zero (a : Z) : bool := a =? 0.
End Unit.

(** ** Native coin *)

Definition ZENO_PER_COIN : Z := 10 ^ 8.

(** [CoinContract::derive()]. *)
Definition coin_contract : Hash := replicate HASH_SIZE 0.

Record CoinOutput := { co_output : Owner; co_amount : Z }.

#[global] Instance CoinOutput_eq_dec : EqDecision CoinOutput.
Proof. solve_decision. Defined.

Section coin_share.
Context `{Sha3}.

Definition from_emission (origin : Hash) : CoinShare :=
  domain EmissionDomain (coin_contract ++ origin).

Definition from_output (commitment : Hash) (index : Z) : CoinShare :=
  domain OutputDomain (coin_contract ++ commitment ++ le_bytes 4 index).
End coin_share.

(** ** Coin transitions *)

Definition MAX_PROGRAM_ITEMS : Z := 4096.

Record CoinCharges := { miner_fee : Z }.

Record CoinTransition := {
  signer : ProgramId;
  ct_inputs : list CoinShare;
  ct_outputs : list CoinOutput;
  charges : CoinCharges;
}.

Inductive IntentError :=
| EmptyInputs | EmptyOutputs | ZeroAmount | DuplicateInput | TooManyItems
| InvalidAssetCall | Encoding.

(** Inserting each identifier into a [BTreeSet], is one already there? *)
Fixpoint has_duplicate (seen : gset (list Z)) (ids : list (list Z)) : bool :=
  match ids with
  | [] => false
  | id :: rest =>
      if decide (id ∈ seen) then true else has_duplicate ({[id]} ∪ seen) rest
  end.

Definition transition_validate (self : CoinTransition) : result IntentError unit :=
  fail_if (MAX_PROGRAM_ITEMS <? Z.of_nat (length (ct_inputs self)))
          || (MAX_PROGRAM_ITEMS <? Z.of_nat (length (ct_outputs self))) with TooManyItems;
  fail_if bool_decide (ct_inputs self = []) with EmptyInputs;
  fail_if bool_decide (ct_outputs self = []) && Zeno.is_zero (miner_fee (charges self))
    with EmptyOutputs;
  fail_if has_duplicate ∅ (ct_inputs self) with DuplicateInput;
  fail_if existsb (fun output => Zeno.is_zero (co_amount output)) (ct_outputs self)
    with ZeroAmount;
  Ok tt.

(** ** Assets *)

Definition ASSET_NAME_MAX_LEN : Z := 64.

Inductive AssetError :=
| InvalidAmount | InvalidProgram | AssetAlreadyExists | ShareAlreadyExists
| UnknownAsset | UnknownObject | AssetMismatch | Unauthorized | InvalidMintNonce
| SupplyOverflow | BalanceOverflow | AssetEncoding.

Record Metadata := {
  name : list Z;
  max_supply : Z;
  creator : Owner;
  mint_authority : Owner;
}.

#[global] Instance Metadata_eq_dec : EqDecision Metadata.
Proof. solve_decision. Defined.

Record AssetRecord := {
  metadata : Metadata;
  supply : Z;
  total_minted : Z;
  mint_nonce : Z;
  total_burned : Z;
}.

#[global] Instance AssetRecord_eq_dec : EqDecision AssetRecord.
Proof. solve_decision. Defined.

Record AssetShare := { asset : AssetContract; amount : Z; owner : Owner }.

#[global] Instance AssetShare_eq_dec : EqDecision AssetShare.
Proof. solve_decision. Defined.

Record AssetOutput := { ao_recipient : Owner; ao_amount : Z }.

(** [u8::is_ascii_graphic]. *)
Definition is_ascii_graphic (b : Z) : bool := (0x21 <=? b) && (b <=? 0x7e).

(** [char::is_whitespace] on ASCII; a name with other white space is rejected
    for not being ASCII. *)
Definition is_ascii_whitespace (b : Z) : bool :=
  (b =? 0x20) || ((0x09 <=? b) && (b <=? 0x0d)).

Fixpoint trim_start (s : list Z) : list Z :=
  match s with
  | b :: rest => if is_ascii_whitespace b then trim_start rest else s
  | [] => []
  end.

Definition trim (s : list Z) : list Z := rev (trim_start (rev (trim_start s))).

Definition validate_asset_name (name : list Z) : result AssetError unit :=
  fail_if bool_decide (name = []) || (ASSET_NAME_MAX_LEN <? Z.of_nat (length name))
          || negb (bool_decide (trim name = name))
          || negb (forallb (fun byte => (byte =? 0x20) || is_ascii_graphic byte) name)
    with InvalidProgram;
  Ok tt.

Definition metadata_validate (self : Metadata) : result AssetError unit :=
  _ ← validate_asset_name (name self);
  fail_if Unit.is_zero (max_supply self) with InvalidProgram;
  Ok tt.

Definition metadata_new (name : list Z) (max_supply : Z) (creator mint_authority : Owner)
    : result AssetError Metadata :=
  let metadata := {| name := name; max_supply := max_supply; creator := creator;
                     mint_authority := mint_authority |} in
  _ ← metadata_validate metadata;
  Ok metadata.

Definition ensure_unique_asset_inputs (inputs : list Share) : result AssetError unit :=
  if has_duplicate ∅ inputs then Err InvalidProgram else Ok tt.

(** ** Borsh encodings of the asset types *)

Definition enc_owner (o : Owner) : list Z := 0 :: owner_program o.
Definition dec_owner (bytes : list Z) : option (Owner * list Z) :=
  '(tag, bytes) ← dec_uint 1 bytes;
  if tag =? 0 then '(id, bytes) ← dec_raw HASH_SIZE bytes; Some (Program id, bytes)
  else None.

Definition enc_string (s : list Z) : list Z :=
  le_bytes 4 (Z.of_nat (length s)) ++ s.

Definition enc_metadata (m : Metadata) : list Z :=
  enc_string (name m) ++ le_bytes 16 (max_supply m) ++ enc_owner (creator m)
  ++ enc_owner (mint_authority m).

Definition enc_record (r : AssetRecord) : list Z :=
  enc_metadata (metadata r) ++ le_bytes 16 (supply r) ++ le_bytes 16 (total_minted r)
  ++ le_bytes 8 (mint_nonce r) ++ le_bytes 16 (total_burned r).

Definition enc_share (s : AssetShare) : list Z :=
  asset s ++ le_bytes 16 (amount s) ++ enc_owner (owner s).

Definition enc_output (o : AssetOutput) : list Z :=
  enc_owner (ao_recipient o) ++ le_bytes 16 (ao_amount o).
Definition dec_output (bytes : list Z) : option (AssetOutput * list Z) :=
  '(r, bytes) ← dec_owner bytes;
  '(a, bytes) ← dec_uint 16 bytes;
  Some ({| ao_recipient := r; ao_amount := a |}, bytes).

Section asset_ids.
Context `{Sha3}.

(** Encoding these types cannot fail, so [AssetError::Encoding] does not occur. *)
Definition asset_derive (metadata : Metadata) (nonce : Z) : AssetContract :=
  domain AssetDomain (enc_metadata metadata ++ le_bytes 8 nonce).

Definition share_derive (asset : AssetContract) (commitment : Hash) (output_index : Z)
    : Share :=
  domain ShareDomain (asset ++ commitment ++ le_bytes 4 output_index).
End asset_ids.

(** ** Asset calls *)

Record Register := {
  rg_name : list Z;
  rg_max_supply : Z;
  rg_initial_mint : Z;
  rg_mint_authority : Owner;
  rg_nonce : Z;
}.

Record Mint := { mt_asset : AssetContract; mt_nonce : Z; mt_recipient : Owner; mt_amount : Z }.

Record Transfer := {
  tr_asset : AssetContract;
  tr_inputs : list Share;
  tr_outputs : list AssetOutput;
}.

Record Burn := {
  bn_asset : AssetContract;
  bn_inputs : list Share;
  bn_amount : Z;
  bn_output : Z;
}.

Inductive AssetCall :=
| CallRegister (call : Register)
| CallMint (call : Mint)
| CallTransfer (call : Transfer)
| CallBurn (call : Burn).

Inductive ProgramError :=
| UnknownProgram | UnknownOpcode | InvalidPayload | PayloadTooLarge | NoInputs
| TooManyInputs | NoOutputs | TooManyOutputs | PDuplicateInput | PZeroAmount
| InvalidMetadata | AmountOverflow | ExecutionNotImplemented.

Inductive AssetOpcode := OpRegister | OpMint | OpTransfer | OpBurn.

Definition MAX_ASSET_INPUTS : Z := 256.
Definition MAX_ASSET_OUTPUTS : Z := 256.

Definition max_payload_size (opcode : AssetOpcode) : Z :=
  match opcode with
  | OpRegister => 4 * 1024
  | OpMint => 1024
  | OpTransfer => 64 * 1024
  | OpBurn => 32 * 1024
  end.

Definition opcode_u8 (opcode : AssetOpcode) : Z :=
  match opcode with OpRegister => 1 | OpMint => 2 | OpTransfer => 3 | OpBurn => 4 end.

Definition opcode_try_from (value : Z) : result ProgramError AssetOpcode :=
  if value =? 1 then Ok OpRegister else if value =? 2 then Ok OpMint
  else if value =? 3 then Ok OpTransfer else if value =? 4 then Ok OpBurn
  else Err UnknownOpcode.

(** Borsh of the four call structs. *)
Definition enc_call (call : AssetCall) : list Z :=
  match call with
  | CallRegister c =>
      enc_string (rg_name c) ++ le_bytes 16 (rg_max_supply c)
      ++ le_bytes 16 (rg_initial_mint c) ++ enc_owner (rg_mint_authority c)
      ++ le_bytes 8 (rg_nonce c)
  | CallMint c =>
      mt_asset c ++ le_bytes 8 (mt_nonce c) ++ enc_owner (mt_recipient c)
      ++ le_bytes 16 (mt_amount c)
  | CallTransfer c =>
      tr_asset c ++ enc_vec id (tr_inputs c) ++ enc_vec enc_output (tr_outputs c)
  | CallBurn c =>
      bn_asset c ++ enc_vec id (bn_inputs c) ++ le_bytes 16 (bn_amount c)
      ++ le_bytes 16 (bn_output c)
  end.

Definition dec_register (bytes : list Z) : option (AssetCall * list Z) :=
  '(name, bytes) ← dec_string bytes;
  '(max_supply, bytes) ← dec_uint 16 bytes;
  '(initial_mint, bytes) ← dec_uint 16 bytes;
  '(mint_authority, bytes) ← dec_owner bytes;
  '(nonce, bytes) ← dec_uint 8 bytes;
  Some (CallRegister {| rg_name := name; rg_max_supply := max_supply;
    rg_initial_mint := initial_mint; rg_mint_authority := mint_authority;
    rg_nonce := nonce |}, bytes).

Definition dec_mint (bytes : list Z) : option (AssetCall * list Z) :=
  '(asset, bytes) ← dec_raw HASH_SIZE bytes;
  '(nonce, bytes) ← dec_uint 8 bytes;
  '(recipient, bytes) ← dec_owner bytes;
  '(amount, bytes) ← dec_uint 16 bytes;
  Some (CallMint {| mt_asset := asset; mt_nonce := nonce; mt_recipient := recipient;
    mt_amount := amount |}, bytes).

(** The count is checked before any element is read. *)
Definition bounded_vec {A} (dec_item : list Z -> option (A * list Z)) (reader : list Z)
    (max : Z) (excess : ProgramError) : result ProgramError (list A * list Z) :=
  '(count, reader) ← ok_or (dec_uint 4 reader) InvalidPayload;
  fail_if max <? count with excess;
  ok_or (dec_items dec_item (Z.to_nat count) reader) InvalidPayload.

Definition decode_transfer (payload : list Z) : result ProgramError AssetCall :=
  '(asset, reader) ← ok_or (dec_raw HASH_SIZE payload) InvalidPayload;
  '(inputs, reader) ← bounded_vec (dec_raw HASH_SIZE) reader MAX_ASSET_INPUTS TooManyInputs;
  '(outputs, reader) ← bounded_vec dec_output reader MAX_ASSET_OUTPUTS TooManyOutputs;
  fail_if negb (bool_decide (reader = [])) with InvalidPayload;
  Ok (CallTransfer {| tr_asset := asset; tr_inputs := inputs; tr_outputs := outputs |}).

Definition decode_burn (payload : list Z) : result ProgramError AssetCall :=
  '(asset, reader) ← ok_or (dec_raw HASH_SIZE payload) InvalidPayload;
  '(inputs, reader) ← bounded_vec (dec_raw HASH_SIZE) reader MAX_ASSET_INPUTS TooManyInputs;
  '(amount, reader) ← ok_or (dec_uint 16 reader) InvalidPayload;
  '(output, reader) ← ok_or (dec_uint 16 reader) InvalidPayload;
  fail_if negb (bool_decide (reader = [])) with InvalidPayload;
  Ok (CallBurn {| bn_asset := asset; bn_inputs := inputs; bn_amount := amount;
    bn_output := output |}).

Definition validate_inputs (inputs : list Share) : result ProgramError unit :=
  fail_if bool_decide (inputs = []) with NoInputs;
  fail_if MAX_ASSET_INPUTS <? Z.of_nat (length inputs) with TooManyInputs;
  map_err (fun _ => PDuplicateInput) (ensure_unique_asset_inputs inputs).

(** The output loop of the transfer case: no zero amount, no overflow. *)
Fixpoint validate_outputs (total : Z) (outputs : list AssetOutput)
    : result ProgramError unit :=
  match outputs with
  | [] => Ok tt
  | output :: rest =>
      fail_if Unit.is_zero (ao_amount output) with PZeroAmount;
      total ← ok_or (Unit.checked_add total (ao_amount output)) AmountOverflow;
      validate_outputs total rest
  end.

Definition validate (call : AssetCall) : result ProgramError AssetCall :=
  _ ← match call with
      | CallRegister c =>
          _ ← map_err (fun _ => InvalidMetadata) (validate_asset_name (rg_name c));
          fail_if Unit.is_zero (rg_max_supply c) || Unit.is_zero (rg_initial_mint c)
            with PZeroAmount;
          fail_if rg_max_supply c <? rg_initial_mint c with AmountOverflow;
          Ok tt
      | CallMint c => fail_if Unit.is_zero (mt_amount c) with PZeroAmount; Ok tt
      | CallTransfer c =>
          _ ← validate_inputs (tr_inputs c);
          fail_if bool_decide (length (tr_outputs c) = 0%nat) with NoOutputs;
          fail_if MAX_ASSET_OUTPUTS <? Z.of_nat (length (tr_outputs c)) with TooManyOutputs;
          validate_outputs 0 (tr_outputs c)
      | CallBurn c =>
          _ ← validate_inputs (bn_inputs c);
          fail_if Unit.is_zero (bn_amount c) with PZeroAmount;
          Ok tt
      end;
  Ok call.

(** [try_from_slice] of a struct decoder. *)
Definition from_slice {A} (decoder : list Z -> option (A * list Z)) (bytes : list Z)
    : option A :=
  '(a, rest) ← decoder bytes;
  if decide (rest = []) then Some a else None.

Definition decode (opcode : Z) (payload : list Z) : result ProgramError AssetCall :=
  opcode ← opcode_try_from opcode;
  fail_if max_payload_size opcode <? Z.of_nat (length payload) with PayloadTooLarge;
  match opcode with
  | OpRegister => call ← ok_or (from_slice dec_register payload) InvalidPayload; validate call
  | OpMint => call ← ok_or (from_slice dec_mint payload) InvalidPayload; validate call
  | OpTransfer => call ← decode_transfer payload; validate call
  | OpBurn => call ← decode_burn payload; validate call
  end.

Definition call_opcode (call : AssetCall) : AssetOpcode :=
  match call with
  | CallRegister _ => OpRegister | CallMint _ => OpMint
  | CallTransfer _ => OpTransfer | CallBurn _ => OpBurn
  end.

(** ** Values the Rust types can hold *)

Definition owner_wf (o : Owner) : Prop := hash_wf (owner_program o).
Definition output_wf (o : AssetOutput) : Prop :=
  owner_wf (ao_recipient o) /\ fits 128 (ao_amount o).

Definition call_wf (call : AssetCall) : Prop :=
  match call with
  | CallRegister c =>
      bytes_wf (rg_name c) /\ utf8_valid (length (rg_name c)) (rg_name c) = true /\
      Z.of_nat (length (rg_name c)) < 2 ^ 32 /\
      fits 128 (rg_max_supply c) /\ fits 128 (rg_initial_mint c) /\
      owner_wf (rg_mint_authority c) /\ fits 64 (rg_nonce c)
  | CallMint c =>
      hash_wf (mt_asset c) /\ fits 64 (mt_nonce c) /\ owner_wf (mt_recipient c) /\
      fits 128 (mt_amount c)
  | CallTransfer c =>
      hash_wf (tr_asset c) /\ Forall hash_wf (tr_inputs c) /\ Forall output_wf (tr_outputs c)
  | CallBurn c =>
      hash_wf (bn_asset c) /\ Forall hash_wf (bn_inputs c) /\ fits 128 (bn_amount c) /\
      fits 128 (bn_output c)
  end.

Lemma has_duplicate_false seen ids :
  has_duplicate seen ids = false <-> NoDup ids /\ (forall id, id ∈ ids -> id ∉ seen).
Proof.
  revert seen. induction ids as [|id ids IH]; intros seen; simpl.
  - split; [|done]. intros _. split; [constructor|]. by intros id ?%elem_of_nil.
  - case_decide as Hin; [split; [done|]; intros [_ Hs]; by specialize (Hs id ltac:(by left))|].
    rewrite IH, NoDup_cons. set_solver.
Qed.

(** ** Round trip of asset calls *)

Lemma length_enc_owner o : owner_wf o -> length (enc_owner o) = 33%nat.
Proof. intros [Hlen _]. simpl. by rewrite Hlen. Qed.

Lemma dec_owner_enc o rest :
  owner_wf o -> dec_owner (enc_owner o ++ rest) = Some (o, rest).
Proof.
  intros [Hlen _]. unfold dec_owner, enc_owner.
  change ((0 :: owner_program o) ++ rest) with (le_bytes 1 0 ++ (owner_program o ++ rest)).
  rewrite dec_uint_enc by (simpl; lia). cbn [mbind option_bind].
  rewrite dec_raw_enc by done. by destruct o.
Qed.

Lemma dec_output_enc o rest :
  output_wf o -> dec_output (enc_output o ++ rest) = Some (o, rest).
Proof.
  intros [Ho Ha]. unfold dec_output, enc_output. rewrite <- app_assoc, dec_owner_enc by done.
  cbn [mbind option_bind]. rewrite dec_uint_enc by exact Ha. by destruct o.
Qed.

Lemma dec_string_enc s rest :
  utf8_valid (length s) s = true -> Z.of_nat (length s) < 2 ^ 32 ->
  dec_string (enc_string s ++ rest) = Some (s, rest).
Proof.
  intros Hutf Hlen. unfold dec_string, enc_string.
  rewrite <- app_assoc, dec_uint_enc by (simpl; lia). cbn [mbind option_bind].
  rewrite dec_raw_enc by (by rewrite Nat2Z.id). cbn [mbind option_bind]. by rewrite Hutf.
Qed.

Lemma dec_hash_enc h rest :
  hash_wf h -> dec_raw HASH_SIZE (id h ++ rest) = Some (h, rest).
Proof. intros [Hh _]. by apply dec_raw_enc. Qed.

Lemma bounded_vec_enc_ok {A} (enc_item : A -> list Z) dec_item (wf : A -> Prop)
    (Hitem : forall a rest, wf a -> dec_item (enc_item a ++ rest) = Some (a, rest))
    l max excess rest :
  Forall wf l -> Z.of_nat (length l) <= max < 2 ^ 32 ->
  bounded_vec dec_item (enc_vec enc_item l ++ rest) max excess = Ok (l, rest).
Proof.
  intros Hl Hmax. unfold bounded_vec, enc_vec.
  rewrite <- app_assoc, dec_uint_enc by (simpl; lia).
  cbn [ok_or mbind result_mbind]. unfold guard_err.
  replace (max <? Z.of_nat (length l)) with false by lia.
  rewrite Nat2Z.id. by erewrite dec_items_enc.
Qed.

Ltac dec_step :=
  first [ rewrite dec_raw_enc by first [done | by apply HASH_SIZE]
        | rewrite dec_uint_enc by (simpl; lia)
        | rewrite dec_owner_enc by done
        | rewrite dec_string_enc by done ];
  cbn [mbind option_bind result_mbind ok_or].

Lemma from_slice_register c :
  call_wf (CallRegister c) ->
  from_slice dec_register (enc_call (CallRegister c)) = Some (CallRegister c).
Proof.
  intros (Hb & Hutf & Hlen & Hm & Hi & Ho & Hn). unfold fits in *.
  unfold from_slice, dec_register. cbn [enc_call].
  rewrite <- (app_nil_r (le_bytes 8 (rg_nonce c))). repeat dec_step.
  by destruct c.
Qed.

Lemma from_slice_mint c :
  call_wf (CallMint c) ->
  from_slice dec_mint (enc_call (CallMint c)) = Some (CallMint c).
Proof.
  intros ([Ha _] & Hn & Ho & Hm). unfold fits in *.
  unfold from_slice, dec_mint. cbn [enc_call].
  rewrite <- (app_nil_r (le_bytes 16 (mt_amount c))). repeat dec_step.
  by destruct c.
Qed.

Lemma decode_transfer_enc c :
  call_wf (CallTransfer c) ->
  Z.of_nat (length (tr_inputs c)) <= MAX_ASSET_INPUTS ->
  Z.of_nat (length (tr_outputs c)) <= MAX_ASSET_OUTPUTS ->
  decode_transfer (enc_call (CallTransfer c)) = Ok (CallTransfer c).
Proof.
  intros ([Ha _] & Hi & Ho) Hli Hlo.
  assert (MAX_ASSET_INPUTS < 2 ^ 32 /\ MAX_ASSET_OUTPUTS < 2 ^ 32) as [? ?] by done.
  unfold decode_transfer. cbn [enc_call]. dec_step.
  rewrite (bounded_vec_enc_ok id (dec_raw HASH_SIZE) hash_wf dec_hash_enc) by done.
  cbn [mbind result_mbind]. rewrite <- (app_nil_r (enc_vec enc_output (tr_outputs c))).
  rewrite (bounded_vec_enc_ok enc_output dec_output output_wf dec_output_enc) by done.
  by destruct c.
Qed.

Lemma decode_burn_enc c :
  call_wf (CallBurn c) ->
  Z.of_nat (length (bn_inputs c)) <= MAX_ASSET_INPUTS ->
  decode_burn (enc_call (CallBurn c)) = Ok (CallBurn c).
Proof.
  intros ([Ha _] & Hi & Hm & Ho) Hli. unfold fits in *.
  assert (MAX_ASSET_INPUTS < 2 ^ 32) by done.
  unfold decode_burn. cbn [enc_call]. dec_step.
  rewrite (bounded_vec_enc_ok id (dec_raw HASH_SIZE) hash_wf dec_hash_enc) by done.
  cbn [mbind result_mbind]. rewrite <- (app_nil_r (le_bytes 16 (bn_output c))).
  repeat dec_step. by destruct c.
Qed.

Lemma length_concat_fixed {A} (f : A -> list Z) n l :
  Forall (fun a => length (f a) = n) l ->
  length (concat (f <$> l)) = (n * length l)%nat.
Proof.
  induction 1 as [|a l Ha Hl IH]; [simpl; lia|].
  cbn [fmap list_fmap concat length]. rewrite length_app, IH, Ha. lia.
Qed.

Lemma length_enc_vec {A} (f : A -> list Z) n l :
  Forall (fun a => length (f a) = n) l ->
  length (enc_vec f l) = (4 + n * length l)%nat.
Proof.
  intros Hl. unfold enc_vec. by rewrite length_app, length_le_bytes, (length_concat_fixed f n).
Qed.

Lemma length_enc_hashes l :
  Forall hash_wf l -> length (enc_vec id l) = (4 + 32 * length l)%nat.
Proof.
  intros Hl. apply (length_enc_vec id 32). eapply Forall_impl; [exact Hl|].
  by intros h [Hh _].
Qed.

Lemma length_enc_outputs l :
  Forall output_wf l -> length (enc_vec enc_output l) = (4 + 49 * length l)%nat.
Proof.
  intros Hl. apply (length_enc_vec enc_output 49). eapply Forall_impl; [exact Hl|].
  intros o [Ho _]. unfold enc_output.
  by rewrite length_app, length_enc_owner, length_le_bytes.
Qed.

Lemma validate_name_len name :
  validate_asset_name name = Ok () -> Z.of_nat (length name) <= ASSET_NAME_MAX_LEN.
Proof. unfold validate_asset_name. intros Hv. inv_ok. lia. Qed.

(** A call that validates is within the size limit of its opcode. *)
Lemma validate_payload_size call :
  call_wf call -> validate call = Ok call ->
  Z.of_nat (length (enc_call call)) <= max_payload_size (call_opcode call).
Proof.
  destruct call as [c|c|c|c]; intros Hwf Hv; unfold validate in Hv; cbn in Hwf.
  - destruct (validate_asset_name (rg_name c)) as [[]|] eqn:Hn; [|done].
    apply validate_name_len in Hn. unfold ASSET_NAME_MAX_LEN in Hn.
    cbn [enc_call call_opcode max_payload_size]. unfold enc_string.
    rewrite !length_app, !length_le_bytes, length_enc_owner by apply Hwf. lia.
  - cbn [enc_call call_opcode max_payload_size]. destruct Hwf as ([Ha _] & _ & Ho & _).
    rewrite !length_app, !length_le_bytes, length_enc_owner, Ha by done. unfold HASH_SIZE. lia.
  - destruct Hwf as ([Ha _] & Hi & Ho). cbn [enc_call call_opcode max_payload_size].
    rewrite 2!length_app, length_enc_hashes, length_enc_outputs, Ha by done.
    unfold validate_inputs, MAX_ASSET_INPUTS, MAX_ASSET_OUTPUTS in *. inv_ok.
    unfold HASH_SIZE. lia.
  - destruct Hwf as ([Ha _] & Hi & _). cbn [enc_call call_opcode max_payload_size].
    rewrite 3!length_app, !length_le_bytes, length_enc_hashes, Ha by done.
    unfold validate_inputs, MAX_ASSET_INPUTS in *. inv_ok. unfold HASH_SIZE. lia.
Qed.

Lemma validate_Ok call r : validate call = Ok r -> r = call.
Proof. unfold validate. intros Hv. inv_ok. done. Qed.

Lemma decode_enc_call call :
  call_wf call ->
  decode (opcode_u8 (call_opcode call)) (enc_call call) = Ok call <->
  validate call = Ok call.
Proof.
  intros Hwf. split.
  - intros Hd. unfold decode in Hd.
    destruct call as [c|c|c|c]; cbn [call_opcode opcode_u8] in Hd;
      cbn [opcode_try_from Z.eqb Pos.eqb mbind result_mbind] in Hd;
      inv_ok; match goal with H : validate ?a = Ok ?b |- _ =>
        pose proof (validate_Ok _ _ H); by subst end.
  - intros Hv. pose proof (validate_payload_size call Hwf Hv) as Hsize.
    unfold decode. destruct call as [c|c|c|c]; cbn [call_opcode opcode_u8];
      cbn [opcode_try_from Z.eqb Pos.eqb mbind result_mbind];
      unfold guard_err; rewrite (proj2 (Z.ltb_ge _ _)) by exact Hsize.
    + by rewrite from_slice_register.
    + by rewrite from_slice_mint.
    + rewrite decode_transfer_enc; [done|done|..];
        unfold validate, validate_inputs in Hv; inv_ok; lia.
    + rewrite decode_burn_enc; [done|done|..];
        unfold validate, validate_inputs in Hv; inv_ok; lia.
Qed.

(** Asset calls round trip through their wire format: for every call whose
    fields hold values of their Rust types, decoding its canonical encoding
    under its own opcode yields the call back exactly when the call validates;
    the payload size limits and the bounded vector counts never reject a valid
    call, and any decoded call satisfies the validation rules. *)
Theorem asset_call_round_trip call :
  call_wf call ->
  decode (opcode_u8 (call_opcode call)) (enc_call call) = Ok call <->
  validate call = Ok call.
Proof. apply decode_enc_call. Qed.

Lemma asset_call_round_trip_witness :
  let call := CallTransfer {| tr_asset := replicate 32 7; tr_inputs := [replicate 32 1; replicate 32 2];
    tr_outputs := [{| ao_recipient := Program (replicate 32 9); ao_amount := 5 |}] |} in
  decode 3 (enc_call call) = Ok call.
Proof.
  cbn zeta. apply (asset_call_round_trip (CallTransfer
    {| tr_asset := replicate 32 7; tr_inputs := [replicate 32 1; replicate 32 2];
       tr_outputs := [{| ao_recipient := Program (replicate 32 9); ao_amount := 5 |}] |})).
  - split_and!; repeat constructor; try (by apply digits_compute); vm_compute; try done; lia.
  - vm_compute. reflexivity.
Defined.

(** ** Deployments *)

Record DeployProgram := { dp_owner : ProgramId; dp_nonce : Z; dp_code : list Z }.
