(* ===== verification/Index.v ===== *)
(** * Derived owner indexes

    The kernel keeps, next to each canonical table, indexes from an owner to
    the set of keys it holds.  Every index is updated the same way: adding a
    key creates the owner's set on demand ([entry(o).or_default().insert(k)]),
    removing the last key drops the owner's entry.  This file gives the two
    updates, what it means for an index to be exact for a relation, and that
    an exact index is unique, so that an incrementally kept index equals the
    one rebuilt on decode.  It also gives the key-ordered view of a table
    keyed by 32-byte identifiers and its Borsh encoding as a [BTreeMap]. *)

From S2P Require Import Prelude Codec.
#[local] Open Scope Z_scope.

Section index.
Context `{Countable A, Countable K}.

Definition index_get (ix : gmap A (gset K)) (o : A) : gset K := default ∅ (ix !! o).

(** [ix.entry(o).or_default().insert(k, ())]. *)
Definition index_add (o : A) (k : K) (ix : gmap A (gset K)) : gmap A (gset K) :=
  <[o := {[k]} ∪ index_get ix o]> ix.

(** [if let Some(ids) = ix.get_mut(o) { ids.remove(k); if ids.is_empty() { ix.remove(o) } }]. *)
Definition index_remove (o : A) (k : K) (ix : gmap A (gset K)) : gmap A (gset K) :=
  match ix !! o with
  | Some ids =>
      let ids := ids ∖ {[k]} in
      if decide (ids = ∅) then delete o ix else <[o := ids]> ix
  | None => ix
  end.

(** The index holds exactly the pairs of [R], and no empty set. *)
Record index_exact (ix : gmap A (gset K)) (R : A -> K -> Prop) : Prop := {
  index_exact_elem o k : k ∈ index_get ix o <-> R o k;
  index_exact_nonempty o : ix !! o ≠ Some ∅;
}.

#[global] Instance index_exact_proper :
  Proper ((=) ==> pointwise_relation A (pointwise_relation K iff) ==> iff) index_exact.
Proof.
  intros ix ? <- R R' HR. split; intros [He Hn]; split; try done;
    intros o k; rewrite He; specialize (HR o k); tauto.
Qed.

Lemma index_exact_ext ix R R' :
  index_exact ix R -> (forall o k, R o k <-> R' o k) -> index_exact ix R'.
Proof. intros Hx HR. eapply index_exact_proper; [done| |exact Hx]. intros o k. by rewrite HR. Qed.

Lemma index_exact_empty : index_exact ∅ (fun _ _ => False).
Proof.
  split; [|intros o; by rewrite lookup_empty].
  intros o k. unfold index_get. rewrite lookup_empty. set_solver.
Qed.

Lemma index_exact_unique ix ix' R :
  index_exact ix R -> index_exact ix' R -> ix = ix'.
Proof.
  intros [He Hn] [He' Hn']. apply map_eq. intros o.
  assert (index_get ix o = index_get ix' o) as Heq.
  { apply set_eq. intros k. by rewrite He, He'. }
  unfold index_get in Heq. specialize (Hn o). specialize (Hn' o).
  destruct (ix !! o), (ix' !! o); simpl in *; congruence.
Qed.

Lemma index_get_add o k ix o' :
  index_get (index_add o k ix) o' =
    if decide (o' = o) then {[k]} ∪ index_get ix o else index_get ix o'.
Proof.
  unfold index_add. unfold index_get at 1. case_decide; subst.
  - by rewrite lookup_insert_eq.
  - by rewrite lookup_insert_ne by done.
Qed.

Lemma index_get_remove o k ix o' :
  index_get (index_remove o k ix) o' =
    if decide (o' = o) then index_get ix o ∖ {[k]} else index_get ix o'.
Proof.
  unfold index_remove, index_get. destruct (ix !! o) as [ids|] eqn:Ho; simpl.
  - repeat case_decide; subst; rewrite ?lookup_delete_eq, ?lookup_insert_eq,
      ?lookup_delete_ne, ?lookup_insert_ne by done; simpl; set_solver.
  - case_decide; subst; [|done]. rewrite Ho. simpl. set_solver.
Qed.

Lemma index_add_exact ix R o k :
  index_exact ix R ->
  index_exact (index_add o k ix) (fun o' k' => R o' k' \/ (o' = o /\ k' = k)).
Proof.
  intros [He Hn]. split.
  - intros o' k'. rewrite index_get_add. case_decide; subst;
      rewrite ?elem_of_union, ?elem_of_singleton, He; naive_solver.
  - intros o'. unfold index_add. destruct (decide (o' = o)) as [->|].
    + rewrite lookup_insert_eq. intros [=]. set_solver.
    + by rewrite lookup_insert_ne.
Qed.

Lemma index_remove_exact ix R o k :
  index_exact ix R ->
  index_exact (index_remove o k ix) (fun o' k' => R o' k' /\ ~ (o' = o /\ k' = k)).
Proof.
  intros [He Hn]. split.
  - intros o' k'. rewrite index_get_remove. case_decide; subst;
      rewrite ?elem_of_difference, ?elem_of_singleton, He; naive_solver.
  - intros o'. unfold index_remove. destruct (ix !! o) as [ids|] eqn:Ho; [|done].
    case_decide as Hids; destruct (decide (o' = o)) as [->|];
      rewrite ?lookup_delete_eq, ?lookup_insert_eq, ?lookup_delete_ne,
        ?lookup_insert_ne by done; try done. congruence.
Qed.

(** ** The index of a table by one attribute of its values *)

Context {V : Type} (attr : V -> A).

Definition held (m : gmap K V) (o : A) (k : K) : Prop :=
  exists v, m !! k = Some v /\ attr v = o.

(** The loop that rebuilds an index from the decoded table. *)
Definition index_rebuild (m : gmap K V) : gmap A (gset K) :=
  map_fold (fun k v ix => index_add (attr v) k ix) ∅ m.

Lemma index_add_held ix m k v :
  m !! k = None -> index_exact ix (held m) ->
  index_exact (index_add (attr v) k ix) (held (<[k := v]> m)).
Proof.
  intros Hk Hx. eapply index_exact_ext; [by apply index_add_exact|].
  intros o' k'. unfold held. destruct (decide (k' = k)) as [->|].
  - rewrite lookup_insert_eq, Hk. naive_solver.
  - rewrite lookup_insert_ne by done. naive_solver.
Qed.

Lemma index_remove_held ix m k v :
  m !! k = Some v -> index_exact ix (held m) ->
  index_exact (index_remove (attr v) k ix) (held (delete k m)).
Proof.
  intros Hk Hx. eapply index_exact_ext; [by apply index_remove_exact|].
  intros o' k'. unfold held. destruct (decide (k' = k)) as [->|].
  - rewrite lookup_delete_eq, Hk. naive_solver.
  - rewrite lookup_delete_ne by done. naive_solver.
Qed.

Lemma index_rebuild_exact m : index_exact (index_rebuild m) (held m).
Proof.
  unfold index_rebuild. apply (map_fold_weak_ind (fun ix m => index_exact ix (held m))).
  - eapply index_exact_ext; [apply index_exact_empty|]. intros o k. unfold held.
    setoid_rewrite lookup_empty. naive_solver.
  - intros k v m' ix Hk Hx. by apply index_add_held.
Qed.
End index.

(** ** Two-level indexes: owner, then asset, then share *)

Section index2.
Context `{Countable A, Countable B, Countable K}.

Definition index2_get (ix : gmap A (gmap B (gset K))) (a : A) : gmap B (gset K) :=
  default ∅ (ix !! a).

(** [ix.entry(a).or_default().entry(b).or_default().insert(k, ())]. *)
Definition index2_add (a : A) (b : B) (k : K) (ix : gmap A (gmap B (gset K)))
    : gmap A (gmap B (gset K)) :=
  <[a := index_add b k (index2_get ix a)]> ix.

(** Removing the last key of an inner set drops it, and the last inner set
    drops the outer entry. *)
Definition index2_remove (a : A) (b : B) (k : K) (ix : gmap A (gmap B (gset K)))
    : gmap A (gmap B (gset K)) :=
  match ix !! a with
  | Some inner =>
      let inner := index_remove b k inner in
      if decide (inner = ∅) then delete a ix else <[a := inner]> ix
  | None => ix
  end.

Record index2_exact (ix : gmap A (gmap B (gset K))) (R : A -> B -> K -> Prop) : Prop := {
  index2_exact_elem a : index_exact (index2_get ix a) (R a);
  index2_exact_nonempty a : ix !! a ≠ Some ∅;
}.

Lemma index2_exact_ext ix R R' :
  index2_exact ix R -> (forall a b k, R a b k <-> R' a b k) -> index2_exact ix R'.
Proof. intros [He Hn] HR. split; [|done]. intros a. eapply index_exact_ext; [apply He|apply HR]. Qed.

Lemma index2_exact_empty : index2_exact ∅ (fun _ _ _ => False).
Proof.
  split; [|intros a; by rewrite lookup_empty].
  intros a. unfold index2_get. rewrite lookup_empty. apply index_exact_empty.
Qed.

Lemma index2_exact_unique ix ix' R :
  index2_exact ix R -> index2_exact ix' R -> ix = ix'.
Proof.
  intros [He Hn] [He' Hn']. apply map_eq. intros a.
  pose proof (index_exact_unique _ _ _ (He a) (He' a)) as Heq.
  unfold index2_get in Heq. specialize (Hn a). specialize (Hn' a).
  destruct (ix !! a), (ix' !! a); simpl in *; congruence.
Qed.

Lemma index_add_nonempty b k (ix : gmap B (gset K)) : index_add b k ix ≠ ∅.
Proof. apply insert_non_empty. Qed.

Lemma index2_get_add a b k ix a' :
  index2_get (index2_add a b k ix) a' =
    if decide (a' = a) then index_add b k (index2_get ix a) else index2_get ix a'.
Proof.
  unfold index2_add. unfold index2_get at 1. case_decide; subst.
  - by rewrite lookup_insert_eq.
  - by rewrite lookup_insert_ne by done.
Qed.

Lemma index2_get_remove a b k ix a' :
  index2_get (index2_remove a b k ix) a' =
    if decide (a' = a) then index_remove b k (index2_get ix a) else index2_get ix a'.
Proof.
  unfold index2_remove, index2_get. destruct (ix !! a) as [inner|] eqn:Ha; simpl.
  - repeat case_decide; subst; rewrite ?lookup_delete_eq, ?lookup_insert_eq,
      ?lookup_delete_ne, ?lookup_insert_ne by done; simpl; congruence.
  - case_decide; subst; [|done]. rewrite Ha. done.
Qed.

Lemma index2_add_exact ix R a b k :
  index2_exact ix R ->
  index2_exact (index2_add a b k ix)
    (fun a' b' k' => R a' b' k' \/ (a' = a /\ b' = b /\ k' = k)).
Proof.
  intros [He Hn]. split.
  - intros a'. rewrite index2_get_add. case_decide; subst.
    + eapply index_exact_ext; [apply index_add_exact, He|]. naive_solver.
    + eapply index_exact_ext; [apply He|]. naive_solver.
  - intros a'. unfold index2_add. destruct (decide (a' = a)) as [->|].
    + rewrite lookup_insert_eq. intros [= Hx]. by apply index_add_nonempty in Hx.
    + by rewrite lookup_insert_ne.
Qed.

Lemma index2_remove_exact ix R a b k :
  index2_exact ix R ->
  index2_exact (index2_remove a b k ix)
    (fun a' b' k' => R a' b' k' /\ ~ (a' = a /\ b' = b /\ k' = k)).
Proof.
  intros [He Hn]. split.
  - intros a'. rewrite index2_get_remove. case_decide; subst.
    + eapply index_exact_ext; [apply index_remove_exact, He|]. naive_solver.
    + eapply index_exact_ext; [apply He|]. naive_solver.
  - intros a'. unfold index2_remove. destruct (ix !! a) as [inner|] eqn:Ha; [|done].
    case_decide as Hi; destruct (decide (a' = a)) as [->|];
      rewrite ?lookup_delete_eq, ?lookup_insert_eq, ?lookup_delete_ne,
        ?lookup_insert_ne by done; try done. congruence.
Qed.
End index2.

(** ** Identifiers in key order *)

(** A [StateMap] iterates in key order: the byte order of the identifiers. *)
Definition sorted_ids (ids : gset (list Z)) : list (list Z) :=
  merge_sort (fun a b => Is_true (lex_leb a b)) (elements ids).

Lemma lex_leb_total a b : Is_true (lex_leb a b) \/ Is_true (lex_leb b a).
Proof.
  unfold lex_leb. rewrite (lex_compare_antisym a b).
  destruct (lex_compare a b); simpl; auto.
Qed.

#[global] Instance lex_leb_Total : Total (fun a b => Is_true (lex_leb a b)).
Proof. intros a b. apply lex_leb_total. Qed.

Lemma lex_leb_transitive a b c :
  Is_true (lex_leb a b) -> Is_true (lex_leb b c) -> Is_true (lex_leb a c).
Proof.
  unfold lex_leb.
  destruct (lex_compare a b) eqn:Hab, (lex_compare b c) eqn:Hbc; simpl; try done.
  - apply lex_compare_Eq in Hab as ->. by rewrite Hbc.
  - apply lex_compare_Eq in Hab as ->. by rewrite Hbc.
  - apply lex_compare_Eq in Hbc as ->. by rewrite Hab.
  - by rewrite (lex_compare_lt_trans a b c).
Qed.

#[global] Instance lex_leb_Transitive : Transitive (fun a b => Is_true (lex_leb a b)).
Proof. intros a b c. apply lex_leb_transitive. Qed.

Lemma elem_of_sorted_ids ids k : k ∈ sorted_ids ids <-> k ∈ ids.
Proof. unfold sorted_ids. by rewrite merge_sort_Permutation, elem_of_elements. Qed.

Lemma length_sorted_ids ids : length (sorted_ids ids) = size ids.
Proof. unfold sorted_ids. by rewrite merge_sort_Permutation. Qed.

Lemma NoDup_sorted_ids ids : NoDup (sorted_ids ids).
Proof. unfold sorted_ids. rewrite merge_sort_Permutation. apply NoDup_elements. Qed.

Lemma Sorted_sorted_ids ids :
  StronglySorted (fun a b => Is_true (lex_leb a b)) (sorted_ids ids).
Proof. apply StronglySorted_merge_sort; apply _. Qed.

Lemma lex_leb_antisym a b : Is_true (lex_leb a b) -> Is_true (lex_leb b a) -> a = b.
Proof.
  unfold lex_leb. rewrite (lex_compare_antisym a b). destruct (lex_compare a b) eqn:Hc; simpl; try done.
  by apply lex_compare_Eq in Hc.
Qed.

#[global] Instance lex_leb_AntiSymm : AntiSymm (=) (fun a b => Is_true (lex_leb a b)).
Proof. intros a b. apply lex_leb_antisym. Qed.

Lemma sorted_ids_pair a b : lex_compare a b = Lt -> sorted_ids ({[a]} ∪ {[b]}) = [a; b].
Proof.
  intros Hlt. assert (a <> b) as Hne.
  { intros ->. rewrite (proj2 (lex_compare_Eq b b)) in Hlt by done. done. }
  apply (StronglySorted_unique (fun a b => Is_true (lex_leb a b))); [apply Sorted_sorted_ids| |].
  - repeat constructor. unfold lex_leb. by rewrite Hlt.
  - apply NoDup_Permutation; [apply NoDup_sorted_ids| |].
    + repeat constructor; set_solver.
    + intros k. rewrite elem_of_sorted_ids. set_solver.
Qed.

(** ** Tables in key order and their Borsh encoding *)

Section table.
Context {V : Type} (enc_value : V -> list Z) (dec_value : list Z -> option (V * list Z)).

(** [StateMap::iter]. *)
Definition sorted_entries (m : gmap (list Z) V) : list (list Z * V) :=
  omap (fun k => v ← m !! k; Some (k, v)) (sorted_ids (dom m)).

Definition enc_entry (kv : list Z * V) : list Z := kv.1 ++ enc_value kv.2.

Definition dec_entry (bytes : list Z) : option ((list Z * V) * list Z) :=
  '(k, bytes) ← dec_raw HASH_SIZE bytes;
  '(v, bytes) ← dec_value bytes;
  Some ((k, v), bytes).

(** A map is its entries in key order behind a [u32] count. *)
Definition enc_map (m : gmap (list Z) V) : list Z := enc_vec enc_entry (sorted_entries m).

(** [BTreeMap::deserialize_reader]: collecting keeps the last of equal keys. *)
Definition dec_map (bytes : list Z) : option (gmap (list Z) V * list Z) :=
  '(entries, bytes) ← dec_vec dec_entry bytes;
  Some (list_to_map (rev entries), bytes).

Lemma elem_of_sorted_entries m k v : (k, v) ∈ sorted_entries m <-> m !! k = Some v.
Proof.
  unfold sorted_entries. rewrite list_elem_of_omap. split.
  - intros (k' & _ & Hk). destruct (m !! k') eqn:Hm; simplify_eq/=; done.
  - intros Hk. exists k. rewrite elem_of_sorted_ids, elem_of_dom, Hk. by split; [eexists|].
Qed.

Lemma sorted_entries_keys m : (sorted_entries m).*1 = sorted_ids (dom m).
Proof.
  unfold sorted_entries.
  assert (forall k, k ∈ sorted_ids (dom m) -> is_Some (m !! k)) as Hd.
  { intros k. by rewrite elem_of_sorted_ids, elem_of_dom. }
  induction (sorted_ids (dom m)) as [|k l IH]; [done|]. cbn [omap list_omap].
  destruct (Hd k) as [v Hv]; [by left|]. rewrite Hv. simpl. f_equal.
  apply IH. intros. apply Hd. by right.
Qed.

Lemma sorted_entries_permutation m : sorted_entries m ≡ₚ map_to_list m.
Proof.
  apply NoDup_Permutation.
  - apply (NoDup_fmap_1 fst). rewrite sorted_entries_keys. apply NoDup_sorted_ids.
  - apply NoDup_map_to_list.
  - intros [k v]. by rewrite elem_of_sorted_entries, elem_of_map_to_list.
Qed.

Lemma sorted_entries_length m : length (sorted_entries m) = size m.
Proof. by rewrite sorted_entries_permutation, length_map_to_list. Qed.

Lemma list_to_map_sorted_entries m : list_to_map (rev (sorted_entries m)) = m.
Proof.
  rewrite (list_to_map_proper _ (map_to_list m)).
  - apply list_to_map_to_list.
  - rewrite (Permutation_map fst (Permutation_sym (Permutation_rev _))). fold (fmap (M:=list) (@fst (list Z) V) (sorted_entries m)). rewrite sorted_entries_keys. apply NoDup_sorted_ids.
  - by rewrite <- Permutation_rev, sorted_entries_permutation.
Qed.

Context (wf : V -> Prop)
  (Hvalue : forall v rest, wf v -> dec_value (enc_value v ++ rest) = Some (v, rest)).

Lemma dec_map_enc m rest :
  map_Forall (fun k v => length k = HASH_SIZE /\ wf v) m -> Z.of_nat (size m) < 2 ^ 32 ->
  dec_map (enc_map m ++ rest) = Some (m, rest).
Proof.
  intros Hm Hlen. unfold dec_map, enc_map.
  rewrite (dec_vec_enc _ _ (fun kv => length kv.1 = HASH_SIZE /\ wf kv.2)).
  - cbn [mbind option_bind]. by rewrite list_to_map_sorted_entries.
  - intros [k v] rest' [Hk Hv]. unfold dec_entry, enc_entry. simpl in *.
    rewrite <- app_assoc, dec_raw_enc by done. cbn [mbind option_bind].
    by rewrite Hvalue.
  - apply Forall_forall. intros [k v] Hkv%elem_of_sorted_entries. by apply (Hm k v).
  - by rewrite sorted_entries_length.
Qed.

(** Entries of one width: the encoded size follows from the count. *)
Lemma enc_map_length m w :
  map_Forall (fun k v => length k = HASH_SIZE /\ length (enc_value v) = w) m ->
  length (enc_map m) = (4 + size m * (HASH_SIZE + w))%nat.
Proof.
  intros Hm. unfold enc_map, enc_vec. rewrite length_app, length_le_bytes.
  rewrite <- sorted_entries_length. f_equal.
  assert (Forall (fun kv => length (enc_entry kv) = (HASH_SIZE + w)%nat) (sorted_entries m)) as Hl.
  { apply Forall_forall. intros [k v] Hkv%elem_of_sorted_entries.
    destruct (Hm k v Hkv) as [Hk Hv]. unfold enc_entry. cbn [fst snd]. rewrite length_app, Hk, Hv. done. }
  induction Hl as [|kv l Hkv Hl IH]; [done|]. cbn [fmap list_fmap concat length].
  rewrite length_app, IH, Hkv. lia.
Qed.
End table.

Lemma map_sum_entries {V} (f : list Z -> V -> Z) (m : gmap (list Z) V) :
  map_sum f m = zsum ((fun e => f e.1 e.2) <$> sorted_entries m).
Proof.
  rewrite (zsum_permutation _ ((fun e => f e.1 e.2) <$> map_to_list m)).
  - unfold map_sum. rewrite map_fold_foldr. unfold zsum.
    induction (map_to_list m) as [|[k s] l IH]; [done|]. simpl. by rewrite IH.
  - by rewrite sorted_entries_permutation.
Qed.
