(* ===== verification/StateMap.v ===== *)
(** * Persistent ordered maps

    Models [kernel/src/state_map.rs]: the AVL tree behind every state table.
    Structural sharing makes a write a pure function of the tree, so the tree
    is an immutable value here.  Rust's [expect] and [unwrap] are partial
    functions: [None] is a panic.  The theorems say that no operation panics on
    a balanced tree, that every operation keeps the tree balanced and ordered,
    that the tree implements a finite map, and that its iterators produce the
    entries in key order. *)

From S2P Require Import Prelude Codec Index.
#[local] Open Scope Z_scope.

(** Rust's [Ord] on keys. *)
Class Ord (K : Type) := cmp : K -> K -> comparison.

Class OrdSpec (K : Type) `{Ord K} := {
  cmp_eq x y : cmp x y = Eq <-> x = y;
  cmp_antisym x y : cmp y x = CompOpp (cmp x y);
  cmp_trans x y z : cmp x y = Lt -> cmp y z = Lt -> cmp x z = Lt;
}.

#[global] Instance bytes_ord : Ord (list Z) := lex_compare.
#[global] Instance bytes_ord_spec : OrdSpec (list Z).
Proof.
  split; [apply lex_compare_Eq|apply lex_compare_antisym|apply lex_compare_lt_trans].
Qed.

Inductive tree (K V : Type) : Type :=
| Leaf
| Node (key : K) (value : V) (l r : tree K V) (h : Z) (n : Z).
Arguments Leaf {K V}.
Arguments Node {K V} key value l r h n.

Module StateMap.
Section operations.
Context {K V : Type} `{Ord K}.

Definition height (link : tree K V) : Z :=
  match link with Leaf => 0 | Node _ _ _ _ h _ => h end.

Definition len (link : tree K V) : Z :=
  match link with Leaf => 0 | Node _ _ _ _ _ n => n end.

(** [Node::refresh]: the cached height and size recomputed from the children. *)
Definition refresh (key : K) (value : V) (l r : tree K V) : tree K V :=
  Node key value l r (1 + Z.max (height l) (height r)) (1 + len l + len r).

Definition is_empty (self : tree K V) : bool :=
  match self with Leaf => true | Node _ _ _ _ _ _ => false end.

Fixpoint get (self : tree K V) (key : K) : option V :=
  match self with
  | Leaf => None
  | Node k v l r _ _ =>
      match cmp key k with
      | Lt => get l key
      | Gt => get r key
      | Eq => Some v
      end
  end.

Definition contains_key (self : tree K V) (key : K) : bool :=
  match get self key with Some _ => true | None => false end.

Definition rotate_left (root : tree K V) : option (tree K V) :=
  match root with
  | Node k v l (Node k' v' middle r _ _) _ _ =>
      Some (refresh k' v' (refresh k v l middle) r)
  | _ => None
  end.

Definition rotate_right (root : tree K V) : option (tree K V) :=
  match root with
  | Node k v (Node k' v' l middle _ _) r _ _ =>
      Some (refresh k' v' l (refresh k v middle r))
  | _ => None
  end.

(** Called on a node whose children may differ in height by two. *)
Definition rebalance (key : K) (value : V) (l r : tree K V) : option (tree K V) :=
  let balance := height l - height r in
  if 1 <? balance then
    match l with
    | Node _ _ ll lr _ _ =>
        l ← (if height ll <? height lr then rotate_left l else Some l);
        rotate_right (refresh key value l r)
    | Leaf => None
    end
  else if balance <? -1 then
    match r with
    | Node _ _ rl rr _ _ =>
        r ← (if height rr <? height rl then rotate_right r else Some r);
        rotate_left (refresh key value l r)
    | Leaf => None
    end
  else Some (refresh key value l r).

Fixpoint insert (link : tree K V) (key : K) (value : V) : option (tree K V * option V) :=
  match link with
  | Leaf => Some (Node key value Leaf Leaf 1 1, None)
  | Node k v l r _ _ =>
      match cmp key k with
      | Lt =>
          '(l, previous) ← insert l key value;
          root ← rebalance k v l r;
          Some (root, previous)
      | Gt =>
          '(r, previous) ← insert r key value;
          root ← rebalance k v l r;
          Some (root, previous)
      | Eq =>
          root ← rebalance k value l r;
          Some (root, Some v)
      end
  end.

Fixpoint pop_min (root : tree K V) : option (tree K V * K * V) :=
  match root with
  | Leaf => None
  | Node k v Leaf r _ _ => Some (r, k, v)
  | Node k v l r _ _ =>
      '(l, key, value) ← pop_min l;
      root ← rebalance k v l r;
      Some (root, key, value)
  end.

(** The recursive removal; the caller has checked that the key is present. *)
Fixpoint remove_node (root : tree K V) (key : K) : option (tree K V * V) :=
  match root with
  | Leaf => None
  | Node k v l r _ _ =>
      match cmp key k with
      | Lt =>
          '(l, previous) ← remove_node l key;
          root ← rebalance k v l r;
          Some (root, previous)
      | Gt =>
          '(r, previous) ← remove_node r key;
          root ← rebalance k v l r;
          Some (root, previous)
      | Eq =>
          match l, r with
          | Leaf, _ => Some (r, v)
          | _, Leaf => Some (l, v)
          | _, _ =>
              '(r, key, value) ← pop_min r;
              root ← rebalance key value l r;
              Some (root, v)
          end
      end
  end.

(** A missing key leaves the tree alone; the outer option is the panic. *)
Definition remove (self : tree K V) (key : K) : option (tree K V * option V) :=
  match get self key with
  | None => Some (self, None)
  | Some _ => '(root, previous) ← remove_node self key; Some (root, Some previous)
  end.

(** Writing through [get_mut]; the tree shape does not change. *)
Fixpoint update (self : tree K V) (key : K) (f : V -> V) : tree K V :=
  match self with
  | Leaf => Leaf
  | Node k v l r h n =>
      match cmp key k with
      | Lt => Node k v (update l key f) r h n
      | Gt => Node k v l (update r key f) h n
      | Eq => Node k (f v) l r h n
      end
  end.

(** [entry(key).or_default()] followed by a write through the reference. *)
Definition entry_or_default (self : tree K V) (key : K) (dflt : V) (f : V -> V)
    : option (tree K V) :=
  self ← (if contains_key self key then Some self
          else '(self, _) ← insert self key dflt; Some self);
  Some (update self key f).

(** ** Iterators: an explicit stack of nodes whose entry and right subtree are
    still to come. *)

Definition frame : Type := K * V * tree K V.

Fixpoint push_left (node : tree K V) (stack : list frame) : list frame :=
  match node with
  | Leaf => stack
  | Node k v l r _ _ => push_left l ((k, v, r) :: stack)
  end.

Definition iter (self : tree K V) : list frame := push_left self [].

Definition next (stack : list frame) : option ((K * V) * list frame) :=
  match stack with
  | [] => None
  | (k, v, r) :: stack => Some ((k, v), push_left r stack)
  end.

(** The stack from which iteration starts at the first key not below [bound]. *)
Fixpoint seek (node : tree K V) (bound : K) (stack : list frame) : list frame :=
  match node with
  | Leaf => stack
  | Node k v l r _ _ =>
      match cmp k bound with
      | Lt => seek r bound stack
      | _ => seek l bound ((k, v, r) :: stack)
      end
  end.

Definition iter_from (self : tree K V) (bound : K) : list frame := seek self bound [].

(** Calling [next] [fuel] times. *)
Fixpoint drain (fuel : nat) (stack : list frame) : list (K * V) :=
  match fuel with
  | O => []
  | S fuel =>
      match next stack with
      | None => []
      | Some (kv, stack) => kv :: drain fuel stack
      end
  end.

(** [From<BTreeMap>]: a perfectly balanced tree from sorted items. *)
Fixpoint build (fuel : nat) (items : list (K * V)) (n : nat)
    : option (tree K V * list (K * V)) :=
  match fuel, n with
  | _, O => Some (Leaf, items)
  | O, _ => None
  | S fuel, _ =>
      '(l, items) ← build fuel items (n / 2)%nat;
      match items with
      | [] => None
      | (key, value) :: items =>
          '(r, items) ← build fuel items (n - n / 2 - 1)%nat;
          Some (refresh key value l r, items)
      end
  end.

Definition from_sorted (items : list (K * V)) : option (tree K V) :=
  '(root, _) ← build (length items) items (length items); Some root.
End operations.
End StateMap.

(** ** Balance and order *)

Section facts.
Context {K V : Type} `{Ord K, !OrdSpec K, Countable K}.
Import StateMap.

Fixpoint to_list (t : tree K V) : list (K * V) :=
  match t with
  | Leaf => []
  | Node k v l r _ _ => to_list l ++ (k, v) :: to_list r
  end.

(** Cached heights and sizes are right and siblings differ by at most one. *)
Fixpoint avl (t : tree K V) : Prop :=
  match t with
  | Leaf => True
  | Node _ _ l r h n =>
      avl l /\ avl r /\ Z.abs (height l - height r) <= 1 /\
      h = 1 + Z.max (height l) (height r) /\ n = 1 + len l + len r
  end.

Definition key_lt (a b : K * V) : Prop := cmp a.1 b.1 = Lt.

Definition ordered (l : list (K * V)) : Prop := StronglySorted key_lt l.

Definition tree_ok (t : tree K V) : Prop := avl t /\ ordered (to_list t).

(** The finite map a tree stands for. *)
Definition tree_map (t : tree K V) : gmap K V := list_to_map (to_list t).

Lemma cmp_refl (k : K) : cmp k k = Eq.
Proof. by apply cmp_eq. Qed.

Lemma cmp_gt_lt (x y : K) : cmp x y = Gt <-> cmp y x = Lt.
Proof. rewrite (cmp_antisym y x). destruct (cmp y x); simpl; naive_solver. Qed.

Lemma height_nonneg t : avl t -> 0 <= height t.
Proof.
  induction t as [|k v l IHl r IHr h n]; simpl; [lia|].
  intros (Hl & Hr & _ & -> & _). specialize (IHl Hl). specialize (IHr Hr). lia.
Qed.

Lemma height_zero t : avl t -> height t = 0 -> t = Leaf.
Proof.
  destruct t as [|k v l r h n]; simpl; [done|]. intros (Hl & Hr & _ & -> & _).
  apply height_nonneg in Hl, Hr. lia.
Qed.

Lemma len_to_list t : avl t -> len t = Z.of_nat (length (to_list t)).
Proof.
  induction t as [|k v l IHl r IHr h n]; simpl; [done|].
  intros (Hl & Hr & _ & _ & ->). rewrite length_app. simpl. rewrite IHl, IHr by done. lia.
Qed.

Lemma refresh_avl k v l r :
  avl l -> avl r -> Z.abs (height l - height r) <= 1 -> avl (refresh k v l r).
Proof. simpl. intros. by split_and!. Qed.

(** A height grows at most logarithmically with the size. *)
Lemma avl_size_bound t : avl t -> 2 ^ (height t / 2) <= len t + 1.
Proof.
  induction t as [|k v l IHl r IHr h n]; simpl; [done|].
  intros (Hl & Hr & Hd & -> & ->). specialize (IHl Hl). specialize (IHr Hr).
  pose proof (height_nonneg l Hl). pose proof (height_nonneg r Hr).
  remember (1 + Z.max (height l) (height r)) as m eqn:Hmax.
  assert (2 ^ (m / 2 - 1) <= 2 ^ (height l / 2)) by (apply Z.pow_le_mono_r; [lia|]; Z.div_mod_to_equations; lia).
  assert (2 ^ (m / 2 - 1) <= 2 ^ (height r / 2)) by (apply Z.pow_le_mono_r; [lia|]; Z.div_mod_to_equations; lia).
  destruct (Z.le_gt_cases 1 (m / 2)) as [Hm|Hm].
  - replace (m / 2) with (Z.succ (m / 2 - 1)) by lia. rewrite Z.pow_succ_r by lia. lia.
  - assert (m / 2 = 0) as -> by (Z.div_mod_to_equations; lia).
    rewrite (len_to_list l), (len_to_list r) by done. lia.
Qed.

(** ** Sorted lists around a middle entry *)

Lemma ordered_mid l1 x l2 :
  ordered (l1 ++ x :: l2) <->
  ordered l1 /\ ordered l2 /\ Forall (fun y => key_lt y x) l1 /\ Forall (key_lt x) l2.
Proof.
  unfold ordered. induction l1 as [|y l1 IH]; simpl.
  - split.
    + intros [? ?]%StronglySorted_inv. split_and!; try done; constructor.
    + intros (_ & Hs & _ & Hf). by constructor.
  - split.
    + intros [Hs Hf]%StronglySorted_inv. apply IH in Hs as (Hs1 & Hs2 & Hf1 & Hf2).
      apply Forall_app in Hf as [Hfa Hfb]. apply Forall_cons in Hfb as [Hyx _].
      split_and!; try done; by constructor.
    + intros (Hs1 & Hs2 & Hf1 & Hf2). apply StronglySorted_inv in Hs1 as [Hs1 Hy].
      apply Forall_cons in Hf1 as [Hyx Hf1]. constructor; [by apply IH|].
      apply Forall_app. split; [done|]. constructor; [done|].
      eapply Forall_impl; [exact Hf2|]. intros z Hxz. unfold key_lt in *. by eapply cmp_trans.
Qed.

Lemma ordered_NoDup l : ordered l -> NoDup l.*1.
Proof.
  induction 1 as [|[k v] l Hs IH Hf]; [constructor|]. rewrite fmap_cons. constructor; [|done].
  intros ([k' v'] & Hk & Hin)%list_elem_of_fmap. simpl in Hk. subst k'.
  rewrite Forall_forall in Hf. specialize (Hf _ Hin). unfold key_lt in Hf. simpl in Hf.
  by rewrite cmp_refl in Hf.
Qed.

Lemma lookup_below (l : list (K * V)) k :
  Forall (fun y => cmp k y.1 = Lt) l -> (list_to_map l : gmap K V) !! k = None.
Proof.
  intros Hf. apply not_elem_of_list_to_map_1.
  intros ([k' v'] & Hk & Hin)%list_elem_of_fmap. simpl in Hk. subst k'.
  rewrite Forall_forall in Hf. specialize (Hf _ Hin). simpl in Hf. by rewrite cmp_refl in Hf.
Qed.

Lemma lookup_above (l : list (K * V)) k :
  Forall (fun y => cmp y.1 k = Lt) l -> (list_to_map l : gmap K V) !! k = None.
Proof.
  intros Hf. apply not_elem_of_list_to_map_1.
  intros ([k' v'] & Hk & Hin)%list_elem_of_fmap. simpl in Hk. subst k'.
  rewrite Forall_forall in Hf. specialize (Hf _ Hin). simpl in Hf. by rewrite cmp_refl in Hf.
Qed.

(** Looking a key up goes to one side of the middle entry. *)
Lemma lookup_mid l1 k v l2 k' :
  ordered (l1 ++ (k, v) :: l2) ->
  (list_to_map (l1 ++ (k, v) :: l2) : gmap K V) !! k' =
    match cmp k' k with
    | Lt => (list_to_map l1 : gmap K V) !! k'
    | Eq => Some v
    | Gt => (list_to_map l2 : gmap K V) !! k'
    end.
Proof.
  intros (_ & _ & Hf1 & Hf2)%ordered_mid. rewrite list_to_map_app. simpl.
  destruct (cmp k' k) eqn:Hc.
  - apply cmp_eq in Hc as ->. rewrite lookup_union_r; [by rewrite lookup_insert_eq|].
    by apply lookup_above.
  - assert (k ≠ k') by (intros ->; by rewrite cmp_refl in Hc).
    rewrite lookup_union_l; [done|]. rewrite lookup_insert_ne by done. apply lookup_below.
    eapply Forall_impl; [exact Hf2|]. intros y Hy. unfold key_lt in Hy. by eapply cmp_trans.
  - assert (k ≠ k') by (intros ->; by rewrite cmp_refl in Hc).
    rewrite lookup_union_r.
    + by rewrite lookup_insert_ne.
    + apply lookup_above. apply cmp_gt_lt in Hc. eapply Forall_impl; [exact Hf1|].
      intros y Hy. unfold key_lt in Hy. by eapply cmp_trans.
Qed.

Lemma elem_of_tree_map l k v :
  ordered l -> (k, v) ∈ l <-> (list_to_map l : gmap K V) !! k = Some v.
Proof.
  intros Hl%ordered_NoDup. by apply elem_of_list_to_map.
Qed.

Lemma get_spec t k : ordered (to_list t) -> get t k = tree_map t !! k.
Proof.
  unfold tree_map. induction t as [|k' v' l IHl r IHr h n]; intros Ho; [done|].
  cbn [to_list get] in *. rewrite lookup_mid by done.
  apply ordered_mid in Ho as (Hl & Hr & _ & _).
  destruct (cmp k k'); [done|by apply IHl|by apply IHr].
Qed.

(** ** Rebalancing *)

Ltac app_norm := repeat (rewrite <- app_assoc; simpl).

(** Rebalancing children at most two apart never panics, restores balance and
    keeps the entries in order. *)
Lemma rebalance_spec k v l r :
  avl l -> avl r -> Z.abs (height l - height r) <= 2 ->
  exists t, rebalance k v l r = Some t /\ avl t /\
    to_list t = to_list l ++ (k, v) :: to_list r /\
    Z.max (height l) (height r) <= height t <= 1 + Z.max (height l) (height r) /\
    (Z.abs (height l - height r) <= 1 -> height t = 1 + Z.max (height l) (height r)).
Proof.
  intros Hl Hr Hd. pose proof (height_nonneg l Hl). pose proof (height_nonneg r Hr).
  unfold rebalance. destruct (Z.ltb_spec 1 (height l - height r)) as [Hb1|Hb1].
  - destruct l as [|kl vl ll lr hl nl]; [simpl in *; lia|]. cbn [avl] in Hl.
    destruct Hl as (Hll & Hlr & Hdl & -> & ->). cbn [height] in *.
    pose proof (height_nonneg ll Hll). pose proof (height_nonneg lr Hlr).
    destruct (Z.ltb_spec (height ll) (height lr)) as [Hb2|Hb2].
    + destruct lr as [|km vm lm rm hm nm]; [simpl in *; lia|]. cbn [avl] in Hlr.
      destruct Hlr as (Hlm & Hrm & Hdm & -> & ->). cbn [height] in *.
      pose proof (height_nonneg lm Hlm). pose proof (height_nonneg rm Hrm).
      eexists. split; [reflexivity|]. cbn. split_and!; try done; try lia.
      by app_norm.
    + eexists. split; [reflexivity|]. cbn. split_and!; try done; try lia.
      by app_norm.
  - destruct (Z.ltb_spec (height l - height r) (-1)) as [Hb2|Hb2].
    + destruct r as [|kr vr rl rr hr nr]; [simpl in *; lia|]. cbn [avl] in Hr.
      destruct Hr as (Hrl & Hrr & Hdr & -> & ->). cbn [height] in *.
      pose proof (height_nonneg rl Hrl). pose proof (height_nonneg rr Hrr).
      destruct (Z.ltb_spec (height rr) (height rl)) as [Hb3|Hb3].
      * destruct rl as [|km vm lm rm hm nm]; [simpl in *; lia|]. cbn [avl] in Hrl.
        destruct Hrl as (Hlm & Hrm & Hdm & -> & ->). cbn [height] in *.
        pose proof (height_nonneg lm Hlm). pose proof (height_nonneg rm Hrm).
        eexists. split; [reflexivity|]. cbn. split_and!; try done; try lia.
        by app_norm.
      * eexists. split; [reflexivity|]. cbn. split_and!; try done; try lia.
        by app_norm.
    + eexists. split; [reflexivity|]. split; [apply refresh_avl; [done|done|lia]|].
      cbn. split_and!; try done; lia.
Qed.

(** ** Replacing one side of a node *)

(** Equality of maps is checked key by key on the side the key belongs to. *)
Lemma insert_l_map l l' k v r k' v' :
  ordered (l ++ (k, v) :: r) -> ordered (l' ++ (k, v) :: r) -> cmp k' k = Lt ->
  (list_to_map l' : gmap K V) = <[k' := v']> (list_to_map l) ->
  (list_to_map (l' ++ (k, v) :: r) : gmap K V) = <[k' := v']> (list_to_map (l ++ (k, v) :: r)).
Proof.
  intros Ho Ho' Hlt Hl. apply map_eq. intros i. rewrite (lookup_mid l' k v r i Ho').
  destruct (decide (i = k')) as [->|Hne].
  - by rewrite Hlt, Hl, !lookup_insert_eq.
  - rewrite lookup_insert_ne by done. rewrite (lookup_mid l k v r i Ho).
    destruct (cmp i k); [done| |done]. by rewrite Hl, lookup_insert_ne.
Qed.

Lemma insert_r_map l k v r r' k' v' :
  ordered (l ++ (k, v) :: r) -> ordered (l ++ (k, v) :: r') -> cmp k' k = Gt ->
  (list_to_map r' : gmap K V) = <[k' := v']> (list_to_map r) ->
  (list_to_map (l ++ (k, v) :: r') : gmap K V) = <[k' := v']> (list_to_map (l ++ (k, v) :: r)).
Proof.
  intros Ho Ho' Hlt Hl. apply map_eq. intros i. rewrite (lookup_mid l k v r' i Ho').
  destruct (decide (i = k')) as [->|Hne].
  - by rewrite Hlt, Hl, !lookup_insert_eq.
  - rewrite lookup_insert_ne by done. rewrite (lookup_mid l k v r i Ho).
    destruct (cmp i k); [done|done|]. by rewrite Hl, lookup_insert_ne.
Qed.

(** Entries after an insertion are old ones or the new one. *)
Lemma insert_elements l l' k v (P : K * V -> Prop) :
  ordered l -> ordered l' -> (list_to_map l' : gmap K V) = <[k := v]> (list_to_map l) ->
  Forall P l -> P (k, v) -> Forall P l'.
Proof.
  intros Ho Ho' Hm Hl Hk. rewrite Forall_forall in *. intros [i x] Hi.
  apply elem_of_tree_map in Hi; [|done]. rewrite Hm in Hi.
  apply lookup_insert_Some in Hi as [[<- <-]|[_ Hi]]; [done|].
  apply Hl. by apply elem_of_tree_map.
Qed.

Lemma delete_elements (l l' : list (K * V)) k (P : K * V -> Prop) :
  ordered l -> ordered l' -> (list_to_map l' : gmap K V) = delete k (list_to_map l) ->
  Forall P l -> Forall P l'.
Proof.
  intros Ho Ho' Hm Hl. rewrite Forall_forall in *. intros [i x] Hi.
  apply elem_of_tree_map in Hi; [|done]. rewrite Hm in Hi.
  apply lookup_delete_Some in Hi as [_ Hi]. apply Hl. by apply elem_of_tree_map.
Qed.

Lemma insert_spec t k v :
  tree_ok t ->
  exists t' p, insert t k v = Some (t', p) /\ tree_ok t' /\
    tree_map t' = <[k := v]> (tree_map t) /\ p = tree_map t !! k /\
    height t <= height t' <= height t + 1.
Proof.
  unfold tree_ok, tree_map. intros [Ha Ho].
  induction t as [|k' v' l IHl r IHr h n]; cbn [insert].
  { eexists _, _. split; [done|]. cbn. split_and!; try done; try lia.
    by repeat constructor. }
  cbn [avl to_list] in *. destruct Ha as (Hl & Hr & Hd & -> & ->).
  pose proof Ho as (Hol & Hor & Hfl & Hfr)%ordered_mid.
  rewrite lookup_mid by done. cbn [height]. destruct (cmp k k') eqn:Hc.
  - apply cmp_eq in Hc as ->.
    destruct (rebalance_spec k' v l r Hl Hr ltac:(lia)) as (t' & -> & Ha' & Hlist & _ & Hh).
    eexists t', _. split; [done|]. rewrite Hlist, Hh by lia.
    assert (ordered (to_list l ++ (k', v) :: to_list r)) as Ho'.
    { by apply ordered_mid. }
    split_and!; try done; try lia. apply map_eq. intros i. rewrite lookup_mid by done.
    destruct (decide (i = k')) as [->|Hne].
    + by rewrite cmp_refl, lookup_insert_eq.
    + rewrite lookup_insert_ne by done. rewrite lookup_mid by done.
      destruct (cmp i k') eqn:Hi; try done. by apply cmp_eq in Hi.
  - destruct (IHl Hl Hol) as (l' & p & -> & [Ha' Ho'] & Hm & -> & Hh). simpl.
    destruct (rebalance_spec k' v' l' r Ha' Hr ltac:(lia)) as (t' & -> & Hat & Hlist & Hht & Hhe).
    eexists t', _. split; [done|]. rewrite Hlist.
    assert (ordered (to_list l' ++ (k', v') :: to_list r)) as Hot.
    { apply ordered_mid. split_and!; try done.
      by apply (insert_elements (to_list l) _ k v). }
    split_and!; try done; try lia; [by apply insert_l_map with (l := to_list l)|..];
      destruct (Z.le_gt_cases (Z.abs (height l' - height r)) 1) as [Hle|Hgt];
      try (rewrite (Hhe Hle)); lia.
  - destruct (IHr Hr Hor) as (r' & p & -> & [Ha' Ho'] & Hm & -> & Hh). simpl.
    destruct (rebalance_spec k' v' l r' Hl Ha' ltac:(lia)) as (t' & -> & Hat & Hlist & Hht & Hhe).
    eexists t', _. split; [done|]. rewrite Hlist.
    assert (ordered (to_list l ++ (k', v') :: to_list r')) as Hot.
    { apply ordered_mid. split_and!; try done.
      apply (insert_elements (to_list r) _ k v); try done. by apply cmp_gt_lt. }
    split_and!; try done; try lia; [by apply insert_r_map with (r := to_list r)|..];
      destruct (Z.le_gt_cases (Z.abs (height l - height r')) 1) as [Hle|Hgt];
      try (rewrite (Hhe Hle)); lia.
Qed.

(** Taking out the least entry. *)
Lemma pop_min_spec t :
  avl t -> t ≠ Leaf ->
  exists t' k v, pop_min t = Some (t', k, v) /\ avl t' /\
    to_list t = (k, v) :: to_list t' /\ height t - 1 <= height t' <= height t.
Proof.
  induction t as [|k v l IHl r IHr h n]; intros Ha Hne; [done|].
  cbn [avl] in Ha. destruct Ha as (Hl & Hr & Hd & -> & ->). cbn [height].
  pose proof (height_nonneg r Hr). destruct l as [|kl vl ll lr hl nl].
  - eexists _, _, _. split; [done|]. simpl in *. split_and!; try done; lia.
  - remember (Node kl vl ll lr hl nl) as l eqn:El.
    assert (l ≠ Leaf) as Hl0 by congruence.
    destruct (IHl Hl Hl0) as (l' & km & vm & Hp & Ha' & Hlist & Hh).
    destruct (rebalance_spec k v l' r Ha' Hr ltac:(lia)) as (t' & Hrb & Hat & Hlt & Hht & Hhe).
    exists t', km, vm. split.
    { rewrite El in Hp |- *. cbn [pop_min] in *. rewrite Hp. simpl. by rewrite Hrb. }
    cbn [to_list]. rewrite Hlt, Hlist.
    split_and!; try done; destruct (Z.le_gt_cases (Z.abs (height l' - height r)) 1) as [Hle|Hgt];
      try (rewrite (Hhe Hle)); lia.
Qed.

Lemma delete_side_map l l' k v r r' k' :
  ordered (l ++ (k, v) :: r) -> ordered (l' ++ (k, v) :: r') ->
  (cmp k' k = Lt /\ r' = r /\ (list_to_map l' : gmap K V) = delete k' (list_to_map l) \/
   cmp k' k = Gt /\ l' = l /\ (list_to_map r' : gmap K V) = delete k' (list_to_map r)) ->
  (list_to_map (l' ++ (k, v) :: r') : gmap K V) = delete k' (list_to_map (l ++ (k, v) :: r)).
Proof.
  intros Ho Ho' Hcase. apply map_eq. intros i. rewrite (lookup_mid l' k v r' i Ho').
  destruct (decide (i = k')) as [->|Hne].
  - rewrite lookup_delete_eq. destruct Hcase as [(-> & _ & ->)|(-> & _ & ->)];
      by rewrite lookup_delete_eq.
  - rewrite lookup_delete_ne by done. rewrite (lookup_mid l k v r i Ho).
    destruct Hcase as [(_ & -> & ->)|(_ & -> & ->)]; destruct (cmp i k); try done;
      by rewrite lookup_delete_ne.
Qed.

(** Dropping the middle entry. *)
Lemma delete_mid_map l k v r :
  ordered (l ++ (k, v) :: r) -> ordered (l ++ r) /\
  (list_to_map (l ++ r) : gmap K V) = delete k (list_to_map (l ++ (k, v) :: r)).
Proof.
  intros Ho. pose proof (ordered_NoDup _ Ho) as Hnd. split.
  - clear Hnd. unfold ordered in *. induction l as [|x l IH]; simpl in *.
    + by apply StronglySorted_inv in Ho as [? _].
    + apply StronglySorted_inv in Ho as [Ho Hf]. constructor; [by apply IH|].
      apply Forall_app in Hf as [? [_ ?]%Forall_cons]. by apply Forall_app.
  - rewrite (list_to_map_proper (l ++ (k, v) :: r) ((k, v) :: l ++ r)).
    + simpl. rewrite delete_insert_id; [done|].
      apply not_elem_of_list_to_map_1. rewrite fmap_app, fmap_cons in Hnd.
      apply NoDup_app in Hnd as (_ & Hd & [Hk _]%NoDup_cons).
      rewrite fmap_app, elem_of_app. intros [Hin|Hin]; [|done].
      apply (Hd k Hin). by left.
    + done.
    + by rewrite Permutation_middle.
Qed.

Lemma remove_node_spec t k p :
  tree_ok t -> tree_map t !! k = Some p ->
  exists t', remove_node t k = Some (t', p) /\ tree_ok t' /\
    tree_map t' = delete k (tree_map t) /\ height t - 1 <= height t' <= height t.
Proof.
  unfold tree_ok, tree_map. intros [Ha Ho].
  induction t as [|k' v' l IHl r IHr h n]; cbn [remove_node]; [done|].
  cbn [avl to_list] in *. destruct Ha as (Hl & Hr & Hd & -> & ->).
  pose proof Ho as (Hol & Hor & Hfl & Hfr)%ordered_mid.
  rewrite lookup_mid by done. cbn [height].
  pose proof (height_nonneg l Hl). pose proof (height_nonneg r Hr).
  destruct (cmp k k') eqn:Hc.
  - intros [= ->]. apply cmp_eq in Hc as ->. destruct (delete_mid_map _ _ _ _ Ho) as [Hod Hmd].
    destruct l as [|kl vl ll lr hl nl].
    { eexists. split; [done|]. simpl in *. split_and!; try done; lia. }
    destruct r as [|kr vr rl rr hr nr].
    { eexists. split; [done|]. cbn [to_list] in *. rewrite !app_nil_r in *.
      split_and!; try done; cbn [height] in *; lia. }
    set (l := Node kl vl ll lr hl nl) in *. set (r := Node kr vr rl rr hr nr) in *.
    destruct (pop_min_spec r Hr ltac:(done)) as (r' & km & vm & Hp & Ha' & Hlist & Hh).
    destruct (rebalance_spec km vm l r' Hl Ha' ltac:(lia)) as (t' & Hrb & Hat & Hlt & Hht & Hhe).
    exists t'. split; [by rewrite Hp; simpl; rewrite Hrb|]. rewrite Hlt.
    rewrite Hlist in *. split_and!; try done;
      destruct (Z.le_gt_cases (Z.abs (height l - height r')) 1) as [Hle|Hgt];
      try (rewrite (Hhe Hle)); lia.
  - intros Hk. destruct (IHl Hl Hol Hk) as (l' & Hrm & [Ha' Ho'] & Hm & Hh). rewrite Hrm. simpl.
    destruct (rebalance_spec k' v' l' r Ha' Hr ltac:(lia)) as (t' & -> & Hat & Hlt & Hht & Hhe).
    exists t'. split; [done|]. rewrite Hlt.
    assert (ordered (to_list l' ++ (k', v') :: to_list r)) as Hot.
    { apply ordered_mid. split_and!; try done. by apply (delete_elements (to_list l) _ k). }
    split_and!; try done; [apply delete_side_map with (l := to_list l) (r := to_list r); auto|..];
      destruct (Z.le_gt_cases (Z.abs (height l' - height r)) 1) as [Hle|Hgt];
      try (rewrite (Hhe Hle)); lia.
  - intros Hk. destruct (IHr Hr Hor Hk) as (r' & Hrm & [Ha' Ho'] & Hm & Hh). rewrite Hrm. simpl.
    destruct (rebalance_spec k' v' l r' Hl Ha' ltac:(lia)) as (t' & -> & Hat & Hlt & Hht & Hhe).
    exists t'. split; [done|]. rewrite Hlt.
    assert (ordered (to_list l ++ (k', v') :: to_list r')) as Hot.
    { apply ordered_mid. split_and!; try done. by apply (delete_elements (to_list r) _ k). }
    split_and!; try done; [apply delete_side_map with (l := to_list l) (r := to_list r); auto|..];
      destruct (Z.le_gt_cases (Z.abs (height l - height r')) 1) as [Hle|Hgt];
      try (rewrite (Hhe Hle)); lia.
Qed.

Lemma remove_spec t k :
  tree_ok t ->
  exists t', remove t k = Some (t', tree_map t !! k) /\ tree_ok t' /\
    tree_map t' = delete k (tree_map t).
Proof.
  intros Ht. unfold remove. rewrite get_spec by apply Ht.
  destruct (tree_map t !! k) as [p|] eqn:Hk.
  - destruct (remove_node_spec t k p Ht Hk) as (t' & -> & Ht' & Hm & _). by exists t'.
  - exists t. by rewrite delete_id.
Qed.

(** Writing through a reference changes neither the shape nor the keys. *)
Lemma update_shape t k f :
  (avl t -> avl (update t k f)) /\ (to_list (update t k f)).*1 = (to_list t).*1 /\
  height (update t k f) = height t /\ len (update t k f) = len t.
Proof.
  induction t as [|k' v' l IHl r IHr h n]; [done|]. cbn [update].
  destruct IHl as (Al & Kl & Hl & Nl), IHr as (Ar & Kr & Hr & Nr).
  destruct (cmp k k'); cbn [avl to_list height len];
    rewrite ?Hl, ?Hr, ?Nl, ?Nr, !fmap_app, !fmap_cons, ?Kl, ?Kr; split_and!; try done; tauto.
Qed.

Lemma ordered_keys l l' : l.*1 = l'.*1 -> ordered l -> ordered l'.
Proof.
  intros Hk Ho. revert l' Hk. induction Ho as [|x l Ho IH Hf]; intros [|y l'] Hk; try done.
  - constructor.
  - rewrite !fmap_cons in Hk. injection Hk as Hxy Hk. constructor; [by apply IH|].
    rewrite Forall_forall in *. intros z Hz.
    assert (z.1 ∈ l.*1) as (w & Hw & Hin)%list_elem_of_fmap.
    { rewrite Hk. apply list_elem_of_fmap. by exists z. }
    specialize (Hf w Hin). unfold key_lt in *. by rewrite <- Hxy, Hw.
Qed.

Lemma update_spec t k f :
  tree_ok t -> tree_ok (update t k f) /\ tree_map (update t k f) = alter f k (tree_map t).
Proof.
  intros [Ha Ho]. destruct (update_shape t k f) as (Ha' & Hk & _).
  assert (ordered (to_list (update t k f))) as Ho' by (by eapply ordered_keys).
  split; [split; [by apply Ha'|done]|]. clear Ha Ha' Hk. unfold tree_map.
  apply map_eq. intros i. revert Ho Ho'.
  induction t as [|k' v' l IHl r IHr h n]; intros Ho Ho'.
  { simpl. by rewrite lookup_alter, lookup_empty; case_decide. }
  cbn [to_list] in Ho. pose proof Ho as (Hol & Hor & _ & _)%ordered_mid.
  cbn [update] in *. rewrite lookup_alter.
  destruct (cmp k k') eqn:Hc; cbn [to_list] in *; rewrite !lookup_mid by done;
    pose proof Ho' as (Hol' & Hor' & _ & _)%ordered_mid.
  - apply cmp_eq in Hc as ->. case_decide; subst; [by rewrite cmp_refl|].
    destruct (cmp i k') eqn:Hi; try done. by apply cmp_eq in Hi.
  - specialize (IHl Hol Hol'). rewrite lookup_alter in IHl.
    case_decide; subst; [by rewrite Hc|]. by destruct (cmp i k').
  - specialize (IHr Hor Hor'). rewrite lookup_alter in IHr.
    case_decide; subst; [by rewrite Hc|]. by destruct (cmp i k').
Qed.

Lemma entry_spec t k d f :
  tree_ok t ->
  exists t', entry_or_default t k d f = Some t' /\ tree_ok t' /\
    tree_map t' = <[k := f (default d (tree_map t !! k))]> (tree_map t).
Proof.
  intros Ht. unfold entry_or_default, contains_key. rewrite get_spec by apply Ht.
  destruct (tree_map t !! k) as [v|] eqn:Hk.
  - eexists. split; [done|]. destruct (update_spec t k f Ht) as [Hu Hm]. split; [done|].
    rewrite Hm. apply map_eq. intros i. rewrite lookup_alter.
    case_decide; subst; [by rewrite Hk, lookup_insert_eq|by rewrite lookup_insert_ne].
  - destruct (insert_spec t k d Ht) as (t1 & p & -> & Ht1 & Hm1 & _). simpl.
    eexists. split; [done|]. destruct (update_spec t1 k f Ht1) as [Hu Hm]. split; [done|].
    rewrite Hm, Hm1. apply map_eq. intros i. rewrite lookup_alter.
    case_decide; subst; [by rewrite !lookup_insert_eq|by rewrite !lookup_insert_ne].
Qed.

(** ** Iteration *)

(** The entries a stack still has to produce. *)
Definition pending (stack : list (frame (K := K) (V := V))) : list (K * V) :=
  concat ((fun '(k, v, r) => (k, v) :: to_list r) <$> stack).

Lemma pending_push_left t stack : pending (push_left t stack) = to_list t ++ pending stack.
Proof.
  revert stack. induction t as [|k v l IHl r IHr h n]; intros stack; [done|].
  cbn [push_left to_list]. rewrite IHl. unfold pending. simpl. by rewrite <- app_assoc.
Qed.

Lemma next_pending stack :
  match next stack with
  | None => pending stack = []
  | Some (kv, stack') => pending stack = kv :: pending stack'
  end.
Proof.
  destruct stack as [|[[k v] r] stack]; [done|]. cbn [next]. by rewrite pending_push_left.
Qed.

Lemma drain_pending fuel stack :
  (length (pending stack) <= fuel)%nat -> drain fuel stack = pending stack.
Proof.
  revert stack. induction fuel as [|fuel IH]; intros stack Hle; cbn [drain].
  - symmetry. apply nil_length_inv. lia.
  - pose proof (next_pending stack) as Hn. destruct (next stack) as [[kv stack']|]; [|done].
    rewrite Hn in *. simpl in Hle. f_equal. apply IH. lia.
Qed.

Lemma pending_seek t bound stack :
  ordered (to_list t) ->
  pending (seek t bound stack) =
    filter (fun kv => cmp kv.1 bound ≠ Lt) (to_list t) ++ pending stack.
Proof.
  revert stack. induction t as [|k v l IHl r IHr h n]; intros stack Ho; [done|].
  cbn [to_list] in Ho. pose proof Ho as (Hol & Hor & Hfl & Hfr)%ordered_mid.
  cbn [seek to_list]. rewrite filter_app, filter_cons. cbn [fst].
  destruct (cmp k bound) eqn:Hc.
  - rewrite IHl by done. rewrite decide_True by done.
    rewrite (filter_keep _ (to_list r)).
    + unfold pending. simpl. by rewrite <- app_assoc.
    + eapply Forall_impl; [exact Hfr|]. intros y Hy. unfold key_lt in Hy. simpl in Hy.
      apply cmp_eq in Hc as ->. intros Hlt. apply cmp_gt_lt in Hlt. congruence.
  - rewrite IHr by done. rewrite decide_False by (by intros []).
    rewrite (filter_drop _ (to_list l)); [done|].
    eapply Forall_impl; [exact Hfl|]. intros y Hy. unfold key_lt in Hy. simpl in Hy.
    intros Hn. apply Hn. by eapply cmp_trans.
  - rewrite IHl by done. rewrite decide_True by done.
    rewrite (filter_keep _ (to_list r)).
    + unfold pending. simpl. by rewrite <- app_assoc.
    + eapply Forall_impl; [exact Hfr|]. intros y Hy. unfold key_lt in Hy. simpl in Hy.
      apply cmp_gt_lt in Hc. intros Hlt. apply (cmp_trans _ _ _ Hy) in Hlt.
      apply cmp_gt_lt in Hlt. congruence.
Qed.

(** ** Building from sorted items *)

Definition bits (n : nat) : Z := if decide (n = 0)%nat then 0 else Z.log2 (Z.of_nat n) + 1.

Lemma bits_half n : (n ≠ 0)%nat -> bits n = 1 + bits (n / 2).
Proof.
  intros Hn. unfold bits. rewrite decide_False by done. rewrite Nat2Z.inj_div.
  case_decide as Hz.
  - assert (n = 1)%nat as -> by (apply Nat.div_small_iff in Hz; lia). done.
  - assert (2 <= Z.of_nat n).
    { destruct (decide (n = 1)%nat) as [->|]; [done|lia]. }
    change (Z.of_nat 2) with (2 ^ 1). rewrite <- Z.shiftr_div_pow2 by lia.
    rewrite Z.log2_shiftr by lia.
    assert (1 <= Z.log2 (Z.of_nat n)) by (apply Z.log2_le_pow2; lia). lia.
Qed.

Lemma bits_pred n : bits n - 1 <= bits (n - 1) <= bits n.
Proof.
  unfold bits. case_decide as Hn; [by subst|]. case_decide as Hp.
  - assert (n = 1)%nat as -> by lia. simpl. lia.
  - split.
    + enough (Z.log2 (Z.of_nat n) - 1 <= Z.log2 (Z.of_nat (n - 1))) by lia.
      assert (0 <= Z.log2 (Z.of_nat n)) by apply Z.log2_nonneg.
      destruct (decide (Z.log2 (Z.of_nat n) = 0)) as [Hz|Hz];
        [pose proof (Z.log2_nonneg (Z.of_nat (n - 1))); lia|].
      pose proof (Z.log2_spec (Z.of_nat n) ltac:(lia)) as [Hlow _].
      apply Z.log2_le_pow2; [lia|].
      replace (2 ^ Z.log2 (Z.of_nat n)) with (2 * 2 ^ (Z.log2 (Z.of_nat n) - 1)) in Hlow.
      * assert (0 < 2 ^ (Z.log2 (Z.of_nat n) - 1)) by (apply Z.pow_pos_nonneg; lia). lia.
      * rewrite <- Z.pow_succ_r by lia. f_equal. lia.
    + enough (Z.log2 (Z.of_nat (n - 1)) <= Z.log2 (Z.of_nat n)) by lia.
      apply Z.log2_le_mono. lia.
Qed.

Lemma build_spec fuel items n :
  (n <= fuel)%nat -> (n <= length items)%nat ->
  exists t, build fuel items n = Some (t, drop n items) /\ avl t /\
    to_list t = take n items /\ height t = bits n.
Proof.
  revert items n. induction fuel as [|fuel IH]; intros items n Hf Hn.
  { assert (n = 0)%nat as -> by lia. by exists Leaf. }
  destruct n as [|n']; [by exists Leaf|]. remember (S n') as n eqn:En.
  assert (build (S fuel) items n =
    '(l, items) ← build fuel items (n / 2)%nat;
    match items with
    | [] => None
    | (key, value) :: items =>
        '(r, items) ← build fuel items (n - n / 2 - 1)%nat;
        Some (refresh key value l r, items)
    end) as Hb by (by rewrite En).
  assert (n / 2 < n)%nat as Hhalf by (apply Nat.div_lt; lia).
  destruct (IH items (n / 2)%nat) as (l & Hl & Al & Ll & Hhl); [lia|lia|].
  rewrite Hb, Hl. cbn [mbind option_bind].
  destruct (drop (n / 2) items) as [|[key value] rest] eqn:Hd.
  { apply (f_equal length) in Hd. rewrite length_drop in Hd. cbn [length] in Hd. lia. }
  assert (length rest = length items - n / 2 - 1)%nat as Hrest.
  { apply (f_equal length) in Hd. rewrite length_drop in Hd. cbn [length] in Hd. lia. }
  destruct (IH rest (n - n / 2 - 1)%nat) as (r & Hr & Ar & Lr & Hhr); [lia|lia|].
  rewrite Hr. cbn [mbind option_bind].
  assert (bits (n / 2) - 1 <= bits (n - n / 2 - 1) <= bits (n / 2)) as Hbits.
  { pose proof (Nat.div_mod_eq n 2). pose proof (Nat.mod_upper_bound n 2 ltac:(lia)).
    destruct (decide (n mod 2 = 0)%nat).
    - replace (n - n / 2 - 1)%nat with (n / 2 - 1)%nat by lia. apply bits_pred.
    - replace (n - n / 2 - 1)%nat with (n / 2)%nat by lia. lia. }
  exists (refresh key value l r). split_and!.
  - do 2 f_equal. assert (drop (S (n / 2)) items = rest) as <-.
    { replace (S (n / 2)) with (n / 2 + 1)%nat by lia. rewrite <- drop_drop, Hd. done. }
    rewrite drop_drop. f_equal. lia.
  - apply refresh_avl; [done|done|]. rewrite Hhl, Hhr. lia.
  - cbn [refresh to_list]. rewrite Ll, Lr.
    assert (items = take (n / 2) items ++ (key, value) :: rest) as Hitems
      by (by rewrite <- Hd, take_drop).
    rewrite Hitems at 2. rewrite take_app, take_take, length_take.
    rewrite Nat.min_r by lia.
    replace (n - (n / 2) `min` length items)%nat with (S (n - n / 2 - 1)) by lia.
    done.
  - cbn [refresh height]. rewrite Hhl, Hhr, (bits_half n) by lia. lia.
Qed.

(** ** Refinement of finite maps *)

Inductive map_op :=
| MapInsert (key : K) (value : V)
| MapRemove (key : K)
| MapGetMut (key : K) (f : V -> V)
| MapEntry (key : K) (dflt : V) (f : V -> V).

(** What a call leaves behind and returns; [None] is a panic. *)
Definition map_step (t : tree K V) (op : map_op) : option (tree K V * option V) :=
  match op with
  | MapInsert key value => insert t key value
  | MapRemove key => remove t key
  | MapGetMut key f => Some (update t key f, get t key)
  | MapEntry key dflt f => t' ← entry_or_default t key dflt f; Some (t', get t key)
  end.

Definition spec_step (m : gmap K V) (op : map_op) : gmap K V * option V :=
  match op with
  | MapInsert key value => (<[key := value]> m, m !! key)
  | MapRemove key => (delete key m, m !! key)
  | MapGetMut key f => (alter f key m, m !! key)
  | MapEntry key dflt f => (<[key := f (default dflt (m !! key))]> m, m !! key)
  end.

Fixpoint map_run (t : tree K V) (ops : list map_op) : option (tree K V * list (option V)) :=
  match ops with
  | [] => Some (t, [])
  | op :: ops =>
      '(t, out) ← map_step t op; '(t, outs) ← map_run t ops; Some (t, out :: outs)
  end.

Fixpoint spec_run (m : gmap K V) (ops : list map_op) : gmap K V * list (option V) :=
  match ops with
  | [] => (m, [])
  | op :: ops =>
      let '(m, out) := spec_step m op in
      let '(m, outs) := spec_run m ops in (m, out :: outs)
  end.

Lemma map_step_spec t op :
  tree_ok t ->
  exists t', map_step t op = Some (t', (spec_step (tree_map t) op).2) /\ tree_ok t' /\
    tree_map t' = (spec_step (tree_map t) op).1.
Proof.
  intros Ht. destruct op as [k v|k|k f|k d f]; cbn [map_step spec_step fst snd].
  - destruct (insert_spec t k v Ht) as (t' & p & -> & Ht' & Hm & -> & _). eauto.
  - destruct (remove_spec t k Ht) as (t' & -> & Ht' & Hm). eauto.
  - rewrite get_spec by apply Ht. destruct (update_spec t k f Ht). eauto.
  - rewrite get_spec by apply Ht.
    destruct (entry_spec t k d f Ht) as (t' & -> & Ht' & Hm). eauto.
Qed.

Lemma map_run_spec ops t :
  tree_ok t ->
  exists t', map_run t ops = Some (t', (spec_run (tree_map t) ops).2) /\ tree_ok t' /\
    tree_map t' = (spec_run (tree_map t) ops).1.
Proof.
  revert t. induction ops as [|op ops IH]; intros t Ht; [by exists t|].
  cbn [map_run spec_run]. destruct (map_step_spec t op Ht) as (t1 & -> & Ht1 & Hm1).
  destruct (spec_step (tree_map t) op) as [m out]. simpl in *. subst m.
  destruct (IH t1 Ht1) as (t2 & -> & Ht2 & Hm2). simpl.
  destruct (spec_run (tree_map t1) ops) as [m outs]. simpl in *. eauto.
Qed.

Lemma tree_ok_Leaf : tree_ok (Leaf (K := K) (V := V)).
Proof. split; [done|constructor]. Qed.

Lemma len_size t : tree_ok t -> len t = Z.of_nat (size (tree_map t)).
Proof.
  intros [Ha Ho]. rewrite len_to_list by done. unfold tree_map.
  rewrite <- (length_map_to_list (list_to_map (to_list t) : gmap K V)).
  rewrite map_to_list_to_map; [done|]. by apply ordered_NoDup.
Qed.

Lemma height_bound t : avl t -> len t < 2 ^ 64 -> height t < 130.
Proof.
  intros Ha Hn. pose proof (avl_size_bound t Ha) as Hb.
  destruct (Z.lt_ge_cases (height t) 130) as [|Hge]; [done|].
  assert (2 ^ 65 <= 2 ^ (height t / 2)).
  { apply Z.pow_le_mono_r; [lia|]. Z.div_mod_to_equations. lia. }
  lia.
Qed.

(** (C34) After any sequence of [insert], [remove], [get_mut] and
    [entry().or_default()] calls on an empty map, no call has panicked, every
    call has returned what a finite map would have returned, the tree is
    balanced and ordered, [get] and [len] answer as the finite map does, and
    the 16-bit height field cannot overflow while the 64-bit length does not. *)
Theorem state_map_refines (ops : list map_op) :
  exists t, map_run Leaf ops = Some (t, (spec_run ∅ ops).2) /\ tree_ok t /\
    (forall k, get t k = (spec_run ∅ ops).1 !! k) /\
    len t = Z.of_nat (size (spec_run ∅ ops).1) /\
    (len t < 2 ^ 64 -> height t < 130).
Proof.
  destruct (map_run_spec ops Leaf tree_ok_Leaf) as (t & Hr & Ht & Hm).
  change (tree_map Leaf) with (∅ : gmap K V) in *. exists t. split; [done|]. split; [done|].
  rewrite <- Hm. split; [intros k; apply get_spec, Ht|]. split; [by apply len_size|].
  apply height_bound, Ht.
Qed.

(** A map built from items with increasing keys holds exactly
    those items, has the least height a binary tree of that size can have, and
    is a well-formed tree for every later operation. *)
Theorem from_sorted_balanced (items : list (K * V)) :
  ordered items ->
  exists t, from_sorted items = Some t /\ tree_ok t /\ to_list t = items /\
    height t = bits (length items).
Proof.
  intros Ho. unfold from_sorted.
  destruct (build_spec (length items) items (length items)) as (t & -> & Ha & Hl & Hh);
    [lia|lia|].
  exists t. rewrite take_ge in Hl by lia. simpl. split_and!; try done. split; [done|].
  by rewrite Hl.
Qed.
End facts.

Import StateMap.

(** Two lists sorted by byte strings with the same members are equal, so the
    in-order walk of a tree is the sorted list of its entries. *)
Lemma to_list_sorted_entries {V : Type} (t : tree (list Z) V) :
  tree_ok t -> to_list t = sorted_entries (tree_map t).
Proof.
  intros [_ Ho].
  assert (to_list t ≡ₚ sorted_entries (tree_map t)) as Hp.
  { rewrite sorted_entries_permutation. unfold tree_map. symmetry.
    apply map_to_list_to_map. by apply ordered_NoDup. }
  assert ((to_list t).*1 = (sorted_entries (tree_map t)).*1) as Hk.
  { apply (StronglySorted_unique_strong (fun a b => Is_true (lex_leb a b))).
    - intros a b _ _. unfold lex_leb. rewrite (lex_compare_antisym a b).
      destruct (lex_compare a b) eqn:Hc; simpl; try done. by apply lex_compare_Eq in Hc.
    - clear Hp. induction Ho as [|x l _ IH Hf]; [constructor|]. cbn. constructor; [done|].
      apply Forall_fmap. eapply Forall_impl; [exact Hf|]. intros y Hy.
      unfold key_lt, cmp, bytes_ord in Hy. unfold lex_leb. simpl. by rewrite Hy.
    - rewrite sorted_entries_keys. apply Sorted_sorted_ids.
    - by rewrite Hp. }
  pose proof (ordered_NoDup _ Ho) as Hnd. clear Ho.
  revert Hp Hk Hnd. generalize (sorted_entries (tree_map t)) as l2.
  induction (to_list t) as [|[k v] l1 IH]; intros [|[k2 v2] l2] Hp Hk Hnd; try done.
  simpl in Hk. injection Hk as <- Hk. inversion_clear Hnd as [|? ? Hnin Hnd'].
  assert ((k, v) ∈ (k, v2) :: l2) as Hin by (rewrite <- Hp; left).
  apply elem_of_cons in Hin as [Heq|Hin].
  - injection Heq as ->. f_equal. apply IH; [|done|done]. by eapply Permutation.Permutation_cons_inv.
  - exfalso. apply Hnin. rewrite Hk. by apply (list_elem_of_fmap_2 fst) in Hin.
Qed.

(** Iterating a table yields its entries in byte order, each key
    once, whatever the sequence of writes that produced the tree; and an
    iterator started at a bound yields exactly the entries from the bound on,
    in the same order. *)
Theorem state_map_iteration {V : Type} (t : tree (list Z) V) (bound : list Z) (fuel : nat) :
  tree_ok t -> len t <= Z.of_nat fuel ->
  drain fuel (iter t) = sorted_entries (tree_map t) /\
  drain fuel (iter_from t bound) =
    filter (fun kv => lex_compare kv.1 bound ≠ Lt) (sorted_entries (tree_map t)).
Proof.
  intros Ht Hf. pose proof Ht as [Ha Ho]. rewrite len_to_list in Hf by done.
  rewrite <- to_list_sorted_entries by done.
  split.
  - unfold iter. rewrite drain_pending; rewrite pending_push_left; cbn; rewrite app_nil_r;
      [done|lia].
  - unfold iter_from. rewrite drain_pending; rewrite pending_seek by done; cbn;
      rewrite app_nil_r; [done|].
    etransitivity; [apply length_filter|lia].
Qed.

Lemma state_map_refines_witness :
  exists t, map_run Leaf [MapInsert [2] 20; MapInsert [1] 10; MapInsert [3] 30; MapRemove [2]]
      = Some (t, [None; None; None; Some 20]) /\ get t [3] = Some 30.
Proof.
  destruct (state_map_refines
    [MapInsert [2] 20; MapInsert [1] 10; MapInsert [3] 30; MapRemove [2]])
    as (t & Hr & _ & Hg & _).
  exists t. split; [exact Hr|]. rewrite Hg. vm_compute. reflexivity.
Defined.

Lemma state_map_iteration_witness :
  drain 2 (iter_from (Node [5] 50 (Node [3] 30 Leaf Leaf 1 1) Leaf 2 2) [4]) = [([5], 50)].
Proof.
  refine (eq_trans (proj2 (state_map_iteration
    (Node [5] 50 (Node [3] 30 Leaf Leaf 1 1) Leaf 2 2) [4] 2 _ _)) _).
  - split; [vm_compute; intuition discriminate|]. repeat constructor.
  - vm_compute. discriminate.
  - vm_compute. reflexivity.
Defined.

Lemma from_sorted_balanced_witness :
  exists t, from_sorted [([1], 10); ([2], 20); ([3], 30)] = Some t /\ height t = 2.
Proof.
  destruct (from_sorted_balanced [([1], 10); ([2], 20); ([3], 30)])
    as (t & Hb & _ & _ & Hh); [repeat constructor|].
  exists t. split; [exact Hb|]. rewrite Hh. vm_compute. reflexivity.
Defined.
