(* ===== verification/Coin.v ===== *)
(** * Native coin outputs

    Models [kernel/src/ledger/utxo/coin.rs]: the set of unspent coin outputs
    with its cached total value and its owner index, insertion and
    consumption, the Borsh encoding and the decoder that rebuilds the index.
    A [StateMap] is a [gmap] here; the refinement of the persistent AVL tree to
    a finite map is proved in [StateMap]. *)

From S2P Require Import Prelude Codec Monetary Index.
#[local] Open Scope Z_scope.

Record CoinUtxo := { cu_amount : Z; cu_owner : Owner }.

#[global] Instance CoinUtxo_eq_dec : EqDecision CoinUtxo.
Proof. solve_decision. Defined.

Record UtxoSet := {
  coins : gmap (list Z) CoinUtxo;
  total_value : Z;
  by_owner : gmap Owner (gset (list Z));
}.

Inductive UtxoError := UZeroAmount | NotFound | CoinCollision | ValueOverflow | ValueUnderflow.

#[global] Instance UtxoError_eq_dec : EqDecision UtxoError.
Proof. solve_decision. Defined.

Definition utxo_empty : UtxoSet := {| coins := ∅; total_value := 0; by_owner := ∅ |}.

Definition coin (self : UtxoSet) (id : list Z) : option CoinUtxo := coins self !! id.

Definition insert_coin (self : UtxoSet) (id : list Z) (c : CoinUtxo)
    : result UtxoError UtxoSet :=
  fail_if Zeno.is_zero (cu_amount c) with UZeroAmount;
  fail_if bool_decide (is_Some (coins self !! id)) with CoinCollision;
  total ← ok_or (Zeno.checked_add (total_value self) (cu_amount c)) ValueOverflow;
  Ok {| coins := <[id := c]> (coins self);
        by_owner := index_add (cu_owner c) id (by_owner self);
        total_value := total |}.

Definition consume_coin (self : UtxoSet) (id : list Z)
    : result UtxoError (CoinUtxo * UtxoSet) :=
  c ← ok_or (coins self !! id) NotFound;
  total ← ok_or (Zeno.checked_sub (total_value self) (cu_amount c)) ValueUnderflow;
  Ok (c, {| coins := delete id (coins self);
            by_owner := index_remove (cu_owner c) id (by_owner self);
            total_value := total |}).

(** Sorted candidate identifiers, filtered through the canonical map. *)
Definition coins_by_owner (self : UtxoSet) (owner : Owner) : list (list Z * CoinUtxo) :=
  omap (fun id =>
          c ← coins self !! id;
          if decide (cu_owner c = owner) then Some (id, c) else None)
       (sorted_ids (index_get (by_owner self) owner)).

Definition utxo_len (self : UtxoSet) : Z := Z.of_nat (size (coins self)).

Definition utxo_is_empty (self : UtxoSet) : bool := bool_decide (coins self = ∅).

(** ** Encoding *)

Definition enc_coin (c : CoinUtxo) : list Z := le_bytes 8 (cu_amount c) ++ enc_owner (cu_owner c).

Definition dec_coin (bytes : list Z) : option (CoinUtxo * list Z) :=
  '(amount, bytes) ← dec_uint 8 bytes;
  '(owner, bytes) ← dec_owner bytes;
  Some ({| cu_amount := amount; cu_owner := owner |}, bytes).

(** The index is skipped by the serializer. *)
Definition enc_utxo_set (self : UtxoSet) : list Z :=
  enc_map enc_coin (coins self) ++ le_bytes 8 (total_value self).

Definition dec_utxo_set (bytes : list Z) : option (UtxoSet * list Z) :=
  '(coins, bytes) ← dec_map dec_coin bytes;
  '(total_value, bytes) ← dec_uint 8 bytes;
  Some ({| coins := coins; total_value := total_value;
           by_owner := index_rebuild cu_owner coins |}, bytes).

(** The width of one entry, measured on a zero entry. *)
Definition coin_entry_width : Z :=
  Z.of_nat (length (enc_entry enc_coin
    (replicate HASH_SIZE 0,
     {| cu_amount := 0; cu_owner := Program (replicate HASH_SIZE 0) |}))).

Definition utxo_canonical_encoded_len (self : UtxoSet) : option Z :=
  size ← canonical_fixed_map_length (utxo_len self) coin_entry_width;
  checked_add 64 size (Z.of_nat (length (le_bytes 8 (total_value self)))).

(** ** Invariant *)

Definition value_of (m : gmap (list Z) CoinUtxo) : Z := map_sum (fun _ c => cu_amount c) m.

Definition coin_wf (c : CoinUtxo) : Prop := 0 < cu_amount c < 2 ^ 64.

(** Positive amounts, a total that is the sum of the outputs and fits a
    [u64], and an index that is exactly the ownership relation. *)
Record utxo_wf (u : UtxoSet) : Prop := {
  utxo_amounts : map_Forall (fun _ c => coin_wf c) (coins u);
  utxo_total : total_value u = value_of (coins u);
  utxo_bound : total_value u < 2 ^ 64;
  utxo_index : index_exact (by_owner u) (held cu_owner (coins u));
}.

(** Two well-formed sets with the same coins are the same set. *)
Lemma utxo_wf_eq u u' : utxo_wf u -> utxo_wf u' -> coins u = coins u' -> u = u'.
Proof.
  intros [_ Ht _ Hx] [_ Ht' _ Hx'] Heq. destruct u as [c t b], u' as [c' t' b']; simpl in *.
  subst. f_equal. by apply (index_exact_unique _ _ (held cu_owner c')).
Qed.

Lemma value_of_nonneg m : map_Forall (fun _ c => coin_wf c) m -> 0 <= value_of m.
Proof. intros Hm. apply map_sum_nonneg. intros k c Hk. specialize (Hm k c Hk). unfold coin_wf in Hm. lia. Qed.

Lemma value_of_lookup m id c :
  map_Forall (fun _ c => coin_wf c) m -> m !! id = Some c -> cu_amount c <= value_of m.
Proof.
  intros Hm Hid. apply (map_sum_lookup_le (fun _ c => cu_amount c) m id c); [|done].
  intros k c' Hk. specialize (Hm k c' Hk). unfold coin_wf in Hm. lia.
Qed.

Lemma utxo_empty_wf : utxo_wf utxo_empty.
Proof.
  split; simpl; [done| |done|].
  - done.
  - eapply index_exact_ext; [apply index_exact_empty|]. intros o id. unfold held.
    rewrite lookup_empty. naive_solver.
Qed.

(** ** Insertion and consumption *)

Lemma insert_coin_Ok u id c u' :
  insert_coin u id c = Ok u' <->
  cu_amount c ≠ 0 /\ coins u !! id = None /\ total_value u + cu_amount c < 2 ^ 64 /\
  u' = {| coins := <[id := c]> (coins u); total_value := total_value u + cu_amount c;
          by_owner := index_add (cu_owner c) id (by_owner u) |}.
Proof.
  unfold insert_coin, Zeno.checked_add, Zeno.is_zero. rewrite !guard_err_Ok, bind_Ok.
  setoid_rewrite ok_or_Ok. setoid_rewrite checked_add_Some.
  rewrite Z.eqb_neq, bool_decide_eq_false, <- eq_None_not_Some. naive_solver.
Qed.

Lemma consume_coin_Ok u id c u' :
  consume_coin u id = Ok (c, u') <->
  coins u !! id = Some c /\ cu_amount c <= total_value u /\
  u' = {| coins := delete id (coins u); total_value := total_value u - cu_amount c;
          by_owner := index_remove (cu_owner c) id (by_owner u) |}.
Proof.
  unfold consume_coin, Zeno.checked_sub. rewrite bind_Ok. setoid_rewrite bind_Ok.
  setoid_rewrite ok_or_Ok. setoid_rewrite checked_sub_Some. naive_solver.
Qed.

Lemma insert_coin_wf u id c u' :
  utxo_wf u -> 0 <= cu_amount c -> insert_coin u id c = Ok u' -> utxo_wf u'.
Proof.
  intros [Ha Ht Hb Hx] Hc (Hnz & Hid & Hlt & ->)%insert_coin_Ok.
  pose proof (value_of_nonneg _ Ha). split; simpl.
  - apply map_Forall_insert_2; [unfold coin_wf; lia|done].
  - unfold value_of in *. rewrite map_sum_insert by done. lia.
  - done.
  - by apply index_add_held.
Qed.

Lemma consume_coin_wf u id c u' :
  utxo_wf u -> consume_coin u id = Ok (c, u') -> utxo_wf u'.
Proof.
  intros [Ha Ht Hb Hx] (Hid & Hle & ->)%consume_coin_Ok.
  assert (coin_wf c) as Hc by (apply (Ha id c Hid)). unfold coin_wf in Hc. split; simpl.
  - by apply map_Forall_delete.
  - unfold value_of in *. rewrite (map_sum_delete _ _ id c) in Ht by done. lia.
  - lia.
  - by apply index_remove_held.
Qed.

(** On a well-formed set a present coin is always consumed. *)
Lemma consume_coin_total u id c :
  utxo_wf u -> coins u !! id = Some c -> exists u', consume_coin u id = Ok (c, u').
Proof.
  intros [Ha Ht Hb Hx] Hid. eexists. apply consume_coin_Ok. split_and!; [done| |done].
  rewrite Ht. by eapply value_of_lookup.
Qed.

(** Inserting a coin that is not there, with room for its value, succeeds. *)
Lemma insert_coin_total u id c :
  coins u !! id = None -> 0 < cu_amount c -> total_value u + cu_amount c < 2 ^ 64 ->
  exists u', insert_coin u id c = Ok u'.
Proof. intros. eexists. apply insert_coin_Ok. split_and!; [lia|done|done|done]. Qed.

Lemma insert_consume_id u id c u' :
  utxo_wf u -> 0 <= cu_amount c -> insert_coin u id c = Ok u' ->
  consume_coin u' id = Ok (c, u).
Proof.
  intros Hu Hc Hi. pose proof (insert_coin_wf _ _ _ _ Hu Hc Hi) as Hu'.
  pose proof Hi as (Hnz & Hid & Hlt & ->)%insert_coin_Ok.
  destruct (consume_coin_total _ id c Hu' (lookup_insert_eq _ _ _)) as [u'' Hu''].
  rewrite Hu''. do 2 f_equal. apply utxo_wf_eq; [by eapply consume_coin_wf|done|].
  apply consume_coin_Ok in Hu'' as (_ & _ & ->). simpl. by rewrite delete_insert_id.
Qed.

Lemma consume_insert_id u id c u' :
  utxo_wf u -> consume_coin u id = Ok (c, u') -> insert_coin u' id c = Ok u.
Proof.
  intros Hu Hc. pose proof (consume_coin_wf _ _ _ _ Hu Hc) as Hu'.
  pose proof Hc as (Hid & Hle & Heq)%consume_coin_Ok.
  assert (coin_wf c) as Hwf by (apply (utxo_amounts _ Hu id c Hid)). unfold coin_wf in Hwf.
  pose proof (utxo_bound _ Hu).
  destruct (insert_coin_total u' id c) as [u'' Hi].
  { subst u'. apply lookup_delete_eq. } { lia. } { subst u'; simpl; lia. }
  rewrite Hi. f_equal. apply utxo_wf_eq; [eapply insert_coin_wf; [done| |done]; lia|done|].
  apply insert_coin_Ok in Hi as (_ & _ & _ & ->). subst u'. simpl. by rewrite insert_delete_id.
Qed.

(** ** Owner lookup *)

Lemma elem_of_coins_by_owner u o id c :
  utxo_wf u ->
  (id, c) ∈ coins_by_owner u o <-> coins u !! id = Some c /\ cu_owner c = o.
Proof.
  intros Hu. unfold coins_by_owner. rewrite list_elem_of_omap. split.
  - intros (id' & _ & Hid). destruct (coins u !! id') eqn:Hm; simplify_eq/=.
    by case_decide; simplify_eq.
  - intros [Hid Ho]. exists id. rewrite elem_of_sorted_ids, (index_exact_elem _ _ (utxo_index _ Hu)).
    rewrite Hid. simpl. split; [by exists c|]. by rewrite decide_True.
Qed.

Lemma coins_by_owner_keys u o :
  utxo_wf u -> (coins_by_owner u o).*1 = sorted_ids (index_get (by_owner u) o).
Proof.
  intros Hu. unfold coins_by_owner.
  assert (forall id, id ∈ sorted_ids (index_get (by_owner u) o) -> held cu_owner (coins u) o id) as Hh.
  { intros id. by rewrite elem_of_sorted_ids, (index_exact_elem _ _ (utxo_index _ Hu)). }
  induction (sorted_ids _) as [|id l IH]; [done|]. cbn [omap list_omap].
  destruct (Hh id) as (c & Hc & Ho); [by left|]. rewrite Hc. simpl.
  rewrite decide_True by done. simpl. f_equal. apply IH. intros. apply Hh. by right.
Qed.

(** ** Refinement to a finite map of coins

    The abstract store is the map alone: no cached total, no index. *)
Definition spec_insert (m : gmap (list Z) CoinUtxo) (id : list Z) (c : CoinUtxo)
    : result UtxoError (gmap (list Z) CoinUtxo) :=
  if cu_amount c =? 0 then Err UZeroAmount
  else if bool_decide (is_Some (m !! id)) then Err CoinCollision
  else if 2 ^ 64 <=? value_of m + cu_amount c then Err ValueOverflow
  else Ok (<[id := c]> m).

Definition spec_consume (m : gmap (list Z) CoinUtxo) (id : list Z)
    : result UtxoError (CoinUtxo * gmap (list Z) CoinUtxo) :=
  match m !! id with
  | None => Err NotFound
  | Some c => Ok (c, delete id m)
  end.

Inductive UtxoOp := OpInsert (id : list Z) (c : CoinUtxo) | OpConsume (id : list Z).

(** A caller that ignores errors: a failed call leaves the store as it is. *)
Definition utxo_step (u : UtxoSet) (op : UtxoOp) : UtxoSet * result UtxoError unit :=
  match op with
  | OpInsert id c =>
      match insert_coin u id c with Ok u' => (u', Ok tt) | Err e => (u, Err e) end
  | OpConsume id =>
      match consume_coin u id with Ok (_, u') => (u', Ok tt) | Err e => (u, Err e) end
  end.

Definition spec_step (m : gmap (list Z) CoinUtxo) (op : UtxoOp)
    : gmap (list Z) CoinUtxo * result UtxoError unit :=
  match op with
  | OpInsert id c =>
      match spec_insert m id c with Ok m' => (m', Ok tt) | Err e => (m, Err e) end
  | OpConsume id =>
      match spec_consume m id with Ok (_, m') => (m', Ok tt) | Err e => (m, Err e) end
  end.

Fixpoint run {S A} (step : S -> UtxoOp -> S * A) (s : S) (ops : list UtxoOp) : S * list A :=
  match ops with
  | [] => (s, [])
  | op :: ops =>
      let '(s, a) := step s op in
      let '(s, l) := run step s ops in (s, a :: l)
  end.

(** Amounts are [u64] values. *)
Definition op_wf (op : UtxoOp) : Prop :=
  match op with OpInsert _ c => fits 64 (cu_amount c) | OpConsume _ => True end.

Lemma insert_coin_spec u id c :
  utxo_wf u ->
  spec_insert (coins u) id c =
    match insert_coin u id c with Ok u' => Ok (coins u') | Err e => Err e end.
Proof.
  intros Hu. unfold spec_insert, insert_coin, guard_err, Zeno.is_zero, Zeno.checked_add, checked_add.
  rewrite (utxo_total _ Hu). destruct (cu_amount c =? 0); [done|].
  case_bool_decide; [done|].
  destruct (Z.leb_spec (2 ^ 64) (value_of (coins u) + cu_amount c)),
    (Z.ltb_spec (value_of (coins u) + cu_amount c) (2 ^ 64)); try lia; done.
Qed.

Lemma consume_coin_spec u id :
  utxo_wf u ->
  spec_consume (coins u) id =
    match consume_coin u id with Ok (c, u') => Ok (c, coins u') | Err e => Err e end.
Proof.
  intros Hu. unfold spec_consume. destruct (coins u !! id) as [c|] eqn:Hid.
  - destruct (consume_coin_total u id c Hu Hid) as [u' Hc]. rewrite Hc.
    by apply consume_coin_Ok in Hc as (_ & _ & ->).
  - unfold consume_coin. by rewrite Hid.
Qed.

Lemma utxo_step_simulation u op :
  utxo_wf u -> op_wf op ->
  utxo_wf (utxo_step u op).1 /\
  spec_step (coins u) op = (coins (utxo_step u op).1, (utxo_step u op).2).
Proof.
  intros Hu Hop. destruct op as [id c|id]; simpl in *.
  - rewrite insert_coin_spec by done. destruct (insert_coin u id c) eqn:Hi; [|done].
    split; [|done]. apply fits_pos in Hop. by eapply insert_coin_wf.
  - rewrite consume_coin_spec by done. destruct (consume_coin u id) as [[c u']|] eqn:Hc; [|done].
    split; [|done]. by eapply consume_coin_wf.
Qed.

Lemma utxo_run_simulation u ops :
  utxo_wf u -> Forall op_wf ops ->
  utxo_wf (run utxo_step u ops).1 /\
  run spec_step (coins u) ops =
    (coins (run utxo_step u ops).1, (run utxo_step u ops).2).
Proof.
  intros Hu Hops. revert u Hu. induction Hops as [|op ops Hop Hops IH]; intros u Hu; [done|].
  cbn [run]. destruct (utxo_step_simulation u op Hu Hop) as [Hu' Hs].
  rewrite Hs. destruct (utxo_step u op) as [u1 r1]. simpl in Hu'. simpl.
  destruct (IH u1 Hu') as [Hw Hr]. rewrite Hr. by destruct (run utxo_step u1 ops).
Qed.

(** ** Encoding *)

Definition key_wf (h : list Z) : Prop := length h = HASH_SIZE.

Lemma dec_owner_key o rest :
  key_wf (owner_program o) -> dec_owner (enc_owner o ++ rest) = Some (o, rest).
Proof.
  destruct o as [id]. intros Hid. unfold dec_owner, enc_owner. simpl app.
  change (0 :: id ++ rest) with (le_bytes 1 0 ++ id ++ rest).
  rewrite dec_uint_enc by (simpl; lia). cbn [mbind option_bind]. simpl.
  by rewrite dec_raw_enc.
Qed.

Lemma dec_coin_enc c rest :
  coin_wf c /\ key_wf (owner_program (cu_owner c)) ->
  dec_coin (enc_coin c ++ rest) = Some (c, rest).
Proof.
  intros [Hc Ho]. unfold coin_wf in Hc. unfold dec_coin, enc_coin. rewrite <- app_assoc.
  rewrite dec_uint_enc by (change (256 ^ Z.of_nat 8) with (2 ^ 64); lia).
  cbn [mbind option_bind]. rewrite dec_owner_key by done. by destruct c.
Qed.

(** Identifiers are 32-byte arrays. *)
Definition keys_wf (u : UtxoSet) : Prop :=
  map_Forall (fun id c => key_wf id /\ key_wf (owner_program (cu_owner c))) (coins u).

Lemma dec_utxo_set_enc u rest :
  utxo_wf u -> keys_wf u -> utxo_len u < 2 ^ 32 ->
  dec_utxo_set (enc_utxo_set u ++ rest) = Some (u, rest).
Proof.
  intros Hu Hk Hlen. unfold dec_utxo_set, enc_utxo_set. rewrite <- app_assoc.
  rewrite (dec_map_enc _ _ (fun c => coin_wf c /\ key_wf (owner_program (cu_owner c)))).
  - cbn [mbind option_bind]. pose proof (value_of_nonneg _ (utxo_amounts _ Hu)).
    pose proof (utxo_bound _ Hu). pose proof (utxo_total _ Hu).
    rewrite dec_uint_enc by (change (256 ^ Z.of_nat 8) with (2 ^ 64); lia).
    cbn [mbind option_bind]. do 2 f_equal. destruct u as [c t b]. simpl in *. f_equal.
    eapply index_exact_unique; [apply index_rebuild_exact|apply (utxo_index _ Hu)].
  - intros c r. apply dec_coin_enc.
  - intros id c Hid. destruct (Hk id c Hid). pose proof (utxo_amounts _ Hu id c Hid). auto.
  - done.
Qed.

Lemma utxo_canonical_encoded_len_exact u :
  keys_wf u -> utxo_len u < 2 ^ 32 ->
  utxo_canonical_encoded_len u = Some (Z.of_nat (length (enc_utxo_set u))).
Proof.
  intros Hk Hlen. unfold utxo_canonical_encoded_len, enc_utxo_set, canonical_fixed_map_length.
  rewrite length_app, (enc_map_length _ _ (8 + 33)).
  - change coin_entry_width with 73. rewrite length_le_bytes.
    unfold utxo_len in *. unfold try_from, checked_mul, checked_add.
    repeat (rewrite (proj2 (Z.ltb_lt _ _)) by lia; cbn [mbind option_bind]).
    f_equal. unfold HASH_SIZE. lia.
  - intros id c Hid. destruct (Hk id c Hid) as [Hi Ho]. split; [done|].
    unfold enc_coin, enc_owner. rewrite length_app, length_le_bytes. cbn [length]. by rewrite Ho.
Qed.

(** ** Properties *)

Section claims.
Let id1 : list Z := replicate HASH_SIZE 1.
Let id2 : list Z := replicate HASH_SIZE 2.
Let alice : Owner := Program (replicate HASH_SIZE 3).
Let coin5 : CoinUtxo := {| cu_amount := 5; cu_owner := alice |}.
Let store : UtxoSet := (run utxo_step utxo_empty [OpInsert id1 coin5]).1.

#[local] Lemma store_wf : utxo_wf store.
Proof. apply utxo_run_simulation; [apply utxo_empty_wf|]. by repeat constructor. Qed.

(** The coin store refines a finite map. Any sequence of insertions and
    consumptions, failing calls included, run from the empty store keeps the
    invariant (cached total equal to the sum of the outputs and below 2^64,
    positive amounts, index equal to the ownership relation) and returns, call
    by call, the results and errors of the map with no cache and no index. *)
Theorem utxo_refines_map ops :
  Forall op_wf ops ->
  let '(u, results) := run utxo_step utxo_empty ops in
  utxo_wf u /\ run spec_step ∅ ops = (coins u, results).
Proof.
  intros Hops. destruct (utxo_run_simulation utxo_empty ops utxo_empty_wf Hops) as [Hu Hr].
  simpl in Hr. rewrite Hr. by destruct (run utxo_step utxo_empty ops).
Qed.

Lemma utxo_refines_map_witness :
  let '(u, results) := run utxo_step utxo_empty
    [OpInsert id1 coin5; OpInsert id1 coin5; OpConsume id1; OpConsume id1] in
  utxo_wf u /\ run spec_step ∅
    [OpInsert id1 coin5; OpInsert id1 coin5; OpConsume id1; OpConsume id1] = (coins u, results).
Proof.
  apply (utxo_refines_map
    [OpInsert id1 coin5; OpInsert id1 coin5; OpConsume id1; OpConsume id1]).
  by repeat constructor.
Defined.

(** Insertion and consumption are inverse: consuming a coin just
    inserted, or inserting back a coin just consumed, restores the whole store,
    cached total and owner index included. *)
Theorem utxo_insert_consume_inverse u id :
  utxo_wf u ->
  (forall c u', 0 <= cu_amount c -> insert_coin u id c = Ok u' -> consume_coin u' id = Ok (c, u)) /\
  (forall c u', consume_coin u id = Ok (c, u') -> insert_coin u' id c = Ok u).
Proof.
  intros Hu. split; intros c u'.
  - intros Hc. by apply insert_consume_id.
  - by apply consume_insert_id.
Qed.

Lemma utxo_insert_consume_inverse_witness :
  exists u', insert_coin store id2 coin5 = Ok u' /\ consume_coin u' id2 = Ok (coin5, store).
Proof.
  destruct (insert_coin_total store id2 coin5) as [u' Hu']; [done..|].
  exists u'. split; [done|].
  apply (utxo_insert_consume_inverse store id2 store_wf); [vm_compute; discriminate|done].
Defined.

(** Owner lookup is exact: the coins listed for an owner are the owner's
    coins of the canonical map, each once, in increasing identifier order. *)
Theorem coins_by_owner_exact u o :
  utxo_wf u ->
  (forall id c, (id, c) ∈ coins_by_owner u o <-> coins u !! id = Some c /\ cu_owner c = o) /\
  NoDup (coins_by_owner u o).*1 /\
  StronglySorted (fun a b => Is_true (lex_leb a b)) (coins_by_owner u o).*1.
Proof.
  intros Hu. split_and!.
  - intros id c. by apply elem_of_coins_by_owner.
  - rewrite coins_by_owner_keys by done. apply NoDup_sorted_ids.
  - rewrite coins_by_owner_keys by done. apply Sorted_sorted_ids.
Qed.

Lemma coins_by_owner_exact_witness :
  (id1, coin5) ∈ coins_by_owner store alice <->
  coins store !! id1 = Some coin5 /\ cu_owner coin5 = alice.
Proof. apply (coins_by_owner_exact store alice store_wf). Defined.

(** The encoding round-trips although it skips the index: decoding the
    canonical bytes of a store rebuilds the same store, owner index included,
    and the length the store reports without encoding is the encoded length. *)
Theorem utxo_set_round_trip u rest :
  utxo_wf u -> keys_wf u -> utxo_len u < 2 ^ 32 ->
  dec_utxo_set (enc_utxo_set u ++ rest) = Some (u, rest) /\
  utxo_canonical_encoded_len u = Some (Z.of_nat (length (enc_utxo_set u))).
Proof.
  intros. split; [by apply dec_utxo_set_enc|by apply utxo_canonical_encoded_len_exact].
Qed.

Lemma utxo_set_round_trip_witness :
  dec_utxo_set (enc_utxo_set store ++ [7]) = Some (store, [7]) /\
  utxo_canonical_encoded_len store = Some (Z.of_nat (length (enc_utxo_set store))).
Proof.
  apply (utxo_set_round_trip store [7]); [exact store_wf| |vm_compute; reflexivity].
  unfold keys_wf. change (coins store) with (<[id1 := coin5]> (∅ : gmap (list Z) CoinUtxo)).
  apply map_Forall_insert_2; [split; reflexivity|]. apply map_Forall_empty.
Defined.
End claims.
