(* ===== verification/Assets.v ===== *)
(** * Asset state, monetary operations and rollback journals

    Models [kernel/src/ledger/utxo/asset.rs] and its submodules [index],
    [operations], [journal] and [encoding]: the asset records and shares with
    their derived indexes, the four monetary operations, the footprint
    snapshot taken before an operation, rollback and journal composition.  The
    supply audit cache is a field of the state here and is maintained by the
    operations; what it guarantees is proved in [AssetAudit]. *)

From S2P Require Import Prelude Codec Monetary Index.
#[local] Open Scope Z_scope.

(** ** Root identity

    [StateMap::shares_root] compares the addresses of two tree roots.  Shared
    roots hold the same map; equal maps need not share a root.  The model takes
    the test as a parameter with that one law. *)
Class RootTest := shares_root : forall {V : Type}, gmap (list Z) V -> gmap (list Z) V -> bool.

Class RootTestSpec `{RootTest} :=
  shares_root_eq : forall {V} (m m' : gmap (list Z) V), shares_root m m' = true -> m = m'.

(** ** State *)

Record ValidatedAssetRoots := {
  key_records : gmap (list Z) AssetRecord;
  key_shares : gmap (list Z) AssetShare;
  key_totals : gmap (list Z) Z;
  key_dirty : gset (list Z);
}.

Record AssetState := {
  records : gmap (list Z) AssetRecord;
  shares : gmap (list Z) AssetShare;
  share_index : gmap Owner (gmap (list Z) (gset (list Z)));
  owner_asset_balances : gmap (Owner * list Z) Z;
  asset_roles : gmap Owner (gset (list Z));
  supply_cache : option ValidatedAssetRoots;
}.

Definition assets_empty : AssetState :=
  {| records := ∅; shares := ∅; share_index := ∅; owner_asset_balances := ∅;
     asset_roles := ∅; supply_cache := None |}.

(** Rust's [PartialEq]: the audit cache never takes part in equality. *)
Record assets_eq (s t : AssetState) : Prop := {
  eq_records : records s = records t;
  eq_shares : shares s = shares t;
  eq_index : share_index s = share_index t;
  eq_balances : owner_asset_balances s = owner_asset_balances t;
  eq_roles : asset_roles s = asset_roles t;
}.

#[global] Instance assets_equiv : Equiv AssetState := assets_eq.

#[global] Instance assets_equivalence : Equivalence (≡@{AssetState}).
Proof.
  split.
  - by intros s.
  - intros s t []. by constructor.
  - intros s t u [] []. constructor; by etransitivity.
Qed.

Record ExecutionContext := { actor : Owner; commitment : Hash }.

Record AssetJournal := {
  j_records : list (list Z * option AssetRecord);
  j_shares : list (list Z * option AssetShare);
}.

(** Field updates. *)
Definition set_records (r : gmap (list Z) AssetRecord) (s : AssetState) : AssetState :=
  {| records := r; shares := shares s; share_index := share_index s;
     owner_asset_balances := owner_asset_balances s; asset_roles := asset_roles s;
     supply_cache := supply_cache s |}.

Definition set_roles (r : gmap Owner (gset (list Z))) (s : AssetState) : AssetState :=
  {| records := records s; shares := shares s; share_index := share_index s;
     owner_asset_balances := owner_asset_balances s; asset_roles := r;
     supply_cache := supply_cache s |}.

Definition set_cache (c : option ValidatedAssetRoots) (s : AssetState) : AssetState :=
  {| records := records s; shares := shares s; share_index := share_index s;
     owner_asset_balances := owner_asset_balances s; asset_roles := asset_roles s;
     supply_cache := c |}.

(** ** Indexes *)

Definition add_balance (key : Owner * list Z) (amount : Z) (balances : gmap (Owner * list Z) Z)
    : gmap (Owner * list Z) Z :=
  <[key := Unit.saturating_add (default 0 (balances !! key)) amount]> balances.

Definition sub_balance (key : Owner * list Z) (amount : Z) (balances : gmap (Owner * list Z) Z)
    : gmap (Owner * list Z) Z :=
  let balance :=
    default 0 (balance ← balances !! key; Unit.checked_sub balance amount) in
  if Unit.is_zero balance then delete key balances else <[key := balance]> balances.

Definition rebuild_owner_index (self : AssetState) : AssetState :=
  {| records := records self; shares := shares self;
     share_index :=
       map_fold (fun id share ix => index2_add (owner share) (asset share) id ix) ∅ (shares self);
     owner_asset_balances :=
       map_fold (fun _ share b => add_balance (owner share, asset share) (amount share) b)
         ∅ (shares self);
     asset_roles :=
       map_fold (fun asset record roles =>
         index_add (mint_authority (metadata record)) asset
           (index_add (creator (metadata record)) asset roles)) ∅ (records self);
     supply_cache := supply_cache self |}.

Definition index_asset_role (asset : list Z) (owner : Owner) (self : AssetState) : AssetState :=
  set_roles (index_add owner asset (asset_roles self)) self.

Definition unindex_asset_role (asset : list Z) (owner : Owner) (self : AssetState) : AssetState :=
  set_roles (index_remove owner asset (asset_roles self)) self.

Definition remove_share (id : list Z) (self : AssetState) : AssetState :=
  match shares self !! id with
  | None => self
  | Some share =>
      {| records := records self;
         shares := delete id (shares self);
         share_index := index2_remove (owner share) (asset share) id (share_index self);
         owner_asset_balances :=
           sub_balance (owner share, asset share) (amount share) (owner_asset_balances self);
         asset_roles := asset_roles self;
         supply_cache := supply_cache self |}
  end.

Definition put_share (id : list Z) (share : AssetShare) (self : AssetState) : AssetState :=
  if decide (shares self !! id = Some share) then self
  else
    let self := remove_share id self in
    {| records := records self;
       shares := <[id := share]> (shares self);
       share_index := index2_add (owner share) (asset share) id (share_index self);
       owner_asset_balances :=
         add_balance (owner share, asset share) (amount share) (owner_asset_balances self);
       asset_roles := asset_roles self;
       supply_cache := supply_cache self |}.

Definition balance_by_owner_asset (self : AssetState) (owner : Owner) (asset : list Z) : Z :=
  default 0 (owner_asset_balances self !! (owner, asset)).

Definition share_count_by_owner_asset (self : AssetState) (owner : Owner) (asset : list Z) : Z :=
  Z.of_nat (size (index_get (index2_get (share_index self) owner) asset)).

Definition assets_by_owner_role (self : AssetState) (owner : Owner) : list (list Z) :=
  sorted_ids (index_get (asset_roles self) owner).

Definition assets_by_owner_shares (self : AssetState) (owner : Owner) : list (list Z) :=
  sorted_ids (dom (index2_get (share_index self) owner)).

(** Ordered by share identifier; entries resolve through the primary map. *)
Definition shares_by_owner_asset (self : AssetState) (o : Owner) (a : list Z)
    : list (list Z * AssetShare) :=
  omap (fun id =>
          share ← shares self !! id;
          if decide (owner share = o /\ asset share = a) then Some (id, share) else None)
       (sorted_ids (index_get (index2_get (share_index self) o) a)).

Fixpoint input_total_loop (self : AssetState) (asset_id : list Z) (actor : Owner)
    (inputs : list (list Z)) (total : Z) : result AssetError Z :=
  match inputs with
  | [] => Ok total
  | input :: rest =>
      share ← ok_or (shares self !! input) UnknownObject;
      fail_if negb (bool_decide (asset share = asset_id)) with AssetMismatch;
      fail_if negb (bool_decide (owner share = actor)) with Unauthorized;
      total ← ok_or (Unit.checked_add total (amount share)) BalanceOverflow;
      input_total_loop self asset_id actor rest total
  end.

Definition input_total (self : AssetState) (asset_id : list Z) (inputs : list (list Z))
    (actor : Owner) : result AssetError Z :=
  input_total_loop self asset_id actor inputs 0.

Section operations.
Context `{Sha3} `{RootTest}.

Definition insert_share (asset : list Z) (commitment : Hash) (index amount : Z) (owner : Owner)
    (self : AssetState) : result AssetError AssetState :=
  index ← ok_or (try_from 32 index) InvalidProgram;
  let id := share_derive asset commitment index in
  fail_if bool_decide (is_Some (shares self !! id)) with ShareAlreadyExists;
  Ok (put_share id {| asset := asset; amount := amount; owner := owner |} self).

(** ** Monetary operations *)

Definition register_asset (call : Register) (context : ExecutionContext)
    : ST AssetState AssetError unit :=
  metadata ← st_lift (metadata_new (rg_name call) (rg_max_supply call) (actor context)
                       (rg_mint_authority call));
  _ ← st_require (negb (Unit.is_zero (rg_initial_mint call)
                        || (rg_max_supply call <? rg_initial_mint call))) InvalidAmount;
  let asset := asset_derive metadata (rg_nonce call) in
  _ ← st_check (fun self => fail_if bool_decide (is_Some (records self !! asset))
                            with AssetAlreadyExists; Ok tt);
  _ ← st_update (insert_share asset (commitment context) 0 (rg_initial_mint call) (actor context));
  _ ← st_modify (fun self => set_records (<[asset :=
        {| metadata := metadata; supply := rg_initial_mint call;
           total_minted := rg_initial_mint call; mint_nonce := 0; total_burned := 0 |}]>
        (records self)) self);
  _ ← st_modify (index_asset_role asset (actor context));
  st_modify (index_asset_role asset (rg_mint_authority call)).

(** Writing back an accounting record fetched with [get_mut]. *)
Definition update_record (asset : list Z) (f : AssetRecord -> AssetRecord) (self : AssetState)
    : result AssetError AssetState :=
  record ← ok_or (records self !! asset) UnknownAsset;
  Ok (set_records (<[asset := f record]> (records self)) self).

Definition mint_asset (call : Mint) (context : ExecutionContext)
    : ST AssetState AssetError unit :=
  _ ← st_require (negb (Unit.is_zero (mt_amount call))) InvalidAmount;
  record ← st_check (fun self => ok_or (records self !! mt_asset call) UnknownAsset);
  _ ← st_require (bool_decide (mint_authority (metadata record) = actor context)) Unauthorized;
  next ← st_lift (ok_or (checked_add 64 (mint_nonce record) 1) InvalidMintNonce);
  _ ← st_require (mt_nonce call =? next) InvalidMintNonce;
  new_supply ← st_lift (ok_or (Unit.checked_add (supply record) (mt_amount call)) SupplyOverflow);
  _ ← st_require (negb (max_supply (metadata record) <? new_supply)) SupplyOverflow;
  minted ← st_lift (ok_or (Unit.checked_add (total_minted record) (mt_amount call)) SupplyOverflow);
  _ ← st_require (negb (max_supply (metadata record) <? minted)) SupplyOverflow;
  _ ← st_update (insert_share (mt_asset call) (commitment context) 0 (mt_amount call)
                   (mt_recipient call));
  st_update (update_record (mt_asset call) (fun record =>
    {| metadata := metadata record; supply := new_supply; total_minted := minted;
       mint_nonce := mt_nonce call; total_burned := total_burned record |})).

Fixpoint output_sum (outputs : list AssetOutput) (total : Z) : result AssetError Z :=
  match outputs with
  | [] => Ok total
  | output :: rest =>
      fail_if Unit.is_zero (ao_amount output) with InvalidAmount;
      total ← ok_or (Unit.checked_add total (ao_amount output)) BalanceOverflow;
      output_sum rest total
  end.

Definition transfer_asset (call : Transfer) (context : ExecutionContext)
    : ST AssetState AssetError unit :=
  _ ← st_check (fun self => ok_or (records self !! tr_asset call) UnknownAsset);
  _ ← st_require (negb (bool_decide (tr_inputs call = []) || bool_decide (tr_outputs call = [])))
        InvalidProgram;
  _ ← st_lift (ensure_unique_asset_inputs (tr_inputs call));
  total_in ← st_check (fun self =>
    input_total self (tr_asset call) (tr_inputs call) (actor context));
  total_out ← st_lift (output_sum (tr_outputs call) 0);
  _ ← st_require (total_in =? total_out) InvalidAmount;
  _ ← st_iter (fun input => st_modify (remove_share input)) (tr_inputs call);
  st_iter (fun '(index, output) =>
    st_update (insert_share (tr_asset call) (commitment context) index (ao_amount output)
                 (ao_recipient output)))
    (zip (Z.of_nat <$> seq 0 (length (tr_outputs call))) (tr_outputs call)).

Definition burn_asset (call : Burn) (context : ExecutionContext)
    : ST AssetState AssetError unit :=
  _ ← st_require (negb (bool_decide (bn_inputs call = []) || Unit.is_zero (bn_amount call)))
        InvalidAmount;
  _ ← st_lift (ensure_unique_asset_inputs (bn_inputs call));
  total_in ← st_check (fun self =>
    input_total self (bn_asset call) (bn_inputs call) (actor context));
  expected ← st_lift (ok_or (Unit.checked_add (bn_amount call) (bn_output call)) BalanceOverflow);
  _ ← st_require (total_in =? expected) InvalidAmount;
  record ← st_check (fun self => ok_or (records self !! bn_asset call) UnknownAsset);
  new_supply ← st_lift (ok_or (Unit.checked_sub (supply record) (bn_amount call)) SupplyOverflow);
  burned ← st_lift (ok_or (Unit.checked_add (total_burned record) (bn_amount call)) SupplyOverflow);
  _ ← st_iter (fun input => st_modify (remove_share input)) (bn_inputs call);
  _ ← (if Unit.is_zero (bn_output call) then mret tt
       else st_update (insert_share (bn_asset call) (commitment context) 0 (bn_output call)
                         (actor context)));
  st_update (update_record (bn_asset call) (fun record =>
    {| metadata := metadata record; supply := new_supply; total_minted := total_minted record;
       mint_nonce := mint_nonce record; total_burned := burned |})).

Definition apply_monetary_operation (call : AssetCall) (context : ExecutionContext)
    : ST AssetState AssetError unit :=
  match call with
  | CallRegister call => register_asset call context
  | CallMint call => mint_asset call context
  | CallTransfer call => transfer_asset call context
  | CallBurn call => burn_asset call context
  end.

(** ** Supply summary maintained across mutations *)

Definition supply_snapshot (self : AssetState) : option ValidatedAssetRoots :=
  key ← supply_cache self;
  if shares_root (records self) (key_records key) && shares_root (shares self) (key_shares key)
  then Some key else None.

Definition total_of (totals : gmap (list Z) Z) (asset : list Z) : Z := default 0 (totals !! asset).

(** The loop that subtracts the old shares of a journal. *)
Fixpoint subtract_old (journal_shares : list (list Z * option AssetShare))
    (totals : gmap (list Z) Z) (dirty : gset (list Z)) : option (gmap (list Z) Z * gset (list Z)) :=
  match journal_shares with
  | [] => Some (totals, dirty)
  | (_, None) :: rest => subtract_old rest totals dirty
  | (_, Some share) :: rest =>
      if Unit.is_zero (amount share) then None
      else
        total ← Unit.checked_sub (total_of totals (asset share)) (amount share);
        subtract_old rest
          (if Unit.is_zero total then delete (asset share) totals
           else <[asset share := total]> totals)
          ({[asset share]} ∪ dirty)
  end.

(** The loop that adds the live shares under the journal's keys. *)
Fixpoint add_new (live : gmap (list Z) AssetShare)
    (journal_shares : list (list Z * option AssetShare))
    (totals : gmap (list Z) Z) (dirty : gset (list Z)) : option (gmap (list Z) Z * gset (list Z)) :=
  match journal_shares with
  | [] => Some (totals, dirty)
  | (id, _) :: rest =>
      match live !! id with
      | None => add_new live rest totals dirty
      | Some share =>
          if Unit.is_zero (amount share) then None
          else
            total ← Unit.checked_add (total_of totals (asset share)) (amount share);
            add_new live rest (<[asset share := total]> totals) ({[asset share]} ∪ dirty)
      end
  end.

Definition advance_supply_summary (previous : option ValidatedAssetRoots)
    (journal : AssetJournal) (self : AssetState) : AssetState :=
  let updated :=
    key ← previous;
    let dirty := list_to_set (j_records journal).*1 ∪ key_dirty key in
    '(totals, dirty) ← subtract_old (j_shares journal) (key_totals key) dirty;
    '(totals, dirty) ← add_new (shares self) (j_shares journal) totals dirty;
    Some {| key_records := records self; key_shares := shares self;
            key_totals := totals; key_dirty := dirty |} in
  set_cache updated self.

(** ** Journals *)

(** The asset, the inputs and the number of outputs an operation touches. *)
Definition operation_footprint (call : AssetCall) (context : ExecutionContext)
    : result AssetError (list Z * list (list Z) * nat) :=
  match call with
  | CallRegister call =>
      metadata ← metadata_new (rg_name call) (rg_max_supply call) (actor context)
                   (rg_mint_authority call);
      Ok (asset_derive metadata (rg_nonce call), [], 1%nat)
  | CallMint call => Ok (mt_asset call, [], 1%nat)
  | CallTransfer call => Ok (tr_asset call, tr_inputs call, length (tr_outputs call))
  | CallBurn call =>
      Ok (bn_asset call, bn_inputs call, if Unit.is_zero (bn_output call) then 0%nat else 1%nat)
  end.

Definition output_id (asset : list Z) (context : ExecutionContext) (index : nat)
    : result AssetError (list Z) :=
  index ← ok_or (try_from 32 (Z.of_nat index)) InvalidProgram;
  Ok (share_derive asset (commitment context) index).

Definition snapshot_operation (self : AssetState) (call : AssetCall) (context : ExecutionContext)
    : result AssetError AssetJournal :=
  '(asset, inputs, outputs) ← operation_footprint call context;
  ids ← collect (output_id asset context) (seq 0 outputs);
  let keys := list_to_set inputs ∪ list_to_set ids in
  Ok {| j_records := [(asset, records self !! asset)];
        j_shares := (fun key => (key, shares self !! key)) <$> sorted_ids keys |}.

(** Collecting the present values of a journal into a map. *)
Definition present {V} (entries : list (list Z * option V)) : gmap (list Z) V :=
  list_to_map (rev (omap (fun '(key, value) => v ← value; Some (key, v)) entries)).

Definition operation_view (self : AssetState) (call : AssetCall) (context : ExecutionContext)
    : result AssetError AssetState :=
  journal ← snapshot_operation self call context;
  Ok (rebuild_owner_index
        {| records := present (j_records journal); shares := present (j_shares journal);
           share_index := ∅; owner_asset_balances := ∅; asset_roles := ∅;
           supply_cache := None |}).

Definition rollback_record (self : AssetState) (entry : list Z * option AssetRecord) : AssetState :=
  let '(key, previous) := entry in
  let current := records self !! key in
  if decide (current = previous) then self
  else
    let self :=
      match current with
      | Some record =>
          unindex_asset_role key (mint_authority (metadata record))
            (unindex_asset_role key (creator (metadata record)) self)
      | None => self
      end in
    match previous with
    | Some record =>
        let self := index_asset_role key (mint_authority (metadata record))
                      (index_asset_role key (creator (metadata record)) self) in
        set_records (<[key := record]> (records self)) self
    | None => set_records (delete key (records self)) self
    end.

Definition rollback_share (self : AssetState) (entry : list Z * option AssetShare) : AssetState :=
  match entry with
  | (key, Some share) => put_share key share self
  | (key, None) => remove_share key self
  end.

Definition rollback (journal : AssetJournal) (self : AssetState) : AssetState :=
  let previous_supply := supply_snapshot self in
  let before :=
    {| j_records := (fun '(key, _) => (key, records self !! key)) <$> j_records journal;
       j_shares := (fun '(key, _) => (key, shares self !! key)) <$> j_shares journal |} in
  let self := fold_left rollback_record (j_records journal) self in
  let self := fold_left rollback_share (j_shares journal) self in
  advance_supply_summary previous_supply before self.

(** Entries of a vector collected into a map; the first journal's values win. *)
Definition merge_entries {V} (first next : list (list Z * option V)) : list (list Z * option V) :=
  sorted_entries (fold_left (fun m '(key, previous) =>
    match m !! key with Some _ => m | None => <[key := previous]> m end)
    next (list_to_map (rev first) : gmap (list Z) (option V))).

Definition merge (self next : AssetJournal) : AssetJournal :=
  {| j_records := merge_entries (j_records self) (j_records next);
     j_shares := merge_entries (j_shares self) (j_shares next) |}.

(** Only the entries whose value changed are kept. *)
Definition retain_changed {V} `{EqDecision V} (live : gmap (list Z) V)
    (entries : list (list Z * option V)) : list (list Z * option V) :=
  List.filter (fun '(key, previous) => negb (bool_decide (live !! key = previous))) entries.

Definition apply (call : AssetCall) (context : ExecutionContext)
    : ST AssetState AssetError AssetJournal :=
  fun self =>
  match decode (opcode_u8 (call_opcode call)) (enc_call call) with
  | Err _ => (self, Err InvalidProgram)
  | Ok _ =>
      let previous_supply := supply_snapshot self in
      match snapshot_operation self call context with
      | Err error => (self, Err error)
      | Ok journal =>
          match apply_monetary_operation call context self with
          | (self, Err error) =>
              let self := rollback journal self in
              (set_cache (key ← previous_supply;
                          Some {| key_records := records self; key_shares := shares self;
                                  key_totals := key_totals key; key_dirty := key_dirty key |}) self,
               Err error)
          | (self, Ok _) =>
              let journal :=
                {| j_records := retain_changed (records self) (j_records journal);
                   j_shares := retain_changed (shares self) (j_shares journal) |} in
              (advance_supply_summary previous_supply journal self, Ok journal)
          end
      end
  end.
End operations.

(** ** Encoding *)

Definition dec_metadata (bytes : list Z) : option (Metadata * list Z) :=
  '(name, bytes) ← dec_string bytes;
  '(max_supply, bytes) ← dec_uint 16 bytes;
  '(creator, bytes) ← dec_owner bytes;
  '(mint_authority, bytes) ← dec_owner bytes;
  Some ({| name := name; max_supply := max_supply; creator := creator;
           mint_authority := mint_authority |}, bytes).

Definition dec_record (bytes : list Z) : option (AssetRecord * list Z) :=
  '(metadata, bytes) ← dec_metadata bytes;
  '(supply, bytes) ← dec_uint 16 bytes;
  '(total_minted, bytes) ← dec_uint 16 bytes;
  '(mint_nonce, bytes) ← dec_uint 8 bytes;
  '(total_burned, bytes) ← dec_uint 16 bytes;
  Some ({| metadata := metadata; supply := supply; total_minted := total_minted;
           mint_nonce := mint_nonce; total_burned := total_burned |}, bytes).

Definition dec_share (bytes : list Z) : option (AssetShare * list Z) :=
  '(asset, bytes) ← dec_raw HASH_SIZE bytes;
  '(amount, bytes) ← dec_uint 16 bytes;
  '(owner, bytes) ← dec_owner bytes;
  Some ({| asset := asset; amount := amount; owner := owner |}, bytes).

Definition enc_assets (self : AssetState) : list Z :=
  enc_map enc_record (records self) ++ enc_map enc_share (shares self).

Definition dec_assets (bytes : list Z) : option (AssetState * list Z) :=
  '(records, bytes) ← dec_map dec_record bytes;
  '(shares, bytes) ← dec_map dec_share bytes;
  Some (rebuild_owner_index
          {| records := records; shares := shares; share_index := ∅;
             owner_asset_balances := ∅; asset_roles := ∅; supply_cache := None |}, bytes).
