(* ===== verification/AssetFacts.v ===== *)
(** * Asset invariants: indexes, supply, atomicity, rollback

    What the operations of [Assets] keep: the derived indexes are exactly the
    relations of the canonical tables, every record's supply is the sum of its
    live shares, an operation only touches the footprint snapshotted before
    it, and rollback restores what the operation changed. *)

From S2P Require Import Prelude Codec Monetary Index Assets.
#[local] Open Scope Z_scope.

(** ** Derived indexes as relations of the tables *)

Definition share_rel (m : gmap (list Z) AssetShare) (o : Owner) (a id : list Z) : Prop :=
  exists s, m !! id = Some s /\ owner s = o /\ asset s = a.

Definition role_rel (m : gmap (list Z) AssetRecord) (o : Owner) (a : list Z) : Prop :=
  exists r, m !! a = Some r /\ (creator (metadata r) = o \/ mint_authority (metadata r) = o).

Definition owned (o : Owner) (a : list Z) (s : AssetShare) : Z :=
  if decide (owner s = o /\ asset s = a) then amount s else 0.

Definition of_asset (a : list Z) (s : AssetShare) : Z :=
  if decide (asset s = a) then amount s else 0.

Definition owner_total (m : gmap (list Z) AssetShare) (o : Owner) (a : list Z) : Z :=
  map_sum (fun _ => owned o a) m.

Definition asset_total (m : gmap (list Z) AssetShare) (a : list Z) : Z :=
  map_sum (fun _ => of_asset a) m.

(** Balances are kept only when they are not zero. *)
Definition nonzero (z : Z) : option Z := if decide (z = 0) then None else Some z.

Definition positive (m : gmap (list Z) AssetShare) : Prop :=
  map_Forall (fun _ s => 0 < amount s) m.

Record indexes_ok (st : AssetState) : Prop := {
  ix_positive : positive (shares st);
  ix_bound a : asset_total (shares st) a < 2 ^ 128;
  ix_shares : index2_exact (share_index st) (share_rel (shares st));
  ix_balances o a : owner_asset_balances st !! (o, a) = nonzero (owner_total (shares st) o a);
  ix_roles : index_exact (asset_roles st) (role_rel (records st));
}.

(** The indexes of identifiers, without the balances. *)
Record links_ok (st : AssetState) : Prop := {
  lk_shares : index2_exact (share_index st) (share_rel (shares st));
  lk_roles : index_exact (asset_roles st) (role_rel (records st));
}.

Lemma indexes_links st : indexes_ok st -> links_ok st.
Proof. by intros []. Qed.

Lemma indexes_unique st st' :
  indexes_ok st -> indexes_ok st' -> records st = records st' -> shares st = shares st' ->
  st ≡ st'.
Proof.
  intros [_ _ Hx Hb Hr] [_ _ Hx' Hb' Hr'] Hrec Hsh. constructor; [done|done| | |].
  - eapply index2_exact_unique; [exact Hx|by rewrite Hsh].
  - apply map_eq. intros [o a]. by rewrite Hb, Hb', Hsh.
  - eapply index_exact_unique; [exact Hr|by rewrite Hrec].
Qed.

Lemma owned_nonneg m o a : positive m -> forall k s, m !! k = Some s -> 0 <= owned o a s.
Proof.
  intros Hm k s Hk. specialize (Hm k s Hk). cbn beta in Hm. unfold owned. case_decide; lia.
Qed.

Lemma of_asset_nonneg m a : positive m -> forall k s, m !! k = Some s -> 0 <= of_asset a s.
Proof.
  intros Hm k s Hk. specialize (Hm k s Hk). cbn beta in Hm. unfold of_asset. case_decide; lia.
Qed.

Lemma owner_total_nonneg m o a : positive m -> 0 <= owner_total m o a.
Proof. intros Hm. apply map_sum_nonneg. intros k s. by apply owned_nonneg. Qed.

Lemma asset_total_nonneg m a : positive m -> 0 <= asset_total m a.
Proof. intros Hm. apply map_sum_nonneg. intros k s. by apply of_asset_nonneg. Qed.

Lemma owner_total_le m o a : positive m -> owner_total m o a <= asset_total m a.
Proof.
  intros Hm. apply map_sum_le. intros k s Hk. specialize (Hm k s Hk). cbn beta in Hm.
  unfold owned, of_asset. repeat case_decide; naive_solver lia.
Qed.

Lemma owner_total_insert m o a id s :
  m !! id = None -> owner_total (<[id := s]> m) o a = owned o a s + owner_total m o a.
Proof. intros Hid. apply (map_sum_insert (fun _ => owned o a) m id s Hid). Qed.

Lemma asset_total_insert m a id s :
  m !! id = None -> asset_total (<[id := s]> m) a = of_asset a s + asset_total m a.
Proof. intros Hid. apply (map_sum_insert (fun _ => of_asset a) m id s Hid). Qed.

Lemma owner_total_delete m o a id s :
  m !! id = Some s -> owner_total (delete id m) o a = owner_total m o a - owned o a s.
Proof. intros Hid. unfold owner_total. rewrite (map_sum_delete _ m id s Hid). lia. Qed.

Lemma asset_total_delete m a id s :
  m !! id = Some s -> asset_total (delete id m) a = asset_total m a - of_asset a s.
Proof. intros Hid. unfold asset_total. rewrite (map_sum_delete _ m id s Hid). lia. Qed.

(** ** Removing and adding one share *)

Lemma records_remove_share id st : records (remove_share id st) = records st.
Proof. unfold remove_share. by destruct (shares st !! id). Qed.

Lemma shares_remove_share id st : shares (remove_share id st) = delete id (shares st).
Proof.
  unfold remove_share. destruct (shares st !! id) eqn:Hid; [done|]. by rewrite delete_id.
Qed.

Lemma records_put_share id s st : records (put_share id s st) = records st.
Proof. unfold put_share. case_decide; [done|]. simpl. apply records_remove_share. Qed.

Lemma shares_put_share id s st : shares (put_share id s st) = <[id := s]> (shares st).
Proof.
  unfold put_share. case_decide; [by rewrite insert_id|]. simpl.
  by rewrite shares_remove_share, insert_delete_eq.
Qed.

#[export] Hint Rewrite records_remove_share shares_remove_share records_put_share
  shares_put_share : xparq.

Lemma sub_balance_exact b m o a id s :
  positive m -> m !! id = Some s ->
  (forall o a, b !! (o, a) = nonzero (owner_total m o a)) ->
  sub_balance (owner s, asset s) (amount s) b !! (o, a) =
    nonzero (owner_total (delete id m) o a).
Proof.
  intros Hm Hid Hb. rewrite (owner_total_delete m o a id s Hid).
  specialize (Hm id s Hid) as Hs. cbn beta in Hs.
  assert (amount s <= owner_total m (owner s) (asset s)) as Hle.
  { pose proof (map_sum_lookup_le (fun _ => owned (owner s) (asset s)) m id s
      (owned_nonneg _ _ _ Hm) Hid) as Hle. cbn beta in Hle. unfold owned at 1 in Hle.
    rewrite decide_True in Hle by done. done. }
  assert (default 0 (balance ← b !! (owner s, asset s); Unit.checked_sub balance (amount s))
    = owner_total m (owner s) (asset s) - amount s) as Hd.
  { rewrite Hb. unfold nonzero. rewrite decide_False by lia. simpl.
    unfold Unit.checked_sub, checked_sub. by rewrite (proj2 (Z.ltb_ge _ _)). }
  unfold sub_balance. rewrite Hd. unfold Unit.is_zero.
  destruct (decide ((o, a) = (owner s, asset s))) as [[= -> ->]|Hne].
  - unfold owned. rewrite decide_True by done.
    destruct (Z.eqb_spec (owner_total m (owner s) (asset s) - amount s) 0) as [Hz|Hz].
    + rewrite lookup_delete_eq. unfold nonzero. by rewrite decide_True.
    + rewrite lookup_insert_eq. unfold nonzero. by rewrite decide_False.
  - unfold owned. rewrite decide_False by naive_solver. rewrite Z.sub_0_r, <- Hb.
    destruct (_ =? 0); by rewrite ?lookup_delete_ne, ?lookup_insert_ne by done.
Qed.

Lemma add_balance_exact b m o a id s :
  positive m -> m !! id = None -> 0 < amount s ->
  owner_total m (owner s) (asset s) + amount s < 2 ^ 128 ->
  (forall o a, b !! (o, a) = nonzero (owner_total m o a)) ->
  add_balance (owner s, asset s) (amount s) b !! (o, a) =
    nonzero (owner_total (<[id := s]> m) o a).
Proof.
  intros Hm Hid Hs Hlt Hb. rewrite owner_total_insert by done.
  assert (default 0 (b !! (owner s, asset s)) = owner_total m (owner s) (asset s)) as Hd.
  { rewrite Hb. unfold nonzero. by case_decide. }
  pose proof (owner_total_nonneg m (owner s) (asset s) Hm).
  unfold add_balance. rewrite Hd.
  destruct (decide ((o, a) = (owner s, asset s))) as [[= -> ->]|Hne].
  - rewrite lookup_insert_eq. unfold owned. rewrite decide_True by done.
    unfold Unit.saturating_add, saturating_add, nonzero. rewrite decide_False by lia.
    f_equal. lia.
  - rewrite lookup_insert_ne by done. rewrite Hb. unfold owned.
    rewrite decide_False by naive_solver. done.
Qed.

Lemma remove_share_links id st : links_ok st -> links_ok (remove_share id st).
Proof.
  intros [Hx Hr]. unfold remove_share. destruct (shares st !! id) as [s|] eqn:Hid; [|by constructor].
  constructor; simpl; [|done]. eapply index2_exact_ext; [by apply index2_remove_exact|].
  intros o a k. unfold share_rel. destruct (decide (k = id)) as [->|].
  - rewrite lookup_delete_eq, Hid. naive_solver.
  - rewrite lookup_delete_ne by done. naive_solver.
Qed.

Lemma put_share_links id s st : links_ok st -> links_ok (put_share id s st).
Proof.
  intros Hst. unfold put_share. case_decide; [done|].
  pose proof (remove_share_links id st Hst) as [Hx Hr].
  rewrite shares_remove_share in *. pose proof (lookup_delete_eq (shares st) id) as Hid.
  constructor; cbn [records shares share_index asset_roles]; rewrite ?shares_remove_share; [|done].
  eapply index2_exact_ext; [by apply index2_add_exact|].
  intros o a k. unfold share_rel. destruct (decide (k = id)) as [->|].
  - rewrite lookup_insert_eq, Hid. naive_solver.
  - rewrite lookup_insert_ne by done. naive_solver.
Qed.

Lemma remove_share_indexes id st : indexes_ok st -> indexes_ok (remove_share id st).
Proof.
  intros Hst. pose proof (remove_share_links id st (indexes_links st Hst)) as [Hx' Hr'].
  destruct Hst as [Hp Hbd Hx Hb Hr]. revert Hx' Hr'. unfold remove_share.
  destruct (shares st !! id) as [s|] eqn:Hid; [|by constructor]. intros Hx' Hr'. constructor; simpl; [| |done| |done].
  - by apply map_Forall_delete.
  - intros a. rewrite (asset_total_delete _ a id s Hid). specialize (Hbd a).
    pose proof (of_asset_nonneg _ a Hp id s Hid). lia.
  - intros o a. by apply sub_balance_exact.
Qed.

Lemma put_share_indexes id s st :
  indexes_ok st -> 0 < amount s ->
  asset_total (delete id (shares st)) (asset s) + amount s < 2 ^ 128 ->
  indexes_ok (put_share id s st).
Proof.
  intros Hst Hs Hlt. pose proof (put_share_links id s st (indexes_links st Hst)) as [Hx' Hr'].
  revert Hx' Hr'. unfold put_share. case_decide; [done|]. intros Hx' Hr'.
  pose proof (remove_share_indexes id st Hst) as [Hp Hbd _ Hb _].
  rewrite shares_remove_share in *. pose proof (lookup_delete_eq (shares st) id) as Hid.
  constructor; cbn [records shares share_index owner_asset_balances asset_roles] in *;
    rewrite ?shares_remove_share; [| |done| |done].
  - by apply map_Forall_insert_2.
  - intros a. rewrite asset_total_insert by done. unfold of_asset.
    specialize (Hbd a). case_decide; subst; lia.
  - intros o a. apply add_balance_exact; try done.
    pose proof (owner_total_le _ (owner s) (asset s) Hp). lia.
Qed.

(** ** Rebuilding from the tables *)

Lemma rebuild_indexes st :
  positive (shares st) -> (forall a, asset_total (shares st) a < 2 ^ 128) ->
  indexes_ok (rebuild_owner_index st).
Proof.
  intros Hp Hbd. constructor; cbn [rebuild_owner_index records shares share_index
    owner_asset_balances asset_roles]; [done|done| | |].
  - apply (map_fold_weak_ind (fun ix m => index2_exact ix (share_rel m))).
    + eapply index2_exact_ext; [apply index2_exact_empty|]. intros o a k. unfold share_rel.
      rewrite lookup_empty. naive_solver.
    + intros id s m ix Hid Hx. eapply index2_exact_ext; [by apply index2_add_exact|].
      intros o a k. unfold share_rel. destruct (decide (k = id)) as [->|].
      * rewrite lookup_insert_eq, Hid. naive_solver.
      * rewrite lookup_insert_ne by done. naive_solver.
  - revert Hp Hbd. apply (map_fold_weak_ind (fun b m => positive m ->
      (forall a, asset_total m a < 2 ^ 128) ->
      forall o a, b !! (o, a) = nonzero (owner_total m o a))).
    + intros _ _ o a. by rewrite lookup_empty.
    + intros id s m b Hid IH Hp Hbd o a.
      apply map_Forall_insert in Hp as [Hs Hp]; [|done].
      specialize (Hbd (asset s)) as Hlt. rewrite asset_total_insert in Hlt by done.
      unfold of_asset in Hlt. rewrite decide_True in Hlt by done.
      pose proof (owner_total_le m (owner s) (asset s) Hp).
      apply add_balance_exact; try done; [lia|]. apply IH; [done|].
      intros a'. specialize (Hbd a'). rewrite asset_total_insert in Hbd by done.
      unfold of_asset in Hbd. case_decide; lia.
  - apply (map_fold_weak_ind (fun ix m => index_exact ix (role_rel m))).
    + eapply index_exact_ext; [apply index_exact_empty|]. intros o a. unfold role_rel.
      rewrite lookup_empty. naive_solver.
    + intros a r m ix Ha Hx.
      eapply index_exact_ext; [by apply index_add_exact, index_add_exact|].
      intros o a'. unfold role_rel. destruct (decide (a' = a)) as [->|].
      * rewrite lookup_insert_eq, Ha. naive_solver.
      * rewrite lookup_insert_ne by done. naive_solver.
Qed.

(** ** Footprints *)

(** Nothing outside the asset's record and the listed shares changes. *)
Record framed (a : list Z) (keys : gset (list Z)) (s t : AssetState) : Prop := {
  framed_records k : k ≠ a -> records t !! k = records s !! k;
  framed_shares k : k ∉ keys -> shares t !! k = shares s !! k;
}.

#[global] Instance framed_preorder a keys : PreOrder (framed a keys).
Proof.
  split; [by split|]. intros s t u [Hr Hs] [Hr' Hs'].
  split; intros k Hk; [by rewrite Hr', Hr|by rewrite Hs', Hs].
Qed.

Lemma remove_share_framed a keys id st : id ∈ keys -> framed a keys st (remove_share id st).
Proof.
  intros Hid. split; intros k Hk; autorewrite with xparq; [done|].
  apply lookup_delete_ne. by intros ->.
Qed.

Lemma put_share_framed a keys id s st : id ∈ keys -> framed a keys st (put_share id s st).
Proof.
  intros Hid. split; intros k Hk; autorewrite with xparq; [done|].
  apply lookup_insert_ne. by intros ->.
Qed.

Lemma set_record_framed a keys r st : framed a keys st (set_records (<[a := r]> (records st)) st).
Proof. split; intros k Hk; [by apply lookup_insert_ne|done]. Qed.

Lemma index_role_framed a keys a' o st : framed a keys st (index_asset_role a' o st).
Proof. by split. Qed.

Lemma update_record_framed a keys f st st' :
  update_record a f st = Ok st' -> framed a keys st st'.
Proof. unfold update_record. intros. inv_ok. apply set_record_framed. Qed.

Section facts.
Context `{Sha3} `{RootTest}.

Definition output_key (a : list Z) (context : ExecutionContext) (i : nat) : list Z :=
  share_derive a (commitment context) (Z.of_nat i).

(** The share keys of a footprint. *)
Definition footprint_keys (a : list Z) (context : ExecutionContext) (inputs : list (list Z))
    (outputs : nat) : gset (list Z) :=
  list_to_set inputs ∪ list_to_set (output_key a context <$> seq 0 outputs).

Lemma elem_of_footprint_input a c ins outs id :
  id ∈ ins -> id ∈ footprint_keys a c ins outs.
Proof. unfold footprint_keys. set_solver. Qed.

Lemma elem_of_footprint_output a c ins outs i :
  (i < outs)%nat -> output_key a c i ∈ footprint_keys a c ins outs.
Proof.
  intros Hi. unfold footprint_keys. rewrite elem_of_union, !elem_of_list_to_set. right.
  apply list_elem_of_fmap. exists i. split; [done|]. apply elem_of_seq. lia.
Qed.

Lemma insert_share_Ok a c i amt o st st' :
  insert_share a c i amt o st = Ok st' ->
  i < 2 ^ 32 /\ shares st !! share_derive a c i = None /\
  st' = put_share (share_derive a c i) {| asset := a; amount := amt; owner := o |} st.
Proof.
  unfold insert_share, try_from. intros Hi. inv_ok.
  destruct (Z.ltb_spec i (2 ^ 32)); simplify_eq.
  split_and!; [done| |done]. by apply eq_None_not_Some.
Qed.

Lemma insert_share_framed a c ins outs i amt o st st' :
  (i < outs)%nat -> insert_share a (commitment c) (Z.of_nat i) amt o st = Ok st' ->
  framed a (footprint_keys a c ins outs) st st'.
Proof.
  intros Hi Hins. apply insert_share_Ok in Hins as (_ & _ & ->).
  apply put_share_framed. by apply (elem_of_footprint_output a c ins outs i).
Qed.

Lemma transfer_inserts_framed a c ins outs :
  stays (framed a (footprint_keys a c ins (length outs)))
    (st_iter (fun '(index, output) =>
      st_update (insert_share a (commitment c) index (ao_amount output) (ao_recipient output)))
      (zip (Z.of_nat <$> seq 0 (length outs)) outs)).
Proof.
  apply stays_iter; [apply _|]. intros [i o] Hio. apply stays_update; [apply _|].
  apply elem_of_zip_l, list_elem_of_fmap in Hio as (n & -> & Hn%elem_of_seq).
  intros s s'. apply insert_share_framed. lia.
Qed.

Lemma remove_inputs_framed {E} a keys ins :
  (forall id, id ∈ ins -> id ∈ keys) ->
  stays (E := E) (framed a keys) (st_iter (fun input => st_modify (remove_share input)) ins).
Proof.
  intros Hk. apply stays_iter; [apply _|]. intros id Hid.
  apply stays_modify. intros s. apply remove_share_framed. auto.
Qed.

(** An operation, failed or not, stays within its footprint. *)
Lemma operation_framed call context a ins outs :
  operation_footprint call context = Ok (a, ins, outs) ->
  stays (framed a (footprint_keys a context ins outs)) (apply_monetary_operation call context).
Proof.
  destruct call as [call|call|call|call]; cbn [operation_footprint apply_monetary_operation];
    intros Hfp; simplify_eq.
  - inv_ok. unfold register_asset.
    match goal with Hmd : metadata_new _ _ _ _ = _ |- _ => rewrite Hmd end.
    apply stays_bind_Ok. stays_tac.
    + intros s s'. apply (insert_share_framed _ _ _ _ 0); lia.
    + intros s. apply set_record_framed.
    + intros s. apply index_role_framed.
    + intros s. apply index_role_framed.
  - unfold mint_asset. stays_tac.
    + intros s s'. apply (insert_share_framed _ _ _ _ 0); lia.
    + intros s s'. apply update_record_framed.
  - unfold transfer_asset. stays_tac.
    + apply remove_inputs_framed. intros. by apply elem_of_footprint_input.
    + apply transfer_inserts_framed.
  - unfold burn_asset. stays_tac.
    + apply remove_inputs_framed. intros. by apply elem_of_footprint_input.
    + destruct (Unit.is_zero _); stays_tac.
      intros s s'. apply (insert_share_framed _ _ _ _ 0); lia.
    + intros s s'. apply update_record_framed.
Qed.

(** ** Loops over inputs and outputs *)

Definition remove_all (ins : list (list Z)) (st : AssetState) : AssetState :=
  fold_left (fun st id => remove_share id st) ins st.

Lemma remove_inputs_run {E} ins st :
  st_iter (E := E) (fun input => st_modify (remove_share input)) ins st = (remove_all ins st, Ok tt).
Proof.
  revert st. induction ins as [|id ins IH]; intros st; [done|]. apply (IH (remove_share id st)).
Qed.

Lemma remove_all_indexes ins st : indexes_ok st -> indexes_ok (remove_all ins st).
Proof.
  revert st. induction ins as [|id ins IH]; intros st Hst; [done|].
  apply IH. by apply remove_share_indexes.
Qed.

Lemma records_remove_all ins st : records (remove_all ins st) = records st.
Proof.
  revert st. induction ins as [|id ins IH]; intros st; [done|].
  simpl. rewrite IH. apply records_remove_share.
Qed.

Lemma lookup_remove_all ins st id :
  shares (remove_all ins st) !! id = if decide (id ∈ ins) then None else shares st !! id.
Proof.
  revert st. induction ins as [|i ins IH]; intros st; [done|].
  cbn [remove_all fold_left]. fold (remove_all ins (remove_share i st)). rewrite IH.
  rewrite shares_remove_share. destruct (decide (id = i)) as [->|].
  - rewrite lookup_delete_eq. by repeat case_decide; set_solver.
  - rewrite lookup_delete_ne by done. repeat case_decide; set_solver.
Qed.

Lemma input_total_ext st st' a o ins t :
  (forall id, id ∈ ins -> shares st' !! id = shares st !! id) ->
  input_total_loop st' a o ins t = input_total_loop st a o ins t.
Proof.
  revert t. induction ins as [|id ins IH]; intros t Heq; [done|]. cbn [input_total_loop].
  rewrite (Heq id) by (by left). destruct (shares st !! id) as [s|]; [|done]. simpl.
  destruct (negb _); [done|]. simpl. destruct (negb _); [done|]. simpl.
  destruct (Unit.checked_add t (amount s)); [|done]. simpl. apply IH.
  intros. apply Heq. by right.
Qed.

(** The loop's total: every input is a live share of the asset held by the
    actor, and removing them all takes exactly the total out of the asset. *)
Lemma input_total_removes st a o ins t t' :
  NoDup ins -> input_total_loop st a o ins t = Ok t' ->
  (forall id, id ∈ ins -> exists s, shares st !! id = Some s /\ asset s = a /\ owner s = o) /\
  (forall a', asset_total (shares (remove_all ins st)) a' =
     asset_total (shares st) a' - (if decide (a' = a) then t' - t else 0)).
Proof.
  intros Hnd. revert st t. induction Hnd as [|id ins Hid Hnd IH]; intros st t Hl.
  - simplify_eq/=. split; [by intros id ?%elem_of_nil|]. intros a'. case_decide; lia.
  - cbn [input_total_loop] in Hl. unfold Unit.checked_add in Hl. inv_ok.
    rename select AssetShare into s.
    rewrite <- (input_total_ext _ (remove_share id st)) in *.
    2: { intros i Hi. rewrite shares_remove_share. apply lookup_delete_ne. set_solver. }
    match goal with Hl : input_total_loop _ _ _ _ _ = Ok _ |- _ =>
      apply IH in Hl as [Hin Htot] end.
    split.
    + intros i [->|Hi]%elem_of_cons; [by exists s|].
      destruct (Hin i Hi) as (s' & Hs' & Ha & Ho). exists s'.
      rewrite shares_remove_share in Hs'. by apply lookup_delete_Some in Hs' as [_ ?].
    + intros a'. cbn [remove_all fold_left]. fold (remove_all ins (remove_share id st)).
      rewrite Htot, shares_remove_share, (asset_total_delete _ a' id s) by done.
      unfold of_asset. repeat case_decide; subst; try done; lia.
Qed.

Lemma output_sum_spec outs t t' :
  Forall (fun o => 0 <= ao_amount o) outs -> t < 2 ^ 128 -> output_sum outs t = Ok t' ->
  Forall (fun o => 0 < ao_amount o) outs /\ t' = t + zsum (ao_amount <$> outs) /\ t' < 2 ^ 128.
Proof.
  intros Hn. revert t. induction Hn as [|o outs Ho Hn IH]; intros t Hlt Hs.
  - simplify_eq/=. split_and!; [constructor|lia|done].
  - cbn [output_sum] in Hs. unfold Unit.checked_add, Unit.is_zero in Hs. inv_ok.
    match goal with Hl : output_sum _ _ = Ok _ |- _ => apply IH in Hl as (Hpos & -> & Hb) end;
      [|lia].
    split_and!; [constructor; [lia|done]| |done]. cbn [fmap list_fmap zsum fold_right].
    unfold zsum. lia.
Qed.

(** Adding one fresh share. *)
Lemma insert_share_effect a c i amt o st st' :
  indexes_ok st -> 0 < amt -> asset_total (shares st) a + amt < 2 ^ 128 ->
  insert_share a c i amt o st = Ok st' ->
  indexes_ok st' /\ records st' = records st /\
  shares st !! share_derive a c i = None /\
  shares st' = <[share_derive a c i := {| asset := a; amount := amt; owner := o |}]> (shares st) /\
  (forall a', asset_total (shares st') a' =
     asset_total (shares st) a' + (if decide (a' = a) then amt else 0)).
Proof.
  intros Hst Hamt Hlt (_ & Hid & ->)%insert_share_Ok.
  split_and!; [|apply records_put_share|done|apply shares_put_share|].
  - apply put_share_indexes; [done|done|]. by rewrite delete_id.
  - intros a'. rewrite shares_put_share, asset_total_insert by done. unfold of_asset.
    cbn [asset amount]. repeat case_decide; subst; try done; lia.
Qed.

Lemma transfer_inserts_effect a c outs n st st' :
  indexes_ok st -> Forall (fun o => 0 < ao_amount o) outs ->
  asset_total (shares st) a + zsum (ao_amount <$> outs) < 2 ^ 128 ->
  st_iter (fun '(index, output) =>
      st_update (insert_share a c index (ao_amount output) (ao_recipient output)))
    (zip (Z.of_nat <$> seq n (length outs)) outs) st = (st', Ok tt) ->
  indexes_ok st' /\ records st' = records st /\
  (forall id s, shares st' !! id = Some s -> shares st !! id = Some s \/ asset s = a) /\
  (forall a', asset_total (shares st') a' =
     asset_total (shares st) a' + (if decide (a' = a) then zsum (ao_amount <$> outs) else 0)).
Proof.
  intros Hst Hpos. revert n st Hst. induction Hpos as [|o outs Ho Hpos IH];
    intros n st Hst Hlt Hit.
  - injection Hit as <-. split_and!; [done|done|by left|]. intros a'. cbn [fmap list_fmap zsum fold_right]. case_decide; lia.
  - cbn [length seq fmap list_fmap zip zip_with st_iter] in Hit.
    apply st_bind_Ok in Hit as ([] & st1 & H1 & Hit). apply st_update_Ok in H1.
    cbn [fmap list_fmap zsum fold_right] in Hlt. fold (zsum (ao_amount <$> outs)) in Hlt.
    assert (0 <= zsum (ao_amount <$> outs)) as Hz.
    { apply zsum_nonneg, Forall_fmap. eapply Forall_impl; [exact Hpos|]. simpl. lia. }
    apply insert_share_effect in H1 as (Hst1 & Hr1 & Hid & Hs1 & Ht1); [|done|done|lia].
    apply IH in Hit as (Hst' & Hr' & Hs' & Ht'); [|done|rewrite Ht1, decide_True by done; lia].
    split_and!; [done|congruence| |].
    + intros id s Hs. destruct (Hs' id s Hs) as [Hs0|]; [|by right].
      rewrite Hs1 in Hs0. apply lookup_insert_Some in Hs0 as [[_ <-]|[_ ?]]; [by right|by left].
    + intros a'. rewrite Ht', Ht1. cbn [fmap list_fmap zsum fold_right].
      fold (zsum (ao_amount <$> outs)). repeat case_decide; lia.
Qed.

(** ** Supply *)

Definition record_ok (r : AssetRecord) : Prop :=
  metadata_validate (metadata r) = Ok tt /\
  supply r = total_minted r - total_burned r /\ 0 <= total_burned r /\
  total_minted r <= max_supply (metadata r) < 2 ^ 128 /\ fits 64 (mint_nonce r).

(** Every share is of a registered asset, and every record's supply is the sum
    of its live shares, within its maximum. *)
Record supply_ok (st : AssetState) : Prop := {
  so_backed : map_Forall (fun _ s => is_Some (records st !! asset s)) (shares st);
  so_records : map_Forall (fun a r => record_ok r /\ supply r = asset_total (shares st) a)
                 (records st);
}.

Definition assets_ok (st : AssetState) : Prop := indexes_ok st /\ supply_ok st.

(** A sum over shares none of which is of the asset is zero. *)
Lemma asset_total_unbacked m a :
  map_Forall (fun _ s => asset s ≠ a) m -> asset_total m a = 0.
Proof.
  intros Hm. apply map_sum_zero. intros k s Hk. specialize (Hm k s Hk). cbn beta in Hm.
  unfold of_asset. by rewrite decide_False.
Qed.

Lemma unregistered_total st a : supply_ok st -> records st !! a = None -> asset_total (shares st) a = 0.
Proof.
  intros [Hb _] Ha. apply asset_total_unbacked. intros k s Hk.
  destruct (Hb k s Hk) as [r Hr]. congruence.
Qed.

(** Changing one record and the shares of that asset keeps the supply
    invariant when the record's new supply is the new total. *)
Lemma supply_ok_update st st' a r :
  supply_ok st -> records st' = <[a := r]> (records st) -> record_ok r ->
  supply r = asset_total (shares st') a ->
  (forall a', a' ≠ a -> asset_total (shares st') a' = asset_total (shares st) a') ->
  (forall id s, shares st' !! id = Some s -> shares st !! id = Some s \/ asset s = a) ->
  supply_ok st'.
Proof.
  intros [Hb Hr] Hrec Hok Hsup Htot Hsh. split.
  - intros id s Hs. rewrite Hrec. destruct (decide (asset s = a)) as [->|Hne].
    + rewrite lookup_insert_eq. by eexists.
    + rewrite lookup_insert_ne by done. destruct (Hsh id s Hs) as [Hs0|]; [|done].
      by apply (Hb id s).
  - rewrite Hrec. intros a' r' Ha'. apply lookup_insert_Some in Ha' as [[<- <-]|[Hne Ha']].
    + done.
    + rewrite Htot by done. by apply (Hr a' r').
Qed.

Lemma supply_ok_same st st' :
  supply_ok st -> records st' = records st ->
  (forall a', asset_total (shares st') a' = asset_total (shares st) a') ->
  (forall id s, shares st' !! id = Some s -> is_Some (records st !! asset s)) ->
  supply_ok st'.
Proof.
  intros [Hb Hr] Hrec Htot Hsh. split.
  - intros id s Hs. rewrite Hrec. by eapply Hsh.
  - rewrite Hrec. intros a' r' Ha'. rewrite Htot. by apply (Hr a' r').
Qed.

(** Indexes only depend on the tables they index. *)
Lemma set_record_indexes st a r r0 :
  indexes_ok st -> records st !! a = Some r0 -> metadata r = metadata r0 ->
  indexes_ok (set_records (<[a := r]> (records st)) st).
Proof.
  intros [Hp Hbd Hx Hb Hr] Ha Hmd. constructor; try done. simpl.
  eapply index_exact_ext; [exact Hr|]. intros o a'. unfold role_rel.
  destruct (decide (a' = a)) as [->|].
  - rewrite lookup_insert_eq, Ha. split; intros (r' & [= <-] & Hor); eexists; (split; [done|]);
      congruence.
  - by rewrite lookup_insert_ne.
Qed.

Lemma register_indexes st a r :
  indexes_ok st -> records st !! a = None ->
  indexes_ok (index_asset_role a (mint_authority (metadata r))
    (index_asset_role a (creator (metadata r)) (set_records (<[a := r]> (records st)) st))).
Proof.
  intros [Hp Hbd Hx Hb Hr] Ha. constructor; try done. simpl.
  eapply index_exact_ext; [by apply index_add_exact, index_add_exact|].
  intros o a'. unfold role_rel. destruct (decide (a' = a)) as [->|].
  - rewrite lookup_insert_eq, Ha. naive_solver.
  - rewrite lookup_insert_ne by done. naive_solver.
Qed.

(** ** The four operations *)

Definition new_record (md : Metadata) (initial : Z) : AssetRecord :=
  {| metadata := md; supply := initial; total_minted := initial; mint_nonce := 0;
     total_burned := 0 |}.

Lemma metadata_new_Ok n max c ma md :
  metadata_new n max c ma = Ok md ->
  md = {| name := n; max_supply := max; creator := c; mint_authority := ma |} /\
  metadata_validate md = Ok tt.
Proof.
  unfold metadata_new. destruct (metadata_validate _) as [[]|] eqn:Hv; [|done].
  by intros [= <-].
Qed.

Lemma register_effect call ctx st st' :
  assets_ok st -> call_wf (CallRegister call) -> register_asset call ctx st = (st', Ok tt) ->
  exists md a id,
    metadata_new (rg_name call) (rg_max_supply call) (actor ctx) (rg_mint_authority call) = Ok md /\
    a = asset_derive md (rg_nonce call) /\ id = share_derive a (commitment ctx) 0 /\
    0 < rg_initial_mint call <= rg_max_supply call /\
    records st !! a = None /\ shares st !! id = None /\
    records st' = <[a := new_record md (rg_initial_mint call)]> (records st) /\
    shares st' = <[id := {| asset := a; amount := rg_initial_mint call; owner := actor ctx |}]>
                   (shares st) /\
    assets_ok st'.
Proof.
  intros [Hix Hsup] (_ & _ & _ & Hmax & Hinit & _) Hreg. unfold register_asset in Hreg.
  unfold fits, Unit.is_zero in *. inv_ok. rename select Metadata into md.
  rename select (metadata_new _ _ _ _ = Ok md) into Hmd.
  set (a := asset_derive md (rg_nonce call)) in *.
  assert (records st !! a = None) as Ha by (by apply eq_None_not_Some).
  pose proof (unregistered_total st a Hsup Ha) as H0t.
  match goal with Hi : insert_share _ _ _ _ _ _ = Ok _ |- _ =>
    rename Hi into Hins end.
  rename select AssetState into st1.
  apply insert_share_effect in Hins as (Hix1 & Hr1 & Hid & Hs1 & Ht1); [|done|lia|lia].
  exists md, a, (share_derive a (commitment ctx) 0).
  assert (creator md = actor ctx /\ mint_authority md = rg_mint_authority call /\
    max_supply md = rg_max_supply call /\ metadata_validate md = Ok tt) as (Hc & Hm & Hx & Hv).
  { by apply metadata_new_Ok in Hmd as [-> ?]. }
  split_and!; try done; [lia|lia|by rewrite Hr1|split].
  - pose proof (register_indexes st1 a (new_record md (rg_initial_mint call)) Hix1) as Hri.
    cbn [new_record metadata] in Hri. rewrite Hc, Hm in Hri. apply Hri. by rewrite Hr1.
  - apply (supply_ok_update st _ a (new_record md (rg_initial_mint call)) Hsup).
    + simpl. by rewrite Hr1.
    + unfold record_ok, fits. simpl. rewrite Hx. split_and!; try done; lia.
    + simpl. rewrite Ht1, decide_True by done. lia.
    + intros a' Ha'. simpl. rewrite Ht1, decide_False by done. lia.
    + intros id s. simpl. rewrite Hs1.
      intros [[_ <-]|[_ ?]]%lookup_insert_Some; [by right|by left].
Qed.

Definition minted_record (r : AssetRecord) (amt nonce : Z) : AssetRecord :=
  {| metadata := metadata r; supply := supply r + amt; total_minted := total_minted r + amt;
     mint_nonce := nonce; total_burned := total_burned r |}.

Lemma mint_effect call ctx st st' :
  assets_ok st -> call_wf (CallMint call) -> mint_asset call ctx st = (st', Ok tt) ->
  exists r id,
    records st !! mt_asset call = Some r /\ mint_authority (metadata r) = actor ctx /\
    mt_nonce call = mint_nonce r + 1 /\ 0 < mt_amount call /\
    id = share_derive (mt_asset call) (commitment ctx) 0 /\ shares st !! id = None /\
    records st' =
      <[mt_asset call := minted_record r (mt_amount call) (mt_nonce call)]> (records st) /\
    shares st' = <[id := {| asset := mt_asset call; amount := mt_amount call;
                            owner := mt_recipient call |}]> (shares st) /\
    assets_ok st'.
Proof.
  intros [Hix Hsup] (_ & Hn & _ & Hamt) Hop. unfold mint_asset, update_record in Hop.
  unfold Unit.is_zero, Unit.checked_add in Hop. inv_ok.
  rename select (records st !! _ = Some _) into Hr.
  match type of Hr with _ = Some ?r0 => set (r := r0) in * end.
  destruct (so_records _ Hsup _ _ Hr) as ((Hv & Hs & Hb & Hm & Hnr) & Htot). unfold fits in *.
  rename select (insert_share _ _ _ _ _ _ = Ok _) into Hins.
  match type of Hins with _ = Ok ?s => set (st1 := s) in * end.
  apply insert_share_effect in Hins as (Hix1 & Hr1 & Hid & Hs1 & Ht1); [|done|lia|lia].
  rename select (records st1 !! _ = Some _) into Hr'. rewrite Hr1 in Hr'. simplify_eq.
  set (r' := minted_record r (mt_amount call) (mt_nonce call)).
  exists r, (share_derive (mt_asset call) (commitment ctx) 0).
  split_and!; try done; [lia|lia|simpl; by rewrite Hr1|split].
  - apply (set_record_indexes st1 _ r' r Hix1); [by rewrite Hr1|done].
  - apply (supply_ok_update st _ (mt_asset call) r' Hsup); simpl.
    + by rewrite Hr1.
    + unfold record_ok, fits. simpl. split_and!; try done; lia.
    + rewrite Ht1, decide_True by done. lia.
    + intros a' Ha'. rewrite Ht1, decide_False by done. lia.
    + intros id s. rewrite Hs1.
      intros [[_ <-]|[_ ?]]%lookup_insert_Some; [by right|by left].
Qed.

(** The inputs of a transfer or burn are live shares of the asset held by the
    actor, each listed once. *)
Definition inputs_held (st : AssetState) (ins : list (list Z)) (a : list Z) (o : Owner) : Prop :=
  NoDup ins /\
  (forall id, id ∈ ins -> exists s, shares st !! id = Some s /\ asset s = a /\ owner s = o).

Lemma ensure_unique_NoDup ins u : ensure_unique_asset_inputs ins = Ok u -> NoDup ins.
Proof.
  unfold ensure_unique_asset_inputs. destruct (has_duplicate ∅ ins) eqn:Hd; [done|].
  by apply has_duplicate_false in Hd as [? _].
Qed.

Lemma transfer_effect call ctx st st' :
  assets_ok st -> call_wf (CallTransfer call) -> transfer_asset call ctx st = (st', Ok tt) ->
  inputs_held st (tr_inputs call) (tr_asset call) (actor ctx) /\
  records st' = records st /\
  (forall a, asset_total (shares st') a = asset_total (shares st) a) /\
  assets_ok st'.
Proof.
  intros [Hix Hsup] (_ & _ & Houts) Hop. unfold transfer_asset, input_total in Hop. inv_ok.
  rename select (ensure_unique_asset_inputs _ = Ok _) into Hu. apply ensure_unique_NoDup in Hu.
  rename select (records st !! _ = Some _) into Hr.
  rename select (input_total_loop _ _ _ _ _ = Ok _) into Hin.
  rename select (output_sum _ _ = Ok _) into Hout.
  rename select (_ =? _ = true) into Heq. apply Z.eqb_eq in Heq. subst.
  pose proof (input_total_removes _ _ _ _ _ _ Hu Hin) as [Hheld Hrem].
  apply output_sum_spec in Hout as (Hpos & -> & Hbound); [|by eapply Forall_impl; [exact Houts|];
    intros o [_ Ho]; apply Ho|done].
  rename select (st_iter (fun input => st_modify _) _ _ = _) into Hr1.
  rewrite remove_inputs_run in Hr1. simplify_eq.
  set (st1 := remove_all (tr_inputs call) st) in *.
  assert (indexes_ok st1) as Hix1 by (by apply remove_all_indexes).
  rename select (st_iter _ _ _ = _) into Hins.
  pose proof (ix_bound _ Hix (tr_asset call)) as Hbd.
  apply transfer_inserts_effect in Hins as (Hix' & Hrec & Hsh & Htot); [|done|done|].
  2: { rewrite Hrem, decide_True by done. lia. }
  assert (forall a, asset_total (shares st') a = asset_total (shares st) a) as Hsame.
  { intros a. rewrite Htot, Hrem. case_decide; lia. }
  assert (records st' = records st) as Hrec' by (rewrite Hrec; apply records_remove_all).
  split_and!; [by split|done|done|split; [done|]].
  apply (supply_ok_same st); [done|done|done|].
  intros id s Hs. destruct (Hsh id s Hs) as [Hs1| ->]; [|by eexists].
  unfold st1 in Hs1. rewrite lookup_remove_all in Hs1. case_decide; [done|].
  by apply (so_backed _ Hsup id s).
Qed.

Definition burned_record (r : AssetRecord) (amt : Z) : AssetRecord :=
  {| metadata := metadata r; supply := supply r - amt; total_minted := total_minted r;
     mint_nonce := mint_nonce r; total_burned := total_burned r + amt |}.

(** The change output of a burn. *)
Lemma burn_output_effect call ctx st st' u :
  indexes_ok st -> 0 <= bn_output call ->
  asset_total (shares st) (bn_asset call) + bn_output call < 2 ^ 128 ->
  (if Unit.is_zero (bn_output call) then mret tt
   else st_update (insert_share (bn_asset call) (commitment ctx) 0 (bn_output call) (actor ctx))) st
    = (st', Ok u) ->
  indexes_ok st' /\ records st' = records st /\
  (forall id s, shares st' !! id = Some s -> shares st !! id = Some s \/ asset s = bn_asset call) /\
  (forall a, asset_total (shares st') a =
     asset_total (shares st) a + (if decide (a = bn_asset call) then bn_output call else 0)).
Proof.
  intros Hix Hpos Hlt. unfold Unit.is_zero. destruct (Z.eqb_spec (bn_output call) 0) as [Hz|Hz].
  - intros [= <- _]. split_and!; [done|done|by left|]. intros a. case_decide; lia.
  - intros Hins%st_update_Ok.
    apply insert_share_effect in Hins as (Hix1 & Hr1 & Hid & Hs1 & Ht1); [|done|lia|lia].
    split_and!; [done|done| |done]. intros id s. rewrite Hs1.
    intros [[_ <-]|[_ ?]]%lookup_insert_Some; [by right|by left].
Qed.

Lemma burn_effect call ctx st st' :
  assets_ok st -> call_wf (CallBurn call) -> burn_asset call ctx st = (st', Ok tt) ->
  inputs_held st (bn_inputs call) (bn_asset call) (actor ctx) /\
  0 < bn_amount call /\
  (exists r, records st !! bn_asset call = Some r /\
    records st' = <[bn_asset call := burned_record r (bn_amount call)]> (records st)) /\
  assets_ok st'.
Proof.
  intros [Hix Hsup] (_ & _ & Hamt & Hout) Hop. unfold burn_asset, update_record, input_total in Hop.
  unfold fits, Unit.checked_add, Unit.checked_sub in *. inv_ok.
  rename select (ensure_unique_asset_inputs _ = Ok _) into Hu. apply ensure_unique_NoDup in Hu.
  rename select (Unit.is_zero _ = false) into Hnz. apply Z.eqb_neq in Hnz.
  rename select (records st !! _ = Some _) into Hr.
  match type of Hr with _ = Some ?r0 => rename r0 into r end.
  rename select (input_total_loop _ _ _ _ _ = Ok _) into Hin.
  rename select (_ =? _ = true) into Heq. apply Z.eqb_eq in Heq. subst.
  pose proof (input_total_removes _ _ _ _ _ _ Hu Hin) as [Hheld Hrem].
  rename select (st_iter (fun input => st_modify _) _ _ = _) into Hr1.
  rewrite remove_inputs_run in Hr1. simplify_eq.
  set (st1 := remove_all (bn_inputs call) st) in *.
  assert (indexes_ok st1) as Hix1 by (by apply remove_all_indexes).
  pose proof (ix_bound _ Hix (bn_asset call)) as Hbd.
  destruct (so_records _ Hsup _ _ Hr) as ((Hv & Hs & Hb & Hm & Hnr) & Htot).
  match goal with Hc : _ st1 = (_, _) |- _ => rename Hc into Hins end.
  apply burn_output_effect in Hins as (Hix2 & Hrec & Hsh & Htot2); [|done|done|].
  2: { rewrite Hrem, decide_True by done. lia. }
  rename select (records _ !! _ = Some _) into Hr'. rewrite Hrec in Hr'.
  unfold st1 in Hr', Hrec. rewrite records_remove_all in Hr', Hrec. simplify_eq.
  split_and!; [by split|lia| |split].
  - eexists. split; [exact Hr|]. simpl. by rewrite Hrec.
  - eapply set_record_indexes; [done|by rewrite Hrec|done].
  - eapply (supply_ok_update st _ (bn_asset call) (burned_record _ (bn_amount call)) Hsup); simpl.
    + by rewrite Hrec.
    + unfold record_ok. simpl. split_and!; try done; lia.
    + rewrite Htot2, Hrem, !decide_True by done. lia.
    + intros a' Ha'. rewrite Htot2, Hrem, !decide_False by done. lia.
    + intros id s Hs'. destruct (Hsh id s Hs') as [Hs1|]; [|by right]. left.
      unfold st1 in Hs1. rewrite lookup_remove_all in Hs1. by case_decide.
Qed.

(** ** Failed operations *)

(** What a failed operation may leave behind before rollback: exact indexes and
    no asset heavier than before. *)
Definition no_heavier (st st1 : AssetState) : Prop :=
  indexes_ok st1 /\ forall a, asset_total (shares st1) a <= asset_total (shares st) a.

Lemma no_heavier_refl st : indexes_ok st -> no_heavier st st.
Proof. by split. Qed.

Lemma transfer_inserts_partial a c outs n st st' r :
  indexes_ok st -> Forall (fun o => 0 < ao_amount o) outs ->
  asset_total (shares st) a + zsum (ao_amount <$> outs) < 2 ^ 128 ->
  st_iter (fun '(index, output) =>
      st_update (insert_share a c index (ao_amount output) (ao_recipient output)))
    (zip (Z.of_nat <$> seq n (length outs)) outs) st = (st', r) ->
  indexes_ok st' /\
  (forall a', asset_total (shares st') a' <=
     asset_total (shares st) a' + (if decide (a' = a) then zsum (ao_amount <$> outs) else 0)).
Proof.
  intros Hst Hpos. revert n st Hst. induction Hpos as [|o outs Ho Hpos IH];
    intros n st Hst Hlt Hit.
  - injection Hit as <- _. split; [done|]. intros a'.
    cbn [fmap list_fmap zsum fold_right]. case_decide; lia.
  - cbn [length seq fmap list_fmap zip zip_with st_iter] in Hit.
    cbn [fmap list_fmap zsum fold_right] in Hlt. fold (zsum (ao_amount <$> outs)) in Hlt.
    assert (0 <= zsum (ao_amount <$> outs)) as Hz.
    { apply zsum_nonneg, Forall_fmap. eapply Forall_impl; [exact Hpos|]. simpl. lia. }
    cbn [fmap list_fmap zsum fold_right]. fold (zsum (ao_amount <$> outs)).
    unfold mbind, st_mbind, st_update in Hit.
    destruct (insert_share a c _ _ _ st) as [st1|e] eqn:H1.
    + apply insert_share_effect in H1 as (Hst1 & Hr1 & Hid & Hs1 & Ht1); [|done|done|lia].
      apply IH in Hit as [Hst' Ht']; [|done|rewrite Ht1, decide_True by done; lia].
      split; [done|]. intros a'. specialize (Ht' a'). rewrite Ht1 in Ht'.
      repeat case_decide; lia.
    + injection Hit as <- _. split; [done|]. intros a'. case_decide; lia.
Qed.

(** Walk through the steps of a failed computation; the checks in front leave
    the state alone. *)
Ltac inv_err Hop :=
  repeat (apply st_bind_Err in Hop as [Hop|(? & ? & ? & Hop)];
    [solve [unfold st_require, st_lift, st_check in Hop; simplify_eq; by apply no_heavier_refl]
    |inv_ok]).

Lemma transfer_error call ctx st st' e :
  assets_ok st -> call_wf (CallTransfer call) -> transfer_asset call ctx st = (st', Err e) ->
  no_heavier st st'.
Proof.
  intros [Hix Hsup] (_ & _ & Houts) Hop. unfold transfer_asset, input_total in Hop. inv_err Hop.
  rename select (ensure_unique_asset_inputs _ = Ok _) into Hu. apply ensure_unique_NoDup in Hu.
  rename select (input_total_loop _ _ _ _ _ = Ok _) into Hin.
  rename select (output_sum _ _ = Ok _) into Hout.
  rename select (_ =? _ = true) into Heq. apply Z.eqb_eq in Heq. subst.
  pose proof (input_total_removes _ _ _ _ _ _ Hu Hin) as [Hheld Hrem].
  apply output_sum_spec in Hout as (Hpos & -> & Hbound); [|by eapply Forall_impl; [exact Houts|];
    intros o [_ Ho]; apply Ho|done].
  pose proof (ix_bound _ Hix (tr_asset call)) as Hbd.
  apply st_bind_Err in Hop as [Hr1|(u & st1 & Hr1 & Hop)];
    rewrite remove_inputs_run in Hr1; simplify_eq.
  apply transfer_inserts_partial in Hop as [Hix' Htot]; [|by apply remove_all_indexes|done|].
  2: { rewrite Hrem, decide_True by done. lia. }
  split; [done|]. intros a. specialize (Htot a). rewrite Hrem in Htot. case_decide; lia.
Qed.

Lemma burn_error call ctx st st' e :
  assets_ok st -> call_wf (CallBurn call) -> burn_asset call ctx st = (st', Err e) ->
  no_heavier st st'.
Proof.
  intros [Hix Hsup] (_ & _ & Hamt & Hout) Hop. unfold burn_asset, input_total in Hop.
  unfold fits, Unit.checked_add, Unit.checked_sub in *. inv_err Hop.
  rename select (ensure_unique_asset_inputs _ = Ok _) into Hu. apply ensure_unique_NoDup in Hu.
  rename select (input_total_loop _ _ _ _ _ = Ok _) into Hin.
  rename select (_ =? _ = true) into Heq. apply Z.eqb_eq in Heq. subst.
  pose proof (input_total_removes _ _ _ _ _ _ Hu Hin) as [Hheld Hrem].
  pose proof (ix_bound _ Hix (bn_asset call)) as Hbd.
  apply st_bind_Err in Hop as [Hr1|(u & st1 & Hr1 & Hop)];
    rewrite remove_inputs_run in Hr1; simplify_eq.
  pose proof (remove_all_indexes (bn_inputs call) st Hix) as Hix1.
  apply st_bind_Err in Hop as [Hins|(u & st2 & Hins & Hop)].
  - assert (st' = remove_all (bn_inputs call) st) as ->.
    { destruct (Unit.is_zero (bn_output call)); [done|]. unfold st_update in Hins.
      by destruct (insert_share _ _ _ _ _ _); simplify_eq. }
    split; [done|]. intros a. rewrite Hrem. case_decide; lia.
  - apply burn_output_effect in Hins as (Hix2 & Hrec & Hsh & Htot2); [|done|done|].
    2: { rewrite Hrem, decide_True by done. lia. }
    assert (st' = st2) as ->.
    { unfold st_update in Hop. by destruct (update_record _ _ _); simplify_eq. }
    split; [done|]. intros a. rewrite Htot2, Hrem. repeat case_decide; lia.
Qed.

Lemma register_error call ctx st st' e :
  indexes_ok st -> register_asset call ctx st = (st', Err e) -> no_heavier st st'.
Proof.
  intros Hix Hop. unfold register_asset in Hop. inv_err Hop.
  apply st_bind_Err in Hop as [Hop|(? & ? & ? & Hop)]; [|done].
  unfold st_update in Hop. destruct (insert_share _ _ _ _ _ _); simplify_eq.
  by apply no_heavier_refl.
Qed.

Lemma mint_error call ctx st st' e :
  indexes_ok st -> mint_asset call ctx st = (st', Err e) -> no_heavier st st'.
Proof.
  intros Hix Hop. unfold mint_asset in Hop. inv_err Hop.
  apply st_bind_Err in Hop as [Hop|(? & ? & ? & Hop)]; unfold st_update in Hop.
  - destruct (insert_share _ _ _ _ _ _); simplify_eq. by apply no_heavier_refl.
  - inv_ok. rename select (insert_share _ _ _ _ _ _ = Ok _) into Hins.
    apply insert_share_Ok in Hins as (_ & _ & ->). unfold update_record in Hop.
    rewrite records_put_share in Hop.
    rename select (records st !! _ = Some _) into Hr. rewrite Hr in Hop. done.
Qed.

Lemma operation_error call ctx st st' e :
  assets_ok st -> call_wf call -> apply_monetary_operation call ctx st = (st', Err e) ->
  no_heavier st st'.
Proof.
  intros Hok Hwf. destruct call; cbn [apply_monetary_operation].
  - apply register_error, Hok.
  - apply mint_error, Hok.
  - by apply transfer_error.
  - by apply burn_error.
Qed.
End facts.
