(* ===== verification/AssetProps.v ===== *)
(** * Properties of asset operations

    Rollback of journals, composition of journals, and the theorems about
    [AssetState::apply]: it keeps the invariants, is atomic on failure, is
    undone by its journal, conserves supply and only spends the actor's
    shares. *)

From S2P Require Import Prelude Codec Monetary Index Assets AssetFacts.
#[local] Open Scope Z_scope.

(** ** Restoring journal entries into a table *)

Section restore.
Context {V : Type}.

Definition restore (m : gmap (list Z) V) (l : list (list Z * option V)) : gmap (list Z) V :=
  fold_left (fun m '(k, p) => partial_alter (fun _ => p) k m) l m.

Lemma lookup_restore_out m l k : k ∉ l.*1 -> restore m l !! k = m !! k.
Proof.
  revert m. induction l as [|[k' p] l IH]; intros m Hk; [done|].
  rewrite fmap_cons, not_elem_of_cons in Hk. destruct Hk as [Hne Hk]. simpl in Hne.
  cbn [restore fold_left]. unfold restore in IH. rewrite IH by done.
  by rewrite lookup_partial_alter_ne.
Qed.

Lemma lookup_restore_in m l k p : NoDup l.*1 -> (k, p) ∈ l -> restore m l !! k = p.
Proof.
  intros Hnd. revert m. induction l as [|[k' p'] l IH]; intros m Hin; [by apply elem_of_nil in Hin|].
  rewrite fmap_cons in Hnd. apply NoDup_cons in Hnd as [Hk' Hnd].
  cbn [restore fold_left]. apply elem_of_cons in Hin as [[= <- <-]|Hin].
  - fold (restore (partial_alter (fun _ => p) k m) l).
    rewrite lookup_restore_out by done. by rewrite lookup_partial_alter_eq.
  - by apply IH.
Qed.

(** Restoring the old values of a set of keys that covers every change. *)
Lemma restore_old (m m0 : gmap (list Z) V) (keys : list (list Z)) :
  (forall k, k ∉ keys -> m !! k = m0 !! k) ->
  restore m ((fun k => (k, m0 !! k)) <$> keys) = m0.
Proof.
  intros Hout. apply map_eq. intros k. revert m Hout.
  induction keys as [|k' keys IH]; intros m Hout.
  - apply Hout. apply not_elem_of_nil.
  - cbn [fmap list_fmap restore fold_left]. fold (restore (partial_alter (fun _ => m0 !! k') k' m)).
    apply IH. intros i Hi. destruct (decide (i = k')) as [->|].
    + by rewrite lookup_partial_alter_eq.
    + rewrite lookup_partial_alter_ne by done. apply Hout. by apply not_elem_of_cons.
Qed.

Lemma retain_changed_NoDup `{EqDecision V} (m : gmap (list Z) V) l :
  NoDup l.*1 -> NoDup (retain_changed m l).*1.
Proof.
  intros Hnd. unfold retain_changed. induction l as [|[k' p'] l IH]; [constructor|].
  rewrite fmap_cons in Hnd. apply NoDup_cons in Hnd as [Hk' Hnd]. simpl.
  destruct (negb _); [|by apply IH]. rewrite fmap_cons. apply NoDup_cons. split; [|by apply IH].
  intros ([k2 p] & Hk2 & Hp)%list_elem_of_fmap. simpl in Hk2. subst k2. apply Hk'.
  rewrite list_elem_of_In, filter_In, <- list_elem_of_In in Hp. destruct Hp as [Hp _].
  apply list_elem_of_fmap. by exists (k', p).
Qed.

Lemma restore_retain `{EqDecision V} m l :
  NoDup l.*1 -> restore m (retain_changed m l) = restore m l.
Proof.
  intros Hnd. apply map_eq. intros k.
  assert (forall p, (k, p) ∈ retain_changed m l <-> (k, p) ∈ l /\ m !! k ≠ p) as Hin.
  { intros p. unfold retain_changed. rewrite !list_elem_of_In, filter_In, negb_true_iff.
    by rewrite bool_decide_eq_false. }
  pose proof (retain_changed_NoDup m l Hnd) as Hnd'.
  destruct (decide (k ∈ l.*1)) as [Hk|Hk].
  - apply list_elem_of_fmap in Hk as ([k1 p] & Hk1 & Hp). simpl in Hk1. subst k1.
    rewrite (lookup_restore_in m l _ p Hnd Hp).
    destruct (decide (m !! k = p)) as [Heq|Hne].
    + rewrite lookup_restore_out; [done|]. intros ([k2 p'] & Hk2 & Hp')%list_elem_of_fmap.
      simpl in Hk2. subst k2. apply Hin in Hp' as [Hp' Hne].
      pose proof (lookup_restore_in m l _ _ Hnd Hp). pose proof (lookup_restore_in m l _ _ Hnd Hp').
      congruence.
    + apply lookup_restore_in; [done|]. by apply Hin.
  - rewrite !lookup_restore_out; [done|done|]. intros ([k1 p] & Hk1 & Hp)%list_elem_of_fmap.
    simpl in Hk1. subst k1. apply Hin in Hp as [Hp _]. apply Hk, list_elem_of_fmap. by exists (k, p).
Qed.
End restore.

Lemma records_rollback_record st k p :
  records (rollback_record st (k, p)) = partial_alter (fun _ => p) k (records st).
Proof.
  unfold rollback_record. case_decide as Hc.
  - apply map_eq. intros i. destruct (decide (i = k)) as [->|].
    + by rewrite lookup_partial_alter_eq.
    + by rewrite lookup_partial_alter_ne.
  - by destruct p, (records st !! k).
Qed.

Lemma shares_rollback_record st e : shares (rollback_record st e) = shares st.
Proof.
  destruct e as [k p]. unfold rollback_record. case_decide; [done|].
  by destruct p, (records st !! k).
Qed.

Lemma shares_rollback_share st k p :
  shares (rollback_share st (k, p)) = partial_alter (fun _ => p) k (shares st).
Proof. destruct p; simpl; autorewrite with xparq; done. Qed.

Lemma records_rollback_share st e : records (rollback_share st e) = records st.
Proof. destruct e as [k []]; simpl; by autorewrite with xparq. Qed.

Lemma fold_rollback_records l st :
  records (fold_left rollback_record l st) = restore (records st) l /\
  shares (fold_left rollback_record l st) = shares st.
Proof.
  revert st. induction l as [|[k p] l IH]; intros st; [done|].
  cbn [fold_left restore]. destruct (IH (rollback_record st (k, p))) as [-> ->].
  by rewrite records_rollback_record, shares_rollback_record.
Qed.

Lemma fold_rollback_shares l st :
  shares (fold_left rollback_share l st) = restore (shares st) l /\
  records (fold_left rollback_share l st) = records st.
Proof.
  revert st. induction l as [|[k p] l IH]; intros st; [done|].
  cbn [fold_left restore]. destruct (IH (rollback_share st (k, p))) as [-> ->].
  by rewrite shares_rollback_share, records_rollback_share.
Qed.

(** ** Rollback keeps the indexes exact *)

Lemma rollback_record_links st e : links_ok st -> links_ok (rollback_record st e).
Proof.
  intros [Hx Hr]. destruct e as [k p]. unfold rollback_record.
  case_decide as Hc; [by constructor|].
  set (st1 := match records st !! k with Some r => _ | None => st end).
  assert (shares st1 = shares st /\ share_index st1 = share_index st /\ records st1 = records st /\
    index_exact (asset_roles st1) (fun o a => role_rel (records st) o a /\ a ≠ k)) as (Es & Ei & Er & Hr1).
  { unfold st1. destruct (records st !! k) as [r|] eqn:Hk; split_and!; try done; simpl.
    - eapply index_exact_ext; [by apply index_remove_exact, index_remove_exact|].
      intros o a. unfold role_rel. destruct (decide (a = k)) as [->|]; [|naive_solver].
      rewrite Hk. naive_solver.
    - eapply index_exact_ext; [exact Hr|]. intros o a. unfold role_rel.
      destruct (decide (a = k)) as [->|]; [rewrite Hk|]; naive_solver. }
  clearbody st1. destruct p as [r|]; constructor; simpl; rewrite ?Es, ?Ei, ?Er; try done.
  - eapply index_exact_ext; [by apply index_add_exact, index_add_exact|].
    intros o a. unfold role_rel. destruct (decide (a = k)) as [->|].
    + rewrite lookup_insert_eq. naive_solver.
    + rewrite lookup_insert_ne by done. naive_solver.
  - eapply index_exact_ext; [exact Hr1|]. intros o a. unfold role_rel.
    destruct (decide (a = k)) as [->|].
    + rewrite lookup_delete_eq. naive_solver.
    + rewrite lookup_delete_ne by done. naive_solver.
Qed.

Lemma balances_rollback_record st e :
  owner_asset_balances (rollback_record st e) = owner_asset_balances st.
Proof.
  destruct e as [k p]. unfold rollback_record. case_decide; [done|].
  by destruct (records st !! k), p.
Qed.

Lemma rollback_record_indexes st e : indexes_ok st -> indexes_ok (rollback_record st e).
Proof.
  intros Hst. destruct (rollback_record_links st e (indexes_links st Hst)) as [Hx Hr].
  destruct Hst as [Hp Hbd _ Hb _].
  constructor; rewrite ?balances_rollback_record, ?shares_rollback_record in *; done.
Qed.

(** Every share is one of [m1] or of [m2]. *)
Definition mixed (m m1 m2 : gmap (list Z) AssetShare) : Prop :=
  forall k s, m !! k = Some s -> m1 !! k = Some s \/ m2 !! k = Some s.

Lemma mixed_total m m1 m2 a :
  positive m1 -> positive m2 -> mixed m m1 m2 ->
  asset_total m a <= asset_total m1 a + asset_total m2 a.
Proof.
  intros H1 H2 Hm. apply map_sum_mixed_le; [by apply of_asset_nonneg|by apply of_asset_nonneg|done].
Qed.

Lemma asset_total_sub m m1 a : positive m -> m1 ⊆ m -> asset_total m1 a <= asset_total m a.
Proof.
  intros Hp Hsub. pose proof (mixed_total m1 m ∅ a Hp) as Hle.
  assert (asset_total ∅ a = 0) as H0 by done. rewrite H0, Z.add_0_r in Hle. apply Hle.
  - apply map_Forall_empty.
  - intros k s Hs. left. by eapply lookup_weaken.
Qed.

Lemma rollback_shares_indexes l st m1 m2 :
  indexes_ok st -> positive m1 -> positive m2 -> mixed (shares st) m1 m2 ->
  (forall k s, (k, Some s) ∈ l -> m2 !! k = Some s) ->
  (forall a, asset_total m1 a + asset_total m2 a < 2 ^ 128) ->
  indexes_ok (fold_left rollback_share l st).
Proof.
  intros Hst H1 H2 Hmix Hl Hlt. revert st Hst Hmix.
  induction l as [|[k p] l IH]; intros st Hst Hmix; [done|]. cbn [fold_left].
  assert (mixed (shares (rollback_share st (k, p))) m1 m2) as Hmix'.
  { intros i s. rewrite shares_rollback_share. destruct (decide (i = k)) as [->|].
    - rewrite lookup_partial_alter_eq. intros ->. right. apply Hl. by left.
    - rewrite lookup_partial_alter_ne by done. apply Hmix. }
  apply IH; [by intros; apply Hl; right| |done].
  destruct p as [s|]; [|by apply remove_share_indexes]. cbn [rollback_share].
  specialize (Hl k s ltac:(by left)). specialize (H2 k s Hl) as Hs. cbn beta in Hs.
  apply put_share_indexes; [done|done|]. specialize (Hlt (asset s)).
  pose proof (mixed_total _ m1 m2 (asset s) H1 H2 Hmix') as Hle.
  rewrite shares_rollback_share in Hle. cbn [rollback_share] in Hle.
  change (partial_alter (fun _ => Some s) k (shares st)) with (<[k := s]> (shares st)) in Hle.
  rewrite <- insert_delete_eq in Hle. rewrite asset_total_insert in Hle by apply lookup_delete_eq.
  unfold of_asset in Hle. rewrite decide_True in Hle by done. lia.
Qed.

(** ** Snapshots and rollback *)

Lemma set_cache_indexes c st : indexes_ok (set_cache c st) <-> indexes_ok st.
Proof. split; intros [Hp Hbd Hx Hb Hr]; by constructor. Qed.

Lemma set_cache_supply c st : supply_ok (set_cache c st) <-> supply_ok st.
Proof. split; intros [Hb Hr]; by constructor. Qed.

Lemma set_cache_equiv c st : set_cache c st ≡ st.
Proof. by constructor. Qed.

Section props.
Context `{Sha3} `{RootTest}.

Lemma collect_output_ids a ctx n outs ids :
  collect (output_id a ctx) (seq n outs) = Ok ids -> ids = output_key a ctx <$> seq n outs.
Proof.
  revert n ids. induction outs as [|outs IH]; intros n ids Hc; [by simplify_eq/=|].
  cbn [seq collect] in Hc. apply bind_Ok in Hc as (id & Hid & Hc).
  apply bind_Ok in Hc as (rest & Hrest & Hc). simplify_eq. apply IH in Hrest as ->.
  unfold output_id, try_from in Hid. destruct (_ <? _); by simplify_eq/=.
Qed.

(** The journal of the old values of one record and a set of shares. *)
Definition old_values (st : AssetState) (a : list Z) (keys : gset (list Z)) : AssetJournal :=
  {| j_records := [(a, records st !! a)];
     j_shares := (fun k => (k, shares st !! k)) <$> sorted_ids keys |}.

Lemma snapshot_spec st call ctx j :
  snapshot_operation st call ctx = Ok j ->
  exists a ins outs, operation_footprint call ctx = Ok (a, ins, outs) /\
    j = old_values st a (footprint_keys a ctx ins outs).
Proof.
  unfold snapshot_operation. intros Hs. apply bind_Ok in Hs as ([[a ins] outs] & Hfp & Hs).
  apply bind_Ok in Hs as (ids & Hids & Hs). apply collect_output_ids in Hids. simplify_eq.
  by exists a, ins, outs.
Qed.

Lemma old_values_NoDup st a keys : NoDup (j_shares (old_values st a keys)).*1.
Proof.
  simpl. rewrite <- list_fmap_compose. unfold compose. simpl.
  rewrite list_fmap_id. apply NoDup_sorted_ids.
Qed.

Lemma records_rollback j st : records (rollback j st) = restore (records st) (j_records j).
Proof.
  unfold rollback, advance_supply_summary. simpl.
  rewrite (proj2 (fold_rollback_shares _ _)). apply fold_rollback_records.
Qed.

Lemma shares_rollback j st : shares (rollback j st) = restore (shares st) (j_shares j).
Proof.
  unfold rollback, advance_supply_summary. simpl.
  rewrite (proj1 (fold_rollback_shares _ _)). by rewrite (proj2 (fold_rollback_records _ _)).
Qed.

Lemma old_values_restore st st1 a keys :
  framed a keys st st1 ->
  restore (records st1) (j_records (old_values st a keys)) = records st /\
  restore (shares st1) (j_shares (old_values st a keys)) = shares st.
Proof.
  intros [Hr Hs]. split.
  - apply (restore_old (records st1) (records st) [a]). intros k Hk. apply Hr. set_solver.
  - apply restore_old. intros k Hk. apply Hs. by rewrite elem_of_sorted_ids in Hk.
Qed.

Lemma rollback_indexes j st m :
  indexes_ok st -> positive m -> shares (rollback j st) = m ->
  (forall k s, (k, Some s) ∈ j_shares j -> m !! k = Some s) ->
  (forall a, asset_total (shares st) a + asset_total m a < 2 ^ 128) ->
  indexes_ok (rollback j st).
Proof.
  intros Hst Hm Heq Hj Hlt. unfold rollback, advance_supply_summary.
  rewrite set_cache_indexes.
  assert (indexes_ok (fold_left rollback_record (j_records j) st)) as Hst1.
  { clear -Hst. revert st Hst. induction (j_records j) as [|e l IH]; intros st Hst; [done|].
    apply IH. by apply rollback_record_indexes. }
  pose proof (proj2 (fold_rollback_records (j_records j) st)) as Hs.
  apply (rollback_shares_indexes _ _ (shares st) m); try done; [apply Hst|].
  rewrite Hs. by left.
Qed.

Lemma rollback_links j st : links_ok st -> links_ok (rollback j st).
Proof.
  intros Hst. unfold rollback, advance_supply_summary.
  assert (links_ok (fold_left rollback_record (j_records j) st)) as Hst1.
  { revert st Hst. induction (j_records j) as [|e l IH]; intros st Hst; [done|].
    apply IH. by apply rollback_record_links. }
  set (st1 := fold_left rollback_record (j_records j) st) in *. clearbody st1.
  assert (links_ok (fold_left rollback_share (j_shares j) st1)) as [Hx Hr]; [|by constructor].
  revert st1 Hst1. induction (j_shares j) as [|[k [s|]] l IH]; intros st1 Hst1; [done|..]; apply IH;
    [by apply put_share_links|by apply remove_share_links].
Qed.

(** ** Application of a call *)

(** The operation behind a successful application. *)
Lemma apply_Ok call ctx st st' j :
  apply call ctx st = (st', Ok j) ->
  exists st1 c a keys,
    apply_monetary_operation call ctx st = (st1, Ok tt) /\ st' = set_cache c st1 /\
    framed a keys st st1 /\
    j = {| j_records := retain_changed (records st1) (j_records (old_values st a keys));
           j_shares := retain_changed (shares st1) (j_shares (old_values st a keys)) |}.
Proof.
  unfold apply. destruct (decode _ _); [|done].
  destruct (snapshot_operation st call ctx) as [j0|] eqn:Hsnap; [|done].
  apply snapshot_spec in Hsnap as (a' & ins & outs & Hfp & ->).
  pose proof (operation_framed call ctx _ _ _ Hfp st) as Hfr.
  destruct (apply_monetary_operation call ctx st) as [st1 [[]|e]] eqn:Hop; [|done].
  intros [= <- <-]. unfold advance_supply_summary. eexists _, _, a', _. split_and!; [done..|].
  done.
Qed.

Lemma apply_Err call ctx st st' e :
  apply call ctx st = (st', Err e) ->
  st' = st \/
  exists st1 c a keys,
    apply_monetary_operation call ctx st = (st1, Err e) /\
    st' = set_cache c (rollback (old_values st a keys) st1) /\ framed a keys st st1.
Proof.
  unfold apply. destruct (decode _ _); [|by intros [= <- _]; left].
  destruct (snapshot_operation st call ctx) as [j0|] eqn:Hsnap; [|by intros [= <- _]; left].
  apply snapshot_spec in Hsnap as (a' & ins & outs & Hfp & ->).
  pose proof (operation_framed call ctx _ _ _ Hfp st) as Hfr.
  destruct (apply_monetary_operation call ctx st) as [st1 [[]|e']] eqn:Hop; [done|].
  intros [= <- ->]. right. by eexists st1, _, a', _.
Qed.

Lemma apply_Err_tables call ctx st st' e :
  apply call ctx st = (st', Err e) -> records st' = records st /\ shares st' = shares st.
Proof.
  intros [->|(st1 & c & a & keys & _ & -> & Hfr)]%apply_Err; [done|].
  cbn [set_cache records shares]. rewrite records_rollback, shares_rollback. by apply old_values_restore.
Qed.

(** Half of the unit range: no intermediate state of a rollback, which may hold
    old and new shares at once, exceeds it. *)
Definition half_range (st : AssetState) : Prop :=
  forall a, asset_total (shares st) a < 2 ^ 127.

Lemma apply_Err_equiv call ctx st st' e :
  assets_ok st -> half_range st -> call_wf call ->
  apply call ctx st = (st', Err e) -> st' ≡ st.
Proof.
  intros Hok Hhalf Hwf Hap. pose proof (apply_Err_tables _ _ _ _ _ Hap) as [Hr Hs].
  apply apply_Err in Hap as [->|(st1 & c & a & keys & Hop & -> & Hfr)]; [done|].
  apply (operation_error _ _ _ _ _ Hok Hwf) in Hop as [Hix1 Hle].
  destruct Hok as [Hix Hsup]. apply indexes_unique; [|done|done|done].
  apply set_cache_indexes. apply (rollback_indexes _ _ (shares st)); [done|apply Hix|done| |].
  - intros k s (k' & [= -> ->] & _)%list_elem_of_fmap. done.
  - intros a'. specialize (Hle a'). specialize (Hhalf a'). lia.
Qed.

Lemma apply_rollback_tables call ctx st st' j :
  apply call ctx st = (st', Ok j) ->
  records (rollback j st') = records st /\ shares (rollback j st') = shares st.
Proof.
  intros (st1 & c & a & keys & _ & -> & Hfr & ->)%apply_Ok.
  rewrite records_rollback, shares_rollback. cbn [j_records j_shares set_cache records shares].
  rewrite (restore_retain (records st1)) by apply NoDup_singleton.
  rewrite (restore_retain (shares st1)) by apply (old_values_NoDup st a keys).
  by apply old_values_restore.
Qed.

Lemma operation_ok call ctx st st' :
  assets_ok st -> call_wf call -> apply_monetary_operation call ctx st = (st', Ok tt) ->
  assets_ok st'.
Proof.
  intros Hok Hwf Hop. destruct call; cbn [apply_monetary_operation] in Hop.
  - apply register_effect in Hop; [|done|done]. by destruct Hop as (? & ? & ? & ?); destruct_and!.
  - apply mint_effect in Hop; [|done|done]. by destruct Hop as (? & ? & ?); destruct_and!.
  - apply transfer_effect in Hop; [|done|done]. by destruct_and!.
  - apply burn_effect in Hop; [|done|done]. by destruct_and!.
Qed.

Lemma apply_Ok_ok call ctx st st' j :
  assets_ok st -> call_wf call -> apply call ctx st = (st', Ok j) -> assets_ok st'.
Proof.
  intros Hok Hwf (st1 & c & a & keys & Hop & -> & _)%apply_Ok.
  apply operation_ok in Hop as [Hix Hsup]; [|done|done].
  split; [by apply set_cache_indexes|by apply set_cache_supply].
Qed.

Lemma apply_rollback_equiv call ctx st st' j :
  assets_ok st -> half_range st -> half_range st' -> call_wf call ->
  apply call ctx st = (st', Ok j) -> rollback j st' ≡ st.
Proof.
  intros Hok Hh Hh' Hwf Hap. pose proof (apply_rollback_tables _ _ _ _ _ Hap) as [Hr Hs].
  pose proof (apply_Ok_ok _ _ _ _ _ Hok Hwf Hap) as [Hix' _]. destruct Hok as [Hix _].
  apply indexes_unique; [|done|done|done].
  apply (rollback_indexes _ _ (shares st)); [done|apply Hix|done| |].
  - intros k s Hk. apply apply_Ok in Hap as (st1 & c & a & keys & _ & -> & _ & ->).
    simpl in Hk. unfold retain_changed in Hk.
    rewrite list_elem_of_In, filter_In, <- list_elem_of_In in Hk. destruct Hk as [Hk _].
    by apply list_elem_of_fmap in Hk as (k' & [= -> ->] & _).
  - intros a. specialize (Hh a). specialize (Hh' a). lia.
Qed.

(** ** Supply per asset *)

Definition record_supply (st : AssetState) (a : list Z) : Z :=
  match records st !! a with Some r => supply r | None => 0 end.

Lemma record_supply_total st a : supply_ok st -> record_supply st a = asset_total (shares st) a.
Proof.
  intros Hsup. unfold record_supply. destruct (records st !! a) as [r|] eqn:Ha.
  - by destruct (so_records _ Hsup a r Ha).
  - symmetry. by apply unregistered_total.
Qed.

(** What a call adds to an asset's supply. *)
Definition supply_delta (call : AssetCall) (ctx : ExecutionContext) (a : list Z) : Z :=
  match call with
  | CallRegister c =>
      match metadata_new (rg_name c) (rg_max_supply c) (actor ctx) (rg_mint_authority c) with
      | Ok md => if decide (a = asset_derive md (rg_nonce c)) then rg_initial_mint c else 0
      | Err _ => 0
      end
  | CallMint c => if decide (a = mt_asset c) then mt_amount c else 0
  | CallTransfer _ => 0
  | CallBurn c => if decide (a = bn_asset c) then - bn_amount c else 0
  end.

Lemma operation_delta call ctx st st' a :
  assets_ok st -> call_wf call -> apply_monetary_operation call ctx st = (st', Ok tt) ->
  record_supply st' a = record_supply st a + supply_delta call ctx a.
Proof.
  intros Hok Hwf Hop. unfold record_supply. destruct call; cbn [apply_monetary_operation] in Hop.
  - apply register_effect in Hop; [|done|done].
    destruct Hop as (md & a0 & id & Hmd & -> & -> & _ & Hnone & _ & -> & _).
    cbn [supply_delta]. rewrite Hmd. case_decide; subst.
    + by rewrite lookup_insert_eq, Hnone.
    + rewrite lookup_insert_ne by done. lia.
  - apply mint_effect in Hop; [|done|done].
    destruct Hop as (r & id & Hr & _ & _ & _ & _ & _ & -> & _).
    cbn [supply_delta]. case_decide; subst.
    + by rewrite lookup_insert_eq, Hr.
    + rewrite lookup_insert_ne by done. lia.
  - apply transfer_effect in Hop; [|done|done]. destruct Hop as (_ & -> & _). simpl. lia.
  - apply burn_effect in Hop; [|done|done]. destruct Hop as (_ & _ & (r & Hr & ->) & _).
    cbn [supply_delta]. case_decide; subst.
    + rewrite lookup_insert_eq, Hr. simpl. lia.
    + rewrite lookup_insert_ne by done. lia.
Qed.

(** ** Authority *)

Definition keeps_shares (s t : AssetState) : Prop := shares s ⊆ shares t.

#[local] Instance keeps_shares_preorder : PreOrder keeps_shares.
Proof. split; [intros s; unfold keeps_shares; done|]. intros s t u Hst Htu. unfold keeps_shares in *. by etransitivity. Qed.

Lemma insert_share_keeps a c i amt o st st' :
  insert_share a c i amt o st = Ok st' -> keeps_shares st st'.
Proof.
  intros (_ & Hid & ->)%insert_share_Ok. unfold keeps_shares. rewrite shares_put_share.
  by apply insert_subseteq.
Qed.

(** A share that a successful operation takes away, or changes, is one of its
    inputs: a share of the call's asset held by the actor. *)
Lemma operation_spends call ctx st st' id s :
  assets_ok st -> call_wf call -> apply_monetary_operation call ctx st = (st', Ok tt) ->
  shares st !! id = Some s -> shares st' !! id ≠ Some s ->
  exists a ins outs, operation_footprint call ctx = Ok (a, ins, outs) /\
    id ∈ ins /\ asset s = a /\ owner s = actor ctx.
Proof.
  intros Hok Hwf Hop Hid Hne. destruct call as [call|call|call|call];
    cbn [apply_monetary_operation operation_footprint] in *.
  - exfalso. apply register_effect in Hop; [|done|done].
    destruct Hop as (md & a & i & _ & _ & _ & _ & _ & Hnone & _ & Hs & _).
    apply Hne. rewrite Hs, lookup_insert_ne; [done|congruence].
  - exfalso. apply mint_effect in Hop; [|done|done].
    destruct Hop as (r & i & _ & _ & _ & _ & _ & Hnone & _ & Hs & _).
    apply Hne. rewrite Hs, lookup_insert_ne; [done|congruence].
  - pose proof Hop as Heff. apply transfer_effect in Heff as ([_ Hheld] & _); [|done|done].
    eexists _, _, _. split; [done|].
    destruct (decide (id ∈ tr_inputs call)) as [Hin|Hout].
    { destruct (Hheld id Hin) as (s' & Hs' & Ha & Ho). by simplify_eq. }
    exfalso. unfold transfer_asset in Hop. inv_ok.
    rename select (st_iter (fun input => st_modify _) _ _ = _) into Hr1.
    rewrite remove_inputs_run in Hr1. simplify_eq. apply Hne.
    rename select (st_iter _ _ _ = _) into Hins.
    assert (keeps_shares (remove_all (tr_inputs call) st) st') as Hk.
    { pose proof (stays_iter keeps_shares (fun '(index, output) =>
        st_update (insert_share (tr_asset call) (commitment ctx) index (ao_amount output)
          (ao_recipient output))) (zip (Z.of_nat <$> seq 0 (length (tr_outputs call)))
          (tr_outputs call))) as Hst.
      specialize (Hst ltac:(intros [i o] _; apply stays_update; [apply _|];
        intros; by eapply insert_share_keeps) (remove_all (tr_inputs call) st)).
      by rewrite Hins in Hst. }
    eapply lookup_weaken; [|exact Hk]. by rewrite lookup_remove_all, decide_False.
  - pose proof Hop as Heff. apply burn_effect in Heff as ([_ Hheld] & _); [|done|done].
    eexists _, _, _. split; [done|].
    destruct (decide (id ∈ bn_inputs call)) as [Hin|Hout].
    { destruct (Hheld id Hin) as (s' & Hs' & Ha & Ho). by simplify_eq. }
    exfalso. unfold burn_asset, update_record in Hop. inv_ok.
    rename select (st_iter (fun input => st_modify _) _ _ = _) into Hr1.
    rewrite remove_inputs_run in Hr1. simplify_eq. apply Hne. simpl.
    match goal with Hc : _ (remove_all _ st) = (?t, _) |- _ =>
      assert (keeps_shares (remove_all (bn_inputs call) st) t) as Hk end.
    { destruct (Unit.is_zero (bn_output call)); [match goal with Hc : mret _ _ = _ |- _ => injection Hc as <- _; unfold keeps_shares; done end|].
      rename select (st_update _ _ = _) into Hins. apply st_update_Ok in Hins.
      by eapply insert_share_keeps. }
    eapply lookup_weaken; [|exact Hk]. by rewrite lookup_remove_all, decide_False.
Qed.

(** ** Composing journals *)

Definition journal_unique (j : AssetJournal) : Prop :=
  NoDup (j_records j).*1 /\ NoDup (j_shares j).*1.

Lemma merge_lookup {V} (l : list (list Z * option V)) (m : gmap (list Z) (option V)) k :
  NoDup l.*1 ->
  fold_left (fun m '(key, previous) =>
    match m !! key with Some _ => m | None => <[key := previous]> m end) l m !! k =
  match m !! k with Some p => Some p | None => (list_to_map l : gmap _ _) !! k end.
Proof.
  revert m. induction l as [|[k' p'] l IH]; intros m Hnd.
  - simpl. rewrite lookup_empty. by destruct (m !! k).
  - rewrite fmap_cons in Hnd. apply NoDup_cons in Hnd as [Hk' Hnd].
    cbn [fold_left]. rewrite IH by done. simpl list_to_map.
    assert ((list_to_map l : gmap (list Z) (option V)) !! k' = None) as Hl'.
    { by apply not_elem_of_list_to_map_1. }
    destruct (decide (k = k')) as [->|Hne].
    + rewrite lookup_insert_eq. destruct (m !! k') eqn:Hm; [by rewrite Hm|].
      by rewrite lookup_insert_eq.
    + rewrite (lookup_insert_ne _ k' k) by done.
      destruct (m !! k') eqn:Hm; [done|]. by rewrite lookup_insert_ne by done.
Qed.

Lemma restore_merge {V} (m : gmap (list Z) V) l1 l2 :
  NoDup l1.*1 -> NoDup l2.*1 ->
  restore m (merge_entries l1 l2) = restore (restore m l2) l1.
Proof.
  intros H1 H2. apply map_eq. intros k. unfold merge_entries.
  set (M := fold_left _ l2 _).
  assert (NoDup (sorted_entries M).*1) as HM.
  { rewrite sorted_entries_keys. apply NoDup_sorted_ids. }
  assert (M !! k = match (list_to_map l1 : gmap (list Z) (option V)) !! k with
    Some p => Some p | None => (list_to_map l2 : gmap _ _) !! k end) as HMk.
  { unfold M. rewrite merge_lookup by done. f_equal.
    by rewrite (list_to_map_proper (rev l1) l1); [| |rewrite <- Permutation_rev];
      [|rewrite (Permutation_map fst (Permutation_sym (Permutation_rev _)))|]. }
  destruct (M !! k) as [p|] eqn:Hk.
  - rewrite (lookup_restore_in m _ k p HM) by (by apply elem_of_sorted_entries).
    destruct (list_to_map l1 !! k) as [p1|] eqn:Hk1.
    + apply elem_of_list_to_map_2 in Hk1. simplify_eq.
      symmetry. by apply lookup_restore_in.
    + apply not_elem_of_list_to_map_2 in Hk1.
      rewrite lookup_restore_out by done. symmetry. apply lookup_restore_in; [done|].
      apply elem_of_list_to_map_2. by rewrite <- HMk.
  - destruct (list_to_map l1 !! k) as [p1|] eqn:Hk1; [done|].
    apply not_elem_of_list_to_map_2 in Hk1. symmetry in HMk.
    apply not_elem_of_list_to_map_2 in HMk.
    rewrite !lookup_restore_out; [done|done|done|].
    rewrite sorted_entries_keys, elem_of_sorted_ids, elem_of_dom. by rewrite Hk; intros [].
Qed.

Lemma apply_journal_unique call ctx st st' j :
  apply call ctx st = (st', Ok j) -> journal_unique j.
Proof.
  intros (st1 & c & a & keys & _ & -> & _ & ->)%apply_Ok.
  split; apply retain_changed_NoDup; [apply NoDup_singleton|apply old_values_NoDup].
Qed.
End props.

(** ** Reachable states *)

Section reachable.
Context `{Sha3} `{RootTest}.

(** ** No operation reads the cached balances *)

(** States that differ in their balances at most. *)
Record alike (s t : AssetState) : Prop := {
  al_records : records s = records t;
  al_shares : shares s = shares t;
  al_index : share_index s = share_index t;
  al_roles : asset_roles s = asset_roles t;
  al_cache : supply_cache s = supply_cache t;
}.

Lemma alike_links s t : alike s t -> links_ok s -> links_ok t.
Proof. intros [Er Es Ei Ero _] [Hx Hr]. by constructor; rewrite <- ?Es, <- ?Ei, <- ?Er, <- ?Ero. Qed.

Lemma remove_share_alike id s t : alike s t -> alike (remove_share id s) (remove_share id t).
Proof.
  intros [Er Es Ei Ero Ec]. unfold remove_share. rewrite Es.
  destruct (shares t !! id); [|done]. by constructor; cbn; rewrite ?Er, ?Es, ?Ei, ?Ero, ?Ec.
Qed.

Lemma put_share_alike id x s t : alike s t -> alike (put_share id x s) (put_share id x t).
Proof.
  intros Hst. unfold put_share. rewrite (al_shares _ _ Hst). case_decide; [done|].
  destruct (remove_share_alike id s t Hst) as [Er Es Ei Ero Ec].
  by constructor; cbn; rewrite ?Er, ?Es, ?Ei, ?Ero, ?Ec.
Qed.

Lemma insert_share_alike a c i amt o :
  related (E := AssetError) alike (st_update (insert_share a c i amt o)).
Proof.
  apply related_update. intros s t Hst. unfold insert_share. rewrite (al_shares _ _ Hst).
  destruct (try_from 32 i); cbn; [|done]. destruct (bool_decide _); cbn; [done|]. by apply put_share_alike.
Qed.

Lemma update_record_alike a f : related (E := AssetError) alike (st_update (update_record a f)).
Proof.
  apply related_update. intros s t [Er Es Ei Ero Ec]. unfold update_record. rewrite Er.
  destruct (records t !! a); cbn; [|done]. constructor; cbn; congruence.
Qed.

Lemma input_total_alike s t a actor ins sum :
  alike s t -> input_total_loop s a actor ins sum = input_total_loop t a actor ins sum.
Proof.
  intros Hst. revert sum. induction ins as [|id ins IH]; intros sum; [done|]. cbn [input_total_loop].
  rewrite (al_shares _ _ Hst). destruct (shares t !! id); cbn; [|done].
  unfold guard_err. repeat (case_match; [done|]). destruct (Unit.checked_add _ _); cbn; [|done]. apply IH.
Qed.

Ltac alike_step :=
  match goal with
  | |- related _ (mret _) => apply related_ret
  | |- related _ (_ ≫= _) => apply related_bind; [|intros ?]
  | |- related _ (st_lift _) => apply related_lift
  | |- related _ (st_require _ _) => apply related_lift
  | |- related _ (st_check _) =>
      let Hst := fresh in intros ? ? Hst; split; [|done]; cbn; unfold input_total;
      first [by rewrite (al_records _ _ Hst)|by apply input_total_alike]
  | |- related _ (st_modify _) =>
      apply related_modify; intros ? ?; first [by apply remove_share_alike|by intros []; constructor; cbn; congruence]
  | |- related _ (st_iter _ _) => apply related_iter; intros ? _
  | |- related _ (st_update (insert_share _ _ _ _ _)) => apply insert_share_alike
  | |- related _ (st_update (update_record _ _)) => apply update_record_alike
  | |- related _ (if ?b then _ else _) => destruct b
  | |- related _ (let '(_, _) := ?p in _) => destruct p
  end.

Lemma operation_alike call ctx : related alike (apply_monetary_operation call ctx).
Proof.
  destruct call as [c|c|c|c]; cbn [apply_monetary_operation];
    unfold register_asset, mint_asset, transfer_asset, burn_asset; repeat alike_step.
Qed.

(** ** Reachable states *)

(** Every state produced by applying calls, failing ones included, from the
    empty state. *)
Inductive reachable : AssetState -> Prop :=
| reachable_empty : reachable assets_empty
| reachable_apply st call ctx : reachable st -> call_wf call -> reachable (apply call ctx st).1.

(** Registrations whose maximum supply fits half the unit range. *)
Definition moderate (call : AssetCall) : Prop :=
  match call with CallRegister c => rg_max_supply c < 2 ^ 127 | _ => True end.

Definition moderate_records (st : AssetState) : Prop :=
  map_Forall (fun _ r => max_supply (metadata r) < 2 ^ 127) (records st).

Lemma assets_ok_empty : assets_ok assets_empty.
Proof.
  split; constructor; simpl; try done.
  - eapply index2_exact_ext; [apply index2_exact_empty|]. intros o a k. unfold share_rel.
    rewrite lookup_empty. naive_solver.
  - eapply index_exact_ext; [apply index_exact_empty|]. intros o a. unfold role_rel.
    rewrite lookup_empty. naive_solver.
Qed.

Lemma moderate_half_range st : assets_ok st -> moderate_records st -> half_range st.
Proof.
  intros [_ Hsup] Hm a. rewrite <- record_supply_total by done. unfold record_supply.
  destruct (records st !! a) as [r|] eqn:Ha; [|done].
  specialize (Hm a r Ha). cbn beta in Hm.
  destruct (so_records _ Hsup a r Ha) as ((_ & Hs & Hb & Hle & _) & _). lia.
Qed.

Lemma apply_moderate call ctx st :
  assets_ok st -> moderate_records st -> call_wf call -> moderate call ->
  moderate_records (apply call ctx st).1.
Proof.
  intros Hok Hm Hwf Hmod. destruct (apply call ctx st) as [st' [j|e]] eqn:Hap; simpl.
  - apply apply_Ok in Hap as (st1 & c & a & keys & Hop & -> & _). unfold moderate_records. simpl.
    destruct call as [call|call|call|call]; cbn [apply_monetary_operation moderate] in *.
    + apply register_effect in Hop; [|done|done].
      destruct Hop as (md & a0 & id & Hmd & _ & _ & _ & _ & _ & -> & _).
      apply metadata_new_Ok in Hmd as [-> _]. by apply map_Forall_insert_2.
    + apply mint_effect in Hop; [|done|done].
      destruct Hop as (r & id & Hr & _ & _ & _ & _ & _ & -> & _).
      apply map_Forall_insert_2; [exact (Hm _ r Hr)|done].
    + apply transfer_effect in Hop; [|done|done]. by destruct Hop as (_ & -> & _).
    + apply burn_effect in Hop; [|done|done]. destruct Hop as (_ & _ & (r & Hr & ->) & _).
      apply map_Forall_insert_2; [exact (Hm _ r Hr)|done].
  - apply apply_Err_tables in Hap as [Hr _]. unfold moderate_records. by rewrite Hr.
Qed.

Lemma assets_ok_equiv st st' : st' ≡ st -> assets_ok st -> assets_ok st'.
Proof.
  intros [Er Es Ei Eb Eo] [[Hp Hbd Hx Hb Hr] [Hbk Hrc]]. split; constructor; intros; rewrite ?Er, ?Es, ?Ei, ?Eb, ?Eo; auto.
Qed.

(** Good but for the balances. *)
Definition repairable (st : AssetState) : Prop := exists s, alike s st /\ assets_ok s.

Lemma repairable_same st st' s :
  alike s st -> assets_ok s -> links_ok st' -> records st' = records st -> shares st' = shares st ->
  repairable st'.
Proof.
  intros [Er Es _ _ _] [[Hp Hbd _ Hb _] [Hk Hrc]] [Hx Hr] Er' Es'.
  exists {| records := records st'; shares := shares st'; share_index := share_index st';
            owner_asset_balances := owner_asset_balances s; asset_roles := asset_roles st';
            supply_cache := supply_cache st' |}.
  split; [by constructor|].
  split; constructor; cbn [records shares share_index owner_asset_balances asset_roles]; try done;
    rewrite ?Er', ?Es', <- ?Er, <- ?Es; done.
Qed.

Lemma apply_repairable call ctx st :
  repairable st -> call_wf call -> repairable (apply call ctx st).1.
Proof.
  intros (s & Hs & Hok) Hwf. pose proof (operation_alike call ctx s st Hs) as [Hres Hal].
  destruct (apply call ctx st) as [st' [j|e]] eqn:Hap; cbn [fst].
  - apply apply_Ok in Hap as (st1 & c & a & keys & Hop & -> & _). rewrite Hop in Hres, Hal.
    destruct (apply_monetary_operation call ctx s) as [s1 r] eqn:Hop'. cbn in Hres, Hal. subst r.
    apply operation_ok in Hop' as Hok1; [|done|done]. exists (set_cache c s1).
    split; [by destruct Hal; constructor|]. destruct Hok1. split; [by apply set_cache_indexes|by apply set_cache_supply].
  - destruct (apply_Err_tables _ _ _ _ _ Hap) as [Hr Hsh].
    apply (repairable_same st _ s); [done|done| |done|done].
    apply apply_Err in Hap as [->|(st1 & c & a & keys & Hop & -> & _)].
    { apply (alike_links s); [done|]. by apply indexes_links, Hok. }
    rewrite Hop in Hres, Hal. destruct (apply_monetary_operation call ctx s) as [s1 r] eqn:Hop'.
    cbn in Hres, Hal. subst r. apply (operation_error _ _ _ _ _ Hok Hwf) in Hop' as [Hix _].
    assert (links_ok (rollback (old_values st a keys) st1)) as []; [|by constructor].
    apply rollback_links, (alike_links s1); [done|]. by apply indexes_links.
Qed.

Lemma reachable_repairable st : reachable st -> repairable st.
Proof.
  induction 1 as [|st call ctx _ IH Hwf]; [|by apply apply_repairable].
  exists assets_empty. split; [done|apply assets_ok_empty].
Qed.

(** No call takes an asset or its metadata away. *)
Lemma apply_keeps_moderate call ctx st :
  repairable st -> call_wf call -> moderate_records (apply call ctx st).1 -> moderate_records st.
Proof.
  intros (s & Hs & Hok) Hwf. pose proof (operation_alike call ctx s st Hs) as [Hres Hal].
  destruct (apply call ctx st) as [st' [j|e]] eqn:Hap; cbn [fst].
  2: { apply apply_Err_tables in Hap as [Hr _]. unfold moderate_records. by rewrite Hr. }
  apply apply_Ok in Hap as (st1 & c & a & keys & Hop & -> & _). rewrite Hop in Hres, Hal.
  destruct (apply_monetary_operation call ctx s) as [s1 r] eqn:Hop'. cbn in Hres, Hal. subst r.
  unfold moderate_records. cbn [set_cache records]. rewrite <- (al_records _ _ Hal), <- (al_records _ _ Hs).
  intros Hm b r Hb. destruct call as [k|k|k|k]; cbn [apply_monetary_operation] in Hop'.
  - apply register_effect in Hop'; [|done|done].
    destruct Hop' as (md & a0 & id & _ & _ & _ & _ & Hn & _ & Hr & _). rewrite Hr in Hm.
    apply (Hm b). rewrite lookup_insert_ne; [done|]. by intros ->; rewrite Hn in Hb.
  - apply mint_effect in Hop'; [|done|done]. destruct Hop' as (r0 & id & Hr0 & _ & _ & _ & _ & _ & Hr & _).
    rewrite Hr in Hm. destruct (decide (b = mt_asset k)) as [->|Hne].
    + rewrite Hr0 in Hb. injection Hb as ->. exact (Hm _ _ (lookup_insert_eq _ _ _)).
    + apply (Hm b). by rewrite lookup_insert_ne.
  - apply transfer_effect in Hop'; [|done|done]. destruct Hop' as (_ & Hr & _). rewrite Hr in Hm. by apply (Hm b).
  - apply burn_effect in Hop'; [|done|done]. destruct Hop' as (_ & _ & (r0 & Hr0 & Hr) & _). rewrite Hr in Hm.
    destruct (decide (b = bn_asset k)) as [->|Hne].
    + rewrite Hr0 in Hb. injection Hb as ->. exact (Hm _ _ (lookup_insert_eq _ _ _)).
    + apply (Hm b). by rewrite lookup_insert_ne.
Qed.

Lemma reachable_ok st : reachable st -> moderate_records st -> assets_ok st.
Proof.
  induction 1 as [|st call ctx Hst IH Hwf]; intros Hm; [apply assets_ok_empty|].
  apply apply_keeps_moderate in Hm; [|by apply reachable_repairable|done]. specialize (IH Hm).
  destruct (apply call ctx st) as [st' [j|e]] eqn:Hap; simpl.
  - by eapply apply_Ok_ok.
  - eapply assets_ok_equiv; [|exact IH].
    eapply apply_Err_equiv; [done|by apply moderate_half_range|done|exact Hap].
Qed.

(** (C14) In every reachable state, after any sequence of well-formed register,
    mint, transfer and burn calls including rejected ones, each record's supply is
    the sum of its live shares, equals minted minus burned and is at most the
    maximum supply; no share is of an unknown asset or of zero amount; and the
    owner and role indexes are exactly those of the tables.  The cached balances
    are those of the tables too if every registered asset has a maximum supply
    below 2^127; above it the undoing of a rejected call may saturate one. *)
Theorem asset_invariant st :
  reachable st ->
  supply_ok st /\ positive (shares st) /\ (forall a, asset_total (shares st) a < 2 ^ 128) /\
  index2_exact (share_index st) (share_rel (shares st)) /\
  index_exact (asset_roles st) (role_rel (records st)) /\
  (moderate_records st -> forall o a, owner_asset_balances st !! (o, a) = nonzero (owner_total (shares st) o a)).
Proof.
  intros Hst. destruct (reachable_repairable st Hst) as (s & [Er Es Ei Ero _] & [[Hp Hbd Hx Hb Hr] [Hk Hrc]]).
  rewrite Er, Es, ?Ei, ?Ero in *. split_and!; [by split|done|done|done|done|].
  intros Hm o a. apply (ix_balances _ (proj1 (reachable_ok st Hst Hm))).
Qed.

(** A rejected call changes nothing: the records and shares are those
    before the call whatever the call did before failing, and in a reachable
    state of moderate supplies so is every derived index. *)
Theorem asset_apply_atomic st call ctx st' e :
  apply call ctx st = (st', Err e) ->
  records st' = records st /\ shares st' = shares st /\
  (reachable st -> moderate_records st -> call_wf call -> st' ≡ st).
Proof.
  intros Hap. destruct (apply_Err_tables _ _ _ _ _ Hap) as [Hr Hs]. split_and!; [done|done|].
  intros Hst Hm Hwf. pose proof (reachable_ok st Hst Hm).
  eapply apply_Err_equiv; [done|by apply moderate_half_range|done|exact Hap].
Qed.

(** The journal of an accepted call undoes it: rollback restores the
    records and shares, and in a reachable state of moderate supplies every
    derived index. *)
Theorem asset_rollback_restores st call ctx st' j :
  apply call ctx st = (st', Ok j) ->
  records (rollback j st') = records st /\ shares (rollback j st') = shares st /\
  (reachable st -> moderate_records st -> call_wf call -> moderate call -> rollback j st' ≡ st).
Proof.
  intros Hap. destruct (apply_rollback_tables _ _ _ _ _ Hap) as [Hr Hs]. split_and!; [done|done|].
  intros Hst Hm Hwf Hmod. pose proof (reachable_ok st Hst Hm) as Hok.
  eapply apply_rollback_equiv; [done|by apply moderate_half_range| |done|exact Hap].
  apply moderate_half_range; [by eapply apply_Ok_ok|].
  pose proof (apply_moderate call ctx st Hok Hm Hwf Hmod) as Hm'. by rewrite Hap in Hm'.
Qed.

(** Supply accounting of an accepted call: the recorded supply of every
    asset, and with it the sum of its live shares, changes by the registered
    initial amount, the minted amount, zero for a transfer, or minus the burned
    amount, and every other asset is untouched. *)
Theorem asset_supply_conservation st call ctx st' j a :
  assets_ok st -> call_wf call -> apply call ctx st = (st', Ok j) ->
  record_supply st' a = record_supply st a + supply_delta call ctx a /\
  asset_total (shares st') a = asset_total (shares st) a + supply_delta call ctx a.
Proof.
  intros Hok Hwf Hap. pose proof (apply_Ok_ok _ _ _ _ _ Hok Hwf Hap) as Hok'.
  apply apply_Ok in Hap as (st1 & c & a0 & keys & Hop & -> & _).
  pose proof (operation_delta _ _ _ _ a Hok Hwf Hop) as Hd.
  rewrite <- !record_supply_total by (apply Hok || apply Hok'). done.
Qed.

(** Authority: an accepted call takes away only shares of its own asset
    held by the acting principal and listed as inputs, and a mint is accepted
    only from the asset's mint authority with the next mint nonce. *)
Theorem asset_authority st call ctx st' j :
  assets_ok st -> call_wf call -> apply call ctx st = (st', Ok j) ->
  (forall id s, shares st !! id = Some s -> shares st' !! id ≠ Some s ->
     exists a ins outs, operation_footprint call ctx = Ok (a, ins, outs) /\
       id ∈ ins /\ asset s = a /\ owner s = actor ctx) /\
  (forall c, call = CallMint c ->
     exists r, records st !! mt_asset c = Some r /\
       mint_authority (metadata r) = actor ctx /\ mt_nonce c = mint_nonce r + 1).
Proof.
  intros Hok Hwf (st1 & c & a0 & keys & Hop & -> & _)%apply_Ok. split.
  - intros id s Hs Hne. by eapply operation_spends.
  - intros c' ->. apply mint_effect in Hop; [|done|done].
    destruct Hop as (r & id & Hr & Ha & Hn & _). by exists r.
Qed.

(** Journals compose: rolling back the merge of two consecutive calls'
    journals restores the same records and shares as rolling back the second
    and then the first. *)
Theorem asset_journal_merge st c1 x1 st1 j1 c2 x2 st2 j2 :
  apply c1 x1 st = (st1, Ok j1) -> apply c2 x2 st1 = (st2, Ok j2) ->
  records (rollback (merge j1 j2) st2) = records st /\
  shares (rollback (merge j1 j2) st2) = shares st.
Proof.
  intros H1 H2. pose proof (apply_journal_unique _ _ _ _ _ H1) as [Hr1 Hs1].
  pose proof (apply_journal_unique _ _ _ _ _ H2) as [Hr2 Hs2].
  apply apply_rollback_tables in H1 as [H1r H1s]. apply apply_rollback_tables in H2 as [H2r H2s].
  rewrite records_rollback, shares_rollback in *. unfold merge. simpl.
  by rewrite !restore_merge, H2r, H2s.
Qed.
End reachable.

(** ** A balance lost by rollback *)

Section saturation.
Context `{Sha3} `{RootTest}.

(** The holder of a share moves it to a new share of its own. *)
Definition self_transfer (a id : list Z) (o : Owner) (amt : Z) : AssetCall :=
  CallTransfer {| tr_asset := a; tr_inputs := [id];
                  tr_outputs := [{| ao_recipient := o; ao_amount := amt |}] |}.

Lemma balances_remove id s st :
  shares st !! id = Some s ->
  owner_asset_balances (remove_share id st)
  = sub_balance (owner s, asset s) (amount s) (owner_asset_balances st).
Proof. intros Hid. unfold remove_share. by rewrite Hid. Qed.

Lemma balances_put_new id s st :
  shares st !! id = None ->
  owner_asset_balances (put_share id s st)
  = add_balance (owner s, asset s) (amount s) (owner_asset_balances st).
Proof.
  intros Hid. unfold put_share, remove_share. rewrite Hid. by rewrite decide_False.
Qed.

Lemma self_transfer_effect a id o amt ctx st st' j :
  shares st !! id = Some {| asset := a; amount := amt; owner := o |} ->
  lex_compare id (share_derive a (commitment ctx) 0) = Lt ->
  apply (self_transfer a id o amt) ctx st = (st', Ok j) ->
  exists c, st' = set_cache c (put_share (share_derive a (commitment ctx) 0)
                                 {| asset := a; amount := amt; owner := o |} (remove_share id st)) /\
    shares st !! share_derive a (commitment ctx) 0 = None /\
    j = {| j_records := [];
           j_shares := [(id, Some {| asset := a; amount := amt; owner := o |});
                        (share_derive a (commitment ctx) 0, None)] |}.
Proof.
  set (x := {| asset := a; amount := amt; owner := o |}). set (new := share_derive a (commitment ctx) 0).
  intros Hid Hlt. assert (id <> new) as Hne.
  { intros Heq. rewrite (proj2 (lex_compare_Eq id new)) in Hlt by done. done. }
  unfold apply, self_transfer. destruct (decode _ _); [|done].
  destruct (snapshot_operation st _ ctx) as [j0|] eqn:Hsnap; [|done].
  apply snapshot_spec in Hsnap as (a' & ins & outs & [= <- <- <-] & ->).
  destruct (apply_monetary_operation _ ctx st) as [st1 [[]|e]] eqn:Hop; [|done].
  assert (shares st !! new = None /\ st1 = put_share new x (remove_share id st)) as [Hn ->].
  { cbn [apply_monetary_operation] in Hop. unfold transfer_asset in Hop.
    cbn [tr_asset tr_inputs tr_outputs length seq zip st_iter fmap list_fmap] in Hop. inv_ok.
    rename select (insert_share _ _ _ _ _ _ = Ok _) into Hins.
    apply insert_share_Ok in Hins as (_ & Hn & ->).
    repeat match goal with Hm : mret tt _ = _ |- _ => unfold mret, st_mret in Hm; injection Hm as <- end.
    rewrite shares_remove_share, lookup_delete_ne in Hn by done. done. }
  unfold advance_supply_summary. intros [= <- <-]. eexists. split; [done|]. split; [done|].
  unfold old_values, retain_changed. cbn [j_records j_shares].
  assert (footprint_keys a ctx [id] 1 = {[id]} ∪ {[new]}) as ->.
  { unfold footprint_keys, output_key. subst new. cbn [seq fmap list_fmap list_to_set]. set_solver. }
  rewrite sorted_ids_pair by done. cbn [fmap list_fmap List.filter].
  rewrite records_put_share, records_remove_share, bool_decide_eq_true_2 by done.
  rewrite shares_put_share, shares_remove_share, Hid, Hn.
  rewrite (bool_decide_eq_false_2 (<[new := x]> (delete id (shares st)) !! id = Some x))
    by (rewrite lookup_insert_ne, lookup_delete_eq; done).
  rewrite (bool_decide_eq_false_2 (<[new := x]> (delete id (shares st)) !! new = None))
    by (rewrite lookup_insert_eq; done).
  done.
Qed.

(** (C39) Rollback can lose a cached balance.  When the holder of a share moves it to a
    new share of its own whose identifier sorts after the old one, and its
    balance and the share together exceed the unit range, undoing the transfer
    restores the share but not the cached balance: the old share is added before
    the new one is taken away, the addition saturates at 2^128 - 1, and what
    remains is 2^128 - 1 less the share, which is below the balance there was. *)
Theorem rollback_saturates_balance st a id o amt ctx st' j :
  assets_ok st -> call_wf (self_transfer a id o amt) ->
  shares st !! id = Some {| asset := a; amount := amt; owner := o |} ->
  lex_compare id (share_derive a (commitment ctx) 0) = Lt ->
  2 ^ 128 <= balance_by_owner_asset st o a + amt ->
  apply (self_transfer a id o amt) ctx st = (st', Ok j) ->
  records (rollback j st') = records st /\ shares (rollback j st') = shares st /\
  balance_by_owner_asset st' o a = balance_by_owner_asset st o a /\
  balance_by_owner_asset (rollback j st') o a = 2 ^ 128 - 1 - amt /\
  2 ^ 128 - 1 - amt < balance_by_owner_asset st o a.
Proof.
  intros Hok Hwf Hid Hlt Hbig Hap.
  destruct (apply_rollback_tables _ _ _ _ _ Hap) as [Hr Hs]. split; [exact Hr|]. split; [exact Hs|].
  pose proof (apply_Ok_ok _ _ _ _ _ Hok Hwf Hap) as [[Hp' _ _ Hb' _] _]. destruct Hok as [[Hp _ _ Hb _] _].
  pose proof (Hp id _ Hid) as Hpos. cbn in Hpos. clear Hr Hs.
  assert (fits 128 amt) as [_ Hmax] by (destruct Hwf as (_ & _ & [[_ Hf] _]%Forall_cons); exact Hf).
  destruct (self_transfer_effect a id o amt ctx st st' j Hid Hlt Hap) as (c & -> & Hn & ->). clear Hap Hwf.
  set (x := {| asset := a; amount := amt; owner := o |}) in *.
  set (new := share_derive a (commitment ctx) 0) in *.
  assert (id <> new) as Hne.
  { intros Heq. rewrite (proj2 (lex_compare_Eq id new)) in Hlt by done. done. }
  assert (forall m, default 0 (nonzero m) = m) as Hnz by (intros m; unfold nonzero; by case_decide).
  assert (owner_total (<[new := x]> (delete id (shares st))) o a = owner_total (shares st) o a) as Htot.
  { rewrite owner_total_insert by (by rewrite lookup_delete_ne).
    rewrite (owner_total_delete _ o a id x Hid). unfold owned. cbn. rewrite decide_True by done. lia. }
  set (t := put_share new x (remove_share id st)) in *.
  assert (shares t = <[new := x]> (delete id (shares st))) as Hsh
    by (subst t; by rewrite shares_put_share, shares_remove_share).
  specialize (Hb' o a). cbn [set_cache shares owner_asset_balances] in Hb', Hp'. rewrite Hsh, Htot in Hb'.
  unfold balance_by_owner_asset in *. rewrite Hb, Hnz in *.
  split; [cbn [set_cache owner_asset_balances]; by rewrite Hb', Hnz|].
  unfold rollback, advance_supply_summary. cbn [j_records j_shares fold_left rollback_share set_cache owner_asset_balances].
  assert (shares (set_cache c t) = <[new := x]> (delete id (shares st))) as Hsh' by exact Hsh.
  rewrite (balances_remove new x).
  2: { rewrite shares_put_share, Hsh', lookup_insert_ne, lookup_insert_eq by done. done. }
  rewrite balances_put_new by (by rewrite Hsh', lookup_insert_ne, lookup_delete_eq).
  cbn [set_cache owner_asset_balances]. change (owner x, asset x) with (o, a). change (amount x) with amt.
  unfold add_balance. rewrite Hb', Hnz. unfold sub_balance. rewrite lookup_insert_eq. cbn [mbind option_bind].
  assert (Unit.saturating_add (owner_total (shares st) o a) amt = 2 ^ 128 - 1) as ->.
  { unfold Unit.saturating_add, saturating_add. lia. }
  assert (Unit.checked_sub (2 ^ 128 - 1) amt = Some (2 ^ 128 - 1 - amt)) as ->.
  { unfold Unit.checked_sub, checked_sub. by rewrite (proj2 (Z.ltb_ge _ _)) by lia. }
  cbn [default]. unfold Unit.is_zero, Datatypes.id. destruct (Z.eqb_spec (2 ^ 128 - 1 - amt) 0) as [Hz|Hz].
  - rewrite lookup_delete_eq. split; [by rewrite Hz|lia].
  - rewrite lookup_insert_eq. split; [done|lia].
Qed.
End saturation.

(** ** Concrete calls *)

Section examples.
#[local] Instance example_sha3 : Sha3 := toy_sha3.
#[local] Instance example_roots : RootTest := fun _ _ _ => false.

Let alice : Owner := Program (replicate HASH_SIZE 1).
Let bob : Owner := Program (replicate HASH_SIZE 2).
Let ctx (n : Z) : ExecutionContext := {| actor := alice; commitment := replicate HASH_SIZE n |}.

Let register_call : AssetCall :=
  CallRegister {| rg_name := [71; 79; 76; 68]; rg_max_supply := 100; rg_initial_mint := 10;
                  rg_mint_authority := alice; rg_nonce := 1 |}.

Let state1 : AssetState := (apply register_call (ctx 5) assets_empty).1.
Let gold : list Z := default [] (head (map_to_list (records state1)).*1).
Let share1 : list Z := default [] (head (map_to_list (shares state1)).*1).

Let split_call (input : list Z) (x y : Z) : AssetCall :=
  CallTransfer {| tr_asset := gold; tr_inputs := [input];
                  tr_outputs := [{| ao_recipient := alice; ao_amount := x |};
                                 {| ao_recipient := bob; ao_amount := y |}] |}.

Let transfer_call : AssetCall := split_call share1 4 6.
Let state2 : AssetState := (apply transfer_call (ctx 6) state1).1.
Let share2 : list Z := share_derive gold (commitment (ctx 6)) 0.

#[local] Lemma register_call_wf : call_wf register_call.
Proof.
  split_and!; try done; try (by apply digits_compute); split; try done; by apply digits_compute.
Qed.

#[local] Lemma state1_reachable : reachable state1.
Proof. apply reachable_apply; [constructor|apply register_call_wf]. Qed.

#[local] Lemma state1_moderate : moderate_records state1.
Proof. apply (bool_decide_unpack _). vm_compute. exact I. Qed.

#[local] Lemma split_call_wf input x y :
  hash_wf input -> fits 128 x -> fits 128 y -> call_wf (split_call input x y).
Proof.
  intros Hi Hx Hy. assert (hash_wf gold) as Hg.
  { apply hash_wf_compute. vm_compute. reflexivity. }
  split_and!; [done|by apply Forall_singleton|].
  apply Forall_cons. split; [|apply Forall_singleton]; (split; [|done]); by apply hash_wf_compute.
Qed.

#[local] Lemma transfer_call_wf : call_wf transfer_call.
Proof.
  apply split_call_wf; [|done|done]. apply hash_wf_compute. vm_compute. reflexivity.
Qed.

#[local] Lemma transfer_accepted :
  exists j, apply transfer_call (ctx 6) state1 = (state2, Ok j).
Proof. eexists. apply pair_snd. vm_compute. reflexivity. Qed.

Lemma asset_invariant_witness :
  supply_ok state1 /\
  forall o a, owner_asset_balances state1 !! (o, a) = nonzero (owner_total (shares state1) o a).
Proof.
  destruct (asset_invariant state1 state1_reachable) as (Hs & _ & _ & _ & _ & Hb).
  split; [exact Hs|exact (Hb state1_moderate)].
Defined.

(** The second output identifier is taken: the call fails after it removed its
    input and created its first output. *)
Lemma asset_apply_atomic_witness :
  let failed := (apply (split_call share2 1 3) (ctx 6) state2).1 in
  records failed = records state2 /\ shares failed = shares state2 /\
  (reachable state2 -> moderate_records state2 -> call_wf (split_call share2 1 3) -> failed ≡ state2).
Proof.
  apply (asset_apply_atomic state2 (split_call share2 1 3) (ctx 6) _ ShareAlreadyExists).
  apply pair_snd. vm_compute. reflexivity.
Defined.

Lemma asset_rollback_restores_witness :
  exists j, records (rollback j state2) = records state1 /\
    shares (rollback j state2) = shares state1 /\ rollback j state2 ≡ state1.
Proof.
  destruct transfer_accepted as [j Hj]. exists j.
  destruct (asset_rollback_restores state1 transfer_call (ctx 6) state2 j Hj) as (Hr & Hs & He).
  split_and!; [exact Hr|exact Hs|].
  apply He; [exact state1_reachable|exact state1_moderate|exact transfer_call_wf|exact I].
Defined.

Lemma asset_supply_conservation_witness :
  record_supply state1 gold = record_supply assets_empty gold + 10 /\
  asset_total (shares state1) gold = asset_total (shares assets_empty) gold + 10.
Proof.
  destruct (snd (apply register_call (ctx 5) assets_empty)) as [j|e] eqn:Hj;
    [|vm_compute in Hj; discriminate Hj].
  assert (supply_delta register_call (ctx 5) gold = 10) as <- by (vm_compute; reflexivity).
  apply (asset_supply_conservation assets_empty register_call (ctx 5) state1 j gold);
    [exact assets_ok_empty|exact register_call_wf|apply pair_snd; exact Hj].
Defined.

Lemma asset_authority_witness :
  exists a ins outs, operation_footprint transfer_call (ctx 6) = Ok (a, ins, outs) /\
    share1 ∈ ins /\ a = gold.
Proof.
  destruct transfer_accepted as [j Hj].
  destruct (asset_authority state1 transfer_call (ctx 6) state2 j
    (reachable_ok _ state1_reachable state1_moderate) transfer_call_wf Hj) as [Hs _].
  destruct (Hs share1 {| asset := gold; amount := 10; owner := alice |})
    as (a & ins & outs & Hf & Hin & Ha & _);
    [vm_compute; reflexivity|vm_compute; discriminate|].
  exists a, ins, outs. split; [exact Hf|]. split; [exact Hin|symmetry; exact Ha].
Defined.

Lemma asset_journal_merge_witness :
  exists j1 j2, records (rollback (merge j1 j2) state2) = records assets_empty /\
    shares (rollback (merge j1 j2) state2) = shares assets_empty.
Proof.
  destruct (snd (apply register_call (ctx 5) assets_empty)) as [j1|e] eqn:Hj1;
    [|vm_compute in Hj1; discriminate Hj1].
  destruct transfer_accepted as [j2 Hj2]. exists j1, j2.
  apply (asset_journal_merge assets_empty register_call (ctx 5) state1 j1
    transfer_call (ctx 6) state2 j2); [apply pair_snd; exact Hj1|exact Hj2].
Defined.

(** ** The largest supply in one share *)

Let units : Z := 2 ^ 128 - 1.
Let whale_call : AssetCall :=
  CallRegister {| rg_name := [71; 79; 76; 68]; rg_max_supply := units; rg_initial_mint := units;
                  rg_mint_authority := alice; rg_nonce := 1 |}.
Let whale1 : AssetState := (apply whale_call (ctx 5) assets_empty).1.
Let whale_gold : list Z := default [] (head (map_to_list (records whale1)).*1).
Let whale_share : list Z := default [] (head (map_to_list (shares whale1)).*1).

#[local] Lemma whale_call_wf : call_wf whale_call.
Proof.
  split_and!; try done; try (by apply digits_compute); split; try done; by apply digits_compute.
Qed.

#[local] Lemma whale_ok : assets_ok whale1.
Proof.
  destruct (apply whale_call (ctx 5) assets_empty) as [st [j|e]] eqn:Hap.
  - exact (apply_Ok_ok _ _ _ _ _ assets_ok_empty whale_call_wf Hap).
  - apply (f_equal snd) in Hap. vm_compute in Hap. discriminate Hap.
Qed.

Lemma rollback_saturates_balance_witness :
  exists whale2 j, apply (self_transfer whale_gold whale_share alice units) (ctx 6) whale1 = (whale2, Ok j) /\
    balance_by_owner_asset whale1 alice whale_gold = units /\
    balance_by_owner_asset (rollback j whale2) alice whale_gold = 0.
Proof.
  destruct (apply (self_transfer whale_gold whale_share alice units) (ctx 6) whale1) as [whale2 [j|e]] eqn:Hap.
  2: { exfalso. apply (f_equal snd) in Hap. vm_compute in Hap. discriminate Hap. }
  exists whale2, j. split; [reflexivity|]. split; [vm_compute; reflexivity|].
  assert (hash_wf whale_gold) as Hg by (apply hash_wf_compute; vm_compute; reflexivity).
  assert (hash_wf whale_share) as Hw by (apply hash_wf_compute; vm_compute; reflexivity).
  assert (call_wf (self_transfer whale_gold whale_share alice units)) as Hwf.
  { split; [exact Hg|]. split; [constructor; [exact Hw|constructor]|]. constructor; [|constructor].
    split; [apply hash_wf_compute; vm_compute; reflexivity|].
    split; vm_compute; [discriminate|reflexivity]. }
  destruct (rollback_saturates_balance whale1 whale_gold whale_share alice units (ctx 6) whale2 j
    whale_ok Hwf ltac:(vm_compute; reflexivity) ltac:(vm_compute; reflexivity)
    ltac:(vm_compute; discriminate) Hap) as (_ & _ & _ & Hb & _).
  rewrite Hb. reflexivity.
Defined.
End examples.
