(* ===== verification/AssetAudit.v ===== *)
(** * Asset supply audit

    Models [kernel/src/ledger/utxo/asset/supply.rs] and the asset part of
    [kernel/src/ledger/canonical/accounting.rs]: the full audit of records
    against live shares, and the incremental audit that rechecks only the
    assets touched since the last successful audit.  The cache is a slot shared
    by cloned states; its content is judged by an invariant of its own, so the
    theorems hold whichever clone wrote it. *)

From S2P Require Import Prelude Codec Monetary Index Assets AssetFacts AssetProps.
#[local] Open Scope Z_scope.

(** The accounting variants of [LedgerError]. *)
Inductive SupplyError :=
| TotalOverflow | InvalidAssetState | AssetSupplyMismatch | UnknownAssetShare.

#[global] Instance SupplyError_eq_dec : EqDecision SupplyError.
Proof. solve_decision. Defined.

(** ** The full audit *)

Fixpoint audit_shares (recs : gmap (list Z) AssetRecord) (entries : list (list Z * AssetShare))
    (totals : gmap (list Z) Z) : result SupplyError (gmap (list Z) Z) :=
  match entries with
  | [] => Ok totals
  | (_, share) :: rest =>
      fail_if Unit.is_zero (amount share) with InvalidAssetState;
      fail_if negb (bool_decide (is_Some (recs !! asset share))) with UnknownAssetShare;
      total ← ok_or (Unit.checked_add (total_of totals (asset share)) (amount share))
                TotalOverflow;
      audit_shares recs rest (<[asset share := total]> totals)
  end.

(** The check of one record, as both audits make it. *)
Definition record_error (totals : gmap (list Z) Z) (asset : list Z) (record : AssetRecord)
    : option SupplyError :=
  match metadata_validate (metadata record) with
  | Err _ => Some InvalidAssetState
  | Ok _ =>
      if (max_supply (metadata record) <? total_minted record)
         || negb (bool_decide (Unit.checked_sub (total_minted record) (total_burned record)
                               = Some (supply record)))
         || negb (total_of totals asset =? supply record)
      then Some AssetSupplyMismatch
      else None
  end.

Fixpoint audit_records (totals : gmap (list Z) Z) (entries : list (list Z * AssetRecord))
    : result SupplyError unit :=
  match entries with
  | [] => Ok tt
  | (asset, record) :: rest =>
      match record_error totals asset record with
      | Some error => Err error
      | None => audit_records totals rest
      end
  end.

Definition remember_valid_supply (totals : gmap (list Z) Z) (self : AssetState) : AssetState :=
  set_cache (Some {| key_records := records self; key_shares := shares self;
                     key_totals := totals; key_dirty := ∅ |}) self.

Definition audit_asset_supply : ST AssetState SupplyError unit :=
  totals ← st_check (fun self => audit_shares (records self) (sorted_entries (shares self)) ∅);
  _ ← st_check (fun self => audit_records totals (sorted_entries (records self)));
  st_modify (remember_valid_supply totals).

(** ** The incremental audit *)

Section incremental.
Context `{RootTest}.

(** A dirty asset with live shares and no record. *)
Definition unknown_share (self : AssetState) (key : ValidatedAssetRoots) (asset : list Z) : bool :=
  negb (Unit.is_zero (total_of (key_totals key) asset))
  && negb (bool_decide (is_Some (records self !! asset))).

Fixpoint audit_dirty (self : AssetState) (totals : gmap (list Z) Z) (dirty : list (list Z))
    : result SupplyError unit :=
  match dirty with
  | [] => Ok tt
  | asset :: rest =>
      match record ← records self !! asset; record_error totals asset record with
      | Some error => Err error
      | None => audit_dirty self totals rest
      end
  end.

(** [None] when a full audit is required. *)
Definition validate_incremental_supply (self : AssetState)
    : option (AssetState * result SupplyError unit) :=
  key ← supply_snapshot self;
  let dirty := sorted_ids (key_dirty key) in
  if existsb (unknown_share self key) dirty then Some (self, Err UnknownAssetShare)
  else
    match audit_dirty self (key_totals key) dirty with
    | Err error => Some (self, Err error)
    | Ok _ =>
        Some (set_cache (Some {| key_records := key_records key; key_shares := key_shares key;
                                 key_totals := key_totals key; key_dirty := ∅ |}) self, Ok tt)
    end.

(** [validate_supply_with_asset_cache], asset part. *)
Definition validate_asset_supply (allow_cached : bool) : ST AssetState SupplyError unit :=
  fun self =>
  match if allow_cached then validate_incremental_supply self else None with
  | Some outcome => outcome
  | None => audit_asset_supply self
  end.
End incremental.

(** ** What a cached summary means *)

Definition shares_typed (m : gmap (list Z) AssetShare) : Prop :=
  map_Forall (fun _ s => fits 128 (amount s)) m.

(** The totals are those of the summarised shares, and every asset that is not
    dirty passes the audit. *)
Record summary_ok (key : ValidatedAssetRoots) : Prop := {
  sum_positive : positive (key_shares key);
  sum_bound a : asset_total (key_shares key) a < 2 ^ 128;
  sum_totals a : total_of (key_totals key) a = asset_total (key_shares key) a;
  sum_clean a : a ∉ key_dirty key ->
    match key_records key !! a with
    | Some r => record_error (key_totals key) a r = None
    | None => asset_total (key_shares key) a = 0
    end;
}.

Definition slot_ok (st : AssetState) : Prop :=
  match supply_cache st with Some key => summary_ok key | None => True end.

(** ** The two audits agree *)

Definition share_weight (a : list Z) (kv : list Z * AssetShare) : Z := of_asset a kv.2.

Lemma asset_total_entries m a : asset_total m a = zsum (share_weight a <$> sorted_entries m).
Proof. apply (map_sum_entries (fun _ => of_asset a)). Qed.

Lemma total_of_insert totals a t a' :
  total_of (<[a := t]> totals) a' = if decide (a' = a) then t else total_of totals a'.
Proof.
  unfold total_of. case_decide; subst; [by rewrite lookup_insert_eq|by rewrite lookup_insert_ne].
Qed.

Lemma share_weight_nonneg a kv : 0 < amount kv.2 -> 0 <= share_weight a kv.
Proof. intros Hs. unfold share_weight, of_asset. case_decide; lia. Qed.

Lemma share_weight_alt a kv :
  share_weight a kv = if decide (a = asset kv.2) then amount kv.2 else 0.
Proof. unfold share_weight, of_asset. repeat case_decide; congruence. Qed.

(** On positive shares whose sums fit, the share loop accepts exactly when
    every share is of a known asset, and then returns the sums. *)
Lemma audit_shares_spec recs entries totals :
  Forall (fun kv => 0 < amount kv.2) entries ->
  (forall a, 0 <= total_of totals a) ->
  (forall a, total_of totals a + zsum (share_weight a <$> entries) < 2 ^ 128) ->
  if decide (Forall (fun kv => is_Some (recs !! asset kv.2)) entries)
  then exists totals', audit_shares recs entries totals = Ok totals' /\
         forall a, total_of totals' a = total_of totals a + zsum (share_weight a <$> entries)
  else audit_shares recs entries totals = Err UnknownAssetShare.
Proof.
  intros Hpos. revert totals.
  induction Hpos as [|[k s] entries Hs Hpos IH]; intros totals Hn Hlt.
  - rewrite decide_True by constructor. exists totals. split; [done|].
    intros a. cbn [fmap list_fmap]. unfold zsum. simpl. lia.
  - cbn [snd] in Hs. cbn [audit_shares]. unfold Unit.is_zero, guard_err.
    replace (amount s =? 0) with false by lia.
    assert (forall a, 0 <= zsum (share_weight a <$> entries)) as Hz.
    { intros a. apply zsum_nonneg, Forall_fmap. eapply Forall_impl; [exact Hpos|].
      intros kv. apply share_weight_nonneg. }
    case_bool_decide as Hb; simpl negb; cbv iota.
    + assert (share_weight (asset s) (k, s) = amount s) as Hw.
      { unfold share_weight, of_asset. simpl. by rewrite decide_True. }
      pose proof (Hlt (asset s)) as Hs1. rewrite fmap_cons, zsum_cons, Hw in Hs1.
      specialize (Hz (asset s)) as Hz1.
      unfold Unit.checked_add, checked_add. rewrite (proj2 (Z.ltb_lt _ _)) by lia. simpl.
      set (totals1 := <[asset s := total_of totals (asset s) + amount s]> totals).
      assert (forall a, total_of totals1 a = total_of totals a + share_weight a (k, s)) as Ht1.
      { intros a. unfold totals1. rewrite total_of_insert, share_weight_alt. cbn [snd].
        destruct (decide (a = asset s)); subst; lia. }
      assert (forall a, 0 <= share_weight a (k, s)) as Hw0.
      { intros a. by apply share_weight_nonneg. }
      assert (forall a, 0 <= total_of totals1 a) as Hn1.
      { intros a. rewrite Ht1. specialize (Hn a). specialize (Hw0 a). lia. }
      specialize (IH totals1 Hn1 ltac:(intros a; rewrite Ht1; specialize (Hlt a);
        rewrite fmap_cons, zsum_cons in Hlt; lia)).
      destruct (decide (Forall _ entries)) as [Hall|Hall].
      * rewrite decide_True by (by constructor). destruct IH as (totals' & Ha & Hs').
        exists totals'. split; [done|]. intros a. rewrite Hs', Ht1. unfold fmap. lia.
      * rewrite decide_False; [done|]. by intros [_ ?]%Forall_cons.
    + rewrite decide_False; [done|]. by intros [? _]%Forall_cons.
Qed.

(** First error of a check over a list. *)
Fixpoint first_error {A} (f : A -> option SupplyError) (l : list A) : result SupplyError unit :=
  match l with
  | [] => Ok tt
  | a :: l => match f a with Some e => Err e | None => first_error f l end
  end.

Lemma first_error_filter {A} (f : A -> option SupplyError) (P : A -> Prop) `{!forall a, Decision (P a)} l :
  (forall a, a ∈ l -> ~ P a -> f a = None) ->
  first_error f (filter P l) = first_error f l.
Proof.
  induction l as [|a l IH]; intros Hf; [done|]. rewrite filter_cons. cbn [first_error].
  rewrite <- IH by (intros; apply Hf; [by right|done]).
  case_decide as HP; [done|]. by rewrite (Hf a) by (by left || done).
Qed.

#[global] Instance lex_leb_AntiSymm : AntiSymm (=) (fun a b => Is_true (lex_leb a b)).
Proof.
  intros a b. unfold lex_leb. rewrite (lex_compare_antisym a b).
  destruct (lex_compare a b) eqn:Hc; simpl; try done. intros _ _. by apply lex_compare_Eq.
Qed.

Lemma sorted_ids_filter (P : list Z -> Prop) `{!forall a, Decision (P a)} X :
  filter P (sorted_ids X) = sorted_ids (filter P X).
Proof.
  apply (StronglySorted_unique (fun a b => Is_true (lex_leb a b))).
  - pose proof (Sorted_sorted_ids X) as Hs. induction Hs as [|a l Hs IH Ha]; [constructor|].
    rewrite filter_cons. case_decide; [|done]. constructor; [done|].
    apply Forall_forall. intros x [_ Hx]%list_elem_of_filter. rewrite Forall_forall in Ha. by apply Ha.
  - apply Sorted_sorted_ids.
  - apply NoDup_Permutation.
    + apply NoDup_filter, NoDup_sorted_ids.
    + apply NoDup_sorted_ids.
    + intros k. by rewrite list_elem_of_filter, !elem_of_sorted_ids, elem_of_filter.
Qed.

Definition record_error_at (st : AssetState) (totals : gmap (list Z) Z) (a : list Z)
    : option SupplyError :=
  r ← records st !! a; record_error totals a r.

Lemma audit_records_first st totals :
  audit_records totals (sorted_entries (records st)) =
    first_error (record_error_at st totals) (sorted_ids (dom (records st))).
Proof.
  rewrite <- sorted_entries_keys.
  assert (forall k r, (k, r) ∈ sorted_entries (records st) -> records st !! k = Some r) as Hl.
  { intros k r. apply elem_of_sorted_entries. }
  induction (sorted_entries (records st)) as [|[k r] l IH]; [done|].
  cbn [audit_records fmap list_fmap first_error fst].
  unfold record_error_at at 1. rewrite (Hl k r) by (by left). simpl.
  destruct (record_error totals k r); [done|]. apply IH. intros. apply Hl. by right.
Qed.

Lemma audit_dirty_first st totals l :
  audit_dirty st totals l = first_error (record_error_at st totals) l.
Proof.
  induction l as [|a l IH]; [done|]. cbn [audit_dirty first_error]. unfold record_error_at at 1.
  by destruct (r ← records st !! a; record_error totals a r).
Qed.

(** Record errors only occur at dirty assets with a record, so the two
    iterations meet the same first error. *)
Lemma audit_records_dirty st totals dirty :
  (forall a, a ∉ dirty -> record_error_at st totals a = None) ->
  audit_records totals (sorted_entries (records st)) = audit_dirty st totals (sorted_ids dirty).
Proof.
  intros Hclean. rewrite audit_records_first, audit_dirty_first.
  rewrite <- (first_error_filter _ (fun a => a ∈ dirty) (sorted_ids (dom (records st)))) by auto.
  rewrite <- (first_error_filter _ (fun a => a ∈ dom (records st)) (sorted_ids dirty)).
  - f_equal. rewrite !sorted_ids_filter. f_equal. set_solver.
  - intros a _ Ha. unfold record_error_at. by rewrite (not_elem_of_dom_1 _ _ Ha).
Qed.

Lemma record_error_ext totals totals' a r :
  total_of totals a = total_of totals' a -> record_error totals a r = record_error totals' a r.
Proof. intros Heq. unfold record_error. by rewrite Heq. Qed.

Lemma audit_dirty_ext st totals totals' l :
  (forall a, total_of totals a = total_of totals' a) ->
  audit_dirty st totals l = audit_dirty st totals' l.
Proof.
  intros Heq. rewrite !audit_dirty_first. induction l as [|a l IH]; [done|].
  cbn [first_error]. unfold record_error_at at 1 3. rewrite IH.
  destruct (records st !! a) as [r|]; [|done]. simpl.
  by rewrite (record_error_ext totals totals').
Qed.

(** An asset has live shares without a record exactly when its total is not
    zero and it has no record. *)
Lemma unbacked_iff (m : gmap (list Z) AssetShare) (recs : gmap (list Z) AssetRecord) :
  positive m ->
  Forall (fun kv => is_Some (recs !! asset kv.2)) (sorted_entries m) <->
  (forall a, recs !! a = None -> asset_total m a = 0).
Proof.
  intros Hp. split.
  - intros Hall a Ha. apply asset_total_unbacked. intros k s Hk.
    rewrite Forall_forall in Hall. specialize (Hall (k, s)). cbn [snd] in Hall.
    rewrite elem_of_sorted_entries in Hall. intros Heq. rewrite Heq, Ha in Hall. destruct (Hall Hk) as [? [=]].
  - intros Hz. apply Forall_forall. intros [k s] Hk%elem_of_sorted_entries. cbn [snd].
    destruct (recs !! asset s) eqn:Ha; [by eexists|]. exfalso.
    specialize (Hz _ Ha). specialize (Hp k s Hk) as Hs. cbn beta in Hs.
    pose proof (map_sum_lookup_le (fun _ => of_asset (asset s)) m k s
      (of_asset_nonneg _ _ Hp) Hk) as Hle. cbn beta in Hle. unfold of_asset at 1 in Hle.
    rewrite decide_True in Hle by done. unfold asset_total in Hz. lia.
Qed.

Section agreement.
Context `{RootTest, !RootTestSpec}.

Lemma supply_snapshot_Some st key :
  supply_snapshot st = Some key ->
  supply_cache st = Some key /\ records st = key_records key /\ shares st = key_shares key.
Proof.
  unfold supply_snapshot. destruct (supply_cache st) as [k|]; [|done]. simpl.
  destruct (shares_root (records st) _) eqn:Hr; [|done].
  destruct (shares_root (shares st) _) eqn:Hs; [|done]. simpl. intros [= <-].
  split_and!; [done|by apply shares_root_eq|by apply shares_root_eq].
Qed.

Lemma existsb_unknown st key :
  summary_ok key -> records st = key_records key -> shares st = key_shares key ->
  existsb (unknown_share st key) (sorted_ids (key_dirty key)) = false <->
  (forall a, records st !! a = None -> asset_total (shares st) a = 0).
Proof.
  intros Hk Hr Hs. rewrite <- not_true_iff_false, existsb_exists. unfold unknown_share, Unit.is_zero.
  setoid_rewrite <- list_elem_of_In. setoid_rewrite elem_of_sorted_ids.
  setoid_rewrite andb_true_iff. setoid_rewrite negb_true_iff.
  setoid_rewrite bool_decide_eq_false. setoid_rewrite Z.eqb_neq.
  setoid_rewrite (sum_totals _ Hk). rewrite <- Hs. split.
  - intros Hno a Ha. destruct (decide (a ∈ key_dirty key)) as [Hd|Hd].
    + destruct (decide (asset_total (shares st) a = 0)) as [|Hne]; [done|].
      exfalso. apply Hno. exists a. split; [done|]. split; [done|]. by rewrite Ha; intros [].
    + pose proof (sum_clean _ Hk a Hd) as Hc. rewrite <- Hr, Ha, <- Hs in Hc. done.
  - intros Hz (a & _ & Hne & Hnone). apply Hne, Hz. by apply eq_None_not_Some.
Qed.

Lemma incremental_agrees st st' r :
  slot_ok st -> validate_incremental_supply st = Some (st', r) ->
  (audit_asset_supply st).2 = r.
Proof.
  intros Hslot Hv. unfold validate_incremental_supply in Hv.
  apply bind_Some in Hv as (key & Hsnap & Hv).
  apply supply_snapshot_Some in Hsnap as (Hc & Hr & Hs).
  unfold slot_ok in Hslot. rewrite Hc in Hslot. rename Hslot into Hk.
  assert (Forall (fun kv => 0 < amount kv.2) (sorted_entries (shares st))) as Hpos.
  { apply Forall_forall. intros [k s] Hks%elem_of_sorted_entries. rewrite Hs in Hks.
    apply (sum_positive _ Hk k s Hks). }
  pose proof (audit_shares_spec (records st) (sorted_entries (shares st)) ∅ Hpos) as Hspec.
  assert (forall a, total_of (∅ : gmap (list Z) Z) a = 0) as Hz0.
  { intros a. unfold total_of. by rewrite lookup_empty. }
  specialize (Hspec ltac:(intros a; rewrite Hz0; lia) ltac:(intros a;
    rewrite Hz0, <- asset_total_entries, Hs; pose proof (sum_bound _ Hk a); lia)).
  unfold audit_asset_supply, mbind, st_mbind, st_check.
  pose proof (existsb_unknown st key Hk Hr Hs) as Hex.
  pose proof (unbacked_iff (shares st) (records st)) as Hub.
  specialize (Hub ltac:(rewrite Hs; apply Hk)).
  destruct (existsb (unknown_share st key) _).
  { simplify_eq. rewrite decide_False in Hspec; [by rewrite Hspec|].
    rewrite Hub, <- Hex. done. }
  rewrite decide_True in Hspec by (apply Hub, Hex; done).
  destruct Hspec as (totals & -> & Htot). cbn [fst snd].
  rewrite (audit_records_dirty st totals (key_dirty key)).
  - rewrite (audit_dirty_ext st totals (key_totals key)).
    + destruct (audit_dirty st (key_totals key) _) as [[]|e]; by simplify_eq.
    + intros a. rewrite Htot, Hz0, <- asset_total_entries, Hs, (sum_totals _ Hk). lia.
  - intros a Ha. unfold record_error_at. pose proof (sum_clean _ Hk a Ha) as Hcl.
    rewrite <- Hr in Hcl. destruct (records st !! a) as [rec|]; [|done]. simpl.
    rewrite <- Hcl. apply record_error_ext.
    rewrite Htot, Hz0, <- asset_total_entries, Hs, (sum_totals _ Hk). lia.
Qed.
End agreement.

(** ** Carrying a summary across a change *)

Definition delete_keys {V W : Type} (l : list (list Z * W)) (m : gmap (list Z) V) : gmap (list Z) V :=
  fold_left (fun m '(k, _) => delete k m) l m.

Definition put_keys {V W : Type} (live : gmap (list Z) V) (l : list (list Z * W)) (m : gmap (list Z) V)
    : gmap (list Z) V :=
  fold_left (fun m '(k, _) => partial_alter (fun _ => live !! k) k m) l m.

Lemma lookup_delete_keys {V W : Type} (l : list (list Z * W)) (m : gmap (list Z) V) k :
  delete_keys l m !! k = if decide (k ∈ l.*1) then None else m !! k.
Proof.
  revert m. induction l as [|[k' w] l IH]; intros m; [done|].
  cbn [delete_keys fold_left]. fold (delete_keys l (delete k' m)). rewrite IH, fmap_cons.
  destruct (decide (k = k')) as [->|].
  - rewrite lookup_delete_eq. by repeat case_decide; set_solver.
  - rewrite lookup_delete_ne by done. repeat case_decide; set_solver.
Qed.

Lemma lookup_put_keys {V W : Type} (live : gmap (list Z) V) (l : list (list Z * W)) m k :
  put_keys live l m !! k = if decide (k ∈ l.*1) then live !! k else m !! k.
Proof.
  revert m. induction l as [|[k' w] l IH]; intros m; [done|].
  cbn [put_keys fold_left]. fold (put_keys live l (partial_alter (fun _ => live !! k') k' m)).
  rewrite IH, fmap_cons. destruct (decide (k = k')) as [->|].
  - rewrite lookup_partial_alter_eq. repeat case_decide; set_solver.
  - rewrite lookup_partial_alter_ne by done. repeat case_decide; set_solver.
Qed.

(** A touched total changes only at a dirty asset. *)
Lemma subtract_old_spec l totals dirty totals' dirty' m0 :
  NoDup l.*1 -> (forall k p, (k, p) ∈ l -> m0 !! k = p) ->
  (forall a, total_of totals a = asset_total m0 a) ->
  subtract_old l totals dirty = Some (totals', dirty') ->
  (forall a, total_of totals' a = asset_total (delete_keys l m0) a) /\
  dirty ⊆ dirty' /\ (forall a, a ∉ dirty' -> total_of totals' a = total_of totals a).
Proof.
  revert totals dirty m0. induction l as [|[k p] l IH]; intros totals dirty m0 Hnd Hl Ht Hsub.
  - simplify_eq/=. by split_and!.
  - rewrite fmap_cons in Hnd. apply NoDup_cons in Hnd as [Hk Hnd].
    assert (forall i q, (i, q) ∈ l -> delete k m0 !! i = q) as Hl'.
    { intros i q Hi. rewrite lookup_delete_ne; [apply Hl; by right|]. intros ->.
      apply Hk, list_elem_of_fmap. by exists (i, q). }
    specialize (Hl k p ltac:(by left)). cbn [subtract_old] in Hsub.
    cbn [delete_keys fold_left]. fold (delete_keys l (delete k m0)).
    destruct p as [s|].
    + destruct (Unit.is_zero (amount s)); [done|]. apply bind_Some in Hsub as (t & Ht1 & Hsub).
      apply checked_sub_Some in Ht1 as [-> Hle].
      eapply IH in Hsub as (Ha & Hd & Hclean); [| done|exact Hl'|].
      * split_and!; [done|set_solver|]. intros a Hna. rewrite Hclean by done.
        assert (asset s ≠ a) as Hne by set_solver. unfold Unit.is_zero, total_of.
        destruct (_ =? 0); by rewrite ?lookup_delete_ne, ?lookup_insert_ne by done.
      * intros a. rewrite (asset_total_delete m0 a k s Hl), <- Ht. unfold of_asset, Unit.is_zero.
        destruct (Z.eqb_spec (total_of totals (asset s) - amount s) 0) as [Hz|Hz];
          unfold total_of in *; destruct (decide (asset s = a)) as [<-|Hne];
          rewrite ?lookup_delete_eq, ?lookup_insert_eq, ?lookup_delete_ne, ?lookup_insert_ne
            by done; simpl; lia.
    + rewrite (delete_id m0 k Hl) in *. by apply (IH totals dirty).
Qed.

Lemma add_new_spec live l totals dirty totals' dirty' m1 :
  NoDup l.*1 -> (forall k, k ∈ l.*1 -> m1 !! k = None) -> shares_typed live ->
  (forall a, total_of totals a = asset_total m1 a) ->
  positive m1 -> (forall a, asset_total m1 a < 2 ^ 128) ->
  add_new live l totals dirty = Some (totals', dirty') ->
  (forall a, total_of totals' a = asset_total (put_keys live l m1) a) /\
  positive (put_keys live l m1) /\ (forall a, asset_total (put_keys live l m1) a < 2 ^ 128) /\
  dirty ⊆ dirty' /\ (forall a, a ∉ dirty' -> total_of totals' a = total_of totals a).
Proof.
  intros Hnd Hfresh Hty. revert totals dirty m1 Hfresh.
  induction l as [|[k p] l IH]; intros totals dirty m1 Hfresh Ht Hp Hbd Hadd.
  - simplify_eq/=. by split_and!.
  - rewrite fmap_cons in Hnd. apply NoDup_cons in Hnd as [Hk Hnd].
    pose proof (Hfresh k ltac:(rewrite fmap_cons; by left)) as Hk1. cbn [add_new] in Hadd.
    cbn [put_keys fold_left]. fold (put_keys live l (partial_alter (fun _ => live !! k) k m1)).
    destruct (live !! k) as [s|] eqn:Hs.
    + pose proof (Hty k s Hs) as Hsty. cbn beta in Hsty. unfold fits in Hsty.
      unfold Unit.is_zero in Hadd. destruct (Z.eqb_spec (amount s) 0) as [|Hnz]; [done|].
      apply bind_Some in Hadd as (t & Ht1 & Hadd). apply checked_add_Some in Ht1 as [-> Hlt].
      change (partial_alter (fun _ => Some s) k m1) with (<[k := s]> m1).
      eapply IH in Hadd as (Ha & Hp' & Hb' & Hd & Hclean).
      * split_and!; [done|done|done|set_solver|]. intros a Hna. rewrite Hclean by done.
        rewrite total_of_insert, decide_False by set_solver. done.
      * done.
      * intros i Hi. rewrite lookup_insert_ne; [apply Hfresh; rewrite fmap_cons; by right|].
        by intros ->.
      * intros a. rewrite total_of_insert, asset_total_insert by done. unfold of_asset.
        rewrite Ht. destruct (decide (a = asset s)) as [->|]; repeat case_decide; try done;
          rewrite ?Ht; try lia.
      * apply map_Forall_insert_2; [lia|done].
      * intros a. rewrite asset_total_insert by done. unfold of_asset. specialize (Hbd a).
        case_decide; subst; [rewrite <- Ht|]; lia.
    + assert (partial_alter (fun _ => None) k m1 = m1) as ->.
      { apply map_eq. intros i. destruct (decide (i = k)) as [->|];
          [by rewrite lookup_partial_alter_eq|by rewrite lookup_partial_alter_ne]. }
      apply (IH Hnd totals dirty m1); try done. intros i Hi. apply Hfresh.
      rewrite fmap_cons. by right.
Qed.

(** A journal that holds the old value of every changed record and share. *)
Record journal_covers (m0 : gmap (list Z) AssetRecord) (s0 : gmap (list Z) AssetShare)
    (j : AssetJournal) (st : AssetState) : Prop := {
  cover_unique : NoDup (j_shares j).*1;
  cover_old k p : (k, p) ∈ j_shares j -> s0 !! k = p;
  cover_shares k : k ∉ (j_shares j).*1 -> shares st !! k = s0 !! k;
  cover_records k : k ∉ (j_records j).*1 -> records st !! k = m0 !! k;
}.

Lemma advance_slot_ok previous j st :
  match previous with
  | Some key => summary_ok key /\ journal_covers (key_records key) (key_shares key) j st
  | None => True
  end ->
  shares_typed (shares st) -> slot_ok (advance_supply_summary previous j st).
Proof.
  intros Hprev Hty. unfold slot_ok, advance_supply_summary. cbn [set_cache supply_cache].
  destruct previous as [key|]; [|done]. cbn [mbind option_bind].
  destruct Hprev as [Hk [Hnd Hold Hsh Hrec]].
  destruct (subtract_old _ _ _) as [[t1 d1]|] eqn:Hsub; [|done]. simpl.
  destruct (add_new _ _ _ _) as [[t2 d2]|] eqn:Hadd; [|done]. simpl.
  apply (subtract_old_spec _ _ _ _ _ (key_shares key)) in Hsub as (Ht1 & Hd1 & Hc1);
    [|done|done|apply Hk].
  set (m1 := delete_keys (j_shares j) (key_shares key)) in *.
  assert (positive m1) as Hp1.
  { intros k s Hs. unfold m1 in Hs. rewrite lookup_delete_keys in Hs. case_decide; [done|].
    by apply (sum_positive _ Hk k s). }
  assert (forall a, asset_total m1 a < 2 ^ 128) as Hb1.
  { intros a. pose proof (sum_bound _ Hk a). enough (asset_total m1 a <= asset_total (key_shares key) a) by lia.
    apply asset_total_sub; [apply Hk|]. apply map_subseteq_spec. intros k s. unfold m1.
    rewrite lookup_delete_keys. by case_decide. }
  apply (add_new_spec _ _ _ _ _ _ m1) in Hadd as (Ht2 & Hp2 & Hb2 & Hd2 & Hc2); try done.
  2: { intros k Hin. unfold m1. by rewrite lookup_delete_keys, decide_True. }
  assert (put_keys (shares st) (j_shares j) m1 = shares st) as Hput.
  { apply map_eq. intros k. rewrite lookup_put_keys. case_decide; [done|].
    unfold m1. rewrite lookup_delete_keys, decide_False by done. by rewrite Hsh. }
  rewrite Hput in *. constructor; cbn [key_records key_shares key_totals key_dirty]; try done.
  intros a Ha.
  assert (a ∉ (j_records j).*1 /\ a ∉ key_dirty key) as [Hnr Hnd'] by set_solver.
  assert (total_of t2 a = total_of (key_totals key) a) as Heq.
  { rewrite Hc2, Hc1 by set_solver. done. }
  pose proof (sum_clean _ Hk a Hnd') as Hcl. rewrite Hrec by done.
  destruct (key_records key !! a) as [r|].
  - rewrite <- Hcl. by apply record_error_ext.
  - rewrite <- Ht2, Heq, (sum_totals _ Hk). done.
Qed.

Section slots.
Context `{Sha3} `{RootTest, !RootTestSpec}.

Lemma snapshot_summary st key : slot_ok st -> supply_snapshot st = Some key -> summary_ok key.
Proof.
  intros Hs (Hc & _ & _)%supply_snapshot_Some. unfold slot_ok in Hs. by rewrite Hc in Hs.
Qed.

(** Rollback carries the summary over whatever it restores. *)
Lemma rollback_slot_ok j st :
  NoDup (j_shares j).*1 -> slot_ok st -> shares_typed (shares (rollback j st)) ->
  slot_ok (rollback j st).
Proof.
  intros Hnd Hslot Hty. unfold rollback in *. apply advance_slot_ok; [|exact Hty].
  destruct (supply_snapshot st) as [key|] eqn:Hsnap; [|done].
  split; [by eapply snapshot_summary|].
  apply supply_snapshot_Some in Hsnap as (_ & <- & <-).
  set (f := fun '(k, _) => (k, shares st !! k)).
  assert ((f <$> j_shares j).*1 = (j_shares j).*1) as Hkeys.
  { rewrite <- list_fmap_compose. apply list_fmap_ext. by intros _ [k p] _. }
  assert (((fun '(k, _) => (k, records st !! k)) <$> j_records j).*1 = (j_records j).*1) as Hkr.
  { rewrite <- list_fmap_compose. apply list_fmap_ext. by intros _ [k p] _. }
  constructor; cbn [j_shares j_records].
  - by rewrite Hkeys.
  - by intros k p ([k' p'] & [= -> ->] & _)%list_elem_of_fmap.
  - intros k Hk. rewrite Hkeys in Hk.
    rewrite (proj1 (fold_rollback_shares _ _)), (proj2 (fold_rollback_records _ _)).
    by apply lookup_restore_out.
  - intros k Hk. rewrite Hkr in Hk.
    rewrite (proj2 (fold_rollback_shares _ _)), (proj1 (fold_rollback_records _ _)).
    by apply lookup_restore_out.
Qed.

Lemma assets_ok_typed st : assets_ok st -> shares_typed (shares st).
Proof.
  intros [[Hp Hbd _ _ _] _] k s Hs. specialize (Hp k s Hs) as Hpos. cbn beta in Hpos.
  pose proof (map_sum_lookup_le (fun _ => of_asset (asset s)) _ k s
    (of_asset_nonneg _ (asset s) Hp) Hs) as Hle. cbn beta in Hle. unfold of_asset at 1 in Hle.
  rewrite decide_True in Hle by done. specialize (Hbd (asset s)). unfold asset_total in Hbd.
  unfold fits. lia.
Qed.

(** The amounts a call may turn into shares are unsigned 128-bit numbers. *)
Definition call_amounts (call : AssetCall) : Prop :=
  match call with
  | CallRegister c => fits 128 (rg_initial_mint c)
  | CallMint c => fits 128 (mt_amount c)
  | CallTransfer c => Forall (fun o => fits 128 (ao_amount o)) (tr_outputs c)
  | CallBurn c => fits 128 (bn_output c)
  end.

Lemma call_wf_amounts call : call_wf call -> call_amounts call.
Proof.
  destruct call; cbn; [by intros (_ & _ & _ & _ & ? & _)|by intros (_ & _ & _ & ?)| |].
  - intros (_ & _ & Ho). eapply Forall_impl; [exact Ho|]. by intros o [].
  - by intros (_ & _ & _ & ?).
Qed.

Definition keeps_typed (st st' : AssetState) : Prop :=
  shares_typed (shares st) -> shares_typed (shares st').

#[local] Instance keeps_typed_preorder : PreOrder keeps_typed.
Proof. split; [by intros st ?|]. intros s1 s2 s3 H12 H23 Hty. by apply H23, H12. Qed.

Lemma insert_share_typed a c i amt o st st' :
  fits 128 amt -> insert_share a c i amt o st = Ok st' -> keeps_typed st st'.
Proof.
  unfold insert_share. intros Ha Hi Hty. apply bind_Ok in Hi as (n & _ & Hi).
  apply guard_err_Ok in Hi as [_ [= <-]]. rewrite shares_put_share.
  by apply map_Forall_insert_2.
Qed.

Lemma remove_inputs_typed {E} ins :
  stays (E := E) keeps_typed (st_iter (fun input => st_modify (remove_share input)) ins).
Proof.
  apply stays_iter; [apply _|]. intros id _. apply stays_modify. intros s Hty.
  rewrite shares_remove_share. by apply map_Forall_delete.
Qed.

Lemma update_record_typed a f st st' : update_record a f st = Ok st' -> keeps_typed st st'.
Proof. unfold update_record. intros Hu Hty. by apply bind_Ok in Hu as (r & _ & [= <-]). Qed.

Lemma operation_typed call ctx : call_amounts call -> stays keeps_typed (apply_monetary_operation call ctx).
Proof.
  destruct call as [call|call|call|call]; cbn [call_amounts apply_monetary_operation]; intros Ha.
  - unfold register_asset. stays_tac; [|by intros s Hty..]. intros s s'. by apply insert_share_typed.
  - unfold mint_asset. stays_tac; [intros s s'; by apply insert_share_typed|].
    intros s s'. apply update_record_typed.
  - unfold transfer_asset. stays_tac; [apply remove_inputs_typed|].
    apply stays_iter; [apply _|]. intros [i o] Hio%elem_of_zip_r. apply stays_update; [apply _|].
    intros s s'. apply insert_share_typed. rewrite Forall_forall in Ha. by apply Ha.
  - unfold burn_asset. stays_tac; [apply remove_inputs_typed| |].
    + destruct (Unit.is_zero _); stays_tac. intros s s'. by apply insert_share_typed.
    + intros s s'. apply update_record_typed.
Qed.

(** Typed shares and a valid summary, whatever the derived indexes say. *)
Definition asset_typed (st : AssetState) : Prop := shares_typed (shares st) /\ slot_ok st.

Lemma apply_typed call ctx st :
  asset_typed st -> call_amounts call -> asset_typed (apply call ctx st).1.
Proof.
  intros [Hty Hslot] Ha. unfold apply. destruct (decode _ _) as [decoded|]; [|done].
  destruct (snapshot_operation st call ctx) as [j0|] eqn:Hsnap; [|done].
  apply snapshot_spec in Hsnap as (a & ins & outs & Hfp & ->).
  pose proof (operation_framed call ctx _ _ _ Hfp st) as Hfr.
  set (keys := footprint_keys a ctx ins outs) in *.
  pose proof (operation_typed call ctx Ha st Hty) as Hty1.
  destruct (apply_monetary_operation call ctx st) as [st1 [[]|e]] eqn:Hop; cbn [fst].
  - split; [exact Hty1|]. apply advance_slot_ok; [|exact Hty1].
    destruct (supply_snapshot st) as [key|] eqn:Hs; [|done].
    split; [by eapply snapshot_summary|]. apply supply_snapshot_Some in Hs as (_ & <- & <-).
    cbn [fst] in Hfr. destruct Hfr as [Hr Hsh].
    assert (forall k p, (k, p) ∈ retain_changed (shares st1) (j_shares (old_values st a keys)) <->
      (k, p) ∈ j_shares (old_values st a keys) /\ shares st1 !! k ≠ p) as Hret.
    { intros k p. unfold retain_changed. rewrite !list_elem_of_In, filter_In, negb_true_iff.
      by rewrite bool_decide_eq_false. }
    constructor; cbn [j_shares j_records].
    + apply retain_changed_NoDup, old_values_NoDup.
    + intros k p [(k' & [= -> ->] & _)%list_elem_of_fmap _]%Hret. done.
    + intros k Hk. destruct (decide (shares st1 !! k = shares st !! k)) as [|Hne]; [done|].
      exfalso. apply Hk, list_elem_of_fmap. exists (k, shares st !! k). split; [done|].
      apply Hret. split; [|done]. apply list_elem_of_fmap. exists k. split; [done|].
      apply elem_of_sorted_ids. destruct (decide (k ∈ keys)) as [|Hout]; [done|].
      by specialize (Hsh k Hout).
    + intros k Hk. destruct (decide (k = a)) as [->|Hne]; [|by apply Hr].
      destruct (decide (records st1 !! a = records st !! a)) as [|Hne]; [done|].
      exfalso. apply Hk. unfold retain_changed. simpl.
      rewrite bool_decide_eq_false_2 by done. simpl. by left.
  - cbn [fst] in Hfr. pose proof (proj2 (old_values_restore _ _ _ _ Hfr)) as Hback. split.
    { unfold shares_typed. cbn [set_cache shares]. by rewrite shares_rollback, Hback. }
    unfold slot_ok. cbn [set_cache supply_cache].
    destruct (supply_snapshot st) as [key|] eqn:Hs; [|done]. cbn [mbind option_bind].
    pose proof (snapshot_summary _ _ Hslot Hs) as Hk.
    apply supply_snapshot_Some in Hs as (_ & Er & Es).
    cbn [fst] in Hfr. apply old_values_restore in Hfr as [Hr Hsh].
    rewrite records_rollback, shares_rollback, Hr, Hsh, Er, Es. by destruct key, Hk.
Qed.

Lemma apply_slot_ok call ctx st :
  assets_ok st -> call_wf call -> slot_ok st -> slot_ok (apply call ctx st).1.
Proof.
  intros Hok Hwf Hslot. apply apply_typed; [|by apply call_wf_amounts].
  split; [by apply assets_ok_typed|done].
Qed.

Lemma audit_shares_sound recs entries totals totals' :
  Forall (fun kv => 0 <= amount kv.2) entries ->
  audit_shares recs entries totals = Ok totals' ->
  Forall (fun kv => 0 < amount kv.2 /\ is_Some (recs !! asset kv.2)) entries /\
  (forall a, total_of totals' a = total_of totals a + zsum (share_weight a <$> entries)) /\
  ((forall a, total_of totals a < 2 ^ 128) -> forall a, total_of totals' a < 2 ^ 128).
Proof.
  intros Hn. revert totals. induction Hn as [|[k s] entries Hs Hn IH]; intros totals Ha.
  - simplify_eq/=. split_and!; [constructor| |done]. intros a. unfold zsum. simpl. lia.
  - cbn [audit_shares] in Ha. unfold Unit.is_zero, Unit.checked_add in Ha. inv_ok.
    rename select (audit_shares _ _ _ = _) into Hrest.
    apply IH in Hrest as (Hall & Htot & Hbd). cbn [snd] in *. split_and!.
    + constructor; [split; [cbn [snd]; lia|done]|done].
    + intros a. rewrite Htot, total_of_insert.
      change (zsum (share_weight a <$> (k, s) :: entries)) with
        (share_weight a (k, s) + zsum (share_weight a <$> entries)).
      rewrite share_weight_alt. cbn [snd]. case_decide; subst; lia.
    + intros Hb. apply Hbd. intros a. rewrite total_of_insert. case_decide; [lia|apply Hb].
Qed.

Lemma first_error_Ok {A} (f : A -> option SupplyError) l :
  first_error f l = Ok tt <-> Forall (fun a => f a = None) l.
Proof.
  induction l as [|a l IH]; simpl; [by split|]. rewrite Forall_cons, <- IH.
  destruct (f a); naive_solver.
Qed.

Lemma record_error_None totals a r :
  record_error totals a r = None <->
  metadata_validate (metadata r) = Ok tt /\ total_minted r <= max_supply (metadata r) /\
  total_burned r <= total_minted r /\ supply r = total_minted r - total_burned r /\
  total_of totals a = supply r.
Proof.
  unfold record_error, Unit.checked_sub.
  destruct (metadata_validate (metadata r)) as [[]|]; [|naive_solver].
  destruct (Z.ltb_spec (max_supply (metadata r)) (total_minted r)); simpl; [naive_solver lia|].
  case_bool_decide as Hsub; simpl.
  - apply checked_sub_Some in Hsub as [-> ?].
    destruct (Z.eqb_spec (total_of totals a) (total_minted r - total_burned r)); simpl; naive_solver.
  - split; [done|]. intros (_ & _ & Hle & Heq & _). exfalso. apply Hsub.
    by apply checked_sub_Some.
Qed.

(** What an accepted audit establishes. *)
Record audited (st : AssetState) : Prop := {
  aud_positive : positive (shares st);
  aud_backed : map_Forall (fun _ s => is_Some (records st !! asset s)) (shares st);
  aud_records : map_Forall (fun a r =>
    metadata_validate (metadata r) = Ok tt /\ total_minted r <= max_supply (metadata r) /\
    total_burned r <= total_minted r /\ supply r = total_minted r - total_burned r /\
    asset_total (shares st) a = supply r) (records st);
}.

Lemma audit_asset_supply_Ok st st' :
  shares_typed (shares st) -> audit_asset_supply st = (st', Ok tt) ->
  audited st /\ slot_ok st' /\ st' ≡ st.
Proof.
  intros Hty Haud. unfold audit_asset_supply in Haud. inv_ok.
  rename select (audit_shares _ _ _ = _) into Hsh. rename select (audit_records _ _ = _) into Hrec.
  rename select (gmap (list Z) Z) into totals. rename select unit into u. destruct u.
  apply audit_shares_sound in Hsh as (Hall & Htot & Hbd).
  2: { apply Forall_forall. intros [k s] Hk%elem_of_sorted_entries. by apply (Hty k s). }
  assert (forall a, total_of totals a = asset_total (shares st) a) as Htot'.
  { intros a. rewrite Htot, <- asset_total_entries. unfold total_of. rewrite lookup_empty. done. }
  specialize (Hbd ltac:(intros a; unfold total_of; rewrite lookup_empty; done)).
  rewrite audit_records_first, first_error_Ok, Forall_forall in Hrec.
  assert (forall a r, records st !! a = Some r -> record_error totals a r = None) as Hrec'.
  { intros a r Ha. specialize (Hrec a). rewrite elem_of_sorted_ids, elem_of_dom in Hrec.
    unfold record_error_at in Hrec. rewrite Ha in Hrec. apply Hrec. by eexists. }
  rewrite Forall_forall in Hall.
  assert (audited st) as Hau.
  { constructor.
    - intros k s Hk. by apply (Hall (k, s)), elem_of_sorted_entries.
    - intros k s Hk. by apply (Hall (k, s)), elem_of_sorted_entries.
    - intros a r Ha. specialize (Hrec' a r Ha). apply record_error_None in Hrec'.
      rewrite <- Htot'. naive_solver. }
  split_and!; [done| |apply set_cache_equiv]. unfold slot_ok. cbn.
  constructor; cbn [key_records key_shares key_totals key_dirty].
  - apply Hau.
  - intros a. by rewrite <- Htot'.
  - done.
  - intros a _. destruct (records st !! a) as [r|] eqn:Ha; [by apply Hrec'|].
    apply asset_total_unbacked. intros k s Hk Heq. destruct (aud_backed _ Hau k s Hk) as [r Hr].
    congruence.
Qed.

Lemma assets_ok_audit st : assets_ok st -> (audit_asset_supply st).2 = Ok tt.
Proof.
  intros [Hix Hsup].
  assert (Forall (fun kv => 0 < amount kv.2) (sorted_entries (shares st))) as Hpos.
  { apply Forall_forall. intros [k s] Hk%elem_of_sorted_entries. by apply (ix_positive _ Hix k s). }
  pose proof (audit_shares_spec (records st) (sorted_entries (shares st)) ∅ Hpos) as Hspec.
  assert (forall a, total_of (∅ : gmap (list Z) Z) a = 0) as Hz0.
  { intros a. unfold total_of. by rewrite lookup_empty. }
  specialize (Hspec ltac:(intros a; rewrite Hz0; lia) ltac:(intros a;
    rewrite Hz0, <- asset_total_entries; pose proof (ix_bound _ Hix a); lia)).
  rewrite decide_True in Hspec.
  2: { apply Forall_forall. intros [k s] Hk%elem_of_sorted_entries. by apply (so_backed _ Hsup k s). }
  destruct Hspec as (totals & Ha & Htot).
  unfold audit_asset_supply, mbind, st_mbind, st_check. rewrite Ha.
  rewrite audit_records_first, (proj2 (first_error_Ok _ _)); [done|].
  apply Forall_forall. intros a (r & Hr)%elem_of_sorted_ids%elem_of_dom.
  unfold record_error_at. rewrite Hr. simpl. apply record_error_None.
  destruct (so_records _ Hsup a r Hr) as ((Hv & Hs & Hb & Hm & _) & Ht).
  rewrite Htot, Hz0, <- asset_total_entries, <- Ht.
  pose proof (asset_total_nonneg _ a (ix_positive _ Hix)). split_and!; try done; lia.
Qed.
End slots.

Section audit_properties.
Context `{Sha3} `{RootTest, !RootTestSpec}.

Lemma incremental_slot_ok st st' r :
  slot_ok st -> validate_incremental_supply st = Some (st', r) -> slot_ok st' /\ st' ≡ st.
Proof.
  intros Hslot Hv. pose proof (incremental_agrees _ _ _ Hslot Hv) as Hag. revert Hag.
  unfold validate_incremental_supply in Hv. apply bind_Some in Hv as (key & Hsnap & Hv).
  pose proof (snapshot_summary _ _ Hslot Hsnap) as Hk.
  apply supply_snapshot_Some in Hsnap as (Hc & Hr & Hs).
  destruct (existsb _ _); [by simplify_eq|].
  destruct (audit_dirty _ _ _) as [[]|e]; simplify_eq; [|done].
  intros Hag. split; [|by constructor]. unfold slot_ok. cbn [set_cache supply_cache].
  assert (shares_typed (shares st)) as Hty.
  { intros k s Hks. rewrite Hs in Hks. specialize (sum_positive _ Hk k s Hks) as Hpos.
    cbn beta in Hpos. pose proof (map_sum_lookup_le (fun _ => of_asset (asset s)) _ k s
      (of_asset_nonneg _ (asset s) (sum_positive _ Hk)) Hks) as Hle. cbn beta in Hle.
    unfold of_asset at 1 in Hle. rewrite decide_True in Hle by done.
    pose proof (sum_bound _ Hk (asset s)) as Hb. unfold asset_total in Hb. unfold fits. lia. }
  apply pair_snd, audit_asset_supply_Ok in Hag as (Hau & _ & _); [|done].
  destruct Hk as [Hp Hb Ht Hcl]. constructor; cbn; try done.
  intros a _. rewrite <- Hr, <- Hs.
  destruct (records st !! a) as [r|] eqn:Ha.
  - apply record_error_None. destruct (aud_records _ Hau a r Ha) as (? & ? & ? & ? & Htot).
    rewrite Ht, <- Hs. naive_solver.
  - apply asset_total_unbacked. intros k s Hk Heq. destruct (aud_backed _ Hau k s Hk) as [r Hr'].
    congruence.
Qed.

(** The incremental audit is exact: with a valid cached summary, whichever
    clone of the state wrote it, checking only the touched assets gives the
    same verdict, and the same first error, as the full scan of every record
    and share. *)
Theorem incremental_audit_exact st :
  slot_ok st ->
  (validate_asset_supply true st).2 = (validate_asset_supply false st).2.
Proof.
  intros Hslot. unfold validate_asset_supply.
  destruct (validate_incremental_supply st) as [[st' r]|] eqn:Hv; [|done].
  symmetry. by eapply incremental_agrees.
Qed.

(** The cached summary stays valid: through applied and rejected calls,
    through the rollback of an applied call, and through both audits. *)
Theorem summary_maintained st call ctx :
  assets_ok st -> call_wf call -> slot_ok st ->
  slot_ok (apply call ctx st).1 /\
  (forall j, (apply call ctx st).2 = Ok j -> slot_ok (rollback j (apply call ctx st).1)) /\
  slot_ok (validate_asset_supply true st).1 /\ slot_ok (validate_asset_supply false st).1.
Proof.
  intros Hok Hwf Hslot. split_and!.
  - by apply apply_slot_ok.
  - intros j Hj%pair_snd. apply rollback_slot_ok; [by eapply apply_journal_unique|by apply apply_slot_ok|].
    rewrite (proj2 (apply_rollback_tables _ _ _ _ _ Hj)). by apply assets_ok_typed.
  - unfold validate_asset_supply.
    destruct (validate_incremental_supply st) as [[st' r]|] eqn:Hv;
      [by eapply incremental_slot_ok|].
    pose proof (assets_ok_audit st Hok) as Ha%pair_snd.
    by apply audit_asset_supply_Ok in Ha as (_ & ? & _); [|by apply assets_ok_typed].
  - pose proof (assets_ok_audit st Hok) as Ha%pair_snd.
    by apply audit_asset_supply_Ok in Ha as (_ & ? & _); [|by apply assets_ok_typed].
Qed.

(** The full audit is sound and accepts every invariant state: if it
    accepts a state then no share is zero or of an unknown asset and every
    record's supply is minted minus burned, at most the maximum, and equal to
    the sum of its live shares; and it accepts every state the operations
    produce. *)
Theorem asset_audit_sound_complete st :
  (shares_typed (shares st) -> (audit_asset_supply st).2 = Ok tt -> audited st) /\
  (assets_ok st -> (audit_asset_supply st).2 = Ok tt).
Proof.
  split.
  - intros Hty Ha%pair_snd. by apply audit_asset_supply_Ok in Ha as (? & _).
  - apply assets_ok_audit.
Qed.
End audit_properties.

Section audit_examples.
#[local] Instance audit_sha3 : Sha3 := toy_sha3.

(** Two empty trees share the empty root. *)
#[local] Instance audit_roots : RootTest := fun _ m m' => bool_decide (m = ∅) && bool_decide (m' = ∅).
#[local] Instance audit_roots_spec : RootTestSpec.
Proof.
  intros V m m' [->%bool_decide_eq_true ->%bool_decide_eq_true]%andb_true_iff. done.
Qed.

Let holder : Owner := Program (replicate HASH_SIZE 1).
Let register_call : AssetCall :=
  CallRegister {| rg_name := [71; 79; 76; 68]; rg_max_supply := 100; rg_initial_mint := 10;
                  rg_mint_authority := holder; rg_nonce := 1 |}.
Let context : ExecutionContext := {| actor := holder; commitment := replicate HASH_SIZE 5 |}.

#[local] Lemma audit_call_wf : call_wf register_call.
Proof.
  split_and!; try done; try (by apply digits_compute); split; try done; by apply digits_compute.
Qed.

(** After a full audit of the empty state its summary is cached and found. *)
Let cached : AssetState := (audit_asset_supply assets_empty).1.

#[local] Lemma cached_slot_ok : slot_ok cached.
Proof.
  pose proof (assets_ok_audit assets_empty assets_ok_empty) as Ha%pair_snd.
  by apply audit_asset_supply_Ok in Ha as (_ & ? & _).
Qed.

Lemma incremental_audit_exact_witness :
  is_Some (supply_snapshot cached) /\
  (validate_asset_supply true cached).2 = (validate_asset_supply false cached).2.
Proof.
  split; [vm_compute; eexists; reflexivity|].
  apply (incremental_audit_exact cached cached_slot_ok).
Defined.

Lemma summary_maintained_witness : slot_ok (apply register_call context assets_empty).1.
Proof.
  exact (proj1 (summary_maintained assets_empty register_call context assets_ok_empty
    audit_call_wf I)).
Defined.

Lemma asset_audit_sound_complete_witness :
  (audit_asset_supply assets_empty).2 = Ok tt /\ audited assets_empty.
Proof.
  split.
  - apply (asset_audit_sound_complete assets_empty), assets_ok_empty.
  - apply (asset_audit_sound_complete assets_empty); [|vm_compute; reflexivity].
    apply map_Forall_empty.
Defined.
End audit_examples.
