(* ===== verification/Vm.v ===== *)
(** * Deployed code: validation and the scalar interpreter

    Models [kernel/src/program/vm.rs], [vm/{types,requests,validation,
    interpreter}.rs] and the validation half of [vm_app] ([vm_app.rs],
    [vm_app/validation.rs], [vm_app/storage.rs]).

    A cursor into the code is the list of the bytes that remain.  A computation
    of the interpreter is an [option]: [None] stands for a panic ([expect],
    [unreachable!], an index out of range).  The theorems say that validation
    excludes every panic, that it fixes the fuel a run is charged, and that
    every jump and every fall-through of validated application code lands on an
    instruction. *)

From S2P Require Import Prelude Codec Monetary.
#[local] Open Scope Z_scope.

Definition MAGIC : list Z := [0x58; 0x50; 0x56; 0x4d].
Definition VERSION : Z := 1.
Definition APPLICATION_VERSION : Z := 4.
Definition ASSET_ISSUANCE_VERSION : Z := 3.
Definition MAX_STACK_ITEMS : Z := 256.
Definition MAX_MEMORY_PAGES : Z := 16.
Definition MAX_CALL_FUEL : Z := 65536.
Definition HEADER_LEN : nat := 13.
Definition INSTRUCTION_COST : Z := 1.
Definition MEMORY_PAGE_COST : Z := 1.
Definition STATE_READ_COST : Z := 2.
Definition STATE_WRITE_COST : Z := 5.
Definition TRANSFER_COST : Z := 20.
Definition ASSET_REGISTER_COST : Z := 40.
Definition ASSET_MINT_COST : Z := 20.

Record ValidatedCode := {
  entry : Z;
  max_stack : Z;
  memory_pages : Z;
  instruction_count : Z;
  instruction_fuel : Z;
}.

Inductive CodeError :=
| InvalidHeader | UnsupportedVersion | InvalidLimit | InvalidEntry | InvalidInstruction
| MissingReturn.

(** ** Requests embedded in code *)

Record TransferRequest := { tq_recipient : Owner; tq_amount : Z }.

Record RegisterAssetRequest := {
  rq_name : list Z;
  rq_max_supply : Z;
  rq_initial_mint : Z;
  rq_nonce : Z;
  rq_skip_if_exists : bool;
}.

Inductive MintAssetTarget := Existing (asset : AssetContract) | Registered.

Record MintAssetRequest := {
  mq_asset : MintAssetTarget;
  mq_recipient : Owner;
  mq_amount : Z;
}.

Definition dec_transfer_request (bytes : list Z) : option (TransferRequest * list Z) :=
  '(recipient, bytes) ← dec_owner bytes;
  '(amount, bytes) ← dec_uint 8 bytes;
  Some ({| tq_recipient := recipient; tq_amount := amount |}, bytes).

Definition dec_bool (bytes : list Z) : option (bool * list Z) :=
  '(tag, bytes) ← dec_uint 1 bytes;
  if tag =? 0 then Some (false, bytes) else if tag =? 1 then Some (true, bytes) else None.

Definition dec_register_request (bytes : list Z) : option (RegisterAssetRequest * list Z) :=
  '(name, bytes) ← dec_string bytes;
  '(max_supply, bytes) ← dec_uint 16 bytes;
  '(initial_mint, bytes) ← dec_uint 16 bytes;
  '(nonce, bytes) ← dec_uint 8 bytes;
  '(skip_if_exists, bytes) ← dec_bool bytes;
  Some ({| rq_name := name; rq_max_supply := max_supply; rq_initial_mint := initial_mint;
           rq_nonce := nonce; rq_skip_if_exists := skip_if_exists |}, bytes).

Definition dec_mint_target (bytes : list Z) : option (MintAssetTarget * list Z) :=
  '(tag, bytes) ← dec_uint 1 bytes;
  if tag =? 0 then '(asset, bytes) ← dec_raw HASH_SIZE bytes; Some (Existing asset, bytes)
  else if tag =? 1 then Some (Registered, bytes)
  else None.

Definition dec_mint_request (bytes : list Z) : option (MintAssetRequest * list Z) :=
  '(asset, bytes) ← dec_mint_target bytes;
  '(recipient, bytes) ← dec_owner bytes;
  '(amount, bytes) ← dec_uint 16 bytes;
  Some ({| mq_asset := asset; mq_recipient := recipient; mq_amount := amount |}, bytes).

Definition decode_register_request (bytes : list Z)
    : result CodeError (RegisterAssetRequest * list Z) :=
  '(length, _) ← ok_or (dec_uint 4 bytes) InvalidInstruction;
  fail_if (length =? 0) || (ASSET_NAME_MAX_LEN <? length) with InvalidInstruction;
  '(request, bytes) ← ok_or (dec_register_request bytes) InvalidInstruction;
  _ ← map_err (fun _ => InvalidInstruction) (validate_asset_name (rq_name request));
  fail_if Unit.is_zero (rq_max_supply request) || Unit.is_zero (rq_initial_mint request)
          || (rq_max_supply request <? rq_initial_mint request) with InvalidInstruction;
  Ok (request, bytes).

(** ** Validation of scalar code (versions 1 to 3) *)

Record Seen := {
  coin_transfer_seen : bool;
  asset_transfer_seen : bool;
  asset_register_seen : bool;
  asset_mint_seen : bool;
}.

Definition unseen : Seen := Build_Seen false false false false.

(** What the loop of [validate_code] carries: the bytes after the cursor and
    its local variables. *)
Record Scan := {
  rest : list Z;
  boundaries : list Z;
  depth : Z;
  count : Z;
  fuel : Z;
  seen : Seen;
  returned : bool;
}.

Definition instruction_cost (opcode : Z) : Z :=
  if opcode =? 0x04 then STATE_READ_COST
  else if opcode =? 0x05 then STATE_WRITE_COST
  else if (opcode =? 0x06) || (opcode =? 0x07) then TRANSFER_COST
  else if opcode =? 0x08 then ASSET_REGISTER_COST
  else if opcode =? 0x09 then ASSET_MINT_COST
  else INSTRUCTION_COST.

(** The body of the instruction match: the new depth, flags and cursor, and
    whether the instruction returned. *)
Definition scan_instruction (version max_stack opcode depth : Z) (seen : Seen) (rest : list Z)
    : result CodeError (Z * Seen * list Z * bool) :=
  if opcode =? 0x00 then Ok (depth, seen, rest, false)
  else if opcode =? 0x01 then
    fail_if (length rest <? 8)%nat with InvalidInstruction;
    depth ← ok_or (checked_add 16 depth 1) InvalidLimit;
    fail_if max_stack <? depth with InvalidLimit;
    Ok (depth, seen, drop 8 rest, false)
  else if opcode =? 0x02 then
    fail_if depth <? 2 with InvalidInstruction;
    Ok (depth - 1, seen, rest, false)
  else if opcode =? 0x04 then
    depth ← ok_or (checked_add 16 depth 1) InvalidLimit;
    fail_if max_stack <? depth with InvalidLimit;
    Ok (depth, seen, rest, false)
  else if opcode =? 0x05 then
    fail_if depth =? 0 with InvalidInstruction;
    Ok (depth - 1, seen, rest, false)
  else if opcode =? 0x06 then
    fail_if version <? 2 with InvalidInstruction;
    fail_if coin_transfer_seen seen with InvalidInstruction;
    '(request, bytes) ← ok_or (dec_transfer_request rest) InvalidInstruction;
    fail_if tq_amount request =? 0 with InvalidInstruction;
    Ok (depth, {| coin_transfer_seen := true; asset_transfer_seen := asset_transfer_seen seen;
                  asset_register_seen := asset_register_seen seen;
                  asset_mint_seen := asset_mint_seen seen |}, bytes, false)
  else if opcode =? 0x07 then
    fail_if version <? 2 with InvalidInstruction;
    fail_if asset_transfer_seen seen with InvalidInstruction;
    '(_, bytes) ← ok_or (dec_raw HASH_SIZE rest) InvalidInstruction;
    '(request, bytes) ← ok_or (dec_transfer_request bytes) InvalidInstruction;
    fail_if tq_amount request =? 0 with InvalidInstruction;
    Ok (depth, {| coin_transfer_seen := coin_transfer_seen seen; asset_transfer_seen := true;
                  asset_register_seen := asset_register_seen seen;
                  asset_mint_seen := asset_mint_seen seen |}, bytes, false)
  else if opcode =? 0x08 then
    fail_if negb (version =? ASSET_ISSUANCE_VERSION) || asset_register_seen seen
            || asset_mint_seen seen with InvalidInstruction;
    '(_, bytes) ← decode_register_request rest;
    Ok (depth, {| coin_transfer_seen := coin_transfer_seen seen;
                  asset_transfer_seen := asset_transfer_seen seen;
                  asset_register_seen := true; asset_mint_seen := asset_mint_seen seen |},
        bytes, false)
  else if opcode =? 0x09 then
    fail_if negb (version =? ASSET_ISSUANCE_VERSION) || asset_mint_seen seen
      with InvalidInstruction;
    '(request, bytes) ← ok_or (dec_mint_request rest) InvalidInstruction;
    fail_if Unit.is_zero (mq_amount request)
            || match mq_asset request with
               | Registered => negb (asset_register_seen seen)
               | Existing _ => false
               end with InvalidInstruction;
    Ok (depth, {| coin_transfer_seen := coin_transfer_seen seen;
                  asset_transfer_seen := asset_transfer_seen seen;
                  asset_register_seen := asset_register_seen seen; asset_mint_seen := true |},
        bytes, false)
  else if opcode =? 0x03 then
    fail_if negb (depth =? 1) || negb (bool_decide (rest = [])) with InvalidInstruction;
    Ok (depth, seen, rest, true)
  else Err InvalidInstruction.

(** [while offset < body.len()]; an iteration consumes at least the opcode, so
    [length (rest s)] iterations are enough. *)
Fixpoint scan (gas : nat) (version max_stack size : Z) (s : Scan) : result CodeError Scan :=
  match gas, rest s with
  | S gas, opcode :: bytes =>
      count ← ok_or (checked_add 32 (count s) 1) InvalidInstruction;
      instruction_fuel ← ok_or (checked_add 64 (fuel s) (instruction_cost opcode)) InvalidLimit;
      '(depth, seen, bytes', returned) ←
        scan_instruction version max_stack opcode (depth s) (seen s) bytes;
      let s' := {| rest := bytes';
                   boundaries := boundaries s ++ [size - Z.of_nat (length (rest s))];
                   depth := depth; count := count; fuel := instruction_fuel; seen := seen;
                   returned := returned |} in
      if returned then Ok s' else scan gas version max_stack size s'
  | _, _ => Ok s
  end.

Definition scan_start (body : list Z) : Scan :=
  {| rest := body; boundaries := []; depth := 0; count := 0; fuel := 0; seen := unseen;
     returned := false |}.

Definition byte_at (code : list Z) (i : nat) : Z := nth i code 0.
Definition bytes_at (code : list Z) (i n : nat) : list Z := take n (drop i code).

(** The part of [validate_code] below the test for application code. *)
Definition validate_scalar (code : list Z) : result CodeError ValidatedCode :=
  fail_if (length code <? HEADER_LEN)%nat || negb (bool_decide (take 4 code = MAGIC))
    with InvalidHeader;
  fail_if negb ((byte_at code 4 =? VERSION) || (byte_at code 4 =? 2)
                || (byte_at code 4 =? ASSET_ISSUANCE_VERSION)) with UnsupportedVersion;
  let max_stack := le_val (bytes_at code 5 2) in
  let memory_pages := le_val (bytes_at code 7 2) in
  fail_if (max_stack =? 0) || (MAX_STACK_ITEMS <? max_stack)
          || (MAX_MEMORY_PAGES <? memory_pages) with InvalidLimit;
  let entry := le_val (bytes_at code 9 4) in
  let body := drop HEADER_LEN code in
  s ← scan (length body) (byte_at code 4) max_stack (Z.of_nat (length body)) (scan_start body);
  fail_if negb (returned s) with MissingReturn;
  fail_if negb (entry =? 0) || negb (bool_decide (0 ∈ boundaries s)) with InvalidEntry;
  Ok {| entry := entry; max_stack := max_stack; memory_pages := memory_pages;
        instruction_count := count s; instruction_fuel := fuel s |}.

(** ** Validation of application code (version 4) *)

Definition MAX_DATA_BYTES : Z := 4096.
Definition MAX_CODE_BYTES : Z := 65536.
Definition MAX_INSTRUCTIONS : Z := 4096.
Definition MAX_KEY_BYTES : Z := 128.
Definition MAX_STORAGE_ENTRIES : Z := 4096.
Definition MAX_STORAGE_BYTES : Z := 1048576.
Definition HEADER : Z := 13.

Record Instruction := { op : Z; immediate : list Z; next : Z }.

(** [code.get(from..from + n)]. *)
Definition slice (code : list Z) (from n : Z) : option (list Z) :=
  if from + n <=? Z.of_nat (length code)
  then Some (bytes_at code (Z.to_nat from) (Z.to_nat n))
  else None.

Definition in_range (lo hi x : Z) : bool := (lo <=? x) && (x <=? hi).

(** The immediate of the opcode: where it starts and how long it is. *)
Definition immediate_span (code : list Z) (op pc : Z) : result CodeError (Z * Z) :=
  if op =? 0x01 then Ok (pc, 16)
  else if op =? 0x11 then Ok (pc, 33)
  else if (op =? 0x20) || (op =? 0x21) then Ok (pc, 4)
  else if op =? 0x10 then
    prefix ← ok_or (slice code pc 2) InvalidInstruction;
    let len := le_val prefix in
    fail_if MAX_DATA_BYTES <? len with InvalidLimit;
    Ok (pc + 2, len)
  else if (op =? 0x00) || in_range 0x02 0x05 op || in_range 0x12 0x19 op
          || in_range 0x22 0x2b op || in_range 0x30 0x37 op || in_range 0x40 0x4c op
  then Ok (pc, 0)
  else Err InvalidInstruction.

Definition decode_instruction (code : list Z) (start : Z) : result CodeError Instruction :=
  let op := byte_at code (Z.to_nat start) in
  '(pc, n) ← immediate_span code op (start + 1);
  immediate ← ok_or (slice code pc n) InvalidInstruction;
  fail_if (op =? 0x11) && match dec_owner immediate with Some (_, []) => false | _ => true end
    with InvalidInstruction;
  Ok {| op := op; immediate := immediate; next := pc + n |}.

(** [while pc < code.len()]; every iteration advances the cursor, so the
    length of the code bounds the iterations. *)
Fixpoint decode_loop (gas : nat) (code : list Z) (pc : Z) (decoded : gmap Z Instruction)
    (has_return : bool) : result CodeError (gmap Z Instruction * bool) :=
  match gas with
  | O => Ok (decoded, has_return)
  | S gas =>
      if pc <? Z.of_nat (length code) then
        fail_if MAX_INSTRUCTIONS <=? Z.of_nat (size decoded) with InvalidLimit;
        i ← decode_instruction code pc;
        decode_loop gas code (next i) (<[pc := i]> decoded) (has_return || (op i =? 0x03))
      else Ok (decoded, has_return)
  end.

Definition is_jump (i : Instruction) : bool := (op i =? 0x20) || (op i =? 0x21).
Definition jump_target (i : Instruction) : Z := HEADER + le_val (immediate i).

Definition instructions (code : list Z) : result CodeError (gmap Z Instruction) :=
  fail_if (Z.of_nat (length code) <? HEADER) || negb (bool_decide (take 4 code = MAGIC))
          || negb (byte_at code 4 =? APPLICATION_VERSION) with InvalidHeader;
  fail_if MAX_CODE_BYTES <? Z.of_nat (length code) with InvalidLimit;
  '(decoded, has_return) ← decode_loop (length code) code HEADER ∅ false;
  fail_if negb (bool_decide (map_Forall
            (fun _ i => is_jump i = true -> is_Some (decoded !! jump_target i)) decoded))
    with InvalidEntry;
  fail_if negb has_return with MissingReturn;
  Ok decoded.

Definition validate_application (code : list Z) : result CodeError ValidatedCode :=
  decoded ← instructions code;
  let stack := le_val (bytes_at code 5 2) in
  let pages := le_val (bytes_at code 7 2) in
  fail_if (stack =? 0) || (MAX_STACK_ITEMS <? stack) || (pages =? 0)
          || (MAX_MEMORY_PAGES <? pages) with InvalidLimit;
  let entry := le_val (bytes_at code 9 4) in
  fail_if negb (entry =? 0) || negb (bool_decide (is_Some (decoded !! HEADER)))
    with InvalidEntry;
  Ok {| entry := entry; max_stack := stack; memory_pages := pages;
        instruction_count := Z.of_nat (size decoded); instruction_fuel := 0 |}.

(** The version byte routes the code. *)
Definition is_application (code : list Z) : bool :=
  bool_decide (code !! 4%nat = Some APPLICATION_VERSION).

Definition validate_code (code : list Z) : result CodeError ValidatedCode :=
  if is_application code then validate_application code else validate_scalar code.

(** [vm_app::storage::valid_storage]. *)
Definition valid_storage (storage : gmap (list Z) (list Z)) : bool :=
  (Z.of_nat (size storage) <=? MAX_STORAGE_ENTRIES)
  && bool_decide (map_Forall (fun k v =>
       k <> [] /\ Z.of_nat (length k) <= MAX_KEY_BYTES /\
       v <> [] /\ Z.of_nat (length v) <= MAX_DATA_BYTES) storage)
  && (map_sum (fun k v => 8 + Z.of_nat (length k) + Z.of_nat (length v)) storage + 4
      <=? MAX_STORAGE_BYTES).

(** ** The scalar interpreter *)

Inductive VmEffect := ProgramState (value : Z).

Record ExecutionResult := {
  value : Z;
  fuel_used : Z;
  proposed_effect : option VmEffect;
  coin_transfer : option TransferRequest;
  asset_transfer : option (AssetContract * TransferRequest);
  asset_register : option RegisterAssetRequest;
  asset_mint : option MintAssetRequest;
}.

Inductive ExecutionError :=
| InvalidCode (e : CodeError) | UnknownProgram | OutOfFuel | ArithmeticOverflow
| InvalidOperand | Reverted | ResourceLimit | ReentrantCall | SettlementFailed.

Definition has_monetary_effects (self : ExecutionResult) : bool :=
  bool_decide (is_Some (coin_transfer self)) || bool_decide (is_Some (asset_transfer self))
  || bool_decide (is_Some (asset_register self)) || bool_decide (is_Some (asset_mint self)).

(** [i64::from_le_bytes] and [i64::checked_add]. *)
Definition i64_val (bytes : list Z) : Z :=
  let x := le_val bytes in if x <? 2 ^ 63 then x else x - 2 ^ 64.

Definition i64_checked_add (a b : Z) : option Z :=
  if (- 2 ^ 63 <=? a + b) && (a + b <? 2 ^ 63) then Some (a + b) else None.

(** The interpreter's stack, its cursor, the program's state slot and the
    proposals made so far. *)
Record Machine := {
  code_rest : list Z;
  stack : list Z;
  state_value : Z;
  m_effect : option VmEffect;
  m_coin : option TransferRequest;
  m_asset : option (AssetContract * TransferRequest);
  m_register : option RegisterAssetRequest;
  m_mint : option MintAssetRequest;
}.

Definition goto (m : Machine) (bytes stack : list Z) : Machine :=
  {| code_rest := bytes; stack := stack; state_value := state_value m; m_effect := m_effect m;
     m_coin := m_coin m; m_asset := m_asset m; m_register := m_register m;
     m_mint := m_mint m |}.

(** An iteration either goes on, or stops with a value or an error; [None] is
    a panic. *)
Inductive Step := Continue (m : Machine) | Stop (r : result ExecutionError Z).

Definition step (m : Machine) : option Step :=
  match code_rest m with
  | [] => None
  | opcode :: bytes =>
      if opcode =? 0x00 then Some (Continue (goto m bytes (stack m)))
      else if opcode =? 0x01 then
        if (length bytes <? 8)%nat then None
        else Some (Continue (goto m (drop 8 bytes) (i64_val (take 8 bytes) :: stack m)))
      else if opcode =? 0x02 then
        match stack m with
        | r :: l :: stack =>
            match i64_checked_add l r with
            | Some v => Some (Continue (goto m bytes (v :: stack)))
            | None => Some (Stop (Err ArithmeticOverflow))
            end
        | _ => None
        end
      else if opcode =? 0x04 then Some (Continue (goto m bytes (state_value m :: stack m)))
      else if opcode =? 0x05 then
        match stack m with
        | v :: stack =>
            Some (Continue
              {| code_rest := bytes; stack := stack; state_value := v;
                 m_effect := Some (ProgramState v); m_coin := m_coin m; m_asset := m_asset m;
                 m_register := m_register m; m_mint := m_mint m |})
        | [] => None
        end
      else if opcode =? 0x06 then
        '(request, bytes) ← dec_transfer_request bytes;
        Some (Continue
          {| code_rest := bytes; stack := stack m; state_value := state_value m;
             m_effect := m_effect m; m_coin := Some request; m_asset := m_asset m;
             m_register := m_register m; m_mint := m_mint m |})
      else if opcode =? 0x07 then
        '(asset, bytes) ← dec_raw HASH_SIZE bytes;
        '(request, bytes) ← dec_transfer_request bytes;
        Some (Continue
          {| code_rest := bytes; stack := stack m; state_value := state_value m;
             m_effect := m_effect m; m_coin := m_coin m; m_asset := Some (asset, request);
             m_register := m_register m; m_mint := m_mint m |})
      else if opcode =? 0x08 then
        '(request, bytes) ← ok (decode_register_request bytes);
        Some (Continue
          {| code_rest := bytes; stack := stack m; state_value := state_value m;
             m_effect := m_effect m; m_coin := m_coin m; m_asset := m_asset m;
             m_register := Some request; m_mint := m_mint m |})
      else if opcode =? 0x09 then
        '(request, bytes) ← dec_mint_request bytes;
        Some (Continue
          {| code_rest := bytes; stack := stack m; state_value := state_value m;
             m_effect := m_effect m; m_coin := m_coin m; m_asset := m_asset m;
             m_register := m_register m; m_mint := Some request |})
      else if opcode =? 0x03 then
        match stack m with v :: _ => Some (Stop (Ok v)) | [] => None end
      else None
  end.

(** The [loop]: the machine at its end and the outcome.  Running out of [gas]
    counts as a panic, so a theorem that excludes [None] proves termination. *)
Fixpoint run (gas : nat) (m : Machine) : option (Machine * result ExecutionError Z) :=
  match gas with
  | O => None
  | S gas =>
      s ← step m;
      match s with Stop r => Some (m, r) | Continue m' => run gas m' end
  end.

Definition machine_start (code : list Z) (initial_state : Z) : Machine :=
  {| code_rest := drop HEADER_LEN code; stack := []; state_value := initial_state;
     m_effect := None; m_coin := None; m_asset := None; m_register := None; m_mint := None |}.

Definition finish (fuel_used : Z) (out : Machine * result ExecutionError Z)
    : result ExecutionError ExecutionResult :=
  let '(m, r) := out in
  value ← r;
  Ok {| value := value; fuel_used := fuel_used; proposed_effect := m_effect m;
        coin_transfer := m_coin m; asset_transfer := m_asset m;
        asset_register := m_register m; asset_mint := m_mint m |}.

Definition execute_code_with_state (code : list Z) (initial_state fuel_limit : Z)
    : option (result ExecutionError ExecutionResult) :=
  if is_application code then Some (Err InvalidOperand)
  else
    match validate_code code with
    | Err e => Some (Err (InvalidCode e))
    | Ok validated =>
        let memory_cost := memory_pages validated * MEMORY_PAGE_COST in
        match checked_add 64 memory_cost (instruction_fuel validated) with
        | None => Some (Err OutOfFuel)
        | Some fuel_used =>
            if fuel_limit <? fuel_used then Some (Err OutOfFuel)
            else
              out ← run (length code) (machine_start code initial_state);
              Some (finish fuel_used out)
        end
    end.

Definition execute_code (code : list Z) (fuel_limit : Z)
    : option (result ExecutionError ExecutionResult) :=
  execute_code_with_state code 0 fuel_limit.

(** ** Decoders consume their input *)

Lemma dec_uint_shorter n bytes x rest :
  dec_uint n bytes = Some (x, rest) -> (length rest <= length bytes)%nat.
Proof. unfold dec_uint. intros. case_match; simplify_eq. rewrite length_drop. lia. Qed.

Lemma dec_raw_shorter n bytes x rest :
  dec_raw n bytes = Some (x, rest) -> (length rest <= length bytes)%nat.
Proof. unfold dec_raw. intros. case_match; simplify_eq. rewrite length_drop. lia. Qed.

(** Take a body apart and name the components of the pairs it binds. *)
Ltac inv_pairs := repeat (inv_ok; match goal with p : _ * _ |- _ => destruct p end); inv_ok.

(** Take a decoder apart and chain the lengths of what its parts leave. *)
Ltac shorter :=
  repeat (inv_ok; match goal with
    | H : context [let '(_, _) := ?p in _] |- _ => destruct p
    | H : (if ?b then _ else _) = _ |- _ => destruct b
    | H : dec_uint _ _ = Some _ |- _ => apply dec_uint_shorter in H
    | H : dec_raw _ _ = Some _ |- _ => apply dec_raw_shorter in H
    end); inv_ok; try done; try lia.

Lemma dec_owner_shorter bytes x rest :
  dec_owner bytes = Some (x, rest) -> (length rest <= length bytes)%nat.
Proof. unfold dec_owner. intros. shorter. Qed.

Lemma dec_transfer_shorter bytes x rest :
  dec_transfer_request bytes = Some (x, rest) -> (length rest <= length bytes)%nat.
Proof.
  unfold dec_transfer_request. intros. inv_ok. destruct x0 as [o b]. inv_ok.
  rename select (dec_owner _ = _) into Ho. apply dec_owner_shorter in Ho. shorter.
Qed.

Lemma dec_mint_shorter bytes x rest :
  dec_mint_request bytes = Some (x, rest) -> (length rest <= length bytes)%nat.
Proof.
  unfold dec_mint_request. intros. inv_ok. destruct x0 as [o b]. inv_ok.
  destruct x0 as [o' b']. inv_ok. rename select (dec_owner _ = _) into Ho.
  apply dec_owner_shorter in Ho. rename select (dec_mint_target _ = _) into Ht.
  unfold dec_mint_target in Ht. shorter.
Qed.

Lemma dec_register_shorter bytes x rest :
  dec_register_request bytes = Some (x, rest) -> (length rest <= length bytes)%nat.
Proof. unfold dec_register_request, dec_string, dec_bool. intros. shorter. Qed.

(** Split on the opcode, in the order of the [match]. *)
Ltac split_opcode H :=
  repeat match type of H with
  | (if ?opcode =? ?k then _ else _) = _ =>
      let E := fresh "Hop" in
      destruct (Z.eqb_spec opcode k) as [E|E]; [subst opcode|]
  end.

Lemma scan_instruction_shorter version max d sn opcode bytes d' sn' bytes' ret :
  scan_instruction version max opcode d sn bytes = Ok (d', sn', bytes', ret) ->
  (length bytes' <= length bytes)%nat.
Proof.
  unfold scan_instruction. intros H. split_opcode H; inv_pairs; try lia;
    repeat match goal with
    | H : dec_transfer_request _ = Some _ |- _ => apply dec_transfer_shorter in H
    | H : dec_mint_request _ = Some _ |- _ => apply dec_mint_shorter in H
    | H : dec_raw _ _ = Some _ |- _ => apply dec_raw_shorter in H
    end; try lia; try done.
  - rewrite length_drop. lia.
  - unfold decode_register_request in *. inv_pairs.
    rename select (dec_register_request _ = Some _) into Hd.
    by apply dec_register_shorter in Hd.
Qed.

(** The loop of [validate_code] always reaches its end: more iterations than
    there are bytes change nothing. *)
Lemma scan_enough gas gas' version max size s :
  (length (rest s) <= gas)%nat -> (length (rest s) <= gas')%nat ->
  scan gas version max size s = scan gas' version max size s.
Proof.
  revert gas' s. induction gas as [|gas IH]; intros gas' s Hg Hg'.
  { destruct s as [[|]]; simpl in *; [|lia]. by destruct gas'. }
  destruct s as [[|opcode bytes] bd d c f sn rt]; [by destruct gas'|].
  destruct gas' as [|gas']; [simpl in Hg'; lia|]. cbn [scan rest] in *.
  destruct (checked_add 32 _ 1); [|done].
  destruct (checked_add 64 _ _); [|done].
  cbn -[checked_add scan_instruction scan].
  destruct (scan_instruction _ _ _ _ _ _) as [[[[d' sn'] bytes'] ret]|] eqn:Hi; [|done].
  cbn -[scan]. destruct ret; [done|]. apply scan_instruction_shorter in Hi.
  cbn in Hg, Hg'. apply IH; cbn; lia.
Qed.

(** ** The validator simulates the interpreter *)

Definition flag {A} (o : option A) : bool := match o with Some _ => true | None => false end.

(** A proposal in the machine is one the validator has checked. *)
Record proposals_ok (version : Z) (coin : option TransferRequest)
    (asset : option (AssetContract * TransferRequest)) (reg : option RegisterAssetRequest)
    (mint : option MintAssetRequest) : Prop := {
  ok_coin : forall r, coin = Some r -> 2 <= version /\ tq_amount r <> 0;
  ok_asset : forall a r, asset = Some (a, r) -> 2 <= version /\ tq_amount r <> 0;
  ok_register : forall r, reg = Some r ->
    version = ASSET_ISSUANCE_VERSION /\ validate_asset_name (rq_name r) = Ok tt /\
    rq_max_supply r <> 0 /\ rq_initial_mint r <> 0 /\ rq_initial_mint r <= rq_max_supply r;
  ok_mint : forall r, mint = Some r ->
    version = ASSET_ISSUANCE_VERSION /\ mq_amount r <> 0 /\
    (mq_asset r = Registered -> is_Some reg);
}.

Definition machine_ok (version : Z) (m : Machine) : Prop :=
  proposals_ok version (m_coin m) (m_asset m) (m_register m) (m_mint m).

Record simulates (version max : Z) (d : Z) (sn : Seen) (m : Machine) : Prop := {
  sim_depth : d = Z.of_nat (length (stack m));
  sim_bound : d <= max;
  sim_seen : sn = Build_Seen (flag (m_coin m)) (flag (m_asset m)) (flag (m_register m))
    (flag (m_mint m));
  sim_ok : machine_ok version m;
}.

Lemma decode_register_ok bytes r bytes' :
  decode_register_request bytes = Ok (r, bytes') ->
  validate_asset_name (rq_name r) = Ok tt /\ rq_max_supply r <> 0 /\ rq_initial_mint r <> 0 /\
  rq_initial_mint r <= rq_max_supply r.
Proof.
  unfold decode_register_request. intros. inv_pairs.
  destruct (validate_asset_name (rq_name r)) as [[]|]; [|done].
  unfold Unit.is_zero in *. split_and!; try done; lia.
Qed.

(** What one accepted instruction makes the machine do. *)
Definition advances (version max d' : Z) (sn' : Seen) (bytes' : list Z) (ret : bool)
    (m : Machine) (st : Step) : Prop :=
  if ret then exists v, st = Stop (Ok v)
  else st = Stop (Err ArithmeticOverflow) \/
       exists m', st = Continue m' /\ code_rest m' = bytes' /\ simulates version max d' sn' m'.

(** Close the goals of an instruction that only makes a proposal. *)
Ltac proposal :=
  match goal with
  | H : simulates _ _ _ _ ?m |- _ => destruct H as [? ? ? []]; simplify_eq
  end;
  constructor; cbn in *; try done; constructor; cbn in *; intros; simplify_eq;
  try solve [by eauto | destruct_and?; split_and!; try done; try lia; eauto].

Lemma step_simulates version max d sn opcode bytes d' sn' bytes' ret m :
  simulates version max d sn m -> code_rest m = opcode :: bytes ->
  scan_instruction version max opcode d sn bytes = Ok (d', sn', bytes', ret) ->
  exists st, step m = Some st /\ advances version max d' sn' bytes' ret m st.
Proof.
  intros Hsim Hm Hi. unfold step, advances. rewrite Hm. unfold scan_instruction in Hi.
  pose proof (sim_depth _ _ _ _ _ Hsim) as Hd.
  split_opcode Hi; cbn [Z.eqb Pos.eqb].
  - simplify_eq. eexists. split; [done|]. right. eexists. split_and!; [done..|].
    destruct Hsim. by constructor.
  - inv_ok. rename select ((_ <? 8)%nat = _) into Hl. rewrite Hl.
    eexists. split; [done|]. right. eexists. split_and!; [done..|].
    destruct Hsim; simplify_eq. constructor; cbn; try done; lia.
  - inv_ok. destruct (stack m) as [|r [|l stk]] eqn:Hs; cbn in *; try done; try lia.
    destruct (i64_checked_add l r) as [v|]; eexists; (split; [done|]); [right|by left].
    eexists. split_and!; [done..|]. destruct Hsim; simplify_eq. rewrite Hs in *.
    constructor; cbn in *; try done; lia.
  - inv_ok. eexists. split; [done|]. right. eexists. split_and!; [done..|].
    destruct Hsim; simplify_eq. constructor; cbn; try done; lia.
  - inv_ok. destruct (stack m) as [|v stk] eqn:Hs; cbn in *; try done; try lia.
    eexists. split; [done|]. right. eexists. split_and!; [done..|].
    destruct Hsim; simplify_eq. rewrite Hs in *. constructor; cbn in *; try done; lia.
  - inv_pairs. rename select (dec_transfer_request _ = _) into Hdec. rewrite Hdec.
    eexists. split; [done|]. right. eexists. split_and!; [done..|]. proposal.
  - inv_pairs. rename select (dec_transfer_request _ = _) into Hdec.
    rename select (dec_raw _ _ = _) into Hraw. rewrite Hraw. cbn [mbind option_bind].
    rewrite Hdec. eexists. split; [done|]. right. eexists. split_and!; [done..|]. proposal.
  - inv_pairs. rename select (decode_register_request _ = _) into Hdec. rewrite Hdec.
    apply decode_register_ok in Hdec.
    eexists. split; [done|]. right. eexists. split_and!; [done..|]. proposal.
    by rename select (m_mint m = Some _) into Hmint; rewrite Hmint in *.
  - inv_pairs. rename select (dec_mint_request _ = _) into Hdec. rewrite Hdec.
    eexists. split; [done|]. right. eexists. split_and!; [done..|]. unfold Unit.is_zero in *.
    proposal. split_and!; [lia|lia|]. intros Ht. rewrite Ht in *.
    destruct (m_register m); [done|]. cbn in *. lia.
  - inv_ok. destruct (stack m) as [|v stk]; cbn in *; [done|]. eauto.
  - done.
Qed.

(** The cost of the instructions a run executes. *)
Fixpoint run_cost (gas : nat) (m : Machine) : Z :=
  match gas, code_rest m with
  | S gas, opcode :: _ =>
      match step m with
      | Some (Continue m') => instruction_cost opcode + run_cost gas m'
      | Some (Stop _) => instruction_cost opcode
      | None => 0
      end
  | _, _ => 0
  end.

Lemma run_simulates gas gas' version max size s s' m :
  (gas <= gas')%nat -> rest s = code_rest m -> simulates version max (depth s) (seen s) m ->
  returned s = false -> scan gas version max size s = Ok s' -> returned s' = true ->
  exists m' r, run gas' m = Some (m', r) /\ machine_ok version m' /\
    match r with
    | Ok v => fuel s' = fuel s + run_cost gas' m
    | Err e => e = ArithmeticOverflow
    end.
Proof.
  revert gas' s m. induction gas as [|gas IH]; intros gas' s m Hg Hm Hsim Hr Hs Hr'.
  { cbn in Hs. congruence. }
  destruct gas' as [|gas']; [lia|].
  destruct s as [[|opcode bytes] bd d c f sn rt]; cbn [scan rest] in *; [congruence|].
  inv_pairs. rename select (scan_instruction _ _ _ _ _ _ = _) into Hi.
  destruct (step_simulates _ _ _ _ _ _ _ _ _ _ m Hsim (eq_sym Hm) Hi) as (st & Hst & Hadv).
  cbn [run run_cost]. rewrite Hst, <- Hm. cbn [mbind option_bind].
  unfold advances in Hadv.
  match goal with H : (if ?b then _ else _) = Ok s' |- _ => destruct b; rename H into Hs end.
  - destruct Hadv as [v ->]. simplify_eq. eexists _, _. split; [done|].
    split; [apply Hsim|done].
  - destruct Hadv as [->|(m' & -> & Hm' & Hsim')].
    + eexists _, _. split; [done|]. split; [apply Hsim|done].
    + destruct (fun a b c d => IH gas' _ m' a b c d Hs Hr') as (m2 & r & Hrun & Hok & Hcost);
        [lia|done..|].
      exists m2, r. split; [done|]. split; [done|]. destruct r; [|done]. cbn in Hcost.
      rewrite Hcost. lia.
Qed.

Lemma scalar_not_application code v : validate_scalar code = Ok v -> is_application code = false.
Proof.
  unfold validate_scalar, is_application, byte_at. intros. inv_ok.
  apply bool_decide_eq_false. intros Hv.
  apply (nth_lookup_Some _ _ 0) in Hv. by rewrite Hv in *.
Qed.

Lemma le_val_nonneg l : bytes_wf l -> 0 <= le_val l.
Proof. induction 1; cbn [le_val]; lia. Qed.

Lemma run_validated code v st :
  bytes_wf code -> validate_scalar code = Ok v ->
  exists m r, run (length code) (machine_start code st) = Some (m, r) /\
    machine_ok (byte_at code 4) m /\
    match r with
    | Ok _ => instruction_fuel v = run_cost (length code) (machine_start code st)
    | Err e => e = ArithmeticOverflow
    end.
Proof.
  intros Hwf. unfold validate_scalar. intros. inv_ok.
  rename select (scan _ _ _ _ _ = _) into Hs. rename select (returned _ = true) into Hr.
  assert (simulates (byte_at code 4) (le_val (bytes_at code 5 2)) 0 unseen
    (machine_start code st)) as Hsim.
  { constructor; cbn; try done.
    apply le_val_nonneg. by apply Forall_take, Forall_drop. }
  destruct (run_simulates (length (drop HEADER_LEN code)) (length code) (byte_at code 4) _ _
    (scan_start (drop HEADER_LEN code)) _ (machine_start code st)
    ltac:(rewrite length_drop; lia) eq_refl Hsim eq_refl Hs Hr) as (m & r & Hrun & Hok & Hc).
  exists m, r. split; [done|]. split; [done|]. by destruct r.
Qed.

(** On any bytes, program state and fuel limit the scalar
    interpreter returns: no [expect], [unreachable!] or index can panic and the
    loop ends.  A run that succeeds was charged one unit per memory page and
    exactly the cost of the instructions it executed, within the limit, and
    proposes only transfers, registrations and mints the validator accepted:
    positive amounts, transfers only from version 2 on, issuance only in
    version 3, a registration within its own maximum supply, and a mint of the
    registered asset only with a registration.  A run that fails does so for
    application code, invalid code, missing fuel or an addition that leaves the
    64-bit range. *)
Theorem scalar_execution_safe (code : list Z) (initial_state fuel_limit : Z) :
  bytes_wf code ->
  exists r, execute_code_with_state code initial_state fuel_limit = Some r /\
    match r with
    | Ok out => exists v, validate_code code = Ok v /\
        fuel_used out = memory_pages v + run_cost (length code) (machine_start code initial_state) /\
        fuel_used out <= fuel_limit /\
        proposals_ok (byte_at code 4) (coin_transfer out) (asset_transfer out)
          (asset_register out) (asset_mint out)
    | Err InvalidOperand => is_application code = true
    | Err (InvalidCode e) => validate_code code = Err e
    | Err OutOfFuel => exists v, validate_code code = Ok v /\
        (fuel_limit < memory_pages v + instruction_fuel v \/
         2 ^ 64 <= memory_pages v + instruction_fuel v)
    | Err e => e = ArithmeticOverflow
    end.
Proof.
  intros Hwf. unfold execute_code_with_state.
  destruct (is_application code) eqn:Ha; [by eexists|].
  assert (validate_code code = validate_scalar code) as Hv by (unfold validate_code; by rewrite Ha).
  rewrite Hv. destruct (validate_scalar code) as [v|e] eqn:Hs; [|by eexists].
  unfold MEMORY_PAGE_COST. rewrite Z.mul_1_r.
  destruct (checked_add 64 _ _) as [used|] eqn:Hadd.
  - apply checked_add_Some in Hadd as [-> _]. destruct (Z.ltb_spec fuel_limit
      (memory_pages v + instruction_fuel v)); [eexists; split; [done|]; exists v; auto|].
    destruct (run_validated code v initial_state Hwf Hs) as (m & r & -> & Hok & Hr).
    cbn [mbind option_bind finish]. eexists. split; [done|]. destruct r as [w|e]; cbn.
    + exists v. rewrite <- Hr. split_and!; done.
    + by subst e.
  - apply checked_add_None in Hadd. eexists. split; [done|]. exists v. auto.
Qed.

(** Application code whose jumps and fall-throughs stay on instructions: a
    decoded program is closed under its control flow. *)
Lemma decode_instruction_next code pc i :
  bytes_wf code -> 0 <= pc -> decode_instruction code pc = Ok i ->
  pc < next i <= Z.of_nat (length code).
Proof.
  intros Hwf Hpc. unfold decode_instruction, immediate_span, slice. intros. inv_pairs.
  repeat case_match; inv_ok; try done; try lia.
  all: match goal with
    | |- context [le_val ?l] =>
        assert (0 <= le_val l) by (apply le_val_nonneg, Forall_take, Forall_drop, Hwf); lia
    end.
Qed.

(** What the decoding loop has established when the cursor is at [pc]: the
    instructions decoded so far lie before it, and each falls through to one of
    them or to the cursor. *)
Definition flows (code : list Z) (pc : Z) (decoded : gmap Z Instruction) : Prop :=
  forall start i, decoded !! start = Some i ->
    decode_instruction code start = Ok i /\ HEADER <= start < pc /\
    (next i = pc \/ is_Some (decoded !! next i)).

Lemma flows_insert code pc i decoded :
  bytes_wf code -> HEADER <= pc -> decode_instruction code pc = Ok i ->
  flows code pc decoded -> flows code (next i) (<[pc := i]> decoded).
Proof.
  intros Hwf Hpc Hi Hf start j. unfold HEADER in *.
  pose proof (decode_instruction_next code pc i Hwf ltac:(lia) Hi) as Hn.
  destruct (decide (start = pc)) as [->|Hne].
  - rewrite lookup_insert_eq. intros [= <-]. split_and!; auto; lia.
  - rewrite lookup_insert_ne by done. intros Hj. destruct (Hf _ _ Hj) as (Hd & Hs & Hx).
    split; [done|]. split; [unfold HEADER in *; lia|]. right. destruct Hx as [->|Hx].
    + by rewrite lookup_insert_eq.
    + destruct (decide (next j = pc)) as [->|]; [by rewrite lookup_insert_eq|].
      by rewrite lookup_insert_ne.
Qed.

Lemma decode_loop_flows gas code pc decoded ret decoded' ret' :
  bytes_wf code -> HEADER <= pc <= Z.of_nat (length code) ->
  Z.of_nat (length code) - pc <= Z.of_nat gas -> flows code pc decoded ->
  (pc = HEADER \/ is_Some (decoded !! HEADER)) ->
  decode_loop gas code pc decoded ret = Ok (decoded', ret') ->
  flows code (Z.of_nat (length code)) decoded' /\
  (Z.of_nat (length code) = HEADER \/ is_Some (decoded' !! HEADER)).
Proof.
  intros Hwf. revert pc decoded ret. induction gas as [|gas IH]; intros pc decoded ret Hpc Hg Hf Hh.
  { cbn. intros [= <- <-]. assert (pc = Z.of_nat (length code)) as -> by lia. done. }
  cbn [decode_loop]. destruct (Z.ltb_spec pc (Z.of_nat (length code))).
  - intros. inv_ok. rename select (decode_instruction _ _ = _) into Hi.
    rename select (decode_loop _ _ _ _ _ = _) into Hl.
    pose proof (decode_instruction_next code pc _ Hwf ltac:(unfold HEADER in *; lia) Hi) as Hn.
    apply (IH (next x) (<[pc := x]> decoded) (ret || (op x =? 3))); try done; try lia;
      [by apply flows_insert|].
    right. destruct (decide (pc = HEADER)) as [->|]; [by rewrite lookup_insert_eq|].
    rewrite lookup_insert_ne by done. by destruct Hh.
  - intros [= <- <-]. assert (pc = Z.of_nat (length code)) as -> by lia. done.
Qed.

(** In application code the validator accepts, execution starts
    on a decoded instruction, and from every decoded instruction a taken jump
    lands on a decoded instruction and a fall-through lands on one or runs off
    the end of the code; every decoded instruction lies in the code and is what
    the bytes at its offset say. *)
Theorem application_control_flow (code : list Z) (v : ValidatedCode) :
  bytes_wf code -> is_application code = true -> validate_code code = Ok v ->
  exists decoded, instructions code = Ok decoded /\ is_Some (decoded !! HEADER) /\
    instruction_count v = Z.of_nat (size decoded) /\
    forall pc i, decoded !! pc = Some i ->
      decode_instruction code pc = Ok i /\ pc < next i /\
      (next i = Z.of_nat (length code) \/ is_Some (decoded !! next i)) /\
      (is_jump i = true -> is_Some (decoded !! jump_target i)).
Proof.
  intros Hwf Ha. unfold validate_code. rewrite Ha. unfold validate_application. intros. inv_ok.
  rename select (instructions code = _) into Hi. rename x into decoded.
  exists decoded. split; [done|]. split; [done|]. split; [done|]. intros pc i Hpc.
  unfold instructions in Hi. inv_pairs. rename select (map_Forall _ _) into Hj.
  rename select (decode_loop _ _ _ _ _ = _) into Hl.
  apply decode_loop_flows in Hl as [Hf _];
    [|done|unfold HEADER in *; lia|unfold HEADER in *; lia|by intros ? ?; rewrite lookup_empty|by left].
  destruct (Hf _ _ Hpc) as (Hd & Hs & Hn). split; [done|]. unfold HEADER in *.
  pose proof (decode_instruction_next code pc i Hwf ltac:(lia) Hd). split; [lia|].
  split; [done|]. apply (Hj _ _ Hpc).
Qed.

(** [i64.const 7; i64.const 5; i64.add; state.set; state.get; return] in one
    page of memory. *)
Definition sample_code : list Z :=
  MAGIC ++ [1; 4; 0; 1; 0; 0; 0; 0; 0] ++ (1 :: le_bytes 8 7) ++ (1 :: le_bytes 8 5)
  ++ [2; 5; 4; 3].

Lemma scalar_execution_safe_witness :
  bytes_wf sample_code /\
  exists out, execute_code_with_state sample_code 0 100 = Some (Ok out) /\
    fuel_used out = 1 + 11 /\ value out = 12.
Proof.
  assert (bytes_wf sample_code) as Hwf by (apply digits_compute; vm_compute; reflexivity).
  split; [exact Hwf|].
  destruct (scalar_execution_safe sample_code 0 100 Hwf) as (r & Hr & Hp).
  assert (exists out, r = Ok out /\ value out = 12) as (out & -> & Hval).
  { vm_compute in Hr. injection Hr as <-. eexists. split; reflexivity. }
  exists out. destruct Hp as (v & Hv & Hf & _). vm_compute in Hv. injection Hv as <-.
  split; [exact Hr|]. split; [|exact Hval]. rewrite Hf. vm_compute. reflexivity.
Defined.

(** A jump to the [return] behind it. *)
Definition sample_application : list Z :=
  MAGIC ++ [4; 16; 0; 1; 0; 0; 0; 0; 0] ++ (0x20 :: le_bytes 4 5) ++ [0x03].

Lemma application_control_flow_witness :
  exists decoded, instructions sample_application = Ok decoded /\
    is_Some (decoded !! HEADER).
Proof.
  destruct (application_control_flow sample_application
    {| entry := 0; max_stack := 16; memory_pages := 1; instruction_count := 2;
       instruction_fuel := 0 |}) as (decoded & Hd & Hh & _).
  - apply digits_compute; vm_compute; reflexivity.
  - vm_compute. reflexivity.
  - vm_compute. reflexivity.
  - exists decoded. split; [exact Hd|exact Hh].
Defined.
