(* ===== verification/Registry.v ===== *)
(** * The program registry

    Models [kernel/src/program/registry.rs], [program/deploy.rs] and the
    journaled writes of an invocation ([vm_app/engine.rs],
    [vm_app/engine/interpreter.rs], [vm_app/execution.rs]): deployed records,
    the owner/nonce index that makes a deployment unique, and the rollback of
    deployments and of the writes of a call. *)

From stdpp Require Import strings.
From S2P Require Import Prelude Codec Monetary Index Vm.
#[local] Open Scope Z_scope.

Record ProgramRecord := {
  code_hash : Hash;
  code : list Z;
  p_owner : ProgramId;
  nonce : Z;
  deployed_at : Z;
  p_state : Z;
  storage : gmap (list Z) (list Z);
}.

#[global] Instance ProgramRecord_eq_dec : EqDecision ProgramRecord.
Proof. solve_decision. Defined.

Record ProgramRegistry := {
  programs : gmap ProgramId ProgramRecord;
  deployments : gset (ProgramId * Z);
}.

#[global] Instance ProgramRegistry_eq_dec : EqDecision ProgramRegistry.
Proof. solve_decision. Defined.

Definition empty_registry : ProgramRegistry := {| programs := ∅; deployments := ∅ |}.

Inductive RegistryError := AlreadyExists | RegistryEncoding | InvalidRecord.

Inductive DeployError :=
| EmptyProgram | ProgramTooLarge | DeployInvalidCode | InvalidPayment | InvalidAuthorization
| DeployEncoding | MissingProgram | DeployRegistry (e : RegistryError).

Definition MAX_PROGRAM_CODE_SIZE : Z := 1048576.

Definition program (self : ProgramRegistry) (id : ProgramId) : option ProgramRecord :=
  programs self !! id.

Definition contains (self : ProgramRegistry) (id : ProgramId) : bool :=
  bool_decide (is_Some (programs self !! id)).

Definition check_available (self : ProgramRegistry) (id owner : ProgramId) (nonce : Z)
    : result RegistryError unit :=
  fail_if contains self id || bool_decide ((owner, nonce) ∈ deployments self)
    with AlreadyExists;
  Ok tt.

Definition registry_insert (self : ProgramRegistry) (id : ProgramId) (record : ProgramRecord)
    : result RegistryError ProgramRegistry :=
  _ ← check_available self id (p_owner record) (nonce record);
  Ok {| programs := <[id := record]> (programs self);
        deployments := {[(p_owner record, nonce record)]} ∪ deployments self |}.

Definition registry_remove (self : ProgramRegistry) (id : ProgramId)
    : option (ProgramRecord * ProgramRegistry) :=
  record ← programs self !! id;
  Some (record, {| programs := delete id (programs self);
                   deployments := deployments self ∖ {[(p_owner record, nonce record)]} |}).

Definition with_storage (r : ProgramRecord) (storage : gmap (list Z) (list Z)) : ProgramRecord :=
  {| code_hash := code_hash r; code := code r; p_owner := p_owner r; nonce := nonce r;
     deployed_at := deployed_at r; p_state := p_state r; storage := storage |}.

Definition with_state (r : ProgramRecord) (state_value : Z) : ProgramRecord :=
  {| code_hash := code_hash r; code := code r; p_owner := p_owner r; nonce := nonce r;
     deployed_at := deployed_at r; p_state := state_value; storage := storage r |}.

Definition with_program (self : ProgramRegistry) (id : ProgramId) (r : ProgramRecord)
    : ProgramRegistry :=
  {| programs := <[id := r]> (programs self); deployments := deployments self |}.

Definition set_storage (self : ProgramRegistry) (id : ProgramId) (key : list Z)
    (value : option (list Z)) : result RegistryError ProgramRegistry :=
  record ← ok_or (programs self !! id) InvalidRecord;
  if decide (storage record !! key = value) then Ok self
  else
    Ok (with_program self id (with_storage record
      match value with
      | Some value => <[key := value]> (storage record)
      | None => delete key (storage record)
      end)).

Definition set_state (self : ProgramRegistry) (id : ProgramId) (value : Z)
    : option (Z * ProgramRegistry) :=
  record ← programs self !! id;
  let previous := p_state record in
  Some (previous,
        if previous =? value then self else with_program self id (with_state record value)).

Section hashes.
Context `{Sha3}.

Definition program_hash (code : list Z) : Hash :=
  domain XPARQArtifact (ascii_bytes "xparq:program-code:v1"%string ++ enc_string code).

Definition program_id_derive (code_owner : ProgramId) (nonce : Z) (code_hash : Hash) : ProgramId :=
  domain XPARQArtifact
    (ascii_bytes "xparq:program-id:v2"%string ++ code_owner ++ le_bytes 8 nonce ++ code_hash).

Definition validate_structure (self : DeployProgram) : result DeployError unit :=
  fail_if bool_decide (dp_code self = []) with EmptyProgram;
  fail_if MAX_PROGRAM_CODE_SIZE <? Z.of_nat (length (dp_code self)) with ProgramTooLarge;
  _ ← map_err (fun _ => DeployInvalidCode) (validate_code (dp_code self));
  Ok tt.

Definition validate_record (id : ProgramId) (record : ProgramRecord)
    : result RegistryError unit :=
  _ ← map_err (fun _ => InvalidRecord)
        (validate_structure {| dp_owner := p_owner record; dp_nonce := nonce record;
                               dp_code := code record |});
  fail_if negb (valid_storage (storage record))
          || (negb (is_application (code record)) && negb (bool_decide (storage record = ∅)))
    with InvalidRecord;
  let hash := program_hash (code record) in
  fail_if negb (bool_decide (hash = code_hash record))
          || negb (bool_decide (program_id_derive (p_owner record) (nonce record) hash = id))
    with InvalidRecord;
  Ok tt.

Fixpoint validate_records (tip : Z) (l : list (ProgramId * ProgramRecord))
    (seen : gset (ProgramId * Z)) : result RegistryError (gset (ProgramId * Z)) :=
  match l with
  | [] => Ok seen
  | (id, record) :: l =>
      _ ← validate_record id record;
      fail_if (tip <? deployed_at record)
              || bool_decide ((p_owner record, nonce record) ∈ seen) with InvalidRecord;
      validate_records tip l ({[(p_owner record, nonce record)]} ∪ seen)
  end.

Definition registry_validate (self : ProgramRegistry) (tip : Z) : result RegistryError unit :=
  seen ← validate_records tip (sorted_entries (programs self)) ∅;
  fail_if negb (bool_decide (seen = deployments self)) with InvalidRecord;
  Ok tt.

(** ** Deployment *)

Inductive ProgramJournal :=
| JournalDeploy (program_id : ProgramId)
| JournalState (program_id : ProgramId) (previous : Z)
| JournalCalls (states : list (ProgramId * Z))
    (storage : list (ProgramId * list Z * option (list Z))).

Definition prepare_deployment (deploy : DeployProgram) (height : Z)
    : result DeployError (ProgramId * ProgramRecord) :=
  _ ← validate_structure deploy;
  let code_hash := program_hash (dp_code deploy) in
  let program_id := program_id_derive (dp_owner deploy) (dp_nonce deploy) code_hash in
  Ok (program_id,
      {| code_hash := code_hash; code := dp_code deploy; p_owner := dp_owner deploy;
         nonce := dp_nonce deploy; deployed_at := height; p_state := 0; storage := ∅ |}).

Definition deploy_program (registry : ProgramRegistry) (deploy : DeployProgram) (height : Z)
    : result DeployError (ProgramRegistry * (ProgramId * ProgramJournal)) :=
  '(program_id, record) ← prepare_deployment deploy height;
  registry ← map_err DeployRegistry (registry_insert registry program_id record);
  Ok (registry, (program_id, JournalDeploy program_id)).
End hashes.

Definition rollback_state_slot (entry : ProgramId * Z) : ST ProgramRegistry DeployError unit :=
  st_update (fun registry =>
    '(_, registry) ← ok_or (set_state registry entry.1 entry.2) MissingProgram; Ok registry).

Definition rollback_storage_slot (entry : ProgramId * list Z * option (list Z))
    : ST ProgramRegistry DeployError unit :=
  st_update (fun registry =>
    map_err DeployRegistry (set_storage registry entry.1.1 entry.1.2 entry.2)).

Definition rollback_program (journal : ProgramJournal) : ST ProgramRegistry DeployError unit :=
  match journal with
  | JournalCalls states storage =>
      _ ← st_iter rollback_state_slot states;
      st_iter rollback_storage_slot storage
  | JournalDeploy program_id =>
      st_update (fun registry =>
        '(_, registry) ← ok_or (registry_remove registry program_id) MissingProgram;
        Ok registry)
  | JournalState program_id previous => rollback_state_slot (program_id, previous)
  end.

(** ** Writes of an invocation *)

(** The engine's record of the first previous value of every slot it wrote. *)
Record Writes := {
  w_states : gmap ProgramId Z;
  w_storage : gmap (ProgramId * list Z) (option (list Z));
}.

(** [entry(k).or_insert(v)]. *)
Definition or_insert `{Countable K} {V} (m : gmap K V) (k : K) (v : V) : gmap K V :=
  match m !! k with Some _ => m | None => <[k := v]> m end.

Inductive VmWrite :=
| WriteState (id : ProgramId) (value : Z)
| WriteStorage (id : ProgramId) (key : list Z) (value : option (list Z)).

(** One write: the registry changes and the previous value is remembered. *)
Definition vm_write (s : ProgramRegistry * Writes) (w : VmWrite)
    : option (ProgramRegistry * Writes) :=
  let '(registry, writes) := s in
  match w with
  | WriteState id value =>
      '(before, registry) ← set_state registry id value;
      Some (registry, {| w_states := or_insert (w_states writes) id before;
                         w_storage := w_storage writes |})
  | WriteStorage id key value =>
      record ← programs registry !! id;
      let previous := storage record !! key in
      registry ← ok (set_storage registry id key value);
      Some (registry, {| w_states := w_states writes;
                         w_storage := or_insert (w_storage writes) (id, key) previous |})
  end.

Fixpoint vm_writes (s : ProgramRegistry * Writes) (l : list VmWrite)
    : option (ProgramRegistry * Writes) :=
  match l with [] => Some s | w :: l => s ← vm_write s w; vm_writes s l end.

(** Key order of [BTreeMap<(ProgramId, Vec<u8>), _>]. *)
Definition slot_le (a b : ProgramId * list Z * option (list Z)) : Prop :=
  match lex_compare a.1.1 b.1.1 with
  | Lt => True
  | Eq => lex_leb a.1.2 b.1.2 = true
  | Gt => False
  end.
#[global] Instance slot_le_dec a b : Decision (slot_le a b).
Proof. unfold slot_le. case_match; apply _. Defined.

(** The journal a finished invocation returns. *)
Definition program_journal (w : Writes) : option ProgramJournal :=
  if decide (w_states w = ∅ /\ w_storage w = ∅) then None
  else
    match sorted_entries (w_states w), decide (w_storage w = ∅) with
    | [(program_id, previous)], left _ => Some (JournalState program_id previous)
    | states, _ => Some (JournalCalls states (merge_sort slot_le (map_to_list (w_storage w))))
    end.

(** [execute_registered]: resolve deployed code and run it on its own slot. *)
Definition execute_registered (registry : ProgramRegistry) (id : ProgramId) (fuel_limit : Z)
    : option (result ExecutionError ExecutionResult) :=
  match program registry id with
  | None => Some (Err UnknownProgram)
  | Some record => execute_code_with_state (code record) (p_state record) fuel_limit
  end.

(** ** The owner/nonce index *)

Definition deployment (r : ProgramRecord) : ProgramId * Z := (p_owner r, nonce r).

(** The derived index lists exactly the deployments of the records, and no two
    records share one. *)
Record registry_ok (r : ProgramRegistry) : Prop := {
  index_members : forall p, p ∈ deployments r <->
    exists id record, programs r !! id = Some record /\ deployment record = p;
  index_unique : forall id1 id2 r1 r2,
    programs r !! id1 = Some r1 -> programs r !! id2 = Some r2 ->
    deployment r1 = deployment r2 -> id1 = id2;
}.

Lemma registry_ok_empty : registry_ok empty_registry.
Proof. split; [|by intros * ?]. intros p. split; [set_solver|]. by intros (? & ? & ? & ?). Qed.

Lemma registry_insert_Ok r id record r' :
  registry_insert r id record = Ok r' <->
  programs r !! id = None /\ deployment record ∉ deployments r /\
  r' = {| programs := <[id := record]> (programs r);
          deployments := {[deployment record]} ∪ deployments r |}.
Proof.
  unfold registry_insert, check_available, contains, guard_err. split.
  - intros. case_match; inv_ok. by rewrite eq_None_not_Some.
  - intros (Hn & Hd & ->). rewrite Hn, !bool_decide_eq_false_2; [done|done|by intros []].
Qed.

Lemma insert_ok r id record r' :
  registry_ok r -> registry_insert r id record = Ok r' -> registry_ok r'.
Proof.
  intros [Hm Hu] (Hn & Hd & ->)%registry_insert_Ok. split; cbn.
  - intros p. rewrite elem_of_union, elem_of_singleton, Hm. split.
    + intros [->|(id' & r' & Hr' & <-)]; [exists id, record; by rewrite lookup_insert_eq|].
      exists id', r'. by rewrite lookup_insert_ne by congruence.
    + intros (id' & r' & Hr' & <-).
      apply lookup_insert_Some in Hr' as [[<- <-]|[? ?]]; eauto.
  - intros id1 id2 r1 r2 H1 H2 He.
    assert (forall id' r', programs r !! id' = Some r' -> deployment r' ≠ deployment record) as Hf.
    { intros id' r' Hr' Heq. apply Hd. rewrite <- Heq. apply Hm. eauto. }
    apply lookup_insert_Some in H1 as [[<- <-]|[? H1]];
      apply lookup_insert_Some in H2 as [[<- <-]|[? H2]]; try done.
    + by apply Hf in H2.
    + by apply Hf in H1.
    + eauto.
Qed.

Lemma remove_ok r id record r' :
  registry_ok r -> registry_remove r id = Some (record, r') -> registry_ok r'.
Proof.
  unfold registry_remove. intros [Hm Hu] Hr. inv_ok. rename select (_ !! id = _) into Hid.
  fold (deployment record). split; cbn.
  - intros p. rewrite elem_of_difference, elem_of_singleton, Hm. split.
    + intros [(id' & r' & Hr' & <-) Hne]. exists id', r'. rewrite lookup_delete_ne; [done|].
      intros <-. congruence.
    + intros (id' & r' & [Hne Hr']%lookup_delete_Some & <-). split; [eauto|]. eauto.
  - intros id1 id2 r1 r2 [_ H1]%lookup_delete_Some [_ H2]%lookup_delete_Some. eauto.
Qed.

(** Replacing a record by one of the same deployment keeps the index exact. *)
Lemma with_program_ok r id old new :
  registry_ok r -> programs r !! id = Some old -> deployment new = deployment old ->
  registry_ok (with_program r id new).
Proof.
  intros [Hm Hu] Hid Hd.
  assert (forall id' r', programs (with_program r id new) !! id' = Some r' ->
    exists r0, programs r !! id' = Some r0 /\ deployment r0 = deployment r') as Hb.
  { cbn. intros id' r' [[<- <-]|[? ?]]%lookup_insert_Some; eauto. }
  split; cbn [with_program deployments].
  - intros p. rewrite Hm. split.
    + intros (id' & r' & Hr' & <-). destruct (decide (id' = id)) as [->|].
      * exists id, new. cbn. rewrite lookup_insert_eq. split; [done|]. congruence.
      * exists id', r'. cbn. by rewrite lookup_insert_ne.
    + intros (id' & r' & (r0 & Hr0 & <-)%Hb & <-). eauto.
  - intros id1 id2 r1 r2 (a & Ha & Hda)%Hb (b & Hb' & Hdb)%Hb He.
    eapply Hu; [done|done|]. congruence.
Qed.

Lemma set_state_ok r id v prev r' :
  registry_ok r -> set_state r id v = Some (prev, r') -> registry_ok r'.
Proof.
  unfold set_state. intros Hr Hs. inv_ok. case_match; [done|]. by eapply with_program_ok.
Qed.

Lemma set_storage_ok r id key v r' :
  registry_ok r -> set_storage r id key v = Ok r' -> registry_ok r'.
Proof.
  unfold set_storage. intros Hr Hs. inv_ok. case_decide; inv_ok; [done|].
  by eapply with_program_ok.
Qed.

(** ** Audit *)

Section audit.
Context `{Sha3}.

Definition record_valid (tip : Z) (id : ProgramId) (r : ProgramRecord) : Prop :=
  validate_record id r = Ok tt /\ deployed_at r <= tip.

Lemma validate_records_spec tip l sn sn' :
  validate_records tip l sn = Ok sn' <->
  Forall (fun e => record_valid tip e.1 e.2) l /\
  NoDup ((fun e => deployment e.2) <$> l) /\
  Forall (fun e => deployment e.2 ∉ sn) l /\
  sn' = list_to_set ((fun e => deployment e.2) <$> l) ∪ sn.
Proof.
  revert sn. induction l as [|[id r] l IH]; intros sn; cbn [validate_records].
  { split; [intros [= <-]|intros (_ & _ & _ & ->)].
    - repeat split; try constructor. set_solver.
    - f_equal. set_solver. }
  fold (deployment r). unfold record_valid in *. rewrite fmap_cons, NoDup_cons, !Forall_cons.
  destruct (validate_record id r) as [[]|] eqn:Hv; cbn [mbind result_mbind fst snd];
    [|by split; [|rewrite Hv; intros (((? & ?) & _) & _)]].
  unfold guard_err. destruct (Z.ltb_spec tip (deployed_at r)); cbn [orb].
  { split; [done|]. intros (((_ & ?) & _) & _). lia. }
  case_bool_decide as Hd; [by split; [|intros (_ & _ & [? _] & _)]|].
  rewrite IH. split.
  - intros (Hf & Hn & Hfr & ->). split_and!; try done.
    + intros (e & He & Hin)%list_elem_of_fmap. rewrite Forall_forall in Hfr.
      apply (Hfr _ Hin). rewrite <- He. set_solver.
    + eapply Forall_impl; [exact Hfr|]. set_solver.
    + cbn. set_solver.
  - intros ((? & Hf) & (Hni & Hn) & (? & Hfr) & ->). split_and!; try done.
    + apply Forall_forall. intros e He. rewrite Forall_forall in Hfr.
      rewrite elem_of_union, elem_of_singleton. intros [Heq|Hin]; [|by apply (Hfr _ He)].
      apply Hni, list_elem_of_fmap. eauto.
    + cbn. set_solver.
Qed.

Lemma registry_validate_Ok (r : ProgramRegistry) (tip : Z) :
  registry_validate r tip = Ok tt <->
  (forall id record, programs r !! id = Some record -> record_valid tip id record) /\
  registry_ok r.
Proof.
  assert (registry_validate r tip = Ok tt <->
    validate_records tip (sorted_entries (programs r)) ∅ = Ok (deployments r)) as ->.
  { unfold registry_validate, guard_err.
    destruct (validate_records _ _ _) as [sn|]; cbn [mbind result_mbind]; [|done].
    case_bool_decide as Heq; cbn; [by subst|]. split; [done|]. by intros [= ->]. }
  rewrite validate_records_spec.
  set (l := sorted_entries (programs r)).
  assert (forall id record, (id, record) ∈ l <-> programs r !! id = Some record) as Hl
    by (intros; apply elem_of_sorted_entries).
  assert (NoDup l.*1) as Hnd by (unfold l; rewrite sorted_entries_keys; apply NoDup_sorted_ids).
  split.
  - intros (Hf & Hn & _ & Hd). split.
    { intros id record Hr%Hl. rewrite Forall_forall in Hf. apply (Hf _ Hr). }
    split.
    + intros p. rewrite Hd, elem_of_union, elem_of_list_to_set, list_elem_of_fmap. split.
      * intros [([id record] & -> & He)|?]; [|set_solver]. exists id, record. by rewrite <- Hl.
      * intros (id & record & Hr%Hl & <-). left. by exists (id, record).
    + intros id1 id2 r1 r2 H1%Hl H2%Hl He.
      apply list_elem_of_lookup in H1 as [i Hi], H2 as [j Hj].
      assert (i = j) as ->; [|congruence].
      apply (NoDup_lookup _ i j (deployment r1) Hn); rewrite list_lookup_fmap, ?Hi, ?Hj; cbn; by rewrite ?He.
  - intros (Hv & Hm & Hu). split_and!.
    + apply Forall_forall. intros [id record] Hr%Hl. by apply Hv.
    + apply NoDup_fmap_2_strong; [|by eapply NoDup_fmap_1].
      intros [id1 r1] [id2 r2] H1%Hl H2%Hl He. cbn in He.
      assert (id1 = id2) as -> by eauto. congruence.
    + apply Forall_forall. set_solver.
    + apply set_eq. intros p. rewrite Hm, elem_of_union, elem_of_list_to_set, list_elem_of_fmap.
      split.
      * intros (id & record & Hr%Hl & <-). left. by exists (id, record).
      * intros [([id record] & -> & Hr%Hl)|?]; [eauto|set_solver].
Qed.

End audit.

(** ** Rollback *)

(** [a] is what [b] becomes when the remembered slots are restored. *)
Definition record_restores (a b : ProgramRecord) (state : option Z)
    (slots : list Z -> option (option (list Z))) : Prop :=
  with_storage (with_state b (default (p_state b) state)) (storage a) = a /\
  forall key, storage a !! key = default (storage b !! key) (slots key).

(** [before] is what [after] becomes when every remembered slot is restored. *)
Record journaled (before : ProgramRegistry) (states : gmap ProgramId Z)
    (slots : gmap (ProgramId * list Z) (option (list Z))) (after : ProgramRegistry) : Prop := {
  j_index : deployments after = deployments before;
  j_records : forall id, match programs before !! id, programs after !! id with
    | Some a, Some b => record_restores a b (states !! id) (fun key => slots !! (id, key))
    | None, None => True
    | _, _ => False
    end;
  j_states : forall id v, states !! id = Some v -> is_Some (programs after !! id);
  j_slots : forall id key v, slots !! (id, key) = Some v -> is_Some (programs after !! id);
}.

Lemma journaled_refl r : journaled r ∅ ∅ r.
Proof.
  split; [done| |by intros * ?|by intros * ?]. intros id.
  destruct (programs r !! id) as [a|]; [|done]. split; [by destruct a|]. done.
Qed.

Lemma journaled_done before after : journaled before ∅ ∅ after -> after = before.
Proof.
  intros [Hd Hr _ _]. destruct before as [pb db], after as [pa da]. cbn in *. subst. f_equal.
  apply map_eq. intros id. specialize (Hr id). cbn in Hr.
  destruct (pb !! id) as [a|], (pa !! id) as [b|]; try done. destruct Hr as [Ha Hs].
  assert (storage b = storage a) as Hst.
  { apply map_eq. intros key. by rewrite Hs. }
  rewrite <- Ha, <- Hst. by destruct b.
Qed.

(** Both writes replace one record, also when they find the value in place. *)
Lemma set_state_eq r id v prev r' :
  set_state r id v = Some (prev, r') <->
  exists b, programs r !! id = Some b /\ prev = p_state b /\
    r' = with_program r id (with_state b v).
Proof.
  unfold set_state. split.
  - intros. inv_ok. rename select (_ !! id = _) into Hid. eexists. split_and!; [done..|].
    case_match eqn:Hv; [|done]. apply Z.eqb_eq in Hv as <-. destruct r as [p d].
    unfold with_program. cbn in *. f_equal. rewrite insert_id; [done|]. rewrite Hid.
    by destruct x.
  - intros (b & Hid & -> & ->). rewrite Hid. cbn. do 2 f_equal.
    case_match eqn:Hv; [|done]. apply Z.eqb_eq in Hv as <-. destruct r as [p d].
    unfold with_program. cbn in *. f_equal. rewrite insert_id; [done|]. rewrite Hid.
    by destruct b.
Qed.

Lemma set_storage_eq r id key v r' :
  set_storage r id key v = Ok r' <->
  exists b, programs r !! id = Some b /\
    r' = with_program r id (with_storage b (partial_alter (fun _ => v) key (storage b))).
Proof.
  assert (forall b, programs r !! id = Some b -> storage b !! key = v ->
    r = with_program r id (with_storage b (partial_alter (fun _ => v) key (storage b)))) as Hsame.
  { intros b Hid Hv. destruct r as [p d]. unfold with_program. cbn in *. f_equal.
    rewrite insert_id; [done|]. rewrite Hid. destruct b. cbn in *. unfold with_storage. cbn.
    by rewrite <- Hv, partial_alter_self. }
  unfold set_storage. split.
  - intros. inv_ok. eexists. split; [done|]. case_decide; inv_ok; [by apply Hsame|].
    by destruct v.
  - intros (b & Hid & ->). rewrite Hid. cbn. case_decide; [by rewrite <- Hsame|].
    by destruct v.
Qed.


(** Replacing one record keeps the journal right when it restores that record
    and says the same of the others. *)
Lemma journaled_replace before states slots r states' slots' id b b' :
  journaled before states slots r -> programs r !! id = Some b ->
  (forall a, record_restores a b (states !! id) (fun key => slots !! (id, key)) ->
     record_restores a b' (states' !! id) (fun key => slots' !! (id, key))) ->
  (forall id', id' <> id -> states' !! id' = states !! id') ->
  (forall id' key, id' <> id -> slots' !! (id', key) = slots !! (id', key)) ->
  journaled before states' slots' (with_program r id b').
Proof.
  intros [Hd Hr Hs Hk] Hid Hb Hs' Hk'. split; [done|..]; cbn [with_program programs].
  - intros id'. specialize (Hr id'). destruct (decide (id' = id)) as [->|Hne].
    + rewrite lookup_insert_eq. rewrite Hid in Hr. destruct (programs before !! id); [|done].
      by apply Hb.
    + rewrite lookup_insert_ne by done. destruct (programs before !! id'), (programs r !! id');
        try done. rewrite Hs' by done. destruct Hr as [Ha Hkey]. split; [done|].
      intros key. rewrite Hk' by done. apply Hkey.
  - intros id' v Hv. destruct (decide (id' = id)) as [->|Hne]; [by rewrite lookup_insert_eq|].
    rewrite lookup_insert_ne by done. rewrite Hs' in Hv by done. eauto.
  - intros id' key v Hv. destruct (decide (id' = id)) as [->|Hne]; [by rewrite lookup_insert_eq|].
    rewrite lookup_insert_ne by done. rewrite Hk' in Hv by done. eauto.
Qed.

Lemma or_insert_lookup `{Countable K} {V} (m : gmap K V) k v k' :
  or_insert m k v !! k' = if decide (k' = k) then Some (default v (m !! k)) else m !! k'.
Proof.
  unfold or_insert. case_decide as Hk; subst; destruct (m !! k) eqn:Hm; cbn.
  - done.
  - by rewrite lookup_insert_eq.
  - done.
  - by rewrite lookup_insert_ne.
Qed.

(** A write is undone by restoring the slot it remembers. *)
Lemma journaled_write before wr r w r' wr' :
  journaled before (w_states wr) (w_storage wr) r ->
  vm_write (r, wr) w = Some (r', wr') ->
  journaled before (w_states wr') (w_storage wr') r'.
Proof.
  intros Hj Hw. destruct w as [id v|id key v]; cbn in Hw.
  - inv_pairs. rename select (set_state _ _ _ = _) into Hs.
    apply set_state_eq in Hs as (b & Hid & -> & ->). cbn.
    eapply journaled_replace; [done|done|..].
    + intros a [Ha Hk]. rewrite or_insert_lookup, decide_True by done. split; [|done].
      rewrite <- Ha at 2. cbn. by destruct (w_states wr !! id).
    + intros id' Hne. by rewrite or_insert_lookup, decide_False.
    + done.
  - inv_ok. rename select (_ !! id = _) into Hid. rename select (ok _ = _) into Hs.
    destruct (set_storage _ _ _ _) as [r1|] eqn:Hset; inv_ok.
    apply set_storage_eq in Hset as (b & Hid' & ->). simplify_eq.
    eapply journaled_replace; [done|done|..].
    + intros a [Ha Hk]. split; [done|]. intros key'. cbn. rewrite or_insert_lookup, Hk.
      destruct (decide (key' = key)) as [->|Hne].
      * rewrite decide_True by done. by destruct (w_storage wr !! (id, key)).
      * rewrite decide_False by congruence. by rewrite lookup_partial_alter_ne.
    + done.
    + intros id' key' Hne. cbn. rewrite or_insert_lookup, decide_False by congruence. done.
Qed.

Lemma restore_state before states slots r id v :
  journaled before (<[id := v]> states) slots r -> states !! id = None ->
  exists r', rollback_state_slot (id, v) r = (r', Ok tt) /\ journaled before states slots r'.
Proof.
  intros Hj Hn. destruct (j_states _ _ _ _ Hj id v) as [b Hid]; [apply lookup_insert_eq|].
  eexists. unfold rollback_state_slot, st_update. cbn [fst snd].
  rewrite (proj2 (set_state_eq r id v (p_state b) _)) by eauto. cbn. split; [done|].
  eapply journaled_replace; [done|done|..].
  - intros a. rewrite lookup_insert_eq, Hn. intros [Ha Hk]. split; [|done].
    rewrite <- Ha at 2. done.
  - intros id' Hne. by rewrite lookup_insert_ne.
  - done.
Qed.

Lemma restore_slot before states slots r id key v :
  journaled before states (<[(id, key) := v]> slots) r -> slots !! (id, key) = None ->
  exists r', rollback_storage_slot (id, key, v) r = (r', Ok tt) /\
    journaled before states slots r'.
Proof.
  intros Hj Hn. destruct (j_slots _ _ _ _ Hj id key v) as [b Hid]; [apply lookup_insert_eq|].
  eexists. unfold rollback_storage_slot, st_update. cbn [fst snd].
  rewrite (proj2 (set_storage_eq r id key v _)) by eauto. cbn. split; [done|].
  eapply journaled_replace; [done|done|..].
  - intros a [Ha Hk]. split; [done|]. intros key'. rewrite Hk. cbn.
    destruct (decide (key' = key)) as [->|Hne].
    + by rewrite lookup_insert_eq, Hn, lookup_partial_alter_eq.
    + rewrite lookup_insert_ne by congruence. by rewrite lookup_partial_alter_ne.
  - done.
  - intros id' key' Hne. by rewrite lookup_insert_ne by congruence.
Qed.

Lemma restore_states before l slots r :
  NoDup l.*1 -> journaled before (list_to_map l) slots r ->
  exists r', st_iter rollback_state_slot l r = (r', Ok tt) /\ journaled before ∅ slots r'.
Proof.
  revert r. induction l as [|[id v] l IH]; intros r Hnd Hj; [by exists r|].
  cbn in Hnd. apply NoDup_cons in Hnd as [Hni Hnd].
  destruct (restore_state before (list_to_map l) slots r id v) as (r1 & Hr1 & Hj1);
    [done|by apply not_elem_of_list_to_map_1|].
  destruct (IH r1 Hnd Hj1) as (r2 & Hr2 & Hj2). exists r2. split; [|done].
  cbn [st_iter]. unfold mbind, st_mbind. by rewrite Hr1.
Qed.

Lemma restore_slots before states l r :
  NoDup l.*1 -> journaled before states (list_to_map l) r ->
  exists r', st_iter rollback_storage_slot l r = (r', Ok tt) /\ journaled before states ∅ r'.
Proof.
  revert r. induction l as [|[[id key] v] l IH]; intros r Hnd Hj; [by exists r|].
  cbn in Hnd. apply NoDup_cons in Hnd as [Hni Hnd].
  destruct (restore_slot before states (list_to_map l) r id key v) as (r1 & Hr1 & Hj1);
    [done|by apply not_elem_of_list_to_map_1|].
  destruct (IH r1 Hnd Hj1) as (r2 & Hr2 & Hj2). exists r2. split; [|done].
  cbn [st_iter]. unfold mbind, st_mbind. by rewrite Hr1.
Qed.

(** The rollback of a journal, or of none. *)
Definition rollback_optional (journal : option ProgramJournal)
    : ST ProgramRegistry DeployError unit :=
  match journal with Some journal => rollback_program journal | None => mret tt end.

Lemma sorted_entries_map {V} (m : gmap (list Z) V) :
  NoDup (sorted_entries m).*1 /\ list_to_map (sorted_entries m) = m.
Proof.
  assert (NoDup (sorted_entries m).*1) as Hnd
    by (rewrite sorted_entries_keys; apply NoDup_sorted_ids).
  split; [done|]. rewrite <- (list_to_map_to_list m) at 2.
  apply list_to_map_proper; [done|]. apply sorted_entries_permutation.
Qed.

Lemma sorted_slots_map (m : gmap (ProgramId * list Z) (option (list Z))) :
  let l := merge_sort slot_le (map_to_list m) in NoDup l.*1 /\ list_to_map l = m.
Proof.
  cbn. assert (merge_sort slot_le (map_to_list m) ≡ₚ map_to_list m) as Hp
    by apply merge_sort_Permutation.
  assert (NoDup (merge_sort slot_le (map_to_list m)).*1) as Hnd
    by (rewrite Hp; apply NoDup_fst_map_to_list).
  split; [done|]. rewrite <- (list_to_map_to_list m) at 2. by apply list_to_map_proper.
Qed.

Lemma rollback_journaled before w r :
  journaled before (w_states w) (w_storage w) r ->
  rollback_optional (program_journal w) r = (before, Ok tt).
Proof.
  intros Hj. unfold program_journal. destruct (sorted_entries_map (w_states w)) as [Hnd Hs].
  destruct (sorted_slots_map (w_storage w)) as [Hnd' Hs'].
  case_decide as He.
  { destruct He as [He1 He2]. rewrite He1, He2 in Hj. by apply journaled_done in Hj as ->. }
  assert (rollback_program (JournalCalls (sorted_entries (w_states w))
    (merge_sort slot_le (map_to_list (w_storage w)))) r = (before, Ok tt)) as Hcalls.
  { destruct (restore_states before (sorted_entries (w_states w)) (w_storage w) r)
      as (r1 & Hr1 & Hj1); [done|by rewrite Hs|].
    destruct (restore_slots before ∅ (merge_sort slot_le (map_to_list (w_storage w))) r1)
      as (r2 & Hr2 & Hj2); [done|by rewrite Hs'|].
    apply journaled_done in Hj2 as ->. cbn [rollback_program]. unfold mbind, st_mbind.
    by rewrite Hr1. }
  destruct (decide (w_storage w = ∅)) as [He2|]; [|by repeat case_match].
  destruct (sorted_entries (w_states w)) as [|[id v] [|]]; try done. cbn.
  rewrite He2, <- Hs in Hj. destruct (restore_state before ∅ ∅ r id v) as (r1 & -> & Hj1);
    [done|done|]. by apply journaled_done in Hj1 as ->.
Qed.

(** Whatever sequence of state and storage writes an invocation
    makes, rolling its journal back succeeds and restores the registry exactly. *)
Theorem invocation_rollback_restores (r r' : ProgramRegistry) (l : list VmWrite) (w : Writes) :
  vm_writes (r, {| w_states := ∅; w_storage := ∅ |}) l = Some (r', w) ->
  rollback_optional (program_journal w) r' = (r, Ok tt).
Proof.
  intros Hw. apply rollback_journaled.
  assert (forall s, journaled r (w_states s.2) (w_storage s.2) s.1 ->
    vm_writes s l = Some (r', w) -> journaled r (w_states w) (w_storage w) r') as Hrun.
  { clear Hw. induction l as [|x l IH]; intros [r0 w0] Hj Hw; cbn [vm_writes] in Hw;
      [by simplify_eq|].
    apply bind_Some in Hw as ([r1 w1] & Hx & Hw).
    eapply (IH (r1, w1)); [|done]. by eapply journaled_write. }
  apply (Hrun (r, {| w_states := ∅; w_storage := ∅ |})); [apply journaled_refl|done].
Qed.

(** The record a deployment stores. *)
Definition deployed_record `{Sha3} (d : DeployProgram) (height : Z) : ProgramRecord :=
  {| code_hash := program_hash (dp_code d); code := dp_code d; p_owner := dp_owner d;
     nonce := dp_nonce d; deployed_at := height; p_state := 0; storage := ∅ |}.

Lemma deploy_program_Ok `{Sha3} r d height r' id journal :
  deploy_program r d height = Ok (r', (id, journal)) ->
  validate_structure d = Ok tt /\
  id = program_id_derive (dp_owner d) (dp_nonce d) (program_hash (dp_code d)) /\
  journal = JournalDeploy id /\ registry_insert r id (deployed_record d height) = Ok r'.
Proof.
  unfold deploy_program, prepare_deployment. fold (deployed_record d height).
  destruct (validate_structure d) as [[]|]; cbn [mbind result_mbind]; [|done].
  destruct (registry_insert _ _ _) eqn:Hi; cbn; [|done]. by intros [= <- <- <-].
Qed.

Lemma rollback_deploy r id record :
  programs r !! id = None -> deployment record ∉ deployments r ->
  rollback_program (JournalDeploy id)
    {| programs := <[id := record]> (programs r);
       deployments := {[deployment record]} ∪ deployments r |} = (r, Ok tt).
Proof.
  intros Hn Hd. cbn. unfold st_update, registry_remove. cbn. rewrite lookup_insert_eq. cbn.
  fold (deployment record). rewrite delete_insert_id by done. destruct r as [p ds]. cbn in *.
  do 2 f_equal. set_solver.
Qed.

(** Deploying a program either fails and leaves the registry as
    it was, or stores a record that the audit accepts under its derived
    identifier, keeps the owner/nonce index exact, and is undone exactly by its
    journal; a second deployment by the same owner with the same nonce fails. *)
Theorem deploy_program_spec `{Sha3} (r r' : ProgramRegistry) (d : DeployProgram) (height : Z)
    (id : ProgramId) (journal : ProgramJournal) :
  registry_ok r -> deploy_program r d height = Ok (r', (id, journal)) ->
  registry_ok r' /\
  program r' id = Some (deployed_record d height) /\
  record_valid height id (deployed_record d height) /\
  rollback_program journal r' = (r, Ok tt) /\
  (forall d' height', dp_owner d' = dp_owner d -> dp_nonce d' = dp_nonce d ->
     validate_structure d' = Ok tt ->
     deploy_program r' d' height' = Err (DeployRegistry AlreadyExists)).
Proof.
  intros Hr (Hv & -> & -> & Hi)%deploy_program_Ok.
  pose proof Hi as (Hn & Hni & ->)%registry_insert_Ok.
  split; [by eapply insert_ok|]. split; [by unfold program; cbn; rewrite lookup_insert_eq|].
  split; [|split; [by apply rollback_deploy|]].
  - split; [|cbn; lia]. unfold validate_record. destruct d as [o n c]. cbn in *. rewrite Hv. cbn.
    rewrite !bool_decide_eq_true_2, andb_false_r by done. done.
  - intros d' height' Ho Hn' Hv'. unfold deploy_program, prepare_deployment. rewrite Hv'. cbn.
    unfold registry_insert, check_available. cbn. rewrite Ho, Hn'.
    rewrite (bool_decide_eq_true_2 ((dp_owner d, dp_nonce d) ∈ _)) by set_solver.
    by rewrite orb_true_r.
Qed.

(** ** Examples *)

Definition sample_record : ProgramRecord :=
  {| code_hash := []; code := sample_code; p_owner := [7]; nonce := 1; deployed_at := 3;
     p_state := 5; storage := {[ [1] := [2] ]} |}.

Lemma invocation_rollback_restores_witness :
  let r := with_program empty_registry [9] sample_record in
  exists r' w, vm_writes (r, {| w_states := ∅; w_storage := ∅ |})
      [WriteState [9] 6; WriteStorage [9] [1] None; WriteStorage [9] [4] (Some [8]);
       WriteState [9] 7] = Some (r', w) /\
    rollback_optional (program_journal w) r' = (r, Ok tt).
Proof.
  set (r := with_program empty_registry [9] sample_record).
  destruct (vm_writes (r, {| w_states := ∅; w_storage := ∅ |})
      [WriteState [9] 6; WriteStorage [9] [1] None; WriteStorage [9] [4] (Some [8]);
       WriteState [9] 7]) as [[r' w]|] eqn:Hw; [|vm_compute in Hw; discriminate].
  exists r', w. split; [exact Hw|]. exact (invocation_rollback_restores r r' _ w Hw).
Defined.

Lemma deploy_program_spec_witness :
  let d := {| dp_owner := [7]; dp_nonce := 1; dp_code := sample_code |} in
  exists r' id journal,
    @deploy_program toy_sha3 empty_registry d 3 = Ok (r', (id, journal)) /\
    rollback_program journal r' = (empty_registry, Ok tt).
Proof.
  set (d := {| dp_owner := [7]; dp_nonce := 1; dp_code := sample_code |}).
  destruct (@deploy_program toy_sha3 empty_registry d 3) as [[r' [id journal]]|e] eqn:Hd;
    [|vm_compute in Hd; discriminate].
  exists r', id, journal. split; [exact Hd|].
  apply (@deploy_program_spec toy_sha3 empty_registry r' d 3 id journal registry_ok_empty Hd).
Defined.
