(* ===== verification/RegistryWire.v ===== *)
(** * The registry on the wire

    Models the Borsh formats of [kernel/src/program/registry.rs] and
    [program/vm_app/storage.rs]: program records, whose storage is present only
    for application code, the registry with its strictly increasing keys and
    its re-validation of every record, and bounded storage maps.  The derived
    owner/nonce index is never encoded. *)

From stdpp Require Import sorting.
From S2P Require Import Prelude Codec Monetary Index Vm Registry.
#[local] Open Scope Z_scope.

(** ** Storage *)

Definition enc_slot (kv : list Z * list Z) : list Z := enc_string kv.1 ++ enc_string kv.2.

Definition enc_storage (m : gmap (list Z) (list Z)) : list Z := enc_vec enc_slot (sorted_entries m).

(** [bytes(reader, max)]: a length that is neither zero nor above the limit. *)
Definition read_blob (max : Z) (bytes : list Z) : option (list Z * list Z) :=
  '(n, bytes) ← dec_uint 4 bytes;
  if (n =? 0) || (max <? n) then None else dec_raw (Z.to_nat n) bytes.

(** [previous >= key], false without a previous key. *)
Definition not_above (previous : option (list Z)) (key : list Z) : bool :=
  match previous with Some p => lex_leb key p | None => false end.

(** [BTreeMap::last_key_value]. *)
Definition last_key {V} (m : gmap (list Z) V) : option (list Z) := last (sorted_ids (dom m)).

Fixpoint read_slots (count : nat) (map : gmap (list Z) (list Z)) (size : Z) (bytes : list Z)
    : option (gmap (list Z) (list Z) * list Z) :=
  match count with
  | O => Some (map, bytes)
  | S count =>
      '(key, bytes) ← read_blob MAX_KEY_BYTES bytes;
      if not_above (last_key map) key then None
      else
        '(value, bytes) ← read_blob MAX_DATA_BYTES bytes;
        let size := size + (8 + Z.of_nat (length key) + Z.of_nat (length value)) in
        if MAX_STORAGE_BYTES <? size then None
        else read_slots count (<[key := value]> map) size bytes
  end.

Definition read_storage (bytes : list Z) : option (gmap (list Z) (list Z) * list Z) :=
  '(count, bytes) ← dec_uint 4 bytes;
  if MAX_STORAGE_ENTRIES <? count then None else read_slots (Z.to_nat count) ∅ 4 bytes.

(** ** Records and the registry *)

Definition enc_i64 (n : Z) : list Z := le_bytes 8 (n mod 2 ^ 64).
Definition dec_i64 (bytes : list Z) : option (Z * list Z) :=
  '(n, bytes) ← dec_uint 8 bytes;
  Some (if n <? 2 ^ 63 then n else n - 2 ^ 64, bytes).

Definition enc_program_record (r : ProgramRecord) : list Z :=
  code_hash r ++ enc_string (code r) ++ p_owner r ++ le_bytes 8 (nonce r)
  ++ le_bytes 8 (deployed_at r) ++ enc_i64 (p_state r)
  ++ (if is_application (code r) then enc_storage (storage r) else []).

(** [deserialize_program_code]. *)
Definition dec_program_code (bytes : list Z) : option (list Z * list Z) :=
  '(n, bytes) ← dec_uint 4 bytes;
  if MAX_PROGRAM_CODE_SIZE <? n then None else dec_raw (Z.to_nat n) bytes.

Definition dec_program_record (bytes : list Z) : option (ProgramRecord * list Z) :=
  '(hash, bytes) ← dec_raw HASH_SIZE bytes;
  '(code, bytes) ← dec_program_code bytes;
  '(owner, bytes) ← dec_raw HASH_SIZE bytes;
  '(nonce, bytes) ← dec_uint 8 bytes;
  '(deployed_at, bytes) ← dec_uint 8 bytes;
  '(state, bytes) ← dec_i64 bytes;
  '(storage, bytes) ← (if is_application code then read_storage bytes else Some (∅, bytes));
  Some ({| code_hash := hash; code := code; p_owner := owner; nonce := nonce;
           deployed_at := deployed_at; p_state := state; storage := storage |}, bytes).

Definition enc_registry (r : ProgramRegistry) : list Z := enc_map enc_program_record (programs r).

Section registry.
Context `{Sha3}.

Fixpoint read_programs (count : nat) (registry : ProgramRegistry) (previous : option ProgramId)
    (bytes : list Z) : option (ProgramRegistry * list Z) :=
  match count with
  | O => Some (registry, bytes)
  | S count =>
      '(id, bytes) ← dec_raw HASH_SIZE bytes;
      if not_above previous id then None
      else
        '(record, bytes) ← dec_program_record bytes;
        _ ← ok (validate_record id record);
        registry ← ok (registry_insert registry id record);
        read_programs count registry (Some id) bytes
  end.

Definition dec_registry (bytes : list Z) : option (ProgramRegistry * list Z) :=
  '(count, bytes) ← dec_uint 4 bytes;
  read_programs (Z.to_nat count) empty_registry None bytes.
End registry.

(** ** The values the types can hold *)

Definition i64 (n : Z) : Prop := - 2 ^ 63 <= n < 2 ^ 63.

(** A byte string that fits in memory. *)
Definition blob (bytes : list Z) : Prop := bytes_wf bytes /\ Z.of_nat (length bytes) < 2 ^ 64.

Record record_typed (r : ProgramRecord) : Prop := {
  rt_code_hash : hash_wf (code_hash r);
  rt_code : blob (code r);
  rt_owner : hash_wf (p_owner r);
  rt_nonce : fits 64 (nonce r);
  rt_deployed_at : fits 64 (deployed_at r);
  rt_state : i64 (p_state r);
  rt_storage : map_Forall (fun k v => bytes_wf k /\ blob v) (storage r);
}.

Definition registry_typed (r : ProgramRegistry) : Prop :=
  map_Forall (fun id record => hash_wf id /\ record_typed record) (programs r).

(** ** Keys in increasing order *)

#[local] Instance lex_leb_AntiSymm : AntiSymm (=) (fun a b => Is_true (lex_leb a b)).
Proof.
  intros a b. unfold lex_leb. rewrite (lex_compare_antisym a b).
  destruct (lex_compare a b) eqn:He; simpl; try done. by apply lex_compare_Eq in He.
Qed.

(** Every key of the map is before [k]. *)
Definition above {V} (m : gmap (list Z) V) (k : list Z) : Prop :=
  forall k', is_Some (m !! k') -> lex_compare k' k = Lt.

Lemma above_fresh {V} (m : gmap (list Z) V) k : above m k -> m !! k = None.
Proof.
  intros Ha. destruct (m !! k) eqn:Hk; [|done]. specialize (Ha k ltac:(by eexists)).
  by rewrite lex_compare_refl in Ha.
Qed.

Lemma not_above_false p k : not_above (Some p) k = false <-> lex_compare p k = Lt.
Proof.
  cbn. unfold lex_leb. rewrite (lex_compare_antisym p k). by destruct (lex_compare p k).
Qed.

Lemma sorted_ids_snoc (X : gset (list Z)) k :
  (forall k', k' ∈ X -> lex_compare k' k = Lt) -> sorted_ids ({[k]} ∪ X) = sorted_ids X ++ [k].
Proof.
  intros Ha. assert (k ∉ X) as Hk by (intros Hin%Ha; by rewrite lex_compare_refl in Hin).
  apply (StronglySorted_unique (fun a b => Is_true (lex_leb a b))).
  - apply Sorted_sorted_ids.
  - apply StronglySorted_app. split_and!; [|apply Sorted_sorted_ids|by repeat constructor].
    intros x y Hx%elem_of_sorted_ids Hy%list_elem_of_singleton. subst y. unfold lex_leb.
    by rewrite Ha.
  - unfold sorted_ids. rewrite !merge_sort_Permutation.
    rewrite elements_disj_union, elements_singleton by set_solver. apply Permutation_app_comm.
Qed.

Lemma sorted_entries_snoc {V} (m : gmap (list Z) V) k v :
  above m k -> sorted_entries (<[k := v]> m) = sorted_entries m ++ [(k, v)].
Proof.
  intros Ha. unfold sorted_entries. rewrite dom_insert_L, sorted_ids_snoc.
  2: { intros k' Hk'%elem_of_dom. by apply Ha. }
  rewrite omap_app. f_equal; [|cbn; by rewrite lookup_insert_eq].
  apply list_omap_ext, Forall_Forall2_diag, Forall_forall. intros x Hx%elem_of_sorted_ids%elem_of_dom.
  rewrite lookup_insert_ne; [done|]. intros <-. by rewrite above_fresh in Hx.
Qed.

Lemma last_key_elem {V} (m : gmap (list Z) V) p : last_key m = Some p -> is_Some (m !! p).
Proof. intros Hl%last_Some_elem_of. by apply elem_of_dom, elem_of_sorted_ids. Qed.

Lemma above_last {V} (m : gmap (list Z) V) k : not_above (last_key m) k = false <-> above m k.
Proof.
  split.
  - intros Hn k' Hk'. unfold last_key in *. apply elem_of_dom, elem_of_sorted_ids in Hk'.
    destruct (last (sorted_ids (dom m))) as [p|] eqn:Hl.
    2: { apply last_None in Hl. by rewrite Hl in Hk'; apply not_elem_of_nil in Hk'. }
    apply not_above_false in Hn. apply last_Some in Hl as [l Hl].
    pose proof (Sorted_sorted_ids (dom m)) as Hs. rewrite Hl in Hs, Hk'.
    apply StronglySorted_app in Hs as (Hs & _ & _).
    apply elem_of_app in Hk' as [Hin| ->%list_elem_of_singleton]; [|done].
    specialize (Hs k' p Hin ltac:(by apply list_elem_of_singleton)). unfold lex_leb in Hs.
    destruct (lex_compare k' p) eqn:Hc; [by apply lex_compare_Eq in Hc as ->| |done].
    by eapply lex_compare_lt_trans.
  - intros Ha. destruct (last_key m) as [p|] eqn:Hl; [|done].
    apply not_above_false, Ha. by apply last_key_elem.
Qed.

Lemma sorted_entries_inj {V} (m m' : gmap (list Z) V) :
  sorted_entries m = sorted_entries m' -> m = m'.
Proof. intros He. by rewrite <- (list_to_map_sorted_entries m), He, list_to_map_sorted_entries. Qed.

Lemma sorted_entries_empty {V} : sorted_entries (∅ : gmap (list Z) V) = [].
Proof. unfold sorted_entries. by rewrite dom_empty_L. Qed.

Lemma last_key_insert {V} (m : gmap (list Z) V) k v : above m k -> last_key (<[k := v]> m) = Some k.
Proof.
  intros Ha. unfold last_key. rewrite dom_insert_L, sorted_ids_snoc, last_snoc; [done|].
  intros k' Hk'%elem_of_dom. by apply Ha.
Qed.

(** The next entry of a map in key order is above the ones before it. *)
Lemma sorted_entries_above {V} (m m0 : gmap (list Z) V) k v l :
  sorted_entries m = sorted_entries m0 ++ (k, v) :: l -> above m0 k.
Proof.
  intros He k' [v' Hk']. apply elem_of_sorted_entries in Hk'.
  assert (StronglySorted (fun a b => Is_true (lex_leb a b)) (sorted_entries m).*1) as Hs
    by (rewrite sorted_entries_keys; apply Sorted_sorted_ids).
  assert (NoDup (sorted_entries m).*1) as Hnd
    by (rewrite sorted_entries_keys; apply NoDup_sorted_ids).
  rewrite He, fmap_app in Hs, Hnd. apply StronglySorted_app in Hs as (Hs & _ & _).
  apply list_elem_of_fmap_2 with (f := fst) in Hk'. cbn in Hk'.
  specialize (Hs k' k Hk' ltac:(left)). unfold lex_leb in Hs.
  destruct (lex_compare k' k) eqn:Hc; [|done|done]. apply lex_compare_Eq in Hc as ->.
  apply NoDup_app in Hnd as (_ & Hd & _). exfalso. apply (Hd k Hk'). left.
Qed.

(** ** Storage round trip *)

Definition slot_wf (kv : list Z * list Z) : Prop :=
  kv.1 <> [] /\ Z.of_nat (length kv.1) <= MAX_KEY_BYTES /\
  kv.2 <> [] /\ Z.of_nat (length kv.2) <= MAX_DATA_BYTES.

Definition slot_weight (kv : list Z * list Z) : Z :=
  8 + Z.of_nat (length kv.1) + Z.of_nat (length kv.2).

Lemma valid_storage_entries m :
  valid_storage m = true <->
  Z.of_nat (length (sorted_entries m)) <= MAX_STORAGE_ENTRIES /\
  Forall slot_wf (sorted_entries m) /\
  4 + zsum (slot_weight <$> sorted_entries m) <= MAX_STORAGE_BYTES.
Proof.
  unfold valid_storage. rewrite !andb_true_iff, !Z.leb_le, bool_decide_eq_true, map_sum_entries.
  rewrite sorted_entries_length, Forall_forall. unfold slot_weight.
  assert ((forall x, x ∈ sorted_entries m -> slot_wf x) <->
    map_Forall (fun k v => k <> [] /\ Z.of_nat (length k) <= MAX_KEY_BYTES /\
      v <> [] /\ Z.of_nat (length v) <= MAX_DATA_BYTES) m) as ->.
  { split; [intros Hf k v Hk; by apply (Hf (k, v)), elem_of_sorted_entries|].
    intros Hf [k v] Hk%elem_of_sorted_entries. by apply (Hf k v). }
  rewrite Z.add_comm. tauto.
Qed.

Lemma read_blob_enc max b rest :
  b <> [] -> Z.of_nat (length b) <= max < 2 ^ 32 -> read_blob max (enc_string b ++ rest) = Some (b, rest).
Proof.
  intros Hb Hl. unfold read_blob, enc_string. rewrite <- app_assoc, dec_uint_enc by (cbn; lia).
  cbn [mbind option_bind]. assert (0 < length b)%nat by (destruct b; [done|cbn; lia]).
  rewrite (proj2 (Z.eqb_neq _ _)), (proj2 (Z.ltb_ge _ _)) by lia. cbn [orb].
  by rewrite dec_raw_enc by lia.
Qed.

Lemma read_blob_canonical max bytes b rest :
  bytes_wf bytes -> read_blob max bytes = Some (b, rest) ->
  bytes = enc_string b ++ rest /\ b <> [] /\ Z.of_nat (length b) <= max /\ bytes_wf b /\ bytes_wf rest.
Proof.
  intros Hwf Hr. unfold read_blob in Hr. apply bind_Some in Hr as ([n b1] & Hn & Hr).
  apply dec_uint_canonical in Hn as (-> & Hn & Hb1); [|done].
  destruct (_ || _) eqn:Hg; [done|]. apply orb_false_iff in Hg as [Hz Hm].
  apply dec_raw_canonical in Hr as (-> & Hl & ? & ?); [|done]. unfold enc_string.
  rewrite Hl, Z2Nat.id, <- app_assoc by lia. split_and!; [done| |lia|done|done].
  intros ->. cbn in Hl. lia.
Qed.

Lemma read_slots_enc m m0 l size rest :
  sorted_entries m = sorted_entries m0 ++ l -> Forall slot_wf l ->
  size + zsum (slot_weight <$> l) <= MAX_STORAGE_BYTES ->
  read_slots (length l) m0 size (concat (enc_slot <$> l) ++ rest) = Some (m, rest).
Proof.
  revert m0 size. induction l as [|[k v] l IH]; intros m0 size He Hl Hs.
  { rewrite app_nil_r in He. cbn. by apply sorted_entries_inj in He as ->. }
  apply Forall_cons in Hl as [(Hk & Hkl & Hv & Hvl) Hl]. cbn [fst snd] in *.
  cbn [length read_slots fmap list_fmap concat]. unfold enc_slot at 1. cbn [fst snd].
  rewrite <- !app_assoc, read_blob_enc by (done || (unfold MAX_KEY_BYTES in *; lia)).
  cbn [mbind option_bind]. pose proof (sorted_entries_above _ _ _ _ _ He) as Ha.
  rewrite (proj2 (above_last _ _) Ha).
  rewrite read_blob_enc by (done || (unfold MAX_DATA_BYTES in *; lia)). cbn [mbind option_bind].
  rewrite fmap_cons, zsum_cons in Hs. unfold slot_weight at 1 in Hs. cbn [fst snd] in Hs.
  assert (0 <= zsum (slot_weight <$> l)) as Hpos.
  { apply zsum_nonneg, Forall_fmap, Forall_forall. intros x _. cbn. unfold slot_weight. lia. }
  rewrite (proj2 (Z.ltb_ge _ _)) by lia. apply IH; [|done|lia].
  by rewrite sorted_entries_snoc, <- app_assoc.
Qed.

Lemma read_slots_canonical n m0 size bytes m rest :
  bytes_wf bytes -> size <= MAX_STORAGE_BYTES -> read_slots n m0 size bytes = Some (m, rest) ->
  exists l, length l = n /\ sorted_entries m = sorted_entries m0 ++ l /\ Forall slot_wf l /\
    Forall (fun kv => bytes_wf kv.1 /\ bytes_wf kv.2) l /\
    size + zsum (slot_weight <$> l) <= MAX_STORAGE_BYTES /\
    bytes = concat (enc_slot <$> l) ++ rest /\ bytes_wf rest.
Proof.
  revert m0 size bytes. induction n as [|n IH]; intros m0 size bytes Hwf Hs Hr; cbn [read_slots] in Hr.
  { injection Hr as <- <-. exists []. rewrite app_nil_r. split_and!; try done. cbn. lia. }
  apply bind_Some in Hr as ([k b1] & Hk & Hr).
  apply read_blob_canonical in Hk as (-> & Hk & Hkl & Hkb & Hb1); [|done].
  destruct (not_above _ _) eqn:Ha; [done|]. apply above_last in Ha.
  apply bind_Some in Hr as ([v b2] & Hv & Hr).
  apply read_blob_canonical in Hv as (-> & Hv & Hvl & Hvb & Hb2); [|done].
  destruct (Z.ltb_spec MAX_STORAGE_BYTES (size + (8 + Z.of_nat (length k) + Z.of_nat (length v))));
    [done|].
  apply IH in Hr as (l & <- & He & Hl & Hlb & Hsz & -> & Hrest); [|done|done].
  exists ((k, v) :: l). rewrite sorted_entries_snoc, <- app_assoc in He by done.
  rewrite fmap_cons, zsum_cons. unfold slot_weight at 1. cbn [fst snd].
  split_and!; [done|done|constructor; [by split_and!|done]|by constructor|lia| |done].
  rewrite fmap_cons. cbn [concat]. unfold enc_slot at 2. cbn [fst snd]. by rewrite <- !app_assoc.
Qed.

Lemma read_storage_enc m rest :
  valid_storage m = true -> read_storage (enc_storage m ++ rest) = Some (m, rest).
Proof.
  intros (Hn & Hl & Hs)%valid_storage_entries. unfold read_storage, enc_storage, enc_vec.
  rewrite <- app_assoc, dec_uint_enc by (unfold MAX_STORAGE_ENTRIES in *; cbn; lia).
  cbn [mbind option_bind]. rewrite (proj2 (Z.ltb_ge _ _)), Nat2Z.id by lia.
  apply read_slots_enc; [by rewrite sorted_entries_empty|done|done].
Qed.

Lemma read_storage_canonical bytes m rest :
  bytes_wf bytes -> read_storage bytes = Some (m, rest) ->
  bytes = enc_storage m ++ rest /\ valid_storage m = true /\
  map_Forall (fun k v => bytes_wf k /\ bytes_wf v) m /\ bytes_wf rest.
Proof.
  intros Hwf Hr. unfold read_storage in Hr. apply bind_Some in Hr as ([n b] & Hn & Hr).
  apply dec_uint_canonical in Hn as (-> & Hn & Hb); [|done].
  destruct (Z.ltb_spec MAX_STORAGE_ENTRIES n); [done|].
  apply read_slots_canonical in Hr as (l & Hl & He & Hw & Hlb & Hs & -> & Hrest); [|done|done].
  rewrite sorted_entries_empty in He. cbn in He. unfold enc_storage, enc_vec. rewrite He, Hl.
  rewrite Z2Nat.id, <- app_assoc by lia. split_and!; [done| | |done].
  - apply valid_storage_entries. rewrite He, Hl. split_and!; [lia|done|done].
  - intros k v Hk%elem_of_sorted_entries. rewrite He in Hk. rewrite Forall_forall in Hlb.
    by apply (Hlb (k, v)).
Qed.

(** ** Records *)

Lemma dec_i64_enc n rest : i64 n -> dec_i64 (enc_i64 n ++ rest) = Some (n, rest).
Proof.
  intros Hn. unfold dec_i64, enc_i64, i64 in *.
  rewrite dec_uint_enc by (change (256 ^ Z.of_nat 8) with (2 ^ 64); apply Z.mod_pos_bound; lia).
  cbn [mbind option_bind]. do 2 f_equal. destruct (Z_lt_dec n 0).
  - rewrite <- (Z.mod_add n 1 (2 ^ 64)), Z.mod_small by lia.
    rewrite (proj2 (Z.ltb_ge _ _)) by lia. lia.
  - rewrite Z.mod_small by lia. by rewrite (proj2 (Z.ltb_lt _ _)) by lia.
Qed.

Lemma dec_i64_canonical bytes n rest :
  bytes_wf bytes -> dec_i64 bytes = Some (n, rest) ->
  bytes = enc_i64 n ++ rest /\ i64 n /\ bytes_wf rest.
Proof.
  intros Hwf Hd. unfold dec_i64 in Hd. apply bind_Some in Hd as ([x b] & Hx & [= <- <-]).
  apply dec_uint_canonical in Hx as (-> & Hx & Hb); [|done]. change (256 ^ Z.of_nat 8) with (2 ^ 64) in Hx.
  unfold enc_i64, i64. split_and!; [|case_match; lia..|done]. do 2 f_equal.
  case_match; [by rewrite Z.mod_small by lia|].
  rewrite <- (Z.mod_add (x - 2 ^ 64) 1 (2 ^ 64)), Z.mod_small by lia. lia.
Qed.

Lemma dec_program_code_enc c rest :
  Z.of_nat (length c) <= MAX_PROGRAM_CODE_SIZE -> dec_program_code (enc_string c ++ rest) = Some (c, rest).
Proof.
  intros Hl. unfold dec_program_code, enc_string.
  rewrite <- app_assoc, dec_uint_enc by (unfold MAX_PROGRAM_CODE_SIZE in *; cbn; lia).
  cbn [mbind option_bind]. rewrite (proj2 (Z.ltb_ge _ _)) by lia. by rewrite dec_raw_enc by lia.
Qed.

Lemma dec_program_code_canonical bytes c rest :
  bytes_wf bytes -> dec_program_code bytes = Some (c, rest) ->
  bytes = enc_string c ++ rest /\ Z.of_nat (length c) <= MAX_PROGRAM_CODE_SIZE /\
  bytes_wf c /\ bytes_wf rest.
Proof.
  intros Hwf Hd. unfold dec_program_code in Hd. apply bind_Some in Hd as ([n b] & Hn & Hd).
  apply dec_uint_canonical in Hn as (-> & Hn & Hb); [|done].
  destruct (Z.ltb_spec MAX_PROGRAM_CODE_SIZE n); [done|].
  apply dec_raw_canonical in Hd as (-> & Hl & ? & ?); [|done]. unfold enc_string.
  rewrite Hl, Z2Nat.id, <- app_assoc by lia. split_and!; [done|lia|done|done].
Qed.

(** The storage of scalar code is empty, that of application code is valid. *)
Definition storage_wf (r : ProgramRecord) : Prop :=
  Z.of_nat (length (code r)) <= MAX_PROGRAM_CODE_SIZE /\ valid_storage (storage r) = true /\
  (is_application (code r) = false -> storage r = ∅).

Lemma dec_program_record_enc r rest :
  record_typed r -> storage_wf r ->
  dec_program_record (enc_program_record r ++ rest) = Some (r, rest).
Proof.
  intros [[Hh _] _ [Ho _] Hn Hd Hs _] (Hc & Hv & He). unfold dec_program_record, enc_program_record.
  rewrite <- !app_assoc, dec_raw_enc by done. cbn [mbind option_bind].
  rewrite dec_program_code_enc by done. cbn [mbind option_bind].
  rewrite dec_raw_enc by done. cbn [mbind option_bind].
  rewrite dec_uint_enc by exact Hn. cbn [mbind option_bind].
  rewrite dec_uint_enc by exact Hd. cbn [mbind option_bind].
  rewrite dec_i64_enc by done. cbn [mbind option_bind]. destruct (is_application (code r)).
  - rewrite read_storage_enc by done. cbn [mbind option_bind]. by destruct r.
  - cbn [app mbind option_bind]. rewrite <- He by done. by destruct r.
Qed.

Lemma dec_program_record_canonical bytes r rest :
  bytes_wf bytes -> dec_program_record bytes = Some (r, rest) ->
  bytes = enc_program_record r ++ rest /\ record_typed r /\ bytes_wf rest.
Proof.
  intros Hwf Hd. unfold dec_program_record in Hd.
  apply bind_Some in Hd as ([h b1] & Hh & Hd). apply dec_raw_canonical in Hh as (-> & ? & ? & Hb1); [|done].
  apply bind_Some in Hd as ([c b2] & Hc & Hd).
  apply dec_program_code_canonical in Hc as (-> & Hcl & ? & Hb2); [|done].
  apply bind_Some in Hd as ([o b3] & Ho & Hd). apply dec_raw_canonical in Ho as (-> & ? & ? & Hb3); [|done].
  apply bind_Some in Hd as ([n b4] & Hn & Hd). apply dec_uint_canonical in Hn as (-> & ? & Hb4); [|done].
  apply bind_Some in Hd as ([d b5] & Hdp & Hd). apply dec_uint_canonical in Hdp as (-> & ? & Hb5); [|done].
  apply bind_Some in Hd as ([s b6] & Hs & Hd). apply dec_i64_canonical in Hs as (-> & ? & Hb6); [|done].
  apply bind_Some in Hd as ([st b7] & Hst & [= <- <-]).
  unfold enc_program_record. cbn [code_hash code p_owner nonce deployed_at p_state storage].
  rewrite <- !app_assoc.
  assert (b6 = (if is_application c then enc_storage st else []) ++ b7 /\ bytes_wf b7 /\
    map_Forall (fun k v => bytes_wf k /\ blob v) st) as (-> & Hb7 & Hty).
  { destruct (is_application c).
    - apply read_storage_canonical in Hst as (-> & Hv & Hkb & ?); [|done]. split_and!; [done|done|].
      intros k v Hk. destruct (Hkb k v Hk). split; [done|]. split; [done|].
      apply valid_storage_entries in Hv as (_ & Hw & _). rewrite Forall_forall in Hw.
      apply elem_of_sorted_entries, Hw in Hk as (_ & _ & _ & Hl). unfold MAX_DATA_BYTES in Hl. cbn in Hl. lia.
    - injection Hst as <- <-. split_and!; [done|done|]. by intros ? ?; rewrite lookup_empty. }
  split_and!; [done| |done]. split; cbn; try done. split; [done|].
  unfold MAX_PROGRAM_CODE_SIZE in Hcl. lia.
Qed.

(** ** The registry *)

Section round_trip.
Context `{Sha3}.

Lemma validate_record_storage id r : validate_record id r = Ok tt -> storage_wf r.
Proof.
  intros Hv. unfold validate_record in Hv. apply bind_Ok in Hv as ([] & Hs%map_err_Ok_inv & Hv).
  unfold validate_structure in Hs. cbn [dp_code] in Hs. apply guard_err_Ok in Hs as [_ Hs].
  apply guard_err_Ok in Hs as [Hl _]. apply guard_err_Ok in Hv as [Hg _].
  apply orb_false_iff in Hg as [Hst He]. apply negb_false_iff in Hst.
  split_and!; [lia|done|]. intros Ha. rewrite Ha in He. cbn in He.
  by apply negb_false_iff, bool_decide_eq_true in He.
Qed.

Definition records_valid (r : ProgramRegistry) : Prop :=
  map_Forall (fun id record => validate_record id record = Ok tt) (programs r).

Lemma registry_ok_eq r r' : registry_ok r -> registry_ok r' -> programs r = programs r' -> r = r'.
Proof.
  intros [Hm _] [Hm' _] He. destruct r as [p d], r' as [p' d']. cbn in *. subst p'. f_equal.
  apply set_eq. intros x. by rewrite Hm, Hm'.
Qed.

Lemma read_programs_enc r r0 l rest :
  registry_ok r -> registry_ok r0 -> registry_typed r -> records_valid r ->
  sorted_entries (programs r) = sorted_entries (programs r0) ++ l ->
  read_programs (length l) r0 (last_key (programs r0))
    (concat (enc_entry enc_program_record <$> l) ++ rest) = Some (r, rest).
Proof.
  intros Hr Hr0 Hty Hval. revert r0 Hr0. induction l as [|[id p] l IH]; intros r0 Hr0 He.
  { rewrite app_nil_r in He. cbn. apply sorted_entries_inj in He.
    by rewrite (registry_ok_eq r r0). }
  assert (programs r !! id = Some p) as Hid.
  { apply elem_of_sorted_entries. rewrite He. apply elem_of_app. right. left. }
  destruct (Hty _ _ Hid) as [[Hlen _] Hp].
  rewrite fmap_cons. cbn [length read_programs concat]. unfold enc_entry at 1. cbn [fst snd].
  rewrite <- !app_assoc, dec_raw_enc by done. cbn [mbind option_bind].
  pose proof (sorted_entries_above _ _ _ _ _ He) as Ha. rewrite (proj2 (above_last _ _) Ha).
  rewrite dec_program_record_enc; [|done|by eapply validate_record_storage, Hval].
  cbn [mbind option_bind]. rewrite (Hval id p Hid). cbn [ok mbind option_bind].
  assert (registry_insert r0 id p = Ok {| programs := <[id := p]> (programs r0);
    deployments := {[deployment p]} ∪ deployments r0 |}) as Hins.
  { apply registry_insert_Ok. split_and!; [by apply above_fresh| |done].
    intros (id' & p' & Hp' & Hd)%(index_members _ Hr0).
    assert (programs r !! id' = Some p') as Hin'.
    { apply elem_of_sorted_entries. rewrite He. apply elem_of_app. left.
      by apply elem_of_sorted_entries. }
    pose proof (index_unique _ Hr _ _ _ _ Hin' Hid Hd) as ->.
    by rewrite (above_fresh _ _ Ha) in Hp'. }
  rewrite Hins. cbn [ok mbind option_bind]. rewrite <- (last_key_insert (programs r0) id p) by done.
  apply IH.
  - by eapply insert_ok.
  - cbn. by rewrite sorted_entries_snoc, <- app_assoc.
Qed.

Lemma read_programs_canonical n r0 bytes r rest :
  bytes_wf bytes -> registry_ok r0 -> registry_typed r0 -> records_valid r0 ->
  read_programs n r0 (last_key (programs r0)) bytes = Some (r, rest) ->
  registry_ok r /\ registry_typed r /\ records_valid r /\ bytes_wf rest /\
  exists l, length l = n /\ sorted_entries (programs r) = sorted_entries (programs r0) ++ l /\
    bytes = concat (enc_entry enc_program_record <$> l) ++ rest.
Proof.
  revert r0 bytes. induction n as [|n IH]; intros r0 bytes Hwf Hok Hty Hval Hr; cbn [read_programs] in Hr.
  { injection Hr as <- <-. split_and!; try done. exists []. by rewrite app_nil_r. }
  apply bind_Some in Hr as ([id b1] & Hid & Hr).
  apply dec_raw_canonical in Hid as (-> & Hlen & Hidb & Hb1); [|done].
  destruct (not_above _ _) eqn:Ha; [done|]. apply above_last in Ha.
  apply bind_Some in Hr as ([p b2] & Hp & Hr).
  apply dec_program_record_canonical in Hp as (-> & Hpt & Hb2); [|done].
  apply bind_Some in Hr as ([] & Hv & Hr). apply bind_Some in Hr as (r1 & Hins & Hr).
  destruct (validate_record id p) as [[]|] eqn:Hvr; [|done].
  destruct (registry_insert r0 id p) as [r1'|] eqn:Hi; [|done]. injection Hins as ->.
  pose proof (insert_ok _ _ _ _ Hok Hi) as Hok1. apply registry_insert_Ok in Hi as (_ & _ & ->).
  rewrite <- (last_key_insert (programs r0) id p) in Hr by done.
  eapply IH in Hr as (? & ? & ? & ? & l & <- & He & ->);
    [|done|done|by apply map_Forall_insert_2|by apply map_Forall_insert_2].
  split_and!; try done. exists ((id, p) :: l). cbn in He.
  rewrite sorted_entries_snoc, <- app_assoc in He by done. split_and!; [done|done|].
  rewrite fmap_cons. cbn [concat]. unfold enc_entry at 2. cbn [fst snd]. by rewrite <- !app_assoc.
Qed.

Lemma dec_registry_enc r rest :
  registry_ok r -> registry_typed r -> records_valid r -> Z.of_nat (size (programs r)) < 2 ^ 32 ->
  dec_registry (enc_registry r ++ rest) = Some (r, rest).
Proof.
  intros Hr Hty Hval Hn. unfold dec_registry, enc_registry, enc_map, enc_vec.
  rewrite sorted_entries_length, <- app_assoc, dec_uint_enc by (cbn; lia). cbn [mbind option_bind].
  rewrite Nat2Z.id, <- sorted_entries_length.
  apply (read_programs_enc r empty_registry); [done|apply registry_ok_empty|done|done|].
  cbn. by rewrite sorted_entries_empty.
Qed.

Lemma dec_registry_canonical bytes r rest :
  bytes_wf bytes -> dec_registry bytes = Some (r, rest) ->
  bytes = enc_registry r ++ rest /\ registry_ok r /\ registry_typed r /\ records_valid r /\
  Z.of_nat (size (programs r)) < 2 ^ 32 /\ bytes_wf rest.
Proof.
  intros Hwf Hd. unfold dec_registry in Hd. apply bind_Some in Hd as ([n b] & Hn & Hd).
  apply dec_uint_canonical in Hn as (-> & Hn & Hb); [|done].
  apply (read_programs_canonical _ empty_registry) in Hd
    as (? & ? & ? & ? & l & Hl & He & ->);
    [|done|apply registry_ok_empty|apply map_Forall_empty..].
  cbn in He. rewrite sorted_entries_empty in He. cbn in He.
  unfold enc_registry, enc_map, enc_vec. rewrite He, Hl, Z2Nat.id, <- app_assoc by lia.
  split_and!; try done. rewrite <- sorted_entries_length, He, Hl, Z2Nat.id by lia. apply Hn.
Qed.

(** The registry's wire format is exact: bytes decode to a registry
    exactly when they are its encoding, its records have their field widths and
    are valid at their identifiers, code hash, storage limits and storage of
    scalar code included, its owner/nonce index lists exactly the records'
    deployments, and it has less than 2^32 programs.  So nothing but the
    canonical encoding of a valid registry is accepted, and the index that is
    not on the wire is rebuilt. *)
Theorem registry_wire_exact bytes r rest :
  bytes_wf bytes ->
  dec_registry bytes = Some (r, rest) <->
  bytes = enc_registry r ++ rest /\ registry_ok r /\ registry_typed r /\ records_valid r /\
  Z.of_nat (size (programs r)) < 2 ^ 32.
Proof.
  intros Hwf. split.
  - intros (? & ? & ? & ? & ? & _)%dec_registry_canonical; done.
  - intros (-> & ? & ? & ? & ?). by apply dec_registry_enc.
Qed.
End round_trip.

(** Application code that returns seven, deployed with one storage slot. *)
Definition stored_code : list Z :=
  MAGIC ++ [4; 16; 0; 1; 0; 0; 0; 0; 0] ++ (0x01 :: le_bytes 16 7) ++ [0x03].

Definition stored_record : ProgramRecord :=
  {| code_hash := @program_hash toy_sha3 stored_code; code := stored_code;
     p_owner := replicate 32 1; nonce := 3; deployed_at := 9; p_state := - 5;
     storage := {[ [1; 2] := [3] ]} |}.

Definition stored_id : ProgramId :=
  @program_id_derive toy_sha3 (replicate 32 1) 3 (@program_hash toy_sha3 stored_code).

Definition stored_registry : ProgramRegistry :=
  {| programs := {[ stored_id := stored_record ]}; deployments := {[ (replicate 32 1, 3) ]} |}.

Lemma stored_registry_ok : registry_ok stored_registry.
Proof.
  apply (insert_ok empty_registry stored_id stored_record); [apply registry_ok_empty|].
  apply registry_insert_Ok. split_and!; [done|set_solver|].
  by unfold stored_registry; f_equal.
Qed.

Lemma stored_registry_typed : registry_typed stored_registry.
Proof.
  apply map_Forall_singleton. split; [apply hash_wf_compute; vm_compute; reflexivity|].
  split; cbn [code_hash code p_owner nonce deployed_at p_state storage stored_record];
    try (apply hash_wf_compute; vm_compute; reflexivity);
    try (split; [discriminate|reflexivity]).
  - split; [apply digits_compute; vm_compute; reflexivity|vm_compute; reflexivity].
  - apply map_Forall_singleton. split; [apply digits_compute; vm_compute; reflexivity|].
    split; [apply digits_compute; vm_compute; reflexivity|vm_compute; reflexivity].
Qed.

Lemma stored_registry_valid : @records_valid toy_sha3 stored_registry.
Proof. apply map_Forall_singleton. vm_compute. reflexivity. Qed.

Lemma registry_wire_exact_witness :
  @dec_registry toy_sha3 (enc_registry stored_registry ++ [7]) = Some (stored_registry, [7]).
Proof.
  apply (@registry_wire_exact toy_sha3).
  - apply digits_compute. vm_compute. reflexivity.
  - split; [reflexivity|]. split; [exact stored_registry_ok|]. split; [exact stored_registry_typed|].
    split; [exact stored_registry_valid|vm_compute; reflexivity].
Defined.
