(* ===== verification/Calls.v ===== *)
(** * Program calls and their routing

    Models [kernel/src/program/system/script] (the [ProgramCall] envelope, its
    bounded wire format and [decode_program]), [program/system/monetary/mod.rs]
    (the monetary route with its currency selector), the coin decoder of
    [program/system/coin_program/mod.rs] and [call_input] of
    [program/vm_app/execution.rs]. *)

From S2P Require Import Prelude Codec Monetary Vm.
#[local] Open Scope Z_scope.

(** ** The envelope *)

Definition MAX_PROGRAM_PAYLOAD_SIZE : Z := 64 * 1024.

(** [SystemProgramId], a [u32]. *)
Definition MONETARY : Z := 0.
Definition ASSET : Z := 1.
Definition VM : Z := 2.

Record ProgramCall := { pc_program : Z; pc_opcode : Z; pc_payload : list Z }.

#[global] Instance ProgramCall_eq_dec : EqDecision ProgramCall.
Proof. solve_decision. Defined.

Definition enc_program_call (c : ProgramCall) : list Z :=
  le_bytes 4 (pc_program c) ++ le_bytes 1 (pc_opcode c) ++ enc_string (pc_payload c).

Definition dec_program_call (bytes : list Z) : option (ProgramCall * list Z) :=
  '(program, bytes) ← dec_uint 4 bytes;
  '(opcode, bytes) ← dec_uint 1 bytes;
  '(length, bytes) ← dec_uint 4 bytes;
  if MAX_PROGRAM_PAYLOAD_SIZE <? length then None
  else
    '(payload, bytes) ← dec_raw (Z.to_nat length) bytes;
    Some ({| pc_program := program; pc_opcode := opcode; pc_payload := payload |}, bytes).

#[global] Instance program_call_borsh : Borsh ProgramCall :=
  {| enc := enc_program_call; dec := dec_program_call |}.

(** The length is looked at first, so an oversized payload has its own error. *)
Definition decode_program_call (bytes : list Z) : result ProgramError ProgramCall :=
  '(_, reader) ← ok_or (dec_uint 4 bytes) InvalidPayload;
  '(_, reader) ← ok_or (dec_uint 1 reader) InvalidPayload;
  '(length, _) ← ok_or (dec_uint 4 reader) InvalidPayload;
  fail_if MAX_PROGRAM_PAYLOAD_SIZE <? length with PayloadTooLarge;
  ok_or (try_from_slice bytes) InvalidPayload.

(** ** The monetary route *)

Definition COIN_TRANSFER : Z := 1.

Definition coin_decode (opcode : Z) (payload : list Z) : result ProgramError unit :=
  fail_if negb (opcode =? COIN_TRANSFER) with UnknownOpcode;
  fail_if negb (bool_decide (payload = [])) && negb (bool_decide (payload = [0]))
    with InvalidPayload;
  Ok tt.

Inductive MonetaryOpcode := MTransfer | MCreateAsset | MMint | MBurn.

Definition monetary_u8 (o : MonetaryOpcode) : Z :=
  match o with MTransfer => 1 | MCreateAsset => 2 | MMint => 3 | MBurn => 4 end.

Inductive Currency := CurrencyCoin | CurrencyAsset.

Definition currency_u8 (c : Currency) : Z :=
  match c with CurrencyCoin => 0 | CurrencyAsset => 1 end.

Inductive MonetaryCall := TransferCoin | MonetaryAsset (call : AssetCall).

(** The [1 | 4] arm: transfers and burns select a currency. *)
Definition monetary_selected (opcode : Z) (payload : list Z) : result ProgramError MonetaryCall :=
  '(currency, data) ←
    (if (opcode =? 1) && bool_decide (payload = []) then Ok (currency_u8 CurrencyCoin, [])
     else match payload with
          | [] => Err InvalidPayload
          | currency :: data => Ok (currency, data)
          end);
  if currency =? 0 then
    if opcode =? 1 then
      fail_if negb (bool_decide (data = [])) with InvalidPayload;
      _ ← coin_decode COIN_TRANSFER data;
      Ok TransferCoin
    else Err ExecutionNotImplemented
  else if currency =? 1 then
    call ← decode (opcode_u8 (if opcode =? 1 then OpTransfer else OpBurn)) data;
    Ok (MonetaryAsset call)
  else Err InvalidPayload.

Definition monetary_decode (opcode : Z) (payload : list Z) : result ProgramError MonetaryCall :=
  if (opcode =? 1) || (opcode =? 4) then monetary_selected opcode payload
  else
    asset_opcode ← (if opcode =? 2 then Ok OpRegister
                    else if opcode =? 3 then Ok OpMint else Err UnknownOpcode);
    call ← decode (opcode_u8 asset_opcode) payload;
    Ok (MonetaryAsset call).

Definition transfer_coin : ProgramCall :=
  {| pc_program := MONETARY; pc_opcode := monetary_u8 MTransfer;
     pc_payload := [currency_u8 CurrencyCoin] |}.

(** [asset_call(opcode, &value)] at a call's own opcode and value. *)
Definition asset_call (call : AssetCall) : result ProgramError ProgramCall :=
  let '(opcode, currency) :=
    match call_opcode call with
    | OpRegister => (MCreateAsset, None)
    | OpMint => (MMint, None)
    | OpTransfer => (MTransfer, Some CurrencyAsset)
    | OpBurn => (MBurn, Some CurrencyAsset)
    end in
  let payload := match currency with Some c => [currency_u8 c] | None => [] end ++ enc_call call in
  let c := {| pc_program := MONETARY; pc_opcode := monetary_u8 opcode; pc_payload := payload |} in
  _ ← monetary_decode (pc_opcode c) (pc_payload c);
  Ok c.

(** ** The application route *)

(** Opcode 0 carries the program identifier alone, opcode 1 adds call data. *)
Definition call_input (call : ProgramCall) : result CodeError (ProgramId * list Z) :=
  let size := Z.of_nat (length (pc_payload call)) in
  fail_if negb (pc_program call =? VM)
          || negb ((pc_opcode call =? 0) || (pc_opcode call =? 1))
          || (size <? 32) || (32 + MAX_DATA_BYTES <? size)
          || ((pc_opcode call =? 0) && negb (size =? 32))
    with InvalidInstruction;
  Ok (take 32 (pc_payload call), drop 32 (pc_payload call)).

Inductive DecodedProgramCall := XpqTransfer | AssetProgramCall (call : AssetCall) | VmCall (id : Hash).

Definition decode_program (call : ProgramCall) : result ProgramError DecodedProgramCall :=
  if pc_program call =? MONETARY then
    m ← monetary_decode (pc_opcode call) (pc_payload call);
    Ok match m with TransferCoin => XpqTransfer | MonetaryAsset c => AssetProgramCall c end
  else if pc_program call =? ASSET then
    c ← decode (pc_opcode call) (pc_payload call); Ok (AssetProgramCall c)
  else if pc_program call =? VM then
    '(id, _) ← map_err (fun _ => InvalidPayload) (call_input call); Ok (VmCall id)
  else Err Monetary.UnknownProgram.

(** ** Round trips *)

Definition program_call_wf (c : ProgramCall) : Prop :=
  fits 32 (pc_program c) /\ fits 8 (pc_opcode c) /\
  Z.of_nat (length (pc_payload c)) <= MAX_PROGRAM_PAYLOAD_SIZE.

Lemma dec_program_call_enc c rest :
  program_call_wf c -> dec_program_call (enc_program_call c ++ rest) = Some (c, rest).
Proof.
  intros (Hp & Ho & Hl). unfold fits, MAX_PROGRAM_PAYLOAD_SIZE in *.
  unfold dec_program_call, enc_program_call, enc_string. rewrite <- !app_assoc.
  rewrite dec_uint_enc by (cbn; lia). cbn [mbind option_bind].
  rewrite dec_uint_enc by (cbn; lia). cbn [mbind option_bind].
  rewrite dec_uint_enc by (cbn; lia). cbn [mbind option_bind].
  unfold MAX_PROGRAM_PAYLOAD_SIZE. rewrite (proj2 (Z.ltb_ge _ _)) by lia.
  rewrite dec_raw_enc by (by rewrite Nat2Z.id). by destruct c.
Qed.

#[global] Instance program_call_law : BorshLaw ProgramCall :=
  {| bwf := program_call_wf; dec_enc := dec_program_call_enc |}.

#[global] Instance program_call_canonical : BorshCanonical ProgramCall.
Proof.
  intros bytes c rest Hb Hd. cbn [dec program_call_borsh] in Hd. unfold dec_program_call in Hd.
  do 3 dec_inv Hd. case_match eqn:Hm; [done|]. dec_inv Hd. apply Z.ltb_ge in Hm.
  injection Hd as <- <-. split_and!; [|cbn in *; unfold fits, program_call_wf; cbn..|done].
  - cbn [enc program_call_borsh]. unfold enc_program_call, enc_string.
    cbn [pc_program pc_opcode pc_payload]. rewrite <- !app_assoc.
    by match goal with Hl : length ?p = Z.to_nat ?n |- _ =>
      replace (Z.of_nat (length p)) with n by lia end.
  - split_and!; unfold fits; cbn; lia.
Qed.

(** Reading the three fields ahead changes nothing but the error of an
    oversized payload. *)
Lemma decode_program_call_Ok bytes c :
  decode_program_call bytes = Ok c <-> try_from_slice bytes = Some c.
Proof.
  unfold decode_program_call. split.
  - intros Hd. inv_pairs. done.
  - intros Hs. pose proof Hs as Ht. unfold try_from_slice in Ht. cbn [dec program_call_borsh] in Ht.
    unfold dec_program_call in Ht.
    destruct (dec_uint 4 bytes) as [[p b1]|]; cbn [mbind option_bind] in Ht; [|done];
      cbn [ok_or mbind result_mbind].
    destruct (dec_uint 1 b1) as [[o b2]|]; cbn [mbind option_bind] in Ht; [|done];
      cbn [ok_or mbind result_mbind].
    destruct (dec_uint 4 b2) as [[n b3]|]; cbn [mbind option_bind] in Ht; [|done];
      cbn [ok_or mbind result_mbind].
    unfold guard_err.
    destruct (MAX_PROGRAM_PAYLOAD_SIZE <? n); [discriminate Ht|]. by rewrite Hs.
Qed.

(** The program-call envelope has one wire form: a byte string decodes to
    a call exactly when the call's fields are in range, its payload is within
    the limit and the bytes are its canonical encoding; and a length field
    above the limit is refused as too large whatever follows. *)
Theorem program_call_wire bytes :
  bytes_wf bytes ->
  (forall c, decode_program_call bytes = Ok c <-> program_call_wf c /\ bytes = enc_program_call c) /\
  (decode_program_call bytes = Err PayloadTooLarge <->
   exists program opcode size rest,
     bytes = le_bytes 4 program ++ le_bytes 1 opcode ++ le_bytes 4 size ++ rest /\
     fits 32 program /\ fits 8 opcode /\ MAX_PROGRAM_PAYLOAD_SIZE < size < 2 ^ 32).
Proof.
  intros Hb. split.
  - intros c. rewrite decode_program_call_Ok.
    exact (try_from_slice_Some (A := ProgramCall) bytes c Hb).
  - unfold decode_program_call. split.
    + destruct (dec_uint 4 bytes) as [[p b1]|] eqn:H1; cbn [ok_or mbind result_mbind]; [|done].
      apply dec_uint_canonical in H1 as (-> & Hp & Hb1); [|done].
      destruct (dec_uint 1 b1) as [[o b2]|] eqn:H2; cbn [ok_or mbind result_mbind]; [|done].
      apply dec_uint_canonical in H2 as (-> & Ho & Hb2); [|done].
      destruct (dec_uint 4 b2) as [[n b3]|] eqn:H3; cbn [ok_or mbind result_mbind]; [|done].
      apply dec_uint_canonical in H3 as (-> & Hn & Hb3); [|done].
      unfold guard_err. destruct (Z.ltb_spec MAX_PROGRAM_PAYLOAD_SIZE n).
      * intros _. exists p, o, n, b3. split; [done|]. unfold fits. cbn in *. lia.
      * by destruct (try_from_slice _).
    + intros (p & o & n & rest & -> & Hp & Ho & Hn). unfold fits in *.
      do 3 (rewrite dec_uint_enc by (cbn; unfold MAX_PROGRAM_PAYLOAD_SIZE in *; lia);
        cbn [ok_or mbind result_mbind]).
      unfold guard_err. by rewrite (proj2 (Z.ltb_lt _ _)) by lia.
Qed.

(** ** Routing *)

Lemma monetary_decode_asset call :
  call_wf call -> validate call = Ok call ->
  monetary_decode
    (monetary_u8 match call_opcode call with OpRegister => MCreateAsset | OpMint => MMint
                 | OpTransfer => MTransfer | OpBurn => MBurn end)
    (match call_opcode call with OpTransfer | OpBurn => [1] | _ => [] end ++ enc_call call)
  = Ok (MonetaryAsset call).
Proof.
  intros Hwf Hv. apply decode_enc_call in Hv; [|done].
  destruct call as [c|c|c|c]; cbn [call_opcode monetary_u8] in *;
    unfold monetary_decode, monetary_selected;
    cbn [Z.eqb Pos.eqb orb andb app mbind result_mbind];
    rewrite ?bool_decide_eq_false_2 by done; cbn [andb mbind result_mbind Z.eqb Pos.eqb];
    by rewrite Hv.
Qed.

(** The unified monetary route is faithful: for every well-typed call that
    validates, the call builder succeeds, and the router decodes the built
    envelope to that same call, as it does the call sent to the asset program
    directly; the coin transfer decodes to itself. *)
Theorem monetary_route_exact call :
  call_wf call -> validate call = Ok call ->
  (exists c, asset_call call = Ok c /\ pc_program c = MONETARY /\
     decode_program c = Ok (AssetProgramCall call)) /\
  decode_program {| pc_program := ASSET; pc_opcode := opcode_u8 (call_opcode call);
                    pc_payload := enc_call call |} = Ok (AssetProgramCall call) /\
  decode_program transfer_coin = Ok XpqTransfer.
Proof.
  intros Hwf Hv. pose proof (monetary_decode_asset call Hwf Hv) as Hm.
  apply decode_enc_call in Hv; [|done]. split_and!.
  - unfold asset_call. destruct call as [c|c|c|c]; cbn [call_opcode monetary_u8 currency_u8] in *;
      cbn [pc_opcode pc_payload]; rewrite Hm; cbn [mbind result_mbind]; eexists;
      (split; [reflexivity|]); split; try reflexivity; unfold decode_program;
      cbn [pc_program pc_opcode pc_payload]; rewrite Z.eqb_refl, Hm; reflexivity.
  - unfold decode_program. cbn [pc_program pc_opcode pc_payload].
    change (ASSET =? MONETARY) with false. change (ASSET =? ASSET) with true. by rewrite Hv.
  - reflexivity.
Qed.

Lemma program_call_wire_witness :
  (decode_program_call (enc_program_call transfer_coin) = Ok transfer_coin <->
   program_call_wf transfer_coin /\ enc_program_call transfer_coin = enc_program_call transfer_coin).
Proof.
  apply (proj1 (program_call_wire (enc_program_call transfer_coin)
    (digits_compute 256 (enc_program_call transfer_coin) eq_refl)) transfer_coin).
Defined.

Lemma monetary_route_exact_witness :
  let call := CallMint {| mt_asset := replicate HASH_SIZE 3; mt_nonce := 1;
                          mt_recipient := Program (replicate HASH_SIZE 2); mt_amount := 9 |} in
  exists c, asset_call call = Ok c /\ pc_program c = MONETARY /\
    decode_program c = Ok (AssetProgramCall call).
Proof.
  apply monetary_route_exact; [|reflexivity].
  split_and!; try done; try (by apply hash_wf_compute).
Defined.
