(* ===== verification/Wire.v ===== *)
(** * Wire formats with their laws

    Borsh readers and writers composed the way [derive(BorshSerialize,
    BorshDeserialize)] and the kernel's hand-written readers compose them: a
    struct is its fields in order, an enum a tag byte and its payload, a vector
    a bounded [u32] count and its items.  A [Wire] carries its two laws, so a
    format built from these parts is proved by construction: decoding inverts
    encoding, and whatever decodes is the canonical encoding of the result. *)

From S2P Require Import Prelude Codec.
#[local] Open Scope Z_scope.
#[local] Unset Program Cases.

Record Wire (A : Type) := {
  w_enc : A -> list Z;
  w_dec : list Z -> option (A * list Z);
  w_wf : A -> Prop;
  w_dec_enc : forall a rest, w_wf a -> w_dec (w_enc a ++ rest) = Some (a, rest);
  w_canonical : forall bytes a rest, bytes_wf bytes -> w_dec bytes = Some (a, rest) ->
    bytes = w_enc a ++ rest /\ w_wf a /\ bytes_wf rest;
}.
Arguments w_enc {A} w a.
Arguments w_dec {A} w bytes.
Arguments w_wf {A} w a.
Arguments w_dec_enc {A} w a rest.
Arguments w_canonical {A} w bytes a rest.

(** [try_from_slice]. *)
Definition w_slice {A} (w : Wire A) (bytes : list Z) : option A :=
  '(a, rest) ← w_dec w bytes;
  if decide (rest = []) then Some a else None.

Lemma w_slice_Some {A} (w : Wire A) bytes a :
  bytes_wf bytes -> w_slice w bytes = Some a <-> w_wf w a /\ bytes = w_enc w a.
Proof.
  intros Hb. unfold w_slice. split.
  - destruct (w_dec w bytes) as [[x rest]|] eqn:Hd; cbn [mbind option_bind]; [|done].
    case_decide as Hr; [|done]. intros [= <-]. apply w_canonical in Hd as (-> & Hw & _); [|done].
    by rewrite Hr, app_nil_r.
  - intros [Hw ->]. rewrite <- (app_nil_r (w_enc w a)), w_dec_enc by done. done.
Qed.

(** Encodings are prefix free. *)
Lemma w_prefix_inj {A} (w : Wire A) a b x y :
  w_wf w a -> w_wf w b -> w_enc w a ++ x = w_enc w b ++ y -> a = b /\ x = y.
Proof.
  intros Ha Hb Heq. pose proof (w_dec_enc w a x Ha) as H1. rewrite Heq, (w_dec_enc w b y Hb) in H1.
  by simplify_eq.
Qed.

Lemma w_inj {A} (w : Wire A) a b : w_wf w a -> w_wf w b -> w_enc w a = w_enc w b -> a = b.
Proof.
  intros Ha Hb Heq. apply (w_prefix_inj w a b [] []); [done|done|]. by rewrite !app_nil_r.
Qed.

(** ** Parts *)

(** A little-endian integer of [n] bytes. *)
Program Definition wire_uint (n : nat) : Wire Z :=
  {| w_enc := le_bytes n; w_dec := dec_uint n; w_wf := fun x => 0 <= x < 256 ^ Z.of_nat n |}.
Next Obligation. intros. by apply dec_uint_enc. Qed.
Next Obligation. intros n bytes a rest Hb Hd. by apply dec_uint_canonical in Hd as (-> & ? & ?). Qed.

(** A fixed array of [n] bytes. *)
Program Definition wire_raw (n : nat) : Wire (list Z) :=
  {| w_enc := fun h => h; w_dec := dec_raw n; w_wf := fun h => length h = n /\ bytes_wf h |}.
Next Obligation. intros n h rest [Hl _]. by apply dec_raw_enc. Qed.
Next Obligation. intros n bytes a rest Hb Hd. by apply dec_raw_canonical in Hd as (-> & ? & ? & ?). Qed.

(** A field, then one whose format depends on it. *)
Program Definition wire_dep {A B} (wa : Wire A) (wb : A -> Wire B) : Wire (A * B) :=
  {| w_enc := fun p => w_enc wa p.1 ++ w_enc (wb p.1) p.2;
     w_dec := fun bytes =>
       '(a, bytes) ← w_dec wa bytes; '(b, bytes) ← w_dec (wb a) bytes; Some ((a, b), bytes);
     w_wf := fun p => w_wf wa p.1 /\ w_wf (wb p.1) p.2 |}.
Next Obligation.
  intros A B wa wb [a b] rest [Ha Hb]. cbn [fst snd] in *.
  rewrite <- app_assoc, w_dec_enc by done. cbn [mbind option_bind]. by rewrite w_dec_enc.
Qed.
Next Obligation.
  intros A B wa wb bytes p rest Hw. cbn beta.
  destruct (w_dec wa bytes) as [[a b1]|] eqn:Ha; cbn [mbind option_bind]; [|done].
  destruct (w_dec (wb a) b1) as [[b b2]|] eqn:Hb; cbn [mbind option_bind]; [|done].
  intros [= <- <-]. apply w_canonical in Ha as (-> & Hwa & Hb1); [|done].
  apply w_canonical in Hb as (-> & Hwb & Hb2); [|done]. cbn [fst snd]. by rewrite app_assoc.
Qed.

Definition wire_pair {A B} (wa : Wire A) (wb : Wire B) : Wire (A * B) := wire_dep wa (fun _ => wb).

(** A value read through a partial conversion: an enum from its tag, a struct
    from its fields, or a checked value. *)
Program Definition wire_convert {A B} (w : Wire A) (from : A -> option B) (to : B -> A)
    (Hto : forall b, from (to b) = Some b \/ ~ w_wf w (to b))
    (Hfrom : forall a b, from a = Some b -> to b = a) : Wire B :=
  {| w_enc := fun b => w_enc w (to b);
     w_dec := fun bytes => '(a, rest) ← w_dec w bytes; b ← from a; Some (b, rest);
     w_wf := fun b => w_wf w (to b) |}.
Next Obligation.
  intros A B w from to Hto Hfrom b rest Hb. cbn beta in *. rewrite w_dec_enc by done. cbn [mbind option_bind].
  destruct (Hto b) as [->|]; done.
Qed.
Next Obligation.
  intros A B w from to Hto Hfrom bytes b rest Hw. cbn beta.
  destruct (w_dec w bytes) as [[a r]|] eqn:Ha; cbn [mbind option_bind]; [|done].
  destruct (from a) as [b'|] eqn:Hf; cbn [mbind option_bind]; [|done]. intros [= <- <-].
  rewrite (Hfrom _ _ Hf). by apply w_canonical.
Qed.

(** A struct over the tuple of its fields. *)
Definition wire_struct {A B} (w : Wire A) (from : A -> B) (to : B -> A)
    (Hto : forall b, from (to b) = b) (Hfrom : forall a, to (from a) = a) : Wire B :=
  wire_convert w (fun a => Some (from a)) to
    (fun b => or_introl (f_equal Some (Hto b)))
    (fun a b Heq => eq_trans (f_equal to (eq_sym (Some_inj _ _ Heq))) (Hfrom a)).

(** A field that must satisfy a test. *)
Program Definition wire_guard {A} (w : Wire A) (test : A -> bool) : Wire A :=
  {| w_enc := w_enc w;
     w_dec := fun bytes => '(a, rest) ← w_dec w bytes; if test a then Some (a, rest) else None;
     w_wf := fun a => w_wf w a /\ test a = true |}.
Next Obligation.
  intros A w test a rest [Ha Ht]. rewrite w_dec_enc by done. cbn [mbind option_bind]. by rewrite Ht.
Qed.
Next Obligation.
  intros A w test bytes a rest Hw. cbn beta.
  destruct (w_dec w bytes) as [[b r]|] eqn:Hb; cbn [mbind option_bind]; [|done].
  destruct (test b) eqn:Ht; [|done]. intros [= <- <-].
  apply w_canonical in Hb as (-> & ? & ?); done.
Qed.

(** A vector with a bound on its count, [deserialize_bounded_vec]. *)
Program Definition wire_vec {A} (max : Z) (Hmax : max < 2 ^ 32) (w : Wire A) : Wire (list A) :=
  {| w_enc := enc_vec (w_enc w); w_dec := deserialize_bounded_vec (w_dec w) max;
     w_wf := fun l => Z.of_nat (length l) <= max /\ Forall (w_wf w) l |}.
Next Obligation.
  intros A max Hmax w l rest [Hl Hw]. eapply bounded_vec_enc; [apply w_dec_enc|done|done].
Qed.
Next Obligation.
  intros A max Hmax w bytes l rest Hw Hd.
  apply (bounded_vec_canonical _ _ (w_wf w) (w_canonical w)) in Hd as (? & ? & ? & ?); done.
Qed.

Definition sized (p : Z * list Z) : option (list Z) :=
  if decide (Z.of_nat (length p.2) = p.1) then Some p.2 else None.

Definition with_size (l : list Z) : Z * list Z := (Z.of_nat (length l), l).

Lemma sized_with_size l : sized (with_size l) = Some l.
Proof. unfold sized, with_size. by rewrite decide_True. Qed.

Lemma with_size_sized p l : sized p = Some l -> with_size l = p.
Proof. unfold sized, with_size. destruct p as [n k]. cbn. case_decide; [|done]. by intros [= ->]; subst. Qed.

(** Bytes with a bounded length, read at once. *)
Definition wire_bytes (max : Z) : Wire (list Z) :=
  wire_convert
    (wire_dep (wire_guard (wire_uint 4) (fun n => n <=? max)) (fun n => wire_raw (Z.to_nat n)))
    sized with_size (fun l => or_introl (sized_with_size l)) with_size_sized.

(** An enum of two variants: its tag byte, then the variant's payload. *)
Program Definition wire_either {A B} (w0 : Wire A) (w1 : Wire B) : Wire (A + B) :=
  {| w_enc := fun x => match x with inl a => 0 :: w_enc w0 a | inr b => 1 :: w_enc w1 b end;
     w_dec := fun bytes =>
       '(tag, bytes) ← dec_uint 1 bytes;
       if tag =? 0 then '(a, rest) ← w_dec w0 bytes; Some (inl a, rest)
       else if tag =? 1 then '(b, rest) ← w_dec w1 bytes; Some (inr b, rest)
       else None;
     w_wf := fun x => match x with inl a => w_wf w0 a | inr b => w_wf w1 b end |}.
Next Obligation.
  intros A B w0 w1 [a|b] rest Hw; cbn beta iota in *.
  - change ((0 :: w_enc w0 a) ++ rest) with (le_bytes 1 0 ++ (w_enc w0 a ++ rest)).
    rewrite dec_uint_enc by (cbn; lia). cbn [mbind option_bind Z.eqb]. by rewrite w_dec_enc.
  - change ((1 :: w_enc w1 b) ++ rest) with (le_bytes 1 1 ++ (w_enc w1 b ++ rest)).
    rewrite dec_uint_enc by (cbn; lia). cbn [mbind option_bind Z.eqb Pos.eqb]. by rewrite w_dec_enc.
Qed.
Next Obligation.
  intros A B w0 w1 bytes x rest Hb Hd. cbn beta in *. dec_inv Hd.
  destruct (Z.eqb_spec z 0) as [->|]; [|destruct (Z.eqb_spec z 1) as [->|]; [|done]].
  - destruct (w_dec w0 l) as [[a r]|] eqn:Ha; cbn [mbind option_bind] in Hd; [|done].
    injection Hd as <- <-. by apply w_canonical in Ha as (-> & ? & ?).
  - destruct (w_dec w1 l) as [[a r]|] eqn:Ha; cbn [mbind option_bind] in Hd; [|done].
    injection Hd as <- <-. by apply w_canonical in Ha as (-> & ? & ?).
Qed.

Program Definition wire_unit : Wire unit :=
  {| w_enc := fun _ => []; w_dec := fun bytes => Some (tt, bytes); w_wf := fun _ => True |}.
Next Obligation. by intros []. Qed.
Next Obligation. by intros bytes [] rest Hb [= ->]. Qed.

(** [Option]: a tag byte, then the value. *)
Program Definition wire_option {A} (w : Wire A) : Wire (option A) :=
  wire_struct (wire_either wire_unit w)
    (fun x => match x with inl _ => None | inr a => Some a end)
    (fun x => match x with None => inl tt | Some a => inr a end) _ _.
Next Obligation. by intros A w []. Qed.
Next Obligation. by intros A w [[]|]. Qed.

(** A value read through a reader that stops after [limit] bytes. *)
Program Definition wire_limited {A} (limit : nat) (w : Wire A) : Wire A :=
  {| w_enc := w_enc w;
     w_dec := fun bytes =>
       '(a, rest) ← w_dec w (take limit bytes); Some (a, rest ++ drop limit bytes);
     w_wf := fun a => w_wf w a /\ (length (w_enc w a) <= limit)%nat |}.
Next Obligation.
  intros A limit w a rest [Ha Hl]. cbn beta.
  rewrite take_app_ge, drop_app_ge by done. rewrite w_dec_enc by done. cbn [mbind option_bind].
  by rewrite take_drop.
Qed.
Next Obligation.
  intros A limit w bytes a rest Hb. cbn beta.
  destruct (w_dec w (take limit bytes)) as [[b r]|] eqn:Hd; cbn [mbind option_bind]; [|done].
  intros [= <- <-]. rewrite <- (take_drop limit bytes) in Hb. apply bytes_wf_app in Hb as [Ht Hdr].
  apply w_canonical in Hd as (Heq & Hw & Hr); [|done]. split_and!; [|done| |by apply bytes_wf_app].
  - by rewrite app_assoc, <- Heq, take_drop.
  - apply (f_equal length) in Heq. rewrite length_take, length_app in Heq. lia.
Qed.

(** Splitting a struct format into the facts of its fields. *)
Lemma w_wf_pair {A B} (wa : Wire A) (wb : Wire B) p :
  w_wf (wire_pair wa wb) p <-> w_wf wa p.1 /\ w_wf wb p.2.
Proof. done. Qed.
