(* ===== verification/Authorize.v ===== *)
(** * Signatures, authorization and block operations

    Models [crypto/src/signature.rs] (schemes, key and signature wire formats,
    verification dispatch), the identity derivation of
    [crypto/src/program_id.rs], [kernel/src/program/authorization.rs],
    [program/system/signature_policy.rs], the wire format and commitment of
    [program/coin_transition.rs] and [kernel/src/operation.rs].

    The ML-DSA and SLH-DSA algorithms are third-party: they are the class
    [SignatureBackend].  A key or signature of the wrong length has no
    encoding, so operations that carry one have no identifier. *)

From S2P Require Import Prelude Codec Monetary Vm Registry Calls Wire.
From stdpp Require Import strings.
#[local] Open Scope Z_scope.

(** ** Signature schemes *)

Inductive AccountSignatureScheme :=
| MlDsa44 | MlDsa65 | MlDsa87 | SlhDsaShake128s | SlhDsaShake192s | SlhDsaShake256s.

#[global] Instance scheme_eq_dec : EqDecision AccountSignatureScheme.
Proof. solve_decision. Defined.

(** The registry of all signature schemes, of which six serve accounts. *)
Inductive SignatureScheme := AccountScheme (s : AccountSignatureScheme) | SqisignLevel5.

Definition registry_scheme (s : AccountSignatureScheme) : SignatureScheme := AccountScheme s.

Definition account_signature_scheme_supported (s : SignatureScheme) : bool :=
  match s with AccountScheme _ => true | SqisignLevel5 => false end.

Definition is_slh_dsa (s : AccountSignatureScheme) : bool :=
  match s with
  | SlhDsaShake128s | SlhDsaShake192s | SlhDsaShake256s => true
  | _ => false
  end.

Definition scheme_id (s : AccountSignatureScheme) : Z :=
  match s with
  | MlDsa44 => 1 | MlDsa65 => 2 | MlDsa87 => 3
  | SlhDsaShake128s => 5 | SlhDsaShake192s => 6 | SlhDsaShake256s => 7
  end.

Definition scheme_try_from (value : Z) : option AccountSignatureScheme :=
  if value =? 1 then Some MlDsa44 else if value =? 2 then Some MlDsa65
  else if value =? 5 then Some SlhDsaShake128s else if value =? 6 then Some SlhDsaShake192s
  else if value =? 7 then Some SlhDsaShake256s else if value =? 3 then Some MlDsa87
  else None.

Definition scheme_supported (s : AccountSignatureScheme) : bool :=
  account_signature_scheme_supported (registry_scheme s).

Definition public_key_size (s : AccountSignatureScheme) : Z :=
  match s with
  | MlDsa44 => 1312 | MlDsa65 => 1952 | MlDsa87 => 2592
  | SlhDsaShake128s => 32 | SlhDsaShake192s => 48 | SlhDsaShake256s => 64
  end.

Definition signature_size (s : AccountSignatureScheme) : Z :=
  match s with
  | MlDsa44 => 2420 | MlDsa65 => 3309 | MlDsa87 => 4627
  | SlhDsaShake128s => 7856 | SlhDsaShake192s => 16224 | SlhDsaShake256s => 29792
  end.

Record PublicKey := { pk_account : AccountSignatureScheme; pk_bytes : list Z }.
Record AccountSignature := { sg_account : AccountSignatureScheme; sg_bytes : list Z }.

#[global] Instance PublicKey_eq_dec : EqDecision PublicKey.
Proof. solve_decision. Defined.
#[global] Instance AccountSignature_eq_dec : EqDecision AccountSignature.
Proof. solve_decision. Defined.

Definition key_valid_encoding (k : PublicKey) : bool :=
  Z.of_nat (length (pk_bytes k)) =? public_key_size (pk_account k).

Definition signature_valid_encoding (s : AccountSignature) : bool :=
  Z.of_nat (length (sg_bytes s)) =? signature_size (sg_account s).

(** The verifiers of the two families, on key, message and signature bytes. *)
Class SignatureBackend := {
  ml_dsa_verify : AccountSignatureScheme -> list Z -> list Z -> list Z -> bool;
  slh_dsa_verify : AccountSignatureScheme -> list Z -> list Z -> list Z -> bool;
}.

Section verify.
Context `{SignatureBackend}.

Definition mldsa_verify (k : PublicKey) (message : list Z) (s : AccountSignature) : bool :=
  if negb (bool_decide (pk_account k = sg_account s)) then false
  else if negb (key_valid_encoding k) || negb (signature_valid_encoding s) then false
  else match pk_account k with
       | MlDsa44 | MlDsa65 | MlDsa87 => ml_dsa_verify (pk_account k) (pk_bytes k) message (sg_bytes s)
       | _ => false
       end.

Definition slhdsa_verify (k : PublicKey) (message : list Z) (s : AccountSignature) : bool :=
  match pk_account k with
  | SlhDsaShake128s | SlhDsaShake192s | SlhDsaShake256s =>
      slh_dsa_verify (pk_account k) (pk_bytes k) message (sg_bytes s)
  | _ => false
  end.

Definition verify (k : PublicKey) (message : list Z) (s : AccountSignature) : bool :=
  if negb (bool_decide (pk_account k = sg_account s)) || negb (key_valid_encoding k)
     || negb (signature_valid_encoding s)
  then false
  else if is_slh_dsa (pk_account k) then slhdsa_verify k message s
  else mldsa_verify k message s.
End verify.

(** ** Identities *)

Section identity.
Context `{Sha3}.

(** A 16-byte salt is padded to 32. *)
Definition signature_account (scheme : AccountSignatureScheme) (public_key salt : list Z)
    : option ProgramId :=
  if negb (Z.of_nat (length public_key) =? public_key_size scheme) then None
  else if negb ((length salt =? 16)%nat || (length salt =? 32)%nat) then None
  else Some (domain ProgramAccount
    (ascii_bytes "xparq:signature-policy:v2"%string ++ [scheme_id scheme] ++ public_key
     ++ salt ++ replicate (32 - length salt) 0)).

Definition program_id_of_key (k : PublicKey) (salt : list Z) : option ProgramId :=
  signature_account (pk_account k) (pk_bytes k) salt.
End identity.

(** ** Wire formats *)

Lemma scheme_from_to s : scheme_try_from (scheme_id s) = Some s \/ ~ w_wf (wire_uint 1) (scheme_id s).
Proof. left. by destruct s. Qed.

Lemma scheme_to_from v s : scheme_try_from v = Some s -> scheme_id s = v.
Proof.
  unfold scheme_try_from.
  repeat (match goal with |- context [v =? ?k] => destruct (Z.eqb_spec v k) as [->|_] end;
    [by intros [= <-]|]). done.
Qed.

Definition wire_scheme : Wire AccountSignatureScheme :=
  wire_convert (wire_uint 1) scheme_try_from scheme_id scheme_from_to scheme_to_from.

(** The length field must be the scheme's. *)
Definition wire_exact (n : Z) : Wire (list Z) :=
  wire_convert
    (wire_dep (wire_guard (wire_uint 4) (fun len => len =? n)) (fun len => wire_raw (Z.to_nat len)))
    sized with_size (fun l => or_introl (sized_with_size l)) with_size_sized.

Program Definition wire_public_key : Wire PublicKey :=
  wire_struct (wire_dep wire_scheme (fun s => wire_exact (public_key_size s)))
    (fun p => {| pk_account := p.1; pk_bytes := p.2 |}) (fun k => (pk_account k, pk_bytes k)) _ _.
Next Obligation. by intros []. Qed.
Next Obligation. by intros []. Qed.

Program Definition wire_signature : Wire AccountSignature :=
  wire_struct (wire_dep wire_scheme (fun s => wire_exact (signature_size s)))
    (fun p => {| sg_account := p.1; sg_bytes := p.2 |}) (fun k => (sg_account k, sg_bytes k)) _ _.
Next Obligation. by intros []. Qed.
Next Obligation. by intros []. Qed.

Definition wire_hash : Wire Hash := wire_raw HASH_SIZE.

Lemma owner_tag_from_to o :
  (fun p : Z * Hash => if p.1 =? 0 then Some (Program p.2) else None) (0, owner_program o) = Some o
  \/ ~ w_wf (wire_pair (wire_uint 1) wire_hash) (0, owner_program o).
Proof. left. by destruct o. Qed.

Lemma owner_tag_to_from (p : Z * Hash) o :
  (if p.1 =? 0 then Some (Program p.2) else None) = Some o -> (0, owner_program o) = p.
Proof. destruct p as [t h]. cbn. case_match eqn:Ht; [|done]. apply Z.eqb_eq in Ht as ->. by intros [= <-]. Qed.

Definition wire_owner : Wire Owner :=
  wire_convert (wire_pair (wire_uint 1) wire_hash)
    (fun p => if p.1 =? 0 then Some (Program p.2) else None) (fun o => (0, owner_program o))
    owner_tag_from_to owner_tag_to_from.

Program Definition wire_coin_output : Wire CoinOutput :=
  wire_struct (wire_pair wire_owner (wire_uint 8))
    (fun p => {| co_output := p.1; co_amount := p.2 |}) (fun o => (co_output o, co_amount o)) _ _.
Next Obligation. by intros []. Qed.
Next Obligation. by intros []. Qed.

Lemma items_fit : MAX_PROGRAM_ITEMS < 2 ^ 32.
Proof. done. Qed.

Program Definition wire_transition : Wire CoinTransition :=
  wire_struct
    (wire_pair wire_hash (wire_pair (wire_vec MAX_PROGRAM_ITEMS items_fit wire_hash)
      (wire_pair (wire_vec MAX_PROGRAM_ITEMS items_fit wire_coin_output) (wire_uint 8))))
    (fun p => {| signer := p.1; ct_inputs := p.2.1; ct_outputs := p.2.2.1;
                 charges := {| miner_fee := p.2.2.2 |} |})
    (fun t => (signer t, (ct_inputs t, (ct_outputs t, miner_fee (charges t))))) _ _.
Next Obligation. by intros [? ? ? []]. Qed.
Next Obligation. by intros [? [? [? ?]]]. Qed.

Definition wire_program_call : Wire ProgramCall :=
  {| w_enc := enc_program_call; w_dec := dec_program_call; w_wf := program_call_wf;
     w_dec_enc := dec_program_call_enc; w_canonical := program_call_canonical |}.

Program Definition wire_deploy : Wire DeployProgram :=
  wire_struct (wire_pair wire_hash (wire_pair (wire_uint 8) (wire_bytes MAX_PROGRAM_CODE_SIZE)))
    (fun p => {| dp_owner := p.1; dp_nonce := p.2.1; dp_code := p.2.2 |})
    (fun d => (dp_owner d, (dp_nonce d, dp_code d))) _ _.
Next Obligation. by intros []. Qed.
Next Obligation. by intros [? []]. Qed.

(** ** Authorizations *)

Record AccountAuthorization := {
  au_salt : list Z;
  au_public_key : PublicKey;
  au_signature : AccountSignature;
}.

Record AuthorizedProgramInvocation := {
  ai_signer : ProgramId;
  ai_call : ProgramCall;
  ai_payment : CoinTransition;
  ai_authorization : AccountAuthorization;
}.

Record AuthorizedDeployProgram := {
  ad_deploy : DeployProgram;
  ad_payment : CoinTransition;
  ad_authorization : AccountAuthorization;
}.

Inductive BlockOperation :=
| OpDeployProgram (operation : AuthorizedDeployProgram)
| OpProgramCall (operation : AuthorizedProgramInvocation).

Program Definition wire_authorization : Wire AccountAuthorization :=
  wire_struct (wire_pair (wire_raw 32) (wire_pair wire_public_key wire_signature))
    (fun p => {| au_salt := p.1; au_public_key := p.2.1; au_signature := p.2.2 |})
    (fun a => (au_salt a, (au_public_key a, au_signature a))) _ _.
Next Obligation. by intros []. Qed.
Next Obligation. by intros [? []]. Qed.

Program Definition wire_invocation : Wire AuthorizedProgramInvocation :=
  wire_struct
    (wire_pair wire_hash (wire_pair wire_program_call (wire_pair wire_transition wire_authorization)))
    (fun p => {| ai_signer := p.1; ai_call := p.2.1; ai_payment := p.2.2.1;
                 ai_authorization := p.2.2.2 |})
    (fun a => (ai_signer a, (ai_call a, (ai_payment a, ai_authorization a)))) _ _.
Next Obligation. by intros []. Qed.
Next Obligation. by intros [? [? []]]. Qed.

Program Definition wire_authorized_deploy : Wire AuthorizedDeployProgram :=
  wire_struct (wire_pair wire_deploy (wire_pair wire_transition wire_authorization))
    (fun p => {| ad_deploy := p.1; ad_payment := p.2.1; ad_authorization := p.2.2 |})
    (fun a => (ad_deploy a, (ad_payment a, ad_authorization a))) _ _.
Next Obligation. by intros []. Qed.
Next Obligation. by intros [? []]. Qed.

Program Definition wire_operation : Wire BlockOperation :=
  wire_struct (wire_either wire_authorized_deploy wire_invocation)
    (fun x => match x with inl a => OpDeployProgram a | inr a => OpProgramCall a end)
    (fun o => match o with OpDeployProgram a => inl a | OpProgramCall a => inr a end) _ _.
Next Obligation. by intros []. Qed.
Next Obligation. by intros []. Qed.

Definition has_matching_scheme (self : AccountAuthorization) : bool :=
  bool_decide (pk_account (au_public_key self) = sg_account (au_signature self)).

Definition active_at_height (self : AccountAuthorization) (height : Z) : bool :=
  has_matching_scheme self && scheme_supported (pk_account (au_public_key self)).

Definition operation_authorization (o : BlockOperation) : AccountAuthorization :=
  match o with
  | OpDeployProgram a => ad_authorization a
  | OpProgramCall a => ai_authorization a
  end.

(** The keys of an operation have an encoding. *)
Definition encodable (a : AccountAuthorization) : bool :=
  key_valid_encoding (au_public_key a) && signature_valid_encoding (au_signature a).

Inductive CodecError := EncodeFailed | DecodeFailed | InvalidBlock.

(** [canonical_bytes(operation)]. *)
Definition operation_bytes (o : BlockOperation) : result CodecError (list Z) :=
  if encodable (operation_authorization o) then Ok (w_enc wire_operation o) else Err EncodeFailed.

Inductive OperationError := InvalidDeploy | InvalidProgramCall.

Section authorize.
Context `{Sha3} `{SignatureBackend}.

Definition authorize (instance : ProgramId) (commitment : Hash) (proof : AccountAuthorization)
    (height : Z) : bool :=
  if negb (active_at_height proof height) then false
  else
    bool_decide (program_id_of_key (au_public_key proof) (au_salt proof) = Some instance)
    && verify (au_public_key proof) commitment (au_signature proof).

Definition invocation_validate (self : AuthorizedProgramInvocation) : result IntentError unit :=
  _ ← map_err (fun _ => InvalidAssetCall) (decode_program (ai_call self));
  _ ← transition_validate (ai_payment self);
  fail_if negb (bool_decide (ai_signer self = signer (ai_payment self))) with InvalidAssetCall;
  Ok tt.

(** What one signature covers: the chain, the role, the signer, the call and the
    payment. *)
Definition invocation_preimage (genesis signer : Hash) (call : ProgramCall)
    (payment : CoinTransition) : list Z :=
  genesis ++ [1] ++ ascii_bytes "xparq:program-transaction:v1"%string ++ signer
  ++ enc_program_call call ++ w_enc wire_transition payment.

Definition program_invocation_commitment (s : ProgramId) (call : ProgramCall)
    (payment : CoinTransition) (genesis : Hash) : result IntentError Hash :=
  _ ← map_err (fun _ => InvalidAssetCall) (decode_program call);
  _ ← transition_validate payment;
  fail_if negb (bool_decide (s = signer payment)) with InvalidAssetCall;
  Ok (domain AssetIntent (invocation_preimage genesis s call payment)).

Definition verify_authorizations (self : AuthorizedProgramInvocation) (genesis : Hash)
    (height : Z) : result IntentError bool :=
  let auth := ai_authorization self in
  if negb (active_at_height auth height) || negb (key_valid_encoding (au_public_key auth))
     || negb (signature_valid_encoding (au_signature auth))
  then Ok false
  else
    commitment ← program_invocation_commitment (ai_signer self) (ai_call self) (ai_payment self)
                   genesis;
    Ok (authorize (ai_signer self) commitment auth height).

Definition deploy_preimage (genesis : Hash) (d : DeployProgram) (payment : CoinTransition)
    : list Z :=
  ascii_bytes "xparq:deploy-program:v1"%string ++ genesis ++ dp_owner d ++ le_bytes 8 (dp_nonce d)
  ++ program_hash (dp_code d) ++ w_enc wire_transition payment.

Definition deploy_commitment (self : AuthorizedDeployProgram) (genesis : Hash) : Hash :=
  domain XPARQArtifact (deploy_preimage genesis (ad_deploy self) (ad_payment self)).

Definition semantic_commitment (self : CoinTransition) (genesis : Hash) : result IntentError Hash :=
  _ ← transition_validate self;
  Ok (domain CoinTransitionDomain (genesis ++ w_enc wire_transition self)).

Definition operation_id (o : BlockOperation) : result CodecError Hash :=
  bytes ← operation_bytes o;
  Ok (domain Operation bytes).

Definition operation_validate (o : BlockOperation) : result OperationError unit :=
  match o with
  | OpDeployProgram operation =>
      match validate_structure (ad_deploy operation) with
      | Err _ => Err InvalidDeploy
      | Ok _ => map_err (fun _ => InvalidDeploy) (transition_validate (ad_payment operation))
      end
  | OpProgramCall operation => map_err (fun _ => InvalidProgramCall) (invocation_validate operation)
  end.
End authorize.

(** ** What a commitment binds *)

(** Two inputs of SHA3 with one digest. *)
Definition sha3_collision `{Sha3} : Prop := exists x y, x <> y /\ sha3_256 x = sha3_256 y.

Lemma domain_inj `{Sha3} d x y : domain d x = domain d y -> x = y \/ sha3_collision.
Proof.
  unfold domain. intros Heq. destruct (decide (x = y)) as [|Hne]; [by left|right].
  eexists _, _. split; [|exact Heq]. unfold domain_preimage. intros Hp%app_inv_head.
  apply app_inj_1 in Hp as [_ ?]; [done|]. by rewrite !length_le_bytes.
Qed.

(** Two different strings with one digest, one of each list. *)
Definition collides `{Sha3} (X Y : list (list Z)) : Prop :=
  exists x y, x ∈ X /\ y ∈ Y /\ x <> y /\ sha3_256 x = sha3_256 y.

Lemma collides_mono `{Sha3} X Y X' Y' : X ⊆ X' -> Y ⊆ Y' -> collides X Y -> collides X' Y'.
Proof. intros HX HY (x & y & Hx & Hy & Hne & Heq). exists x, y. by split_and!; [apply HX|apply HY|..]. Qed.

Lemma domain_collides `{Sha3} d x y X Y :
  domain d x = domain d y -> domain_preimage d x ∈ X -> domain_preimage d y ∈ Y -> x = y \/ collides X Y.
Proof.
  intros Heq Hx Hy. destruct (decide (x = y)) as [|Hne]; [by left|right].
  exists (domain_preimage d x), (domain_preimage d y). split_and!; [done|done| |done].
  unfold domain_preimage. intros Hp%app_inv_head. apply app_inj_1 in Hp as [_ ?]; [done|].
  by rewrite !length_le_bytes.
Qed.

Lemma hash_prefix_inj (h k x y : list Z) :
  hash_wf h -> hash_wf k -> h ++ x = k ++ y -> h = k /\ x = y.
Proof. intros [Hh _] [Hk _]. apply app_inj_1. by rewrite Hh, Hk. Qed.

Lemma invocation_preimage_inj g1 s1 c1 p1 g2 s2 c2 p2 :
  hash_wf g1 -> hash_wf g2 -> hash_wf s1 -> hash_wf s2 ->
  program_call_wf c1 -> program_call_wf c2 ->
  w_wf wire_transition p1 -> w_wf wire_transition p2 ->
  invocation_preimage g1 s1 c1 p1 = invocation_preimage g2 s2 c2 p2 ->
  g1 = g2 /\ s1 = s2 /\ c1 = c2 /\ p1 = p2.
Proof.
  intros Hg1 Hg2 Hs1 Hs2 Hc1 Hc2 Hp1 Hp2 Heq. unfold invocation_preimage in Heq.
  apply hash_prefix_inj in Heq as [-> Heq]; [|done|done]. do 2 apply app_inv_head in Heq.
  apply hash_prefix_inj in Heq as [-> Heq]; [|done|done].
  apply (w_prefix_inj wire_program_call) in Heq as [-> Heq]; [|done|done].
  apply (w_inj wire_transition) in Heq as ->; done.
Qed.

(** The values an invocation's Rust types can hold. *)
Definition invocation_fields_wf (genesis : Hash) (a : AuthorizedProgramInvocation) : Prop :=
  hash_wf genesis /\ hash_wf (ai_signer a) /\ program_call_wf (ai_call a) /\
  w_wf wire_transition (ai_payment a).

(** (C32) One signature authorizes one thing: if two invocations on two chains
    have the same authorization commitment, they are on the same chain, by the
    same signer, of the same call with the same payment, or SHA3 collides.  And
    an accepted authorization shows a structurally valid invocation, a key of
    the signer's identity, and its signature verified over that commitment. *)
Theorem authorization_binds `{Sha3} `{SignatureBackend} g1 a1 g2 a2 commitment height :
  invocation_fields_wf g1 a1 -> invocation_fields_wf g2 a2 ->
  program_invocation_commitment (ai_signer a1) (ai_call a1) (ai_payment a1) g1 = Ok commitment ->
  (program_invocation_commitment (ai_signer a2) (ai_call a2) (ai_payment a2) g2 = Ok commitment ->
   (g1 = g2 /\ ai_signer a1 = ai_signer a2 /\ ai_call a1 = ai_call a2 /\
    ai_payment a1 = ai_payment a2) \/ sha3_collision) /\
  (verify_authorizations a1 g1 height = Ok true ->
   invocation_validate a1 = Ok tt /\
   program_id_of_key (au_public_key (ai_authorization a1)) (au_salt (ai_authorization a1))
     = Some (ai_signer a1) /\
   verify (au_public_key (ai_authorization a1)) commitment (au_signature (ai_authorization a1))
     = true).
Proof.
  intros (Hg1 & Hs1 & Hc1 & Hp1) (Hg2 & Hs2 & Hc2 & Hp2) Hcm. split.
  - intros Hcm2. unfold program_invocation_commitment in *. inv_ok.
    match goal with Hd : domain _ _ = domain _ _ |- _ => apply domain_inj in Hd as [Hd|]; [|by right];
      left; apply invocation_preimage_inj in Hd; done end.
  - unfold verify_authorizations. case_match; [done|]. rewrite Hcm. cbn [mbind result_mbind].
    intros [= Ha]. unfold authorize in Ha. case_match; [done|].
    apply andb_true_iff in Ha as [Hid%bool_decide_eq_true Hv]. split_and!; [|done|done].
    unfold program_invocation_commitment in Hcm. unfold invocation_validate.
    destruct (decode_program (ai_call a1)); cbn [map_err mbind result_mbind] in *; [|done].
    destruct (transition_validate (ai_payment a1)); cbn [mbind result_mbind] in *; [|done].
    unfold guard_err in *. by case_match.
Qed.

(** ** Operation identifiers *)

Lemma with_size_wf n l :
  w_wf (wire_exact n) l <-> Z.of_nat (length l) = n /\ Z.of_nat (length l) < 2 ^ 32 /\ bytes_wf l.
Proof.
  cbn. rewrite Nat2Z.id. split.
  - intros [[? Hn%Z.eqb_eq] [_ ?]]. split_and!; [done|lia|done].
  - intros (Hn & ? & ?). rewrite (proj2 (Z.eqb_eq _ _) Hn). split_and!; try done; lia.
Qed.

Lemma wf_encodable o : w_wf wire_operation o -> encodable (operation_authorization o) = true.
Proof.
  assert (forall a, w_wf wire_authorization a -> encodable a = true) as Ha.
  { intros [salt [ka kb] [sa sb]] (_ & [_ Hk] & [_ Hs]). apply with_size_wf in Hk as [Hk _].
    apply with_size_wf in Hs as [Hs _]. unfold encodable, key_valid_encoding, signature_valid_encoding.
    cbn in *. by rewrite Hk, Hs, !Z.eqb_refl. }
  destruct o as [[d p a]|[s c p a]]; intros Hw; apply Ha; apply Hw.
Qed.

(** Operations have one encoding and one identifier: a byte string decodes
    to an operation exactly when it is that operation's encoding, every
    well-formed operation has an identifier, and two operations with the same
    identifier are equal, or SHA3 collides. *)
Theorem operation_identity `{Sha3} o1 o2 bytes :
  w_wf wire_operation o1 -> w_wf wire_operation o2 -> bytes_wf bytes ->
  (w_slice wire_operation bytes = Some o1 <-> operation_bytes o1 = Ok bytes) /\
  (exists id, operation_id o1 = Ok id) /\
  (operation_id o1 = operation_id o2 -> o1 = o2 \/ sha3_collision).
Proof.
  intros H1 H2 Hb. pose proof (wf_encodable _ H1) as E1. pose proof (wf_encodable _ H2) as E2.
  unfold operation_id, operation_bytes. rewrite E1, E2. split_and!.
  - rewrite w_slice_Some by done. naive_solver.
  - eexists. reflexivity.
  - intros [= Hd]. apply domain_inj in Hd as [Hd|]; [left|by right]. by apply (w_inj wire_operation).
Qed.

(** ** Witnesses *)

Definition sample_auth : AccountAuthorization :=
  {| au_salt := replicate 32 0;
     au_public_key := {| pk_account := SlhDsaShake128s; pk_bytes := replicate 32 7 |};
     au_signature := {| sg_account := SlhDsaShake128s; sg_bytes := replicate (Z.to_nat 7856) 9 |} |}.

Definition sample_invocation : AuthorizedProgramInvocation :=
  {| ai_signer := replicate 32 0; ai_call := transfer_coin;
     ai_payment := {| signer := replicate 32 0; ct_inputs := [replicate 32 1];
                      ct_outputs := [{| co_output := Program (replicate 32 2); co_amount := 5 |}];
                      charges := {| miner_fee := 1 |} |};
     ai_authorization := sample_auth |}.

Definition accept_all : SignatureBackend :=
  {| ml_dsa_verify := fun _ _ _ _ => true; slh_dsa_verify := fun _ _ _ _ => true |}.

Lemma sample_payment_wf : w_wf wire_transition (ai_payment sample_invocation).
Proof.
  cbn. split_and!; try done; try (by apply digits_compute).
  - apply Forall_singleton. split; [done|by apply digits_compute].
  - apply Forall_singleton. cbn. split_and!; try done. by apply digits_compute.
Qed.

Lemma sample_fields_wf : invocation_fields_wf (replicate 32 3) sample_invocation.
Proof.
  split_and!; [by apply hash_wf_compute..|by split_and!|apply sample_payment_wf].
Qed.

Lemma authorization_binds_witness :
  exists commitment,
    @program_invocation_commitment toy_sha3 (ai_signer sample_invocation) (ai_call sample_invocation)
      (ai_payment sample_invocation) (replicate 32 3) = Ok commitment /\
    @verify_authorizations toy_sha3 accept_all sample_invocation (replicate 32 3) 0 = Ok true /\
    invocation_validate sample_invocation = Ok tt.
Proof.
  eexists. split; [reflexivity|]. split; [vm_compute; reflexivity|].
  apply (@authorization_binds toy_sha3 accept_all (replicate 32 3) sample_invocation
    (replicate 32 3) sample_invocation _ 0 sample_fields_wf sample_fields_wf eq_refl).
  vm_compute. reflexivity.
Defined.

Lemma sample_operation_wf : w_wf wire_operation (OpProgramCall sample_invocation).
Proof.
  split; [by apply hash_wf_compute|]. split; [by split_and!|]. split; [apply sample_payment_wf|].
  split; [split; [done|by apply digits_compute]|]. split; (split; [done|]); apply with_size_wf;
    (split_and!; [reflexivity|done|by apply digits_compute]).
Qed.

Lemma operation_identity_witness :
  exists id, @operation_id toy_sha3 (OpProgramCall sample_invocation) = Ok id.
Proof.
  apply (@operation_identity toy_sha3 (OpProgramCall sample_invocation)
    (OpProgramCall sample_invocation) [] sample_operation_wf sample_operation_wf
    (Forall_nil_2 _)).
Defined.
