(* ===== verification/Policy.v ===== *)
(** * Consensus policy: emission, difficulty and protocol burn

    Models [kernel/src/consensus/policy/emission.rs], [difficulty.rs] and
    [burn.rs]. *)

From S2P Require Import Prelude Codec Target Monetary Authorize.
From stdpp Require Import strings.
#[local] Open Scope Z_scope.

(** ** Protocol burn: [burn.rs] *)

Definition STATE_BURN_RATE_ZENO_PER_BYTE : Z := 1.
Definition BLOCK_HEADER_ARCHIVAL_BYTES : Z := 3 * 32 + 2 * 4 + 8.
Definition BLOCK_HEIGHT_ARCHIVAL_BYTES : Z := 8.
Definition BLOCK_EMISSION_ARCHIVAL_BYTES : Z := 1 + 32 + 8.
Definition EMPTY_BLOCK_ARCHIVAL_BYTES : Z :=
  BLOCK_HEADER_ARCHIVAL_BYTES + BLOCK_HEIGHT_ARCHIVAL_BYTES
  + BLOCK_EMISSION_ARCHIVAL_BYTES + 4.
Definition COIN_UTXO_STATE_WEIGHT : Z := 32 + 8 + 1 + 32.
Definition MINER_PROTOCOL_BURN : Z :=
  (EMPTY_BLOCK_ARCHIVAL_BYTES + COIN_UTXO_STATE_WEIGHT) * STATE_BURN_RATE_ZENO_PER_BYTE.

Inductive BurnError :=
| WeightOverflow
| ZenoOverflow
| IncorrectBurn (required actual : Z).

Record StateTransitionWeight := {
  created_coin_utxos : Z;
  consumed_coin_utxos : Z;
  created_state_weight : Z;
}.

Definition state_growth_burn (self : StateTransitionWeight) : result BurnError Z :=
  let net_coin_utxos :=
    saturating_sub (created_coin_utxos self) (consumed_coin_utxos self) in
  created ← ok_or (weight ← checked_mul 64 net_coin_utxos COIN_UTXO_STATE_WEIGHT;
                   checked_add 64 weight (created_state_weight self)) WeightOverflow;
  ok_or (checked_mul 64 created STATE_BURN_RATE_ZENO_PER_BYTE) ZenoOverflow.

Record ProtocolBurn := { archival : Z; state_growth : Z }.

Definition for_program_call (transition : StateTransitionWeight)
    (canonical_transaction_bytes : Z) : result BurnError ProtocolBurn :=
  archival ← ok_or (checked_mul 64 canonical_transaction_bytes STATE_BURN_RATE_ZENO_PER_BYTE)
               ZenoOverflow;
  state_growth ← state_growth_burn transition;
  Ok {| archival := archival; state_growth := state_growth |}.

Definition burn_total (self : ProtocolBurn) : result BurnError Z :=
  ok_or (Zeno.checked_add (archival self) (state_growth self)) ZenoOverflow.

Definition validate_exact_burn (actual required : Z) : result BurnError unit :=
  fail_if negb (actual =? required) with IncorrectBurn required actual;
  Ok tt.

(** ** Emission: [emission.rs] *)

Definition BLOCK_EMISSION_START : Z := 156250000.
Definition MAX_BLOCK_EMISSION : Z := 5000000000.
Definition TAIL_BLOCK_EMISSION : Z := 78125000.
Definition EMISSION_RISING_STEPS : Z := 5.
Definition EMISSION_HALVINGS_TO_TAIL : Z := 6.
Definition EMISSION_INTERVAL : Z := 100000.
Definition FOTE_ACTIVATION_HEIGHT : Z :=
  (EMISSION_RISING_STEPS + EMISSION_HALVINGS_TO_TAIL) * EMISSION_INTERVAL + 1.

Definition is_emission_epoch_boundary (height : Z) : bool :=
  (1 <? height) && ((height - 1) mod EMISSION_INTERVAL =? 0).

Definition block_emission_for_height (height : Z) : Z :=
  let completed_intervals := saturating_sub height 1 / EMISSION_INTERVAL in
  if completed_intervals <=? EMISSION_RISING_STEPS then
    let multiplier := shl 64 1 completed_intervals in
    Z.min (saturating_mul 64 BLOCK_EMISSION_START multiplier) MAX_BLOCK_EMISSION
  else
    let halvings := completed_intervals - EMISSION_RISING_STEPS in
    if EMISSION_HALVINGS_TO_TAIL <=? halvings then TAIL_BLOCK_EMISSION
    else Z.max (Z.shiftr MAX_BLOCK_EMISSION halvings) TAIL_BLOCK_EMISSION.

Inductive EmissionError := MissingEmission | InvalidSubsidy | ArithmeticOverflow | Serialization.

Definition operation_fee (operation : BlockOperation) : Z :=
  match operation with
  | OpProgramCall call => miner_fee (charges (ai_payment call))
  | OpDeployProgram deploy => miner_fee (charges (ad_payment deploy))
  end.

Definition expected_emission_for_operations (height : Z) (operations : list BlockOperation)
    : result EmissionError Z :=
  let scheduled := block_emission_for_height height in
  if height <? FOTE_ACTIVATION_HEIGHT then Ok scheduled
  else
    fees ← try_fold (fun total operation =>
              ok_or (Zeno.checked_add total (operation_fee operation)) ArithmeticOverflow)
            operations 0;
    net_tail ← ok_or (Zeno.checked_sub scheduled MINER_PROTOCOL_BURN) InvalidSubsidy;
    let net_issuance := default 0 (Zeno.checked_sub net_tail fees) in
    ok_or (Zeno.checked_add MINER_PROTOCOL_BURN net_issuance) ArithmeticOverflow.

(** [Emission] of a block, and the result of authorizing it. *)
Record Emission := { em_to : ProgramId; em_subsidy : Z }.

Record ValidatedEmission := {
  ve_recipient : ProgramId;
  ve_subsidy : Z;
  ve_miner_emission : Z;
  ve_protocol_burn : Z;
  ve_origin : Hash;
}.

Section emission.
Context `{Sha3}.

(** The tuple of the byte-string literal and four block fields, in Borsh: the
    literal is an eight-byte array, the height a [u64]. *)
Definition emission_origin (previous_hash : Hash) (height : Z) (emission : option Emission)
    : result EmissionError Hash :=
  emission ← ok_or emission MissingEmission;
  Ok (domain EmissionDomain
        (ascii_bytes "emission" ++ previous_hash ++ le_bytes 8 height
         ++ em_to emission ++ le_bytes 8 (em_subsidy emission))).

Definition authorize_emission (previous_hash : Hash) (height : Z)
    (emission : option Emission) (operations : list BlockOperation)
    : result EmissionError ValidatedEmission :=
  em ← ok_or emission MissingEmission;
  expected ← expected_emission_for_operations height operations;
  fail_if negb (em_subsidy em =? expected) with InvalidSubsidy;
  let protocol_burn := MINER_PROTOCOL_BURN in
  miner_emission ← ok_or (Zeno.checked_sub (em_subsidy em) protocol_burn) InvalidSubsidy;
  origin ← emission_origin previous_hash height emission;
  Ok {| ve_recipient := em_to em; ve_subsidy := em_subsidy em;
        ve_miner_emission := miner_emission; ve_protocol_burn := protocol_burn;
        ve_origin := origin |}.
End emission.

(** ** Difficulty: [difficulty.rs] *)

Definition WBDA_WINDOW : Z := 2500.
Definition WBDA_TARGET_BLOCK_WEIGHT : Z := 1024 * 1024.
Definition WBDA_LOW_UTILIZATION_PPM : Z := 800000.
Definition WBDA_HIGH_UTILIZATION_PPM : Z := 1200000.
Definition WBDA_HARDER_PERCENT : Z := 80.
Definition WBDA_EASIER_PERCENT : Z := 120.
Definition TARGET_BITS_START : Z := 0x201fffff.

Inductive WbdaAdjustment := Decrease | Keep | Increase.

Definition is_wbda_epoch_boundary (height : Z) : bool :=
  (1 <? height) && ((height - 1) mod WBDA_WINDOW =? 0).

Fixpoint checked_sum (total : Z) (weights : list Z) : option Z :=
  match weights with
  | [] => Some total
  | weight :: rest => total ← checked_add 64 total weight; checked_sum total rest
  end.

Definition average_block_weight (block_weights : list Z) : option Z :=
  if negb (Z.of_nat (length block_weights) =? WBDA_WINDOW) then None
  else total ← checked_sum 0 block_weights; Some (total / WBDA_WINDOW).

Definition utilization_ppm (block_weights : list Z) : option Z :=
  average ← average_block_weight block_weights;
  let target := WBDA_TARGET_BLOCK_WEIGHT in
  if target =? 0 then None
  else Some (saturating_mul 64 average 1000000 / target).

Definition adjustment_for_utilization_ppm (utilization : Z) : WbdaAdjustment :=
  if utilization <? WBDA_LOW_UTILIZATION_PPM then Increase
  else if WBDA_HIGH_UTILIZATION_PPM <? utilization then Decrease
  else Keep.

Definition adjustment_for_window (block_weights : list Z) : option WbdaAdjustment :=
  adjustment_for_utilization_ppm <$> utilization_ppm block_weights.

Definition next_difficulty_from_window (previous_target_bits : Z) (block_weights : list Z)
    : option Z :=
  adjustment ← adjustment_for_window block_weights;
  previous ← PoWTarget.from_compact previous_target_bits;
  pow_limit ← PoWTarget.from_compact TARGET_BITS_START;
  next ← match adjustment with
         | Decrease => PoWTarget.scale_ratio previous WBDA_EASIER_PERCENT 100
         | Keep => Some previous
         | Increase => PoWTarget.scale_ratio previous WBDA_HARDER_PERCENT 100
         end;
  let next := if lex_ltb pow_limit next then pow_limit else next in
  Some (PoWTarget.to_compact next).

Definition expected_difficulty_from_window (next_height parent_difficulty : Z)
    (current_window : list Z) : option Z :=
  if next_height =? 1 then Some TARGET_BITS_START
  else if negb (is_wbda_epoch_boundary next_height) then Some parent_difficulty
  else next_difficulty_from_window parent_difficulty current_window.

(** The heights [start..next_height] the window covers. *)
Definition window_heights (next_height : Z) : list Z :=
  (fun i => next_height - WBDA_WINDOW + Z.of_nat i) <$> seq 0 (Z.to_nat WBDA_WINDOW).

Definition expected_difficulty_for_height {E} (next_height parent_difficulty : Z)
    (weight_at : Z -> result E Z) : result E (option Z) :=
  if next_height =? 1 then Ok (Some TARGET_BITS_START)
  else if negb (is_wbda_epoch_boundary next_height) then Ok (Some parent_difficulty)
  else
    weights ← collect weight_at (window_heights next_height);
    Ok (expected_difficulty_from_window next_height parent_difficulty weights).

(** ** Emission facts *)

Lemma block_emission_cases height :
  1 <= height ->
  let k := (height - 1) / EMISSION_INTERVAL in
  block_emission_for_height height =
    if k <=? 5 then BLOCK_EMISSION_START * 2 ^ k
    else if k <=? 10 then MAX_BLOCK_EMISSION / 2 ^ (k - 5)
    else TAIL_BLOCK_EMISSION.
Proof.
  intros Hh k. unfold block_emission_for_height, saturating_sub.
  rewrite Z.max_r by lia. fold k.
  assert (0 <= k) as Hk by (apply Z.div_pos; [lia|done]). clearbody k.
  unfold EMISSION_RISING_STEPS, EMISSION_HALVINGS_TO_TAIL.
  destruct (Z.leb_spec k 5) as [H5|H5].
  - assert (k = 0 \/ k = 1 \/ k = 2 \/ k = 3 \/ k = 4 \/ k = 5) as Hc by lia.
    destruct_or! Hc; subst k; reflexivity.
  - destruct (Z.leb_spec k 10) as [H10|H10].
    + replace (6 <=? k - 5) with false by lia.
      assert (k = 6 \/ k = 7 \/ k = 8 \/ k = 9 \/ k = 10) as Hc by lia.
      destruct_or! Hc; subst k; reflexivity.
    + by replace (6 <=? k - 5) with true by lia.
Qed.

Lemma block_emission_tail height :
  FOTE_ACTIVATION_HEIGHT <= height ->
  block_emission_for_height height = TAIL_BLOCK_EMISSION.
Proof.
  intros Hh. unfold FOTE_ACTIVATION_HEIGHT, EMISSION_RISING_STEPS,
    EMISSION_HALVINGS_TO_TAIL, EMISSION_INTERVAL in Hh.
  rewrite block_emission_cases by lia. cbn zeta.
  assert (11 <= (height - 1) / EMISSION_INTERVAL)
    by (apply Z.div_le_lower_bound; unfold EMISSION_INTERVAL; lia).
  by rewrite !(proj2 (Z.leb_gt _ _)) by lia.
Qed.

Definition total_fees (ops : list BlockOperation) : Z := zsum (operation_fee <$> ops).

Lemma total_fees_nonneg ops :
  Forall (fun op => 0 <= operation_fee op) ops -> 0 <= total_fees ops.
Proof.
  induction 1 as [|o ops Ho Hops IH]; [done|].
  change (total_fees (o :: ops)) with (operation_fee o + total_fees ops). lia.
Qed.

(** The fee fold is the sum of the fees, failing exactly on overflow. *)
Lemma fee_fold ops total :
  Forall (fun op => 0 <= operation_fee op) ops -> total < 2 ^ 64 ->
  try_fold (fun total operation =>
      ok_or (Zeno.checked_add total (operation_fee operation)) ArithmeticOverflow) ops total =
    if total + total_fees ops <? 2 ^ 64
    then Ok (total + total_fees ops) else Err ArithmeticOverflow.
Proof.
  intros Hpos. revert total. induction Hpos as [|op ops Hop Hpos IH]; intros total Ht;
    cbn [try_fold].
  { change (total_fees []) with 0. rewrite Z.add_0_r.
    by rewrite (proj2 (Z.ltb_lt _ _)) by done. }
  pose proof (total_fees_nonneg ops Hpos).
  change (total_fees (op :: ops)) with (operation_fee op + total_fees ops).
  assert (Zeno.checked_add total (operation_fee op) =
    if total + operation_fee op <? 2 ^ 64 then Some (total + operation_fee op) else None)
    as -> by done.
  destruct (Z.ltb_spec (total + operation_fee op) (2 ^ 64)); cbn [ok_or mbind result_mbind].
  - rewrite IH by done. by rewrite <- Z.add_assoc.
  - by rewrite (proj2 (Z.ltb_ge _ _)) by lia.
Qed.

(** The canonical subsidy from activation on: fees credited to the miner offset
    the tail issuance down to the protocol burn, and never below it. *)
Lemma expected_emission_fote height ops :
  FOTE_ACTIVATION_HEIGHT <= height ->
  Forall (fun op => 0 <= operation_fee op) ops ->
  expected_emission_for_operations height ops =
    if total_fees ops <? 2 ^ 64
    then Ok (MINER_PROTOCOL_BURN
             + Z.max 0 (TAIL_BLOCK_EMISSION - MINER_PROTOCOL_BURN - total_fees ops))
    else Err ArithmeticOverflow.
Proof.
  intros Hh Hpos. unfold expected_emission_for_operations.
  rewrite (proj2 (Z.ltb_ge _ _)), block_emission_tail, fee_fold, Z.add_0_l by done.
  pose proof (total_fees_nonneg ops Hpos).
  destruct (Z.ltb_spec (total_fees ops) (2 ^ 64)); [|done].
  cbn [mbind result_mbind].
  change (Zeno.checked_sub TAIL_BLOCK_EMISSION MINER_PROTOCOL_BURN) with (Some 78124762).
  change TAIL_BLOCK_EMISSION with 78125000. change MINER_PROTOCOL_BURN with 238.
  cbn [ok_or mbind result_mbind]. unfold Zeno.checked_sub, checked_sub.
  destruct (Z.ltb_spec 78124762 (total_fees ops)); cbn [default from_option id].
  - by rewrite Z.max_l by lia.
  - unfold Zeno.checked_add, checked_add. rewrite (proj2 (Z.ltb_lt _ _)) by lia.
    simpl. f_equal. lia.
Qed.

(** ** Difficulty facts *)

Lemma checked_sum_spec weights total :
  Forall (fits 32) weights -> 0 <= total ->
  total + 2 ^ 32 * Z.of_nat (length weights) < 2 ^ 64 ->
  checked_sum total weights = Some (total + zsum weights) /\
  0 <= zsum weights <= 2 ^ 32 * Z.of_nat (length weights).
Proof.
  intros Hw. revert total. induction Hw as [|w weights Hw Hws IH]; intros total Ht Hb.
  { cbn. split; [by rewrite Z.add_0_r|lia]. }
  unfold fits in Hw. cbn [length] in *. cbn [checked_sum].
  change (zsum (w :: weights)) with (w + zsum weights).
  unfold checked_add. rewrite (proj2 (Z.ltb_lt _ _)) by lia. cbn [mbind option_bind].
  destruct (IH (total + w)) as [-> Hs]; [lia..|]. split; [f_equal; lia|lia].
Qed.

(** The utilization of a full window of header weights is always defined. *)
Lemma utilization_window weights :
  Forall (fits 32) weights -> Z.of_nat (length weights) = WBDA_WINDOW ->
  utilization_ppm weights =
    Some (zsum weights / WBDA_WINDOW * 1000000 / WBDA_TARGET_BLOCK_WEIGHT).
Proof.
  intros Hw Hlen. unfold utilization_ppm, average_block_weight. rewrite Hlen, Z.eqb_refl.
  cbn [negb]. destruct (checked_sum_spec weights 0) as [-> Hs]; [done|lia| |].
  { rewrite Hlen. unfold WBDA_WINDOW. lia. }
  rewrite Hlen in Hs. cbn [mbind option_bind]. rewrite Z.add_0_l.
  change (WBDA_TARGET_BLOCK_WEIGHT =? 0) with false. do 2 f_equal.
  unfold saturating_mul. apply Z.min_l.
  assert (zsum weights / WBDA_WINDOW <= 2 ^ 32)
    by (apply Z.div_le_upper_bound; unfold WBDA_WINDOW in *; lia). lia.
Qed.

(** The target a retarget aims at, before it is written in compact form. *)
Definition retarget_value (adjustment : WbdaAdjustment) (previous : Z) : Z :=
  Z.min (be_val PoWTarget.pow_limit)
    match adjustment with
    | Decrease => Z.max 1 (previous * 120 / 100)
    | Keep => previous
    | Increase => Z.max 1 (previous * 80 / 100)
    end.

Lemma retarget_scaled adjustment previous :
  target_wf previous -> 0 < be_val previous <= be_val PoWTarget.pow_limit ->
  exists next,
    match adjustment with
    | Decrease => PoWTarget.scale_ratio previous WBDA_EASIER_PERCENT 100
    | Keep => Some previous
    | Increase => PoWTarget.scale_ratio previous WBDA_HARDER_PERCENT 100
    end = Some next /\ target_wf next /\
    be_val next = match adjustment with
                  | Decrease => Z.max 1 (be_val previous * 120 / 100)
                  | Keep => be_val previous
                  | Increase => Z.max 1 (be_val previous * 80 / 100)
                  end.
Proof.
  intros Hwf Hb. destruct pow_limit_some as (_ & _ & Hlim).
  destruct adjustment; [|by exists previous|];
    match goal with |- exists _, PoWTarget.scale_ratio _ ?n _ = _ /\ _ =>
      pose proof (PoWTargetFacts.scale_ratio_spec previous n 100 Hwf ltac:(done) ltac:(done)) as Hs;
      destruct (PoWTarget.scale_ratio previous n 100) as [next|]
    end.
  - exists next. by destruct Hs as (? & _ & ?).
  - exfalso. assert (be_val previous * 120 / 100 <= 2 * be_val previous)
      by (apply Z.div_le_upper_bound; lia).
    unfold WBDA_EASIER_PERCENT in Hs. rewrite Hlim in Hb. lia.
  - exists next. by destruct Hs as (? & _ & ?).
  - exfalso. assert (be_val previous * 80 / 100 <= be_val previous)
      by (apply Z.div_le_upper_bound; lia).
    unfold WBDA_HARDER_PERCENT in Hs. rewrite Hlim in Hb. lia.
Qed.

Lemma next_difficulty_spec bits previous weights :
  PoWTarget.from_compact bits = Some previous -> target_wf previous ->
  0 < be_val previous <= be_val PoWTarget.pow_limit ->
  Forall (fits 32) weights -> Z.of_nat (length weights) = WBDA_WINDOW ->
  exists adjustment next bits',
    adjustment_for_window weights = Some adjustment /\
    target_wf next /\ be_val next = retarget_value adjustment (be_val previous) /\
    next_difficulty_from_window bits weights = Some bits' /\
    bits' = PoWTarget.to_compact next.
Proof.
  intros Hbits Hwf Hb Hw Hlen. destruct pow_limit_some as (Hlim & Hlwf & _).
  assert (exists adjustment, adjustment_for_window weights = Some adjustment) as [adj Hadj].
  { unfold adjustment_for_window. rewrite utilization_window by done. by eexists. }
  destruct (retarget_scaled adj previous Hwf Hb) as (next & Hnext & Hnwf & Hnv).
  exists adj, (if lex_ltb PoWTarget.pow_limit next then PoWTarget.pow_limit else next).
  eexists. split_and!; [done| | | |done].
  - by destruct (lex_ltb _ _).
  - unfold retarget_value. rewrite <- Hnv, lex_ltb_val by done.
    destruct (Z.ltb_spec (be_val PoWTarget.pow_limit) (be_val next)); lia.
  - unfold next_difficulty_from_window. rewrite Hadj, Hbits. cbn [mbind option_bind].
    change TARGET_BITS_START with POW_LIMIT_BITS. rewrite Hlim. cbn [mbind option_bind].
    rewrite Hnext. done.
Qed.

(** ** Properties *)

(** The emission schedule: at height h >= 1 with k = (h - 1) / 100000
    completed intervals the subsidy is 1.5625 XPQ doubled k times for k <= 5,
    50 XPQ halved k - 5 times for 5 < k <= 10, and the 0.78125 XPQ tail from then
    on; it always lies between the tail and the 50 XPQ peak, so no shift or
    saturation in the code ever loses value. *)
Theorem emission_schedule height :
  1 <= height ->
  let k := (height - 1) / EMISSION_INTERVAL in
  block_emission_for_height height =
    (if k <=? 5 then BLOCK_EMISSION_START * 2 ^ k
     else if k <=? 10 then MAX_BLOCK_EMISSION / 2 ^ (k - 5)
     else TAIL_BLOCK_EMISSION) /\
  TAIL_BLOCK_EMISSION <= block_emission_for_height height <= MAX_BLOCK_EMISSION.
Proof.
  intros Hh k. rewrite block_emission_cases by done. fold k. split; [done|].
  assert (0 <= k) as Hk by (apply Z.div_pos; [lia|done]). clearbody k.
  destruct (Z.leb_spec k 5).
  - assert (k = 0 \/ k = 1 \/ k = 2 \/ k = 3 \/ k = 4 \/ k = 5) as Hc by lia.
    destruct_or! Hc; subst k; done.
  - destruct (Z.leb_spec k 10); [|done].
    assert (k = 6 \/ k = 7 \/ k = 8 \/ k = 9 \/ k = 10) as Hc by lia.
    destruct_or! Hc; subst k; done.
Qed.

Lemma emission_schedule_witness : block_emission_for_height 500001 = MAX_BLOCK_EMISSION.
Proof.
  destruct (emission_schedule 500001 ltac:(lia)) as [H _]. rewrite H. reflexivity.
Defined.

(** Fee-offset tail emission: from the activation height on, the canonical
    subsidy of a block is the protocol burn plus what is left of the net tail
    after its fees; it fails only when the fees overflow 64 bits, never drops
    below the protocol burn, never exceeds the tail, and what the miner receives
    (subsidy net of burn plus fees) is at least the net tail. *)
Theorem fote_emission height ops :
  FOTE_ACTIVATION_HEIGHT <= height ->
  Forall (fun op => 0 <= operation_fee op) ops ->
  match expected_emission_for_operations height ops with
  | Ok subsidy =>
      MINER_PROTOCOL_BURN <= subsidy <= TAIL_BLOCK_EMISSION /\
      subsidy - MINER_PROTOCOL_BURN + total_fees ops =
        Z.max (TAIL_BLOCK_EMISSION - MINER_PROTOCOL_BURN) (total_fees ops)
  | Err e => e = ArithmeticOverflow /\ 2 ^ 64 <= total_fees ops
  end.
Proof.
  intros Hh Hops. rewrite expected_emission_fote by done.
  pose proof (total_fees_nonneg ops Hops).
  destruct (Z.ltb_spec (total_fees ops) (2 ^ 64)); [|done].
  change TAIL_BLOCK_EMISSION with 78125000. change MINER_PROTOCOL_BURN with 238. lia.
Qed.

Lemma fote_emission_witness :
  expected_emission_for_operations 1100001 [] = Ok TAIL_BLOCK_EMISSION.
Proof.
  pose proof (fote_emission 1100001 [] ltac:(vm_compute; discriminate) ltac:(constructor)) as H.
  destruct (expected_emission_for_operations 1100001 []) as [s|e] eqn:E.
  - destruct H as [_ H]. change (total_fees []) with 0 in H.
    change MINER_PROTOCOL_BURN with 238 in H. change TAIL_BLOCK_EMISSION with 78125000 in *.
    f_equal. lia.
  - destruct H as [_ H]. change (total_fees []) with 0 in H. lia.
Defined.

(** Authorizing a block's emission: it succeeds exactly when the block
    claims the canonical subsidy for its height and operations, and then splits
    that subsidy into the fixed protocol burn and the miner's part, with nothing
    created or lost. *)
Theorem authorize_emission_exact `{Sha3} previous_hash height em ops :
  1 <= height -> Forall (fun op => 0 <= operation_fee op) ops ->
  match authorize_emission previous_hash height (Some em) ops with
  | Ok v =>
      expected_emission_for_operations height ops = Ok (em_subsidy em) /\
      ve_subsidy v = em_subsidy em /\ ve_recipient v = em_to em /\
      ve_protocol_burn v = MINER_PROTOCOL_BURN /\ 0 <= ve_miner_emission v /\
      ve_miner_emission v + ve_protocol_burn v = em_subsidy em
  | Err _ => expected_emission_for_operations height ops <> Ok (em_subsidy em)
  end.
Proof.
  intros Hh Hops. unfold authorize_emission. cbn [ok_or mbind result_mbind].
  destruct (expected_emission_for_operations height ops) as [expected|] eqn:He; [|done].
  cbn [mbind result_mbind]. unfold guard_err.
  destruct (Z.eqb_spec (em_subsidy em) expected) as [->|Hne]; cbn [negb]; [|congruence].
  assert (MINER_PROTOCOL_BURN <= expected) as Hle.
  { destruct (Z.lt_ge_cases height FOTE_ACTIVATION_HEIGHT).
    - unfold expected_emission_for_operations in He.
      rewrite (proj2 (Z.ltb_lt _ _)) in He by done. simplify_eq.
      rewrite block_emission_cases by done. cbn zeta.
      assert (0 <= (height - 1) / EMISSION_INTERVAL < 11) as Hk.
      { split; [apply Z.div_pos; [lia|done]|]. apply Z.div_lt_upper_bound; [done|].
        change FOTE_ACTIVATION_HEIGHT with 1100001 in *.
        change EMISSION_INTERVAL with 100000. lia. }
      revert Hk. generalize ((height - 1) / EMISSION_INTERVAL). intros k Hk.
      assert (k = 0 \/ k = 1 \/ k = 2 \/ k = 3 \/ k = 4 \/ k = 5 \/ k = 6 \/ k = 7 \/
        k = 8 \/ k = 9 \/ k = 10) as Hc by lia. destruct_or! Hc; subst k; done.
    - rewrite expected_emission_fote in He by done. case_match; simplify_eq. lia. }
  unfold Zeno.checked_sub, checked_sub. rewrite (proj2 (Z.ltb_ge _ _)) by done.
  cbn. split_and!; try done; lia.
Qed.

Lemma authorize_emission_exact_witness :
  ok (@authorize_emission toy_sha3 (replicate 32 0) 1
       (Some {| em_to := replicate 32 1; em_subsidy := 156250000 |}) []) <> None.
Proof.
  pose proof (@authorize_emission_exact toy_sha3 (replicate 32 0) 1
    {| em_to := replicate 32 1; em_subsidy := 156250000 |} [] ltac:(lia) ltac:(constructor)) as H.
  destruct (authorize_emission _ _ _ _); [discriminate|]. contradiction H. vm_compute. reflexivity.
Defined.

(** State-growth burn is exact: it charges one zeno per canonical byte for
    the net new coin outputs (73 bytes each) plus the other created state, never
    credits consumed outputs beyond zero, and fails only when the 64-bit weight
    overflows. *)
Theorem state_growth_burn_exact w :
  0 <= created_coin_utxos w -> 0 <= consumed_coin_utxos w -> 0 <= created_state_weight w ->
  state_growth_burn w =
    let weight := Z.max 0 (created_coin_utxos w - consumed_coin_utxos w) * 73
                  + created_state_weight w in
    if weight <? 2 ^ 64 then Ok weight else Err WeightOverflow.
Proof.
  intros H1 H2 H3. unfold state_growth_burn, saturating_sub.
  change COIN_UTXO_STATE_WEIGHT with 73. change STATE_BURN_RATE_ZENO_PER_BYTE with 1.
  set (n := Z.max 0 (created_coin_utxos w - consumed_coin_utxos w)).
  assert (0 <= n) by lia. clearbody n. unfold checked_mul, checked_add. cbn zeta.
  destruct (Z.ltb_spec (n * 73) (2 ^ 64)); cbn [mbind option_bind].
  - destruct (Z.ltb_spec (n * 73 + created_state_weight w) (2 ^ 64));
      cbn [ok_or mbind result_mbind]; [|done].
    rewrite Z.mul_1_r. by rewrite (proj2 (Z.ltb_lt _ _)) by done.
  - by rewrite (proj2 (Z.ltb_ge _ _)) by lia.
Qed.

Lemma state_growth_burn_exact_witness :
  state_growth_burn {| created_coin_utxos := 3; consumed_coin_utxos := 1;
                       created_state_weight := 10 |} = Ok 156.
Proof.
  rewrite state_growth_burn_exact by (cbn; lia). reflexivity.
Defined.

(** Difficulty retargeting is total and bounded: for a consensus-valid
    parent word and a full window of header weights, the next word exists, is
    itself accepted by consensus, and decodes to a target that does not exceed
    the limit or the 80%, 100% or 120% scaling chosen from the window's average
    weight, and loses at most one part in 2^15 to the compact encoding. *)
Theorem retarget_total bits previous weights :
  fits 32 bits -> PoWTarget.from_consensus_compact bits = Some previous ->
  Forall (fits 32) weights -> Z.of_nat (length weights) = WBDA_WINDOW ->
  exists adjustment bits' t',
    adjustment_for_window weights = Some adjustment /\
    next_difficulty_from_window bits weights = Some bits' /\
    PoWTarget.from_consensus_compact bits' = Some t' /\
    let aim := retarget_value adjustment (be_val previous) in
    0 < be_val t' <= aim /\ aim <= be_val PoWTarget.pow_limit /\
    (aim - be_val t') * 2 ^ 15 < aim.
Proof.
  intros Hbits Hprev Hw Hlen. destruct pow_limit_some as (_ & Hlwf & Hlv).
  unfold PoWTarget.from_consensus_compact in Hprev. apply bind_Some in Hprev as (p & Hp & Hif).
  destruct (negb _); [done|]. destruct (lex_ltb PoWTarget.pow_limit p) eqn:Hlt; simplify_eq.
  pose proof (PoWTargetFacts.from_compact_spec bits Hbits) as Hs. rewrite Hp in Hs.
  destruct Hs as (Hwf & Hv & _ & Hpos). rewrite lex_ltb_val in Hlt by done.
  destruct (next_difficulty_spec bits previous weights) as
    (adj & next & bits' & Hadj & Hnwf & Hnv & Hnext & ->); [done|done|lia|done|done|].
  assert (1 <= retarget_value adj (be_val previous) <= be_val PoWTarget.pow_limit) as Haim.
  { unfold retarget_value. destruct adj; lia. }
  destruct (PoWTargetFacts.from_to_compact next Hnwf ltac:(lia))
    as (t' & Hd & Hwf' & Hle & Hgap & He).
  exists adj, (PoWTarget.to_compact next), t'. split_and!; try done; try lia.
  unfold PoWTarget.from_consensus_compact. rewrite Hd. cbn [mbind option_bind].
  rewrite He, Z.eqb_refl, lex_ltb_val by done. cbn [negb].
  by rewrite (proj2 (Z.ltb_ge _ _)) by lia.
Qed.

Lemma retarget_total_witness :
  exists bits' t', next_difficulty_from_window POW_LIMIT_BITS (replicate 2500 0) = Some bits' /\
    PoWTarget.from_consensus_compact bits' = Some t' /\
    be_val t' <= be_val PoWTarget.pow_limit * 80 / 100.
Proof.
  destruct (retarget_total POW_LIMIT_BITS PoWTarget.pow_limit (replicate 2500 0))
    as (adj & bits' & t' & Hadj & Hn & Hd & Hb & _).
  - split; vm_compute; [discriminate|reflexivity].
  - vm_compute. reflexivity.
  - apply Forall_replicate. split; [lia|reflexivity].
  - reflexivity.
  - vm_compute in Hadj. injection Hadj as <-. exists bits', t'.
    split; [exact Hn|split; [exact Hd|]].
    assert (retarget_value Increase (be_val PoWTarget.pow_limit)
      = be_val PoWTarget.pow_limit * 80 / 100) as Heq by (vm_compute; reflexivity).
    rewrite <- Heq. apply Hb.
Defined.
