(* ===== verification/Block.v ===== *)
(** * Blocks

    Models [kernel/src/blockchain/block.rs]: headers, emissions and blocks with
    their wire formats, hashing, the Merkle commitment to the body, structural
    validation and bounded decoding.  A block whose operations carry keys or
    signatures of the wrong length has no encoding. *)

From S2P Require Import Prelude Codec Merkle Monetary Registry Calls Wire Authorize Policy.
From stdpp Require Import strings.
#[local] Open Scope Z_scope.

Definition MAX_BLOCK_SIZE : Z := 2 * 1024 * 1024.
Definition MAX_BLOCK_OPERATIONS : Z := 4096.
Definition MAX_OPERATION_SIZE : Z := MAX_BLOCK_SIZE.
Definition GENESIS_TARGET_BITS : Z := 0x207fffff.

Record Header := {
  previous_hash : Hash;
  h_merkle_root : Hash;
  h_state_root : Hash;
  target_bits : Z;
  block_weight : Z;
  h_nonce : Z;
}.

#[global] Instance Header_eq_dec : EqDecision Header.
Proof. solve_decision. Defined.

Record Body := { b_emission : option Emission; b_operations : list BlockOperation }.

Record Block := { header : Header; height : Z; body : Body }.

(** ** Wire formats *)

Program Definition wire_header : Wire Header :=
  wire_struct
    (wire_pair wire_hash (wire_pair wire_hash (wire_pair wire_hash
      (wire_pair (wire_uint 4) (wire_pair (wire_uint 4) (wire_uint 8))))))
    (fun p => {| previous_hash := p.1; h_merkle_root := p.2.1; h_state_root := p.2.2.1;
                 target_bits := p.2.2.2.1; block_weight := p.2.2.2.2.1;
                 h_nonce := p.2.2.2.2.2 |})
    (fun h => (previous_hash h, (h_merkle_root h, (h_state_root h,
                (target_bits h, (block_weight h, h_nonce h)))))) _ _.
Next Obligation. by intros []. Qed.
Next Obligation. by intros [? [? [? [? []]]]]. Qed.

Program Definition wire_emission : Wire Emission :=
  wire_struct (wire_pair wire_hash (wire_uint 8))
    (fun p => {| em_to := p.1; em_subsidy := p.2 |}) (fun e => (em_to e, em_subsidy e)) _ _.
Next Obligation. by intros []. Qed.
Next Obligation. by intros []. Qed.

Lemma operations_fit : MAX_BLOCK_OPERATIONS < 2 ^ 32.
Proof. done. Qed.

(** [deserialize_block_operations]: a bounded count, each operation through a
    reader of bounded size. *)
Definition wire_operations : Wire (list BlockOperation) :=
  wire_vec MAX_BLOCK_OPERATIONS operations_fit
    (wire_limited (Z.to_nat MAX_OPERATION_SIZE) wire_operation).

Program Definition wire_block : Wire Block :=
  wire_struct
    (wire_pair wire_header (wire_pair (wire_uint 8)
      (wire_pair (wire_option wire_emission) wire_operations)))
    (fun p => {| header := p.1; height := p.2.1;
                 body := {| b_emission := p.2.2.1; b_operations := p.2.2.2 |} |})
    (fun b => (header b, (height b, (b_emission (body b), b_operations (body b))))) _ _.
Next Obligation. by intros [? ? []]. Qed.
Next Obligation. by intros [? [? []]]. Qed.

Definition block_encodable (b : Block) : bool :=
  forallb (fun o => encodable (operation_authorization o)) (b_operations (body b)).

Definition block_bytes (b : Block) : result CodecError (list Z) :=
  if block_encodable b then Ok (w_enc wire_block b) else Err EncodeFailed.

(** [weight] and [serialized_size]. *)
Definition block_size (b : Block) : result CodecError Z :=
  bytes ← block_bytes b; Ok (Z.of_nat (length bytes)).

Definition is_genesis (b : Block) : bool := height b =? 0.

Definition miner_program_id (b : Block) : ProgramId :=
  match b_emission (body b) with Some e => em_to e | None => replicate HASH_SIZE 0 end.

Inductive BlockError :=
| BlockMissingEmission | UnexpectedEmission | BlockTooHeavy | InvalidOperation
| DuplicateOperation | InvalidMerkleRoot | InvalidBlockWeight | BlockSerialization (e : CodecError).

(** The sink [validate_structure] serializes into: it refuses to grow past its
    maximum, and refuses what has no encoding. *)
Definition capped_size (maximum : Z) (b : Block) : result BlockError Z :=
  size ← map_err (fun _ => BlockTooHeavy) (block_size b);
  fail_if maximum <? size with BlockTooHeavy;
  Ok size.

Definition oversized_operation (o : BlockOperation) : bool :=
  match operation_bytes o with
  | Ok bytes => MAX_OPERATION_SIZE <? Z.of_nat (length bytes)
  | Err _ => true
  end.

Section block.
Context `{Sha3}.

Definition block_header_hash (h : Header) : Hash := domain HeaderDomain (w_enc wire_header h).
Definition block_hash (b : Block) : Hash := block_header_hash (header b).

Definition emission_hash (e : Emission) : Hash := domain EmissionDomain (w_enc wire_emission e).

(** ** The commitment to the body *)

(** [for operation in operations { push(operation.id()?) }]. *)
Fixpoint operation_ids (ops : list BlockOperation) : result CodecError (list Hash) :=
  match ops with
  | [] => Ok []
  | o :: ops => id ← operation_id o; ids ← operation_ids ops; Ok (id :: ids)
  end.

Definition merkle_leaves (emission : option Emission) (ops : list BlockOperation)
    : result CodecError (list Hash) :=
  ids ← operation_ids ops;
  Ok (match emission with Some e => emission_hash e :: ids | None => ids end).

Definition calculate_merkle_root (emission : option Emission) (ops : list BlockOperation)
    : result CodecError Hash :=
  match emission, ops with
  | None, [] => Ok (replicate HASH_SIZE 0)
  | _, _ =>
      leaves ← merkle_leaves emission ops;
      ok_or (merkle_root leaves MerkleNode) InvalidBlock
  end.

(** Inserting each identifier into a set, is one already there? *)
Fixpoint has_duplicate_operations (seen : gset Hash) (ops : list BlockOperation)
    : result CodecError bool :=
  match ops with
  | [] => Ok false
  | o :: ops =>
      id ← operation_id o;
      if decide (id ∈ seen) then Ok true else has_duplicate_operations ({[id]} ∪ seen) ops
  end.

Definition operations_are_structurally_valid (ops : list BlockOperation) : bool :=
  forallb (fun o => match operation_validate o with Ok _ => true | Err _ => false end) ops.

(** ** Structural validation *)

(** Genesis is empty; every other block has an emission. *)
Definition validate_emission (b : Block) : result BlockError unit :=
  if is_genesis b then
    fail_if bool_decide (is_Some (b_emission (body b))) with UnexpectedEmission;
    fail_if negb (length (b_operations (body b)) =? 0)%nat with InvalidOperation;
    Ok tt
  else
    fail_if negb (bool_decide (is_Some (b_emission (body b)))) with BlockMissingEmission;
    Ok tt.

Definition block_validate (b : Block) : result BlockError unit :=
  let ops := b_operations (body b) in
  let weight := block_weight (header b) in
  fail_if MAX_BLOCK_OPERATIONS <? Z.of_nat (length ops) with InvalidOperation;
  _ ← validate_emission b;
  fail_if negb (operations_are_structurally_valid ops) with InvalidOperation;
  fail_if MAX_BLOCK_SIZE <? weight with BlockTooHeavy;
  serialized_weight ← capped_size MAX_BLOCK_SIZE b;
  fail_if weight <? serialized_weight with InvalidBlockWeight;
  fail_if existsb oversized_operation ops with InvalidOperation;
  duplicate ← map_err BlockSerialization (has_duplicate_operations ∅ ops);
  fail_if (duplicate : bool) with DuplicateOperation;
  root ← map_err BlockSerialization (calculate_merkle_root (b_emission (body b)) ops);
  fail_if negb (bool_decide (h_merkle_root (header b) = root)) with InvalidMerkleRoot;
  Ok tt.

Definition decode_block (bytes : list Z) : result CodecError Block :=
  fail_if MAX_BLOCK_SIZE <? Z.of_nat (length bytes) with InvalidBlock;
  block ← ok_or (w_slice wire_block bytes) InvalidBlock;
  _ ← map_err (fun _ => InvalidBlock) (block_validate block);
  Ok block.

(** ** Building blocks *)

Definition with_weight (b : Block) (weight : Z) : Block :=
  {| header := {| previous_hash := previous_hash (header b);
                  h_merkle_root := h_merkle_root (header b);
                  h_state_root := h_state_root (header b); target_bits := target_bits (header b);
                  block_weight := weight; h_nonce := h_nonce (header b) |};
     height := height b; body := body b |}.

Definition with_merkle_root (b : Block) (root : Hash) : Block :=
  {| header := {| previous_hash := previous_hash (header b); h_merkle_root := root;
                  h_state_root := h_state_root (header b); target_bits := target_bits (header b);
                  block_weight := block_weight (header b); h_nonce := h_nonce (header b) |};
     height := height b; body := body b |}.

(** The weight field has a fixed width, so measuring with it zeroed is exact. *)
Definition refresh_block_weight (b : Block) : result CodecError Block :=
  let b := with_weight b 0 in
  weight ← block_size b;
  weight ← ok_or (try_from 32 weight) EncodeFailed;
  Ok (with_weight b weight).

Definition refresh_commitments (b : Block) : result CodecError Block :=
  root ← calculate_merkle_root (b_emission (body b)) (b_operations (body b));
  refresh_block_weight (with_merkle_root b root).

Definition push_operation (b : Block) (o : BlockOperation) : result CodecError Block :=
  refresh_commitments
    {| header := header b; height := height b;
       body := {| b_emission := b_emission (body b);
                  b_operations := b_operations (body b) ++ [o] |} |}.

Definition from_protocol_operations (height : Z) (previous : Hash) (target_bits nonce : Z)
    (emission : option Emission) (operations : list BlockOperation) : result CodecError Block :=
  root ← calculate_merkle_root emission operations;
  refresh_block_weight
    {| header := {| previous_hash := previous; h_merkle_root := root;
                    h_state_root := replicate HASH_SIZE 0; target_bits := target_bits;
                    block_weight := 0; h_nonce := nonce |};
       height := height;
       body := {| b_emission := emission; b_operations := operations |} |}.

Definition genesis : result CodecError Block :=
  from_protocol_operations 0 (replicate HASH_SIZE 0) GENESIS_TARGET_BITS 0 None [].

Definition operation_inclusion_proof (b : Block) (operation_index : nat)
    : result CodecError MerkleInclusionProof :=
  fail_if (length (b_operations (body b)) <=? operation_index)%nat with InvalidBlock;
  leaves ← merkle_leaves (b_emission (body b)) (b_operations (body b));
  let leaf_index := ((if bool_decide (is_Some (b_emission (body b))) then 1 else 0)
                     + operation_index)%nat in
  ok_or (create leaves leaf_index MerkleNode) InvalidBlock.
End block.

(** One test or one step of a body that returned [Ok]. *)
Ltac ok_step H :=
  lazymatch type of H with
  | (if ?c then Err _ else _) = Ok _ => destruct c eqn:?; [discriminate H|]
  | mbind _ ?m = Ok _ => destruct m eqn:?; cbn [mbind result_mbind] in H; [|discriminate H]
  end.

Lemma validate_emission_Ok b :
  validate_emission b = Ok tt ->
  if is_genesis b then b_emission (body b) = None /\ b_operations (body b) = []
  else is_Some (b_emission (body b)).
Proof.
  unfold validate_emission, guard_err. destruct (is_genesis b).
  - case_bool_decide as He; [done|]. apply eq_None_not_Some in He.
    destruct (Nat.eqb_spec (length (b_operations (body b))) 0) as [Hn|]; [|done].
    intros _. split; [done|]. by apply nil_length_inv.
  - by case_bool_decide.
Qed.

(** What structural validation established. *)
Lemma block_validate_Ok `{Sha3} b :
  block_validate b = Ok tt ->
  Z.of_nat (length (b_operations (body b))) <= MAX_BLOCK_OPERATIONS /\
  (if is_genesis b then b_emission (body b) = None /\ b_operations (body b) = []
   else is_Some (b_emission (body b))) /\
  operations_are_structurally_valid (b_operations (body b)) = true /\
  (exists bytes, block_bytes b = Ok bytes /\
     Z.of_nat (length bytes) <= block_weight (header b) <= MAX_BLOCK_SIZE) /\
  has_duplicate_operations ∅ (b_operations (body b)) = Ok false /\
  calculate_merkle_root (b_emission (body b)) (b_operations (body b))
    = Ok (h_merkle_root (header b)).
Proof.
  unfold block_validate, capped_size, block_size, guard_err. intros Hv. repeat ok_step Hv.
  repeat match goal with
  | Hm : map_err _ _ = Ok _ |- _ => apply map_err_Ok_inv in Hm
  | Hm : mbind _ _ = Ok _ |- _ => ok_step Hm
  | Hm : (if _ then Err _ else _) = Ok _ |- _ => ok_step Hm
  | u : unit |- _ => destruct u
  end. simplify_eq.
  split_and!; [by apply Z.ltb_ge|by apply validate_emission_Ok|by apply negb_false_iff| |done|].
  - eexists. split; [done|]. split; by apply Z.ltb_ge.
  - match goal with Hb : negb (bool_decide (h_merkle_root _ = _)) = false |- _ =>
      apply negb_false_iff, bool_decide_eq_true in Hb as -> end. done.
Qed.

(** ** The wire format *)

Lemma wf_block_encodable b : w_wf wire_block b -> block_encodable b = true.
Proof.
  intros (_ & _ & _ & _ & Hops). unfold block_encodable. apply forallb_forall.
  intros o Ho%list_elem_of_In. eapply Forall_forall in Hops as [Hw _]; [|exact Ho].
  by apply wf_encodable.
Qed.

(** (C30) Blocks have one wire form: a byte string decodes to a block exactly
    when the block's fields are in range, it passes structural validation and
    the bytes are its canonical encoding.  Decoding so never accepts two byte
    strings for one block, nor a block that validation refuses, and every
    valid block decodes back from its bytes. *)
Theorem block_wire_exact `{Sha3} bytes b :
  bytes_wf bytes ->
  decode_block bytes = Ok b <->
  w_wf wire_block b /\ block_validate b = Ok tt /\ block_bytes b = Ok bytes.
Proof.
  intros Hb. unfold decode_block. split.
  - intros Hd. unfold guard_err in Hd. case_match; [done|].
    destruct (w_slice wire_block bytes) as [b'|] eqn:Hs; cbn [ok_or mbind result_mbind] in Hd; [|done].
    destruct (block_validate b') as [[]|] eqn:Hv; cbn [map_err mbind result_mbind] in Hd; [|done].
    injection Hd as <-. apply w_slice_Some in Hs as [Hw ->]; [|done].
    unfold block_bytes. by rewrite wf_block_encodable.
  - intros (Hw & Hv & Hbytes). destruct (block_validate_Ok b Hv) as (_ & _ & _ & (bytes' & Hb' & Hl) & _).
    assert (bytes' = bytes) as -> by congruence. unfold guard_err.
    rewrite (proj2 (Z.ltb_ge _ _)) by lia. rewrite (proj2 (w_slice_Some wire_block bytes b Hb)).
    + cbn [ok_or mbind result_mbind]. by rewrite Hv.
    + split; [done|]. unfold block_bytes in Hbytes. rewrite wf_block_encodable in Hbytes by done.
      congruence.
Qed.

(** ** The block hash commits to the body *)

(** The hash expression of a Merkle root. *)
Inductive tree := Leaf (h : Hash) | Node (l r : tree).

Fixpoint flatten (t : tree) : list Hash :=
  match t with Leaf h => [h] | Node l r => flatten l ++ flatten r end.

Fixpoint tree_parents (level : list tree) : list tree :=
  match level with
  | l :: r :: rest => Node l r :: tree_parents rest
  | [last] => [last]
  | [] => []
  end.

Section commitment.
Context `{Sha3}.

Fixpoint tree_hash (t : tree) : Hash :=
  match t with Leaf h => h | Node l r => merkle_parent (tree_hash l) (tree_hash r) MerkleNode end.

(** The strings hashed on the way from the leaves to the root, by the code's
    levels and by the tree. *)
Fixpoint level_inputs (level : list Hash) : list (list Z) :=
  match level with
  | l :: r :: rest => domain_preimage MerkleNode (l ++ r) :: level_inputs rest
  | _ => []
  end.

Fixpoint merkle_inputs (fuel : nat) (level : list Hash) : list (list Z) :=
  match fuel with
  | O => []
  | S fuel =>
      if (1 <? length level)%nat
      then level_inputs level ++ merkle_inputs fuel (merkle_parent_level level MerkleNode) else []
  end.

Fixpoint tree_inputs (t : tree) : list (list Z) :=
  match t with
  | Leaf _ => []
  | Node l r => domain_preimage MerkleNode (tree_hash l ++ tree_hash r) :: tree_inputs l ++ tree_inputs r
  end.

(** Two elements at a time. *)
Lemma pairs_ind {A} (P : list A -> Prop) :
  P [] -> (forall x, P [x]) -> (forall x y l, P l -> P (x :: y :: l)) -> forall l, P l.
Proof.
  intros H0 H1 H2. fix IH 1. intros [|x [|y l]]; [exact H0|apply H1|]. apply H2, IH.
Qed.

Lemma tree_parents_hash ts :
  merkle_parent_level (tree_hash <$> ts) MerkleNode = tree_hash <$> tree_parents ts.
Proof. induction ts as [| |x y l IH] using pairs_ind; [done|done|]. cbn in *. by rewrite IH. Qed.

Lemma tree_parents_flatten ts :
  concat (flatten <$> tree_parents ts) = concat (flatten <$> ts).
Proof.
  induction ts as [| |x y l IH] using pairs_ind; [done|done|]. cbn in *. by rewrite IH, app_assoc.
Qed.

Lemma tree_parents_inputs ts :
  concat (tree_inputs <$> tree_parents ts) ⊆ level_inputs (tree_hash <$> ts) ++ concat (tree_inputs <$> ts).
Proof.
  induction ts as [| |x y l IH] using pairs_ind; [done|set_solver|]. cbn in *.
  intros z Hz. specialize (IH z). set_solver.
Qed.

Lemma tree_levels fuel ts :
  exists ts', merkle_levels fuel (tree_hash <$> ts) MerkleNode = tree_hash <$> ts' /\
    concat (flatten <$> ts') = concat (flatten <$> ts) /\
    concat (tree_inputs <$> ts') ⊆ merkle_inputs fuel (tree_hash <$> ts) ++ concat (tree_inputs <$> ts).
Proof.
  revert ts. induction fuel as [|fuel IH]; intros ts; cbn [merkle_levels merkle_inputs]; [by exists ts|].
  case_match; [|by exists ts]. rewrite tree_parents_hash.
  destruct (IH (tree_parents ts)) as (ts' & -> & Hf & Hi). exists ts'. rewrite Hf, tree_parents_flatten.
  split_and!; [done|done|]. pose proof (tree_parents_inputs ts). set_solver.
Qed.

Lemma root_tree leaves root :
  Z.of_nat (length leaves) < 2 ^ 32 -> merkle_root leaves MerkleNode = Some root ->
  exists t, flatten t = leaves /\ tree_hash t = root /\ tree_inputs t ⊆ merkle_inputs MERKLE_FUEL leaves.
Proof.
  intros Hlen Hr. unfold merkle_root in Hr. destruct leaves as [|h rest] eqn:Hl; [done|].
  rewrite <- Hl in *.
  assert (leaves = tree_hash <$> (Leaf <$> leaves)) as Heq.
  { rewrite <- list_fmap_compose. symmetry. apply list_fmap_id. }
  destruct (tree_levels MERKLE_FUEL (Leaf <$> leaves)) as (ts & Hts & Hf & Hi).
  rewrite <- Heq in Hts, Hi.
  assert (length (merkle_levels MERKLE_FUEL leaves MerkleNode) = 1%nat) as H1.
  { apply merkle_levels_single. split; [rewrite Hl; cbn; lia|].
    apply Nat2Z.inj_le. rewrite Nat2Z.inj_pow. unfold MERKLE_FUEL.
    change (Z.of_nat 2 ^ Z.of_nat 64) with (2 ^ 64). lia. }
  rewrite Hts in Hr, H1. rewrite length_fmap in H1. destruct ts as [|t [|]]; try done.
  exists t. cbn in Hr, Hf. rewrite app_nil_r in Hf. injection Hr as <-. split_and!; [|done|].
  - rewrite Hf. clear. induction leaves as [|h l IH]; [done|]. cbn. by rewrite IH.
  - assert (concat (tree_inputs <$> (Leaf <$> leaves)) = []) as Hnil
      by (clear; by induction leaves).
    rewrite Hnil in Hi. cbn [fmap list_fmap concat] in Hi. by rewrite !app_nil_r in Hi.
Qed.

(** A leaf is the hash of a short payload in a domain that is not the tree's;
    [X] holds the string that was hashed. *)
Definition leaf_hash (X : list (list Z)) (h : Hash) : Prop :=
  exists d x, d <> MerkleNode /\ Z.of_nat (length x) < 2 ^ 40 /\ h = domain d x /\ domain_preimage d x ∈ X.

Context `{!Sha3Spec}.

Lemma length_domain d x : length (domain d x) = HASH_SIZE.
Proof. apply sha3_wf. Qed.

Lemma length_tree_hash X t : Forall (leaf_hash X) (flatten t) -> length (tree_hash t) = HASH_SIZE.
Proof.
  destruct t as [h|l r]; cbn.
  - intros (d & x & _ & _ & -> & _)%Forall_singleton. apply length_domain.
  - intros _. apply length_domain.
Qed.

(** A leaf is no inner node, unless two of the hashed strings collide. *)
Lemma leaf_node_collides X Y h l r :
  leaf_hash X h -> Forall (leaf_hash Y) (flatten (Node l r)) -> tree_inputs (Node l r) ⊆ Y ->
  h = tree_hash (Node l r) -> collides X Y /\ collides Y X.
Proof.
  intros (d & x & Hd & Hx & -> & HX) [Hl Hr]%Forall_app Hin Heq. cbn [tree_hash tree_inputs] in *.
  set (y := tree_hash l ++ tree_hash r) in *.
  assert (domain_preimage d x <> domain_preimage MerkleNode y) as Hne.
  { apply tags_differ_preimage; [lia| |by apply all_tags_differ].
    subst y. rewrite length_app, !(length_tree_hash Y) by done. done. }
  assert (domain_preimage MerkleNode y ∈ Y) as HY by (apply Hin; by left).
  split; [by exists (domain_preimage d x), (domain_preimage MerkleNode y)|].
  by exists (domain_preimage MerkleNode y), (domain_preimage d x).
Qed.

Lemma tree_hash_inj X Y t1 t2 :
  Forall (leaf_hash X) (flatten t1) -> Forall (leaf_hash Y) (flatten t2) ->
  tree_inputs t1 ⊆ X -> tree_inputs t2 ⊆ Y ->
  tree_hash t1 = tree_hash t2 -> t1 = t2 \/ collides X Y.
Proof.
  revert t2. induction t1 as [h|l1 IHl r1 IHr]; intros [k|l2 r2] H1 H2 I1 I2 Heq.
  - left. cbn in Heq. by f_equal.
  - right. cbn [flatten] in H1. rewrite Forall_singleton in H1. exact (proj1 (leaf_node_collides X Y _ _ _ H1 H2 I2 Heq)).
  - right. cbn [flatten] in H2. rewrite Forall_singleton in H2. symmetry in Heq. exact (proj2 (leaf_node_collides Y X _ _ _ H2 H1 I1 Heq)).
  - cbn [flatten tree_inputs tree_hash] in *. apply Forall_app in H1 as [Hl1 Hr1]. apply Forall_app in H2 as [Hl2 Hr2].
    destruct (domain_collides _ _ _ X Y Heq) as [Happ|]; [apply I1; by left|apply I2; by left| |by right].
    apply app_inj_1 in Happ as [Hle Hre]; [|by rewrite (length_tree_hash X), (length_tree_hash Y)].
    destruct (IHl l2) as [->|]; [done|done|set_solver|set_solver|done| |by right].
    destruct (IHr r2) as [->|]; [done|done|set_solver|set_solver|done|by left|by right].
Qed.

(** Equal roots have equal leaves. *)
Lemma merkle_root_binds X Y leaves1 leaves2 root :
  Forall (leaf_hash X) leaves1 -> Forall (leaf_hash Y) leaves2 ->
  Z.of_nat (length leaves1) < 2 ^ 32 -> Z.of_nat (length leaves2) < 2 ^ 32 ->
  merkle_inputs MERKLE_FUEL leaves1 ⊆ X -> merkle_inputs MERKLE_FUEL leaves2 ⊆ Y ->
  merkle_root leaves1 MerkleNode = Some root -> merkle_root leaves2 MerkleNode = Some root ->
  leaves1 = leaves2 \/ collides X Y.
Proof.
  intros H1 H2 Hl1 Hl2 I1 I2 Hr1 Hr2.
  apply root_tree in Hr1 as (t1 & <- & <- & T1); [|done]. apply root_tree in Hr2 as (t2 & <- & Ht & T2); [|done].
  symmetry in Ht. apply (tree_hash_inj X Y) in Ht as [->|];
    [by left|by right|exact H1|exact H2|intros z Hz; exact (I1 z (T1 z Hz))|intros z Hz; exact (I2 z (T2 z Hz))].
Qed.

(** An operation as it stands in a block: well formed and of bounded size. *)
Definition operation_wf (o : BlockOperation) : Prop :=
  w_wf (wire_limited (Z.to_nat MAX_OPERATION_SIZE) wire_operation) o.

Lemma operation_id_enc o :
  operation_wf o -> operation_id o = Ok (domain Operation (w_enc wire_operation o)).
Proof. intros [Hw _]. unfold operation_id, operation_bytes. by rewrite wf_encodable. Qed.

Lemma operation_ids_enc ops :
  Forall operation_wf ops ->
  operation_ids ops = Ok ((fun o => domain Operation (w_enc wire_operation o)) <$> ops).
Proof.
  induction 1 as [|o ops Ho _ IH]; [done|]. cbn [operation_ids]. by rewrite operation_id_enc, IH.
Qed.

(** Every string that is hashed for the hash of a block and its commitment. *)
Definition operation_inputs (ops : list BlockOperation) : list (list Z) :=
  (fun o => domain_preimage Operation (w_enc wire_operation o)) <$> ops.

Definition block_inputs (b : Block) : list (list Z) :=
  domain_preimage HeaderDomain (w_enc wire_header (header b))
  :: (match b_emission (body b) with
      | Some e => [domain_preimage EmissionDomain (w_enc wire_emission e)]
      | None => []
      end ++ operation_inputs (b_operations (body b)))
  ++ match merkle_leaves (b_emission (body b)) (b_operations (body b)) with
     | Ok leaves => merkle_inputs MERKLE_FUEL leaves
     | Err _ => []
     end.

Lemma operation_leaf X o :
  operation_wf o -> domain_preimage Operation (w_enc wire_operation o) ∈ X ->
  leaf_hash X (domain Operation (w_enc wire_operation o)).
Proof.
  intros [_ Hl] HX. eexists Operation, _. split_and!; [done| |done|done].
  apply inj_le in Hl. rewrite Z2Nat.id in Hl by (unfold MAX_OPERATION_SIZE, MAX_BLOCK_SIZE; lia). unfold MAX_OPERATION_SIZE, MAX_BLOCK_SIZE in Hl.
  cbn [w_enc wire_limited] in *. lia.
Qed.

Lemma emission_leaf X e :
  w_wf wire_emission e -> domain_preimage EmissionDomain (w_enc wire_emission e) ∈ X ->
  leaf_hash X (emission_hash e).
Proof.
  intros [[Hl _] _] HX. eexists EmissionDomain, _. split_and!; [done| |done|done].
  change (w_enc wire_emission e) with (em_to e ++ le_bytes 8 (em_subsidy e)).
  rewrite length_app, length_le_bytes. change (length (em_to e) = HASH_SIZE) in Hl. by rewrite Hl.
Qed.

Lemma validated_body b :
  w_wf wire_block b -> block_validate b = Ok tt -> is_genesis b = false ->
  exists e, b_emission (body b) = Some e /\ w_wf wire_emission e /\
    Forall operation_wf (b_operations (body b)) /\
    Z.of_nat (length (b_operations (body b))) <= MAX_BLOCK_OPERATIONS /\
    merkle_root (emission_hash e
      :: ((fun o => domain Operation (w_enc wire_operation o)) <$> b_operations (body b))) MerkleNode
    = Some (h_merkle_root (header b)).
Proof.
  intros (_ & _ & He & Hlen & Hops) Hv Hg. cbn [w_wf fst snd] in *.
  apply block_validate_Ok in Hv as (_ & Hem & _ & _ & _ & Hr). rewrite Hg in Hem.
  destruct Hem as [e Hem]. rewrite Hem in *. exists e.
  split_and!; [done|exact He|exact Hops|exact Hlen|].
  unfold calculate_merkle_root, merkle_leaves in Hr. rewrite operation_ids_enc in Hr by done.
  cbn [mbind result_mbind] in Hr. by apply ok_or_Ok in Hr.
Qed.

(** The leaves of a validated block, with the strings hashed for them. *)
Lemma body_leaves b e :
  b_emission (body b) = Some e -> w_wf wire_emission e -> Forall operation_wf (b_operations (body b)) ->
  Z.of_nat (length (b_operations (body b))) <= MAX_BLOCK_OPERATIONS ->
  let leaves :=
    emission_hash e :: ((fun o => domain Operation (w_enc wire_operation o)) <$> b_operations (body b)) in
  Forall (leaf_hash (block_inputs b)) leaves /\ Z.of_nat (length leaves) < 2 ^ 32 /\
  merkle_inputs MERKLE_FUEL leaves ⊆ block_inputs b.
Proof.
  intros Hem He Ho Hl leaves. split_and!.
  - constructor.
    + apply emission_leaf; [done|]. unfold block_inputs. rewrite Hem. right. by left.
    + apply Forall_fmap, Forall_forall. intros o Hin. rewrite Forall_forall in Ho.
      apply operation_leaf; [by apply Ho|]. unfold block_inputs. right.
      apply elem_of_app. left. apply elem_of_app. right.
      apply list_elem_of_fmap. by exists o.
  - unfold leaves, MAX_BLOCK_OPERATIONS in *. cbn [length]. rewrite length_fmap. lia.
  - unfold block_inputs, merkle_leaves. rewrite operation_ids_enc, Hem by done. cbn [mbind result_mbind].
    intros x Hx. right. apply elem_of_app. by right.
Qed.

Lemma operations_inj X Y ops1 ops2 :
  Forall operation_wf ops1 -> Forall operation_wf ops2 ->
  operation_inputs ops1 ⊆ X -> operation_inputs ops2 ⊆ Y ->
  (fun o => domain Operation (w_enc wire_operation o)) <$> ops1
  = (fun o => domain Operation (w_enc wire_operation o)) <$> ops2 ->
  ops1 = ops2 \/ collides X Y.
Proof.
  intros H1. revert ops2. induction H1 as [|o1 ops1 Ho1 _ IH]; intros [|o2 ops2] H2 I1 I2 Heq; try done.
  { by left. }
  apply Forall_cons in H2 as [Ho2 H2]. injection Heq as Hd Heq. unfold operation_inputs in *. cbn [fmap list_fmap] in *.
  destruct (domain_collides _ _ _ X Y Hd) as [Hb|]; [apply I1; by left|apply I2; by left| |by right].
  apply (w_inj wire_operation) in Hb as ->; [|apply Ho1|apply Ho2].
  destruct (IH ops2 H2) as [->|]; [by intros z Hz; apply I1; right|by intros z Hz; apply I2; right|done|by left|by right].
Qed.

(** (C31) The block hash commits to the whole block but its height: two
    structurally valid blocks after genesis with the same hash have the same
    header, the same emission and the same operations in the same order, or two
    of the strings that were hashed for them, one for each block, are different
    and have the same digest.  The tree's promotion of odd nodes opens no second
    body, as leaves and inner nodes are hashed in separate domains. *)
Theorem block_hash_binds b1 b2 :
  w_wf wire_block b1 -> w_wf wire_block b2 ->
  block_validate b1 = Ok tt -> block_validate b2 = Ok tt ->
  is_genesis b1 = false -> is_genesis b2 = false ->
  block_hash b1 = block_hash b2 ->
  (header b1 = header b2 /\ body b1 = body b2) \/ collides (block_inputs b1) (block_inputs b2).
Proof.
  intros Hw1 Hw2 Hv1 Hv2 Hg1 Hg2 Hh.
  destruct (domain_collides _ _ _ (block_inputs b1) (block_inputs b2) Hh) as [He|]; [by left|by left| |by right].
  apply (w_inj wire_header) in He; [|apply Hw1|apply Hw2].
  destruct (validated_body b1 Hw1 Hv1 Hg1) as (e1 & He1 & Hwe1 & Ho1 & Hl1 & Hr1).
  destruct (validated_body b2 Hw2 Hv2 Hg2) as (e2 & He2 & Hwe2 & Ho2 & Hl2 & Hr2).
  rewrite <- He in Hr2.
  destruct (body_leaves b1 e1 He1 Hwe1 Ho1 Hl1) as (HL1 & Hn1 & HM1).
  destruct (body_leaves b2 e2 He2 Hwe2 Ho2 Hl2) as (HL2 & Hn2 & HM2).
  destruct (merkle_root_binds _ _ _ _ _ HL1 HL2 Hn1 Hn2 HM1 HM2 Hr1 Hr2) as [Heq|]; [|by right].
  injection Heq as Hem Hops.
  destruct (domain_collides _ _ _ (block_inputs b1) (block_inputs b2) Hem) as [Hem'|];
    [unfold block_inputs; rewrite ?He1, ?He2; right; by left..| |by right].
  apply (w_inj wire_emission) in Hem'; [|done|done].
  apply (operations_inj (block_inputs b1) (block_inputs b2)) in Hops as [Hops|]; [|by right|done|done|..].
  2, 3: intros z Hz; right; apply elem_of_app; left; apply elem_of_app; by right.
  left. split; [done|]. destruct (body b1), (body b2). cbn in *. congruence.
Qed.
End commitment.

(** ** Built blocks carry their commitments *)

Lemma weight_field_width b w : w_enc wire_block (with_weight b w)
  = previous_hash (header b) ++ h_merkle_root (header b) ++ h_state_root (header b)
    ++ le_bytes 4 (target_bits (header b)) ++ le_bytes 4 w ++ le_bytes 8 (h_nonce (header b))
    ++ le_bytes 8 (height b) ++ w_enc (wire_option wire_emission) (b_emission (body b))
    ++ w_enc wire_operations (b_operations (body b)).
Proof. cbn [w_enc wire_block wire_struct wire_convert wire_pair wire_dep]. cbn. by rewrite <- !app_assoc. Qed.

Lemma block_size_weight b w w' : block_size (with_weight b w) = block_size (with_weight b w').
Proof.
  unfold block_size, block_bytes. change (block_encodable (with_weight b w)) with (block_encodable b).
  change (block_encodable (with_weight b w')) with (block_encodable b).
  destruct (block_encodable b); [|done]. cbn [mbind result_mbind].
  by rewrite !weight_field_width, !length_app, !length_le_bytes.
Qed.

Lemma refresh_block_weight_Ok b b' :
  refresh_block_weight b = Ok b' ->
  exists w, b' = with_weight b w /\ block_size b' = Ok w /\ 0 <= w < 2 ^ 32.
Proof.
  unfold refresh_block_weight. intros Hr.
  destruct (block_size (with_weight b 0)) as [w|] eqn:Hs; cbn [mbind result_mbind] in Hr; [|done].
  assert (0 <= w) as Hw.
  { unfold block_size in Hs. destruct (block_bytes _); cbn in Hs; [|done]. injection Hs as <-. lia. }
  unfold try_from in Hr. destruct (Z.ltb_spec w (2 ^ 32)); cbn [ok_or mbind result_mbind] in Hr; [|done].
  injection Hr as <-. exists w. split_and!; [done| |lia|lia].
  by rewrite <- Hs, (block_size_weight (with_weight b 0) w 0).
Qed.

(** A block to which an operation was pushed, and every block the
    constructor builds, carries its commitments: the Merkle root of its body
    and a weight that is exactly its serialized size; nothing else of the
    header changes. *)
Theorem built_block_commits `{Sha3} :
  (forall b o b', push_operation b o = Ok b' ->
     b_operations (body b') = b_operations (body b) ++ [o] /\
     b_emission (body b') = b_emission (body b) /\ height b' = height b /\
     previous_hash (header b') = previous_hash (header b) /\
     block_size b' = Ok (block_weight (header b')) /\
     calculate_merkle_root (b_emission (body b')) (b_operations (body b'))
       = Ok (h_merkle_root (header b'))) /\
  (forall height0 previous bits nonce emission ops b,
     from_protocol_operations height0 previous bits nonce emission ops = Ok b ->
     body b = {| b_emission := emission; b_operations := ops |} /\ height b = height0 /\
     block_size b = Ok (block_weight (header b)) /\
     calculate_merkle_root emission ops = Ok (h_merkle_root (header b))).
Proof.
  split.
  - intros b o b' Hp. unfold push_operation, refresh_commitments in Hp. cbn [body b_emission b_operations] in Hp.
    ok_step Hp. apply refresh_block_weight_Ok in Hp as (w & -> & Hs & _). done.
  - intros h p bits n em ops b Hf. unfold from_protocol_operations in Hf. ok_step Hf.
    apply refresh_block_weight_Ok in Hf as (w & -> & Hs & _). done.
Qed.

(** ** Witnesses *)

Definition sample_block : Block :=
  match @from_protocol_operations toy_sha3 1 (replicate 32 4) TARGET_BITS_START 9
          (Some {| em_to := replicate 32 6; em_subsidy := 10 |}) [OpProgramCall sample_invocation] with
  | Ok b => b
  | Err _ => {| header := {| previous_hash := []; h_merkle_root := []; h_state_root := [];
                             target_bits := 0; block_weight := 0; h_nonce := 0 |};
                height := 0; body := {| b_emission := None; b_operations := [] |} |}
  end.

Definition block_bytes_of (b : Block) : list Z := w_enc wire_block b.

Lemma sample_block_valid : @block_validate toy_sha3 sample_block = Ok tt.
Proof. vm_compute. reflexivity. Qed.

Lemma sample_block_header :
  w_wf wire_header (header sample_block) /\ b_operations (body sample_block) = [OpProgramCall sample_invocation] /\
  b_emission (body sample_block) = Some {| em_to := replicate 32 6; em_subsidy := 10 |} /\
  height sample_block = 1.
Proof.
  split; [|vm_compute; by split_and!].
  assert (header sample_block = {| previous_hash := replicate 32 4;
    h_merkle_root := h_merkle_root (header sample_block); h_state_root := replicate 32 0;
    target_bits := TARGET_BITS_START; block_weight := 8259; h_nonce := 9 |}) as Hh
    by (vm_compute; reflexivity).
  assert (hash_wf (h_merkle_root (header sample_block))) as Hr
    by (apply hash_wf_compute; vm_compute; reflexivity).
  revert Hh Hr. generalize (header sample_block). intros h -> Hr. cbn [h_merkle_root] in Hr.
  split; [by apply hash_wf_compute|]. split; [exact Hr|]. split; [by apply hash_wf_compute|].
  by split_and!.
Qed.

Lemma sample_block_wf : w_wf wire_block sample_block.
Proof.
  destruct sample_block_header as (Hh & Ho & He & Hn). split; [exact Hh|].
  cbn [fst snd]. rewrite Ho, He, Hn. clear. split; [by cbn|]. split.
  - split; [|done]. split; [done|by apply digits_compute].
  - split; [done|]. apply Forall_singleton. split; [apply sample_operation_wf|].
    apply Nat.leb_le. vm_compute. reflexivity.
Qed.

Lemma block_wire_exact_witness :
  @decode_block toy_sha3 (block_bytes_of sample_block) = Ok sample_block.
Proof.
  apply (@block_wire_exact toy_sha3 (block_bytes_of sample_block) sample_block).
  - apply digits_compute. vm_compute. reflexivity.
  - split; [exact sample_block_wf|]. split; [exact sample_block_valid|].
    unfold block_bytes, block_bytes_of. by rewrite (wf_block_encodable _ sample_block_wf).
Defined.

(** The same block on another parent: the example digest does not see it. *)
Definition sample_sibling : Block :=
  {| header := {| previous_hash := replicate 32 5; h_merkle_root := h_merkle_root (header sample_block);
                  h_state_root := h_state_root (header sample_block);
                  target_bits := target_bits (header sample_block);
                  block_weight := block_weight (header sample_block); h_nonce := h_nonce (header sample_block) |};
     height := height sample_block; body := body sample_block |}.

Lemma sample_sibling_wf : w_wf wire_block sample_sibling.
Proof.
  destruct sample_block_wf as [(Hp & Hrest) Hbody]. split; [split; [by apply hash_wf_compute|exact Hrest]|exact Hbody].
Qed.

Lemma block_hash_binds_witness :
  @block_hash toy_sha3 sample_block = @block_hash toy_sha3 sample_sibling /\
  @collides toy_sha3 (@block_inputs toy_sha3 sample_block) (@block_inputs toy_sha3 sample_sibling).
Proof.
  assert (@block_hash toy_sha3 sample_block = @block_hash toy_sha3 sample_sibling) as Hh
    by (vm_compute; reflexivity).
  split; [exact Hh|].
  destruct (@block_hash_binds toy_sha3 toy_sha3_spec sample_block sample_sibling sample_block_wf
    sample_sibling_wf sample_block_valid ltac:(vm_compute; reflexivity) eq_refl eq_refl Hh) as [[He _]|Hc].
  - apply (f_equal (fun h => head (previous_hash h))) in He. vm_compute in He. discriminate He.
  - exact Hc.
Defined.
