(* ===== verification/Chain.v ===== *)
(** * The canonical chain

    Models [kernel/src/blockchain/chain.rs]: headers and resident bodies by
    height, the tip, extension, removal of the tip, eviction of old bodies and
    their return.  Header hashing cannot fail, so neither does [remove_tip]
    after it has checked its argument. *)

From S2P Require Import Prelude Codec Monetary AssetAudit Registry Calls Wire Authorize Policy Block.
From stdpp Require Import sorting.
#[local] Open Scope Z_scope.

Record Chain := {
  headers : gmap Z Header;
  blocks : gmap Z Block;
  tip_height : option Z;
  tip_hash : option Hash;
}.

Definition chain_new : Chain :=
  {| headers := ∅; blocks := ∅; tip_height := None; tip_hash := None |}.

Inductive ChainError :=
| DuplicateBlock | InvalidHeight | InvalidParent | MissingBody | ChainSerialization (e : CodecError).

Definition has_blocks (self : Chain) : bool := bool_decide (is_Some (tip_height self)).

Definition validate_next_block (self : Chain) (block : Block) : result ChainError unit :=
  fail_if bool_decide (is_Some (headers self !! height block)) with DuplicateBlock;
  match tip_height self, tip_hash self with
  | None, None =>
      fail_if negb (height block =? 0)
              || negb (bool_decide (previous_hash (header block) = replicate HASH_SIZE 0))
        with InvalidHeight;
      Ok tt
  | Some tip_height, Some tip_hash =>
      fail_if negb (height block =? saturating_add 64 tip_height 1) with InvalidHeight;
      fail_if negb (bool_decide (previous_hash (header block) = tip_hash)) with InvalidParent;
      Ok tt
  | _, _ => Err InvalidParent
  end.

(** A BTreeMap's values from the highest key down. *)
Definition descending {V} (m : gmap Z V) : list (Z * V) :=
  rev (merge_sort (fun a b => Is_true (a.1 <=? b.1)) (map_to_list m)).

Section chain.
Context `{Sha3}.

Definition insert_block (block : Block) (self : Chain) : result ChainError Chain :=
  _ ← validate_next_block self block;
  Ok {| headers := <[height block := header block]> (headers self);
        blocks := <[height block := block]> (blocks self);
        tip_height := Some (height block); tip_hash := Some (block_hash block) |}.

(** The loop of [retain_recent_bodies], newest first: the heights to drop. *)
Fixpoint evict (tip : option Z) (max_bytes max_blocks bytes count : Z) (l : list (Z * Block))
    : result ChainError (list Z) :=
  match l with
  | [] => Ok []
  | (h, block) :: l =>
      size ← map_err ChainSerialization (block_size block);
      if ((h =? 0) || bool_decide (Some h = tip))
         || ((count <? max_blocks) && (size <=? saturating_sub max_bytes bytes))
      then evict tip max_bytes max_blocks (saturating_add 64 bytes size) (count + 1) l
      else remove ← evict tip max_bytes max_blocks bytes count l; Ok (h :: remove)
  end.

Definition retain_recent_bodies (max_bytes max_blocks : Z) (self : Chain)
    : result ChainError Chain :=
  remove ← evict (tip_height self) max_bytes max_blocks 0 0 (descending (blocks self));
  Ok {| headers := headers self; blocks := foldr delete (blocks self) remove;
        tip_height := tip_height self; tip_hash := tip_hash self |}.

Definition cache_known_block (block : Block) (self : Chain) : result ChainError Chain :=
  fail_if negb (bool_decide (headers self !! height block = Some (header block))) with InvalidParent;
  _ ← map_err (fun _ => InvalidParent) (block_validate block);
  Ok {| headers := headers self; blocks := <[height block := block]> (blocks self);
        tip_height := tip_height self; tip_hash := tip_hash self |}.

Definition remove_tip (expected_hash : Hash) (self : Chain) : result ChainError (Block * Chain) :=
  fail_if negb (bool_decide (tip_hash self = Some expected_hash)) with InvalidParent;
  h ← ok_or (tip_height self) InvalidHeight;
  block ← ok_or (blocks self !! h) MissingBody;
  let headers := delete h (headers self) in
  let previous_height := checked_sub h 1 in
  Ok (block,
      {| headers := headers; blocks := delete h (blocks self); tip_height := previous_height;
         tip_hash := block_header_hash <$> (previous_height ≫= fun p => headers !! p) |}).

(** ** The chain as a list of headers *)

(** Every header names the hash of the one before; the first names zero. *)
Definition linked (hs : list Header) : Prop :=
  forall i h, hs !! i = Some h ->
    previous_hash h = match i with
                      | O => replicate HASH_SIZE 0
                      | S j => from_option block_header_hash [] (hs !! j)
                      end.

(** The chain holds exactly these headers, genesis first; its tip is the last,
    and every resident body is the body of its header. *)
Record chain_of (hs : list Header) (c : Chain) : Prop := {
  co_linked : linked hs;
  co_length : Z.of_nat (length hs) <= 2 ^ 64;
  co_headers : forall z h, headers c !! z = Some h <-> 0 <= z /\ hs !! Z.to_nat z = Some h;
  co_bodies : forall z b, blocks c !! z = Some b -> height b = z /\ headers c !! z = Some (header b);
  co_tip : tip_height c = checked_sub (Z.of_nat (length hs)) 1;
  co_tip_hash : tip_hash c = block_header_hash <$> last hs;
}.

(** What extends a list of headers: the next height, and the tip as parent. *)
Definition extends (hs : list Header) (b : Block) : Prop :=
  height b = Z.of_nat (length hs) /\ height b < 2 ^ 64 /\
  previous_hash (header b)
  = match last hs with Some h => block_header_hash h | None => replicate HASH_SIZE 0 end.

Lemma chain_of_new : chain_of [] chain_new.
Proof.
  split; cbn; try done.
  - intros z h. rewrite lookup_empty. naive_solver.
Qed.

Lemma chain_of_tip hs c :
  chain_of hs c ->
  match last hs with
  | None => hs = [] /\ tip_height c = None /\ tip_hash c = None
  | Some h => tip_height c = Some (Z.of_nat (length hs) - 1) /\ tip_hash c = Some (block_header_hash h)
  end.
Proof.
  intros []. rewrite co_tip_hash0, co_tip0. destruct (last hs) as [h|] eqn:Hl; cbn.
  - split; [|done]. apply checked_sub_Some. split; [done|]. destruct hs; [done|]. cbn. lia.
  - apply last_None in Hl as ->. done.
Qed.

Lemma chain_of_header hs c z : chain_of hs c ->
  is_Some (headers c !! z) <-> 0 <= z < Z.of_nat (length hs).
Proof.
  intros []. split.
  - intros [h [Hz Hh%lookup_lt_Some]%co_headers0]. lia.
  - intros [Hz Hl]. destruct (lookup_lt_is_Some_2 hs (Z.to_nat z)) as [h Hh]; [lia|].
    exists h. by apply co_headers0.
Qed.

Lemma validate_next_spec hs c b :
  chain_of hs c -> 0 <= height b ->
  validate_next_block c b = Ok tt <-> extends hs b.
Proof.
  intros Hc Hb. pose proof (chain_of_tip _ _ Hc) as Ht. pose proof (co_length _ _ Hc) as Hlen.
  unfold validate_next_block, extends, guard_err.
  destruct (last hs) as [h|] eqn:Hl.
  - destruct Ht as [-> ->]. case_bool_decide as Hdup.
    + split; [done|]. apply (chain_of_header hs) in Hdup; [|done]. intros (He & _). lia.
    + rewrite (chain_of_header hs) in Hdup by done. unfold saturating_add.
      destruct (Z.eqb_spec (height b) (Z.min (Z.of_nat (length hs) - 1 + 1) (2 ^ 64 - 1))) as [He|He];
        cbn [negb].
      * case_bool_decide as Hp; cbn; [|naive_solver]. split; [|done]. intros _.
        split_and!; [|lia|done]. lia.
      * split; [done|]. intros (He' & ? & _). lia.
  - destruct Ht as (-> & -> & ->). case_bool_decide as Hdup.
    + apply (chain_of_header []) in Hdup; [|done]. cbn in Hdup. lia.
    + cbn [length]. destruct (Z.eqb_spec (height b) 0) as [->|]; cbn; [|naive_solver].
      case_bool_decide; cbn; naive_solver.
Qed.

Lemma linked_snoc hs b : linked hs -> extends hs b -> linked (hs ++ [header b]).
Proof.
  intros Hl (_ & _ & Hp) i h Hi. apply lookup_app_Some in Hi as [Hi|[Hi Hh]].
  - rewrite (Hl i h Hi). destruct i as [|j]; [done|]. rewrite lookup_app_l; [done|].
    apply lookup_lt_Some in Hi. lia.
  - apply list_lookup_singleton_Some in Hh as [Hi' <-]. rewrite Hp.
    assert (i = length hs) as -> by lia. rewrite last_lookup.
    destruct (length hs) as [|n] eqn:Hn; [by apply nil_length_inv in Hn as ->|]. cbn [Nat.pred].
    rewrite lookup_app_l by lia. destruct (lookup_lt_is_Some_2 hs n) as [x Hx]; [lia|]. by rewrite Hx.
Qed.

Lemma linked_prefix hs h : linked (hs ++ [h]) -> linked hs.
Proof.
  intros Hl i x Hi. pose proof (lookup_lt_Some _ _ _ Hi) as Hlt.
  rewrite (Hl i x); [|by apply lookup_app_l_Some]. destruct i as [|j]; [done|].
  by rewrite lookup_app_l by lia.
Qed.

Lemma insert_block_chain hs c b c' :
  chain_of hs c -> 0 <= height b -> insert_block b c = Ok c' ->
  extends hs b /\ chain_of (hs ++ [header b]) c'.
Proof.
  intros Hc Hb Hi. unfold insert_block in Hi.
  destruct (validate_next_block c b) as [[]|] eqn:Hv; cbn [mbind result_mbind] in Hi; [|done].
  injection Hi as <-. apply (validate_next_spec hs) in Hv; [|done|done]. split; [done|].
  pose proof Hv as (Hh & Hlt & _). pose proof Hc as []. split; cbn.
  - by apply linked_snoc.
  - rewrite length_app. cbn. lia.
  - intros z h. rewrite lookup_insert_Some, co_headers0, lookup_snoc_Some. split.
    + intros [[<- <-]|[Hne [Hz Hl]]]; [split; [done|]; right; split; [lia|done]|].
      apply lookup_lt_Some in Hl as Hl'. split; [done|]. by left.
    + intros [Hz [[Hl Hx]|[Hl ->]]]; [right|left; split; [lia|done]]. split; [|done].
      intros He. lia.
  - intros z x. rewrite !lookup_insert_Some. intros [[<- <-]|[Hne Hx]]; [split; [done|by left]|].
    apply co_bodies0 in Hx as [? ?]. split; [done|]. by right.
  - rewrite length_app. cbn. symmetry. apply checked_sub_Some. lia.
  - by rewrite last_snoc.
Qed.

Lemma remove_tip_chain hs c e b c' :
  chain_of hs c -> remove_tip e c = Ok (b, c') ->
  exists hs', hs = hs' ++ [header b] /\ e = block_hash b /\ chain_of hs' c'.
Proof.
  intros Hc Hr. pose proof (chain_of_tip _ _ Hc) as Ht. unfold remove_tip, guard_err in Hr.
  case_bool_decide as He; cbn [negb] in Hr; [|done].
  destruct (last hs) as [h|] eqn:Hl; [|destruct Ht as (_ & _ & Ht); congruence].
  destruct Ht as [Hth Htip]. rewrite Hth in Hr. cbn [ok_or mbind result_mbind] in Hr.
  destruct (blocks c !! _) as [b'|] eqn:Hb; cbn [ok_or mbind result_mbind] in Hr; [|done].
  injection Hr as <- <-. apply last_Some in Hl as [hs' ->]. exists hs'.
  rewrite length_app in *. cbn [length] in *.
  replace (Z.of_nat (length hs' + 1) - 1) with (Z.of_nat (length hs')) in * by lia.
  pose proof Hc as []. pose proof (co_bodies0 _ _ Hb) as [_ Hhb].
  apply co_headers0 in Hhb as [_ Hhb]. rewrite Nat2Z.id, list_lookup_middle in Hhb by done.
  injection Hhb as ->. split; [done|]. split; [unfold block_hash; congruence|].
  rewrite length_app in co_length0. cbn in co_length0.
  assert (forall z h, delete (Z.of_nat (length hs')) (headers c) !! z = Some h
    <-> 0 <= z /\ hs' !! Z.to_nat z = Some h) as Hhd.
  { intros z h. rewrite lookup_delete_Some, co_headers0, lookup_snoc_Some. split.
    - intros (Hne & Hz & [[_ Hx]|[Hx _]]); [done|lia].
    - intros [Hz Hx]. pose proof (lookup_lt_Some _ _ _ Hx). split; [lia|]. auto. }
  split; cbn.
  - by eapply linked_prefix.
  - lia.
  - exact Hhd.
  - intros z x [Hne Hx]%lookup_delete_Some. rewrite lookup_delete_ne by done. by apply co_bodies0.
  - done.
  - rewrite last_lookup. destruct (decide (hs' = [])) as [->|Hne]; [done|].
    assert (0 < length hs')%nat by (destruct hs'; [done|cbn; lia]).
    rewrite (proj2 (checked_sub_Some _ _ (Z.of_nat (pred (length hs'))))) by lia.
    cbn [mbind option_bind]. f_equal. apply option_eq. intros x. rewrite Hhd, Nat2Z.id. naive_solver lia.
Qed.

Lemma foldr_delete_lookup {V} (m : gmap Z V) l z :
  foldr delete m l !! z = if decide (z ∈ l) then None else m !! z.
Proof.
  induction l as [|x l IH]; cbn [foldr]; [by rewrite decide_False by (by apply not_elem_of_nil)|].
  destruct (decide (z = x)) as [->|Hne].
  - by rewrite lookup_delete_eq, decide_True by left.
  - rewrite lookup_delete_ne by done. rewrite IH. destruct (decide (z ∈ l)).
    + by rewrite decide_True by (by right).
    + by rewrite decide_False by set_solver.
Qed.

(** Dropping bodies, or adding one of a known header, keeps the chain. *)
Lemma chain_of_bodies hs c bs :
  chain_of hs c ->
  (forall z b, bs !! z = Some b -> height b = z /\ headers c !! z = Some (header b)) ->
  chain_of hs {| headers := headers c; blocks := bs; tip_height := tip_height c;
                 tip_hash := tip_hash c |}.
Proof. intros [] Hb. by split. Qed.

Lemma retain_chain hs c max_bytes max_blocks c' :
  chain_of hs c -> retain_recent_bodies max_bytes max_blocks c = Ok c' -> chain_of hs c'.
Proof.
  intros Hc Hr. unfold retain_recent_bodies in Hr. ok_step Hr. injection Hr as <-.
  apply chain_of_bodies; [done|]. intros z b. rewrite foldr_delete_lookup.
  case_decide; [done|]. apply (co_bodies _ _ Hc).
Qed.

Lemma cache_chain hs c b c' :
  chain_of hs c -> cache_known_block b c = Ok c' -> chain_of hs c'.
Proof.
  intros Hc Hr. unfold cache_known_block, guard_err in Hr. case_bool_decide as Hh; cbn [negb] in Hr; [|done].
  ok_step Hr. injection Hr as <-. apply chain_of_bodies; [done|].
  intros z x [[<- <-]|[_ Hx]]%lookup_insert_Some; [done|]. by apply (co_bodies _ _ Hc).
Qed.

Lemma insert_remove hs c b c' :
  chain_of hs c -> 0 <= height b -> insert_block b c = Ok c' ->
  remove_tip (block_hash b) c' = Ok (b, c).
Proof.
  intros Hc Hb Hi. pose proof (insert_block_chain _ _ _ _ Hc Hb Hi) as [(Hh & _ & _) _].
  pose proof (chain_of_tip _ _ Hc) as Ht.
  unfold insert_block in Hi. destruct (validate_next_block c b); cbn [mbind result_mbind] in Hi; [|done].
  injection Hi as <-. unfold remove_tip, guard_err.
  cbn [headers blocks tip_height tip_hash]. rewrite bool_decide_eq_true_2 by done.
  cbn [negb ok_or mbind result_mbind]. rewrite lookup_insert_eq. cbn [ok_or mbind result_mbind].
  assert (headers c !! height b = None) as Hn.
  { apply eq_None_not_Some. rewrite (chain_of_header hs) by done. lia. }
  assert (blocks c !! height b = None) as Hnb.
  { destruct (blocks c !! height b) eqn:Hx; [|done]. apply (co_bodies _ _ Hc) in Hx as [_ Hx]. congruence. }
  rewrite !delete_insert_id by done.
  destruct c as [hd bl th ti]. cbn in *. do 3 f_equal.
  - pose proof (co_tip _ _ Hc) as Hct. cbn in Hct. by rewrite Hct, Hh.
  - pose proof (co_tip_hash _ _ Hc) as Hct. cbn in Hct. rewrite Hct. rewrite last_lookup, Hh.
    destruct (length hs) as [|n] eqn:Hlen; [by apply nil_length_inv in Hlen as ->|].
    rewrite (proj2 (checked_sub_Some _ _ (Z.of_nat n))) by lia. cbn [mbind option_bind Nat.pred].
    f_equal. apply option_eq. intros x. rewrite (co_headers _ _ Hc), Nat2Z.id. naive_solver lia.
Qed.

(** (C33) The chain is a list of linked headers, whatever bodies are resident: a
    block is accepted exactly when it has the next height and the tip's hash as
    parent, and then appends its header; removing the tip undoes exactly that;
    a removal only ever takes the last header, and evicting or restoring bodies
    does not change the list. *)
Theorem chain_refines_list hs c :
  chain_of hs c ->
  (forall b, 0 <= height b -> (exists c', insert_block b c = Ok c') <-> extends hs b) /\
  (forall b c', 0 <= height b -> insert_block b c = Ok c' ->
     chain_of (hs ++ [header b]) c' /\ remove_tip (block_hash b) c' = Ok (b, c)) /\
  (forall e b c', remove_tip e c = Ok (b, c') ->
     exists hs', hs = hs' ++ [header b] /\ e = block_hash b /\ chain_of hs' c') /\
  (forall max_bytes max_blocks c', retain_recent_bodies max_bytes max_blocks c = Ok c' ->
     chain_of hs c') /\
  (forall b c', cache_known_block b c = Ok c' -> chain_of hs c').
Proof.
  intros Hc. split_and!.
  - intros b Hb. rewrite <- (validate_next_spec hs c) by done. unfold insert_block.
    destruct (validate_next_block c b) as [[]|]; cbn; naive_solver.
  - intros b c' Hb Hi. split; [by eapply insert_block_chain|by eapply insert_remove].
  - intros e b c'. by apply remove_tip_chain.
  - intros mb mk c'. by apply retain_chain.
  - intros b c'. by apply cache_chain.
Qed.
End chain.

(** ** The body budget *)

Definition size_of (b : Block) : Z := match block_size b with Ok n => n | Err _ => 0 end.

Definition pinned (tip : option Z) (h : Z) : bool := (h =? 0) || bool_decide (Some h = tip).

(** The resident bodies that are neither genesis nor the tip. *)
Definition unpinned (tip : option Z) (remove : list Z) (l : list (Z * Block)) : list (Z * Block) :=
  filter (fun e => pinned tip e.1 = false /\ e.1 ∉ remove) l.

Lemma block_size_nonneg b n : block_size b = Ok n -> 0 <= n.
Proof. unfold block_size. destruct (block_bytes b); [|done]. intros [= <-]. lia. Qed.

Lemma unpinned_skip tip h remove l :
  h ∉ l.*1 -> unpinned tip (h :: remove) l = unpinned tip remove l.
Proof.
  intros Hh. unfold unpinned. induction l as [|[z b] l IH]; [done|].
  rewrite fmap_cons, not_elem_of_cons in Hh. destruct Hh as [Hne Hl]. cbn in Hne.
  rewrite !filter_cons, IH by done. cbn.
  repeat case_decide; [done|exfalso; set_solver..|done].
Qed.

Lemma evict_budget tip max_bytes max_blocks bytes count l remove :
  0 <= max_bytes < 2 ^ 64 -> 0 <= bytes < 2 ^ 64 -> 0 <= count -> NoDup l.*1 ->
  evict tip max_bytes max_blocks bytes count l = Ok remove ->
  (forall h, h ∈ remove -> h ∈ l.*1 /\ pinned tip h = false) /\
  zsum ((fun e => size_of e.2) <$> unpinned tip remove l) <= Z.max 0 (max_bytes - bytes) /\
  Z.of_nat (length (unpinned tip remove l)) <= Z.max 0 (max_blocks - count).
Proof.
  revert bytes count remove. induction l as [|[h b] l IH]; intros bytes count remove Hmb Hby Hco Hnd He;
    cbn [evict] in He.
  { injection He as <-. cbn. split_and!; [set_solver|lia|lia]. }
  rewrite fmap_cons in Hnd. apply NoDup_cons in Hnd as [Hni Hnd]. cbn [fst] in Hni.
  ok_step He. apply map_err_Ok_inv in Heqr. pose proof (block_size_nonneg _ _ Heqr) as Ha.
  assert (size_of b = a) as Hsz by (unfold size_of; by rewrite Heqr).
  fold (pinned tip h) in He. destruct (pinned tip h) eqn:Hp; cbn [orb] in He.
  - apply IH in He as (Hr & Hs & Hc); [|done|unfold saturating_add; lia|lia|done].
    unfold saturating_add in *. unfold unpinned in *. rewrite filter_cons_False
      by (intros [Hq _]; cbn [fst] in Hq; congruence).
    split_and!; [|lia|lia]. intros z Hz. cbn. destruct (Hr z Hz). split; [by right|done].
  - destruct ((count <? max_blocks) && (a <=? saturating_sub max_bytes bytes)) eqn:Hfit.
    + apply andb_true_iff in Hfit as [Hf1%Z.ltb_lt Hf2%Z.leb_le]. unfold saturating_sub in Hf2.
      apply IH in He as (Hr & Hs & Hc); [|done|unfold saturating_add; lia|lia|done].
      unfold saturating_add in *. unfold unpinned in *. rewrite filter_cons_True.
      * rewrite (fmap_cons (fun e => size_of e.2)), zsum_cons. cbn [length snd]. rewrite Hsz.
        split_and!; [|lia|lia]. intros z Hz. cbn. destruct (Hr z Hz). split; [by right|done].
      * cbn. split; [done|]. intros Hin. by apply Hr in Hin as [? _].
    + ok_step He. injection He as <-. apply IH in Heqr0 as (Hr & Hs & Hc); [|done..].
      unfold unpinned. rewrite filter_cons_False
        by (intros [_ Hq]; apply Hq; left).
      fold (unpinned tip (h :: a0) l). rewrite unpinned_skip by done. split_and!; [|lia|lia].
      intros z [->|Hz]%elem_of_cons; [split; [left|done]|]. destruct (Hr z Hz). split; [by right|done].
Qed.

Lemma descending_perm {V} (m : gmap Z V) : descending m ≡ₚ map_to_list m.
Proof. unfold descending. by rewrite <- (Permutation_rev (merge_sort _ _)), merge_sort_Permutation. Qed.

Lemma elem_of_unpinned tip remove (m : gmap Z Block) e :
  e ∈ unpinned tip remove (descending m) <->
  m !! e.1 = Some e.2 /\ pinned tip e.1 = false /\ e.1 ∉ remove.
Proof.
  unfold unpinned. rewrite list_elem_of_filter, descending_perm. destruct e as [z b].
  rewrite elem_of_map_to_list. naive_solver.
Qed.

Lemma unpinned_NoDup tip remove (m : gmap Z Block) : NoDup (unpinned tip remove (descending m)).
Proof. unfold unpinned. apply NoDup_filter. rewrite descending_perm. apply NoDup_map_to_list. Qed.

(** The body cache keeps its budget: eviction drops bodies only, never
    genesis or the tip, and the other resident bodies number at most the block
    limit and weigh together at most the byte limit. *)
Theorem retain_budget c max_bytes max_blocks c' :
  0 <= max_bytes < 2 ^ 64 -> 0 <= max_blocks ->
  retain_recent_bodies max_bytes max_blocks c = Ok c' ->
  blocks c' ⊆ blocks c /\
  (forall h, pinned (tip_height c) h = true -> blocks c' !! h = blocks c !! h) /\
  zsum ((fun e => size_of e.2) <$> unpinned (tip_height c) [] (descending (blocks c'))) <= max_bytes /\
  Z.of_nat (length (unpinned (tip_height c) [] (descending (blocks c')))) <= max_blocks.
Proof.
  intros Hmb Hmk Hr. unfold retain_recent_bodies in Hr. ok_step Hr. injection Hr as <-. cbn [blocks].
  apply evict_budget in Heqr as (Hrm & Hs & Hc); [|done|lia|lia|].
  2:{ rewrite descending_perm. apply NoDup_fst_map_to_list. }
  assert (unpinned (tip_height c) [] (descending (foldr delete (blocks c) a))
    ≡ₚ unpinned (tip_height c) a (descending (blocks c))) as Hp.
  { apply NoDup_Permutation; [apply unpinned_NoDup..|]. intros e. rewrite !elem_of_unpinned.
    rewrite foldr_delete_lookup. case_decide; set_solver. }
  split_and!.
  - apply map_subseteq_spec. intros z b. rewrite foldr_delete_lookup. by case_decide.
  - intros h Hh. rewrite foldr_delete_lookup. case_decide as Hin; [|done].
    apply Hrm in Hin as [_ Hin]. congruence.
  - rewrite (zsum_permutation _ _ (fmap_Permutation _ _ _ Hp)). lia.
  - rewrite Hp. lia.
Qed.

(** ** Witnesses *)

Lemma chain_refines_list_witness :
  exists c', @insert_block toy_sha3
    {| header := {| previous_hash := replicate HASH_SIZE 0; h_merkle_root := replicate HASH_SIZE 0;
                    h_state_root := replicate HASH_SIZE 0; target_bits := GENESIS_TARGET_BITS;
                    block_weight := 0; h_nonce := 0 |};
       height := 0; body := {| b_emission := None; b_operations := [] |} |} chain_new = Ok c'.
Proof.
  apply (proj1 (@chain_refines_list toy_sha3 [] chain_new chain_of_new)); [done|].
  split_and!; reflexivity.
Defined.

(** Two bodies above genesis; the budget keeps the tip and drops the other. *)
Lemma retain_budget_witness :
  let b := fun h => {| header := header sample_block; height := h;
                       body := {| b_emission := None; b_operations := [] |} |} in
  let c := {| headers := ∅; blocks := {[0 := b 0; 1 := b 1; 2 := b 2]}; tip_height := Some 2;
              tip_hash := None |} in
  exists c', retain_recent_bodies 100 2 c = Ok c' /\ blocks c' ⊆ blocks c.
Proof.
  intros b c. destruct (retain_recent_bodies 100 2 c) as [c'|e] eqn:Hr; [|vm_compute in Hr; discriminate].
  exists c'. split; [reflexivity|].
  assert (0 <= 100 < 2 ^ 64) as Hb by lia. assert (0 <= 2) as Hk by lia.
  exact (proj1 (retain_budget c 100 2 c' Hb Hk Hr)).
Defined.
