(* ===== verification/Consensus.v ===== *)
(** * Proof of work and block admission

    Models [kernel/src/consensus/pow.rs] and [kernel/src/consensus/block.rs].
    Argon2id is third-party: the class [Argon2].  Reusable working memory
    changes where the hash is computed, not the hash, so the two entry points
    differ only in the size test on the caller's buffer. *)

From S2P Require Import Prelude Target Codec Monetary Registry Calls Wire Authorize Policy Block Chain.
#[local] Open Scope Z_scope.

Definition POW_ARGON2_MEMORY_KIB : Z := 128 * 1024.
Definition POW_ARGON2_ITERATIONS : Z := 1.
Definition POW_ARGON2_LANES : Z := 1.

Inductive CryptoError := CryptoInvalidPoWParameters | CryptoPoWHashFailed.

(** Seed, salt, memory, iterations, lanes. *)
Class Argon2 := argon2id_pow_hash : Hash -> Hash -> Z -> Z -> Z -> result CryptoError (list Z).

Inductive ConsensusError :=
| ConsensusInvalidBlock (e : BlockError) | ConsensusInvalidEmission (e : EmissionError)
| InvalidDifficulty | UnexpectedDifficulty | InvalidPoWParameters | PoWHashFailed
| ConsensusInvalidHeight | InvalidPreviousHash | GenesisRequired | WrongGenesis
| InsufficientPoW | ConsensusSerialization.

Definition map_crypto_error (e : CryptoError) : ConsensusError :=
  match e with
  | CryptoInvalidPoWParameters => InvalidPoWParameters
  | CryptoPoWHashFailed => PoWHashFailed
  end.

Record ValidatedBlock := { v_block : Block; v_emission : option ValidatedEmission }.

(** What block application needs of a state: its chain and the commit. *)
Class ApplyBlockState (S E : Type) := {
  consensus_chain : S -> Chain;
  commit_validated_block : ValidatedBlock -> ST S E unit;
}.

Section consensus.
Context `{Sha3} `{Argon2}.

(** ** Proof of work *)

Definition pow_seed (h : Header) : Hash := domain PoWSeed (w_enc wire_header h).
Definition pow_salt (previous : Hash) : Hash := domain PoWSalt previous.

Definition calculate_work (h : Header) : result ConsensusError (list Z) :=
  map_err map_crypto_error
    (argon2id_pow_hash (pow_seed h) (pow_salt (previous_hash h)) POW_ARGON2_MEMORY_KIB
       POW_ARGON2_ITERATIONS POW_ARGON2_LANES).

(** With the caller's buffer of [memory_kib] blocks. *)
Definition calculate_work_with_memory (memory_kib : Z) (h : Header)
    : result ConsensusError (list Z) :=
  fail_if negb (memory_kib =? POW_ARGON2_MEMORY_KIB) with InvalidPoWParameters;
  map_err map_crypto_error
    (argon2id_pow_hash (pow_seed h) (pow_salt (previous_hash h)) memory_kib
       POW_ARGON2_ITERATIONS POW_ARGON2_LANES).

Definition validate_pow_claim (h : Header) (expected : Z) : result ConsensusError unit :=
  fail_if bool_decide (PoWTarget.from_compact expected = None) with InvalidDifficulty;
  fail_if negb (target_bits h =? expected) with UnexpectedDifficulty;
  Ok tt.

Definition verify_pow_hash (hash : list Z) (expected : Z) : result ConsensusError unit :=
  target ← ok_or (PoWTarget.from_compact expected) InvalidDifficulty;
  if PoWTarget.meets target hash then Ok tt else Err InsufficientPoW.

Definition verify_pow (h : Header) (expected : Z) : result ConsensusError unit :=
  _ ← validate_pow_claim h expected;
  hash ← calculate_work h;
  verify_pow_hash hash expected.

Definition verify_pow_with_memory (memory_kib : Z) (h : Header) (expected : Z)
    : result ConsensusError unit :=
  _ ← validate_pow_claim h expected;
  hash ← calculate_work_with_memory memory_kib h;
  verify_pow_hash hash expected.

(** [Consensus::validate_pow_at_target_bits]. *)
Definition validate_pow_at_target_bits (block : Block) (expected : Z) : result ConsensusError unit :=
  fail_if negb (target_bits (header block) =? expected) with UnexpectedDifficulty;
  fail_if bool_decide (PoWTarget.from_compact expected = None) with InvalidDifficulty;
  verify_pow (header block) (target_bits (header block)).

(** ** Admission *)

(** The difficulty a block of this height must have on this chain. *)
Definition expected_difficulty (chain : Chain) (h : Z) : result ConsensusError Z :=
  if h =? 0 then Ok GENESIS_TARGET_BITS
  else
    parent ← ok_or (headers chain !! (h - 1)) InvalidPreviousHash;
    bits ← expected_difficulty_for_height h (target_bits parent)
             (fun h => hd ← ok_or (headers chain !! h) InvalidPreviousHash; Ok (block_weight hd));
    ok_or bits InvalidDifficulty.

Definition expected_next_difficulty (chain : Chain) : result ConsensusError Z :=
  expected_difficulty chain
    (match tip_height chain with Some h => saturating_add 64 h 1 | None => 0 end).

Definition linkage_error (e : ChainError) : ConsensusError :=
  match e with
  | InvalidHeight | DuplicateBlock => ConsensusInvalidHeight
  | _ => InvalidPreviousHash
  end.

(** [memory] is the size of the caller's buffer, if there is one. *)
Definition validate_for_apply (block : Block) (chain : Chain) (enforce_pow : bool)
    (memory : option Z) : result ConsensusError ValidatedBlock :=
  _ ← map_err ConsensusInvalidBlock (block_validate block);
  _ ← map_err linkage_error (validate_next_block chain block);
  _ ← (if is_genesis block then Ok tt
       else
         expected ← expected_difficulty chain (height block);
         if enforce_pow then
           match memory with
           | Some memory_kib => verify_pow_with_memory memory_kib (header block) expected
           | None => validate_pow_at_target_bits block expected
           end
         else
           fail_if negb (target_bits (header block) =? expected) with UnexpectedDifficulty;
           Ok tt);
  emission ← (if is_genesis block then Ok None
              else
                e ← map_err ConsensusInvalidEmission
                      (authorize_emission (previous_hash (header block)) (height block)
                         (b_emission (body block)) (b_operations (body block)));
                Ok (Some e));
  Ok {| v_block := block; v_emission := emission |}.

Definition validate_genesis_block (block : Block) : result ConsensusError unit :=
  _ ← map_err ConsensusInvalidBlock (block_validate block);
  fail_if negb (height block =? 0)
          || negb (bool_decide (previous_hash (header block) = replicate HASH_SIZE 0))
    with ConsensusInvalidHeight;
  Ok tt.

Context {S E : Type} `{ApplyBlockState S E} (from_consensus : ConsensusError -> E).

(** [?] on a consensus error converts it with [From]. *)
Definition apply_block (memory : option Z) (block : Block) : ST S E unit := fun s =>
  if has_blocks (consensus_chain s) then
    match validate_for_apply block (consensus_chain s) true memory with
    | Err e => (s, Err (from_consensus e))
    | Ok validated => commit_validated_block validated s
    end
  else (s, Err (from_consensus GenesisRequired)).

Definition apply_genesis (expected_hash : Hash) (block : Block) : ST S E unit := fun s =>
  if has_blocks (consensus_chain s) then (s, Err (from_consensus ConsensusInvalidHeight))
  else
    match validate_genesis_block block with
    | Err e => (s, Err (from_consensus e))
    | Ok _ =>
        if decide (block_hash block = expected_hash) then
          match validate_for_apply block (consensus_chain s) true None with
          | Err e => (s, Err (from_consensus e))
          | Ok validated => commit_validated_block validated s
          end
        else (s, Err (from_consensus WrongGenesis))
    end.
End consensus.

(** ** What admission establishes *)

Section admission.
Context `{Sha3} `{Argon2}.

(** The header's own proof of work meets the target of [bits]. *)
Definition pow_meets (h : Header) (bits : Z) : Prop :=
  target_bits h = bits /\
  exists target hash, PoWTarget.from_compact bits = Some target /\ calculate_work h = Ok hash /\
    PoWTarget.meets target hash = true.

Lemma verify_pow_Ok h bits : verify_pow h bits = Ok tt <-> pow_meets h bits.
Proof.
  unfold verify_pow, validate_pow_claim, verify_pow_hash, pow_meets, guard_err.
  destruct (PoWTarget.from_compact bits) as [t|]; cbn [ok_or mbind result_mbind].
  - rewrite bool_decide_eq_false_2 by done. destruct (Z.eqb_spec (target_bits h) bits); cbn; [|naive_solver].
    destruct (calculate_work h) as [hash|]; cbn; [|naive_solver].
    destruct (PoWTarget.meets t hash) eqn:Hm; split; try done.
    + intros _. split; [done|]. by exists t, hash.
    + intros (_ & t' & hash' & [= <-] & [= <-] & Ht). congruence.
  - rewrite bool_decide_eq_true_2 by done. naive_solver.
Qed.

(** The caller's buffer of consensus size changes nothing. *)
Lemma verify_pow_with_memory_eq h bits :
  verify_pow_with_memory POW_ARGON2_MEMORY_KIB h bits = verify_pow h bits.
Proof. reflexivity. Qed.

Lemma validate_pow_Ok b bits :
  validate_pow_at_target_bits b bits = Ok tt <-> pow_meets (header b) bits.
Proof.
  unfold validate_pow_at_target_bits, guard_err.
  destruct (Z.eqb_spec (target_bits (header b)) bits) as [->|Hne]; cbn [negb].
  - case_bool_decide as Hn; [|apply verify_pow_Ok]. unfold pow_meets. rewrite Hn. naive_solver.
  - split; [done|]. by intros [? _].
Qed.

Definition consensus_memory (memory : option Z) : Prop :=
  memory = None \/ memory = Some POW_ARGON2_MEMORY_KIB.

Lemma expected_difficulty_headers c c' h :
  headers c = headers c' -> expected_difficulty c h = expected_difficulty c' h.
Proof. unfold expected_difficulty. by intros ->. Qed.

Lemma chain_of_same hs c c' :
  chain_of hs c -> chain_of hs c' ->
  headers c = headers c' /\ tip_height c = tip_height c' /\ tip_hash c = tip_hash c'.
Proof.
  intros [] []. split_and!; [|congruence..]. apply map_eq. intros z. apply option_eq. intros h.
  by rewrite co_headers, co_headers0.
Qed.

(** What acceptance of a block after genesis means. *)
Lemma validate_for_apply_Ok hs c b memory v :
  chain_of hs c -> 0 < height b -> consensus_memory memory ->
  validate_for_apply b c true memory = Ok v <->
  block_validate b = Ok tt /\ extends hs b /\
  (exists bits, expected_difficulty c (height b) = Ok bits /\ pow_meets (header b) bits) /\
  exists e, authorize_emission (previous_hash (header b)) (height b) (b_emission (body b))
              (b_operations (body b)) = Ok e /\
    v = {| v_block := b; v_emission := Some e |}.
Proof.
  intros Hc Hb Hm.
  unfold validate_for_apply, is_genesis. rewrite (proj2 (Z.eqb_neq _ _)) by lia.
  rewrite <- (validate_next_spec hs c) by (done || lia).
  destruct (block_validate b) as [[]|]; cbn [map_err mbind result_mbind]; [|naive_solver].
  destruct (validate_next_block c b) as [[]|]; cbn [map_err mbind result_mbind]; [|naive_solver].
  destruct (expected_difficulty c (height b)) as [bits|]; cbn [mbind result_mbind]; [|naive_solver].
  assert (forall r, match memory with
    | Some memory_kib => verify_pow_with_memory memory_kib (header b) bits
    | None => validate_pow_at_target_bits b bits
    end = Ok r <-> pow_meets (header b) bits) as Hpow.
  { intros []. destruct Hm as [->| ->]; [apply validate_pow_Ok|].
    rewrite verify_pow_with_memory_eq. apply verify_pow_Ok. }
  destruct (match memory with Some _ => _ | None => _ end) as [r|]; cbn [mbind result_mbind].
  2:{ split; [done|]. intros (_ & _ & (bits' & [= <-] & Hp) & _). by apply (Hpow tt) in Hp. }
  assert (pow_meets (header b) bits) as Hp by (by apply (Hpow r)).
  destruct (authorize_emission _ _ _ _) as [e|]; cbn [map_err mbind result_mbind]; split.
  + intros [= <-]. split_and!; [done|done|by exists bits|by exists e].
  + by intros (_ & _ & _ & e' & [= <-] & ->).
  + done.
  + by intros (_ & _ & _ & e' & He & _).
Qed.

(** (C25) Admission of a block after genesis is exactly this: its structure is
    valid, it extends the chain, its header claims the difficulty the chain
    prescribes and its Argon2id hash meets that target, and its emission is the
    authorized one; with or without a reusable buffer.  The answer depends on
    the chain's headers only, not on which bodies are resident. *)
Theorem block_admission hs c b memory v :
  chain_of hs c -> 0 < height b -> consensus_memory memory ->
  (validate_for_apply b c true memory = Ok v <->
   block_validate b = Ok tt /\ extends hs b /\
   (exists bits, expected_difficulty c (height b) = Ok bits /\ pow_meets (header b) bits) /\
   exists e, authorize_emission (previous_hash (header b)) (height b) (b_emission (body b))
               (b_operations (body b)) = Ok e /\
     v = {| v_block := b; v_emission := Some e |}) /\
  (forall c', chain_of hs c' ->
     validate_for_apply b c' true memory = validate_for_apply b c true memory).
Proof.
  intros Hc Hb Hm. split; [by apply validate_for_apply_Ok|].
  intros c' Hc'. destruct (chain_of_same hs c c' Hc Hc') as (Hh & Ht & Hth).
  unfold validate_for_apply. rewrite (expected_difficulty_headers c c') by done.
  unfold validate_next_block. by rewrite Hh, Ht, Hth.
Qed.
End admission.

(** ** Witnesses *)

Definition toy_argon2 : Argon2 := fun _ _ _ _ _ => Ok (replicate 32 0).

Definition ok_block (r : result CodecError Block) : Block :=
  match r with Ok b => b | Err _ => sample_block end.

Definition sample_genesis : Block := ok_block (@genesis toy_sha3).

Definition sample_chain : Chain :=
  match @insert_block toy_sha3 sample_genesis chain_new with Ok c => c | Err _ => chain_new end.

Definition sample_next : Block :=
  ok_block (@from_protocol_operations toy_sha3 1 (@block_hash toy_sha3 sample_genesis)
    TARGET_BITS_START 0 (Some {| em_to := replicate 32 6; em_subsidy := BLOCK_EMISSION_START |}) []).

Lemma sample_chain_of : @chain_of toy_sha3 [header sample_genesis] sample_chain.
Proof.
  assert (@insert_block toy_sha3 sample_genesis chain_new = Ok sample_chain) as Hi
    by (vm_compute; reflexivity).
  apply (@insert_block_chain toy_sha3 [] chain_new sample_genesis sample_chain) in Hi as [_ Hi];
    [exact Hi|apply chain_of_new|by vm_compute].
Qed.

Lemma block_admission_witness :
  exists v, @validate_for_apply toy_sha3 toy_argon2 sample_next sample_chain true None = Ok v /\
    @extends toy_sha3 [header sample_genesis] sample_next.
Proof.
  destruct (@validate_for_apply toy_sha3 toy_argon2 sample_next sample_chain true None) as [v|e] eqn:Hv;
    [|vm_compute in Hv; discriminate].
  exists v. split; [reflexivity|].
  assert (0 < height sample_next) as Hh by (vm_compute; reflexivity).
  exact (proj1 (proj2 (proj1 (proj1 (@block_admission toy_sha3 toy_argon2 [header sample_genesis]
    sample_chain sample_next None v sample_chain_of Hh (or_introl eq_refl))) Hv))).
Defined.
