(* ===== verification/Fork.v ===== *)
(** * Fork choice and reorganization

    Models [kernel/src/consensus/fork/graph.rs] and [reorg.rs] (the order on
    tips, [ordering.rs], and [work.rs] are in [Work]).  The walks towards
    genesis are loops over the parent links; they run on fuel, the number of
    nodes, and the graph invariant bounds every height below that number, so
    the fuel is never exhausted on a graph built by insertions. *)

From S2P Require Import Prelude Target Work Codec Monetary Registry Calls Wire Authorize Policy.
From S2P Require Import Block Chain Consensus.
#[local] Open Scope Z_scope.

Record BlockNode := {
  bn_block : Block;
  bn_hash : Hash;
  bn_parent : Hash;
  bn_height : Z;
  bn_work : list Z;
  bn_cumulative_work : list Z;
  bn_weight : Z;
  bn_cumulative_weight : Z;
}.

Record ForkChoice := {
  expected_genesis : Hash;
  nodes : gmap Hash BlockNode;
  best_tip : option Hash;
}.

Definition fork_new (genesis : Hash) : ForkChoice :=
  {| expected_genesis := genesis; nodes := ∅; best_tip := None |}.

Inductive ForkChoiceError :=
| ForkDuplicateBlock | UnexpectedGenesis | ForkInvalidBlock (e : BlockError)
| ForkInvalidDifficulty | ForkInvalidHeader | InvalidProofOfWork (e : ConsensusError)
| ForkInvalidHeight | MissingParent | ForkSerialization.

(** ** Walks *)

(** More steps than there are nodes. *)
Definition walk_fuel (self : ForkChoice) : nat := S (size (nodes self)).

Fixpoint ancestor_walk (fuel : nat) (nodes : gmap Hash BlockNode) (current : Hash)
    : option (list Hash) :=
  match fuel with
  | O => None
  | S fuel =>
      match nodes !! current with
      | None => Some []
      | Some node =>
          if bn_height node =? 0 then Some [current]
          else rest ← ancestor_walk fuel nodes (bn_parent node); Some (current :: rest)
      end
  end.

Definition ancestor_hashes (self : ForkChoice) (hash : Hash) : option (list Hash) :=
  ancestor_walk (walk_fuel self) (nodes self) hash.

(** The loop of [branch_from_ancestor], tip first; the inner option is the
    function's own. *)
Fixpoint branch_walk (fuel : nat) (nodes : gmap Hash BlockNode) (ancestor current : Hash)
    : option (option (list Block)) :=
  match fuel with
  | O => None
  | S fuel =>
      if decide (current = ancestor) then Some (Some [])
      else match nodes !! current with
           | None => Some None
           | Some node =>
               rest ← branch_walk fuel nodes ancestor (bn_parent node);
               Some (rest ← rest; Some (bn_block node :: rest))
           end
  end.

Definition branch_from_ancestor (self : ForkChoice) (ancestor tip : Hash)
    : option (option (list Block)) :=
  option_map (@rev Block) <$> branch_walk (walk_fuel self) (nodes self) ancestor tip.

Fixpoint height_walk (fuel : nat) (nodes : gmap Hash BlockNode) (current : Hash) (height : Z)
    : option (option BlockNode) :=
  match fuel with
  | O => None
  | S fuel =>
      match nodes !! current with
      | None => Some None
      | Some node =>
          if bn_height node =? height then Some (Some node)
          else if (bn_height node <? height) || (bn_height node =? 0) then Some None
          else height_walk fuel nodes (bn_parent node) height
      end
  end.

(** Running out of fuel reads as not found. *)
Definition ancestor_at_height (self : ForkChoice) (hash : Hash) (height : Z) : option BlockNode :=
  default None (height_walk (walk_fuel self) (nodes self) hash height).

(** ** Insertion *)

Definition node_tip (n : BlockNode) : tip := (bn_cumulative_work n, bn_cumulative_weight n, bn_hash n).

Definition update_best_tip (self : ForkChoice) (candidate_hash : Hash) : ForkChoice :=
  match nodes self !! candidate_hash with
  | None => self
  | Some candidate =>
      let should_update :=
        match best_tip self ≫= fun hash => nodes self !! hash with
        | None => true
        | Some best =>
            match compare_chain_tips (bn_cumulative_work candidate) (bn_cumulative_weight candidate)
                    (bn_hash candidate) (bn_cumulative_work best) (bn_cumulative_weight best)
                    (bn_hash best) with
            | Gt => true
            | _ => false
            end
        end in
      if should_update
      then {| expected_genesis := expected_genesis self; nodes := nodes self;
              best_tip := Some candidate_hash |}
      else self
  end.

Definition expected_difficulty_for (self : ForkChoice) (block : Block) (parent : Hash)
    : result ForkChoiceError Z :=
  if height block =? 0 then Ok GENESIS_TARGET_BITS
  else
    parent_node ← ok_or (nodes self !! parent) MissingParent;
    bits ← expected_difficulty_for_height (height block) (target_bits (header (bn_block parent_node)))
      (fun h => node ← ok_or (ancestor_at_height self parent h) MissingParent;
                Ok (block_weight (header (bn_block node))));
    ok_or bits ForkInvalidDifficulty.

Section fork.
Context `{Sha3} `{Argon2}.

Definition insert_node (self : ForkChoice) (hash : Hash) (node : BlockNode) : ForkChoice :=
  update_best_tip
    {| expected_genesis := expected_genesis self; nodes := <[hash := node]> (nodes self);
       best_tip := best_tip self |} hash.

(** The totals of the parent, or zero for the configured genesis. *)
Definition parent_totals (self : ForkChoice) (block : Block)
    : result ForkChoiceError (list Z * Z) :=
  let parent := previous_hash (header block) in
  if height block =? 0 then
    fail_if negb (bool_decide (block_hash block = expected_genesis self)) with UnexpectedGenesis;
    fail_if negb (bool_decide (parent = replicate HASH_SIZE 0)) with MissingParent;
    Ok (Work.ZERO, 0)
  else
    parent_node ← ok_or (nodes self !! parent) MissingParent;
    fail_if negb (height block =? saturating_add 64 (bn_height parent_node) 1) with ForkInvalidHeight;
    Ok (bn_cumulative_work parent_node, bn_cumulative_weight parent_node).

Definition insert_block (block : Block) (self : ForkChoice)
    : result ForkChoiceError (ForkChoice * Hash) :=
  _ ← map_err ForkInvalidBlock (block_validate block);
  let hash := block_hash block in
  fail_if bool_decide (is_Some (nodes self !! hash)) with ForkDuplicateBlock;
  fail_if negb (if is_genesis block then target_bits (header block) =? GENESIS_TARGET_BITS
                else bool_decide (is_Some (PoWTarget.from_compact (target_bits (header block)))))
    with ForkInvalidDifficulty;
  fail_if negb (is_genesis block)
          && ((block_weight (header block) =? 0) || (MAX_BLOCK_SIZE <? block_weight (header block)))
    with ForkInvalidHeader;
  let parent := previous_hash (header block) in
  '(parent_work, parent_weight) ← parent_totals self block;
  expected ← expected_difficulty_for self block parent;
  _ ← (if is_genesis block then Ok tt
       else
         fail_if negb (target_bits (header block) =? expected) with ForkInvalidDifficulty;
         map_err InvalidProofOfWork (validate_pow_at_target_bits block expected));
  work ← (if is_genesis block then Ok Work.ZERO
          else ok_or (block_work expected) ForkInvalidDifficulty);
  let weight := if is_genesis block then 0 else block_weight (header block) in
  let node := {| bn_height := height block; bn_parent := parent; bn_hash := hash; bn_work := work;
                 bn_cumulative_work := Work.saturating_add parent_work work; bn_weight := weight;
                 bn_cumulative_weight := saturating_add 64 parent_weight weight;
                 bn_block := block |} in
  Ok (insert_node self hash node, hash).
End fork.

(** ** Reorganization plans *)

Inductive ReorgError := InvalidBranch.

Record ReorgPlan := {
  ancestor : Hash;
  old_tip : option Hash;
  new_tip : Hash;
  disconnect : list Block;
  to_apply : list Block;
}.

Section reorg.
Context `{Sha3}.

(** [disconnect.windows(2)]. *)
Fixpoint windows_linked (l : list Block) : bool :=
  match l with
  | a :: ((b :: _) as l') =>
      bool_decide (previous_hash (header a) = block_hash b) && windows_linked l'
  | _ => true
  end.

Definition validate_disconnect (ancestor : Hash) (old_tip : option Hash) (disconnect : list Block)
    : result ReorgError unit :=
  match disconnect with
  | [] => if decide (old_tip = Some ancestor) then Ok tt else Err InvalidBranch
  | first :: _ =>
      fail_if negb (bool_decide (Some (block_hash first) = old_tip)) with InvalidBranch;
      fail_if negb (windows_linked disconnect) with InvalidBranch;
      lst ← ok_or (last disconnect) InvalidBranch;
      fail_if negb (bool_decide (previous_hash (header lst) = ancestor)) with InvalidBranch;
      Ok tt
  end.

Fixpoint apply_walk (expected_parent : Hash) (l : list Block) : result ReorgError Hash :=
  match l with
  | [] => Ok expected_parent
  | block :: l =>
      fail_if negb (bool_decide (previous_hash (header block) = expected_parent)) with InvalidBranch;
      apply_walk (block_hash block) l
  end.

Definition validate_apply (ancestor new_tip : Hash) (apply : list Block) : result ReorgError unit :=
  match apply with
  | [] => if decide (new_tip = ancestor) then Ok tt else Err InvalidBranch
  | _ =>
      expected_parent ← apply_walk ancestor apply;
      if decide (expected_parent = new_tip) then Ok tt else Err InvalidBranch
  end.

Definition plan_new (ancestor : Hash) (old_tip : option Hash) (new_tip : Hash)
    (disconnect apply : list Block) : result ReorgError ReorgPlan :=
  _ ← validate_disconnect ancestor old_tip disconnect;
  _ ← validate_apply ancestor new_tip apply;
  Ok {| ancestor := ancestor; old_tip := old_tip; new_tip := new_tip; disconnect := disconnect;
        to_apply := apply |}.

(** The first ancestor of the new tip that is one of the old tip's. *)
Definition common_ancestor (old_tip : option Hash) (new_tip : Hash) (g : ForkChoice) : option Hash :=
  old ← old_tip;
  old_ancestors ← ancestor_hashes g old;
  new_ancestors ← ancestor_hashes g new_tip;
  snd <$> list_find (fun hash => hash ∈ (list_to_set old_ancestors : gset Hash)) new_ancestors.

Definition branch_of (g : ForkChoice) (ancestor tip : Hash) : option (list Block) :=
  default None (branch_from_ancestor g ancestor tip).

Definition plan_reorg (old_tip : option Hash) (g : ForkChoice) (new_tip : Hash)
    : result ReorgError ReorgPlan :=
  ancestor ← ok_or (common_ancestor old_tip new_tip g) InvalidBranch;
  apply ← ok_or (branch_of g ancestor new_tip) InvalidBranch;
  old ← ok_or old_tip InvalidBranch;
  disconnect ← ok_or (branch_of g ancestor old) InvalidBranch;
  plan_new ancestor old_tip new_tip (rev disconnect) apply.
End reorg.
