(* ===== verification/ForkProps.v ===== *)
(** * Theorems on fork choice and reorganization

    The invariant of a graph built by insertions, the independence of the
    chosen tip from the order of arrival, and the correctness of the
    reorganization planner. *)

From S2P Require Import Prelude Target Work Codec Monetary Registry Calls Wire Authorize Policy.
From S2P Require Import Block Chain Consensus Fork.
#[local] Open Scope Z_scope.

Section graph.
Context `{Sha3} `{Argon2}.

(** ** The graph invariant *)

(** What a node records about its block, and how it hangs on its parent. *)
Record node_ok (g : ForkChoice) (k : Hash) (n : BlockNode) : Prop := {
  no_hash : bn_hash n = k;
  no_block_hash : block_hash (bn_block n) = k;
  no_parent : bn_parent n = previous_hash (header (bn_block n));
  no_height : bn_height n = height (bn_block n);
  no_range : 0 <= bn_height n < Z.of_nat (size (nodes g));
  no_valid : block_validate (bn_block n) = Ok tt;
  no_link :
    if bn_height n =? 0 then
      k = expected_genesis g /\ bn_work n = Work.ZERO /\ bn_cumulative_work n = Work.ZERO /\
      bn_weight n = 0 /\ bn_cumulative_weight n = 0
    else exists p, nodes g !! bn_parent n = Some p /\ bn_height n = bn_height p + 1 /\
      pow_meets (header (bn_block n)) (target_bits (header (bn_block n))) /\
      block_work (target_bits (header (bn_block n))) = Some (bn_work n) /\
      bn_weight n = block_weight (header (bn_block n)) /\
      bn_cumulative_work n = Work.saturating_add (bn_cumulative_work p) (bn_work n) /\
      bn_cumulative_weight n = saturating_add 64 (bn_cumulative_weight p) (bn_weight n);
}.

(** The best tip is a node no other node beats. *)
Definition best_ok (g : ForkChoice) : Prop :=
  match best_tip g with
  | None => nodes g = ∅
  | Some h => exists n, nodes g !! h = Some n /\
      forall k m, nodes g !! k = Some m -> compare_tips (node_tip m) (node_tip n) <> Gt
  end.

Record graph_ok (g : ForkChoice) : Prop := {
  go_nodes : forall k n, nodes g !! k = Some n -> node_ok g k n;
  go_best : best_ok g;
}.

(** Graphs built by insertion from the empty graph, smaller than the range of
    heights. *)
Inductive built (genesis : Hash) : ForkChoice -> Prop :=
| built_new : built genesis (fork_new genesis)
| built_insert g b g' h :
    built genesis g -> 0 <= height b -> Z.of_nat (size (nodes g)) < 2 ^ 64 - 1 ->
    insert_block b g = Ok (g', h) -> built genesis g'.

(** ** Insertion *)

Lemma compare_le_lt a b c :
  compare_tips a b <> Gt -> compare_tips c b = Gt -> compare_tips a c <> Gt.
Proof.
  intros Hab Hcb. assert (compare_tips b c = Lt) as Hbc by (rewrite compare_tips_antisym, Hcb; done).
  destruct (compare_tips a b) eqn:Heq; [|by rewrite (compare_tips_lt_trans a b c)|done].
  apply compare_tips_Eq in Heq as ->. by rewrite Hbc.
Qed.

Lemma compare_refl a : compare_tips a a <> Gt.
Proof. by rewrite (proj2 (compare_tips_Eq a a) eq_refl). Qed.

Lemma insert_node_best g k n :
  best_ok g -> nodes g !! k = None -> best_ok (insert_node g k n).
Proof.
  intros Hb Hk. unfold insert_node, update_best_tip. cbn [nodes best_tip].
  rewrite lookup_insert_eq. unfold best_ok in *.
  destruct (best_tip g) as [h|] eqn:Ht; cbn [mbind option_bind].
  - destruct Hb as (b & Hh & Hmax). assert (h <> k) as Hne by congruence.
    rewrite lookup_insert_ne, Hh by done.
    fold (compare_tips (node_tip n) (node_tip b)).
    assert (best_ok {| expected_genesis := expected_genesis g; nodes := <[k:=n]> (nodes g);
      best_tip := Some (if decide (compare_tips (node_tip n) (node_tip b) = Gt) then k else h) |}) as Hgoal.
    { unfold best_ok. cbn. case_decide as Hgt.
      - exists n. rewrite lookup_insert_eq. split; [done|].
        intros x m [[<- <-]|[Hx Hm]]%lookup_insert_Some; [apply compare_refl|].
        eapply compare_le_lt; [by eapply Hmax|done].
      - exists b. rewrite lookup_insert_ne by done. split; [done|].
        intros x m [[<- <-]|[Hx Hm]]%lookup_insert_Some; [done|by eapply Hmax]. }
    unfold best_ok in Hgoal. cbn in Hgoal. unfold compare_tips, node_tip in *. cbn [fst snd] in *.
    destruct (compare_chain_tips _ _ _ _ _ _); exact Hgoal.
  - rewrite Hb in *. cbn. exists n. rewrite lookup_insert_eq. split; [done|].
    intros x m [[<- <-]|[Hx Hm]]%lookup_insert_Some; [apply compare_refl|].
    by rewrite lookup_empty in Hm.
Qed.

Lemma insert_node_fields g k n :
  expected_genesis (insert_node g k n) = expected_genesis g /\
  nodes (insert_node g k n) = <[k := n]> (nodes g).
Proof.
  unfold insert_node, update_best_tip. cbn [nodes]. rewrite lookup_insert_eq. by repeat case_match.
Qed.

(** The node an accepted block becomes. *)
Definition node_of (b : Block) (work parent_work : list Z) (weight parent_weight : Z) : BlockNode :=
  {| bn_block := b; bn_hash := block_hash b; bn_parent := previous_hash (header b);
     bn_height := height b; bn_work := work;
     bn_cumulative_work := Work.saturating_add parent_work work; bn_weight := weight;
     bn_cumulative_weight := saturating_add 64 parent_weight weight |}.

(** What the graph requires of a new block. *)
Record accepted (g : ForkChoice) (b : Block) : Prop := {
  ac_valid : block_validate b = Ok tt;
  ac_new : nodes g !! block_hash b = None;
  ac_link :
    if height b =? 0 then
      block_hash b = expected_genesis g /\ previous_hash (header b) = replicate HASH_SIZE 0 /\
      target_bits (header b) = GENESIS_TARGET_BITS
    else exists p, nodes g !! previous_hash (header b) = Some p /\
      height b = saturating_add 64 (bn_height p) 1 /\
      0 < block_weight (header b) <= MAX_BLOCK_SIZE /\
      expected_difficulty_for g b (previous_hash (header b)) = Ok (target_bits (header b)) /\
      pow_meets (header b) (target_bits (header b)) /\
      is_Some (block_work (target_bits (header b)));
}.

(** The graph an accepted block leads to. *)
Definition inserted (g : ForkChoice) (b : Block) : ForkChoice :=
  insert_node g (block_hash b)
    (if height b =? 0 then node_of b Work.ZERO Work.ZERO 0 0
     else match nodes g !! previous_hash (header b) with
          | Some p => node_of b (default [] (block_work (target_bits (header b))))
                        (bn_cumulative_work p) (block_weight (header b)) (bn_cumulative_weight p)
          | None => node_of b [] [] 0 0
          end).

Lemma insert_block_spec g b g' h :
  0 <= block_weight (header b) ->
  insert_block b g = Ok (g', h) <-> accepted g b /\ g' = inserted g b /\ h = block_hash b.
Proof.
  intros Hw0. unfold insert_block, parent_totals, inserted, is_genesis, guard_err. split.
  - intros Hi. ok_step Hi. destruct a. apply map_err_Ok_inv in Heqr.
    case_bool_decide as Hdup; [discriminate Hi|]. apply eq_None_not_Some in Hdup.
    destruct (Z.eqb_spec (height b) 0) as [Hz|Hz]; cbn [negb andb] in Hi.
    + destruct (Z.eqb_spec (target_bits (header b)) GENESIS_TARGET_BITS) as [Ht|]; [|discriminate Hi].
      cbn [negb] in Hi. case_bool_decide as Hg; [|discriminate Hi]. cbn [negb] in Hi.
      case_bool_decide as Hp; [|discriminate Hi]. cbn [negb mbind result_mbind] in Hi.
      unfold expected_difficulty_for in Hi. rewrite (proj2 (Z.eqb_eq _ _) Hz) in Hi.
      cbn [mbind result_mbind] in Hi. injection Hi as <- <-. split; [|done].
      split; [done|done|]. rewrite (proj2 (Z.eqb_eq _ _) Hz). done.
    + case_bool_decide as Hc; cbn [negb] in Hi; [|discriminate Hi].
      destruct (Z.eqb_spec (block_weight (header b)) 0); [discriminate Hi|].
      destruct (Z.ltb_spec MAX_BLOCK_SIZE (block_weight (header b))); [discriminate Hi|]. cbn [orb] in Hi.
      destruct (nodes g !! previous_hash (header b)) as [p|] eqn:Hp; [|discriminate Hi].
      cbn [ok_or mbind result_mbind] in Hi.
      destruct (Z.eqb_spec (height b) (saturating_add 64 (bn_height p) 1)) as [Hh|]; [|discriminate Hi].
      cbn [negb mbind result_mbind] in Hi.
      destruct (expected_difficulty_for g b _) as [e|] eqn:He; [|discriminate Hi].
      cbn [mbind result_mbind] in Hi.
      destruct (Z.eqb_spec (target_bits (header b)) e) as [<-|]; [|discriminate Hi]. cbn [negb] in Hi.
      destruct (validate_pow_at_target_bits b _) as [[]|] eqn:Hpow; [|discriminate Hi].
      cbn [map_err mbind result_mbind] in Hi. apply validate_pow_Ok in Hpow.
      destruct (block_work (target_bits (header b))) as [w|] eqn:Hbw; [|discriminate Hi].
      cbn [ok_or mbind result_mbind] in Hi. injection Hi as <- <-. split; [|done].
      split; [done|done|]. rewrite (proj2 (Z.eqb_neq _ _) Hz). exists p. split_and!; try done; try lia.
  - intros ([Hv Hn Hl] & -> & ->). rewrite Hv. cbn [map_err mbind result_mbind].
    rewrite bool_decide_eq_false_2 by (rewrite Hn; by intros [? ?]).
    destruct (Z.eqb_spec (height b) 0) as [Hz|Hz].
    + destruct Hl as (Hg & Hp & ->). rewrite Z.eqb_refl, !bool_decide_eq_true_2 by done.
      unfold expected_difficulty_for. by rewrite (proj2 (Z.eqb_eq _ _) Hz).
    + destruct Hl as (p & Hp & Hh & Hw & He & Hpow & w & Hbw).
      rewrite bool_decide_eq_true_2 by (destruct Hpow as (_ & t & _ & Ht & _); by eexists).
      cbn [negb andb]. rewrite (proj2 (Z.eqb_neq _ _)), (proj2 (Z.ltb_ge _ _)) by lia. cbn [orb].
      rewrite Hp. cbn [ok_or mbind result_mbind]. rewrite (proj2 (Z.eqb_eq _ _) Hh).
      cbn [negb mbind result_mbind]. rewrite He. cbn [mbind result_mbind].
      rewrite Z.eqb_refl, (proj2 (validate_pow_Ok b _) Hpow). cbn [negb map_err mbind result_mbind].
      by rewrite Hbw.
Qed.

Lemma node_ok_mono g g' k n :
  node_ok g k n -> expected_genesis g' = expected_genesis g -> nodes g ⊆ nodes g' -> node_ok g' k n.
Proof.
  intros [] He Hs. split; try done.
  - apply map_subseteq_size in Hs. lia.
  - rewrite He. case_match; [done|]. destruct no_link0 as (p & Hp & Hr). exists p.
    split; [by eapply lookup_weaken|done].
Qed.

Lemma inserted_ok g b :
  graph_ok g -> 0 <= height b -> Z.of_nat (size (nodes g)) < 2 ^ 64 - 1 -> accepted g b ->
  graph_ok (inserted g b).
Proof.
  intros [Hn Hb] Hh Hsz [Hv Hnew Hl]. unfold inserted.
  set (n := if height b =? 0 then _ else _).
  destruct (insert_node_fields g (block_hash b) n) as [Hgen Hnodes].
  split; [|by apply insert_node_best].
  assert (nodes g ⊆ nodes (insert_node g (block_hash b) n)) as Hsub
    by (rewrite Hnodes; by apply insert_subseteq).
  intros k m Hk. rewrite Hnodes in Hk. apply lookup_insert_Some in Hk as [[<- <-]|[_ Hk]].
  2:{ apply (node_ok_mono g); [by apply Hn|done|done]. }
  assert (size (nodes (insert_node g (block_hash b) n)) = S (size (nodes g))) as Hsize
    by (rewrite Hnodes; by apply map_size_insert_None).
  subst n. destruct (Z.eqb_spec (height b) 0) as [Hz|Hz].
  - destruct Hl as (Hg & Hp & _). split; try done.
    + cbn [bn_height node_of]. lia.
    + rewrite Hgen. cbn [bn_height node_of]. rewrite (proj2 (Z.eqb_eq _ _) Hz). by split_and!.
  - destruct Hl as (p & Hp & Hhp & Hw & He & Hpow & w & Hbw). rewrite Hp in *. rewrite Hbw in *.
    pose proof (no_range _ _ _ (Hn _ _ Hp)) as Hr. unfold saturating_add in Hhp.
    split; try done.
    + cbn [bn_height node_of]. lia.
    + cbn [bn_height node_of bn_parent bn_work bn_weight bn_block bn_cumulative_work
        bn_cumulative_weight default]. rewrite (proj2 (Z.eqb_neq _ _) Hz). exists p.
      split_and!; try done; [|lia]. by eapply lookup_weaken.
Qed.

Lemma built_ok genesis g : built genesis g -> graph_ok g /\ expected_genesis g = genesis.
Proof.
  induction 1 as [|g b g' h Hb [IH Hg] Hh Hsz Hi].
  - split; [|done]. split; [|done]. intros k n Hk. cbn in Hk. by rewrite lookup_empty in Hk.
  - apply insert_block_spec in Hi as (Ha & -> & ->).
    + split; [by apply inserted_ok|]. unfold inserted. by rewrite (proj1 (insert_node_fields _ _ _)).
    + unfold insert_block in Hi. ok_step Hi. destruct a. apply map_err_Ok_inv in Heqr.
      apply block_validate_Ok in Heqr as (_ & _ & _ & (bytes & _ & Hw) & _). lia.
Qed.

(** ** Order of arrival does not matter *)

Lemma node_same g1 g2 (d : nat) :
  graph_ok g1 -> graph_ok g2 -> expected_genesis g1 = expected_genesis g2 ->
  bn_block <$> nodes g1 = bn_block <$> nodes g2 ->
  forall k n1 n2, nodes g1 !! k = Some n1 -> nodes g2 !! k = Some n2 ->
    Z.to_nat (bn_height n1) = d -> n1 = n2.
Proof.
  intros G1 G2 Hg Hblocks. induction d as [d IH] using lt_wf_ind. intros k n1 n2 H1 H2 Hh.
  destruct (go_nodes g1 G1 _ _ H1) as [], (go_nodes g2 G2 _ _ H2) as [].
  assert (bn_block n1 = bn_block n2) as Hb.
  { apply (f_equal (lookup k)) in Hblocks. rewrite !lookup_fmap, H1, H2 in Hblocks.
    by injection Hblocks. }
  destruct n1 as [b1 h1 p1 ht1 w1 cw1 g1' cg1], n2 as [b2 h2 p2 ht2 w2 cw2 g2' cg2]. cbn in *. subst.
  destruct (Z.eqb_spec (height b2) 0) as [Hz|Hz].
  - destruct no_link0 as (_ & -> & -> & -> & ->), no_link1 as (_ & -> & -> & -> & ->). done.
  - destruct no_link0 as (q1 & Hq1 & Hd1 & _ & Hw1 & -> & -> & ->).
    destruct no_link1 as (q2 & Hq2 & Hd2 & _ & Hw2 & -> & -> & ->).
    pose proof (no_range _ _ _ (go_nodes g1 G1 _ _ Hq1)).
    assert (q1 = q2) as -> by (apply (IH (Z.to_nat (bn_height q1)) ltac:(lia) _ _ _ Hq1 Hq2 eq_refl)).
    by simplify_eq.
Qed.

Lemma same_nodes g1 g2 :
  graph_ok g1 -> graph_ok g2 -> expected_genesis g1 = expected_genesis g2 ->
  bn_block <$> nodes g1 = bn_block <$> nodes g2 -> nodes g1 = nodes g2.
Proof.
  intros G1 G2 Hg Hb. apply map_eq. intros k.
  pose proof (f_equal (lookup k) Hb) as Hk. rewrite !lookup_fmap in Hk.
  destruct (nodes g1 !! k) as [n1|] eqn:H1, (nodes g2 !! k) as [n2|] eqn:H2; try done.
  f_equal. pose proof (no_range _ _ _ (go_nodes g1 G1 _ _ H1)).
  by eapply (node_same g1 g2 (Z.to_nat (bn_height n1))).
Qed.

(** (C26) Fork choice does not depend on the order in which blocks arrive: two
    graphs built by any sequences of insertions, accepted or refused, that hold
    the same blocks under the same genesis are the same, best tip included. *)
Theorem fork_choice_deterministic genesis g1 g2 :
  built genesis g1 -> built genesis g2 ->
  bn_block <$> nodes g1 = bn_block <$> nodes g2 -> g1 = g2.
Proof.
  intros [G1 E1]%built_ok [G2 E2]%built_ok Hb.
  assert (nodes g1 = nodes g2) as Hn by (apply same_nodes; congruence || done).
  pose proof (go_best g1 G1) as B1. pose proof (go_best g2 G2) as B2. unfold best_ok in *.
  destruct g1 as [e1 n1 t1], g2 as [e2 n2 t2]. cbn in *. subst. f_equal.
  destruct t1 as [h1|], t2 as [h2|]; [|destruct B1 as (? & H1 & _)|destruct B2 as (? & H2 & _)|done].
  - destruct B1 as (b1 & H1 & M1), B2 as (b2 & H2 & M2).
    pose proof (M1 _ _ H2) as L1. pose proof (M2 _ _ H1) as L2. rewrite compare_tips_antisym in L1.
    destruct (compare_tips (node_tip b1) (node_tip b2)) eqn:Hc; try done.
    apply compare_tips_Eq in Hc. injection Hc as _ _ Hh.
    pose proof (no_hash _ _ _ (go_nodes _ G1 _ _ H1)). pose proof (no_hash _ _ _ (go_nodes _ G2 _ _ H2)).
    congruence.
  - by rewrite B2, lookup_empty in H1.
  - by rewrite B1, lookup_empty in H2.
Qed.

(** (C29) Fork choice accepts exactly the blocks it should: in a graph built by
    insertions, a block is inserted if and only if its structure is valid, it
    is new, and it is the configured genesis or extends a known block by one
    height with the difficulty of its own branch, a proof of work that meets
    it, and a weight within bounds.  The graph then keeps its invariant: every
    node's totals are the saturating sums of work and weight of its branch, and
    the best tip is a node no other node beats. *)
Theorem fork_insert_exact genesis g b :
  built genesis g -> 0 <= height b -> 0 <= block_weight (header b) ->
  Z.of_nat (size (nodes g)) < 2 ^ 64 - 1 ->
  graph_ok g /\
  (forall g' h, insert_block b g = Ok (g', h) <->
     accepted g b /\ g' = inserted g b /\ h = block_hash b) /\
  (accepted g b -> graph_ok (inserted g b)).
Proof.
  intros [G _]%built_ok Hh Hw Hs. split_and!; [done| |].
  - intros g' h. by apply insert_block_spec.
  - by apply inserted_ok.
Qed.
End graph.

(** ** Reorganization plans *)

Section reorg.
Context `{Sha3} `{Argon2}.

(** The hashes from a node down to genesis. *)
Inductive ancestry (g : ForkChoice) : Hash -> list Hash -> Prop :=
| ancestry_genesis k n :
    nodes g !! k = Some n -> bn_height n = 0 -> ancestry g k [k]
| ancestry_child k n l :
    nodes g !! k = Some n -> bn_height n <> 0 -> ancestry g (bn_parent n) l ->
    ancestry g k (k :: l).

(** The blocks from a node, first, down to but without an ancestor. *)
Inductive segment (g : ForkChoice) (a : Hash) : Hash -> list Block -> Prop :=
| segment_nil : segment g a a []
| segment_cons k n bs :
    k <> a -> nodes g !! k = Some n -> segment g a (bn_parent n) bs ->
    segment g a k (bn_block n :: bs).

Lemma ancestor_walk_total g fuel k n :
  graph_ok g -> nodes g !! k = Some n -> bn_height n < Z.of_nat fuel ->
  exists l, ancestor_walk fuel (nodes g) k = Some l /\ ancestry g k l /\
    Z.of_nat (length l) = bn_height n + 1 /\ last l = Some (expected_genesis g).
Proof.
  intros G. revert k n. induction fuel as [|fuel IH]; intros k n Hk Hf;
    pose proof (go_nodes g G _ _ Hk) as []; [lia|]. cbn [ancestor_walk]. rewrite Hk.
  destruct (Z.eqb_spec (bn_height n) 0) as [Hz|Hz].
  - destruct no_link0 as (-> & _). exists [expected_genesis g]. split_and!; try done.
    + by eapply ancestry_genesis.
    + cbn. lia.
  - destruct no_link0 as (p & Hp & Hh & _).
    destruct (IH _ _ Hp ltac:(lia)) as (l & -> & Hl & Hlen & Hlast). exists (k :: l).
    split_and!; [done|by eapply ancestry_child|cbn; lia|]. destruct l; done.
Qed.

Lemma ancestor_hashes_total g k n :
  graph_ok g -> nodes g !! k = Some n ->
  exists l, ancestor_hashes g k = Some l /\ ancestry g k l /\ (length l <= size (nodes g))%nat /\
    last l = Some (expected_genesis g).
Proof.
  intros G Hk. pose proof (no_range _ _ _ (go_nodes g G _ _ Hk)) as Hr.
  destruct (ancestor_walk_total g (walk_fuel g) k n G Hk) as (l & Hl & Ha & Hlen & Hlast);
    [unfold walk_fuel; lia|].
  exists l. split_and!; [done|done|lia|done].
Qed.

Lemma ancestry_segment g pre k a suf :
  graph_ok g -> ancestry g k (pre ++ a :: suf) -> a ∉ pre ->
  exists bs, segment g a k bs /\ block_hash <$> bs = pre.
Proof.
  intros G. revert k. induction pre as [|x pre IH]; intros k Ha Hni.
  - inversion Ha; subst; exists []; (split; [constructor|done]).
  - rewrite not_elem_of_cons in Hni. destruct Hni as [Hne Hni].
    inversion Ha as [k' n Hk Hz Heq|k' n l Hk Hz Hl]; subst; [by destruct pre|].
    destruct (IH _ Hl Hni) as (bs & Hs & Hb). exists (bn_block n :: bs).
    split; [by eapply segment_cons|]. cbn. rewrite Hb. f_equal.
    apply (no_block_hash _ _ _ (go_nodes g G _ _ Hk)).
Qed.

Lemma branch_walk_segment g fuel a k bs :
  segment g a k bs -> (length bs < fuel)%nat ->
  branch_walk fuel (nodes g) a k = Some (Some bs).
Proof.
  intros Hs. revert fuel. induction Hs as [|k n bs Hne Hk Hs IH]; intros [|fuel] Hf;
    cbn [length] in Hf; try lia; cbn [branch_walk].
  - by rewrite decide_True.
  - rewrite decide_False, Hk by done. rewrite IH by lia. done.
Qed.

Lemma branch_of_segment g a k bs :
  segment g a k bs -> (length bs <= size (nodes g))%nat -> branch_of g a k = Some (rev bs).
Proof.
  intros Hs Hl. unfold branch_of, branch_from_ancestor.
  rewrite (branch_walk_segment _ _ _ _ _ Hs) by (unfold walk_fuel; lia). done.
Qed.

Lemma segment_disconnect g a k bs :
  graph_ok g -> segment g a k bs -> validate_disconnect a (Some k) bs = Ok tt.
Proof.
  intros G Hs. destruct Hs as [|k n bs Hne Hk Hs]; [by cbn; rewrite decide_True|].
  unfold validate_disconnect, guard_err. pose proof (go_nodes g G _ _ Hk) as [].
  rewrite bool_decide_eq_true_2 by congruence. cbn [negb].
  assert (windows_linked (bn_block n :: bs) = true /\
    exists x, last (bn_block n :: bs) = Some x /\ previous_hash (header x) = a) as (-> & x & -> & Hp).
  { clear no_valid0 no_link0 no_range0. rewrite no_parent0 in Hs. clear Hk Hne no_height0 no_parent0 no_hash0.
    remember (previous_hash (header (bn_block n))) as q eqn:Hq. revert Hq. generalize (bn_block n) as b.
    clear n no_block_hash0. induction Hs as [|q m bs Hne Hm Hs IH]; intros b Hq; [by eauto|].
    pose proof (go_nodes g G _ _ Hm) as [].
    destruct (IH (bn_block m) no_parent0) as (Hw & x & Hx & Hp).
    split; [|by exists x].
    change (bool_decide (previous_hash (header b) = block_hash (bn_block m))
            && windows_linked (bn_block m :: bs) = true).
    rewrite Hw, bool_decide_eq_true_2 by congruence. done. }
  cbn. by rewrite bool_decide_eq_true_2.
Qed.

Lemma apply_walk_snoc e l b :
  apply_walk e (l ++ [b]) = (q ← apply_walk e l; apply_walk q [b]).
Proof.
  revert e. induction l as [|x l IH]; intros e; [done|]. cbn [apply_walk app]. unfold guard_err.
  case_bool_decide; cbn [negb]; [apply IH|done].
Qed.

Lemma segment_apply g a k bs :
  graph_ok g -> segment g a k bs -> validate_apply a k (rev bs) = Ok tt.
Proof.
  intros G Hs.
  assert (apply_walk a (rev bs) = Ok k) as Hw.
  { induction Hs as [|k n bs Hne Hk Hs IH]; [done|]. pose proof (go_nodes g G _ _ Hk) as [].
    cbn [rev]. rewrite apply_walk_snoc, IH. cbn. rewrite bool_decide_eq_true_2 by congruence. cbn.
    by rewrite no_block_hash0. }
  unfold validate_apply. destruct (rev bs) as [|x l] eqn:Hr.
  - injection Hw as ->. by rewrite decide_True.
  - rewrite Hw. cbn. by rewrite decide_True.
Qed.

(** The common ancestor splits both ancestries, and nothing above it in the
    new one is in the old one. *)
Lemma common_ancestor_split g old new n m :
  graph_ok g -> nodes g !! old = Some n -> nodes g !! new = Some m ->
  exists a po so pn sn,
    common_ancestor (Some old) new g = Some a /\
    ancestry g old (po ++ a :: so) /\ a ∉ po /\ ancestry g new (pn ++ a :: sn) /\ a ∉ pn /\
    (length po <= size (nodes g))%nat /\ (length pn <= size (nodes g))%nat /\
    (forall k, k ∈ pn -> k ∉ po ++ a :: so).
Proof.
  intros G Ho Hn. destruct (ancestor_hashes_total g old n G Ho) as (lo & Hlo & Ao & So & To).
  destruct (ancestor_hashes_total g new m G Hn) as (ln & Hln & An & Sn & Tn).
  unfold common_ancestor. cbn [mbind option_bind]. rewrite Hlo, Hln. cbn [mbind option_bind].
  destruct (list_find_elem_of (fun h => h ∈ (list_to_set lo : gset Hash)) ln (expected_genesis g))
    as [[i a] Hf].
  { apply last_Some in Tn as [l ->]. set_solver. }
  { apply elem_of_list_to_set. apply last_Some in To as [l ->]. set_solver. }
  rewrite Hf. apply list_find_Some in Hf as (Hi & Ha & Hmin).
  apply elem_of_list_to_set, list_elem_of_split_l in Ha as (po & so & -> & Hpo).
  exists a, po, so, (take i ln), (drop (S i) ln). rewrite take_drop_middle by done.
  rewrite length_app in So. cbn in So.
  assert (forall k, k ∈ take i ln -> k ∉ po ++ a :: so) as Hdis.
  { intros k (j & Hj)%list_elem_of_lookup. apply lookup_take_Some in Hj as [Hj Hlt].
    specialize (Hmin j k Hj Hlt). by rewrite elem_of_list_to_set in Hmin. }
  split_and!; try done; [|lia|rewrite length_take; lia].
  intros Hin. apply Hdis in Hin. set_solver.
Qed.

(** (C28) Reorganization always has a correct plan: between any two blocks of a
    graph built by insertions the planner succeeds; the plan disconnects the
    old tip's blocks newest first down to a common ancestor and applies the new
    tip's blocks oldest first up from it, each following its parent; the
    ancestor is the latest common one, so no block is both disconnected and
    applied. *)
Theorem plan_reorg_correct genesis g old new n m :
  built genesis g -> nodes g !! old = Some n -> nodes g !! new = Some m ->
  exists plan, plan_reorg (Some old) g new = Ok plan /\
    old_tip plan = Some old /\ new_tip plan = new /\
    segment g (ancestor plan) old (disconnect plan) /\
    segment g (ancestor plan) new (rev (to_apply plan)) /\
    (forall b b', b ∈ disconnect plan -> b' ∈ to_apply plan -> block_hash b <> block_hash b').
Proof.
  intros [G _]%built_ok Ho Hn.
  destruct (common_ancestor_split g old new n m G Ho Hn)
    as (a & po & so & pn & sn & Hc & Ao & Hpo & An & Hpn & Lo & Ln & Hdis).
  destruct (ancestry_segment g po old a so G Ao Hpo) as (bo & So & Eo).
  destruct (ancestry_segment g pn new a sn G An Hpn) as (bn & Sn & En).
  assert (length bo = length po) as Lbo by (by rewrite <- Eo, length_fmap).
  assert (length bn = length pn) as Lbn by (by rewrite <- En, length_fmap).
  unfold plan_reorg, plan_new. rewrite Hc. cbn [ok_or mbind result_mbind].
  rewrite (branch_of_segment g a new bn Sn) by lia. cbn [ok_or mbind result_mbind].
  rewrite (branch_of_segment g a old bo So) by lia. cbn [ok_or mbind result_mbind].
  rewrite rev_involutive, (segment_disconnect g a old bo G So). cbn [mbind result_mbind].
  rewrite (segment_apply g a new bn G Sn). cbn [mbind result_mbind].
  eexists. split; [reflexivity|]. cbn. rewrite rev_involutive. split_and!; try done.
  intros b b' Hb Hb' Heq. rewrite <- (Permutation_rev bn) in Hb'.
  apply (Hdis (block_hash b')).
  - rewrite <- En. by apply list_elem_of_fmap_2.
  - rewrite <- Heq. apply elem_of_app. left. rewrite <- Eo. by apply list_elem_of_fmap_2.
Qed.
End reorg.

(** ** Witnesses *)

Section witnesses.
#[local] Instance witness_sha3 : Sha3 := toy_sha3.
#[local] Instance witness_argon2 : Argon2 := toy_argon2.

Definition sample_sibling : Block :=
  ok_block (from_protocol_operations 1 (block_hash sample_genesis) TARGET_BITS_START 1
    (Some {| em_to := replicate 32 6; em_subsidy := BLOCK_EMISSION_START |}) []).

Definition fork_insert (b : Block) (g : ForkChoice) : ForkChoice :=
  match insert_block b g with Ok (g', _) => g' | Err _ => g end.

(** Genesis and two blocks on it, arriving in either order. *)
Definition fork0 : ForkChoice := fork_insert sample_genesis (fork_new (block_hash sample_genesis)).
Definition fork1 : ForkChoice := fork_insert sample_next fork0.
Definition fork2 : ForkChoice := fork_insert sample_sibling fork1.
Definition fork3 : ForkChoice := fork_insert sample_next (fork_insert sample_sibling fork0).

(** Inserting, or trying to, stays within the built graphs. *)
Lemma fork_insert_built genesis b g :
  built genesis g -> 0 <= height b -> Z.of_nat (size (nodes g)) < 2 ^ 64 - 1 ->
  built genesis (fork_insert b g).
Proof.
  intros Hb Hh Hs. unfold fork_insert. destruct (insert_block b g) as [[g' h]|] eqn:Hi; [|done].
  by eapply built_insert.
Qed.

Lemma fork0_built : built (block_hash sample_genesis) fork0.
Proof. apply fork_insert_built; [constructor|vm_compute; discriminate|done]. Qed.

Lemma fork1_built : built (block_hash sample_genesis) fork1.
Proof. apply fork_insert_built; [apply fork0_built|vm_compute; discriminate|by vm_compute]. Qed.

Lemma fork2_built : built (block_hash sample_genesis) fork2.
Proof. apply fork_insert_built; [apply fork1_built|vm_compute; discriminate|by vm_compute]. Qed.

Lemma fork3_built : built (block_hash sample_genesis) fork3.
Proof.
  apply fork_insert_built; [|vm_compute; discriminate|by vm_compute].
  apply fork_insert_built; [apply fork0_built|vm_compute; discriminate|by vm_compute].
Qed.

Lemma fork_choice_deterministic_witness : size (nodes fork2) = 3%nat /\ fork2 = fork3.
Proof.
  split; [vm_compute; reflexivity|].
  apply (fork_choice_deterministic (block_hash sample_genesis) fork2 fork3 fork2_built fork3_built).
  vm_compute. reflexivity.
Defined.

Lemma fork_insert_exact_witness :
  graph_ok fork0 /\ accepted fork0 sample_next /\ fork1 = inserted fork0 sample_next.
Proof.
  destruct (fork_insert_exact (block_hash sample_genesis) fork0 sample_next fork0_built)
    as (Hg & Hi & _); [vm_compute; discriminate..|vm_compute; reflexivity|].
  destruct (proj1 (Hi fork1 (block_hash sample_next))) as (Ha & Hf & _);
    [vm_compute; reflexivity|exact (conj Hg (conj Ha Hf))].
Defined.

Lemma plan_reorg_correct_witness :
  exists plan, plan_reorg (Some (block_hash sample_next)) fork2 (block_hash sample_sibling) = Ok plan /\
    old_tip plan = Some (block_hash sample_next) /\ new_tip plan = block_hash sample_sibling /\
    segment fork2 (ancestor plan) (block_hash sample_next) (disconnect plan) /\
    segment fork2 (ancestor plan) (block_hash sample_sibling) (rev (to_apply plan)) /\
    (forall b b', b ∈ disconnect plan -> b' ∈ to_apply plan -> block_hash b <> block_hash b').
Proof.
  destruct (nodes fork2 !! block_hash sample_next) as [n|] eqn:Hn; [|vm_compute in Hn; discriminate].
  destruct (nodes fork2 !! block_hash sample_sibling) as [m|] eqn:Hm; [|vm_compute in Hm; discriminate].
  exact (plan_reorg_correct (block_hash sample_genesis) fork2 _ _ n m fork2_built Hn Hm).
Defined.
End witnesses.
