(* ===== verification/HeaderSync.v ===== *)
(** * Header synchronization

    Models [kernel/src/consensus/header.rs]: validation of a whole chain of
    headers from the configured genesis, the summary a node keeps of it, and
    the extension of that summary by further headers.  Only the last
    [RECENT_HEADER_WINDOW] headers are kept, twice what a retarget reads.

    The two loops of the source are modelled separately; header hashing cannot
    fail.  The [expect] on the proof-of-work buffer is a panic. *)

From S2P Require Import Prelude Target Work Codec Monetary Registry Calls Wire Authorize Policy.
From S2P Require Import Block Chain Consensus Fork ForkProps.
#[local] Open Scope Z_scope.

Definition RECENT_HEADER_WINDOW : Z := WBDA_WINDOW * 2.

Record HeaderAtHeight := { hh_height : Z; hh_header : Header }.

Record HeaderValidationState := {
  hv_height : Z;
  hv_header : Header;
  hv_cumulative_work : list Z;
  hv_cumulative_weight : Z;
  hv_difficulty_anchor : HeaderAtHeight;
  hv_recent_headers : list HeaderAtHeight;
}.

Inductive HeaderChainError :=
| EmptyHeaderChain | HeaderWrongGenesis | InvalidHeaderChain (e : ForkChoiceError)
| InvalidCommonAncestor | HeaderSerialization.

#[global] Instance HeaderAtHeight_eq_dec : EqDecision HeaderAtHeight.
Proof. solve_decision. Defined.

Definition validate_header_weight (h : Header) : result HeaderChainError unit :=
  fail_if (block_weight h =? 0) || (MAX_BLOCK_SIZE <? block_weight h)
    with InvalidHeaderChain ForkInvalidHeader;
  Ok tt.

(** [recent.iter().find(|candidate| candidate.height.0 == height)]. *)
Definition recent_weight (recent : list HeaderAtHeight) (height : Z) : result HeaderChainError Z :=
  found ← ok_or (find (fun candidate => hh_height candidate =? height) recent)
            (InvalidHeaderChain MissingParent);
  Ok (block_weight (hh_header found)).

Definition expected_recent_difficulty (next_height parent_bits : Z) (recent : list HeaderAtHeight)
    : result HeaderChainError Z :=
  bits ← expected_difficulty_for_height next_height parent_bits (recent_weight recent);
  ok_or bits (InvalidHeaderChain ForkInvalidDifficulty).

Definition expected_header_difficulty (previous : HeaderAtHeight) (recent : list HeaderAtHeight)
    : result HeaderChainError Z :=
  expected_recent_difficulty (saturating_add 64 (hh_height previous) 1)
    (target_bits (hh_header previous)) recent.

(** [recent.push(current)], dropping the oldest beyond the window. *)
Definition push_recent (recent : list HeaderAtHeight) (current : HeaderAtHeight)
    : list HeaderAtHeight :=
  let recent := recent ++ [current] in
  if RECENT_HEADER_WINDOW <? Z.of_nat (length recent) then drop 1 recent else recent.

Definition add_weights (total : Z) (l : list HeaderAtHeight) : Z :=
  fold_left (fun total h => saturating_add 64 total (block_weight (hh_header h))) l total.

Section headers.
Context `{Sha3} `{Argon2}.

Definition header_hash (h : HeaderAtHeight) : Hash := block_header_hash (hh_header h).

(** Proof of work under the expected target in the buffer, and the work it
    stands for. *)
Definition header_work (memory : option Z) (h : Header) (expected : Z)
    : Run HeaderChainError (list Z) :=
  match memory with
  | None => Panicked
  | Some memory_kib =>
      run_lift
        (_ ← map_err (fun e => InvalidHeaderChain (InvalidProofOfWork e))
               (verify_pow_with_memory memory_kib h expected);
         ok_or (block_work expected) (InvalidHeaderChain ForkInvalidDifficulty))
  end.

(** The loop of [verify_header_chain]. *)
Fixpoint verify_loop (memory : option Z) (previous : HeaderAtHeight) (cumulative_work : list Z)
    (recent l : list HeaderAtHeight) : Run HeaderChainError (Hash * list Z) :=
  match l with
  | [] => mret (header_hash previous, cumulative_work)
  | current :: l =>
      _ ← run_lift (validate_header_weight (hh_header current));
      _ ← run_require
            ((hh_height current =? saturating_add 64 (hh_height previous) 1)
             && bool_decide (previous_hash (hh_header current) = header_hash previous))
            InvalidCommonAncestor;
      expected ← run_lift (expected_header_difficulty previous recent);
      _ ← run_require (target_bits (hh_header current) =? expected)
            (InvalidHeaderChain ForkInvalidDifficulty);
      work ← header_work memory (hh_header current) expected;
      verify_loop memory current (Work.saturating_add cumulative_work work)
        (push_recent recent current) l
  end.

Definition new_pow_memory (needed : bool) : option Z :=
  if needed then Some POW_ARGON2_MEMORY_KIB else None.

Definition verify_header_chain (l : list HeaderAtHeight) (expected_genesis : Hash)
    : Run HeaderChainError (Hash * list Z) :=
  match l with
  | [] => run_lift (Err EmptyHeaderChain)
  | first :: rest =>
      _ ← run_require ((hh_height first =? 0) && bool_decide (header_hash first = expected_genesis))
            HeaderWrongGenesis;
      verify_loop (new_pow_memory (1 <? length l)%nat) first Work.ZERO [first] rest
  end.

Definition header_validation_state (validated_headers : list HeaderAtHeight)
    (expected_genesis : Hash) : Run HeaderChainError HeaderValidationState :=
  '(_, cumulative_work) ← verify_header_chain validated_headers expected_genesis;
  tip ← run_lift (ok_or (last validated_headers) EmptyHeaderChain);
  difficulty_anchor ← run_lift
    (ok_or (validated_headers !! (if 0 <? hh_height tip then 1%nat else 0%nat)) EmptyHeaderChain);
  let start := (length validated_headers - Z.to_nat RECENT_HEADER_WINDOW)%nat in
  mret {| hv_height := hh_height tip; hv_header := hh_header tip;
          hv_cumulative_work := cumulative_work;
          hv_cumulative_weight := add_weights 0 (drop 1 validated_headers);
          hv_difficulty_anchor := difficulty_anchor;
          hv_recent_headers := drop start validated_headers |}.

(** The loop of [verify_header_chain_extension_inner]. *)
Fixpoint extension_loop (memory : option Z) (previous_height : Z) (previous : Header)
    (hash : Hash) (cumulative_work : list Z) (recent l : list HeaderAtHeight)
    : Run HeaderChainError (Hash * list Z) :=
  match l with
  | [] => mret (hash, cumulative_work)
  | current :: l =>
      let header := hh_header current in
      _ ← run_lift (validate_header_weight header);
      _ ← run_require
            ((hh_height current =? saturating_add 64 previous_height 1)
             && bool_decide (previous_hash header = hash))
            InvalidCommonAncestor;
      expected ← run_lift
        (expected_recent_difficulty (hh_height current) (target_bits previous) recent);
      _ ← run_require (target_bits header =? expected) (InvalidHeaderChain ForkInvalidDifficulty);
      work ← header_work memory header expected;
      extension_loop memory (hh_height current) header (block_header_hash header)
        (Work.saturating_add cumulative_work work) (push_recent recent current) l
  end.

Definition verify_header_chain_extension_inner (state : HeaderValidationState)
    (l : list HeaderAtHeight) (memory : option Z) : Run HeaderChainError (Hash * list Z) :=
  let recent := hv_recent_headers state in
  _ ← run_require
        (match last recent with Some tip => bool_decide (hh_header tip = hv_header state)
         | None => false end
         && (Z.of_nat (length recent) <=? RECENT_HEADER_WINDOW))
        InvalidCommonAncestor;
  extension_loop memory (hv_height state) (hv_header state) (block_header_hash (hv_header state))
    (hv_cumulative_work state) recent l.

Definition verify_header_chain_extension (state : HeaderValidationState) (l : list HeaderAtHeight)
    : Run HeaderChainError (Hash * list Z) :=
  verify_header_chain_extension_inner state l (new_pow_memory (negb (length l =? 0)%nat)).

Definition verify_header_chain_extension_with_memory (state : HeaderValidationState)
    (l : list HeaderAtHeight) (memory_kib : Z) : Run HeaderChainError (Hash * list Z) :=
  verify_header_chain_extension_inner state l (Some memory_kib).

Definition advanced_header_validation_state (state : HeaderValidationState)
    (l : list HeaderAtHeight) (cumulative_work : list Z) : HeaderValidationState :=
  let recent := hv_recent_headers state ++ l in
  {| hv_height := match last l with Some h => hh_height h | None => hv_height state end;
     hv_header := match last l with Some h => hh_header h | None => hv_header state end;
     hv_cumulative_work := cumulative_work;
     hv_cumulative_weight := add_weights (hv_cumulative_weight state) l;
     hv_difficulty_anchor := hv_difficulty_anchor state;
     hv_recent_headers :=
       if RECENT_HEADER_WINDOW <? Z.of_nat (length recent)
       then drop (length recent - Z.to_nat RECENT_HEADER_WINDOW) recent else recent |}.

Definition advance_header_validation_state (state : HeaderValidationState)
    (l : list HeaderAtHeight) : Run HeaderChainError HeaderValidationState :=
  '(_, cumulative_work) ← verify_header_chain_extension state l;
  mret (advanced_header_validation_state state l cumulative_work).

Definition advance_header_validation_state_with_memory (state : HeaderValidationState)
    (l : list HeaderAtHeight) (memory_kib : Z) : Run HeaderChainError HeaderValidationState :=
  '(_, cumulative_work) ← verify_header_chain_extension_with_memory state l memory_kib;
  mret (advanced_header_validation_state state l cumulative_work).
End headers.

(** ** The window *)

(** The last [n] entries. *)
Definition last_n {A} (n : nat) (l : list A) : list A := drop (length l - n) l.

Definition window : nat := Z.to_nat RECENT_HEADER_WINDOW.

Lemma window_pos : (0 < window)%nat.
Proof. unfold window, RECENT_HEADER_WINDOW, WBDA_WINDOW. lia. Qed.

Lemma last_n_app {A} n (a b : list A) : last_n n (last_n n a ++ b) = last_n n (a ++ b).
Proof.
  unfold last_n. rewrite !length_app, length_drop.
  rewrite <- (drop_app_le a b (length a - n)) by lia. rewrite drop_drop. f_equal. lia.
Qed.

Lemma last_last_n {A} n (l : list A) : (0 < n)%nat -> last (last_n n l) = last l.
Proof.
  intros Hn. unfold last_n. destruct l as [|x l]; [done|].
  rewrite <- (take_drop (length (x :: l) - n) (x :: l)) at 3.
  destruct (drop (length (x :: l) - n) (x :: l)) eqn:Hd; [|by rewrite last_app_cons].
  apply (f_equal length) in Hd. rewrite length_drop in Hd. cbn [length] in Hd. lia.
Qed.

Lemma length_last_n {A} n (l : list A) : length (last_n n l) = (length l `min` n)%nat.
Proof. unfold last_n. rewrite length_drop. lia. Qed.

Lemma window_truncate {A} (r : list A) :
  (if RECENT_HEADER_WINDOW <? Z.of_nat (length r) then drop (length r - window) r else r)
  = last_n window r.
Proof.
  unfold last_n. destruct (Z.ltb_spec RECENT_HEADER_WINDOW (Z.of_nat (length r))); [done|].
  unfold window. by replace (_ - _)%nat with 0%nat by lia.
Qed.

Lemma push_recent_spec l h : push_recent (last_n window l) h = last_n window (l ++ [h]).
Proof.
  rewrite <- last_n_app. pose proof (length_last_n window l) as Hl.
  rewrite <- (window_truncate (_ ++ _)). unfold push_recent. rewrite length_app. cbn [length].
  destruct (Z.ltb_spec RECENT_HEADER_WINDOW (Z.of_nat (length (last_n window l) + 1))); [|done].
  f_equal. unfold window in *. lia.
Qed.

(** Numbered headers. *)
Definition numbered_from (start : nat) (hs : list Header) : list HeaderAtHeight :=
  imap (fun i h => {| hh_height := Z.of_nat (start + i); hh_header := h |}) hs.
Definition numbered : list Header -> list HeaderAtHeight := numbered_from 0.

Lemma numbered_lookup hs i : numbered hs !! i = (fun h => {| hh_height := Z.of_nat i; hh_header := h |}) <$> hs !! i.
Proof. unfold numbered, numbered_from. by rewrite list_lookup_imap. Qed.

Lemma numbered_snoc hs h :
  numbered (hs ++ [h]) = numbered hs ++ [{| hh_height := Z.of_nat (length hs); hh_header := h |}].
Proof. unfold numbered, numbered_from. rewrite imap_app. cbn. by rewrite Nat.add_0_r. Qed.

Lemma numbered_length hs : length (numbered hs) = length hs.
Proof. apply length_imap. Qed.

Lemma numbered_from_cons n h hs :
  numbered_from n (h :: hs) = {| hh_height := Z.of_nat n; hh_header := h |} :: numbered_from (S n) hs.
Proof.
  unfold numbered_from. rewrite imap_cons, Nat.add_0_r. f_equal. apply imap_ext. intros i x _. cbn.
  by rewrite Nat.add_succ_r.
Qed.

(** Looking a height up in the window. *)
Lemma find_drop_numbered hs k z :
  Z.of_nat k <= z ->
  find (fun candidate => hh_height candidate =? z) (drop k (numbered hs)) =
    (fun h => {| hh_height := z; hh_header := h |}) <$> hs !! Z.to_nat z.
Proof.
  intros Hk. remember (length hs - k)%nat as n eqn:Hn. revert k Hk Hn.
  induction n as [|n IH]; intros k Hk Hn.
  - rewrite drop_ge by (rewrite numbered_length; lia).
    by rewrite lookup_ge_None_2 by lia.
  - destruct (lookup_lt_is_Some_2 hs k) as [h Hh]; [lia|].
    rewrite (drop_S _ {| hh_height := Z.of_nat k; hh_header := h |})
      by (by rewrite numbered_lookup, Hh).
    cbn [find hh_height]. destruct (Z.eqb_spec (Z.of_nat k) z) as [<-|Hne].
    + by rewrite Nat2Z.id, Hh.
    + apply IH; lia.
Qed.

(** ** The difficulty a list of headers prescribes *)

Lemma collect_agree {E E' A B} (f : A -> result E B) (g : A -> result E' B) l bs :
  (forall a b, a ∈ l -> f a = Ok b <-> g a = Ok b) ->
  collect f l = Ok bs <-> collect g l = Ok bs.
Proof.
  revert bs. induction l as [|a l IH]; intros bs Hfg; cbn [collect]; [naive_solver|].
  assert (forall bs, collect f l = Ok bs <-> collect g l = Ok bs) as Hl
    by (intros; apply IH; intros; apply Hfg; by right).
  split; intros (b & Hb & (bs' & Hbs & [= <-])%bind_Ok)%bind_Ok;
    apply bind_Ok; exists b; (split; [apply Hfg; [by left|done]|]);
    apply bind_Ok; exists bs'; split; [by apply Hl|done|by apply Hl|done].
Qed.

(** A retarget reads the weights of the last [WBDA_WINDOW] heights, and never
    the genesis. *)
Lemma difficulty_agree {E E'} n bits (f : Z -> result E Z) (g : Z -> result E' Z) x :
  (forall z w, 1 <= z < n -> n - WBDA_WINDOW <= z -> f z = Ok w <-> g z = Ok w) ->
  expected_difficulty_for_height n bits f = Ok x <-> expected_difficulty_for_height n bits g = Ok x.
Proof.
  intros Hfg. unfold expected_difficulty_for_height. destruct (n =? 1); [naive_solver|].
  destruct (is_wbda_epoch_boundary n) eqn:Hb; [|cbn; naive_solver]. cbn [negb].
  assert (WBDA_WINDOW < n) as Hn.
  { unfold is_wbda_epoch_boundary in Hb. apply andb_true_iff in Hb as [?%Z.ltb_lt Hm%Z.eqb_eq].
    apply Z.mod_divide in Hm as [k Hk]; [|done]. unfold WBDA_WINDOW in *. nia. }
  assert (forall ws, collect f (window_heights n) = Ok ws <-> collect g (window_heights n) = Ok ws) as Hc.
  { intros ws. apply collect_agree. intros z w (i & -> & Hi)%list_elem_of_fmap.
    apply elem_of_seq in Hi. apply Hfg; lia. }
  split; intros (ws & Hws%Hc & [= <-])%bind_Ok; apply bind_Ok; by exists ws.
Qed.

(** What the whole list prescribes for the header after it. *)
Definition prescribed_difficulty (hs : list Header) : result ConsensusError Z :=
  parent ← ok_or (last hs) InvalidPreviousHash;
  bits ← expected_difficulty_for_height (Z.of_nat (length hs)) (target_bits parent)
           (fun z => hd ← ok_or (hs !! Z.to_nat z) InvalidPreviousHash; Ok (block_weight hd));
  ok_or bits InvalidDifficulty.

Lemma ok_or_bind_Ok {E A B} (o : option A) (e : E) (f : A -> B) b :
  (a ← ok_or o e; Ok (f a)) = Ok b <-> exists a, o = Some a /\ f a = b.
Proof. destruct o; cbn; naive_solver. Qed.

(** It is the difficulty block admission prescribes on the chain of the list. *)
Lemma prescribed_admission `{Sha3} hs c bits :
  chain_of hs c -> hs <> [] ->
  expected_difficulty c (Z.of_nat (length hs)) = Ok bits <-> prescribed_difficulty hs = Ok bits.
Proof.
  intros Hc Hne. unfold expected_difficulty, prescribed_difficulty.
  assert (length hs <> 0%nat) as Hl by (by destruct hs).
  rewrite (proj2 (Z.eqb_neq _ _)) by lia.
  assert (headers c !! (Z.of_nat (length hs) - 1) = last hs) as ->.
  { rewrite last_lookup. apply option_eq. intros h. rewrite (co_headers _ _ Hc).
    replace (Z.to_nat _) with (pred (length hs)) by lia. naive_solver lia. }
  destruct (last hs) as [h|]; [|done]. cbn [ok_or mbind result_mbind].
  assert (forall x, expected_difficulty_for_height (Z.of_nat (length hs)) (target_bits h)
      (fun h => hd ← ok_or (headers c !! h) InvalidPreviousHash; Ok (block_weight hd)) = Ok x <->
    expected_difficulty_for_height (Z.of_nat (length hs)) (target_bits h)
      (fun z => hd ← ok_or (hs !! Z.to_nat z) InvalidPreviousHash; Ok (block_weight hd)) = Ok x) as Hd.
  { intros x. apply difficulty_agree. intros z w Hz _. rewrite !ok_or_bind_Ok.
    setoid_rewrite (co_headers _ _ Hc). naive_solver lia. }
  split; intros (o & Ho%Hd & Hb)%bind_Ok; apply bind_Ok; by exists o.
Qed.

(** The window is enough: it prescribes what the whole list does. *)
Lemma prescribed_recent hs h bits :
  last hs = Some h ->
  expected_recent_difficulty (Z.of_nat (length hs)) (target_bits h) (last_n window (numbered hs)) = Ok bits
  <-> prescribed_difficulty hs = Ok bits.
Proof.
  intros Hl. unfold expected_recent_difficulty, prescribed_difficulty. rewrite Hl.
  cbn [ok_or mbind result_mbind].
  assert (forall x, expected_difficulty_for_height (Z.of_nat (length hs)) (target_bits h)
      (recent_weight (last_n window (numbered hs))) = Ok x <->
    expected_difficulty_for_height (Z.of_nat (length hs)) (target_bits h)
      (fun z => hd ← ok_or (hs !! Z.to_nat z) InvalidPreviousHash; Ok (block_weight hd)) = Ok x) as Hd.
  { intros x. apply difficulty_agree. intros z w Hz Hw. unfold recent_weight, last_n.
    rewrite numbered_length, find_drop_numbered.
    2:{ unfold window, RECENT_HEADER_WINDOW, WBDA_WINDOW in *. lia. }
    destruct (hs !! Z.to_nat z); cbn; naive_solver. }
  split; intros (o & Ho%Hd & Hb)%bind_Ok; apply bind_Ok; exists o; (split; [done|]);
    destruct o; cbn in *; congruence.
Qed.

(** ** The loops *)

Section loops.
Context `{Sha3} `{Argon2}.

(** The two loops do the same. *)
Lemma extension_loop_verify memory p w r l :
  extension_loop memory (hh_height p) (hh_header p) (header_hash p) w r l
  = verify_loop memory p w r l.
Proof.
  revert p w r. induction l as [|c l IH]; intros p w r; [done|]. cbn [extension_loop verify_loop].
  destruct (validate_header_weight (hh_header c)); [|done]. cbn.
  destruct (Z.eqb_spec (hh_height c) (saturating_add 64 (hh_height p) 1)) as [Hh|]; [|done].
  unfold expected_header_difficulty. rewrite <- Hh. cbn. destruct (bool_decide _); [|done]. cbn.
  destruct (expected_recent_difficulty _ _ _); [|done]. cbn.
  destruct (_ =? _); [|done]. cbn. destruct (header_work _ _ _) as [[work|]|]; [|done|done].
  apply (IH c).
Qed.

Lemma verify_loop_app memory p w r a b hash w' :
  verify_loop memory p w r a = Returned (Ok (hash, w')) ->
  verify_loop memory p w r (a ++ b)
  = verify_loop memory (default p (last a)) w' (foldl push_recent r a) b.
Proof.
  revert p w r. induction a as [|c a IH]; intros p w r; cbn [verify_loop app].
  { by intros [= _ <-]. }
  intros Hv. repeat (apply returns_bind in Hv as (? & -> & Hv); cbn [mbind run_mbind]).
  rewrite (IH _ _ _ Hv), last_cons. by destruct (last a).
Qed.

Lemma recent_after l r : foldl push_recent (last_n window r) l = last_n window (r ++ l).
Proof.
  revert r. induction l as [|h l IH]; intros r; cbn; [by rewrite app_nil_r|].
  by rewrite push_recent_spec, IH, <- app_assoc.
Qed.

(** What a header must be after those before it. *)
Definition header_admitted (hs : list Header) (h : Header) : Prop :=
  block_weight h <> 0 /\ block_weight h <= MAX_BLOCK_SIZE /\
  previous_hash h = from_option block_header_hash [] (last hs) /\
  exists bits, prescribed_difficulty hs = Ok bits /\ pow_meets h bits.

Fixpoint admitted_after (hs new : list Header) : Prop :=
  match new with
  | [] => True
  | h :: new => header_admitted hs h /\ admitted_after (hs ++ [h]) new
  end.

(** The work the headers stand for, on top of [w]. *)
Definition add_work (w : list Z) (hs : list Header) : list Z :=
  foldl (fun w h => Work.saturating_add w (default Work.ZERO (block_work (target_bits h)))) w hs.

Lemma header_work_Ok h bits work :
  fits 32 bits -> target_bits h = bits ->
  header_work (Some POW_ARGON2_MEMORY_KIB) h bits = Returned (Ok work) <->
  pow_meets h bits /\ work = default Work.ZERO (block_work bits).
Proof.
  intros Hf Hb. unfold header_work. rewrite returns_lift, verify_pow_with_memory_eq.
  pose proof (WorkFacts.block_work_spec bits Hf) as Hw. split.
  - intros ([] & Hv%map_err_Ok_inv%verify_pow_Ok & Hok)%bind_Ok. split; [done|].
    apply ok_or_Ok in Hok. by rewrite Hok.
  - intros [Hp ->]. apply bind_Ok. exists tt. apply verify_pow_Ok in Hp as Hv. rewrite Hv.
    split; [done|]. destruct Hp as (_ & t & hash & Ht & _). rewrite Ht in Hw.
    by destruct (block_work bits).
Qed.

Lemma last_numbered hs p :
  last (numbered hs) = Some p <->
  last hs = Some (hh_header p) /\ hh_height p = Z.of_nat (length hs) - 1.
Proof.
  rewrite !last_lookup, numbered_length, numbered_lookup. destruct p as [z h], hs as [|x hs]; [cbn; naive_solver|].
  cbn [length pred hh_header hh_height]. destruct ((x :: hs) !! length hs) as [y|]; cbn [fmap option_fmap option_map]; [|naive_solver].
  split; [intros [= <- <-]; split; [done|lia]|intros [[= <-] ->]; do 2 f_equal; lia].
Qed.

Lemma validate_header_weight_Ok h u :
  validate_header_weight h = Ok u <-> block_weight h <> 0 /\ block_weight h <= MAX_BLOCK_SIZE.
Proof.
  unfold validate_header_weight, guard_err. destruct u, (Z.eqb_spec (block_weight h) 0); cbn [orb].
  - naive_solver.
  - destruct (Z.ltb_spec MAX_BLOCK_SIZE (block_weight h)); naive_solver lia.
Qed.

(** One header of the loop. *)
Lemma verify_loop_step c l hs p w tip work :
  last (numbered hs) = Some p -> Z.of_nat (length hs) < 2 ^ 64 ->
  fits 32 (target_bits (hh_header c)) ->
  verify_loop (Some POW_ARGON2_MEMORY_KIB) p w (last_n window (numbered hs)) (c :: l)
    = Returned (Ok (tip, work)) <->
  hh_height c = Z.of_nat (length hs) /\ header_admitted hs (hh_header c) /\
  verify_loop (Some POW_ARGON2_MEMORY_KIB) c (add_work w [hh_header c])
    (last_n window (numbered hs ++ [c])) l = Returned (Ok (tip, work)).
Proof.
  intros [Hl Hz]%last_numbered Hlen Hf. cbn [verify_loop]. rewrite <- push_recent_spec.
  assert (saturating_add 64 (hh_height p) 1 = Z.of_nat (length hs)) as Hn
    by (rewrite Hz; unfold saturating_add; lia).
  unfold expected_header_difficulty, header_admitted, header_hash. rewrite Hn, Hl.
  cbn [from_option add_work foldl]. split.
  - intros (u & Hw%returns_lift%validate_header_weight_Ok & Hv)%returns_bind.
    apply returns_bind in Hv as ([] & [?%Z.eqb_eq ?%bool_decide_eq_true_1]%returns_require%andb_true_iff & Hv).
    apply returns_bind in Hv as (bits & Hd%returns_lift & Hv). apply (prescribed_recent hs _ _ Hl) in Hd.
    apply returns_bind in Hv as ([] & Hb%returns_require%Z.eqb_eq & Hv). subst bits.
    apply returns_bind in Hv as (work' & Hwk & Hv).
    apply (header_work_Ok _ _ _ Hf eq_refl) in Hwk as [Hp ->].
    split_and!; try done; [apply Hw|apply Hw|eauto].
  - intros (Hh & (Hw1 & Hw2 & Hprev & bits & Hd & Hp) & Hv). pose proof (proj1 Hp) as Hb. subst bits.
    apply returns_bind. exists tt. split; [by apply returns_lift, validate_header_weight_Ok|].
    apply returns_bind. exists tt.
    split; [apply returns_require, andb_true_iff; split; [by apply Z.eqb_eq|by apply bool_decide_eq_true_2]|].
    apply returns_bind. eexists. split; [by apply returns_lift, prescribed_recent|].
    apply returns_bind. exists tt. split; [by apply returns_require, Z.eqb_refl|].
    apply returns_bind. eexists. split; [by apply header_work_Ok|done].
Qed.

Lemma verify_loop_exact l hs p w tip work :
  last (numbered hs) = Some p -> Z.of_nat (length hs + length l) <= 2 ^ 64 ->
  Forall (fun e => fits 32 (target_bits (hh_header e))) l ->
  verify_loop (Some POW_ARGON2_MEMORY_KIB) p w (last_n window (numbered hs)) l
    = Returned (Ok (tip, work)) <->
  exists new, l = numbered_from (length hs) new /\ admitted_after hs new /\
    tip = from_option block_header_hash [] (last (hs ++ new)) /\ work = add_work w new.
Proof.
  revert hs p w. induction l as [|c l IH]; intros hs p w Hp Hlen Hf.
  - cbn [verify_loop]. apply last_numbered in Hp as [Hl _]. split.
    + intros [= <- <-]. exists []. rewrite app_nil_r, Hl. done.
    + intros (new & Hnew & _ & -> & ->). destruct new; [|by rewrite numbered_from_cons in Hnew].
      rewrite app_nil_r, Hl. done.
  - apply Forall_cons in Hf as [Hfc Hf]. cbn [length] in Hlen. rewrite verify_loop_step by (done || lia).
    assert (hh_height c = Z.of_nat (length hs) ->
            numbered hs ++ [c] = numbered (hs ++ [hh_header c])) as Hc.
    { intros Hh. rewrite numbered_snoc, <- Hh. by destruct c. }
    split.
    + intros (Hh & Ha & Hv). rewrite Hc in Hv by done. apply IH in Hv as (new & -> & Had & -> & ->);
        [|rewrite <- Hc, last_snoc by done; done|rewrite length_app; cbn; lia|done].
      exists (hh_header c :: new). rewrite numbered_from_cons, <- Hh, length_app, Nat.add_1_r.
      rewrite <- app_assoc in *. split_and!; try done. by destruct c.
    + intros (new & Hnew & Had & -> & ->). destruct new as [|h new]; [done|].
      rewrite numbered_from_cons in Hnew. injection Hnew as -> ->. destruct Had as [Ha Had].
      cbn [hh_height hh_header] in *. split_and!; try done. rewrite Hc by done.
      apply IH; [rewrite <- Hc, last_snoc by done; done|rewrite length_app; cbn; lia|done|].
      exists new. rewrite length_app, Nat.add_1_r, <- app_assoc. done.
Qed.

Lemma verify_loop_returns kib p w r l : verify_loop (Some kib) p w r l <> Panicked.
Proof.
  revert p w r. induction l as [|c l IH]; intros p w r; [done|]. cbn [verify_loop header_work].
  destruct (validate_header_weight (hh_header c)); [|done]. cbn. destruct (_ && _); [|done]. cbn.
  destruct (expected_header_difficulty _ _); [|done]. cbn. destruct (_ =? _); [|done]. cbn.
  destruct (map_err _ _); [|done]. cbn. destruct (ok_or _ _); [|done]. apply IH.
Qed.

Lemma verify_loop_memory n p w r l :
  (length l < n)%nat ->
  verify_loop (new_pow_memory (1 <? n)%nat) p w r l
  = verify_loop (Some POW_ARGON2_MEMORY_KIB) p w r l.
Proof.
  intros Hn. destruct l; [done|]. cbn [length] in Hn. by rewrite (proj2 (Nat.ltb_lt _ _)) by lia.
Qed.

Lemma header_chain_Ok l genesis tip work :
  Z.of_nat (length l) <= 2 ^ 64 ->
  Forall (fun e => fits 32 (target_bits (hh_header e))) l ->
  verify_header_chain l genesis = Returned (Ok (tip, work)) <->
  exists g new, l = numbered (g :: new) /\ block_header_hash g = genesis /\
    admitted_after [g] new /\ tip = from_option block_header_hash [] (last (g :: new)) /\
    work = add_work Work.ZERO new.
Proof.
  intros Hlen Hf. destruct l as [|c l].
  { split; [done|]. by intros (g & new & Hl & _). }
  unfold verify_header_chain. rewrite verify_loop_memory by (cbn; lia).
  apply Forall_cons in Hf as [_ Hf]. cbn [length] in Hlen. destruct c as [z h].
  unfold header_hash. cbn [hh_height hh_header]. unfold numbered. split.
  - intros ([] & [->%Z.eqb_eq Hg%bool_decide_eq_true_1]%returns_require%andb_true_iff & Hv)%returns_bind.
    change [_] with (last_n window (numbered [h])) in Hv.
    apply verify_loop_exact in Hv as (new & -> & Had & -> & ->); [|done|cbn; lia|done].
    exists h, new. by rewrite numbered_from_cons.
  - intros (g & new & Hl & Hg & Had & -> & ->). rewrite numbered_from_cons in Hl.
    injection Hl as -> -> ->. apply returns_bind. exists tt.
    split; [by apply returns_require, andb_true_iff; split; [|by apply bool_decide_eq_true_2]|].
    change [_] with (last_n window (numbered [g])).
    apply verify_loop_exact; [done|cbn; lia|done|by exists new].
Qed.

(** (C21) Header validation is exact and total.  It never panics, and accepts a list
    exactly when it is numbered from zero, starts at the configured genesis, and
    every further header has a weight within bounds, names the hash of the one
    before, and carries proof of work under the target the whole list before it
    prescribes, although only a window of headers is kept; the result is the
    hash of the last header and the accumulated work.  What the list prescribes
    is what block admission asks of a block on the chain of these headers. *)
Theorem header_chain_exact l genesis tip work :
  Z.of_nat (length l) <= 2 ^ 64 ->
  Forall (fun e => fits 32 (target_bits (hh_header e))) l ->
  verify_header_chain l genesis <> Panicked /\
  (verify_header_chain l genesis = Returned (Ok (tip, work)) <->
   exists g new, l = numbered (g :: new) /\ block_header_hash g = genesis /\
     admitted_after [g] new /\ tip = from_option block_header_hash [] (last (g :: new)) /\
     work = add_work Work.ZERO new) /\
  (forall hs c bits, chain_of hs c -> hs <> [] ->
   expected_difficulty c (Z.of_nat (length hs)) = Ok bits <-> prescribed_difficulty hs = Ok bits).
Proof.
  intros Hlen Hf. split; [|split; [by apply header_chain_Ok|by intros; apply prescribed_admission]].
  unfold verify_header_chain. destruct l as [|c l]; [done|]. destruct (_ && _); [|done].
  rewrite verify_loop_memory by (cbn; lia). apply verify_loop_returns.
Qed.

(** ** Incremental validation *)

Lemma last_n_short {A} n (l : list A) : (length l <= n)%nat -> last_n n l = l.
Proof. intros Hl. unfold last_n. by replace (length l - n)%nat with 0%nat by lia. Qed.

(** Validating a longer list continues where the shorter one ended. *)
Lemma verify_header_chain_app l ext genesis hash w tip :
  verify_header_chain l genesis = Returned (Ok (hash, w)) -> last l = Some tip ->
  verify_header_chain (l ++ ext) genesis
  = verify_loop (Some POW_ARGON2_MEMORY_KIB) tip w (last_n window l) ext.
Proof.
  destruct l as [|c l]; [done|]. intros Hv Ht. rewrite <- app_comm_cons.
  unfold verify_header_chain in *. apply returns_bind in Hv as ([] & -> & Hv).
  cbn [mbind run_mbind]. rewrite verify_loop_memory in * by (cbn; lia).
  rewrite (verify_loop_app _ _ _ _ _ _ _ _ Hv). rewrite last_cons in Ht.
  change [c] with (last_n window [c]). rewrite recent_after. cbn [app]. f_equal.
  destruct (last l); by injection Ht.
Qed.

(** What the summary of a validated list holds. *)
Lemma header_validation_state_Ok l genesis st :
  header_validation_state l genesis = Returned (Ok st) <->
  exists hash tip, verify_header_chain l genesis = Returned (Ok (hash, hv_cumulative_work st)) /\
    last l = Some tip /\ hv_height st = hh_height tip /\ hv_header st = hh_header tip /\
    hv_cumulative_weight st = add_weights 0 (drop 1 l) /\
    l !! (if 0 <? hh_height tip then 1%nat else 0%nat) = Some (hv_difficulty_anchor st) /\
    hv_recent_headers st = last_n window l.
Proof.
  unfold header_validation_state. split.
  - intros ([hash w] & Hv & (tip & Ht%returns_lift%ok_or_Ok & (a & Ha%returns_lift%ok_or_Ok & [= <-])%returns_bind)
      %returns_bind)%returns_bind.
    exists hash, tip. by split_and!.
  - intros (hash & tip & -> & -> & Hh & Hd & Hw & Ha & Hr). cbn [mbind run_mbind ok_or run_lift].
    rewrite Ha. cbn. destruct st; cbn in *. by subst.
Qed.

Lemma add_weights_app total a b : add_weights total (a ++ b) = add_weights (add_weights total a) b.
Proof. apply fold_left_app. Qed.

Lemma verify_loop_height memory p w r l x :
  verify_loop memory p w r l = Returned (Ok x) -> 0 < hh_height p ->
  0 < hh_height (default p (last l)).
Proof.
  revert p w r. induction l as [|c l IH]; intros p w r Hv Hp; [done|]. cbn [verify_loop] in Hv.
  apply returns_bind in Hv as (? & _ & Hv).
  apply returns_bind in Hv as (? & [Hc%Z.eqb_eq _]%returns_require%andb_true_iff & Hv).
  do 3 apply returns_bind in Hv as (? & _ & Hv). apply IH in Hv.
  - rewrite last_cons. by destruct (last l).
  - rewrite Hc. unfold saturating_add. lia.
Qed.

(** The summary keeps what validating further headers needs. *)
Lemma extension_verify l genesis st ext memory :
  header_validation_state l genesis = Returned (Ok st) ->
  memory = Some POW_ARGON2_MEMORY_KIB \/ memory = new_pow_memory (negb (length ext =? 0)%nat) ->
  verify_header_chain_extension_inner st ext memory = verify_header_chain (l ++ ext) genesis.
Proof.
  intros (hash & tip & Hv & Ht & Hh & Hd & _ & _ & Hr)%header_validation_state_Ok Hm.
  rewrite (verify_header_chain_app _ _ _ _ _ _ Hv Ht).
  unfold verify_header_chain_extension_inner. rewrite Hr, last_last_n, Ht, Hd, Hh by apply window_pos.
  rewrite bool_decide_eq_true_2 by done. rewrite (proj2 (Z.leb_le _ _)).
  2:{ rewrite length_last_n. unfold window, RECENT_HEADER_WINDOW, WBDA_WINDOW. lia. }
  cbn [andb run_require run_lift mbind run_mbind].
  change (block_header_hash (hh_header tip)) with (header_hash tip). rewrite extension_loop_verify.
  destruct Hm as [->| ->]; [done|]. by destruct ext.
Qed.

Definition set_anchor (a : HeaderAtHeight) (st : HeaderValidationState) : HeaderValidationState :=
  {| hv_height := hv_height st; hv_header := hv_header st;
     hv_cumulative_work := hv_cumulative_work st; hv_cumulative_weight := hv_cumulative_weight st;
     hv_difficulty_anchor := a; hv_recent_headers := hv_recent_headers st |}.

Definition run_map {E A B} (f : A -> B) (m : Run E A) : Run E B := a ← m; mret (f a).

Lemma advanced_state l genesis st ext hash w :
  header_validation_state l genesis = Returned (Ok st) ->
  verify_header_chain (l ++ ext) genesis = Returned (Ok (hash, w)) ->
  exists st', header_validation_state (l ++ ext) genesis = Returned (Ok st') /\
    advanced_header_validation_state st ext w = set_anchor (hv_difficulty_anchor st) st' /\
    (0 < hv_height st -> hv_difficulty_anchor st' = hv_difficulty_anchor st).
Proof.
  intros (hash0 & tip & Hv0 & Ht & Hh & Hd & Hw & Ha & Hr)%header_validation_state_Ok Hv.
  assert (l <> []) as Hne by (by intros ->).
  set (tip' := default tip (last ext)).
  assert (last (l ++ ext) = Some tip') as Ht'.
  { rewrite last_app. unfold tip'. by destruct (last ext). }
  assert (exists a, (l ++ ext) !! (if 0 <? hh_height tip' then 1%nat else 0%nat) = Some a /\
      (0 < hh_height tip -> a = hv_difficulty_anchor st)) as (a & Ha' & Hanchor).
  { rewrite (verify_header_chain_app _ _ _ _ _ _ Hv0 Ht) in Hv.
    destruct (Z.ltb_spec 0 (hh_height tip)) as [Hp|Hp].
    - rewrite (proj2 (Z.ltb_lt _ _)) by (by eapply verify_loop_height).
      exists (hv_difficulty_anchor st). split; [|done]. by apply lookup_app_l_Some.
    - destruct (Z.ltb_spec 0 (hh_height tip')) as [Hp'|Hp'].
      + destruct (lookup_lt_is_Some_2 (l ++ ext) 1) as [a Hl]; [|exists a; split; [done|lia]].
        rewrite length_app. destruct l as [|x l]; [done|]. destruct ext as [|e ext]; [|cbn; lia].
        unfold tip' in Hp'. cbn in Hp'. lia.
      + exists (hv_difficulty_anchor st). split; [by apply lookup_app_l_Some|lia]. }
  exists {| hv_height := hh_height tip'; hv_header := hh_header tip'; hv_cumulative_work := w;
       hv_cumulative_weight := add_weights 0 (drop 1 (l ++ ext)); hv_difficulty_anchor := a;
       hv_recent_headers := last_n window (l ++ ext) |}.
  split; [apply header_validation_state_Ok; cbn; exists hash, tip'; by split_and!|].
  cbn. split; [|by rewrite Hh]. unfold advanced_header_validation_state, set_anchor. cbn. f_equal.
  - unfold tip'. by destruct (last ext).
  - unfold tip'. by destruct (last ext).
  - rewrite Hw, <- add_weights_app. destruct l; [done|]. done.
  - by rewrite Hr, window_truncate, last_n_app.
Qed.

(** (C22) Extending a validated summary is validating the longer list.  Whatever the
    further headers are, valid or not, advancing the summary of a validated list
    returns the summary, or the error, that validating the whole list returns,
    with the caller's buffer of consensus size or a fresh one; only the
    difficulty anchor is the old one, which differs exactly when the summary was
    that of the genesis alone. *)
Theorem header_state_incremental l genesis st ext :
  header_validation_state l genesis = Returned (Ok st) ->
  advance_header_validation_state st ext
    = run_map (set_anchor (hv_difficulty_anchor st)) (header_validation_state (l ++ ext) genesis) /\
  advance_header_validation_state_with_memory st ext POW_ARGON2_MEMORY_KIB
    = advance_header_validation_state st ext /\
  (0 < hv_height st ->
   advance_header_validation_state st ext = header_validation_state (l ++ ext) genesis).
Proof.
  intros Hst. unfold advance_header_validation_state, advance_header_validation_state_with_memory,
    verify_header_chain_extension, verify_header_chain_extension_with_memory.
  rewrite !(extension_verify l genesis st ext) by (done || (by left) || (by right)).
  destruct (verify_header_chain (l ++ ext) genesis) as [[[hash w]|e]|] eqn:Hv.
  - destruct (advanced_state _ _ _ _ _ _ Hst Hv) as (st' & -> & Hadv & Hanchor).
    cbn. rewrite Hadv. split_and!; [done|done|]. intros Hp. rewrite <- Hanchor by done. by destruct st'.
  - unfold header_validation_state. rewrite Hv. done.
  - unfold header_validation_state. rewrite Hv. done.
Qed.
End loops.

(** ** Headers first, blocks later *)

Section agreement.
Context `{Sha3} `{Argon2}.

Lemma block_weight_pos b : block_validate b = Ok tt -> 0 < block_weight (header b) <= MAX_BLOCK_SIZE.
Proof.
  intros (_ & _ & _ & (bytes & Hb & Hw) & _)%block_validate_Ok. split; [|lia].
  enough (0 < Z.of_nat (length bytes)) by lia. unfold block_bytes in Hb.
  destruct (block_encodable b); [|done]. injection Hb as <-. cbn. rewrite !length_app. cbn.
  rewrite ?length_app. cbn. lia.
Qed.

(** (C23) Headers-first synchronization and block admission agree: on the summary of
    a chain's headers, a structurally valid block with the authorized emission is
    admitted to the chain exactly when its header extends the summary. *)
Theorem header_sync_agrees hs c genesis st b e memory :
  chain_of hs c -> Z.of_nat (length hs) < 2 ^ 64 -> consensus_memory memory ->
  fits 32 (target_bits (header b)) -> 0 < height b ->
  header_validation_state (numbered hs) genesis = Returned (Ok st) ->
  block_validate b = Ok tt ->
  authorize_emission (previous_hash (header b)) (height b) (b_emission (body b))
    (b_operations (body b)) = Ok e ->
  validate_for_apply b c true memory = Ok {| v_block := b; v_emission := Some e |} <->
  exists st', advance_header_validation_state st [{| hh_height := height b; hh_header := header b |}]
    = Returned (Ok st').
Proof.
  intros Hc Hlen Hm Hf Hb Hst Hv He.
  assert (hs <> []) as Hne. { intros ->. done. }
  rewrite (validate_for_apply_Ok hs) by done.
  transitivity (height b = Z.of_nat (length hs) /\ header_admitted hs (header b)).
  - unfold header_admitted, extends.
    pose proof (block_weight_pos b Hv).
    destruct (last hs) as [h|] eqn:Hl; [|by apply last_None in Hl]. cbn [from_option]. split.
    + intros (_ & (Hh & _ & Hp) & (bits & Hd & Hpow) & _). rewrite Hh in Hd.
      apply (prescribed_admission hs c) in Hd; [|done..]. split_and!; try done; [lia|lia|eauto].
    + intros (Hh & _ & _ & Hp & bits & Hd & Hpow).
      apply (prescribed_admission hs c) in Hd; [|done..]. rewrite <- Hh in Hd. split_and!; try done; [lia|eauto..].
  - pose proof Hst as (hash & tip & Hvh & Ht & _)%header_validation_state_Ok.
    pose proof (verify_loop_step {| hh_height := height b; hh_header := header b |} [] hs tip
      (hv_cumulative_work st)) as Hs. cbn [hh_height hh_header verify_loop] in Hs.
    unfold advance_header_validation_state, verify_header_chain_extension.
    rewrite (extension_verify (numbered hs) genesis) by (done || by right).
    rewrite (verify_header_chain_app _ _ _ _ _ _ Hvh Ht). split.
    + intros [Hh Had]. eexists. apply returns_bind. eexists (_, _). split; [|reflexivity].
      apply Hs; [done|done|done|]. by split_and!.
    + intros (st' & ([hash' w'] & Hl & _)%returns_bind). apply Hs in Hl as (? & ? & _); done.
Qed.
End agreement.

(** ** Witnesses *)

Section examples.
#[local] Existing Instance toy_sha3.
#[local] Existing Instance toy_argon2.

Definition sample_headers : list Header := [header sample_genesis; header sample_next].
Definition sample_next_header : HeaderAtHeight :=
  {| hh_height := height sample_next; hh_header := header sample_next |}.

Lemma sample_bits : Forall (fun e => fits 32 (target_bits (hh_header e))) (numbered sample_headers).
Proof. repeat constructor; vm_compute; congruence. Qed.

(** The summary of the genesis alone. *)
Definition genesis_summary : HeaderValidationState :=
  {| hv_height := 0; hv_header := header sample_genesis; hv_cumulative_work := Work.ZERO;
     hv_cumulative_weight := 0;
     hv_difficulty_anchor := {| hh_height := 0; hh_header := header sample_genesis |};
     hv_recent_headers := numbered [header sample_genesis] |}.

Lemma genesis_summary_valid :
  header_validation_state (numbered [header sample_genesis]) (block_hash sample_genesis)
  = Returned (Ok genesis_summary).
Proof. vm_compute. reflexivity. Qed.

Lemma header_chain_exact_witness :
  exists g new, numbered sample_headers = numbered (g :: new) /\ new <> [] /\ admitted_after [g] new.
Proof.
  destruct (verify_header_chain (numbered sample_headers) (block_hash sample_genesis))
    as [[[tip work]|]|] eqn:Hv; [|vm_compute in Hv; discriminate..].
  destruct (proj1 (proj1 (proj2 (header_chain_exact (numbered sample_headers)
    (block_hash sample_genesis) tip work ltac:(vm_compute; congruence) sample_bits))) Hv)
    as (g & new & Hl & _ & Ha & _).
  exists g, new. split; [exact Hl|]. split; [|exact Ha]. intros ->. discriminate Hl.
Defined.

Lemma header_state_incremental_witness :
  exists st full,
    advance_header_validation_state genesis_summary [sample_next_header] = Returned (Ok st) /\
    header_validation_state (numbered sample_headers) (block_hash sample_genesis)
      = Returned (Ok full) /\
    hh_height (hv_difficulty_anchor st) = 0 /\ hh_height (hv_difficulty_anchor full) = 1 /\
    st = set_anchor (hv_difficulty_anchor genesis_summary) full.
Proof.
  destruct (header_validation_state (numbered sample_headers) (block_hash sample_genesis))
    as [[full|]|] eqn:Hv; [|vm_compute in Hv; discriminate..].
  exists (set_anchor (hv_difficulty_anchor genesis_summary) full), full.
  split; [|split_and!; try reflexivity; vm_compute in Hv; injection Hv as <-; reflexivity].
  rewrite (proj1 (header_state_incremental (numbered [header sample_genesis])
    (block_hash sample_genesis) genesis_summary [sample_next_header] genesis_summary_valid)).
  change (numbered [header sample_genesis] ++ [sample_next_header]) with (numbered sample_headers).
  rewrite Hv. reflexivity.
Defined.

Lemma header_sync_agrees_witness :
  exists st', advance_header_validation_state genesis_summary [sample_next_header]
    = Returned (Ok st').
Proof.
  destruct (validate_for_apply sample_next sample_chain true None) as [v|] eqn:Hv;
    [|vm_compute in Hv; discriminate].
  destruct (authorize_emission (previous_hash (header sample_next)) (height sample_next)
    (b_emission (body sample_next)) (b_operations (body sample_next))) as [e|] eqn:He;
    [|vm_compute in He; discriminate].
  refine (proj1 (header_sync_agrees [header sample_genesis] sample_chain
    (block_hash sample_genesis) genesis_summary sample_next e None sample_chain_of
    ltac:(vm_compute; reflexivity) (or_introl eq_refl) ltac:(vm_compute; split; congruence)
    ltac:(vm_compute; reflexivity) genesis_summary_valid ltac:(vm_compute; reflexivity) He) _).
  vm_compute in He. injection He as <-. vm_compute. reflexivity.
Defined.
End examples.
