(* ===== verification/State.v ===== *)
(** * Ledger state, coin accounting and rollback journals

    Models [kernel/src/ledger/state.rs], [ledger/applied/rollback.rs],
    [StateError] of [error.rs] and the coin half of
    [ledger/canonical/accounting.rs].

    The state root cache is derived memoization, excluded from equality, and is
    left out.  [rollback_coin] is a computation of [ST]: what it leaves behind
    when it fails is part of the model. *)

From S2P Require Import Prelude Codec Monetary Index Coin Assets AssetFacts AssetProps AssetAudit.
From S2P Require Import Vm Registry.
#[local] Open Scope Z_scope.

Record CoinRecord := { total_mined : Z; total_burned : Z }.

Definition coin_supply (self : CoinRecord) : option Z :=
  Zeno.checked_sub (total_mined self) (total_burned self).

Record LedgerState := {
  utxos : UtxoSet;
  coin_record : CoinRecord;
  l_programs : ProgramRegistry;
  l_assets : AssetState;
}.

Record CoinRollbackJournal := {
  consumed_coins : list (CoinShare * CoinUtxo);
  created_coin_ids : list CoinShare;
  mined : Z;
  burned : Z;
}.

Definition empty_coin_journal : CoinRollbackJournal :=
  {| consumed_coins := []; created_coin_ids := []; mined := 0; burned := 0 |}.

Record StateRollbackJournal := {
  sj_coin : option CoinRollbackJournal;
  sj_program : option ProgramJournal;
  sj_extension : option AssetJournal;
}.

Definition protocol_burn (self : StateRollbackJournal) : Z :=
  match sj_coin self with Some journal => burned journal | None => 0 end.

Inductive StateError :=
| Utxo (e : UtxoError) | InvalidTransition | OutputIndexOverflow | BurnOverflow
| BurnUnderflow | AmountOverflow.

Definition with_utxos (s : LedgerState) (u : UtxoSet) : LedgerState :=
  {| utxos := u; coin_record := coin_record s; l_programs := l_programs s;
     l_assets := l_assets s |}.

Definition with_coin_record (s : LedgerState) (c : CoinRecord) : LedgerState :=
  {| utxos := utxos s; coin_record := c; l_programs := l_programs s; l_assets := l_assets s |}.

(** [self.utxos.consume_coin(&id)?] and [self.utxos.insert_coin(id, coin)?]. *)
Definition state_consume (id : CoinShare) : ST LedgerState StateError CoinUtxo := fun s =>
  match consume_coin (utxos s) id with
  | Ok (c, u) => (with_utxos s u, Ok c)
  | Err e => (s, Err (Utxo e))
  end.

Definition state_insert (id : CoinShare) (c : CoinUtxo) : ST LedgerState StateError unit :=
  st_update (fun s => map_err Utxo (insert_coin (utxos s) id c) ≫= fun u => Ok (with_utxos s u)).

(** ** Rollback of coin changes *)

(** The journal's created identifiers are distinct and live. *)
Fixpoint check_created (u : UtxoSet) (ids : list CoinShare) (created : gset CoinShare)
    : result StateError (gset CoinShare) :=
  match ids with
  | [] => Ok created
  | id :: ids =>
      fail_if bool_decide (id ∈ created) || bool_decide (coin u id = None)
        with InvalidTransition;
      check_created u ids ({[id]} ∪ created)
  end.

(** Its consumed identifiers are distinct, and not live unless re-created. *)
Fixpoint check_consumed (u : UtxoSet) (created : gset CoinShare)
    (coins : list (CoinShare * CoinUtxo)) (consumed : gset CoinShare)
    : result StateError unit :=
  match coins with
  | [] => Ok tt
  | (id, _) :: coins =>
      fail_if bool_decide (id ∈ consumed)
              || (bool_decide (is_Some (coin u id)) && negb (bool_decide (id ∈ created)))
        with InvalidTransition;
      check_consumed u created coins ({[id]} ∪ consumed)
  end.

Definition rollback_coin (journal : CoinRollbackJournal) : ST LedgerState StateError unit :=
  total_mined ← st_check (fun s =>
    ok_or (Zeno.checked_sub (total_mined (coin_record s)) (mined journal)) AmountOverflow);
  total_burned ← st_check (fun s =>
    ok_or (Zeno.checked_sub (total_burned (coin_record s)) (burned journal)) BurnUnderflow);
  created ← st_check (fun s => check_created (utxos s) (created_coin_ids journal) ∅);
  _ ← st_check (fun s => check_consumed (utxos s) created (consumed_coins journal) ∅);
  _ ← st_modify (fun s =>
    with_coin_record s {| total_mined := total_mined; total_burned := total_burned |});
  _ ← st_iter (fun id => _ ← state_consume id; mret tt) (created_coin_ids journal);
  st_iter (fun '(id, c) => state_insert id c) (consumed_coins journal).

Section rollback_state.
Context `{Sha3} `{RootTest}.

(** [rollback_state]: on a staged clone, installed only when every part
    succeeded. *)
Definition rollback_staged (journal : StateRollbackJournal) : ST LedgerState StateError unit :=
  _ ← match sj_program journal with
      | None => mret tt
      | Some program => fun s =>
          match rollback_program program (l_programs s) with
          | (r, Ok _) =>
              ({| utxos := utxos s; coin_record := coin_record s; l_programs := r;
                  l_assets := l_assets s |}, Ok tt)
          | (r, Err _) =>
              ({| utxos := utxos s; coin_record := coin_record s; l_programs := r;
                  l_assets := l_assets s |}, Err InvalidTransition)
          end
      end;
  _ ← match sj_extension journal with
      | None => mret tt
      | Some extension => st_modify (fun s =>
          {| utxos := utxos s; coin_record := coin_record s; l_programs := l_programs s;
             l_assets := rollback extension (l_assets s) |})
      end;
  match sj_coin journal with
  | None => mret tt
  | Some coin => rollback_coin coin
  end.

Definition rollback_state (journal : StateRollbackJournal) : ST LedgerState StateError unit :=
  fun s => match rollback_staged journal s with
           | (staged, Ok _) => (staged, Ok tt)
           | (_, Err e) => (s, Err e)
           end.
End rollback_state.

(** ** Coin audits *)

Inductive CoinAuditError :=
| CoinSupplyMismatch | InvalidCoinState | CoinSupplyOverflow | BlockAccountingMismatch.

(** [validate_supply_with_asset_cache], the coin test. *)
Definition validate_coin_supply (s : LedgerState) : result CoinAuditError unit :=
  let coin_total := total_value (utxos s) in
  fail_if negb (bool_decide (coin_supply (coin_record s) = Some coin_total))
          || negb (Bool.eqb (utxo_is_empty (utxos s)) (Zeno.is_zero coin_total))
    with CoinSupplyMismatch;
  Ok tt.

(** [try_fold] with [checked_add]: the amount of an item, then the sum. *)
Definition sum_fold {E B} (amount : B -> result E Z) (overflow : E) (total : Z) (b : B)
    : result E Z :=
  a ← amount b; ok_or (Zeno.checked_add total a) overflow.

Definition audit_amount (entry : CoinShare * CoinUtxo) : result CoinAuditError Z :=
  fail_if Zeno.is_zero (cu_amount entry.2) with InvalidCoinState;
  Ok (cu_amount entry.2).

Definition audit_coin_supply (s : LedgerState) : result CoinAuditError unit :=
  actual ← try_fold (sum_fold audit_amount CoinSupplyOverflow) (sorted_entries (coins (utxos s))) 0;
  fail_if negb (actual =? total_value (utxos s))
          || negb (bool_decide (coin_supply (coin_record s) = Some actual))
    with CoinSupplyMismatch;
  Ok tt.

Definition input_amount_of {E} (missing : E) (s : LedgerState) (id : CoinShare) : result E Z :=
  c ← ok_or (coin (utxos s) id) missing; Ok (cu_amount c).

Definition expected_coin_burn (s : LedgerState) (intent : CoinTransition)
    : result CoinAuditError Z :=
  input_total ← try_fold
    (sum_fold (input_amount_of BlockAccountingMismatch s) CoinSupplyOverflow) (ct_inputs intent) 0;
  output_total ← try_fold
    (sum_fold (fun output => Ok (co_amount output)) CoinSupplyOverflow) (ct_outputs intent)
    (miner_fee (charges intent));
  ok_or (Zeno.checked_sub input_total output_total) BlockAccountingMismatch.

Definition validate_block_accounting (before : Z) (after : LedgerState) (subsidy burns : Z)
    : result CoinAuditError unit :=
  expected ← ok_or (total ← Zeno.checked_add before subsidy; Zeno.checked_sub total burns)
               BlockAccountingMismatch;
  fail_if negb (total_value (utxos after) =? expected) with BlockAccountingMismatch;
  Ok tt.

(** ** Well-formed coin state *)

(** The coin store is well formed, the counters are unsigned, and the supply
    they imply is the live value. *)
Record coin_state_ok (s : LedgerState) : Prop := {
  cs_utxo : utxo_wf (utxos s);
  cs_mined : 0 <= total_mined (coin_record s) < 2 ^ 64;
  cs_burned : 0 <= total_burned (coin_record s) < 2 ^ 64;
  cs_supply : total_mined (coin_record s) - total_burned (coin_record s)
              = total_value (utxos s);
}.

(** What a journal says about the states before and after. *)
Record coin_journaled (before : LedgerState) (j : CoinRollbackJournal) (after : LedgerState)
    : Prop := {
  cj_before : utxo_wf (utxos before);
  cj_after : utxo_wf (utxos after);
  cj_created : NoDup (created_coin_ids j);
  cj_consumed : NoDup (consumed_coins j).*1;
  cj_new : forall id, id ∈ created_coin_ids j ->
    coins (utxos before) !! id = None /\ is_Some (coins (utxos after) !! id);
  cj_old : forall id c, (id, c) ∈ consumed_coins j ->
    coins (utxos before) !! id = Some c /\ coins (utxos after) !! id = None;
  cj_same : forall id, id ∉ created_coin_ids j -> id ∉ (consumed_coins j).*1 ->
    coins (utxos after) !! id = coins (utxos before) !! id;
  cj_mined : total_mined (coin_record after) = total_mined (coin_record before) + mined j;
  cj_burned : total_burned (coin_record after) = total_burned (coin_record before) + burned j;
  cj_counters : 0 <= total_mined (coin_record before) /\ 0 <= total_burned (coin_record before);
  cj_programs : l_programs after = l_programs before;
  cj_assets : l_assets after = l_assets before;
}.

(** ** Rollback restores *)

(** Running a bound computation whose first step is known. *)
Lemma st_bind_run {S E A B} (m : ST S E A) (f : A -> ST S E B) s s' a :
  m s = (s', Ok a) -> (m ≫= f) s = f a s'.
Proof. unfold mbind, st_mbind. by intros ->. Qed.

Lemma state_consume_run s id c u :
  consume_coin (utxos s) id = Ok (c, u) -> state_consume id s = (with_utxos s u, Ok c).
Proof. unfold state_consume. by intros ->. Qed.

Lemma state_insert_run s id c u :
  insert_coin (utxos s) id c = Ok u -> state_insert id c s = (with_utxos s u, Ok tt).
Proof. unfold state_insert, st_update. by intros ->. Qed.

Lemma value_of_mono (m m' : gmap CoinShare CoinUtxo) :
  map_Forall (fun _ c => coin_wf c) m' -> m ⊆ m' -> value_of m <= value_of m'.
Proof.
  intros Hm Hsub. unfold value_of.
  enough (map_sum (fun _ c => cu_amount c) m
    <= map_sum (fun _ c => cu_amount c) m' + map_sum (fun _ c => cu_amount c) (∅ : gmap CoinShare CoinUtxo)).
  { rewrite map_sum_empty in *. lia. }
  apply map_sum_mixed_le.
  - intros k c Hk. apply Hm in Hk. unfold coin_wf in Hk. lia.
  - intros k c Hk. by rewrite lookup_empty in Hk.
  - intros k c Hk. left. by eapply lookup_weaken.
Qed.

Lemma check_created_Ok u ids created :
  NoDup ids -> (forall id, id ∈ ids -> id ∉ created /\ is_Some (coins u !! id)) ->
  check_created u ids created = Ok (list_to_set ids ∪ created).
Proof.
  revert created. induction ids as [|id ids IH]; intros created Hnd Hin; cbn.
  { f_equal. set_solver. }
  apply NoDup_cons in Hnd as [Hni Hnd]. destruct (Hin id) as [Hc [c Hl]]; [left|].
  unfold coin. rewrite Hl, !bool_decide_eq_false_2 by done. cbn. rewrite IH; [|done|].
  - f_equal. set_solver.
  - intros id' Hid'. destruct (Hin id') as [? ?]; [by right|]. set_solver.
Qed.

Lemma check_consumed_Ok u created l consumed :
  NoDup l.*1 ->
  (forall id c, (id, c) ∈ l -> id ∉ consumed /\ (id ∈ created \/ coins u !! id = None)) ->
  check_consumed u created l consumed = Ok tt.
Proof.
  revert consumed. induction l as [|[id c] l IH]; intros consumed Hnd Hin; [done|]. cbn in *.
  apply NoDup_cons in Hnd as [Hni Hnd]. destruct (Hin id c) as [Hc Hor]; [left|].
  rewrite bool_decide_eq_false_2 by done. unfold coin.
  assert (bool_decide (is_Some (coins u !! id)) && negb (bool_decide (id ∈ created)) = false) as ->.
  { destruct Hor as [Hi| ->]; [rewrite (bool_decide_eq_true_2 (id ∈ created)) by done|done].
    apply andb_false_r. }
  cbn. apply IH; [done|]. intros id' c' Hid'. destruct (Hin id' c') as [? ?]; [by right|].
  split; [|done]. apply list_elem_of_fmap_2 with (f := fst) in Hid'. set_solver.
Qed.

Lemma consume_all s ids :
  utxo_wf (utxos s) -> NoDup ids -> (forall id, id ∈ ids -> is_Some (coins (utxos s) !! id)) ->
  exists u, st_iter (fun id => _ ← state_consume id; mret tt) ids s = (with_utxos s u, Ok tt) /\
    utxo_wf u /\
    forall id, coins u !! id = if decide (id ∈ ids) then None else coins (utxos s) !! id.
Proof.
  revert s. induction ids as [|id ids IH]; intros s Hwf Hnd Hl.
  { exists (utxos s). split; [by destruct s|]. split; [done|]. intros id. by rewrite decide_False by (by apply not_elem_of_nil). }
  apply NoDup_cons in Hnd as [Hni Hnd]. destruct (Hl id) as [c Hc]; [left|].
  destruct (consume_coin_total _ id c Hwf Hc) as [u1 Hu1].
  pose proof (consume_coin_wf _ _ _ _ Hwf Hu1) as Hwf1.
  pose proof Hu1 as (_ & _ & Heq)%consume_coin_Ok.
  assert (coins u1 = delete id (coins (utxos s))) as Hc1 by (by subst u1).
  destruct (IH (with_utxos s u1)) as (u & Hu & Hwfu & Hlu); [done|done|..].
  { intros id' Hid'. cbn. rewrite Hc1, lookup_delete_ne; [|set_solver]. apply Hl. by right. }
  exists u. split; [|split; [done|]].
  - cbn [st_iter]. erewrite st_bind_run; [exact Hu|].
    by rewrite (st_bind_run _ _ _ _ _ (state_consume_run _ _ _ _ Hu1)).
  - intros id'. rewrite Hlu. cbn. rewrite Hc1. destruct (decide (id' = id)) as [->|Hne].
    + rewrite (decide_True (P := id ∈ id :: ids)) by left. case_decide; [done|].
      apply lookup_delete_eq.
    + rewrite lookup_delete_ne by done. destruct (decide (id' ∈ ids)).
      * by rewrite decide_True by (by right).
      * rewrite decide_False by set_solver. done.
Qed.

Lemma insert_all (s : LedgerState) (m : gmap CoinShare CoinUtxo) (l : list (CoinShare * CoinUtxo)) :
  utxo_wf (utxos s) -> map_Forall (fun _ c => coin_wf c) m -> value_of m < 2 ^ 64 ->
  NoDup l.*1 -> coins (utxos s) ⊆ m ->
  (forall id c, (id, c) ∈ l -> m !! id = Some c /\ coins (utxos s) !! id = None) ->
  exists u, st_iter (fun '(id, c) => state_insert id c) l s = (with_utxos s u, Ok tt) /\
    utxo_wf u /\ coins u ⊆ m /\ coins (utxos s) ⊆ coins u /\
    forall id c, (id, c) ∈ l -> coins u !! id = Some c.
Proof.
  intros Hwf Hm Hb. revert s Hwf. induction l as [|[id c] l IH]; intros s Hwf Hnd Hsub Hl.
  { exists (utxos s). split; [by destruct s|]. split_and!; try done. set_solver. }
  cbn in Hnd. apply NoDup_cons in Hnd as [Hni Hnd]. destruct (Hl id c) as [Hmc Hnone]; [left|].
  assert (coin_wf c) as Hc by (by eapply Hm). unfold coin_wf in Hc.
  assert (<[id := c]> (coins (utxos s)) ⊆ m) as Hsub1 by (by apply insert_subseteq_l).
  destruct (insert_coin_total (utxos s) id c Hnone) as [u1 Hu1]; [lia| |].
  { rewrite (utxo_total _ Hwf). pose proof (value_of_mono _ _ Hm Hsub1) as Hv.
    unfold value_of in Hv at 1. rewrite map_sum_insert in Hv by done. unfold value_of in *. lia. }
  assert (utxo_wf u1) as Hwf1 by (eapply insert_coin_wf; [done| |done]; lia).
  pose proof Hu1 as (_ & _ & _ & Heq)%insert_coin_Ok.
  assert (coins u1 = <[id := c]> (coins (utxos s))) as Hc1 by (by subst u1).
  destruct (IH (with_utxos s u1)) as (u & Hu & Hwfu & Hsu & Hgu & Hlu); cbn; rewrite ?Hc1; try done.
  { intros id' c' Hin. destruct (Hl id' c') as [? ?]; [by right|]. split; [done|].
    rewrite lookup_insert_ne; [done|]. intros <-.
    by apply list_elem_of_fmap_2 with (f := fst) in Hin. }
  exists u. cbn in Hgu. rewrite Hc1 in Hgu. split; [|split_and!; try done].
  - cbn [st_iter]. by rewrite (st_bind_run _ _ _ _ _ (state_insert_run _ _ _ _ Hu1)).
  - etransitivity; [by apply insert_subseteq|done].
  - intros id' c' [Heq'|Hin]%elem_of_cons; [|by apply Hlu]. simplify_eq.
    eapply lookup_weaken; [apply lookup_insert_eq|done].
Qed.

(** What a rollback needs of a journal: its created identifiers are live, its
    consumed ones were, and an identifier may be both when it was consumed
    first. *)
Record coin_undoable (before : LedgerState) (j : CoinRollbackJournal) (after : LedgerState)
    : Prop := {
  ud_before : utxo_wf (utxos before);
  ud_after : utxo_wf (utxos after);
  ud_created : NoDup (created_coin_ids j);
  ud_consumed : NoDup (consumed_coins j).*1;
  ud_new : forall id, id ∈ created_coin_ids j -> is_Some (coins (utxos after) !! id) /\
    (coins (utxos before) !! id = None \/ id ∈ (consumed_coins j).*1);
  ud_old : forall id c, (id, c) ∈ consumed_coins j -> coins (utxos before) !! id = Some c /\
    (coins (utxos after) !! id = None \/ id ∈ created_coin_ids j);
  ud_same : forall id, id ∉ created_coin_ids j -> id ∉ (consumed_coins j).*1 ->
    coins (utxos after) !! id = coins (utxos before) !! id;
  ud_mined : total_mined (coin_record after) = total_mined (coin_record before) + mined j;
  ud_burned : total_burned (coin_record after) = total_burned (coin_record before) + burned j;
  ud_counters : 0 <= total_mined (coin_record before) /\ 0 <= total_burned (coin_record before);
}.

(** The coins of [before] in a state that is otherwise [after]. *)
Definition undone (before after : LedgerState) : LedgerState :=
  {| utxos := utxos before; coin_record := coin_record before; l_programs := l_programs after;
     l_assets := l_assets after |}.

Lemma rollback_coin_undoes before j after :
  coin_undoable before j after -> rollback_coin j after = (undone before after, Ok tt).
Proof.
  intros []. unfold rollback_coin.
  erewrite st_bind_run; [|unfold st_check, Zeno.checked_sub; rewrite ud_mined0;
    rewrite (proj2 (checked_sub_Some _ _ (total_mined (coin_record before)))) by lia; done].
  erewrite st_bind_run; [|unfold st_check, Zeno.checked_sub; rewrite ud_burned0;
    rewrite (proj2 (checked_sub_Some _ _ (total_burned (coin_record before)))) by lia; done].
  erewrite st_bind_run; [|unfold st_check; rewrite check_created_Ok;
    [done|done|by intros id [? ?]%ud_new0]].
  erewrite st_bind_run; [|unfold st_check; rewrite check_consumed_Ok; [done|done|]].
  2: { intros id c [_ Hor]%ud_old0. split; [set_solver|]. rewrite elem_of_union, elem_of_list_to_set.
       destruct Hor; [by right|left; by left]. }
  erewrite st_bind_run; [|done].
  destruct (consume_all (with_coin_record after {| total_mined := total_mined (coin_record before);
    total_burned := total_burned (coin_record before) |}) (created_coin_ids j))
    as (u1 & Hu1 & Hwf1 & Hl1); [done|done|by intros id [? _]%ud_new0|]. cbn in Hl1.
  rewrite (st_bind_run _ _ _ _ _ Hu1).
  destruct (insert_all (with_utxos (with_coin_record after
    {| total_mined := total_mined (coin_record before);
       total_burned := total_burned (coin_record before) |}) u1) (coins (utxos before))
    (consumed_coins j)) as (u2 & -> & Hwf2 & Hsub2 & Hsup2 & Hl2); cbn in *.
  - done.
  - apply ud_before0.
  - rewrite <- (utxo_total _ ud_before0). apply ud_before0.
  - done.
  - apply map_subseteq_spec. intros id c. rewrite Hl1. case_decide as Hc; [done|]. intros Hid.
    destruct (decide (id ∈ (consumed_coins j).*1)) as [Hin|Hin].
    + apply list_elem_of_fmap in Hin as ([id' c'] & -> & Hin). apply ud_old0 in Hin as [_ [?|?]];
        cbn in *; [congruence|done].
    + by rewrite <- ud_same0.
  - intros id c Hin. pose proof (ud_old0 id c Hin) as [Hb Ha]. split; [done|]. rewrite Hl1.
    case_decide; [done|]. by destruct Ha.
  - f_equal. unfold undone, with_utxos, with_coin_record. cbn. f_equal.
    2: { by destruct (coin_record before). }
    apply utxo_wf_eq; [done|done|]. apply map_eq. intros id.
    destruct (decide (id ∈ (consumed_coins j).*1)) as [Hin|Hin].
    + apply list_elem_of_fmap in Hin as ([id' c'] & -> & Hin). cbn.
      rewrite (Hl2 _ _ Hin). by apply ud_old0 in Hin as [-> _].
    + destruct (coins (utxos before) !! id) as [c|] eqn:Hid.
      * assert (id ∉ created_coin_ids j) as Hnc by (intros Hc%ud_new0; naive_solver).
        eapply lookup_weaken; [|exact Hsup2]. rewrite Hl1, decide_False by done.
        by rewrite ud_same0.
      * destruct (coins u2 !! id) as [c|] eqn:H2; [|done].
        eapply lookup_weaken in H2; [|exact Hsub2]. congruence.
Qed.

Lemma rollback_coin_restores before j after :
  coin_journaled before j after -> rollback_coin j after = (before, Ok tt).
Proof.
  intros []. rewrite (rollback_coin_undoes before).
  - unfold undone. rewrite cj_programs0, cj_assets0. by destruct before.
  - split; try done; naive_solver.
Qed.

(** ** Audits *)

Lemma sum_fold_Ok {E B} (amount : B -> result E Z) (overflow : E) l t r :
  (forall b a, b ∈ l -> amount b = Ok a -> 0 <= a) -> t < 2 ^ 64 ->
  try_fold (sum_fold amount overflow) l t = Ok r <->
  exists amounts, Forall2 (fun b a => amount b = Ok a) l amounts /\ r = t + zsum amounts /\
    r < 2 ^ 64.
Proof.
  revert t. induction l as [|b l IH]; intros t Hpos Ht; cbn [try_fold].
  { split.
    - intros [= <-]. exists []. split; [constructor|]. cbn. lia.
    - intros (amounts & ->%Forall2_nil_inv_l & -> & _). f_equal. cbn. lia. }
  assert (sum_fold amount overflow t b = (a ← amount b; ok_or (Zeno.checked_add t a) overflow))
    as -> by done.
  unfold Zeno.checked_add. destruct (amount b) as [a|] eqn:Ha; cbn [mbind result_mbind].
  - pose proof (Hpos b a ltac:(left) Ha).
    destruct (checked_add 64 t a) as [t'|] eqn:Hadd; cbn [ok_or mbind result_mbind].
    + apply checked_add_Some in Hadd as [-> Hlt].
      rewrite IH; [|by intros; eapply Hpos; [right|]|done]. split.
      * intros (amounts & Hf & -> & Hr). exists (a :: amounts). rewrite zsum_cons.
        split; [by constructor|]. lia.
      * intros (amounts & Hf & -> & Hr).
        apply Forall2_cons_inv_l in Hf as (a' & am & Ha' & Hf & ->).
      assert (a' = a) as -> by congruence.
        rewrite zsum_cons in Hr |- *. exists am. split; [done|]. lia.
    + apply checked_add_None in Hadd. split; [done|]. intros (amounts & Hf & -> & Hr).
      apply Forall2_cons_inv_l in Hf as (a' & am & Ha' & Hf & ->).
      assert (a' = a) as -> by congruence.
      rewrite zsum_cons in Hr. enough (0 <= zsum am) by lia. apply zsum_nonneg, Forall_forall.
      intros x (i & Hi)%list_elem_of_lookup. eapply Forall2_lookup_r in Hf as (y & Hy & Hx); [|done].
      eapply Hpos; [right; by eapply list_elem_of_lookup_2|done].
  - split; [done|]. intros (amounts & Hf & _).
    apply Forall2_cons_inv_l in Hf as (a' & am & Ha' & _ & _). congruence.
Qed.

Lemma zsum_sorted_entries (f : CoinUtxo -> Z) (m : gmap CoinShare CoinUtxo) :
  zsum ((fun e => f e.2) <$> sorted_entries m) = map_sum (fun _ c => f c) m.
Proof. by rewrite (map_sum_entries (fun _ => f)). Qed.

(** Summing the live coins succeeds when they are positive and the sum fits. *)
Lemma audit_sum (m : gmap CoinShare CoinUtxo) r :
  (forall id c, m !! id = Some c -> 0 <= cu_amount c) ->
  try_fold (sum_fold audit_amount CoinSupplyOverflow) (sorted_entries m) 0 = Ok r <->
  (forall id c, m !! id = Some c -> cu_amount c <> 0) /\ r = value_of m /\ r < 2 ^ 64.
Proof.
  intros Hpos.
  assert (forall e a, audit_amount e = Ok a <-> cu_amount e.2 <> 0 /\ a = cu_amount e.2) as Ham.
  { intros e a. unfold audit_amount, guard_err, Zeno.is_zero.
    destruct (Z.eqb_spec (cu_amount e.2) 0); naive_solver. }
  rewrite sum_fold_Ok; [|intros [id c] a Hin%elem_of_sorted_entries [_ ->]%Ham; eauto|done].
  unfold value_of. rewrite <- zsum_sorted_entries. split.
  - intros (amounts & Hf & -> & Hr). split.
    + intros id c [i Hi]%elem_of_sorted_entries%list_elem_of_lookup.
      eapply Forall2_lookup_l in Hf as (a & _ & Ha); [|exact Hi]. by apply Ham in Ha as [? _].
    + split; [|done]. rewrite Z.add_0_l. f_equal. clear Hr.
      induction Hf as [|e a k ks Ha _ IH]; [done|]. apply Ham in Ha as (_ & ->). cbn. by f_equal.
  - intros (Hnz & -> & Hr). eexists. split; [|split; [done|done]].
    apply Forall2_fmap_r, Forall2_same_length_lookup_2; [done|].
    intros i e e' He He'. simplify_eq. apply Ham. split; [|done]. destruct e as [id c].
    apply list_elem_of_lookup_2, elem_of_sorted_entries in He. eauto.
Qed.

(** The coin supply audit accepts exactly the states whose coins are positive,
    whose cached total is their sum, and whose counters imply that supply. *)
Theorem coin_audit_exact (s : LedgerState) :
  (forall id c, coins (utxos s) !! id = Some c -> 0 <= cu_amount c) ->
  audit_coin_supply s = Ok tt <->
  (forall id c, coins (utxos s) !! id = Some c -> cu_amount c <> 0) /\
  total_value (utxos s) = value_of (coins (utxos s)) /\ total_value (utxos s) < 2 ^ 64 /\
  coin_supply (coin_record s) = Some (total_value (utxos s)).
Proof.
  intros Hpos. unfold audit_coin_supply. split.
  - intros Ha. inv_ok. rename select (try_fold _ _ _ = _) into Hf.
    apply audit_sum in Hf as (Hnz & -> & Hr); [|done].
    rename select ((_ =? _) = true) into He. apply Z.eqb_eq in He. rewrite <- He. done.
  - intros (Hnz & Ht & Hlt & Hs).
    rewrite (proj2 (audit_sum (coins (utxos s)) (total_value (utxos s)) Hpos)) by done.
    cbn. by rewrite Z.eqb_refl, bool_decide_eq_true_2.
Qed.
