(* ===== verification/StateRoot.v ===== *)
(** * Canonical state bytes and the state root

    Models [kernel/src/ledger/canonical/state_root.rs], the Borsh format of
    [LedgerState], [canonical_encoded_len] of [ledger/utxo/asset/encoding.rs]
    and [domain_serialized] of [crypto/src/hash.rs].

    The memoized root is left out: it is used only while the tables, counters
    and registry are the ones it was computed from. *)

From S2P Require Import Prelude Codec Monetary Index Coin Assets AssetFacts Vm Registry RegistryWire.
From S2P Require Import Wire Authorize State.
#[local] Open Scope Z_scope.

(** [canonical_length] of bytes that have been encoded. *)
Definition canonical_length (bytes : list Z) : result CodecError Z :=
  ok_or (try_from 64 (Z.of_nat (length bytes))) EncodeFailed.

Definition asset_entry_width : Z := 32 + (32 + 16 + 33).

Definition assets_canonical_encoded_len (self : AssetState) : result CodecError Z :=
  records ← canonical_length (enc_map enc_record (records self));
  shares ← ok_or (canonical_fixed_map_length (Z.of_nat (size (shares self))) asset_entry_width)
             EncodeFailed;
  ok_or (checked_add 64 records shares) EncodeFailed.

Definition enc_coin_record (c : CoinRecord) : list Z :=
  le_bytes 8 (total_mined c) ++ le_bytes 8 (total_burned c).

Definition dec_coin_record (bytes : list Z) : option (CoinRecord * list Z) :=
  '(mined, bytes) ← dec_uint 8 bytes;
  '(burned, bytes) ← dec_uint 8 bytes;
  Some ({| total_mined := mined; total_burned := burned |}, bytes).

Definition enc_state (s : LedgerState) : list Z :=
  enc_utxo_set (utxos s) ++ enc_coin_record (coin_record s) ++ enc_registry (l_programs s)
  ++ enc_assets (l_assets s).

Definition canonical_encoded_len (s : LedgerState) : result CodecError Z :=
  utxos_len ← ok_or (utxo_canonical_encoded_len (utxos s)) EncodeFailed;
  coin_len ← canonical_length (enc_coin_record (coin_record s));
  programs_len ← canonical_length (enc_registry (l_programs s));
  assets_len ← assets_canonical_encoded_len (l_assets s);
  try_fold (fun sum len => ok_or (checked_add 64 sum len) EncodeFailed)
    [utxos_len; coin_len; programs_len; assets_len] 0.

(** [==] on asset states compares the derived indexes too. *)
Definition assets_eqb (s t : AssetState) : bool :=
  bool_decide (records s = records t) && bool_decide (shares s = shares t)
  && bool_decide (share_index s = share_index t)
  && bool_decide (owner_asset_balances s = owner_asset_balances t)
  && bool_decide (asset_roles s = asset_roles t).

Definition STATE_ROOT_ZERO : Hash := replicate HASH_SIZE 0.

Definition state_is_empty (s : LedgerState) : bool :=
  assets_eqb (l_assets s) assets_empty && utxo_is_empty (utxos s)
  && bool_decide (programs (l_programs s) = ∅) && Zeno.is_zero (total_mined (coin_record s))
  && Zeno.is_zero (total_burned (coin_record s)).

Section root.
Context `{Sha3}.

Definition dec_state (bytes : list Z) : option (LedgerState * list Z) :=
  '(utxos, bytes) ← dec_utxo_set bytes;
  '(coin, bytes) ← dec_coin_record bytes;
  '(programs, bytes) ← dec_registry bytes;
  '(assets, bytes) ← dec_assets bytes;
  Some ({| utxos := utxos; coin_record := coin; l_programs := programs; l_assets := assets |},
        bytes).

(** The declared length is hashed first and checked against the stream. *)
Definition domain_serialized (d : HashDomain) (encoded_len : Z) (value : list Z)
    : result CodecError Hash :=
  fail_if negb (Z.of_nat (length value) =? encoded_len) with EncodeFailed;
  Ok (sha3_256 (tag d ++ le_bytes 8 encoded_len ++ value)).

Definition hash_canonical_state (s : LedgerState) : result CodecError Hash :=
  len ← canonical_encoded_len s;
  domain_serialized ProtocolState len (enc_state s).

Definition application_state_root (s : LedgerState) : result CodecError Hash :=
  if state_is_empty s then Ok STATE_ROOT_ZERO else hash_canonical_state s.
End root.

(** ** What the bytes determine *)

(** The values an asset record's and a share's types can hold. *)
Record asset_record_wf (r : AssetRecord) : Prop := {
  aw_name : utf8_valid (length (name (metadata r))) (name (metadata r)) = true;
  aw_name_len : Z.of_nat (length (name (metadata r))) < 2 ^ 32;
  aw_max : fits 128 (max_supply (metadata r));
  aw_creator : owner_wf (creator (metadata r));
  aw_authority : owner_wf (mint_authority (metadata r));
  aw_supply : fits 128 (supply r);
  aw_minted : fits 128 (total_minted r);
  aw_nonce : fits 64 (mint_nonce r);
  aw_burned : fits 128 (Monetary.total_burned r);
}.

Record share_wf (s : AssetShare) : Prop := {
  sw_asset : hash_wf (asset s);
  sw_amount : fits 128 (amount s);
  sw_owner : owner_wf (owner s);
}.

Lemma dec_record_enc r rest :
  asset_record_wf r -> dec_record (enc_record r ++ rest) = Some (r, rest).
Proof.
  intros []. unfold dec_record, enc_record, dec_metadata, enc_metadata. rewrite <- !app_assoc.
  rewrite dec_string_enc by done. cbn [mbind option_bind].
  rewrite dec_uint_enc by exact aw_max0. cbn [mbind option_bind].
  rewrite dec_owner_enc by done. cbn [mbind option_bind].
  rewrite dec_owner_enc by done. cbn [mbind option_bind].
  rewrite dec_uint_enc by exact aw_supply0. cbn [mbind option_bind].
  rewrite dec_uint_enc by exact aw_minted0. cbn [mbind option_bind].
  rewrite dec_uint_enc by exact aw_nonce0. cbn [mbind option_bind].
  rewrite dec_uint_enc by exact aw_burned0. cbn [mbind option_bind].
  by destruct r as [[] ? ? ? ?].
Qed.

Lemma dec_share_enc s rest : share_wf s -> dec_share (enc_share s ++ rest) = Some (s, rest).
Proof.
  intros [[Ha _] Hn Ho]. unfold dec_share, enc_share. rewrite <- !app_assoc.
  rewrite dec_raw_enc by done. cbn [mbind option_bind].
  rewrite dec_uint_enc by exact Hn. cbn [mbind option_bind].
  rewrite dec_owner_enc by done. by destruct s.
Qed.

(** A state whose fields have their widths and whose tables have less than
    2^32 entries. *)
Record state_wf `{Sha3} (s : LedgerState) : Prop := {
  wf_utxo : utxo_wf (utxos s);
  wf_coin_keys : keys_wf (utxos s);
  wf_coin_len : utxo_len (utxos s) < 2 ^ 32;
  wf_mined : fits 64 (total_mined (coin_record s));
  wf_burned : fits 64 (total_burned (coin_record s));
  wf_registry : registry_ok (l_programs s);
  wf_programs : registry_typed (l_programs s);
  wf_valid : records_valid (l_programs s);
  wf_programs_len : Z.of_nat (size (programs (l_programs s))) < 2 ^ 32;
  wf_records : map_Forall (fun k r => length k = HASH_SIZE /\ asset_record_wf r) (records (l_assets s));
  wf_records_len : Z.of_nat (size (records (l_assets s))) < 2 ^ 32;
  wf_shares : map_Forall (fun k r => length k = HASH_SIZE /\ share_wf r) (shares (l_assets s));
  wf_shares_len : Z.of_nat (size (shares (l_assets s))) < 2 ^ 32;
}.

(** What equal bytes mean: the same coins, counters, programs and asset
    tables. *)
Record same_tables (s t : LedgerState) : Prop := {
  same_utxos : utxos s = utxos t;
  same_coin : coin_record s = coin_record t;
  same_programs : l_programs s = l_programs t;
  same_records : records (l_assets s) = records (l_assets t);
  same_shares : shares (l_assets s) = shares (l_assets t);
}.

Section binding.
Context `{Sha3}.

Lemma dec_coin_record_enc c rest :
  fits 64 (total_mined c) -> fits 64 (total_burned c) ->
  dec_coin_record (enc_coin_record c ++ rest) = Some (c, rest).
Proof.
  intros Hm Hb. unfold dec_coin_record, enc_coin_record. rewrite <- app_assoc.
  rewrite dec_uint_enc by exact Hm. cbn [mbind option_bind].
  rewrite dec_uint_enc by exact Hb. by destruct c.
Qed.

Lemma dec_state_enc s rest :
  state_wf s -> exists a, records a = records (l_assets s) /\ shares a = shares (l_assets s) /\
    a = rebuild_owner_index {| records := records (l_assets s); shares := shares (l_assets s);
      share_index := ∅; owner_asset_balances := ∅; asset_roles := ∅; supply_cache := None |} /\
    dec_state (enc_state s ++ rest)
    = Some ({| utxos := utxos s; coin_record := coin_record s; l_programs := l_programs s;
               l_assets := a |}, rest).
Proof.
  intros []. eexists. split; [|split; [|split; [reflexivity|]]]; [done|done|].
  unfold dec_state, enc_state. rewrite <- !app_assoc.
  rewrite dec_utxo_set_enc by done. cbn [mbind option_bind].
  rewrite dec_coin_record_enc by done. cbn [mbind option_bind].
  rewrite dec_registry_enc by done. cbn [mbind option_bind].
  unfold dec_assets, enc_assets. rewrite <- app_assoc.
  rewrite (dec_map_enc _ _ asset_record_wf dec_record_enc) by done. cbn [mbind option_bind].
  by rewrite (dec_map_enc _ _ share_wf dec_share_enc).
Qed.

Lemma enc_state_inj s t : state_wf s -> state_wf t -> enc_state s = enc_state t -> same_tables s t.
Proof.
  intros Hs Ht He. destruct (dec_state_enc s [] Hs) as (a & Hr & Hsh & _ & Hd).
  destruct (dec_state_enc t [] Ht) as (b & Hr' & Hsh' & _ & Hd').
  rewrite He, Hd' in Hd. injection Hd as Hu Hc Hp Ha. split; congruence.
Qed.

Lemma canonical_length_Ok bytes n : canonical_length bytes = Ok n -> n = Z.of_nat (length bytes).
Proof. unfold canonical_length, try_from. case_match; [|done]. by intros [= <-]. Qed.

Lemma checked_fold_Ok l t n :
  try_fold (fun sum len => ok_or (checked_add 64 sum len) EncodeFailed) l t = Ok n -> n = t + zsum l.
Proof.
  revert t. induction l as [|x l IH]; intros t Hf; cbn [try_fold] in Hf; [injection Hf as <-; cbn; lia|].
  apply bind_Ok in Hf as (t1 & Ht & Hf). apply ok_or_Ok, checked_add_Some in Ht as [-> _].
  apply IH in Hf as ->. rewrite zsum_cons. lia.
Qed.

Lemma enc_share_length s : share_wf s -> length (enc_share s) = 81%nat.
Proof.
  intros [[Ha _] _ Ho]. unfold enc_share. rewrite !length_app, length_le_bytes, Ha.
  by rewrite length_enc_owner.
Qed.

Lemma shares_length a :
  map_Forall (fun k r => length k = HASH_SIZE /\ share_wf r) (shares a) ->
  Z.of_nat (length (enc_map enc_share (shares a))) = Z.of_nat (size (shares a)) * asset_entry_width + 4.
Proof.
  intros Hs. rewrite (enc_map_length _ _ 81).
  - unfold asset_entry_width, HASH_SIZE. lia.
  - intros k r Hk. destruct (Hs k r Hk). split; [done|by apply enc_share_length].
Qed.

(** The declared length is the length of the stream. *)
Lemma canonical_encoded_len_exact s n :
  state_wf s -> canonical_encoded_len s = Ok n -> n = Z.of_nat (length (enc_state s)).
Proof.
  intros [] Hl. unfold canonical_encoded_len in Hl.
  rewrite utxo_canonical_encoded_len_exact in Hl by done. cbn [ok_or mbind result_mbind] in Hl.
  apply bind_Ok in Hl as (c & Hc%canonical_length_Ok & Hl).
  apply bind_Ok in Hl as (p & Hp%canonical_length_Ok & Hl).
  apply bind_Ok in Hl as (a & Ha & Hl). apply checked_fold_Ok in Hl as ->.
  unfold assets_canonical_encoded_len in Ha. apply bind_Ok in Ha as (r & Hr%canonical_length_Ok & Ha).
  apply bind_Ok in Ha as (sh & Hsh%ok_or_Ok & Ha). apply ok_or_Ok, checked_add_Some in Ha as [-> _].
  unfold canonical_fixed_map_length in Hsh. apply bind_Some in Hsh as (k & Hk & Hsh).
  apply bind_Some in Hsh as (m & Hm & Hsh). apply checked_mul_Some in Hm as [-> _].
  apply checked_add_Some in Hsh as [-> _]. unfold try_from in Hk. case_match; [|done].
  injection Hk as <-. pose proof (shares_length (l_assets s) wf_shares0) as Hlen.
  unfold enc_state, enc_assets. rewrite !length_app. cbn [zsum fold_right]. lia.
Qed.

Lemma state_root_hash s h :
  state_wf s -> state_is_empty s = false -> application_state_root s = Ok h ->
  h = domain ProtocolState (enc_state s).
Proof.
  intros Hs He Hr. unfold application_state_root in Hr. rewrite He in Hr.
  unfold hash_canonical_state in Hr. apply bind_Ok in Hr as (n & Hn & Hr).
  apply canonical_encoded_len_exact in Hn as ->; [|done]. unfold domain_serialized in Hr.
  apply guard_err_Ok in Hr as [_ [= <-]]. done.
Qed.
End binding.

Section theorems.
Context `{Sha3}.

Lemma state_is_empty_true s :
  state_is_empty s = true -> l_assets s ≡ assets_empty /\ coins (utxos s) = ∅ /\
    programs (l_programs s) = ∅ /\ coin_record s = {| total_mined := 0; total_burned := 0 |}.
Proof.
  unfold state_is_empty, assets_eqb, utxo_is_empty, Zeno.is_zero. rewrite !andb_true_iff, !Z.eqb_eq.
  rewrite !bool_decide_eq_true. intros (((((((([= Hr] & Hs) & Hi) & Hb) & Ho) & Hu) & Hp) & Hm) & Hbu).
  split_and!; [by split|done|done|]. destruct (coin_record s). cbn in *. by subst.
Qed.

Lemma empty_same_tables s t :
  state_wf s -> state_wf t -> state_is_empty s = true -> state_is_empty t = true -> same_tables s t.
Proof.
  intros Hs Ht (Has & Hus & Hps & Hcs)%state_is_empty_true (Hat & Hut & Hpt & Hct)%state_is_empty_true.
  split; [| | |by rewrite (eq_records _ _ Has), (eq_records _ _ Hat)
             |by rewrite (eq_shares _ _ Has), (eq_shares _ _ Hat)].
  - apply utxo_wf_eq; [apply Hs|apply Ht|congruence].
  - congruence.
  - apply registry_ok_eq; [apply Hs|apply Ht|congruence].
Qed.

Lemma canonical_length_total bytes :
  Z.of_nat (length bytes) < 2 ^ 64 -> canonical_length bytes = Ok (Z.of_nat (length bytes)).
Proof. intros Hl. unfold canonical_length, try_from. by rewrite (proj2 (Z.ltb_lt _ _)). Qed.

Lemma state_root_total s :
  state_wf s -> Z.of_nat (length (enc_state s)) < 2 ^ 64 -> is_Some (ok (application_state_root s)).
Proof.
  intros Hwf Hl. unfold application_state_root. destruct (state_is_empty s); [by eexists|].
  unfold hash_canonical_state. enough (exists n, canonical_encoded_len s = Ok n) as [n Hn].
  { rewrite Hn. apply canonical_encoded_len_exact in Hn as ->; [|done]. cbn [mbind result_mbind].
    unfold domain_serialized. rewrite Z.eqb_refl. by eexists. }
  destruct Hwf. pose proof (shares_length (l_assets s) wf_shares0) as Hsl.
  unfold enc_state, enc_assets in Hl. rewrite !length_app in Hl. unfold canonical_encoded_len.
  rewrite utxo_canonical_encoded_len_exact by done. cbn [ok_or mbind result_mbind].
  rewrite !canonical_length_total by lia. cbn [mbind result_mbind].
  unfold assets_canonical_encoded_len. rewrite canonical_length_total by lia. cbn [mbind result_mbind].
  unfold canonical_fixed_map_length, try_from. rewrite (proj2 (Z.ltb_lt _ _)) by lia.
  cbn [mbind option_bind]. rewrite (proj2 (checked_mul_Some 64 _ _ _)) by (split; [done|lia]).
  cbn [mbind option_bind]. rewrite (proj2 (checked_add_Some 64 _ _ _)) by (split; [done|lia]).
  cbn [ok_or mbind result_mbind]. rewrite (proj2 (checked_add_Some 64 _ _ _)) by (split; [done|lia]).
  cbn [ok_or mbind result_mbind try_fold].
  do 4 (rewrite (proj2 (checked_add_Some 64 _ _ _)) by (split; [done|lia]);
        cbn [ok_or mbind result_mbind]). by eexists.
Qed.

(** (C27) The state root commits to the ledger: it exists for every state with
    typed fields whose encoding is shorter than 2^64 bytes, decoding the state's
    bytes gives back the same coins, counters, programs and asset tables, and
    two states with one root agree on all of them, unless SHA3 collides or maps
    some input to the all-zero root reserved for the empty state. *)
Theorem state_root_binds s t root :
  state_wf s -> state_wf t ->
  (Z.of_nat (length (enc_state s)) < 2 ^ 64 -> is_Some (ok (application_state_root s))) /\
  (exists s', dec_state (enc_state s) = Some (s', []) /\ same_tables s s') /\
  (application_state_root s = Ok root -> application_state_root t = Ok root ->
   same_tables s t \/ sha3_collision \/ exists bytes, sha3_256 bytes = STATE_ROOT_ZERO).
Proof.
  intros Hs Ht. split; [by apply state_root_total|]. split.
  { destruct (dec_state_enc s [] Hs) as (a & Hr & Hsh & _ & Hd). rewrite app_nil_r in Hd.
    eexists. split; [exact Hd|]. by split. }
  intros Hrs Hrt. destruct (state_is_empty s) eqn:Hes, (state_is_empty t) eqn:Het.
  - left. by apply empty_same_tables.
  - right; right. apply state_root_hash in Hrt; [|done|done]. unfold application_state_root in Hrs.
    rewrite Hes in Hrs. injection Hrs as <-. by eexists.
  - right; right. apply state_root_hash in Hrs; [|done|done]. unfold application_state_root in Hrt.
    rewrite Het in Hrt. injection Hrt as <-. by eexists.
  - apply state_root_hash in Hrs; [|done|done]. apply state_root_hash in Hrt; [|done|done].
    rewrite Hrs in Hrt. apply domain_inj in Hrt as [He|Hc]; [left; by apply enc_state_inj|by right; left].
Qed.
End theorems.

(** One coin, one program with storage, one asset with its share. *)
Definition rooted_state : LedgerState :=
  {| utxos := (Coin.run utxo_step utxo_empty
       [OpInsert (replicate 32 3) {| cu_amount := 9; cu_owner := Program (replicate 32 1) |}]).1;
     coin_record := {| total_mined := 10; total_burned := 1 |};
     l_programs := stored_registry;
     l_assets := {| records := {[ replicate 32 5 :=
         {| metadata := {| name := [71; 79; 76; 68]; max_supply := 100;
              creator := Program (replicate 32 1); mint_authority := Program (replicate 32 1) |};
            supply := 4; total_minted := 4; mint_nonce := 0; Monetary.total_burned := 0 |} ]};
       shares := {[ replicate 32 6 := {| asset := replicate 32 5; amount := 4;
                                         owner := Program (replicate 32 1) |} ]};
       share_index := ∅; owner_asset_balances := ∅; asset_roles := ∅; supply_cache := None |} |}.

Lemma rooted_coins : coins (utxos rooted_state)
  = {[ replicate 32 3 := {| cu_amount := 9; cu_owner := Program (replicate 32 1) |} ]}.
Proof. vm_compute. reflexivity. Qed.

Lemma rooted_state_wf : @state_wf toy_sha3 rooted_state.
Proof.
  assert (forall n, 0 <= n < 256 -> hash_wf (replicate 32 n)) as Hh.
  { intros n Hn. split; [apply length_replicate|]. by apply Forall_replicate. }
  split.
  - apply utxo_run_simulation; [apply utxo_empty_wf|]. by repeat constructor.
  - unfold keys_wf. rewrite rooted_coins. by apply map_Forall_singleton.
  - unfold utxo_len. rewrite rooted_coins, map_size_singleton. reflexivity.
  - split; [discriminate|reflexivity].
  - split; [discriminate|reflexivity].
  - exact stored_registry_ok.
  - exact stored_registry_typed.
  - exact stored_registry_valid.
  - cbn [l_programs rooted_state stored_registry programs]. rewrite map_size_singleton. reflexivity.
  - apply map_Forall_singleton. split; [reflexivity|].
    split; cbn; try done; try (split; [discriminate|reflexivity]); by apply Hh.
  - cbn [l_assets rooted_state records]. rewrite map_size_singleton. reflexivity.
  - apply map_Forall_singleton. split; [reflexivity|]. split; cbn; [by apply Hh| |by apply Hh].
    split; [discriminate|reflexivity].
  - cbn [l_assets rooted_state shares]. rewrite map_size_singleton. reflexivity.
Qed.

Lemma state_root_binds_witness :
  exists s', @dec_state toy_sha3 (enc_state rooted_state) = Some (s', []) /\ same_tables rooted_state s'.
Proof.
  exact (proj1 (proj2 (@state_root_binds toy_sha3 rooted_state rooted_state []
    rooted_state_wf rooted_state_wf))).
Defined.
