(* ===== verification/CoinHost.v ===== *)
(** * Coin programs and the restricted kernel host

    Models [kernel/src/ledger/applied/coin.rs], the [CoinHost] trait of
    [program/system/coin_program/mod.rs], [ApplicationExecutor] and
    [NoApplications] of [program/application.rs], and the transfer application
    of [extension/src/monetary/mod.rs].

    An application is code behind a trait object that sees the ledger only
    through the four requests of [CoinHost].  It is modelled as a tree of
    requests, each continued by the host's answer: any deterministic,
    terminating implementation that does not itself panic is such a tree
    ([AssetHost] has panics).  The kernel host interprets it.
    The theorems hold for every application and every checkpoint closure. *)

From S2P Require Import Prelude Codec Monetary Index Coin State.
#[local] Open Scope Z_scope.

(** ** The host interface *)

Class CoinHost (H E : Type) := {
  input_amount : H -> CoinShare -> result E Z;
  consume : CoinShare -> ST H E unit;
  create : N -> Owner -> Z -> ST H E unit;
  burn : Z -> ST H E unit;
}.

Inductive TransferError (E : Type) : Type :=
| Host (e : E) | InvalidBalance | TransferOverflow | TransferIndexOverflow.
Arguments Host {E} e.
Arguments InvalidBalance {E}.
Arguments TransferOverflow {E}.
Arguments TransferIndexOverflow {E}.

(** A program over the host's requests. *)
Inductive CoinProgram (E A : Type) : Type :=
| Done (a : A)
| AskInputAmount (id : CoinShare) (k : result E Z -> CoinProgram E A)
| AskConsume (id : CoinShare) (k : result E unit -> CoinProgram E A)
| AskCreate (index : N) (owner : Owner) (amount : Z) (k : result E unit -> CoinProgram E A)
| AskBurn (amount : Z) (k : result E unit -> CoinProgram E A).
Arguments Done {E A} a.
Arguments AskInputAmount {E A} id k.
Arguments AskConsume {E A} id k.
Arguments AskCreate {E A} index owner amount k.
Arguments AskBurn {E A} amount k.

Fixpoint run_program {H E A} `{CoinHost H E} (p : CoinProgram E A) (h : H) : H * A :=
  match p with
  | Done a => (h, a)
  | AskInputAmount id k => run_program (k (input_amount h id)) h
  | AskConsume id k => let '(h, r) := consume id h in run_program (k r) h
  | AskCreate index owner amount k =>
      let '(h, r) := create index owner amount h in run_program (k r) h
  | AskBurn amount k => let '(h, r) := burn amount h in run_program (k r) h
  end.

(** Fallible programs: [?] on a transfer error. *)
Definition Transfer E A := CoinProgram E (result (TransferError E) A).

Fixpoint program_bind {E A B} (p : CoinProgram E A) (f : A -> CoinProgram E B)
    : CoinProgram E B :=
  match p with
  | Done a => f a
  | AskInputAmount id k => AskInputAmount id (fun r => program_bind (k r) f)
  | AskConsume id k => AskConsume id (fun r => program_bind (k r) f)
  | AskCreate index owner amount k =>
      AskCreate index owner amount (fun r => program_bind (k r) f)
  | AskBurn amount k => AskBurn amount (fun r => program_bind (k r) f)
  end.

#[global] Instance transfer_mret E : MRet (Transfer E) := fun A a => Done (Ok a).
#[global] Instance transfer_mbind E : MBind (Transfer E) := fun A B f p =>
  program_bind p (fun r => match r with Ok a => f a | Err e => Done (Err e) end).

Definition transfer_lift {E A} (r : result (TransferError E) A) : Transfer E A := Done r.

(** ** The transfer application *)

Section execute_transfer.
Context {E : Type}.

(** [for id in inputs], summing what the host says. *)
Fixpoint input_loop (inputs : list CoinShare) (input_total : Z) : Transfer E Z :=
  match inputs with
  | [] => mret input_total
  | id :: inputs =>
      amount ← (AskInputAmount id (fun r => Done (map_err Host r)) : Transfer E Z);
      input_total ← transfer_lift (ok_or (checked_add 64 input_total amount) TransferOverflow);
      input_loop inputs input_total
  end.

Fixpoint consume_loop (inputs : list CoinShare) : Transfer E unit :=
  match inputs with
  | [] => mret tt
  | id :: inputs =>
      _ ← (AskConsume id (fun r => Done (map_err Host r)) : Transfer E unit);
      consume_loop inputs
  end.

Fixpoint create_loop (index : Z) (outputs : list (Owner * Z)) : Transfer E unit :=
  match outputs with
  | [] => mret tt
  | (owner, amount) :: outputs =>
      i ← transfer_lift (ok_or (try_from 32 index) TransferIndexOverflow);
      _ ← (AskCreate (Z.to_N i) owner amount (fun r => Done (map_err Host r)) : Transfer E unit);
      create_loop (index + 1) outputs
  end.

(** [if miner_fee != 0]. *)
Definition create_fee (count : nat) (miner : ProgramId) (miner_fee : Z) : Transfer E unit :=
  if miner_fee =? 0 then mret tt
  else
    i ← transfer_lift (ok_or (try_from 32 (Z.of_nat count)) TransferIndexOverflow);
    (AskCreate (Z.to_N i) (Program miner) miner_fee (fun r => Done (map_err Host r))
      : Transfer E unit).

Definition execute_transfer (inputs : list CoinShare) (outputs : list (Owner * Z))
    (miner : ProgramId) (miner_fee : Z) : Transfer E unit :=
  input_total ← input_loop inputs 0;
  output_total ← transfer_lift (try_fold
    (sum_fold (fun output => Ok output.2) TransferOverflow) outputs 0);
  charge ← transfer_lift (ok_or
    (remaining ← checked_sub input_total output_total; checked_sub remaining miner_fee)
    InvalidBalance);
  _ ← consume_loop inputs;
  _ ← create_loop 0 outputs;
  _ ← create_fee (length outputs) miner miner_fee;
  AskBurn charge (fun r => Done (map_err Host r)).
End execute_transfer.

(** The coin capability a node installs. *)
Definition CoinApplication : Type :=
  list CoinShare -> list (Owner * Z) -> ProgramId -> Z -> Transfer StateError unit.

(** A bare kernel refuses. *)
Definition no_applications : CoinApplication :=
  fun _ _ _ _ => Done (Err (Host InvalidTransition)).

(** ** The kernel host *)

Inductive TransitionPoint :=
| CoinInputConsumed | CoinOutputCreated | MinerFeeCreated | ProtocolBurnRecorded.

(** A checkpoint is a closure with state of its own: its answer may depend on
    the points passed before. *)
Definition Checkpoint : Type := list TransitionPoint -> TransitionPoint -> result StateError unit.

Record KernelCoinHost := {
  allowed_inputs : gset CoinShare;
  outputs : list (Owner * Z);
  miner : ProgramId;
  host_fee : Z;
  expected_burn : Z;
  h_state : LedgerState;
  h_journal : CoinRollbackJournal;
  h_commitment : Hash;
  checkpoint : Checkpoint;
  passed : list TransitionPoint;
}.

Definition host_with (h : KernelCoinHost) (s : LedgerState) (j : CoinRollbackJournal)
    : KernelCoinHost :=
  {| allowed_inputs := allowed_inputs h; outputs := outputs h; miner := miner h;
     host_fee := host_fee h; expected_burn := expected_burn h; h_state := s; h_journal := j;
     h_commitment := h_commitment h; checkpoint := checkpoint h; passed := passed h |}.

(** [(self.checkpoint)(point)]. *)
Definition pass (point : TransitionPoint) : ST KernelCoinHost StateError unit := fun h =>
  ({| allowed_inputs := allowed_inputs h; outputs := outputs h; miner := miner h;
      host_fee := host_fee h; expected_burn := expected_burn h; h_state := h_state h;
      h_journal := h_journal h; h_commitment := h_commitment h; checkpoint := checkpoint h;
      passed := passed h ++ [point] |}, checkpoint h (passed h) point).

(** The output an index must be: a listed one, or the miner's fee behind them. *)
Definition expected_output (outputs : list (Owner * Z)) (miner : ProgramId) (fee : Z)
    (index : N) : option (Owner * Z) :=
  match outputs !! N.to_nat index with
  | Some output => Some output
  | None =>
      if (index =? N.of_nat (length outputs))%N && negb (fee =? 0)
      then Some (Program miner, fee)
      else None
  end.

Definition record_protocol_burn (amount : Z) (s : LedgerState) (j : CoinRollbackJournal)
    : result StateError (LedgerState * CoinRollbackJournal) :=
  total ← ok_or (Zeno.checked_add (total_burned (coin_record s)) amount) BurnOverflow;
  journal_burned ← ok_or (Zeno.checked_add (burned j) amount) BurnOverflow;
  Ok (with_coin_record s {| total_mined := total_mined (coin_record s); total_burned := total |},
      {| consumed_coins := consumed_coins j; created_coin_ids := created_coin_ids j;
         mined := mined j; burned := journal_burned |}).

Section kernel_host.
Context `{Sha3}.

Definition host_input_amount (self : KernelCoinHost) (id : CoinShare) : result StateError Z :=
  fail_if negb (bool_decide (id ∈ allowed_inputs self)) with InvalidTransition;
  ok_or (cu_amount <$> coin (utxos (h_state self)) id) InvalidTransition.

Definition host_consume (id : CoinShare) : ST KernelCoinHost StateError unit := fun self =>
  if bool_decide (id ∈ allowed_inputs self) then
    match consume_coin (utxos (h_state self)) id with
    | Err e => (self, Err (Utxo e))
    | Ok (c, u) =>
        let j := h_journal self in
        pass CoinInputConsumed
          (host_with self (with_utxos (h_state self) u)
             {| consumed_coins := consumed_coins j ++ [(id, c)];
                created_coin_ids := created_coin_ids j; mined := mined j; burned := burned j |})
    end
  else (self, Err InvalidTransition).

Definition host_create (index : N) (owner : Owner) (amount : Z)
    : ST KernelCoinHost StateError unit := fun self =>
  match expected_output (outputs self) (miner self) (host_fee self) index with
  | None => (self, Err InvalidTransition)
  | Some expected =>
      if decide (expected = (owner, amount)) then
        let id := from_output (h_commitment self) (Z.of_N index) in
        match insert_coin (utxos (h_state self)) id {| cu_amount := amount; cu_owner := owner |} with
        | Err e => (self, Err (Utxo e))
        | Ok u =>
            let j := h_journal self in
            pass (if (index =? N.of_nat (length (outputs self)))%N
                  then MinerFeeCreated else CoinOutputCreated)
              (host_with self (with_utxos (h_state self) u)
                 {| consumed_coins := consumed_coins j;
                    created_coin_ids := created_coin_ids j ++ [id];
                    mined := mined j; burned := burned j |})
        end
      else (self, Err InvalidTransition)
  end.

Definition host_burn (amount : Z) : ST KernelCoinHost StateError unit := fun self =>
  if negb (amount =? expected_burn self) || negb (Zeno.is_zero (burned (h_journal self)))
  then (self, Err InvalidTransition)
  else
    match record_protocol_burn amount (h_state self) (h_journal self) with
    | Err e => (self, Err e)
    | Ok (s, j) => pass ProtocolBurnRecorded (host_with self s j)
    end.

#[global] Instance kernel_coin_host : CoinHost KernelCoinHost StateError := {|
  input_amount := host_input_amount;
  consume := host_consume;
  create := host_create;
  burn := host_burn;
|}.

(** ** Executing a coin transition *)

Definition transfer_state_error (error : TransferError StateError) : StateError :=
  match error with
  | Host error => error
  | InvalidBalance => InvalidTransition
  | TransferOverflow => AmountOverflow
  | TransferIndexOverflow => OutputIndexOverflow
  end.

Definition finish_coin_transition (journal : CoinRollbackJournal) (r : result StateError unit)
    : ST LedgerState StateError CoinRollbackJournal :=
  match r with
  | Ok _ => mret journal
  | Err error => _ ← rollback_coin journal; st_lift (Err error)
  end.

(** The totals the closure computes before it builds the host. *)
Definition planned_burn (s : LedgerState) (intent : CoinTransition) : result StateError Z :=
  input_total ← try_fold (sum_fold (input_amount_of InvalidTransition s) AmountOverflow)
    (ct_inputs intent) 0;
  output_total ← try_fold (sum_fold (fun output => Ok output.2) AmountOverflow)
    ((fun output => (co_output output, co_amount output)) <$> ct_outputs intent)
    (miner_fee (charges intent));
  ok_or (checked_sub input_total output_total) InvalidTransition.

Definition coin_host (s : LedgerState) (intent : CoinTransition) (commitment : Hash)
    (block_miner : ProgramId) (checkpoint : Checkpoint) (expected_burn : Z) : KernelCoinHost :=
  {| allowed_inputs := list_to_set (ct_inputs intent);
     outputs := (fun output => (co_output output, co_amount output)) <$> ct_outputs intent;
     miner := block_miner; host_fee := miner_fee (charges intent);
     expected_burn := expected_burn; h_state := s; h_journal := empty_coin_journal;
     h_commitment := commitment; checkpoint := checkpoint; passed := [] |}.

(** The counts the kernel checks after the application has returned. *)
Definition transition_complete (intent : CoinTransition) (expected_burn : Z)
    (journal : CoinRollbackJournal) : bool :=
  (length (consumed_coins journal) =? length (ct_inputs intent))%nat
  && (length (created_coin_ids journal)
      =? length (ct_outputs intent)
         + (if Zeno.is_zero (miner_fee (charges intent)) then 0 else 1))%nat
  && (burned journal =? expected_burn).

Definition execute_coin_program (intent : CoinTransition) (commitment : Hash)
    (block_miner : ProgramId) (checkpoint : Checkpoint) (application : CoinApplication)
    : ST LedgerState StateError CoinRollbackJournal := fun s =>
  match planned_burn s intent with
  | Err e => finish_coin_transition empty_coin_journal (Err e) s
  | Ok expected_burn =>
      let host := coin_host s intent commitment block_miner checkpoint expected_burn in
      let '(host, r) :=
        run_program (application (ct_inputs intent) (outputs host) block_miner
                       (miner_fee (charges intent))) host in
      let journal := h_journal host in
      finish_coin_transition journal
        (match r with
         | Err error => Err (transfer_state_error error)
         | Ok _ =>
             if transition_complete intent expected_burn journal then Ok tt
             else Err InvalidTransition
         end) (h_state host)
  end.
End kernel_host.

(** ** The journal follows the state *)

Lemma journaled_start s :
  utxo_wf (utxos s) -> 0 <= total_mined (coin_record s) -> 0 <= total_burned (coin_record s) ->
  coin_journaled s empty_coin_journal s.
Proof.
  intros. split; cbn; try done; try constructor; try lia; try set_solver.
Qed.

Lemma journaled_consume s0 j s id c u :
  coin_journaled s0 j s -> id ∉ created_coin_ids j ->
  consume_coin (utxos s) id = Ok (c, u) ->
  coin_journaled s0 {| consumed_coins := consumed_coins j ++ [(id, c)];
                       created_coin_ids := created_coin_ids j; mined := mined j;
                       burned := burned j |} (with_utxos s u).
Proof.
  intros [] Hid Hc. pose proof Hc as (Hl & _ & Hu)%consume_coin_Ok.
  assert (coins u = delete id (coins (utxos s))) as Hu' by (by subst u).
  assert (id ∉ (consumed_coins j).*1) as Hni.
  { intros ([id' c'] & -> & Hin)%list_elem_of_fmap. apply cj_old in Hin as [_ ?]. cbn in *. congruence. }
  split; cbn; try done.
  - by eapply consume_coin_wf.
  - rewrite fmap_app. apply NoDup_app. split; [done|]. split; [|apply NoDup_singleton].
    intros x Hx. cbn. rewrite list_elem_of_singleton. by intros ->.
  - intros id' Hin. destruct (cj_new id' Hin) as [? ?]. split; [done|]. rewrite Hu'.
    rewrite lookup_delete_ne; [done|]. by intros <-.
  - intros id' c' [Hin|Hin]%elem_of_app.
    + destruct (cj_old _ _ Hin) as [? Hn]. split; [done|]. rewrite Hu'.
      destruct (decide (id' = id)) as [->|]; [apply lookup_delete_eq|by rewrite lookup_delete_ne].
    + apply list_elem_of_singleton in Hin. simplify_eq. rewrite Hu', lookup_delete_eq.
      split; [|done]. by rewrite <- cj_same.
  - intros id' Hnc. rewrite fmap_app, not_elem_of_app. intros [Hn1 Hn2]. rewrite Hu'.
    rewrite lookup_delete_ne; [by apply cj_same|]. intros <-. cbn in Hn2. set_solver.
Qed.

Lemma journaled_create s0 j s id c u :
  coin_journaled s0 j s -> id ∉ (consumed_coins j).*1 -> 0 <= cu_amount c ->
  insert_coin (utxos s) id c = Ok u ->
  coin_journaled s0 {| consumed_coins := consumed_coins j;
                       created_coin_ids := created_coin_ids j ++ [id]; mined := mined j;
                       burned := burned j |} (with_utxos s u).
Proof.
  intros [] Hid Hpos Hc. pose proof Hc as (_ & Hl & _ & Hu)%insert_coin_Ok.
  assert (coins u = <[id := c]> (coins (utxos s))) as Hu' by (by subst u).
  assert (id ∉ created_coin_ids j) as Hni.
  { intros [_ [? ?]]%cj_new. congruence. }
  split; cbn; try done.
  - by eapply insert_coin_wf.
  - apply NoDup_app. split; [done|]. split; [|apply NoDup_singleton].
    intros x Hx. rewrite list_elem_of_singleton. by intros ->.
  - intros id' [Hin|Hin]%elem_of_app.
    + destruct (cj_new id' Hin) as [? ?]. split; [done|]. rewrite Hu'.
      apply lookup_insert_is_Some. destruct (decide (id = id')); auto.
    + apply list_elem_of_singleton in Hin as ->. rewrite Hu', lookup_insert_eq.
      split; [|done]. by rewrite <- cj_same.
  - intros id' c' Hin. destruct (cj_old _ _ Hin) as [? ?]. split; [done|]. rewrite Hu'.
    rewrite lookup_insert_ne; [done|]. intros <-. apply Hid.
    by apply list_elem_of_fmap_2 with (f := fst) in Hin.
  - intros id'. rewrite not_elem_of_app. intros [Hn1 Hn2] Hnc. rewrite Hu'.
    rewrite lookup_insert_ne; [by apply cj_same|]. set_solver.
Qed.

Lemma journaled_burn s0 j s amount s' j' :
  coin_journaled s0 j s -> record_protocol_burn amount s j = Ok (s', j') ->
  coin_journaled s0 j' s' /\ consumed_coins j' = consumed_coins j /\
  created_coin_ids j' = created_coin_ids j /\ mined j' = mined j /\
  burned j' = burned j + amount /\ utxos s' = utxos s.
Proof.
  unfold record_protocol_burn, Zeno.checked_add. intros [] Hb. inv_ok. split; [|done].
  split; cbn; try done. lia.
Qed.

(** ** What any application can do *)

Section host_invariant.
Context `{Sha3}.
Context (s0 : LedgerState) (inputs : list CoinShare) (outs : list (Owner * Z))
  (block_miner : ProgramId) (fee charge : Z) (commitment : Hash).

Definition output_id (index : N) : CoinShare := from_output commitment (Z.of_N index).

Definition output_at (index : N) : option (Owner * Z) :=
  expected_output outs block_miner fee index.

Definition output_coin (o : Owner * Z) : CoinUtxo := {| cu_amount := o.2; cu_owner := o.1 |}.

(** The identifiers of the outputs are not among the inputs: the commitment
    they hash covers the inputs. *)
Definition outputs_fresh : Prop :=
  forall index o, output_at index = Some o -> output_id index ∉ inputs.

Definition amounts_unsigned : Prop := Forall (fun o => 0 <= o.2) outs /\ 0 <= fee.

Record host_inv (h : KernelCoinHost) : Prop := {
  hi_inputs : allowed_inputs h = list_to_set inputs;
  hi_outputs : outputs h = outs;
  hi_miner : miner h = block_miner;
  hi_fee : host_fee h = fee;
  hi_burn : expected_burn h = charge;
  hi_commitment : h_commitment h = commitment;
  hi_journal : coin_journaled s0 (h_journal h) (h_state h);
  hi_consumed : forall id, id ∈ (consumed_coins (h_journal h)).*1 -> id ∈ inputs;
  hi_created : exists indices,
    created_coin_ids (h_journal h) = output_id <$> indices /\
    forall i, i ∈ indices -> exists o, output_at i = Some o /\
      coins (utxos (h_state h)) !! output_id i = Some (output_coin o);
  hi_mined : mined (h_journal h) = 0;
  hi_burned : burned (h_journal h) = 0 \/ burned (h_journal h) = charge;
}.

Context (Hfresh : outputs_fresh) (Hamounts : amounts_unsigned).

Lemma created_not_input h id :
  host_inv h -> id ∈ created_coin_ids (h_journal h) -> id ∉ inputs.
Proof.
  intros [] Hid. destruct hi_created0 as (indices & Hcr & Hc). rewrite Hcr in Hid.
  apply list_elem_of_fmap in Hid as (i & -> & Hi). destruct (Hc i Hi) as (o & Ho & _). eauto.
Qed.

Lemma output_at_unsigned index o : output_at index = Some o -> 0 <= o.2.
Proof.
  unfold output_at, expected_output. destruct Hamounts as [Hf Hfee].
  destruct (outs !! N.to_nat index) as [o'|] eqn:Ho.
  - intros [= <-]. by eapply Forall_lookup_1 in Hf.
  - case_match; [|done]. by intros [= <-].
Qed.

Lemma pass_inv point h : host_inv h -> host_inv (pass point h).1.
Proof. intros []. by split. Qed.

Lemma consume_inv id h : host_inv h -> host_inv (host_consume id h).1.
Proof.
  intros Hh. unfold host_consume. case_bool_decide as Hin; [|done].
  destruct (consume_coin _ id) as [[c u]|] eqn:Hc; [|done]. apply pass_inv.
  rewrite (hi_inputs _ Hh), elem_of_list_to_set in Hin.
  assert (id ∉ created_coin_ids (h_journal h)) as Hni.
  { intros Hcr. by apply (created_not_input h id). }
  destruct Hh. split; cbn; try done.
  - by apply journaled_consume.
  - intros id'. rewrite fmap_app, elem_of_app. intros [?|Hs]; [by apply hi_consumed0|].
    cbn in Hs. apply list_elem_of_singleton in Hs as ->. done.
  - destruct hi_created0 as (indices & Hcr & Hl). exists indices. split; [done|].
    intros i Hi. destruct (Hl i Hi) as (o & Ho & Hlo). exists o. split; [done|].
    apply consume_coin_Ok in Hc as (_ & _ & ->). cbn. rewrite lookup_delete_ne; [done|].
    intros Heq. apply Hni. rewrite Hcr. apply list_elem_of_fmap. eauto.
Qed.

Lemma create_inv index owner amount h :
  host_inv h -> host_inv (host_create index owner amount h).1.
Proof.
  intros Hh. unfold host_create. pose proof Hh as [_ -> -> -> _ -> _ _ _ _ _].
  fold (output_at index). destruct (output_at index) as [o|] eqn:Ho; [|done].
  case_decide as Heq; [|done]. subst o. fold (output_id index).
  destruct (insert_coin _ _ _) as [u|] eqn:Hc; [|done]. apply pass_inv.
  destruct Hh. split; cbn; try done.
  - apply journaled_create with (c := {| cu_amount := amount; cu_owner := owner |}); try done.
    + intros Hin%hi_consumed0. by apply (Hfresh _ _ Ho).
    + apply (output_at_unsigned _ _ Ho).
  - destruct hi_created0 as (indices & -> & Hl). exists (indices ++ [index]).
    split; [by rewrite fmap_app|]. apply insert_coin_Ok in Hc as (_ & Hn & _ & ->).
    intros i [Hi|Hi]%elem_of_app; cbn.
    + destruct (Hl i Hi) as (o & Hoi & Hlo). exists o. split; [done|].
      rewrite lookup_insert_ne; [done|]. intros He. congruence.
    + apply list_elem_of_singleton in Hi as ->. eexists. split; [done|].
      by rewrite lookup_insert_eq.
Qed.

Lemma burn_inv amount h : host_inv h -> host_inv (host_burn amount h).1.
Proof.
  intros Hh. unfold host_burn, Zeno.is_zero. destruct (Z.eqb_spec amount (expected_burn h)); [|done].
  destruct (Z.eqb_spec (burned (h_journal h)) 0) as [Hz|]; [|done]. cbn.
  destruct (record_protocol_burn _ _ _) as [[s j]|] eqn:Hb; [|done]. apply pass_inv.
  destruct Hh. subst amount.
  apply (journaled_burn _ _ _ _ _ _ hi_journal0) in Hb as (Hj & Hc & Hcr & Hm & Hbu & Hu).
  split; cbn; try done.
  - by rewrite Hc.
  - rewrite Hcr, Hu. done.
  - congruence.
  - right. rewrite Hbu, Hz, hi_burn0. lia.
Qed.

Lemma run_inv {A} (p : CoinProgram StateError A) h : host_inv h -> host_inv (run_program p h).1.
Proof.
  revert h. induction p as [a|id k IH|id k IH|index owner amount k IH|amount k IH];
    intros h Hh; cbn [run_program].
  - done.
  - by apply IH.
  - pose proof (consume_inv id h Hh) as Hc. cbn [consume kernel_coin_host].
    destruct (host_consume id h). by apply IH.
  - pose proof (create_inv index owner amount h Hh) as Hc. cbn [create kernel_coin_host].
    destruct (host_create index owner amount h). by apply IH.
  - pose proof (burn_inv amount h Hh) as Hc. cbn [burn kernel_coin_host].
    destruct (host_burn amount h). by apply IH.
Qed.
End host_invariant.

(** ** The declared effect of a transition *)

Section effect.
Context `{Sha3}.

Definition intent_outputs (intent : CoinTransition) : list (Owner * Z) :=
  (fun output => (co_output output, co_amount output)) <$> ct_outputs intent.

(** The outputs a transition declares, the miner's fee last. *)
Definition all_outputs (intent : CoinTransition) (block_miner : ProgramId) : list (Owner * Z) :=
  intent_outputs intent
  ++ (if miner_fee (charges intent) =? 0 then []
      else [(Program block_miner, miner_fee (charges intent))]).

Definition created_entries (intent : CoinTransition) (commitment : Hash)
    (block_miner : ProgramId) : list (CoinShare * CoinUtxo) :=
  imap (fun i o => (output_id commitment (N.of_nat i), output_coin o))
    (all_outputs intent block_miner).

(** The coins after the transition: the inputs gone, the outputs there. *)
Definition coins_after (s : LedgerState) (intent : CoinTransition) (commitment : Hash)
    (block_miner : ProgramId) : gmap CoinShare CoinUtxo :=
  list_to_map (created_entries intent commitment block_miner)
  ∪ filter (fun e => e.1 ∉ ct_inputs intent) (coins (utxos s)).

(** Amounts are unsigned, and no output identifier is an input. *)
Record intent_ok (intent : CoinTransition) (commitment : Hash) (block_miner : ProgramId)
    : Prop := {
  io_amounts : Forall (fun o => 0 <= co_amount o) (ct_outputs intent);
  io_fee : 0 <= miner_fee (charges intent) < 2 ^ 64;
  io_fresh : forall i, (i < length (all_outputs intent block_miner))%nat ->
    output_id commitment (N.of_nat i) ∉ ct_inputs intent;
}.

Lemma output_at_all intent block_miner index :
  output_at (intent_outputs intent) block_miner (miner_fee (charges intent)) index
  = all_outputs intent block_miner !! N.to_nat index.
Proof.
  unfold output_at, expected_output, all_outputs.
  destruct (intent_outputs intent !! N.to_nat index) as [o|] eqn:Ho.
  - by rewrite lookup_app_l by (by eapply lookup_lt_Some).
  - apply lookup_ge_None_1 in Ho. rewrite lookup_app_r by done.
    destruct (Z.eqb_spec (miner_fee (charges intent)) 0); [by rewrite andb_false_r|].
    destruct (N.eqb_spec index (N.of_nat (length (intent_outputs intent)))) as [->|Hne]; cbn.
    + by rewrite Nat2N.id, Nat.sub_diag.
    + destruct (N.to_nat index - length (intent_outputs intent))%nat eqn:Hs; [lia|done].
Qed.

Lemma intent_fresh intent commitment block_miner :
  intent_ok intent commitment block_miner ->
  outputs_fresh (ct_inputs intent) (intent_outputs intent) block_miner
    (miner_fee (charges intent)) commitment.
Proof.
  intros [_ _ Hf] index o. rewrite output_at_all. intros Ho%lookup_lt_Some.
  specialize (Hf _ Ho). by rewrite N2Nat.id in Hf.
Qed.

Lemma intent_unsigned intent commitment block_miner :
  intent_ok intent commitment block_miner ->
  amounts_unsigned (intent_outputs intent) (miner_fee (charges intent)).
Proof. intros [Ha Hf _]. split; [|lia]. unfold intent_outputs. by apply Forall_fmap. Qed.

(** Coin counters and store in range, as every ledger state has them. *)
Record coin_state_wf (s : LedgerState) : Prop := {
  sw_utxo : utxo_wf (utxos s);
  sw_mined : 0 <= total_mined (coin_record s);
  sw_burned : 0 <= total_burned (coin_record s);
}.

Lemma start_inv s intent commitment block_miner checkpoint charge :
  coin_state_wf s ->
  host_inv s (ct_inputs intent) (intent_outputs intent) block_miner (miner_fee (charges intent))
    charge commitment (coin_host s intent commitment block_miner checkpoint charge).
Proof.
  intros []. split; cbn; try done.
  - by apply journaled_start.
  - intros id Hid. by apply elem_of_nil in Hid.
  - exists []. split; [done|]. intros i Hi. by apply elem_of_nil in Hi.
  - by left.
Qed.

(** After the application has returned, whatever it was: the state, the
    journal and the invariant that relates them to the start. *)
Lemma execute_cases s intent commitment block_miner checkpoint application s' r :
  coin_state_wf s -> intent_ok intent commitment block_miner ->
  execute_coin_program intent commitment block_miner checkpoint application s = (s', r) ->
  match r with
  | Err e => s' = s
  | Ok j => exists charge h, planned_burn s intent = Ok charge /\
      host_inv s (ct_inputs intent) (intent_outputs intent) block_miner
        (miner_fee (charges intent)) charge commitment h /\
      transition_complete intent charge j = true /\ j = h_journal h /\ s' = h_state h
  end.
Proof.
  intros Hs Hi. unfold execute_coin_program.
  destruct (planned_burn s intent) as [charge|e] eqn:Hp.
  - pose proof (run_inv s (ct_inputs intent) (intent_outputs intent) block_miner
      (miner_fee (charges intent)) charge commitment (intent_fresh _ _ _ Hi)
      (intent_unsigned _ _ _ Hi)
      (application (ct_inputs intent) (outputs (coin_host s intent commitment block_miner
        checkpoint charge)) block_miner (miner_fee (charges intent))) _
      (start_inv s intent commitment block_miner checkpoint charge Hs)) as Hh.
    destruct (run_program _ _) as [h res]. cbn [fst] in Hh.
    assert (forall e, finish_coin_transition (h_journal h) (Err e) (h_state h) = (s, Err e)) as Herr.
    { intros e. cbn. by rewrite (st_bind_run _ _ _ _ _ (rollback_coin_restores _ _ _ (hi_journal _ _ _ _ _ _ _ _ Hh))). }
    destruct res as [u|error]; [|rewrite Herr; by intros [= <- <-]].
    destruct (transition_complete _ _ _) eqn:Hc; [|rewrite Herr; by intros [= <- <-]].
    cbn. intros [= <- <-]. eauto 10.
  - cbn. destruct Hs.
    rewrite (st_bind_run _ _ _ _ _ (rollback_coin_restores _ _ _
      (journaled_start s sw_utxo0 sw_mined0 sw_burned0))). by intros [= <- <-].
Qed.
End effect.
