(* ===== verification/CoinProps.v ===== *)
(** * What a coin transition does

    The theorems on [CoinHost]: whatever application a node installs, a coin
    transition the kernel accepts has exactly the effect its intent declares,
    a refused one has none, and the transfer application is accepted whenever
    its intent is payable. *)

From S2P Require Import Prelude Codec Monetary Index Coin Assets AssetAudit Registry State CoinHost.
#[local] Open Scope Z_scope.

(** ** Sums over disjoint unions *)

Definition entry_amount (e : CoinShare * CoinUtxo) : Z := cu_amount e.2.

Lemma value_of_list_union (l : list (CoinShare * CoinUtxo)) (m : gmap CoinShare CoinUtxo) :
  NoDup l.*1 -> (forall id, id ∈ l.*1 -> m !! id = None) ->
  value_of (list_to_map l ∪ m) = zsum (entry_amount <$> l) + value_of m.
Proof.
  induction l as [|[id c] l IH]; intros Hnd Hm.
  { cbn. by rewrite (left_id_L ∅ (∪)). }
  rewrite fmap_cons in *. rewrite list_to_map_cons.
  apply NoDup_cons in Hnd as [Hni Hnd]. rewrite <- insert_union_l.
  unfold value_of at 1. rewrite map_sum_insert.
  - fold (value_of (list_to_map l ∪ m)). rewrite IH, zsum_cons; [|done|].
    + unfold entry_amount at 2. cbn. lia.
    + intros id' Hin. apply Hm. by right.
  - apply lookup_union_None. split; [by apply not_elem_of_list_to_map_1|]. apply Hm. by left.
Qed.

Lemma list_to_map_union_eq (l : list (CoinShare * CoinUtxo)) (m m' : gmap CoinShare CoinUtxo) :
  NoDup l.*1 -> (forall id c, (id, c) ∈ l -> m !! id = Some c) ->
  (forall id, id ∉ l.*1 -> m !! id = m' !! id) ->
  m = list_to_map l ∪ m'.
Proof.
  intros Hnd Hin Hout. apply map_eq. intros id.
  destruct (decide (id ∈ l.*1)) as [Hid|Hid].
  - apply list_elem_of_fmap in Hid as ([id' c] & -> & Hc). cbn. rewrite (Hin _ _ Hc).
    symmetry. apply lookup_union_Some_l. by apply elem_of_list_to_map_1.
  - rewrite lookup_union_r by (by apply not_elem_of_list_to_map_1). by apply Hout.
Qed.

(** A duplicate-free list inside another that is no longer is a permutation of it. *)
Lemma NoDup_incl_permutation {A} (l k : list A) :
  NoDup l -> (forall x, x ∈ l -> x ∈ k) -> (length k <= length l)%nat -> l ≡ₚ k.
Proof.
  intros. apply submseteq_length_Permutation; [|done]. by apply NoDup_submseteq.
Qed.

(** ** The final state of an accepted transition *)

Section accepted.
Context `{Sha3}.
Context (s : LedgerState) (intent : CoinTransition) (commitment : Hash)
  (block_miner : ProgramId) (charge : Z) (h : KernelCoinHost).
Context (Hinv : host_inv s (ct_inputs intent) (intent_outputs intent) block_miner
  (miner_fee (charges intent)) charge commitment h)
  (Hok : intent_ok intent commitment block_miner)
  (Hcomplete : transition_complete intent charge (h_journal h) = true).

#[local] Notation j := (h_journal h).
#[local] Notation s' := (h_state h).

Lemma complete_counts :
  length (consumed_coins j) = length (ct_inputs intent) /\
  length (created_coin_ids j) = length (all_outputs intent block_miner) /\ burned j = charge.
Proof.
  unfold transition_complete, Zeno.is_zero in Hcomplete.
  unfold all_outputs, intent_outputs. rewrite length_app, length_fmap.
  destruct (miner_fee (charges intent) =? 0); cbn [length];
    rewrite !andb_true_iff, !Nat.eqb_eq, Z.eqb_eq in Hcomplete; naive_solver.
Qed.

Lemma consumed_are_inputs : (consumed_coins j).*1 ≡ₚ ct_inputs intent.
Proof.
  apply NoDup_incl_permutation.
  - apply (cj_consumed _ _ _ (hi_journal _ _ _ _ _ _ _ _ Hinv)).
  - apply (hi_consumed _ _ _ _ _ _ _ _ Hinv).
  - rewrite length_fmap. pose proof complete_counts. lia.
Qed.

Lemma entries_ids :
  (created_entries intent commitment block_miner).*1
  = (fun i => output_id commitment (N.of_nat i)) <$> seq 0 (length (all_outputs intent block_miner)).
Proof.
  unfold created_entries. rewrite fmap_imap. apply list_eq. intros i.
  rewrite list_lookup_imap, list_lookup_fmap.
  destruct (all_outputs intent block_miner !! i) as [o|] eqn:Ho; cbn.
  - rewrite lookup_seq_lt by (by eapply lookup_lt_Some). done.
  - rewrite lookup_seq_ge by (by apply lookup_ge_None_1). done.
Qed.

(** The created identifiers are those of the declared outputs, each once, and
    each is live with the declared owner and amount. *)
Lemma created_are_outputs :
  created_coin_ids j ≡ₚ (created_entries intent commitment block_miner).*1 /\
  forall id c, (id, c) ∈ created_entries intent commitment block_miner ->
    coins (utxos s') !! id = Some c.
Proof.
  destruct (hi_created _ _ _ _ _ _ _ _ Hinv) as (indices & Hcr & Hl).
  pose proof (cj_created _ _ _ (hi_journal _ _ _ _ _ _ _ _ Hinv)) as Hnd.
  rewrite Hcr in Hnd. apply NoDup_fmap_1 in Hnd.
  assert (N.to_nat <$> indices ≡ₚ seq 0 (length (all_outputs intent block_miner))) as Hp.
  { apply NoDup_incl_permutation.
    - apply NoDup_fmap_2; [|done]. intros ???. by apply N2Nat.inj.
    - intros n (i & -> & Hi)%list_elem_of_fmap. destruct (Hl i Hi) as (o & Ho & _).
      rewrite output_at_all in Ho. apply lookup_lt_Some in Ho. apply elem_of_seq. lia.
    - rewrite length_fmap, length_seq. destruct complete_counts as (_ & Hc & _).
      rewrite Hcr, length_fmap in Hc. lia. }
  split.
  - rewrite Hcr, entries_ids, <- Hp, <- list_fmap_compose. apply reflexive_eq.
    apply list_fmap_ext. intros i x _. cbn. by rewrite N2Nat.id.
  - intros id c (i & Hi)%list_elem_of_lookup. unfold created_entries in Hi.
    rewrite list_lookup_imap in Hi. apply fmap_Some in Hi as (o & Ho & [= -> ->]).
    assert (i ∈ N.to_nat <$> indices) as Hi.
    { rewrite Hp. apply elem_of_seq. apply lookup_lt_Some in Ho. lia. }
    apply list_elem_of_fmap in Hi as (n & -> & Hn). destruct (Hl n Hn) as (o' & Ho' & Hc).
    rewrite output_at_all, Ho in Ho'. simplify_eq. by rewrite N2Nat.id.
Qed.

Lemma entries_nodup : NoDup (created_entries intent commitment block_miner).*1.
Proof.
  rewrite <- (proj1 created_are_outputs). apply (cj_created _ _ _ (hi_journal _ _ _ _ _ _ _ _ Hinv)).
Qed.

Lemma entries_not_inputs id :
  id ∈ (created_entries intent commitment block_miner).*1 -> id ∉ ct_inputs intent.
Proof.
  rewrite <- (proj1 created_are_outputs). apply created_not_input with (s0 := s)
    (outs := intent_outputs intent) (block_miner := block_miner)
    (fee := miner_fee (charges intent)) (charge := charge) (commitment := commitment); [|done].
  by apply intent_fresh.
Qed.

Let untouched : gmap CoinShare CoinUtxo :=
  filter (fun e => e.1 ∉ ct_inputs intent) (coins (utxos s)).

Lemma untouched_lookup id : id ∉ ct_inputs intent -> untouched !! id = coins (utxos s) !! id.
Proof.
  intros Hid. subst untouched. destruct (coins (utxos s) !! id) as [c|] eqn:Hc.
  - by apply map_lookup_filter_Some.
  - apply map_lookup_filter_None. by left.
Qed.

Lemma untouched_input id : id ∈ ct_inputs intent -> untouched !! id = None.
Proof. intros Hid. apply map_lookup_filter_None. right. by intros c _ ?. Qed.

Lemma untouched_output id :
  id ∈ (created_entries intent commitment block_miner).*1 -> untouched !! id = None.
Proof.
  intros Hid. rewrite untouched_lookup by (by apply entries_not_inputs).
  apply (cj_new _ _ _ (hi_journal _ _ _ _ _ _ _ _ Hinv)). by rewrite (proj1 created_are_outputs).
Qed.

Lemma coins_before : coins (utxos s) = list_to_map (consumed_coins j) ∪ untouched.
Proof.
  pose proof (hi_journal _ _ _ _ _ _ _ _ Hinv) as []. apply list_to_map_union_eq.
  - done.
  - intros id c Hin. by apply cj_old.
  - intros id. rewrite consumed_are_inputs. intros Hid. by rewrite untouched_lookup.
Qed.

Lemma coins_accepted : coins (utxos s') = coins_after s intent commitment block_miner.
Proof.
  pose proof (hi_journal _ _ _ _ _ _ _ _ Hinv) as []. apply list_to_map_union_eq.
  - apply entries_nodup.
  - apply created_are_outputs.
  - intros id Hid. rewrite <- (proj1 created_are_outputs) in Hid.
    destruct (decide (id ∈ ct_inputs intent)) as [Hin|Hin].
    + rewrite untouched_input by done. rewrite <- consumed_are_inputs in Hin.
      apply list_elem_of_fmap in Hin as ([id' c] & -> & Hin). by apply cj_old in Hin as [_ ?].
    + rewrite untouched_lookup by done. apply cj_same; [done|]. by rewrite consumed_are_inputs.
Qed.

Lemma consumed_total :
  zsum (entry_amount <$> consumed_coins j)
  = zsum ((fun id => from_option cu_amount 0 (coins (utxos s) !! id)) <$> ct_inputs intent).
Proof.
  rewrite <- (zsum_permutation _ _ (fmap_Permutation _ _ _ consumed_are_inputs)).
  rewrite <- list_fmap_compose. f_equal. apply list_fmap_ext. intros i [id c] Hi%list_elem_of_lookup_2.
  apply (cj_old _ _ _ (hi_journal _ _ _ _ _ _ _ _ Hinv)) in Hi as [Hl _]. cbn in *. by rewrite Hl.
Qed.

Lemma entries_total :
  zsum (entry_amount <$> created_entries intent commitment block_miner)
  = zsum (co_amount <$> ct_outputs intent) + miner_fee (charges intent).
Proof.
  assert (entry_amount <$> created_entries intent commitment block_miner
    = snd <$> all_outputs intent block_miner) as ->.
  { unfold created_entries. rewrite fmap_imap. apply list_eq. intros i.
    by rewrite list_lookup_imap, list_lookup_fmap. }
  unfold all_outputs, intent_outputs. rewrite fmap_app, zsum_app, <- list_fmap_compose.
  f_equal. destruct (Z.eqb_spec (miner_fee (charges intent)) 0); cbn; lia.
Qed.
End accepted.

(** ** The planned charge *)

Definition input_value (s : LedgerState) (intent : CoinTransition) : Z :=
  zsum ((fun id => from_option cu_amount 0 (coins (utxos s) !! id)) <$> ct_inputs intent).

Definition output_value (intent : CoinTransition) : Z :=
  zsum (co_amount <$> ct_outputs intent) + miner_fee (charges intent).

(** The inputs are live, the totals fit, and the balance is not negative. *)
Record payable (s : LedgerState) (intent : CoinTransition) : Prop := {
  pay_live : forall id, id ∈ ct_inputs intent -> is_Some (coins (utxos s) !! id);
  pay_inputs : input_value s intent < 2 ^ 64;
  pay_balance : output_value intent <= input_value s intent;
}.

Lemma live_amounts s ids amounts :
  Forall2 (fun id a => input_amount_of InvalidTransition s id = Ok a) ids amounts <->
  (forall id, id ∈ ids -> is_Some (coins (utxos s) !! id)) /\
  amounts = (fun id => from_option cu_amount 0 (coins (utxos s) !! id)) <$> ids.
Proof.
  assert (forall id a, input_amount_of InvalidTransition s id = Ok a <->
    is_Some (coins (utxos s) !! id) /\ a = from_option cu_amount 0 (coins (utxos s) !! id)) as Hin.
  { intros id a. unfold input_amount_of, coin. destruct (coins (utxos s) !! id); cbn.
    - naive_solver.
    - split; [done|]. by intros [[? ?] _]. }
  split.
  - intros Hf. induction Hf as [|id a ids amounts Ha _ [IH ->]]; [set_solver|].
    apply Hin in Ha as [Hs ->]. split; [|done]. intros id' [->|?]%elem_of_cons; auto.
  - intros [Hl ->]. apply Forall2_fmap_r, Forall2_same_length_lookup_2; [done|].
    intros i x y Hx Hy. simplify_eq. apply Hin. split; [|done]. apply Hl.
    by eapply list_elem_of_lookup_2.
Qed.

Lemma ok_amounts {E B} (f : B -> Z) l amounts :
  Forall2 (fun b a => (Ok (f b) : result E Z) = Ok a) l amounts <-> amounts = f <$> l.
Proof.
  split.
  - induction 1 as [|b a l amounts Ha _ ->]; [done|]. cbn. f_equal. congruence.
  - intros ->. induction l; constructor; done.
Qed.

Lemma planned_burn_spec s intent charge :
  utxo_wf (utxos s) -> Forall (fun o => 0 <= co_amount o) (ct_outputs intent) ->
  0 <= miner_fee (charges intent) < 2 ^ 64 ->
  planned_burn s intent = Ok charge <->
  payable s intent /\ charge = input_value s intent - output_value intent.
Proof.
  intros Hwf Hout Hfee. unfold planned_burn.
  assert (forall r, try_fold (sum_fold (input_amount_of InvalidTransition s) AmountOverflow)
      (ct_inputs intent) 0 = Ok r <->
    (forall id, id ∈ ct_inputs intent -> is_Some (coins (utxos s) !! id)) /\
    r = input_value s intent /\ r < 2 ^ 64) as Hin.
  { intros r. rewrite sum_fold_Ok; [|intros id a _; unfold input_amount_of, coin|done].
    - split.
      + intros (am & [Hl ->]%live_amounts & -> & Hr). by rewrite Z.add_0_l in *.
      + intros (Hl & -> & Hr). eexists. split; [by apply live_amounts|]. by rewrite Z.add_0_l.
    - destruct (coins (utxos s) !! id) as [c|] eqn:Hc; [|done]. intros [= <-].
      apply (utxo_amounts _ Hwf) in Hc. unfold coin_wf in Hc. lia. }
  assert (forall r, try_fold (sum_fold (fun output => Ok output.2) AmountOverflow)
      ((fun output => (co_output output, co_amount output)) <$> ct_outputs intent)
      (miner_fee (charges intent)) = Ok r <-> r = output_value intent /\ r < 2 ^ 64) as Hou.
  { intros r. rewrite sum_fold_Ok; [|intros b a Hb [= <-]|lia].
    - unfold output_value. rewrite Z.add_comm. split.
      + intros (am & ->%ok_amounts & -> & Hr). rewrite <- list_fmap_compose in *. done.
      + intros [-> Hr]. eexists. split; [by apply ok_amounts|]. by rewrite <- list_fmap_compose.
    - apply list_elem_of_fmap in Hb as (o & -> & Ho). by eapply Forall_forall in Hout. }
  split.
  - destruct (try_fold _ (ct_inputs intent) 0) as [i|] eqn:Hi; [|done]. cbn [mbind result_mbind].
    destruct (try_fold _ _ (miner_fee _)) as [o|] eqn:Ho; [|done]. cbn [mbind result_mbind].
    destruct (proj1 (Hin i) eq_refl) as (Hl & -> & ?). destruct (proj1 (Hou o) eq_refl) as [-> ?].
    destruct (checked_sub _ _) as [r|] eqn:Hs; [|done]. intros [= <-].
    apply checked_sub_Some in Hs as [-> ?]. split; [|done]. split; [done|done|lia].
  - intros [[Hl Hi Hb] ->].
    rewrite (proj2 (Hin _) (conj Hl (conj eq_refl Hi))). cbn.
    rewrite (proj2 (Hou (output_value intent))) by (split; [done|lia]). cbn.
    by rewrite (proj2 (checked_sub_Some _ _ (input_value s intent - output_value intent))) by lia.
Qed.

(** ** Any application *)

Lemma coin_state_ok_wf s : coin_state_ok s -> coin_state_wf s.
Proof. intros []. split; [done|lia|lia]. Qed.

(** Whatever application is installed and whatever the checkpoints answer,
    a coin transition that fails leaves the ledger state as it was. *)
Theorem coin_transition_atomic `{Sha3} s intent commitment block_miner checkpoint application s' e :
  coin_state_wf s -> intent_ok intent commitment block_miner ->
  execute_coin_program intent commitment block_miner checkpoint application s = (s', Err e) ->
  s' = s.
Proof. intros Hs Hi He. exact (execute_cases _ _ _ _ _ _ _ _ Hs Hi He). Qed.

Section accepted_value.
Context `{Sha3}.
Context (s : LedgerState) (intent : CoinTransition) (commitment : Hash)
  (block_miner : ProgramId) (charge : Z) (h : KernelCoinHost).
Context (Hinv : host_inv s (ct_inputs intent) (intent_outputs intent) block_miner
  (miner_fee (charges intent)) charge commitment h)
  (Hok : intent_ok intent commitment block_miner)
  (Hcomplete : transition_complete intent charge (h_journal h) = true).

Lemma accepted_value :
  total_value (utxos (h_state h))
  = total_value (utxos s) - (input_value s intent - output_value intent).
Proof.
  pose proof (hi_journal _ _ _ _ _ _ _ _ Hinv) as [Hb Ha _ Hnd _ _ _ _ _ _ _ _].
  rewrite (utxo_total _ Ha), (utxo_total _ Hb).
  rewrite (coins_accepted s intent commitment block_miner charge h Hinv Hcomplete).
  unfold coins_after. rewrite value_of_list_union.
  - rewrite (coins_before s intent commitment block_miner charge h Hinv Hcomplete) at 2.
    rewrite value_of_list_union; [|done|].
    + rewrite (consumed_total s intent commitment block_miner charge h Hinv Hcomplete).
      rewrite entries_total. fold (input_value s intent) (output_value intent). lia.
    + intros id. rewrite (consumed_are_inputs s intent commitment block_miner charge h Hinv Hcomplete).
      apply untouched_input.
  - apply (entries_nodup s intent commitment block_miner charge h Hinv Hcomplete).
  - apply (untouched_output s intent commitment block_miner charge h Hinv Hok Hcomplete).
Qed.
End accepted_value.

(** (C15) Whatever application is installed, a coin transition the kernel
    accepts spends each declared input once, creates exactly the declared
    outputs and the miner's fee, burns exactly what is left, touches nothing
    else, keeps the supply equation, and its journal undoes it. *)
Theorem coin_transition_exact `{Sha3} s intent commitment block_miner checkpoint application s' j :
  coin_state_ok s -> intent_ok intent commitment block_miner ->
  execute_coin_program intent commitment block_miner checkpoint application s = (s', Ok j) ->
  let charge := input_value s intent - output_value intent in
  (payable s intent /\ NoDup (ct_inputs intent)) /\
  coins (utxos s') = coins_after s intent commitment block_miner /\
  total_value (utxos s') = total_value (utxos s) - charge /\
  coin_record s' = {| total_mined := total_mined (coin_record s);
                      total_burned := total_burned (coin_record s) + charge |} /\
  l_programs s' = l_programs s /\ l_assets s' = l_assets s /\
  coin_state_ok s' /\ rollback_coin j s' = (s, Ok tt).
Proof.
  intros Hs Hi He charge. pose proof (coin_state_ok_wf s Hs) as Hwf.
  destruct (execute_cases _ _ _ _ _ _ _ _ Hwf Hi He) as (c & h & Hp & Hinv & Hc & -> & ->).
  pose proof Hi as [Ham Hfee _]. destruct Hs as [Hu Hm Hb Hsup].
  apply planned_burn_spec in Hp as [Hpay ->]; [|done..]. fold charge in Hinv, Hc.
  pose proof (hi_journal _ _ _ _ _ _ _ _ Hinv) as Hj. pose proof Hj as [].
  pose proof (accepted_value _ _ _ _ _ _ Hinv Hi Hc) as Hv. fold charge in Hv.
  destruct (complete_counts _ _ _ _ _ _ Hinv Hc) as (_ & _ & Hbu).
  rewrite (hi_mined _ _ _ _ _ _ _ _ Hinv) in cj_mined. rewrite Hbu in cj_burned.
  pose proof (utxo_bound _ cj_after). pose proof (value_of_nonneg _ (utxo_amounts _ cj_after)) as Hn.
  rewrite <- (utxo_total _ cj_after) in Hn. pose proof (pay_balance _ _ Hpay).
  split_and!; try done.
  - rewrite <- (consumed_are_inputs _ _ _ _ _ _ Hinv Hc). done.
  - by apply (coins_accepted _ _ _ _ _ _ Hinv Hc).
  - destruct (coin_record (h_state h)). cbn in *. f_equal; lia.
  - split; [done|lia|lia|]. lia.
  - by apply rollback_coin_restores.
Qed.

(** ** The transfer application *)

Lemma run_program_bind {H E A B} `{CoinHost H E} (p : CoinProgram E A) (f : A -> CoinProgram E B) h :
  run_program (program_bind p f) h
  = let '(h', a) := run_program p h in run_program (f a) h'.
Proof.
  revert h. induction p as [a|id k IH|id k IH|index owner amount k IH|amount k IH]; intros h;
    cbn [run_program program_bind].
  - done.
  - apply IH.
  - destruct (consume id h). apply IH.
  - destruct (create index owner amount h). apply IH.
  - destruct (burn amount h). apply IH.
Qed.

(** Running a sequence whose first part is known to succeed. *)
Lemma run_bind_Ok {H E A B} `{CoinHost H E} (p : Transfer E A) (f : A -> Transfer E B) h h' a :
  run_program p h = (h', Ok a) -> run_program (p ≫= f) h = run_program (f a) h'.
Proof. intros Hp. unfold mbind, transfer_mbind. by rewrite run_program_bind, Hp. Qed.

(** The host with another state and journal, further along its checkpoints. *)
Definition moved (h : KernelCoinHost) (s : LedgerState) (j : CoinRollbackJournal)
    (ps : list TransitionPoint) : KernelCoinHost :=
  {| allowed_inputs := allowed_inputs h; outputs := outputs h; miner := miner h;
     host_fee := host_fee h; expected_burn := expected_burn h; h_state := s; h_journal := j;
     h_commitment := h_commitment h; checkpoint := checkpoint h; passed := ps |}.

Definition more_consumed (j : CoinRollbackJournal) (l : list (CoinShare * CoinUtxo)) :=
  {| consumed_coins := consumed_coins j ++ l; created_coin_ids := created_coin_ids j;
     mined := mined j; burned := burned j |}.

Definition more_created (j : CoinRollbackJournal) (l : list CoinShare) :=
  {| consumed_coins := consumed_coins j; created_coin_ids := created_coin_ids j ++ l;
     mined := mined j; burned := burned j |}.

Section transfer_runs.
Context `{Sha3}.

Definition live_amount (u : UtxoSet) (id : CoinShare) : Z := from_option cu_amount 0 (coins u !! id).

Lemma input_loop_run ids t h :
  utxo_wf (utxos (h_state h)) ->
  (forall id, id ∈ ids -> id ∈ allowed_inputs h /\ is_Some (coins (utxos (h_state h)) !! id)) ->
  t + zsum (live_amount (utxos (h_state h)) <$> ids) < 2 ^ 64 ->
  run_program (input_loop ids t) h
  = (h, Ok (t + zsum (live_amount (utxos (h_state h)) <$> ids))).
Proof.
  intros Hwf. revert t. induction ids as [|id ids IH]; intros t Hin Hb; cbn [input_loop].
  { cbn. by rewrite Z.add_0_r. }
  rewrite fmap_cons, zsum_cons in *. destruct (Hin id) as [Ha [c Hc]]; [left|].
  assert (0 <= zsum (live_amount (utxos (h_state h)) <$> ids)) as Hn.
  { apply zsum_nonneg, Forall_fmap, Forall_forall. intros id' Hid'. destruct (Hin id') as [_ [c' Hc']]; [by right|].
    cbn. unfold live_amount. rewrite Hc'. cbn. apply (utxo_amounts _ Hwf) in Hc'. unfold coin_wf in Hc'. lia. }
  erewrite run_bind_Ok.
  2:{ cbn. unfold host_input_amount. rewrite bool_decide_eq_true_2 by done. cbn. unfold coin.
      rewrite Hc. cbn. done. }
  assert (live_amount (utxos (h_state h)) id = cu_amount c) as Hl by (unfold live_amount; by rewrite Hc).
  rewrite Hl in *. erewrite run_bind_Ok.
  2:{ cbn. rewrite (proj2 (checked_add_Some 64 t (cu_amount c) (t + cu_amount c))) by lia. cbn. done. }
  rewrite IH; [f_equal; f_equal; lia| |lia]. intros id' Hid'. apply Hin. by right.
Qed.

(** No checkpoint refuses. *)
Definition checkpoints_pass (h : KernelCoinHost) : Prop :=
  forall ps point, checkpoint h ps point = Ok tt.

Lemma consume_loop_run ids h :
  checkpoints_pass h -> utxo_wf (utxos (h_state h)) -> NoDup ids ->
  (forall id, id ∈ ids -> id ∈ allowed_inputs h /\ is_Some (coins (utxos (h_state h)) !! id)) ->
  exists u l ps,
    run_program (consume_loop ids) h
    = (moved h (with_utxos (h_state h) u) (more_consumed (h_journal h) l) ps, Ok tt) /\
    length l = length ids /\ utxo_wf u /\ coins u ⊆ coins (utxos (h_state h)) /\
    total_value u = total_value (utxos (h_state h))
                    - zsum (live_amount (utxos (h_state h)) <$> ids).
Proof.
  revert h. induction ids as [|id ids IH]; intros h Hc Hwf Hnd Hin; cbn [consume_loop].
  { exists (utxos (h_state h)), [], (passed h). split_and!; try done.
    - destruct h as [? ? ? ? ? [] [] ? ? ?]. cbn. unfold moved, more_consumed, with_utxos. cbn.
      by rewrite app_nil_r.
    - cbn. lia. }
  apply NoDup_cons in Hnd as [Hni Hnd]. destruct (Hin id) as [Ha [c Hl]]; [left|].
  destruct (consume_coin_total _ id c Hwf Hl) as [u1 Hu1].
  pose proof (consume_coin_wf _ _ _ _ Hwf Hu1) as Hwf1.
  pose proof Hu1 as (_ & _ & He)%consume_coin_Ok.
  assert (coins u1 = delete id (coins (utxos (h_state h)))) as Hc1 by (by subst u1).
  set (h1 := moved h (with_utxos (h_state h) u1) (more_consumed (h_journal h) [(id, c)])
    (passed h ++ [CoinInputConsumed])).
  assert (run_program (AskConsume id (fun r => Done (map_err Host r))) h = (h1, Ok tt)) as Hrun.
  { cbn. unfold host_consume. rewrite bool_decide_eq_true_2 by done. rewrite Hu1. unfold pass. cbn.
    by rewrite Hc. }
  rewrite (run_bind_Ok _ _ _ _ _ Hrun).
  destruct (IH h1) as (u & l & ps & -> & Hlen & Hwfu & Hsub & Htot); [done|done|done|..].
  { intros id' Hid'. cbn. rewrite Hc1, lookup_delete_ne by set_solver. apply Hin. by right. }
  cbn in Hsub. rewrite Hc1 in Hsub.
  exists u, ((id, c) :: l), ps. split_and!; [..|].
  - unfold moved, more_consumed, with_utxos. cbn. by rewrite <- app_assoc.
  - cbn. lia.
  - done.
  - etransitivity; [done|apply delete_subseteq].
  - rewrite Htot. rewrite fmap_cons, zsum_cons. cbn [h_state moved utxos with_utxos h1].
    assert (live_amount u1 <$> ids = live_amount (utxos (h_state h)) <$> ids) as ->.
    { apply list_fmap_ext. intros i id' Hi%list_elem_of_lookup_2. unfold live_amount.
      rewrite Hc1, lookup_delete_ne; [done|set_solver]. }
    subst u1. cbn. unfold live_amount at 2. rewrite Hl. cbn. lia.
Qed.

Definition nth_id (h : KernelCoinHost) (k : nat) : CoinShare :=
  output_id (h_commitment h) (N.of_nat k).

(** One output: declared, unused, positive, and there is room for its value. *)
Lemma create_run i o h :
  checkpoints_pass h -> utxo_wf (utxos (h_state h)) ->
  expected_output (outputs h) (miner h) (host_fee h) (N.of_nat i) = Some o ->
  coins (utxos (h_state h)) !! nth_id h i = None -> 0 < o.2 ->
  total_value (utxos (h_state h)) + o.2 < 2 ^ 64 ->
  exists u ps,
    run_program (AskCreate (N.of_nat i) o.1 o.2 (fun r => Done (map_err Host r))) h
    = (moved h (with_utxos (h_state h) u) (more_created (h_journal h) [nth_id h i]) ps, Ok tt) /\
    utxo_wf u /\ coins u = <[nth_id h i := output_coin o]> (coins (utxos (h_state h))) /\
    total_value u = total_value (utxos (h_state h)) + o.2.
Proof.
  intros Hc Hwf Ho Hfresh Hpos Hb. destruct o as [owner amount]. cbn [fst snd] in *.
  destruct (insert_coin_total (utxos (h_state h)) (nth_id h i) (output_coin (owner, amount)))
    as [u Hu]; [done|cbn; lia|done|].
  assert (utxo_wf u) as Hwfu by (eapply insert_coin_wf; [done| |done]; cbn; lia).
  pose proof Hu as (_ & _ & _ & He)%insert_coin_Ok.
  eexists u, _. split; [|split; [done|by subst u]].
  cbn. unfold host_create. rewrite Ho, decide_True by done.
  unfold nth_id, output_id, output_coin in Hu. cbn in Hu. rewrite Hu. unfold pass. cbn. by rewrite Hc.
Qed.

Lemma create_loop_run outs i h :
  let ids := nth_id h <$> seq i (length outs) in
  checkpoints_pass h -> utxo_wf (utxos (h_state h)) ->
  (forall k o, outs !! k = Some o ->
    expected_output (outputs h) (miner h) (host_fee h) (N.of_nat (i + k)) = Some o /\ 0 < o.2) ->
  NoDup ids -> (forall id, id ∈ ids -> coins (utxos (h_state h)) !! id = None) ->
  Z.of_nat (i + length outs) <= 2 ^ 32 ->
  total_value (utxos (h_state h)) + zsum (snd <$> outs) < 2 ^ 64 ->
  exists u ps,
    run_program (create_loop (Z.of_nat i) outs) h
    = (moved h (with_utxos (h_state h) u) (more_created (h_journal h) ids) ps, Ok tt) /\
    utxo_wf u /\ (forall id, id ∉ ids -> coins u !! id = coins (utxos (h_state h)) !! id) /\
    total_value u = total_value (utxos (h_state h)) + zsum (snd <$> outs).
Proof.
  revert i h. induction outs as [|o outs IH]; intros i h ids Hc Hwf Ho Hnd Hfresh Hi Hb.
  { exists (utxos (h_state h)), (passed h). split_and!; try done.
    - destruct h as [? ? ? ? ? [] [] ? ? ?]. cbn. unfold moved, more_created, with_utxos. cbn.
      by rewrite app_nil_r.
    - cbn. lia. }
  subst ids. cbn [length seq] in *. rewrite !fmap_cons in *. rewrite zsum_cons in *.
  apply NoDup_cons in Hnd as [Hni Hnd]. destruct (Ho O o eq_refl) as [Hex Hpos].
  rewrite Nat.add_0_r in Hex.
  assert (0 <= zsum (snd <$> outs)) as Hn.
  { apply zsum_nonneg, Forall_fmap, Forall_forall. intros o' (k & Hk)%list_elem_of_lookup.
    destruct (Ho (S k) o' Hk) as [_ ?]. cbn. lia. }
  destruct (create_run i o h) as (u1 & ps1 & Hrun & Hwf1 & Hc1 & Ht1); [done|done|done| |done|lia|].
  { apply Hfresh. left. }
  destruct (IH (S i) (moved h (with_utxos (h_state h) u1) (more_created (h_journal h) [nth_id h i]) ps1))
    as (u & ps & Hloop & Hwfu & Hsame & Htot); try done.
  - intros k o' Hk. rewrite Nat.add_succ_comm. apply (Ho (S k) o' Hk).
  - intros id Hid. cbn [h_state moved utxos with_utxos]. rewrite Hc1, lookup_insert_ne.
    + apply Hfresh. by right.
    + by intros <-.
  - lia.
  - cbn [h_state moved utxos with_utxos]. lia.
  - exists u, ps. cbn [h_state moved utxos with_utxos h_journal] in *. split_and!; [|done| |lia].
    + destruct o as [owner amount]. cbn [create_loop fst snd] in *.
      erewrite run_bind_Ok; [|cbn; unfold try_from; rewrite (proj2 (Z.ltb_lt _ _)) by lia; done].
      rewrite <- nat_N_Z, N2Z.id. rewrite (run_bind_Ok _ _ _ _ _ Hrun).
      rewrite nat_N_Z. replace (Z.of_nat i + 1) with (Z.of_nat (S i)) by lia. rewrite Hloop.
      unfold moved, more_created, with_utxos. cbn. by rewrite <- app_assoc.
    + intros id. rewrite not_elem_of_cons. intros [Hne Hni']. rewrite Hsame, Hc1 by done.
      by rewrite lookup_insert_ne.
Qed.
End transfer_runs.

(** What the transfer application needs of an intent: payable, inputs and
    output identifiers distinct, outputs positive and not yet in use. *)
Record transferable `{Sha3} (s : LedgerState) (intent : CoinTransition) (commitment : Hash)
    (block_miner : ProgramId) : Prop := {
  tr_payable : payable s intent;
  tr_inputs : NoDup (ct_inputs intent);
  tr_outputs : Forall (fun o => 0 < co_amount o) (ct_outputs intent);
  tr_fee : 0 <= miner_fee (charges intent);
  tr_count : Z.of_nat (length (ct_outputs intent)) < 2 ^ 32;
  tr_ids : NoDup (created_entries intent commitment block_miner).*1;
  tr_unused : forall id, id ∈ (created_entries intent commitment block_miner).*1 ->
    coins (utxos s) !! id = None;
}.

Section transfer_completes.
Context `{Sha3}.
Context (s : LedgerState) (intent : CoinTransition) (commitment : Hash) (block_miner : ProgramId)
  (chk : Checkpoint).
Context (Hs : coin_state_ok s) (Ht : transferable s intent commitment block_miner)
  (Hchk : forall ps point, chk ps point = Ok tt).

#[local] Notation charge := (input_value s intent - output_value intent).
#[local] Notation fee := (miner_fee (charges intent)).
#[local] Notation host := (coin_host s intent commitment block_miner chk charge).

(** The identifiers of the listed outputs, then the fee's. *)
Lemma split_ids :
  (created_entries intent commitment block_miner).*1
  = (nth_id host <$> seq 0 (length (intent_outputs intent)))
    ++ (if fee =? 0 then [] else [nth_id host (length (intent_outputs intent))]).
Proof using.
  rewrite entries_ids. unfold all_outputs. rewrite length_app, seq_app, fmap_app. f_equal.
  by destruct (fee =? 0).
Qed.

Lemma listed_expected k o :
  intent_outputs intent !! k = Some o ->
  expected_output (outputs host) (miner host) (host_fee host) (N.of_nat (0 + k)) = Some o /\ 0 < o.2.
Proof using Ht.
  intros Hk. cbn [outputs miner host_fee coin_host]. unfold expected_output.
  rewrite Nat2N.id. fold (intent_outputs intent). cbn [Nat.add]. rewrite Hk. split; [done|].
  unfold intent_outputs in Hk. rewrite list_lookup_fmap in Hk. apply fmap_Some in Hk as (x & Hx & ->).
  pose proof (tr_outputs _ _ _ _ Ht) as Hf. by eapply Forall_lookup_1 in Hf.
Qed.

Lemma fee_expected :
  fee <> 0 ->
  expected_output (outputs host) (miner host) (host_fee host)
    (N.of_nat (length (intent_outputs intent))) = Some (Program block_miner, fee).
Proof using.
  intros Hf. cbn [outputs miner host_fee coin_host]. unfold expected_output.
  fold (intent_outputs intent). rewrite Nat2N.id, lookup_ge_None_2 by done.
  rewrite N.eqb_refl. destruct (Z.eqb_spec fee 0); [done|]. done.
Qed.

Lemma listed_total : zsum (snd <$> intent_outputs intent) + fee = output_value intent.
Proof using. unfold intent_outputs. by rewrite <- list_fmap_compose. Qed.

(** Creating the listed outputs and the fee, from any point of this host. *)
Lemma creates_run s1 j1 ps1 :
  utxo_wf (utxos s1) -> coins (utxos s1) ⊆ coins (utxos s) ->
  total_value (utxos s1) + output_value intent < 2 ^ 64 ->
  exists u ids ps u' ids' ps',
    run_program (create_loop 0 (intent_outputs intent)) (moved host s1 j1 ps1)
    = (moved host (with_utxos s1 u) (more_created j1 ids) ps, Ok tt) /\
    run_program (create_fee (length (intent_outputs intent)) block_miner fee)
      (moved host (with_utxos s1 u) (more_created j1 ids) ps)
    = (moved host (with_utxos s1 u') (more_created j1 (ids ++ ids')) ps', Ok tt) /\
    length (ids ++ ids') = (length (ct_outputs intent) + (if Z.eqb fee 0 then 0 else 1))%nat.
Proof using Ht Hchk.
  intros Hwf Hsub Hb. pose proof Ht as [_ _ _ Hfee Hcount Hids Hun]. rewrite split_ids in Hids, Hun.
  apply NoDup_app in Hids as (Hnd & Hdisj & _). pose proof listed_total as Hlt.
  assert (forall id, coins (utxos s) !! id = None -> coins (utxos s1) !! id = None) as Hnone
    by (intros id Hid; by eapply lookup_weaken_None).
  assert (length (intent_outputs intent) = length (ct_outputs intent)) as Hlen
    by apply length_fmap.
  destruct (create_loop_run (intent_outputs intent) 0 (moved host s1 j1 ps1))
    as (u & ps & Hrun & Hwfu & Hsame & Htot); cbn [h_state moved utxos] in *; try done.
  { apply listed_expected. }
  { intros id Hid. apply Hnone, Hun, elem_of_app. by left. }
  { lia. }
  { lia. }
  exists u, (nth_id host <$> seq 0 (length (intent_outputs intent))), ps.
  unfold create_fee. destruct (Z.eqb_spec fee 0) as [Hz|Hz].
  - eexists u, [], ps. rewrite app_nil_r. split_and!; [done|done|].
    rewrite length_fmap, length_seq. lia.
  - destruct (create_run (length (intent_outputs intent)) (Program block_miner, fee)
      (moved host (with_utxos s1 u) (more_created j1
        (nth_id host <$> seq 0 (length (intent_outputs intent)))) ps))
      as (u' & ps' & Hrun' & _); cbn [h_state moved utxos with_utxos fst snd] in *; try done.
    + by apply fee_expected.
    + rewrite Hsame.
      * apply Hnone, Hun, elem_of_app. right. by apply list_elem_of_singleton.
      * intros Hin. apply (Hdisj _ Hin). by apply list_elem_of_singleton.
    + lia.
    + lia.
    + exists u', [nth_id host (length (intent_outputs intent))], ps'. split_and!; [done| |].
      * erewrite run_bind_Ok; [|cbn; unfold try_from; rewrite (proj2 (Z.ltb_lt _ _)) by lia; done].
        rewrite <- nat_N_Z, N2Z.id. rewrite Hrun'.
        unfold more_created, moved, with_utxos. cbn. by rewrite <- app_assoc.
      * rewrite length_app, length_fmap, length_seq. cbn. lia.
Qed.

Lemma listed_sum {E} (overflow : E) :
  output_value intent < 2 ^ 64 ->
  try_fold (sum_fold (fun output => Ok output.2) overflow) (intent_outputs intent) 0
  = Ok (zsum (snd <$> intent_outputs intent)).
Proof using Ht chk.
  intros Hb. pose proof listed_total. pose proof (tr_fee _ _ _ _ Ht). apply sum_fold_Ok.
  - intros b a (k & Hk)%list_elem_of_lookup [= <-]. apply listed_expected in Hk as [_ ?]. lia.
  - done.
  - eexists. split; [by apply ok_amounts|]. lia.
Qed.

Lemma burn_run s1 j1 ps :
  coin_record s1 = coin_record s -> burned j1 = 0 ->
  total_burned (coin_record s) + charge < 2 ^ 64 ->
  exists h, run_program (AskBurn charge (fun r => Done (map_err Host r))) (moved host s1 j1 ps)
            = (h, Ok tt : result (TransferError StateError) unit) /\
    h_journal h = {| consumed_coins := consumed_coins j1; created_coin_ids := created_coin_ids j1;
                     mined := mined j1; burned := charge |}.
Proof using Hs Hchk.
  intros Hc Hj Hb. pose proof Hs as [_ _ Hbn _].
  cbn. unfold host_burn. cbn [expected_burn moved coin_host h_journal h_state].
  rewrite Z.eqb_refl, Hj. cbn [negb orb Zeno.is_zero Z.eqb]. unfold record_protocol_burn, Zeno.checked_add.
  rewrite Hc, Hj, (proj2 (checked_add_Some 64 _ charge _) (conj eq_refl Hb)). cbn [ok_or mbind result_mbind].
  rewrite (proj2 (checked_add_Some 64 0 charge (0 + charge))) by lia. cbn.
  unfold pass. cbn. rewrite Hchk. eexists. split; [done|]. done.
Qed.

Lemma transfer_run :
  exists h, run_program (execute_transfer (ct_inputs intent) (intent_outputs intent)
                           block_miner fee) host = (h, Ok tt) /\
    transition_complete intent charge (h_journal h) = true.
Proof using Hs Ht Hchk.
  pose proof Hs as [Hwf Hm Hb Hsup]. pose proof Ht as [[Hlive Hin Hbal] Hnd _ Hfee _ _ _].
  pose proof listed_total as Hlt. unfold execute_transfer.
  assert (forall id, id ∈ ct_inputs intent ->
    id ∈ allowed_inputs host /\ is_Some (coins (utxos (h_state host)) !! id)) as Hallowed.
  { intros id Hid. split; [by apply elem_of_list_to_set|by apply Hlive]. }
  rewrite (run_bind_Ok _ _ _ _ _ (input_loop_run (ct_inputs intent) 0 host Hwf Hallowed Hin)).
  rewrite Z.add_0_l. fold (live_amount (utxos s)). change (zsum _) with (input_value s intent).
  erewrite run_bind_Ok; [|unfold transfer_lift; cbn [run_program]; rewrite listed_sum by lia; done].
  erewrite run_bind_Ok.
  2:{ cbn. rewrite (proj2 (checked_sub_Some _ (zsum (snd <$> intent_outputs intent))
        (input_value s intent - zsum (snd <$> intent_outputs intent)))) by lia. cbn.
      rewrite (proj2 (checked_sub_Some _ _ charge)) by lia. done. }
  destruct (consume_loop_run (ct_inputs intent) host) as (u & l & ps & Hc & Hlen & Hwfu & Hsub & Htot);
    [done|done|done|done|]. rewrite (run_bind_Ok _ _ _ _ _ Hc).
  cbn [h_state coin_host h_journal] in Htot, Hsub |- *.
  change (zsum _) with (input_value s intent) in Htot. pose proof (utxo_bound _ Hwf).
  destruct (creates_run (with_utxos s u) (more_consumed empty_coin_journal l) ps)
    as (u1 & ids1 & ps1 & u2 & ids2 & ps2 & Hr1 & Hr2 & Hl2); [done|done|cbn; lia|].
  rewrite (run_bind_Ok _ _ _ _ _ Hr1), (run_bind_Ok _ _ _ _ _ Hr2). 
  destruct (burn_run (with_utxos (with_utxos s u) u2)
    (more_created (more_consumed empty_coin_journal l) (ids1 ++ ids2)) ps2)
    as (h & -> & Hj); [done|done| |].
  { assert (0 <= zsum (snd <$> intent_outputs intent)).
    { apply zsum_nonneg, Forall_fmap, Forall_forall. intros o (k & Hk)%list_elem_of_lookup.
      apply listed_expected in Hk as [_ ?]. cbn. lia. }
    pose proof (value_of_nonneg _ (utxo_amounts _ Hwfu)). rewrite <- (utxo_total _ Hwfu) in *. lia. }
  exists h. split; [done|]. rewrite Hj. unfold transition_complete. cbn.
  rewrite Hlen, Hl2, Z.eqb_refl, Nat.eqb_refl. cbn. unfold Zeno.is_zero.
  by rewrite Nat.eqb_refl.
Qed.
End transfer_completes.

(** The transfer application completes every transferable intent: when
    the inputs are live and distinct, the balance suffices, the outputs are
    positive and their identifiers distinct and unused, and no checkpoint
    refuses, the coin transition is accepted. *)
Theorem transfer_completes `{Sha3} s intent commitment block_miner checkpoint :
  coin_state_ok s -> transferable s intent commitment block_miner ->
  (forall ps point, checkpoint ps point = Ok tt) ->
  exists s' j, execute_coin_program intent commitment block_miner checkpoint execute_transfer s
               = (s', Ok j).
Proof.
  intros Hs Ht Hchk. unfold execute_coin_program.
  assert (planned_burn s intent = Ok (input_value s intent - output_value intent)) as ->.
  { destruct Hs, Ht as [Hp _ Ho Hf _ _ _]. apply planned_burn_spec; try done.
    - eapply Forall_impl; [done|]. cbn. lia.
    - destruct Hp as [_ Hi Hb]. unfold output_value in Hb.
      enough (0 <= zsum (co_amount <$> ct_outputs intent)) by lia.
      apply zsum_nonneg, Forall_fmap. eapply Forall_impl; [done|]. cbn. lia. }
  destruct (transfer_run s intent commitment block_miner checkpoint Hs Ht Hchk) as (h & Hrun & Hc).
  cbn [outputs coin_host]. fold (intent_outputs intent). rewrite Hrun, Hc. cbn. eauto.
Qed.

(** ** Witnesses *)

(** A coin of 10; 6 are paid, 1 goes to the miner, 3 are burned. *)
Definition sample_utxos : UtxoSet :=
  {| coins := {[ [1] := {| cu_amount := 10; cu_owner := Program [7] |} ]}; total_value := 10;
     by_owner := index_add (Program [7]) [1] ∅ |}.

Definition sample_state : LedgerState :=
  {| utxos := sample_utxos; coin_record := {| total_mined := 12; total_burned := 2 |};
     l_programs := empty_registry; l_assets := assets_empty |}.

Definition sample_intent : CoinTransition :=
  {| signer := [7]; ct_inputs := [[1]];
     ct_outputs := [{| co_output := Program [8]; co_amount := 6 |}];
     charges := {| miner_fee := 1 |} |}.

Definition all_pass : Checkpoint := fun _ _ => Ok tt.

Lemma sample_utxos_wf : utxo_wf sample_utxos.
Proof.
  apply (insert_coin_wf utxo_empty [1] {| cu_amount := 10; cu_owner := Program [7] |}).
  - apply utxo_empty_wf.
  - done.
  - reflexivity.
Qed.

Lemma sample_state_ok : coin_state_ok sample_state.
Proof. split; [apply sample_utxos_wf|done..]. Qed.

Lemma sample_intent_ok : @intent_ok toy_sha3 sample_intent [4] [5].
Proof.
  split; [by repeat constructor|done|].
  intros [|[|i]] Hi; [intros Hin%list_elem_of_singleton; discriminate..|cbn in Hi; lia].
Qed.

Lemma sample_transferable : @transferable toy_sha3 sample_state sample_intent [4] [5].
Proof.
  split; try done.
  - split; [|done|done]. intros id ->%list_elem_of_singleton. by eexists.
  - apply NoDup_singleton.
  - by repeat constructor.
  - apply NoDup_cons. split; [|apply NoDup_singleton].
    intros Hin%list_elem_of_singleton. discriminate.
  - intros id [->|Hid]%elem_of_cons; [done|]. by apply list_elem_of_singleton in Hid as ->.
Qed.

(** A checkpoint refuses after the outputs are created: nothing has changed. *)
Lemma coin_transition_atomic_witness :
  exists s' e, @execute_coin_program toy_sha3 sample_intent [4] [5]
      (fun _ p => match p with MinerFeeCreated => Err BurnOverflow | _ => Ok tt end)
      execute_transfer sample_state = (s', Err e) /\ s' = sample_state.
Proof.
  destruct (@execute_coin_program toy_sha3 sample_intent [4] [5]
      (fun _ p => match p with MinerFeeCreated => Err BurnOverflow | _ => Ok tt end)
      execute_transfer sample_state) as [s' [j|e]] eqn:He; [vm_compute in He; discriminate|].
  exists s', e. split; [done|].
  exact (@coin_transition_atomic toy_sha3 sample_state sample_intent [4] [5] _ _ s' e
    (coin_state_ok_wf _ sample_state_ok) sample_intent_ok He).
Defined.

Lemma coin_transition_exact_witness :
  exists s' j, @execute_coin_program toy_sha3 sample_intent [4] [5] all_pass
      execute_transfer sample_state = (s', Ok j) /\ NoDup (ct_inputs sample_intent).
Proof.
  destruct (@execute_coin_program toy_sha3 sample_intent [4] [5] all_pass execute_transfer
    sample_state) as [s' [j|e]] eqn:He; [|vm_compute in He; discriminate].
  exists s', j. split; [done|].
  exact (proj2 (proj1 (@coin_transition_exact toy_sha3 sample_state sample_intent [4] [5] _ _ s' j
    sample_state_ok sample_intent_ok He))).
Defined.

Lemma transfer_completes_witness :
  exists s' j, @execute_coin_program toy_sha3 sample_intent [4] [5] all_pass
      execute_transfer sample_state = (s', Ok j).
Proof.
  exact (@transfer_completes toy_sha3 sample_state sample_intent [4] [5] all_pass
    sample_state_ok sample_transferable (fun _ _ => eq_refl)).
Defined.
