(* ===== verification/AssetHost.v ===== *)
(** * Asset programs and the bound asset host

    Models [kernel/src/program/asset_host.rs], the [AssetHost] trait and the
    asset half of [NoApplications] of [program/application.rs], and
    [execute_asset] of [extension/src/monetary/mod.rs].

    As for coins, an application is a tree of requests to its host; here a leaf
    may also be a panic, because the host undoes its work when it is dropped
    and so also while the stack unwinds. *)

From S2P Require Import Prelude Codec Monetary Index Assets AssetFacts AssetProps.
#[local] Open Scope Z_scope.

(** ** Equality of calls *)

#[global] Instance AssetOutput_eq_dec : EqDecision AssetOutput.
Proof. solve_decision. Defined.

#[global] Instance Register_eq_dec : EqDecision Register.
Proof. solve_decision. Defined.

#[global] Instance Mint_eq_dec : EqDecision Mint.
Proof. solve_decision. Defined.

#[global] Instance Transfer_eq_dec : EqDecision Transfer.
Proof. solve_decision. Defined.

#[global] Instance Burn_eq_dec : EqDecision Burn.
Proof. solve_decision. Defined.

#[global] Instance AssetCall_eq_dec : EqDecision AssetCall.
Proof. solve_decision. Defined.

(** ** The host interface *)

Class AssetHost (H : Type) := {
  host_register : Register -> ST H AssetError unit;
  host_mint : Mint -> ST H AssetError unit;
  host_transfer : Transfer -> ST H AssetError unit;
  host_burn_asset : Burn -> ST H AssetError unit;
}.

Inductive AssetProgram : Type :=
| Return (r : result AssetError unit)
| Panic
| AskRegister (call : Register) (k : result AssetError unit -> AssetProgram)
| AskMint (call : Mint) (k : result AssetError unit -> AssetProgram)
| AskTransfer (call : Transfer) (k : result AssetError unit -> AssetProgram)
| AskBurnAsset (call : Burn) (k : result AssetError unit -> AssetProgram).

Fixpoint run_asset_program `{AssetHost H} (p : AssetProgram) (h : H)
    : H * outcome (result AssetError unit) :=
  match p with
  | Return r => (h, Returned r)
  | Panic => (h, Panicked)
  | AskRegister call k => let '(h, r) := host_register call h in run_asset_program (k r) h
  | AskMint call k => let '(h, r) := host_mint call h in run_asset_program (k r) h
  | AskTransfer call k => let '(h, r) := host_transfer call h in run_asset_program (k r) h
  | AskBurnAsset call k => let '(h, r) := host_burn_asset call h in run_asset_program (k r) h
  end.

(** The asset capability a node installs. *)
Definition AssetApplication : Type := AssetCall -> AssetProgram.

(** The extension's dispatch: one request, the call itself. *)
Definition asset_application : AssetApplication := fun call =>
  match call with
  | CallRegister call => AskRegister call Return
  | CallMint call => AskMint call Return
  | CallTransfer call => AskTransfer call Return
  | CallBurn call => AskBurnAsset call Return
  end.

(** A bare kernel refuses. *)
Definition no_asset_application : AssetApplication := fun _ => Return (Err InvalidProgram).

(** ** The bound host *)

Record BoundAssetHost := {
  b_state : AssetState;
  b_expected : AssetCall;
  b_context : ExecutionContext;
  b_journal : option AssetJournal;
}.

Section bound_host.
Context `{Sha3} `{RootTest}.

Definition bound_apply (operation : AssetCall) : ST BoundAssetHost AssetError unit := fun self =>
  if negb (bool_decide (operation = b_expected self)) || bool_decide (is_Some (b_journal self))
  then (self, Err InvalidProgram)
  else
    let '(st, r) := apply operation (b_context self) (b_state self) in
    let with_journal := fun journal =>
      {| b_state := st; b_expected := b_expected self; b_context := b_context self;
         b_journal := journal |} in
    match r with
    | Err e => (with_journal (b_journal self), Err e)
    | Ok journal => (with_journal (Some journal), Ok tt)
    end.

#[global] Instance bound_asset_host : AssetHost BoundAssetHost := {|
  host_register := fun call => bound_apply (CallRegister call);
  host_mint := fun call => bound_apply (CallMint call);
  host_transfer := fun call => bound_apply (CallTransfer call);
  host_burn_asset := fun call => bound_apply (CallBurn call);
|}.

(** [Drop]: a journal not taken is rolled back. *)
Definition drop_host (self : BoundAssetHost) : AssetState :=
  match b_journal self with
  | Some journal => rollback journal (b_state self)
  | None => b_state self
  end.

Definition execute_asset (application : AssetApplication) (call : AssetCall)
    (context : ExecutionContext) (st : AssetState)
    : AssetState * outcome (result AssetError AssetJournal) :=
  let host := {| b_state := st; b_expected := call; b_context := context; b_journal := None |} in
  match run_asset_program (application call) host with
  | (host, Panicked) => (drop_host host, Panicked)
  | (host, Returned (Err e)) => (drop_host host, Returned (Err e))
  | (host, Returned (Ok _)) =>
      match b_journal host with
      | None => (drop_host host, Returned (Err InvalidProgram))
      | Some journal => (b_state host, Returned (Ok journal))
      end
  end.
End bound_host.

(** ** Any application *)

Section any_application.
Context `{Sha3} `{RootTest}.
Context (st : AssetState) (call : AssetCall) (ctx : ExecutionContext).

(** Nothing applied yet, or the expected call applied once to the start. *)
Definition bound_inv (h : BoundAssetHost) : Prop :=
  b_expected h = call /\ b_context h = ctx /\
  match b_journal h with
  | None => b_state h ≡ st
  | Some j => exists st0, st0 ≡ st /\ apply call ctx st0 = (b_state h, Ok j)
  end.

Context (Hok : assets_ok st) (Hhalf : half_range st) (Hwf : call_wf call).

Lemma half_range_equiv st0 : st0 ≡ st -> half_range st0.
Proof using Hhalf. intros [_ Hs _ _ _] a. rewrite Hs. apply Hhalf. Qed.

Lemma bound_apply_inv operation h : bound_inv h -> bound_inv (bound_apply operation h).1.
Proof using Hok Hhalf Hwf.
  intros Hh. unfold bound_apply. case_bool_decide as Hop; [|done].
  destruct (b_journal h) as [j|] eqn:Hj; [done|]. cbn [negb orb].
  rewrite bool_decide_eq_false_2 by (intros [? [=]]).
  destruct Hh as (He & Hc & Hs). rewrite Hj in Hs. subst operation. rewrite He, Hc.
  destruct (apply call ctx (b_state h)) as [st' [j|e]] eqn:Hap; cbn; split; try done; split; try done.
  - exists (b_state h). split; [done|exact Hap].
  - change (st' ≡ st). rewrite <- Hs. eapply apply_Err_equiv; [..|done|exact Hap].
    + by eapply assets_ok_equiv.
    + by apply half_range_equiv.
Qed.

Lemma run_bound_inv p h : bound_inv h -> bound_inv (run_asset_program p h).1.
Proof using Hok Hhalf Hwf.
  revert h. induction p as [r| |c k IH|c k IH|c k IH|c k IH]; intros h Hh; [done|done|..];
    cbn [run_asset_program host_register host_mint host_transfer host_burn_asset bound_asset_host];
    match goal with |- context [bound_apply ?op h] => pose proof (bound_apply_inv op h Hh) as Hh';
      destruct (bound_apply op h) end; by apply IH.
Qed.
End any_application.

(** Whatever the asset application does, even when it panics: unless it
    returns success after exactly one application of the authenticated call,
    the asset state is as before; otherwise the state is the one that call
    produces, and its journal undoes it. *)
Theorem asset_host_atomic `{Sha3} `{RootTest} st call ctx application st' r :
  reachable st -> moderate_records st -> call_wf call -> moderate call ->
  execute_asset application call ctx st = (st', r) ->
  match r with
  | Returned (Ok j) =>
      (exists st0, st0 ≡ st /\ apply call ctx st0 = (st', Ok j)) /\ rollback j st' ≡ st
  | _ => st' ≡ st
  end.
Proof.
  intros Hst Hm Hwf Hmod. pose proof (reachable_ok st Hst Hm) as Hok.
  pose proof (moderate_half_range _ Hok Hm) as Hhalf.
  pose proof (run_bound_inv st call ctx Hok Hhalf Hwf (application call)
    {| b_state := st; b_expected := call; b_context := ctx; b_journal := None |}) as Hinv.
  unfold execute_asset. destruct (run_asset_program _ _) as [h out]. cbn [fst] in Hinv.
  destruct Hinv as (_ & _ & Hj); [done|]. unfold drop_host.
  assert (forall j, b_journal h = Some j ->
    (exists st0, st0 ≡ st /\ apply call ctx st0 = (b_state h, Ok j)) /\ rollback j (b_state h) ≡ st) as Hundo.
  { intros j Hsome. rewrite Hsome in Hj. split; [done|]. destruct Hj as (st0 & Heq & Hap).
    rewrite <- Heq. eapply apply_rollback_equiv; [..|done|exact Hap].
    - by eapply assets_ok_equiv.
    - by eapply half_range_equiv.
    - apply moderate_half_range; [eapply apply_Ok_ok; [|done|exact Hap]; by eapply assets_ok_equiv|].
      pose proof (apply_moderate call ctx st0) as Hm'. rewrite Hap in Hm'. apply Hm'; [|..|done|done].
      + by eapply assets_ok_equiv.
      + unfold moderate_records. by rewrite (eq_records _ _ Heq). }
  destruct (b_journal h) as [j|] eqn:Hjo.
  - specialize (Hundo j eq_refl). destruct out as [[]|]; intros [= <- <-]; [done|apply Hundo..].
  - destruct out as [[]|]; intros [= <- <-]; done.
Qed.

Lemma bound_apply_start `{Sha3} `{RootTest} st call ctx :
  bound_apply call {| b_state := st; b_expected := call; b_context := ctx; b_journal := None |}
  = ({| b_state := (apply call ctx st).1; b_expected := call; b_context := ctx;
        b_journal := match (apply call ctx st).2 with Ok j => Some j | Err _ => None end |},
     match (apply call ctx st).2 with Ok _ => Ok tt | Err e => Err e end).
Proof.
  unfold bound_apply. cbn [b_state b_expected b_context b_journal].
  rewrite bool_decide_eq_true_2 by done. rewrite bool_decide_eq_false_2 by (by intros [? [=]]).
  by destruct (apply call ctx st) as [st' []].
Qed.

(** The extension's asset application is the asset state machine: running
    it through the bound host is the kernel's [apply]. *)
Theorem asset_application_exact `{Sha3} `{RootTest} st call ctx :
  execute_asset asset_application call ctx st
  = ((apply call ctx st).1, Returned (apply call ctx st).2).
Proof.
  unfold execute_asset.
  destruct call as [c|c|c|c]; cbn [asset_application run_asset_program host_register host_mint
    host_transfer host_burn_asset bound_asset_host];
    rewrite bound_apply_start; destruct (apply _ _ _) as [st' []]; reflexivity.
Qed.

(** ** Witnesses *)

Definition sample_owner : Owner := Program (replicate HASH_SIZE 1).

Definition sample_register : Register :=
  {| rg_name := [71; 79; 76; 68]; rg_max_supply := 100; rg_initial_mint := 10;
     rg_mint_authority := sample_owner; rg_nonce := 1 |}.

(** Registers the asset, then panics. *)
Definition panicking : AssetApplication :=
  fun call => match call with
              | CallRegister c => AskRegister c (fun _ => Panic)
              | _ => Panic
              end.

Lemma asset_host_atomic_witness :
  let ctx := {| actor := sample_owner; commitment := replicate HASH_SIZE 5 |} in
  let run := @execute_asset toy_sha3 (fun _ _ _ => false) panicking (CallRegister sample_register)
               ctx assets_empty in
  snd run = Panicked /\ fst run ≡ assets_empty.
Proof.
  intros ctx run. assert (run.2 = Panicked) as Hp by (vm_compute; reflexivity). split; [exact Hp|].
  pose proof (@asset_host_atomic toy_sha3 (fun _ _ _ => false) assets_empty
    (CallRegister sample_register) ctx panicking run.1 run.2) as Ht.
  rewrite Hp in Ht. apply Ht; [apply reachable_empty|apply map_Forall_empty| |done|rewrite <- Hp; apply surjective_pairing].
  split_and!; try done; try (by apply digits_compute); split; try done; by apply digits_compute.
Defined.
