(* ===== verification/AssetView.v ===== *)
(** * Asset calls on a view

    A quote runs an asset call on [operation_view]
    ([ledger/utxo/asset/journal.rs]): a state holding only the record and the
    shares of the call's footprint.  Two states that agree on the footprint
    answer the call alike, whatever application runs it, and agree on it
    afterwards: a relational argument over the state-and-error monad. *)

From S2P Require Import Prelude Codec Monetary Index Assets AssetFacts AssetProps AssetHost.
#[local] Open Scope Z_scope.

(** ** Computations that cannot tell two states apart *)

Section same.
Context (a : list Z) (keys : gset (list Z)).

Record agree (v s : AssetState) : Prop := {
  ag_record : records v !! a = records s !! a;
  ag_shares id : id ∈ keys -> shares v !! id = shares s !! id;
}.

(** ** Primitive updates *)

Lemma remove_share_agree id v s : agree v s -> id ∈ keys -> agree (remove_share id v) (remove_share id s).
Proof.
  intros [Hr Hs] Hid. split; autorewrite with xparq; [done|]. intros k Hk.
  destruct (decide (k = id)) as [->|]; [by rewrite !lookup_delete_eq|].
  rewrite !lookup_delete_ne by done. by apply Hs.
Qed.

Lemma put_share_agree id x v s : agree v s -> agree (put_share id x v) (put_share id x s).
Proof.
  intros [Hr Hs]. split; autorewrite with xparq; [done|]. intros k Hk.
  destruct (decide (k = id)) as [->|]; [by rewrite !lookup_insert_eq|].
  rewrite !lookup_insert_ne by done. by apply Hs.
Qed.

Lemma insert_share_agree `{Sha3} c i amt o v s :
  agree v s -> share_derive a c i ∈ keys ->
  match insert_share a c i amt o v, insert_share a c i amt o s with
  | Ok v', Ok s' => agree v' s' | Err e, Err e' => e = e' | _, _ => False end.
Proof.
  intros Hvs Hk. unfold insert_share, try_from. destruct (i <? 2 ^ 32); cbn; [|done].
  rewrite (ag_shares _ _ Hvs) by done.
  destruct (bool_decide _); cbn; [done|]. by apply put_share_agree.
Qed.

Lemma update_record_agree f v s :
  agree v s ->
  match update_record a f v, update_record a f s with
  | Ok v', Ok s' => agree v' s' | Err e, Err e' => e = e' | _, _ => False end.
Proof.
  intros Hvs. unfold update_record. rewrite (ag_record _ _ Hvs).
  destruct (records s !! a); cbn; [|done]. destruct Hvs. split; cbn; [|done].
  by rewrite !lookup_insert_eq.
Qed.

Lemma input_total_agree actor ins t v s :
  agree v s -> (forall id, id ∈ ins -> id ∈ keys) ->
  input_total_loop v a actor ins t = input_total_loop s a actor ins t.
Proof.
  intros Hvs. revert t. induction ins as [|id ins IH]; intros t Hk; [done|]. cbn [input_total_loop].
  rewrite (ag_shares _ _ Hvs) by (apply Hk; by left). destruct (shares s !! id); [|done]. cbn.
  unfold guard_err. repeat (case_match; [done|]). destruct (Unit.checked_add _ _); [|done]. cbn.
  apply IH. intros x Hx. apply Hk. by right.
Qed.

Lemma restore_agree {V} (m1 m2 : gmap (list Z) V) l k :
  m1 !! k = m2 !! k -> restore m1 l !! k = restore m2 l !! k.
Proof.
  revert m1 m2. induction l as [|[k' p] l IH]; intros m1 m2 Hm; [done|]. apply (IH (partial_alter _ _ _) (partial_alter _ _ _)).
  destruct (decide (k = k')) as [->|]; [by rewrite !lookup_partial_alter_eq|].
  by rewrite !lookup_partial_alter_ne.
Qed.

Lemma rollback_agree `{RootTest} j v s : agree v s -> agree (rollback j v) (rollback j s).
Proof.
  intros [Hr Hs]. split; [rewrite !records_rollback|intros id Hid; rewrite !shares_rollback];
    apply restore_agree; [done|by apply Hs].
Qed.
End same.

(** ** Operations *)

(** Same result, and states that agree again. *)
#[local] Notation same a keys := (related (E := AssetError) (agree a keys)).

Section operations.
Context `{Sha3} `{RootTest}.

Lemma same_insert a c ins outs i amt o :
  (i < outs)%nat ->
  same a (footprint_keys a c ins outs) (st_update (insert_share a (commitment c) (Z.of_nat i) amt o)).
Proof.
  intros Hi. apply related_update. intros v s Hvs. apply insert_share_agree; [done|].
  by apply (elem_of_footprint_output a c ins outs i).
Qed.

Lemma same_remove a keys ins :
  (forall id, id ∈ ins -> id ∈ keys) ->
  same a keys (st_iter (fun input => st_modify (remove_share input)) ins).
Proof.
  intros Hk. apply related_iter. intros id Hid. apply related_modify. intros v s Hvs.
  apply remove_share_agree; auto.
Qed.

(** Peel the steps that read nothing but the footprint. *)
Ltac same_step :=
  match goal with
  | |- same _ _ (mret _) => apply related_ret
  | |- same _ _ (mret _ ≫= _) => apply related_bind; [apply related_ret|intros ?]
  | |- same _ _ (st_lift _ ≫= _) => apply related_bind; [apply related_lift|intros ?]
  | |- same _ _ (st_require _ _ ≫= _) => apply related_bind; [apply related_lift|intros ?]
  | |- same _ _ (st_check _ ≫= _) =>
      apply related_check_bind; [let Hvs := fresh in intros ? ? Hvs;
        first [by rewrite (ag_record _ _ _ _ Hvs)
              |apply (input_total_agree _ _ _ _ _ _ _ Hvs); intros; by apply elem_of_footprint_input]
        |intros ?]
  | |- same _ _ (st_iter (fun input => st_modify (remove_share input)) _ ≫= _) =>
      apply related_bind; [apply same_remove; intros; by apply elem_of_footprint_input|intros ?]
  | |- same _ _ (st_update (insert_share _ _ 0 _ _) ≫= _) =>
      apply related_bind; [apply (same_insert _ _ _ _ 0); lia|intros ?]
  | |- same _ _ (st_update (update_record _ _)) =>
      apply related_update; intros; by apply update_record_agree
  end.

Lemma same_operation call context a ins outs :
  operation_footprint call context = Ok (a, ins, outs) ->
  same a (footprint_keys a context ins outs) (apply_monetary_operation call context).
Proof.
  destruct call as [call|call|call|call]; cbn [operation_footprint apply_monetary_operation];
    intros Hfp.
  - apply bind_Ok in Hfp as (md & Hmd & [= <- <- <-]). unfold register_asset. rewrite Hmd.
    apply related_lift_Ok. repeat same_step.
    apply related_bind; [apply related_modify|intros _; apply related_bind; [|intros _]; apply related_modify];
      intros v s []; split; cbn; try done. by rewrite !lookup_insert_eq.
  - injection Hfp as <- <- <-. unfold mint_asset. repeat same_step.
  - injection Hfp as <- <- <-. unfold transfer_asset. repeat same_step.
    apply related_iter. intros [i o] Hio.
    apply elem_of_zip_l, list_elem_of_fmap in Hio as (n & -> & Hn%elem_of_seq). apply same_insert. lia.
  - injection Hfp as <- <- <-. unfold burn_asset. repeat same_step.
    destruct (Unit.is_zero (bn_output call)); repeat same_step.
Qed.

(** ** The whole call *)

Lemma snapshot_agree call context a ins outs v s :
  operation_footprint call context = Ok (a, ins, outs) ->
  agree a (footprint_keys a context ins outs) v s ->
  snapshot_operation v call context = snapshot_operation s call context.
Proof.
  intros Hfp Hvs. unfold snapshot_operation. rewrite Hfp. cbn [mbind result_mbind].
  destruct (collect (output_id a context) (seq 0 outs)) as [ids|] eqn:Hids; [|done].
  cbn [mbind result_mbind]. apply collect_output_ids in Hids as ->. rewrite (ag_record _ _ _ _ Hvs). do 2 f_equal.
  apply list_fmap_ext. intros i k Hk. f_equal. apply (ag_shares _ _ _ _ Hvs).
  apply elem_of_sorted_ids. by eapply list_elem_of_lookup_2.
Qed.

Lemma retain_agree {V} `{EqDecision V} (m1 m2 : gmap (list Z) V) l :
  (forall k, k ∈ l.*1 -> m1 !! k = m2 !! k) -> retain_changed m1 l = retain_changed m2 l.
Proof.
  intros Hl. unfold retain_changed. apply filter_ext_in. intros [k p] Hin%list_elem_of_In.
  rewrite (Hl k); [done|]. apply list_elem_of_fmap. by exists (k, p).
Qed.

Lemma same_apply call context a ins outs :
  operation_footprint call context = Ok (a, ins, outs) ->
  same a (footprint_keys a context ins outs) (apply call context).
Proof.
  intros Hfp v s Hvs. unfold apply. destruct (decode _ _); [|done].
  rewrite (snapshot_agree _ _ _ _ _ _ _ Hfp Hvs).
  destruct (snapshot_operation s call context) as [j|] eqn:Hsnap; [|done].
  apply snapshot_spec in Hsnap as (a' & ins' & outs' & Hfp' & Hj). rewrite Hfp in Hfp'.
  injection Hfp' as <- <- <-. destruct (same_operation _ _ _ _ _ Hfp v s Hvs) as [Hr Hag].
  destruct (apply_monetary_operation call context v) as [v1 r1],
    (apply_monetary_operation call context s) as [s1 r2]. cbn in Hr, Hag. subst r1.
  destruct r2 as [[]|e]; cbn [fst snd].
  - destruct Hag as [Hrec Hsh]. subst j. cbn [old_values j_records j_shares].
    rewrite (retain_agree (records v1) (records s1)), (retain_agree (shares v1) (shares s1)).
    + split; [done|]. split; cbn; [done|]. done.
    + intros k. rewrite <- list_fmap_compose. intros (k' & -> & Hk)%list_elem_of_fmap.
      apply Hsh. by apply elem_of_sorted_ids in Hk.
    + intros k Hk. cbn in Hk. apply list_elem_of_singleton in Hk as ->. done.
  - split; [done|]. apply (rollback_agree _ _ j) in Hag as [Hrec Hsh]. split; cbn; [done|]. done.
Qed.
End operations.

(** ** Any application *)

Section applications.
Context `{Sha3} `{RootTest}.
Context (call : AssetCall) (context : ExecutionContext) (a : list Z) (ins : list (list Z)) (outs : nat)
  (Hfp : operation_footprint call context = Ok (a, ins, outs)).

#[local] Notation keys := (footprint_keys a context ins outs).

(** Hosts bound to the call that have answered alike so far. *)
Record hosts_agree (v s : BoundAssetHost) : Prop := {
  ha_expected : b_expected v = call /\ b_expected s = call;
  ha_context : b_context v = context /\ b_context s = context;
  ha_journal : b_journal v = b_journal s;
  ha_state : agree a keys (b_state v) (b_state s);
}.

Lemma bound_apply_agree operation v s :
  hosts_agree v s ->
  (bound_apply operation v).2 = (bound_apply operation s).2 /\
  hosts_agree (bound_apply operation v).1 (bound_apply operation s).1.
Proof using Hfp.
  intros Hvs. pose proof Hvs as [[Hev Hes] [Hcv Hcs] Hj Hag]. unfold bound_apply.
  rewrite Hev, Hes, Hcv, Hcs, Hj. case_bool_decide as Hop; cbn [negb orb]; [subst operation|done].
  destruct (bool_decide (is_Some (b_journal s))); [done|].
  destruct (same_apply _ _ _ _ _ Hfp _ _ Hag) as [Hr Hst].
  destruct (apply call context (b_state v)) as [v1 r1], (apply call context (b_state s)) as [s1 r2].
  cbn in Hr, Hst. subst r1. destruct r2; cbn; (split; [done|]); by split.
Qed.

Lemma run_agree p v s :
  hosts_agree v s ->
  (run_asset_program p v).2 = (run_asset_program p s).2 /\
  hosts_agree (run_asset_program p v).1 (run_asset_program p s).1.
Proof using Hfp.
  revert v s. induction p as [r| |c k IH|c k IH|c k IH|c k IH]; intros v s Hvs; [done|done|..];
    cbn [run_asset_program host_register host_mint host_transfer host_burn_asset bound_asset_host];
    match goal with |- context [bound_apply ?op v] =>
      destruct (bound_apply_agree op v s Hvs) as [Hr Hag];
      destruct (bound_apply op v), (bound_apply op s) end;
    cbn in Hr, Hag; subst; by apply IH.
Qed.

Lemma execute_agree application v s :
  agree a keys v s ->
  (execute_asset application call context v).2 = (execute_asset application call context s).2 /\
  agree a keys (execute_asset application call context v).1 (execute_asset application call context s).1.
Proof using Hfp.
  intros Hvs. unfold execute_asset.
  destruct (run_agree (application call)
    {| b_state := v; b_expected := call; b_context := context; b_journal := None |}
    {| b_state := s; b_expected := call; b_context := context; b_journal := None |}) as [Hr Hag];
    [by split|].
  destruct (run_asset_program _ _) as [hv rv], (run_asset_program _ _) as [hs rs]. cbn in Hr, Hag. subst rv.
  destruct Hag as [_ _ Hj Hst].
  assert (agree a keys (drop_host hv) (drop_host hs)) as Hdrop.
  { unfold drop_host. rewrite Hj. destruct (b_journal hs); [by apply rollback_agree|done]. }
  destruct rs as [[u|e]|]; cbn; [|done..]. rewrite Hj. by destruct (b_journal hs).
Qed.
(** The journal of the call names entries of its footprint only. *)
Definition within (j : AssetJournal) : Prop :=
  (forall k, k ∈ (j_records j).*1 -> k = a) /\ (forall k, k ∈ (j_shares j).*1 -> k ∈ keys).

Lemma retain_keys {V} `{EqDecision V} (m : gmap (list Z) V) l k :
  k ∈ (retain_changed m l).*1 -> k ∈ l.*1.
Proof using.
  intros ([k' p] & -> & Hp)%list_elem_of_fmap. unfold retain_changed in Hp.
  rewrite list_elem_of_In, filter_In, <- list_elem_of_In in Hp. destruct Hp as [Hp _].
  apply list_elem_of_fmap. by exists (k', p).
Qed.

Lemma apply_within st st' j : apply call context st = (st', Ok j) -> within j.
Proof using Hfp.
  unfold apply. destruct (decode _ _); [|done].
  destruct (snapshot_operation st call context) as [j0|] eqn:Hsnap; [|done].
  apply snapshot_spec in Hsnap as (a' & ins' & outs' & Hfp' & ->). rewrite Hfp in Hfp'.
  injection Hfp' as <- <- <-. destruct (apply_monetary_operation _ _ _) as [st1 [[]|]]; [|done].
  intros [= _ <-]. split; intros k Hk; [change (k ∈ (retain_changed (records st1)
    (j_records (old_values st a keys))).*1) in Hk|]; apply retain_keys in Hk.
  - by apply list_elem_of_singleton in Hk.
  - cbn [old_values j_shares] in Hk. rewrite <- list_fmap_compose in Hk. apply list_elem_of_fmap in Hk as (k' & -> & Hk).
    by apply elem_of_sorted_ids in Hk.
Qed.

Definition host_within (h : BoundAssetHost) : Prop :=
  b_expected h = call /\ b_context h = context /\ forall j, b_journal h = Some j -> within j.

Lemma bound_apply_within operation h : host_within h -> host_within (bound_apply operation h).1.
Proof using Hfp.
  intros (He & Hc & Hj). unfold bound_apply. rewrite He, Hc.
  case_bool_decide as Hop; cbn [negb orb]; [subst operation|done].
  destruct (bool_decide (is_Some (b_journal h))); [done|].
  destruct (apply call context (b_state h)) as [st [j|]] eqn:Ha; cbn; [|done].
  split_and!; [done..|]. intros j' [= <-]. by eapply apply_within.
Qed.

Lemma run_within p h : host_within h -> host_within (run_asset_program p h).1.
Proof using Hfp.
  revert h. induction p as [r| |c k IH|c k IH|c k IH|c k IH]; intros h Hh; [done|done|..];
    cbn [run_asset_program host_register host_mint host_transfer host_burn_asset bound_asset_host];
    match goal with |- context [bound_apply ?op h] =>
      pose proof (bound_apply_within op h Hh); destruct (bound_apply op h) end; by apply IH.
Qed.

Lemma execute_within application st st' j :
  execute_asset application call context st = (st', Returned (Ok j)) -> within j.
Proof using Hfp.
  unfold execute_asset.
  pose proof (run_within (application call)
    {| b_state := st; b_expected := call; b_context := context; b_journal := None |}) as Hw.
  destruct (run_asset_program _ _) as [h [[u|]|]]; cbn in *; [|done..].
  destruct Hw as (_ & _ & Hj); [by split_and!|].
  destruct (b_journal h) as [j'|]; [|done]. intros [= _ <-]. by apply Hj.
Qed.
End applications.

Lemma present_lookup {V} (l : list (list Z * option V)) k p :
  NoDup l.*1 -> (k, p) ∈ l -> present l !! k = p.
Proof.
  intros Hnd Hin. unfold present. set (f := fun '(key, value) => v ← value; Some (key, v)).
  assert (forall i x, (i, x) ∈ omap f l <-> (i, Some x) ∈ l) as Hom.
  { intros i x. rewrite list_elem_of_omap. split.
    - intros ([i' [y|]] & Hi & Hf); [|done]. by injection Hf as -> ->.
    - intros Hi. by exists (i, Some x). }
  assert (NoDup (omap f l).*1) as Hnd'.
  { clear -Hnd. induction l as [|[i [y|]] l IH]; [constructor|..];
      rewrite fmap_cons in Hnd; apply NoDup_cons in Hnd as [Hi Hnd]; cbn; [|by apply IH].
    apply NoDup_cons. split; [|by apply IH]. intros ([i' x] & -> & Hx)%list_elem_of_fmap.
    apply Hi. apply list_elem_of_fmap. apply list_elem_of_omap in Hx as ([i2 [z|]] & Hz & Hf); [|done].
    injection Hf as -> ->. by exists (i', Some x). }
  rewrite (list_to_map_proper _ (omap f l)); [| |by rewrite <- Permutation_rev].
  - destruct p as [v|]; [by apply elem_of_list_to_map, Hom|].
    apply not_elem_of_list_to_map. intros ([i x] & -> & Hx%Hom)%list_elem_of_fmap.
    cbn in Hin. apply (elem_of_list_to_map (M := gmap (list Z))) in Hin, Hx; [|done..]. congruence.
  - by rewrite <- Permutation_rev.
Qed.

(** A quote's view agrees with the state it was taken from. *)
Lemma operation_view_agrees `{Sha3} st call context view :
  operation_view st call context = Ok view ->
  exists a ins outs, operation_footprint call context = Ok (a, ins, outs) /\
    agree a (footprint_keys a context ins outs) view st.
Proof.
  unfold operation_view. intros (j & Hj & [= <-])%bind_Ok.
  apply snapshot_spec in Hj as (a & ins & outs & Hfp & ->). exists a, ins, outs. split; [done|].
  split; cbn [rebuild_owner_index records shares old_values j_records j_shares].
  - apply present_lookup; [by apply NoDup_singleton|by left].
  - intros id Hid. apply present_lookup; [apply (old_values_NoDup st a)|].
    apply list_elem_of_fmap. exists id. split; [done|]. by apply elem_of_sorted_ids.
Qed.

(** (C24) Quoting an asset call on its view is exact: whatever application runs it,
    the call on the view ends as it does on the state, with the same journal,
    error or panic, and leaves the same values under every key it may touch.
    When there is no view to take, the call itself is refused. *)
Theorem asset_view_exact `{Sha3} `{RootTest} application call context st :
  match operation_view st call context with
  | Ok view => exists a ins outs, operation_footprint call context = Ok (a, ins, outs) /\
      (execute_asset application call context view).2 = (execute_asset application call context st).2 /\
      agree a (footprint_keys a context ins outs)
        (execute_asset application call context view).1 (execute_asset application call context st).1
  | Err _ => (apply call context st).1 = st /\ exists e, (apply call context st).2 = Err e
  end.
Proof.
  destruct (operation_view st call context) as [view|e] eqn:Hv.
  - apply operation_view_agrees in Hv as (a & ins & outs & Hfp & Hag). exists a, ins, outs.
    split; [done|]. by apply execute_agree.
  - unfold operation_view in Hv. unfold apply. destruct (decode _ _); [|by eauto].
    destruct (snapshot_operation st call context); [done|]. by eauto.
Qed.
