(* ===== verification/Settlement.v ===== *)
(** * Settlement of monetary proposals from deployed code

    Models [kernel/src/program/vm_transfer.rs] and [vm_transfer/{coin,asset,
    quote}.rs], and [AssetJournal::canonical_delta] of
    [ledger/utxo/asset/journal.rs].

    These routines change a staging state that their caller discards on any
    error.  A computation of [Staged] therefore ends in one of three ways: it
    returns a value with the changed state, it fails with an error and no
    state, or the stack unwinds. *)

From stdpp Require Import strings.
From S2P Require Import Prelude Codec Monetary Index Coin Vm Registry Assets State AssetHost.
#[local] Open Scope Z_scope.

(** ** Staged computations *)

Definition Staged (S E A : Type) : Type := S -> outcome (result E (A * S)).

#[global] Instance staged_mret S E : MRet (Staged S E) := fun A a s => Returned (Ok (a, s)).
#[global] Instance staged_mbind S E : MBind (Staged S E) := fun A B f m s =>
  match m s with
  | Returned (Ok (a, s)) => f a s
  | Returned (Err e) => Returned (Err e)
  | Panicked => Panicked
  end.

Definition stage_check {S E A} (f : S -> result E A) : Staged S E A := fun s =>
  Returned (a ← f s; Ok (a, s)).
Definition stage_lift {S E A} (r : result E A) : Staged S E A := stage_check (fun _ => r).
Definition stage_fail {S E A} (e : E) : Staged S E A := stage_lift (Err e).
Definition stage_require {S E} (c : bool) (e : E) : Staged S E unit :=
  stage_lift (if c then Ok tt else Err e).
Definition stage_update {S E} (f : S -> result E S) : Staged S E unit := fun s =>
  Returned (s' ← f s; Ok (tt, s')).
Definition stage_modify {S E} (f : S -> S) : Staged S E unit := stage_update (fun s => Ok (f s)).

(** [unwrap]. *)
Definition stage_unwrap {S E A} (f : S -> option A) : Staged S E A := fun s =>
  match f s with Some a => Returned (Ok (a, s)) | None => Panicked end.

(** A fallible method whose state is discarded when it fails. *)
Definition stage_st {S E A} (m : ST S E A) : Staged S E A := fun s =>
  match m s with (s', Ok a) => Returned (Ok (a, s')) | (_, Err e) => Returned (Err e) end.

(** [map_err]. *)
Definition stage_map_err {S E E' A} (f : E -> E') (m : Staged S E A) : Staged S E' A := fun s =>
  match m s with
  | Returned r => Returned (map_err f r)
  | Panicked => Panicked
  end.

(** ** Selecting inputs *)

(** The loop every selection runs: push, add up, stop when the amount is
    reached. *)
Fixpoint select_inputs {K E} (bits : Z) (amount_of : K -> result E Z) (overflow : E) (amount : Z)
    (candidates : list K) (total : Z) : result E (list K * Z) :=
  match candidates with
  | [] => Ok ([], total)
  | k :: candidates =>
      value ← amount_of k;
      total ← ok_or (checked_add bits total value) overflow;
      if amount <=? total then Ok ([k], total)
      else
        '(inputs, total) ← select_inputs bits amount_of overflow amount candidates total;
        Ok (k :: inputs, total)
  end.

Definition MAX_TRANSFER_INPUTS : nat := 256.

Record TransferQuote := {
  created_coin_utxos : Z;
  consumed_coin_utxos : Z;
  created_state_weight : Z;
}.

Definition empty_quote : TransferQuote :=
  {| created_coin_utxos := 0; consumed_coin_utxos := 0; created_state_weight := 0 |}.

(** ** Canonical growth of the asset tables *)

Definition i128_checked_add (a b : Z) : option Z :=
  if (- 2 ^ 127 <=? a + b) && (a + b <? 2 ^ 127) then Some (a + b) else None.

(** The encoded size of a map entry, nothing when it is absent. *)
Definition entry_size {V} (enc : V -> list Z) (key : list Z) (value : option V) : Z :=
  match value with Some v => Z.of_nat (length (key ++ enc v)) | None => 0 end.

Definition delta_step {V} (enc : V -> list Z) (live : gmap (list Z) V) (delta : Z)
    (entry : list Z * option V) : result AssetError Z :=
  let '(key, previous) := entry in
  ok_or (i128_checked_add delta (entry_size enc key (live !! key) - entry_size enc key previous))
    BalanceOverflow.

Definition canonical_delta (self : AssetJournal) (state : AssetState) : result AssetError Z :=
  delta ← try_fold (delta_step enc_record (records state)) (j_records self) 0;
  try_fold (delta_step enc_share (shares state)) (j_shares self) delta.

(** ** Coin settlement *)

(** The coins named by the caller, which must be live and the actor's. *)
Definition named_coin (s : LedgerState) (actor : Owner) (share : CoinShare)
    : result StateError (CoinShare * CoinUtxo) :=
  c ← ok_or (coin (utxos s) share) InvalidTransition;
  fail_if negb (bool_decide (cu_owner c = actor)) with InvalidTransition;
  Ok (share, c).

Definition coin_candidates (s : LedgerState) (actor : Owner) (selected : option (list CoinShare))
    : result StateError (list (CoinShare * CoinUtxo)) :=
  match selected with
  | Some ids =>
      fail_if (MAX_TRANSFER_INPUTS <? length ids)%nat with InvalidTransition;
      collect (named_coin s actor) ids
  | None => Ok (take MAX_TRANSFER_INPUTS (coins_by_owner (utxos s) actor))
  end.

(** [for (index, (owner, amount)) in outputs.enumerate()]. *)
Definition settlement_outputs (actor : Owner) (request : TransferRequest) (change : Z)
    : list (N * (Owner * Z)) :=
  (0%N, (tq_recipient request, tq_amount request))
  :: (if Zeno.is_zero change then [] else [(1%N, (actor, change))]).

Section settlement.
Context `{Sha3} `{RootTest}.
Context (application : AssetApplication).

Definition settle_coin (actor : Owner) (request : option TransferRequest) (origin : Hash)
    (selected : option (list CoinShare)) : ST LedgerState StateError CoinRollbackJournal :=
  match request with
  | None => mret empty_coin_journal
  | Some request =>
      candidates ← st_check (fun s => coin_candidates s actor selected);
      '(inputs, total) ← st_lift (select_inputs 64 (fun e => Ok (cu_amount e.2)) AmountOverflow
                                    (tq_amount request) candidates 0);
      change ← st_lift (ok_or (Zeno.checked_sub total (tq_amount request)) InvalidTransition);
      _ ← st_iter (fun '(share, _) => _ ← state_consume share; mret tt) inputs;
      let outputs := settlement_outputs actor request change in
      _ ← st_iter (fun '(index, (owner, amount)) =>
             state_insert (from_output origin (Z.of_N index))
               {| cu_amount := amount; cu_owner := owner |}) outputs;
      mret {| consumed_coins := inputs;
              created_coin_ids := (fun o => from_output origin (Z.of_N o.1)) <$> outputs;
              mined := 0; burned := 0 |}
  end.

(** ** Asset settlement *)

(** Running an asset call through the bound host; any error is the same. *)
Definition stage_asset {E} (error : E) (call : AssetCall) (context : ExecutionContext)
    : Staged LedgerState E AssetJournal := fun s =>
  match execute_asset application call context (l_assets s) with
  | (assets, Returned (Ok journal)) =>
      Returned (Ok (journal, {| utxos := utxos s; coin_record := coin_record s;
                                l_programs := l_programs s; l_assets := assets |}))
  | (_, Returned (Err _)) => Returned (Err error)
  | (_, Panicked) => Panicked
  end.

Definition issuance_origin (id : ProgramId) (commitment : Hash) (opcode : Z) : Hash :=
  domain AssetIntent (ascii_bytes "xparq:vm-asset:v3"%string ++ id ++ commitment ++ [opcode]).

(** The journal so far, extended by the next one. *)
Definition merge_journal (previous : option AssetJournal) (next : AssetJournal)
    : option AssetJournal :=
  Some (match previous with Some previous => merge previous next | None => next end).

(** The registered asset, and the journal unless the asset was there already. *)
Definition settle_register (id : ProgramId) (request : RegisterAssetRequest) (commitment : Hash)
    : Staged LedgerState StateError (AssetContract * option AssetJournal) :=
  let actor := Program id in
  metadata ← stage_lift (map_err (fun _ => InvalidTransition)
    (metadata_new (rq_name request) (rq_max_supply request) actor actor));
  let asset := asset_derive metadata (rq_nonce request) in
  existing ← stage_check (fun s => Ok (records (l_assets s) !! asset));
  match existing with
  | Some record =>
      if rq_skip_if_exists request && bool_decide (Monetary.metadata record = metadata)
      then mret (asset, None)
      else stage_fail InvalidTransition
  | None =>
      journal ← stage_asset InvalidTransition
        (CallRegister {| rg_name := rq_name request; rg_max_supply := rq_max_supply request;
                         rg_initial_mint := rq_initial_mint request; rg_mint_authority := actor;
                         rg_nonce := rq_nonce request |})
        {| actor := actor; commitment := issuance_origin id commitment 0x08 |};
      mret (asset, Some journal)
  end.

Definition settle_mint (id : ProgramId) (request : MintAssetRequest)
    (registered : option AssetContract) (commitment : Hash)
    : Staged LedgerState StateError AssetJournal :=
  asset ← stage_lift
    match mq_asset request with
    | Existing asset => Ok asset
    | Registered => ok_or registered InvalidTransition
    end;
  record ← stage_check (fun s => ok_or (records (l_assets s) !! asset) InvalidTransition);
  nonce ← stage_lift (ok_or (checked_add 64 (mint_nonce record) 1) InvalidTransition);
  stage_asset InvalidTransition
    (CallMint {| mt_asset := asset; mt_nonce := nonce; mt_recipient := mq_recipient request;
                 mt_amount := mq_amount request |})
    {| actor := Program id; commitment := issuance_origin id commitment 0x09 |}.

Definition settle_asset_transfer (id : ProgramId) (asset : AssetContract)
    (request : TransferRequest) (origin : Hash) : Staged LedgerState StateError AssetJournal :=
  let actor := Program id in
  '(inputs, total) ← stage_check (fun s =>
    select_inputs 128 (fun e : list Z * AssetShare => Ok (amount e.2)) AmountOverflow
      (tq_amount request)
      (take MAX_TRANSFER_INPUTS (shares_by_owner_asset (l_assets s) actor asset)) 0);
  change ← stage_lift (ok_or (Unit.checked_sub total (tq_amount request)) InvalidTransition);
  stage_asset InvalidTransition
    (CallTransfer
      {| tr_asset := asset; tr_inputs := inputs.*1;
         tr_outputs := {| ao_recipient := tq_recipient request; ao_amount := tq_amount request |}
           :: (if Unit.is_zero change then [] else [{| ao_recipient := actor; ao_amount := change |}]) |})
    {| actor := actor; commitment := origin |}.

Definition settle_asset (id : ProgramId) (result : ExecutionResult) (commitment origin : Hash)
    : Staged LedgerState StateError (option AssetJournal) :=
  '(registered, journal) ←
    match asset_register result with
    | None => mret (None, None)
    | Some request =>
        '(asset, journal) ← settle_register id request commitment;
        mret (Some asset, journal)
    end;
  journal ←
    match asset_mint result with
    | None => mret journal
    | Some request =>
        next ← settle_mint id request registered commitment;
        mret (merge_journal journal next)
    end;
  match asset_transfer result with
  | None => mret journal
  | Some (asset, request) =>
      next ← settle_asset_transfer id asset request origin;
      mret (merge_journal journal next)
  end.

Definition settle_with_inputs (id : ProgramId) (result : ExecutionResult) (commitment : Hash)
    (selected : option (list CoinShare))
    : Staged LedgerState StateError (CoinRollbackJournal * option AssetJournal) :=
  let origin := domain AssetIntent
    (ascii_bytes "xparq:vm-transfer:v2"%string ++ id ++ commitment) in
  coin ← stage_st (settle_coin (Program id) (coin_transfer result) origin selected);
  asset ← settle_asset id result commitment origin;
  mret (coin, asset).

(** [settle] lets the store choose the coins; [quote] runs it on a clone. *)
Definition settle (id : ProgramId) (result : ExecutionResult) (commitment : Hash)
    : Staged LedgerState StateError (CoinRollbackJournal * option AssetJournal) :=
  settle_with_inputs id result commitment None.

Definition quote (s : LedgerState) (id : ProgramId) (result : ExecutionResult) (commitment : Hash)
    : outcome (Prelude.result StateError TransferQuote) :=
  if negb (has_monetary_effects result) then Returned (Ok empty_quote)
  else
    match settle id result commitment s with
    | Panicked => Panicked
    | Returned (Err e) => Returned (Err e)
    | Returned (Ok ((coin, _), staged)) =>
        let before := Z.of_nat (length (enc_assets (l_assets s))) in
        let after := Z.of_nat (length (enc_assets (l_assets staged))) in
        Returned (Ok {| created_coin_utxos := Z.of_nat (length (created_coin_ids coin));
                        consumed_coin_utxos := Z.of_nat (length (consumed_coins coin));
                        created_state_weight := saturating_sub after before |})
    end.
End settlement.
