(* ===== verification/Engine.v ===== *)
(** * The application interpreter

    Models [kernel/src/program/vm_app/engine.rs], [engine/interpreter.rs],
    [engine/settlement.rs] and [vm_app/execution.rs]: call frames and shared
    budgets, the typed stack machine of version 4, account caches and monetary
    effects, and the entry points [apply] and [preview].

    A computation of the engine is staged: its state is discarded when it
    fails.  Two fuels bound the recursion of the model.  Nested calls take
    [depth], and [MAX_CALL_DEPTH] refuses to nest deeper; a frame's loop takes
    one step per unit of the engine's own fuel, of which every instruction is
    charged at least one.  Running out of either counts as a panic, so a
    theorem that excludes panics proves that neither happens.

    The invocation's constants (the installed application, the signer, the
    height and the commitment) are section variables. *)

From stdpp Require Import strings.
From S2P Require Import Prelude Codec Monetary Index Coin Calls Vm Registry Assets State AssetHost.
From S2P Require Import Authorize Settlement.
#[local] Open Scope Z_scope.

Definition MAX_CALL_DEPTH : Z := 8.
Definition MAX_CALLS : Z := 64.
Definition MAX_ACTIONS : Z := 256.
Definition MAX_ASSET_TRANSFER_OUTPUTS : Z := 255.
Definition CALL_COST : Z := 20.
Definition PAGE_BYTES : Z := 65536.

(** ** Account caches *)

(** A running total and the coins or shares it is made of, each with its
    amount. *)
Definition Account : Type := Z * gset (Z * list Z).

Definition empty_account : Account := (0, ∅).

Definition account_add {E} (bits : Z) (overflow : E) (amount : Z) (share : list Z) (a : Account)
    : result E Account :=
  total ← ok_or (checked_add bits a.1 amount) overflow;
  Ok (total, {[(amount, share)]} ∪ a.2).

Definition account_sub {E} (underflow : E) (amount : Z) (share : list Z) (a : Account)
    : result E Account :=
  total ← ok_or (checked_sub a.1 amount) underflow;
  Ok (total, a.2 ∖ {[(amount, share)]}).

(** [(Reverse(amount), share)] in order: largest amount first. *)
Definition account_le (a b : Z * list Z) : Prop :=
  b.1 < a.1 \/ (a.1 = b.1 /\ lex_leb a.2 b.2 = true).
#[global] Instance account_le_dec a b : Decision (account_le a b).
Proof. unfold account_le. apply _. Defined.

Definition account_shares (a : Account) : list (list Z) :=
  (merge_sort account_le (elements a.2)).*2.

(** [entry(key).or_default()] with a fallible change. *)
Definition change_account `{Countable K} {E} (key : K) (f : Account -> result E Account)
    (m : gmap K Account) : result E (gmap K Account) :=
  a ← f (default empty_account (m !! key));
  Ok (<[key := a]> m).

(** [AssetState::shares_by_owner]: by asset, then by share. *)
Definition shares_by_owner (self : AssetState) (o : Owner) : list (list Z * AssetShare) :=
  flat_map (fun a => omap (fun id =>
      share ← shares self !! id;
      if decide (owner share = o) then Some (id, share) else None)
    (sorted_ids (index_get (index2_get (share_index self) o) a)))
    (assets_by_owner_shares self o).

(** ** The engine *)

Record Engine := {
  e_state : LedgerState;
  e_fuel : Z;
  e_calls : Z;
  e_actions : Z;
  e_active : list ProgramId;
  accounts_ready : gset ProgramId;
  e_coins : gmap ProgramId Account;
  e_assets : gmap (ProgramId * AssetContract) Account;
  e_consumed : gmap CoinShare CoinUtxo;
  e_created : gset CoinShare;
  e_asset : option AssetJournal;
  e_writes : Writes;
}.

Definition put_state (s : LedgerState) (e : Engine) : Engine :=
  Build_Engine s (e_fuel e) (e_calls e) (e_actions e) (e_active e) (accounts_ready e) (e_coins e)
    (e_assets e) (e_consumed e) (e_created e) (e_asset e) (e_writes e).

Definition set_fuel (n : Z) (e : Engine) : Engine :=
  Build_Engine (e_state e) n (e_calls e) (e_actions e) (e_active e) (accounts_ready e) (e_coins e)
    (e_assets e) (e_consumed e) (e_created e) (e_asset e) (e_writes e).

Definition set_calls (calls : Z) (active : list ProgramId) (e : Engine) : Engine :=
  Build_Engine (e_state e) (e_fuel e) calls (e_actions e) active (accounts_ready e) (e_coins e)
    (e_assets e) (e_consumed e) (e_created e) (e_asset e) (e_writes e).

Definition set_actions (n : Z) (e : Engine) : Engine :=
  Build_Engine (e_state e) (e_fuel e) (e_calls e) n (e_active e) (accounts_ready e) (e_coins e)
    (e_assets e) (e_consumed e) (e_created e) (e_asset e) (e_writes e).

Definition set_accounts (ready : gset ProgramId) (coins : gmap ProgramId Account)
    (assets : gmap (ProgramId * AssetContract) Account) (e : Engine) : Engine :=
  Build_Engine (e_state e) (e_fuel e) (e_calls e) (e_actions e) (e_active e) ready coins
    assets (e_consumed e) (e_created e) (e_asset e) (e_writes e).

Definition set_touched (consumed : gmap CoinShare CoinUtxo) (created : gset CoinShare)
    (e : Engine) : Engine :=
  Build_Engine (e_state e) (e_fuel e) (e_calls e) (e_actions e) (e_active e) (accounts_ready e)
    (e_coins e) (e_assets e) consumed created (e_asset e) (e_writes e).

Definition set_asset (journal : option AssetJournal) (e : Engine) : Engine :=
  Build_Engine (e_state e) (e_fuel e) (e_calls e) (e_actions e) (e_active e) (accounts_ready e)
    (e_coins e) (e_assets e) (e_consumed e) (e_created e) journal (e_writes e).

Definition set_registry (r : ProgramRegistry) (w : Writes) (e : Engine) : Engine :=
  Build_Engine {| utxos := utxos (e_state e); coin_record := coin_record (e_state e);
                  l_programs := r; l_assets := l_assets (e_state e) |}
    (e_fuel e) (e_calls e) (e_actions e) (e_active e) (accounts_ready e)
    (e_coins e) (e_assets e) (e_consumed e) (e_created e) (e_asset e) w.

Definition VMM := Staged Engine ExecutionError.
#[global] Instance vmm_mret : MRet VMM := staged_mret Engine ExecutionError.
#[global] Instance vmm_mbind : MBind VMM := staged_mbind Engine ExecutionError.

Definition charge (n : Z) : VMM unit :=
  stage_update (fun e => fuel ← ok_or (checked_sub (e_fuel e) n) OutOfFuel; Ok (set_fuel fuel e)).

Definition action : VMM unit :=
  _ ← (stage_modify (fun e => set_actions (e_actions e + 1) e) : VMM unit);
  stage_check (fun e => if MAX_ACTIONS <? e_actions e then Err ResourceLimit else Ok tt).

(** A part of the ledger state changed in place. *)
Definition on_state {A} (m : Staged LedgerState ExecutionError A) : VMM A := fun e =>
  match m (e_state e) with
  | Returned (Ok (a, s)) => Returned (Ok (a, put_state s e))
  | Returned (Err error) => Returned (Err error)
  | Panicked => Panicked
  end.

(** ** Accounts and monetary effects *)

Definition ensure_accounts (id : ProgramId) : VMM unit :=
  stage_update (fun e =>
    if bool_decide (id ∈ accounts_ready e) then Ok e
    else
      coins ← try_fold (fun m '(share, value) =>
                 change_account id (account_add 64 ArithmeticOverflow (cu_amount value) share) m)
               (coins_by_owner (utxos (e_state e)) (Program id)) (e_coins e);
      assets ← try_fold (fun m '(share, value) =>
                  change_account (id, asset value)
                    (account_add 128 ArithmeticOverflow (amount value) share) m)
                (shares_by_owner (l_assets (e_state e)) (Program id)) (e_assets e);
      Ok (set_accounts ({[id]} ∪ accounts_ready e) coins assets e)).

(** One share of a journal: its old value leaves its owner's account, its new
    value enters its owner's, where those accounts are cached. *)
Definition merge_share (ready : gset ProgramId) (live : gmap (list Z) AssetShare)
    (m : gmap (ProgramId * AssetContract) Account) (entry : list Z * option AssetShare)
    : result ExecutionError (gmap (ProgramId * AssetContract) Account) :=
  let '(share, previous) := entry in
  m ← match previous with
      | Some value =>
          let id := owner_program (owner value) in
          if bool_decide (id ∈ ready)
          then change_account (id, asset value)
                 (account_sub SettlementFailed (amount value) share) m
          else Ok m
      | None => Ok m
      end;
  match live !! share with
  | Some value =>
      let id := owner_program (owner value) in
      if bool_decide (id ∈ ready)
      then change_account (id, asset value)
             (account_add 128 ArithmeticOverflow (amount value) share) m
      else Ok m
  | None => Ok m
  end.

Definition merge_asset (journal : AssetJournal) : VMM unit :=
  stage_update (fun e =>
    assets ← try_fold (merge_share (accounts_ready e) (shares (l_assets (e_state e))))
               (j_shares journal) (e_assets e);
    Ok (set_asset (merge_journal (e_asset e) journal)
          (set_accounts (accounts_ready e) (e_coins e) assets e))).

(** A consumed coin leaves its owner's account; it is remembered unless this
    invocation created it. *)
Definition absorb_consumed (e : Engine) (entry : CoinShare * CoinUtxo)
    : result ExecutionError Engine :=
  let '(share, value) := entry in
  let id := owner_program (cu_owner value) in
  coins ← (if bool_decide (id ∈ accounts_ready e)
           then change_account id (account_sub SettlementFailed (cu_amount value) share) (e_coins e)
           else Ok (e_coins e));
  let e := set_accounts (accounts_ready e) coins (e_assets e) e in
  if bool_decide (share ∈ e_created e)
  then Ok (set_touched (e_consumed e) (e_created e ∖ {[share]}) e)
  else Ok (set_touched (or_insert (e_consumed e) share value) (e_created e) e).

Definition absorb_created (e : Engine) (share : CoinShare) : result ExecutionError Engine :=
  value ← ok_or (coin (utxos (e_state e)) share) SettlementFailed;
  let id := owner_program (cu_owner value) in
  coins ← (if bool_decide (id ∈ accounts_ready e)
           then change_account id (account_add 64 ArithmeticOverflow (cu_amount value) share)
                  (e_coins e)
           else Ok (e_coins e));
  Ok (set_touched (e_consumed e) ({[share]} ∪ e_created e)
        (set_accounts (accounts_ready e) coins (e_assets e) e)).

(** The coins a transfer request spends. *)
Definition select_coins (e : Engine) (id : ProgramId) (amount : Z) (legacy_root : bool)
    : result ExecutionError (list CoinShare) :=
  let candidates :=
    if legacy_root
    then take MAX_TRANSFER_INPUTS (coins_by_owner (utxos (e_state e)) (Program id)).*1
    else take MAX_TRANSFER_INPUTS (account_shares (default empty_account (e_coins e !! id))) in
  '(selected, _) ← select_inputs 64
    (fun share => c ← ok_or (coin (utxos (e_state e)) share) SettlementFailed; Ok (cu_amount c))
    ArithmeticOverflow amount candidates 0;
  Ok selected.

Section engine.
Context `{Sha3} `{RootTest}.
Context (application : AssetApplication) (signer : ProgramId) (height : Z) (invocation : Hash).

Definition effect_commitment (name : list Z) (actions : Z) : Hash :=
  domain AssetIntent (name ++ invocation ++ le_bytes 8 actions).

Definition engine_settle (id : ProgramId) (result : ExecutionResult) (legacy_root : bool)
    : VMM unit :=
  _ ← ensure_accounts id;
  selected ←
    match coin_transfer result with
    | None => mret []
    | Some request =>
        selected ← stage_check (fun e => select_coins e id (tq_amount request) legacy_root);
        _ ← (if legacy_root then mret tt else charge (Z.of_nat (length selected)) : VMM unit);
        mret selected
    end;
  _ ← action;
  commitment ← stage_check (fun e => Ok
    (if legacy_root then invocation
     else effect_commitment (ascii_bytes "xparq:vm-effects:v4"%string) (e_actions e)));
  '(coin, asset) ← on_state (stage_map_err (fun _ => SettlementFailed)
    (settle_with_inputs application id result commitment (Some selected)));
  _ ← (stage_update (fun e => try_fold absorb_consumed (consumed_coins coin) e) : VMM unit);
  _ ← (stage_update (fun e => try_fold absorb_created (created_coin_ids coin) e) : VMM unit);
  match asset with
  | Some journal => merge_asset journal
  | None => mret tt
  end.

(** The shares of the program's account an amount is paid from. *)
Definition select_shares (e : Engine) (id : ProgramId) (asset : AssetContract) (amount : Z)
    : result ExecutionError (list Share * Z) :=
  match e_assets e !! (id, asset) with
  | None => Ok ([], 0)
  | Some account =>
      select_inputs 128
        (fun share => s ← ok_or (shares (l_assets (e_state e)) !! share) SettlementFailed;
                      Ok (Monetary.amount s))
        ArithmeticOverflow amount (take MAX_TRANSFER_INPUTS (account_shares account)) 0
  end.

Definition output_total_step (total : Z) (output : AssetOutput) : result ExecutionError Z :=
  fail_if Unit.is_zero (ao_amount output) with InvalidOperand;
  ok_or (checked_add 128 total (ao_amount output)) ArithmeticOverflow.

Definition transfer_asset_outputs (id : ProgramId) (asset : AssetContract)
    (outputs : list AssetOutput) (multiple : bool) : VMM unit :=
  _ ← ensure_accounts id;
  amount ← stage_lift (try_fold output_total_step outputs 0);
  _ ← stage_require (negb (amount =? 0)) InvalidOperand;
  _ ← action;
  '(inputs, total) ← stage_check (fun e => select_shares e id asset amount);
  _ ← charge (Z.of_nat (length inputs));
  change ← stage_lift (ok_or (checked_sub total amount) SettlementFailed);
  let outputs := outputs ++ (if change =? 0 then []
                             else [{| ao_recipient := Program id; ao_amount := change |}]) in
  _ ← stage_require (Z.of_nat (length outputs) <=? MAX_ASSET_OUTPUTS) ResourceLimit;
  commitment ← stage_check (fun e => Ok (effect_commitment
    (if multiple then ascii_bytes "xparq:vm-asset-transfer-many:v1"%string
     else ascii_bytes "xparq:vm-asset-transfer:v4"%string) (e_actions e)));
  journal ← on_state (stage_asset application SettlementFailed
    (CallTransfer {| tr_asset := asset; tr_inputs := inputs; tr_outputs := outputs |})
    {| actor := Program id; commitment := commitment |});
  merge_asset journal.

Definition engine_transfer_asset (id : ProgramId) (asset : AssetContract) (recipient : Owner)
    (amount : Z) : VMM unit :=
  transfer_asset_outputs id asset [{| ao_recipient := recipient; ao_amount := amount |}] false.

Definition transfer_asset_many (id : ProgramId) (asset : AssetContract)
    (outputs : list AssetOutput) : VMM unit :=
  _ ← stage_require (negb (bool_decide (outputs = []))
        && (Z.of_nat (length outputs) <=? MAX_ASSET_TRANSFER_OUTPUTS)) ResourceLimit;
  _ ← charge (Z.of_nat (length outputs));
  transfer_asset_outputs id asset outputs true.

Definition engine_burn_asset (id : ProgramId) (asset : AssetContract) (amount : Z) : VMM unit :=
  _ ← ensure_accounts id;
  _ ← stage_require (negb (amount =? 0)) InvalidOperand;
  _ ← action;
  '(inputs, total) ← stage_check (fun e => select_shares e id asset amount);
  _ ← charge (Z.of_nat (length inputs));
  output ← stage_lift (ok_or (checked_sub total amount) SettlementFailed);
  commitment ← stage_check (fun e => Ok
    (effect_commitment (ascii_bytes "xparq:vm-asset-burn:v4"%string) (e_actions e)));
  journal ← on_state (stage_asset application SettlementFailed
    (CallBurn {| bn_asset := asset; bn_inputs := inputs; bn_amount := amount;
                 bn_output := output |})
    {| actor := Program id; commitment := commitment |});
  merge_asset journal.

(** ** The stack machine *)

Inductive Value := VInt (n : Z) | VBytes (bytes : list Z) | VOwner (o : Owner).

#[local] Instance Value_eq_dec : EqDecision Value.
Proof. solve_decision. Defined.

Definition value_int (v : Value) : result ExecutionError Z :=
  match v with VInt n => Ok n | _ => Err InvalidOperand end.
Definition value_bytes (v : Value) : result ExecutionError (list Z) :=
  match v with VBytes bytes => Ok bytes | _ => Err InvalidOperand end.
Definition value_owner (v : Value) : result ExecutionError Owner :=
  match v with VOwner o => Ok o | _ => Err InvalidOperand end.

Definition value_size (v : Value) : Z :=
  match v with VInt _ => 16 | VOwner _ => 33 | VBytes bytes => Z.of_nat (length bytes) end.

(** The top of the stack is the head of the list. *)
Definition pop (stack : list Value) : result ExecutionError (Value * list Value) :=
  match stack with v :: stack => Ok (v, stack) | [] => Err InvalidOperand end.

Definition pop_int (stack : list Value) : result ExecutionError (Z * list Value) :=
  '(v, stack) ← pop stack; n ← value_int v; Ok (n, stack).
Definition pop_bytes (stack : list Value) : result ExecutionError (list Z * list Value) :=
  '(v, stack) ← pop stack; bytes ← value_bytes v; Ok (bytes, stack).
Definition pop_owner (stack : list Value) : result ExecutionError (Owner * list Value) :=
  '(v, stack) ← pop stack; o ← value_owner v; Ok (o, stack).

(** [u64::try_from], [usize::try_from] and [i64::try_from] of a [u128]; an
    [i64 as u128] wraps. *)
Definition narrow (bits : Z) (error : ExecutionError) (n : Z) : result ExecutionError Z :=
  if (0 <=? n) && (n <? 2 ^ bits) then Ok n else Err error.
Definition as_u128 (n : Z) : Z := n mod 2 ^ 128.

Definition bool_u128 (b : bool) : Z := if b then 1 else 0.

Definition arithmetic (op a b : Z) : option Z :=
  if op =? 0x02 then checked_add 128 a b
  else if op =? 0x24 then checked_sub a b
  else if op =? 0x25 then checked_mul 128 a b
  else if op =? 0x26 then (if b =? 0 then None else Some (a / b))
  else if op =? 0x27 then Some (bool_u128 (a <? b))
  else Some (bool_u128 (a <=? b)).

Definition op_cost (op : Z) : Z :=
  if op =? 0x30 then STATE_READ_COST
  else if (op =? 0x31) || (op =? 0x32) then STATE_WRITE_COST
  else if in_range 0x40 0x42 op || (op =? 0x4b) || (op =? 0x4c) then TRANSFER_COST
  else if op =? 0x43 then CALL_COST
  else INSTRUCTION_COST.

Definition check_key (key : list Z) : result ExecutionError unit :=
  fail_if bool_decide (key = []) || (MAX_KEY_BYTES <? Z.of_nat (length key)) with InvalidOperand;
  Ok tt.

Definition asset_id (bytes : list Z) : result ExecutionError AssetContract :=
  match dec_raw HASH_SIZE bytes with Some (asset, []) => Ok asset | _ => Err InvalidOperand end.

Fixpoint decode_outputs (count : nat) (reader : list Z)
    : result ExecutionError (list AssetOutput * list Z) :=
  match count with
  | O => Ok ([], reader)
  | S count =>
      '(output, reader) ← ok_or (dec_output reader) InvalidOperand;
      fail_if Unit.is_zero (ao_amount output) with InvalidOperand;
      '(outputs, reader) ← decode_outputs count reader;
      Ok (output :: outputs, reader)
  end.

Definition decode_asset_transfer (bytes : list Z)
    : result ExecutionError (AssetContract * list AssetOutput) :=
  '(asset, reader) ← ok_or (dec_raw HASH_SIZE bytes) InvalidOperand;
  '(count, reader) ← ok_or (dec_uint 4 reader) InvalidOperand;
  fail_if (count =? 0) || (MAX_ASSET_TRANSFER_OUTPUTS <? count) with ResourceLimit;
  '(outputs, reader) ← decode_outputs (Z.to_nat count) reader;
  fail_if negb (bool_decide (reader = [])) with InvalidOperand;
  Ok (asset, outputs).

(** The record of the executing program, [program(&id).unwrap()]. *)
Definition own_record (id : ProgramId) : VMM ProgramRecord :=
  stage_unwrap (fun e => program (l_programs (e_state e)) id).

(** A journaled write to the registry, [None] where the source unwraps. *)
Definition own_write (w : VmWrite) : VMM unit :=
  s ← stage_unwrap (fun e => vm_write (l_programs (e_state e), e_writes e) w);
  stage_modify (set_registry s.1 s.2).

(** Results with a single proposal. *)
Definition coin_effect (recipient : Owner) (amount : Z) : ExecutionResult :=
  {| value := 0; fuel_used := 0; proposed_effect := None;
     coin_transfer := Some {| tq_recipient := recipient; tq_amount := amount |};
     asset_transfer := None; asset_register := None; asset_mint := None |}.
Definition register_effect (request : RegisterAssetRequest) : ExecutionResult :=
  {| value := 0; fuel_used := 0; proposed_effect := None; coin_transfer := None;
     asset_transfer := None; asset_register := Some request; asset_mint := None |}.
Definition mint_effect (asset : AssetContract) (recipient : Owner) (amount : Z)
    : ExecutionResult :=
  {| value := 0; fuel_used := 0; proposed_effect := None; coin_transfer := None;
     asset_transfer := None; asset_register := None;
     asset_mint := Some {| mq_asset := Existing asset; mq_recipient := recipient;
                           mq_amount := amount |} |}.

(** What an instruction does: go on at a counter with a stack, or return. *)
Inductive Flow := Next (pc : Z) (stack : list Value) | Finish (n : Z).

(** The frame of a call, and how it calls other programs. *)
Record Frame := {
  f_id : ProgramId;
  f_caller : Owner;
  f_data : list Z;
  f_deposit : Z;
}.

Definition Call : Type := ProgramId -> Owner -> list Z -> Z -> VMM Z.

(** Instructions that only read and write the stack. *)
Definition exec_pure (f : Frame) (i : Instruction) (stack : list Value)
    : option (result ExecutionError Flow) :=
  let op := op i in
  let go := fun s => Ok (Next (next i) s) in
  if op =? 0x00 then Some (go stack)
  else if op =? 0x01 then
    if (length (immediate i) =? 16)%nat then Some (go (VInt (le_val (immediate i)) :: stack))
    else None
  else if (op =? 0x02) || in_range 0x24 0x28 op then Some (
    '(b, stack) ← pop_int stack;
    '(a, stack) ← pop_int stack;
    n ← ok_or (arithmetic op a b) ArithmeticOverflow;
    go (VInt n :: stack))
  else if op =? 0x03 then Some (
    fail_if negb (length stack =? 1)%nat with InvalidOperand;
    '(n, _) ← pop_int stack;
    Ok (Finish n))
  else if op =? 0x11 then
    match dec_owner (immediate i) with Some (o, []) => Some (go (VOwner o :: stack)) | _ => None end
  else if op =? 0x12 then Some (go (VOwner (f_caller f) :: stack))
  else if op =? 0x13 then Some (go (VOwner (Program (f_id f)) :: stack))
  else if op =? 0x14 then Some (go (VOwner (Program signer) :: stack))
  else if op =? 0x17 then Some ('(_, stack) ← pop stack; go stack)
  else if op =? 0x18 then
    Some match stack with a :: b :: stack => go (b :: a :: stack) | _ => Err InvalidOperand end
  else if op =? 0x19 then Some (
    '(r, stack) ← pop stack;
    '(l, stack) ← pop stack;
    go (VInt (bool_u128 (bool_decide (l = r))) :: stack))
  else if op =? 0x20 then
    if (length (immediate i) =? 4)%nat then Some (Ok (Next (jump_target i) stack)) else None
  else if op =? 0x21 then
    match pop_int stack with
    | Err e => Some (Err e)
    | Ok (n, stack) =>
        if n =? 0 then
          if (length (immediate i) =? 4)%nat then Some (Ok (Next (jump_target i) stack)) else None
        else Some (go stack)
    end
  else if op =? 0x22 then Some (
    '(n, stack) ← pop_int stack;
    fail_if n =? 0 with Reverted;
    go stack)
  else if op =? 0x23 then Some (Err Reverted)
  else if op =? 0x29 then Some (
    '(bytes, stack) ← pop_bytes stack;
    n ← (if bool_decide (bytes = []) then Ok 0
         else if (length bytes =? 16)%nat then Ok (le_val bytes) else Err InvalidOperand);
    go (VInt n :: stack))
  else if op =? 0x2a then Some (
    '(n, stack) ← pop_int stack;
    go (VBytes (le_bytes 16 n) :: stack))
  else if op =? 0x33 then Some (
    '(o, stack) ← pop_owner stack;
    go (VBytes (enc_owner o) :: stack))
  else if op =? 0x34 then Some (
    '(bytes, stack) ← pop_bytes stack;
    match dec_owner bytes with
    | Some (o, []) => go (VOwner o :: stack)
    | _ => Err InvalidOperand
    end)
  else if op =? 0x36 then Some (
    '(bytes, stack) ← pop_bytes stack;
    go (VInt (Z.of_nat (length bytes)) :: stack))
  else if op =? 0x49 then Some (go (VInt height :: stack))
  else if op =? 0x44 then Some (go (VInt (f_deposit f) :: stack))
  else Some (Err InvalidOperand).

Definition lift_pure (o : option (result ExecutionError Flow)) : VMM Flow := fun e =>
  match o with
  | Some r => Returned (a ← r; Ok (a, e))
  | None => Panicked
  end.

(** Instructions on bytes and storage. *)
Definition exec_storage (f : Frame) (i : Instruction) (stack : list Value) : VMM Flow :=
  let op := op i in
  let id := f_id f in
  let go := fun s : list Value => mret (Next (next i) s) : VMM Flow in
  if op =? 0x04 then
    record ← own_record id;
    go (VInt (as_u128 (p_state record)) :: stack)
  else if op =? 0x05 then
    _ ← action;
    '(n, stack) ← stage_lift ('(n, stack) ← pop_int stack;
                              n ← narrow 63 ArithmeticOverflow n; Ok (n, stack));
    _ ← own_write (WriteState id n);
    go stack
  else if op =? 0x10 then
    _ ← charge (Z.of_nat (length (immediate i)));
    go (VBytes (immediate i) :: stack)
  else if op =? 0x15 then
    _ ← charge (Z.of_nat (length (f_data f)));
    go (VBytes (f_data f) :: stack)
  else if op =? 0x16 then
    '(v, _) ← stage_lift (pop stack);
    _ ← match v with VBytes bytes => charge (Z.of_nat (length bytes)) | _ => mret tt end;
    go (v :: stack)
  else if op =? 0x2b then
    '(b, stack) ← stage_lift (pop_bytes stack);
    '(a, stack) ← stage_lift (pop_bytes stack);
    let size := Z.of_nat (length a) + Z.of_nat (length b) in
    _ ← stage_require (size <=? MAX_DATA_BYTES) ResourceLimit;
    _ ← charge size;
    go (VBytes (a ++ b) :: stack)
  else if op =? 0x30 then
    '(key, stack) ← stage_lift (pop_bytes stack);
    _ ← stage_lift (check_key key);
    record ← own_record id;
    let value := default [] (storage record !! key) in
    _ ← charge (Z.of_nat (length key) + Z.of_nat (length value));
    go (VBytes value :: stack)
  else if (op =? 0x31) || (op =? 0x32) then
    '(value, stack) ← stage_lift
      (if op =? 0x31 then '(v, stack) ← pop_bytes stack; Ok (Some v, stack) else Ok (None, stack));
    '(key, stack) ← stage_lift (pop_bytes stack);
    _ ← stage_lift (check_key key);
    _ ← stage_require
      match value with
      | Some v => negb (bool_decide (v = [])) && (Z.of_nat (length v) <=? MAX_DATA_BYTES)
      | None => true
      end InvalidOperand;
    _ ← charge (Z.of_nat (length key)
                + match value with Some v => Z.of_nat (length v) | None => 0 end);
    _ ← action;
    _ ← own_write (WriteStorage id key value);
    record ← own_record id;
    _ ← stage_require (valid_storage (storage record)) ResourceLimit;
    go stack
  else if op =? 0x35 then
    '(len, stack) ← stage_lift ('(n, stack) ← pop_int stack;
                                n ← narrow 64 InvalidOperand n; Ok (n, stack));
    '(start, stack) ← stage_lift ('(n, stack) ← pop_int stack;
                                  n ← narrow 64 InvalidOperand n; Ok (n, stack));
    '(bytes, stack) ← stage_lift (pop_bytes stack);
    _ ← stage_lift (ok_or (checked_add 64 start len) InvalidOperand);
    slice ← stage_lift (ok_or (slice bytes start len) InvalidOperand);
    _ ← charge len;
    go (VBytes slice :: stack)
  else if op =? 0x37 then
    '(bytes, stack) ← stage_lift (pop_bytes stack);
    _ ← charge (Z.of_nat (length bytes));
    go (VBytes (domain Raw bytes) :: stack)
  else if op =? 0x4a then
    record ← own_record id;
    go (VOwner (Program (p_owner record)) :: stack)
  else lift_pure (exec_pure f i stack).

(** Instructions with monetary effects, and calls. *)
Definition exec_op (call : Call) (f : Frame) (i : Instruction) (stack : list Value) : VMM Flow :=
  let op := op i in
  let id := f_id f in
  let go := fun s : list Value => mret (Next (next i) s) : VMM Flow in
  if op =? 0x45 then
    '(bytes, stack) ← stage_lift (pop_bytes stack);
    _ ← charge (Z.of_nat (length bytes) + ASSET_REGISTER_COST);
    '(request, reader) ← stage_lift (map_err InvalidCode (decode_register_request bytes));
    _ ← stage_require (bool_decide (reader = [])) InvalidOperand;
    metadata ← stage_lift (map_err (fun _ => InvalidOperand)
      (metadata_new (rq_name request) (rq_max_supply request) (Program id) (Program id)));
    let asset := asset_derive metadata (rq_nonce request) in
    _ ← engine_settle id (register_effect request) false;
    go (VBytes asset :: stack)
  else if op =? 0x46 then
    _ ← ensure_accounts id;
    '(asset, stack) ← stage_lift ('(bytes, stack) ← pop_bytes stack;
                                  asset ← asset_id bytes; Ok (asset, stack));
    balance ← stage_check (fun e => Ok (default empty_account (e_assets e !! (id, asset))).1);
    go (VInt balance :: stack)
  else if op =? 0x47 then
    _ ← ensure_accounts id;
    balance ← stage_check (fun e => Ok (default empty_account (e_coins e !! id)).1);
    go (VInt balance :: stack)
  else if op =? 0x40 then
    '(amount, stack) ← stage_lift ('(n, stack) ← pop_int stack;
                                   n ← narrow 64 ArithmeticOverflow n; Ok (n, stack));
    '(recipient, stack) ← stage_lift (pop_owner stack);
    _ ← stage_require (negb (amount =? 0)) InvalidOperand;
    _ ← engine_settle id (coin_effect recipient amount) false;
    go stack
  else if op =? 0x41 then
    '(amount, stack) ← stage_lift (pop_int stack);
    '(recipient, stack) ← stage_lift (pop_owner stack);
    '(asset, stack) ← stage_lift ('(bytes, stack) ← pop_bytes stack;
                                  asset ← asset_id bytes; Ok (asset, stack));
    _ ← engine_transfer_asset id asset recipient amount;
    go stack
  else if op =? 0x4c then
    '(request, stack) ← stage_lift (pop_bytes stack);
    '(asset, outputs) ← stage_lift (decode_asset_transfer request);
    _ ← transfer_asset_many id asset outputs;
    go stack
  else if op =? 0x42 then
    '(amount, stack) ← stage_lift (pop_int stack);
    '(recipient, stack) ← stage_lift (pop_owner stack);
    '(asset, stack) ← stage_lift ('(bytes, stack) ← pop_bytes stack;
                                  asset ← asset_id bytes; Ok (asset, stack));
    _ ← engine_settle id (mint_effect asset recipient amount) false;
    go stack
  else if op =? 0x43 then
    '(input, stack) ← stage_lift (pop_bytes stack);
    '(target, stack) ← stage_lift (pop_owner stack);
    _ ← charge (Z.of_nat (length input));
    n ← call (owner_program target) (Program id) input 0;
    go (VInt n :: stack)
  else if op =? 0x48 then
    '(amount, stack) ← stage_lift ('(n, stack) ← pop_int stack;
                                   n ← narrow 64 ArithmeticOverflow n; Ok (n, stack));
    '(input, stack) ← stage_lift (pop_bytes stack);
    '(target, stack) ← stage_lift (pop_owner stack);
    let target := owner_program target in
    _ ← charge (CALL_COST + TRANSFER_COST + Z.of_nat (length input));
    _ ← stage_require (negb (amount =? 0)) InvalidOperand;
    _ ← engine_settle id (coin_effect (Program target) amount) false;
    n ← call target (Program id) input amount;
    go (VInt n :: stack)
  else if op =? 0x4b then
    '(amount, stack) ← stage_lift (pop_int stack);
    '(asset, stack) ← stage_lift ('(bytes, stack) ← pop_bytes stack;
                                  asset ← asset_id bytes; Ok (asset, stack));
    _ ← engine_burn_asset id asset amount;
    go stack
  else exec_storage f i stack.

(** ** Frames *)

Definition within_limits (limits : ValidatedCode) (stack : list Value) : bool :=
  (Z.of_nat (length stack) <=? max_stack limits)
  && (foldr (fun v n => value_size v + n) 0 stack <=? memory_pages limits * PAGE_BYTES).

(** The instruction loop of a frame. *)
Fixpoint frame_loop (gas : nat) (call : Call) (f : Frame) (limits : ValidatedCode)
    (decoded : gmap Z Instruction) (pc : Z) (stack : list Value) : VMM Z :=
  match gas with
  | O => (fun _ => Panicked) : VMM Z
  | S gas =>
      i ← stage_lift (ok_or (decoded !! pc) InvalidOperand);
      _ ← charge (op_cost (op i));
      flow ← exec_op call f i stack;
      match flow with
      | Finish n => mret n
      | Next pc stack =>
          _ ← stage_require (within_limits limits stack) ResourceLimit;
          frame_loop gas call f limits decoded pc stack
      end
  end.

Definition interpret (call : Call) (f : Frame) (code : list Z) : VMM Z :=
  limits ← stage_lift (map_err InvalidCode (validate_application code));
  decoded ← stage_lift (map_err InvalidCode (instructions code));
  _ ← charge (memory_pages limits * MEMORY_PAGE_COST);
  (fun e => frame_loop (S (Z.to_nat (e_fuel e))) call f limits decoded HEADER [] e) : VMM Z.

(** Code of versions 1 to 3, run to its result and then settled. *)
Definition call_scalar (id : ProgramId) (data : list Z) : VMM Z :=
  _ ← stage_require (bool_decide (data = [])) InvalidOperand;
  result ← (fun e => match execute_registered (l_programs (e_state e)) id (e_fuel e) with
                     | Some r => Returned (out ← r; Ok (out, e))
                     | None => Panicked
                     end) : VMM ExecutionResult;
  _ ← charge (fuel_used result);
  root ← stage_check (fun e => Ok (length (e_active e) =? 1)%nat);
  _ ← (if has_monetary_effects result then engine_settle id result root else mret tt : VMM unit);
  _ ← match proposed_effect result with
      | Some (ProgramState n) =>
          s ← stage_check (fun e =>
            ok_or (vm_write (l_programs (e_state e), e_writes e) (WriteState id n)) UnknownProgram);
          stage_modify (set_registry s.1 s.2)
      | None => mret tt
      end;
  mret (as_u128 (value result)).

Fixpoint call (depth : nat) : Call := fun id caller data deposit =>
  _ ← stage_check (fun e =>
    if (MAX_DATA_BYTES <? Z.of_nat (length data))
       || (MAX_CALL_DEPTH <=? Z.of_nat (length (e_active e))) || (MAX_CALLS <=? e_calls e)
    then Err ResourceLimit else Ok tt);
  _ ← stage_check (fun e =>
    if bool_decide (id ∈ e_active e) then Err ReentrantCall else Ok tt);
  record ← stage_check (fun e => ok_or (program (l_programs (e_state e)) id) UnknownProgram);
  _ ← (stage_modify (fun e => set_calls (e_calls e + 1) (e_active e ++ [id]) e) : VMM unit);
  version ← stage_unwrap (fun _ => code record !! 4%nat);
  n ← (if negb (version =? APPLICATION_VERSION) then call_scalar id data
       else match depth with
            | O => (fun _ => Panicked) : VMM Z
            | S depth =>
                interpret (call depth)
                  {| f_id := id; f_caller := caller; f_data := data; f_deposit := deposit |}
                  (code record)
            end);
  _ ← (stage_modify (fun e => set_calls (e_calls e) (removelast (e_active e)) e) : VMM unit);
  mret n.
End engine.

(** ** Entry points *)

Record AppliedVm := {
  av_value : Z;
  av_fuel_used : Z;
  av_quote : TransferQuote;
  av_coin : CoinRollbackJournal;
  av_asset : option AssetJournal;
  av_program : option ProgramJournal;
}.

Definition engine_start (s : LedgerState) : Engine :=
  {| e_state := s; e_fuel := MAX_CALL_FUEL; e_calls := 0; e_actions := 0; e_active := [];
     accounts_ready := ∅; e_coins := ∅; e_assets := ∅; e_consumed := ∅; e_created := ∅;
     e_asset := None; e_writes := {| w_states := ∅; w_storage := ∅ |} |}.

(** What the payment pays the called program. *)
Definition deposit_of (payment : CoinTransition) (id : ProgramId) : result ExecutionError Z :=
  try_fold (fun sum o => ok_or (checked_add 64 sum (co_amount o)) ArithmeticOverflow)
    (filter (fun o => co_output o = Program id) (ct_outputs payment)) 0.

(** The width a storage slot has in the encoded registry. *)
Definition slot_width (key : list Z) (value : option (list Z)) : Z :=
  match value with
  | Some v => 8 + Z.of_nat (length key) + Z.of_nat (length v)
  | None => 0
  end.

Definition storage_delta_step (r : ProgramRegistry) (delta : Z)
    (slot : ProgramId * list Z * option (list Z)) : result ExecutionError Z :=
  let '(id, key, previous) := slot in
  record ← ok_or (program r id) UnknownProgram;
  ok_or (i128_checked_add delta
           (slot_width key (storage record !! key) - slot_width key previous)) ArithmeticOverflow.

(** Everything after the root call returned. *)
Definition finish_apply (n : Z) (e : Engine) : result ExecutionError AppliedVm :=
  delta ← match e_asset e with
          | Some journal =>
              map_err (fun _ => SettlementFailed) (canonical_delta journal (l_assets (e_state e)))
          | None => Ok 0
          end;
  delta ← try_fold (storage_delta_step (l_programs (e_state e)))
            (merge_sort slot_le (map_to_list (w_storage (e_writes e)))) delta;
  weight ← ok_or (try_from 64 (Z.max delta 0)) ResourceLimit;
  Ok {| av_value := n; av_fuel_used := MAX_CALL_FUEL - e_fuel e;
        av_quote := {| created_coin_utxos := Z.of_nat (size (e_created e));
                       consumed_coin_utxos := Z.of_nat (size (e_consumed e));
                       created_state_weight := weight |};
        av_coin := {| consumed_coins := sorted_entries (e_consumed e);
                      created_coin_ids := sorted_ids (e_created e); mined := 0; burned := 0 |};
        av_asset := e_asset e; av_program := program_journal (e_writes e) |}.

Section entry.
Context `{Sha3} `{RootTest}.

Definition vm_apply (application : AssetApplication) (tx : AuthorizedProgramInvocation)
    (height : Z) (commitment : Hash) : Staged LedgerState ExecutionError AppliedVm := fun s =>
  match (input ← map_err (fun _ => InvalidOperand) (call_input (ai_call tx));
         deposit ← deposit_of (ai_payment tx) input.1;
         Ok (input, deposit)) with
  | Err e => Returned (Err e)
  | Ok ((id, data), deposit) =>
      match call application (ai_signer tx) height commitment (Z.to_nat MAX_CALL_DEPTH)
              id (Program (ai_signer tx)) data deposit (engine_start s) with
      | Panicked => Panicked
      | Returned (Err e) => Returned (Err e)
      | Returned (Ok (n, e)) => Returned (applied ← finish_apply n e; Ok (applied, e_state e))
      end
  end.

(** A quote on a disposable clone; scalar code without monetary effects is run
    without one. *)
Definition preview (application : AssetApplication) (tx : AuthorizedProgramInvocation)
    (height : Z) (commitment : Hash) (s : LedgerState)
    : outcome (result ExecutionError AppliedVm) :=
  let staged :=
    match vm_apply application tx height commitment s with
    | Panicked => Panicked
    | Returned (Err e) => Returned (Err e)
    | Returned (Ok (applied, _)) => Returned (Ok applied)
    end in
  match (input ← map_err (fun _ => InvalidOperand) (call_input (ai_call tx));
         record ← ok_or (program (l_programs s) input.1) UnknownProgram;
         Ok (input, record)) with
  | Err e => Returned (Err e)
  | Ok ((id, data), record) =>
      match code record !! 4%nat with
      | None => Panicked
      | Some version =>
          if version =? APPLICATION_VERSION then staged
          else if negb (bool_decide (data = [])) then Returned (Err InvalidOperand)
          else
            match execute_registered (l_programs s) id MAX_CALL_FUEL with
            | None => Panicked
            | Some (Err e) => Returned (Err e)
            | Some (Ok result) =>
                if has_monetary_effects result then staged
                else Returned (Ok
                  {| av_value := as_u128 (value result); av_fuel_used := fuel_used result;
                     av_quote := empty_quote; av_coin := empty_coin_journal;
                     av_asset := None; av_program := None |})
            end
      end
  end.
End entry.
