(* ===== verification/SettleFacts.v ===== *)
(** * What settlement leaves behind

    The coin and asset routines of [Settlement], seen through the records the
    engine keeps to undo them: which coins an invocation consumed and created,
    and the merged asset journal. *)

From S2P Require Import Prelude Codec Monetary Index Coin Vm Registry Assets AssetFacts AssetProps.
From S2P Require Import AssetAudit State StateRoot AssetHost Settlement.
#[local] Open Scope Z_scope.

(** ** Coins consumed and created *)

(** [m] is [m0] with the [consumed] coins gone and the [created] ones there; a
    coin consumed and then created again is in both. *)
Record tracked (m0 m consumed : gmap CoinShare CoinUtxo) (created : gset CoinShare) : Prop := {
  tk_created : forall id, id ∈ created ->
    is_Some (m !! id) /\ (m0 !! id = None \/ is_Some (consumed !! id));
  tk_consumed : forall id c, consumed !! id = Some c ->
    m0 !! id = Some c /\ (m !! id = None \/ id ∈ created);
  tk_same : forall id, id ∉ created -> consumed !! id = None -> m !! id = m0 !! id;
}.

Lemma tracked_start m : tracked m m ∅ ∅.
Proof. split; [set_solver|by intros ? ?; rewrite lookup_empty|done]. Qed.

(** The engine's bookkeeping for one consumed coin. *)
Definition touch (t : gmap CoinShare CoinUtxo * gset CoinShare) (entry : CoinShare * CoinUtxo)
    : gmap CoinShare CoinUtxo * gset CoinShare :=
  if bool_decide (entry.1 ∈ t.2) then (t.1, t.2 ∖ {[entry.1]})
  else (or_insert t.1 entry.1 entry.2, t.2).

Lemma tracked_consume m0 m t id c :
  tracked m0 m t.1 t.2 -> m !! id = Some c ->
  tracked m0 (delete id m) (touch t (id, c)).1 (touch t (id, c)).2.
Proof.
  destruct t as [cons crea]. cbn. intros [Hcr Hco Hs] Hid. unfold touch. cbn.
  case_bool_decide as Hin; cbn.
  - split.
    + intros i [Hi Hne]%elem_of_difference. rewrite lookup_delete_ne by set_solver. auto.
    + intros i ci Hi. destruct (Hco i ci Hi) as [H0 Hor]. split; [done|].
      destruct (decide (i = id)) as [->|]; [left; apply lookup_delete_eq|].
      rewrite lookup_delete_ne by done. destruct Hor; [by left|right; set_solver].
    + intros i Hi Hn. destruct (decide (i = id)) as [->|].
      * rewrite lookup_delete_eq. destruct (Hcr id Hin) as [_ [->|[? ?]]]; [done|congruence].
      * rewrite lookup_delete_ne by done. apply Hs; [set_solver|done].
  - assert (cons !! id = None) as Hn.
    { destruct (cons !! id) as [c'|] eqn:He; [|done]. destruct (Hco id c' He) as [_ [?|?]];
        [congruence|done]. }
    assert (m0 !! id = Some c) as H0 by (by rewrite <- Hs).
    split.
    + intros i Hi. assert (i <> id) by congruence. rewrite lookup_delete_ne by done.
      rewrite or_insert_lookup, decide_False by done. auto.
    + intros i ci. rewrite or_insert_lookup. case_decide as He; subst; rewrite ?Hn.
      * cbn. intros [= <-]. split; [done|]. left. apply lookup_delete_eq.
      * rewrite lookup_delete_ne by done. auto.
    + intros i Hi. rewrite or_insert_lookup. case_decide; [done|].
      rewrite lookup_delete_ne by done. auto.
Qed.

Lemma tracked_create m0 m cons crea id c :
  tracked m0 m cons crea -> m !! id = None ->
  tracked m0 (<[id := c]> m) cons ({[id]} ∪ crea).
Proof.
  intros [Hcr Hco Hs] Hid. split.
  - intros i Hi. destruct (decide (i = id)) as [->|].
    + rewrite lookup_insert_eq. split; [done|]. destruct (cons !! id) eqn:He; [by right|].
      left. rewrite <- Hs; [done| |done]. intros Hin%Hcr. destruct Hin as [[? ?] _]. congruence.
    + rewrite lookup_insert_ne by done. apply Hcr. set_solver.
  - intros i ci Hi. destruct (Hco i ci Hi) as [? Hor]. split; [done|].
    destruct (decide (i = id)) as [->|]; [right; set_solver|].
    rewrite lookup_insert_ne by done. destruct Hor; [by left|right; set_solver].
  - intros i Hi Hn. rewrite lookup_insert_ne by set_solver. apply Hs; [set_solver|done].
Qed.

(** ** Loops over coins *)

Lemma with_utxos_id s : with_utxos s (utxos s) = s.
Proof. by destruct s. Qed.

Lemma consume_loop_Ok inputs s s' :
  utxo_wf (utxos s) ->
  st_iter (fun '(share, _) => _ ← state_consume share; mret tt) inputs s = (s', Ok tt) ->
  (forall id c, (id, c) ∈ inputs -> coins (utxos s) !! id = Some c) ->
  exists u, s' = with_utxos s u /\ utxo_wf u /\
    total_value u = total_value (utxos s) - zsum ((fun e => cu_amount e.2) <$> inputs) /\
    forall m0 t, tracked m0 (coins (utxos s)) t.1 t.2 ->
      tracked m0 (coins u) (fold_left touch inputs t).1 (fold_left touch inputs t).2.
Proof.
  revert s. induction inputs as [|[id c] inputs IH]; intros s Hwf Hit Hl.
  { injection Hit as <-. exists (utxos s). rewrite with_utxos_id.
    split_and!; [done|done|cbn; lia|done]. }
  cbn [st_iter] in Hit. apply st_bind_Ok in Hit as ([] & s1 & H1 & Hit).
  apply st_bind_Ok in H1 as (c' & s2 & H2 & [= <-]). unfold state_consume in H2.
  destruct (consume_coin (utxos s) id) as [[c2 u1]|] eqn:Hu; [|done]. injection H2 as <- <-.
  pose proof (consume_coin_wf _ _ _ _ Hwf Hu) as Hwf1.
  apply consume_coin_Ok in Hu as (Hid & Hle & ->).
  assert (c2 = c) as -> by (specialize (Hl id c ltac:(left)); congruence).
  set (u1 := Build_UtxoSet _ _ _) in *.
  assert (st_iter (fun '(share, _) => _ ← state_consume share; mret tt) inputs
    (with_utxos s u1) = (s', Ok tt)) as Hit' by exact Hit. clear Hit.
  assert (forall i ci, (i, ci) ∈ inputs -> i <> id) as Hne.
  { intros i ci Hin ->. assert (exists c', coins (utxos (with_utxos s u1)) !! id = Some c') as [c' Hc'].
    { clear -Hit' Hin. revert Hit'. generalize (with_utxos s u1) as s0.
      induction inputs as [|[k v] inputs IH]; [by apply elem_of_nil in Hin|]. intros s0 Hit.
      cbn [st_iter] in Hit. apply st_bind_Ok in Hit as ([] & s1 & H1 & Hit).
      apply st_bind_Ok in H1 as (c' & s2 & H2 & [= <-]). unfold state_consume in H2.
      destruct (consume_coin (utxos s0) k) as [[c2 u2]|] eqn:Hu; [|done]. injection H2 as <- <-.
      apply consume_coin_Ok in Hu as (Hk & _ & ->).
      apply elem_of_cons in Hin as [[= <- <-]|Hin]; [by eexists|].
      destruct (IH Hin _ Hit) as [c0 H0]. cbn in H0. exists c0.
      by apply lookup_delete_Some in H0 as [_ ?]. }
    cbn in Hc'. by rewrite lookup_delete_eq in Hc'. }
  destruct (IH (with_utxos s u1) Hwf1 Hit') as (u & -> & Hwf' & Ht & Htr).
  { intros i ci Hin. cbn. rewrite lookup_delete_ne by (by apply not_eq_sym; eapply Hne).
    apply Hl. by right. }
  exists u. split_and!; [done|done|rewrite Ht, fmap_cons, zsum_cons; cbn; lia|].
  intros m0 t Hm. cbn [fold_left]. apply Htr. by apply tracked_consume.
Qed.

Lemma create_loop_Ok origin (outputs : list (N * (Owner * Z))) s s' :
  utxo_wf (utxos s) -> Forall (fun o => 0 <= o.2.2) outputs ->
  st_iter (fun '(index, (owner, amount)) => state_insert (origin index)
    {| cu_amount := amount; cu_owner := owner |}) outputs s = (s', Ok tt) ->
  exists u, s' = with_utxos s u /\ utxo_wf u /\
    total_value u = total_value (utxos s) + zsum ((fun o => o.2.2) <$> outputs) /\
    (forall id, id ∈ (fun o => origin o.1) <$> outputs -> is_Some (coins u !! id)) /\
    (coins (utxos s) ⊆ coins u) /\
    forall m0 cons crea, tracked m0 (coins (utxos s)) cons crea ->
      tracked m0 (coins u) cons (list_to_set ((fun o => origin o.1) <$> outputs) ∪ crea).
Proof.
  revert s. induction outputs as [|[i [o a]] outputs IH]; intros s Hwf Hpos Hit.
  { injection Hit as <-. exists (utxos s). rewrite with_utxos_id.
    split_and!; [done|done|cbn; lia|set_solver|done|].
    intros m0 cons crea Hm. cbn. by rewrite union_empty_l_L. }
  apply Forall_cons in Hpos as [Ha Hpos]. cbn in Ha.
  cbn [st_iter] in Hit. apply st_bind_Ok in Hit as ([] & s1 & H1 & Hit).
  unfold state_insert, st_update in H1.
  destruct (insert_coin (utxos s) (origin i) _) as [u1|] eqn:Hu; [|done].
  cbn in H1. injection H1 as <-.
  assert (utxo_wf u1) as Hwf1 by (eapply insert_coin_wf; [exact Hwf| |exact Hu]; exact Ha).
  apply insert_coin_Ok in Hu as (Hnz & Hid & Hlt & ->). set (u1 := Build_UtxoSet _ _ _) in *.
  destruct (IH (with_utxos s u1) Hwf1 Hpos Hit) as (u & -> & Hwf' & Ht & Hlive & Hsub & Htr).
  assert (coins (utxos s) ⊆ coins u) as Hsub'.
  { etransitivity; [|exact Hsub]. by apply insert_subseteq. }
  exists u. split_and!; [done|done|rewrite Ht, fmap_cons, zsum_cons; cbn; lia| |done|].
  - intros id [->|Hin]%elem_of_cons; [|by apply Hlive].
    eexists. eapply lookup_weaken; [apply lookup_insert_eq|exact Hsub].
  - intros m0 cons crea Hm.
    eapply (tracked_create m0 _ _ _ (origin i)) in Hm; [|done]. apply Htr in Hm.
    cbn. by rewrite <- union_assoc_L, (union_comm_L {[origin i]}), <- union_assoc_L,
      (union_comm_L crea).
Qed.

(** ** Selecting inputs *)

Lemma select_inputs_Ok {K E} bits (f : K -> result E Z) ov amount cs t0 l total :
  select_inputs bits f ov amount cs t0 = Ok (l, total) ->
  l ⊆ cs /\ exists values, Forall2 (fun k v => f k = Ok v) l values /\ total = t0 + zsum values.
Proof.
  revert t0 l total. induction cs as [|k cs IH]; intros t0 l total Hs; cbn [select_inputs] in Hs.
  { injection Hs as <- <-. split; [done|]. exists []. split; [constructor|]. cbn. lia. }
  apply bind_Ok in Hs as (v & Hv & Hs). apply bind_Ok in Hs as (t1 & Ht1 & Hs).
  apply ok_or_Ok, checked_add_Some in Ht1 as [-> _]. destruct (amount <=? t0 + v).
  - injection Hs as <- <-. split; [set_solver|]. exists [v].
    split; [by repeat constructor|]. cbn. lia.
  - apply bind_Ok in Hs as ([l' t'] & Hs & [= <- <-]).
    destruct (IH _ _ _ Hs) as (Hsub & values & Hf & ->). split; [set_solver|].
    exists (v :: values). split; [by constructor|]. rewrite zsum_cons. lia.
Qed.

Lemma collect_elem {E A B} (f : A -> result E B) l bs b :
  collect f l = Ok bs -> b ∈ bs -> exists a, a ∈ l /\ f a = Ok b.
Proof.
  revert bs. induction l as [|a l IH]; intros bs Hc Hb; cbn [collect] in Hc.
  { injection Hc as <-. by apply elem_of_nil in Hb. }
  apply bind_Ok in Hc as (b' & Hf & Hc). apply bind_Ok in Hc as (bs' & Hc & [= <-]).
  apply elem_of_cons in Hb as [->|Hb]; [exists a; split; [left|done]|].
  destruct (IH _ Hc Hb) as (a' & Ha & Hfa). exists a'. split; [by right|done].
Qed.

Lemma coin_candidates_Ok s actor sel cs id c :
  utxo_wf (utxos s) -> coin_candidates s actor sel = Ok cs -> (id, c) ∈ cs ->
  coins (utxos s) !! id = Some c /\ cu_owner c = actor.
Proof.
  intros Hwf Hcs Hin. destruct sel as [ids|]; cbn in Hcs.
  - apply guard_err_Ok in Hcs as [_ Hcs].
    destruct (collect_elem _ _ _ _ Hcs Hin) as (id' & _ & Hn). unfold named_coin in Hn.
    apply bind_Ok in Hn as (c' & Hc & Hn). apply guard_err_Ok in Hn as [Ho [= -> ->]].
    apply ok_or_Ok in Hc. rewrite negb_false_iff, bool_decide_eq_true in Ho. done.
  - injection Hcs as <-. apply elem_of_coins_by_owner; [done|].
    eapply elem_of_submseteq; [exact Hin|]. apply sublist_submseteq, sublist_take.
Qed.

(** What a settled coin transfer leaves: the value of the store is unchanged,
    only the actor's coins are consumed, and the journal tracks the change. *)
Record coin_settled (s s' : LedgerState) (actor : Owner) (j : CoinRollbackJournal) : Prop := {
  st_rest : s' = with_utxos s (utxos s');
  st_wf : utxo_wf (utxos s');
  st_value : total_value (utxos s') = total_value (utxos s);
  st_own : forall id c, (id, c) ∈ consumed_coins j ->
    coins (utxos s) !! id = Some c /\ cu_owner c = actor;
  st_live : forall id, id ∈ created_coin_ids j -> is_Some (coins (utxos s') !! id);
  st_tracked : forall m0 t, tracked m0 (coins (utxos s)) t.1 t.2 ->
    let t' := fold_left touch (consumed_coins j) t in
    tracked m0 (coins (utxos s')) t'.1 (list_to_set (created_coin_ids j) ∪ t'.2);
}.

Lemma zsum_values {A} (f : A -> Z) (l : list A) values :
  Forall2 (fun k v => (Ok (f k) : result StateError Z) = Ok v) l values ->
  zsum values = zsum (f <$> l).
Proof. induction 1 as [|k v l vs [= <-] _ IH]; [done|]. rewrite fmap_cons, !zsum_cons. lia. Qed.

Lemma settlement_outputs_value actor request change :
  zsum ((fun o => o.2.2) <$> settlement_outputs actor request change)
  = tq_amount request + change.
Proof.
  unfold settlement_outputs, Zeno.is_zero. destruct (Z.eqb_spec change 0); cbn; lia.
Qed.

Section coin.
Context `{Sha3}.

Lemma settle_coin_Ok actor request origin sel s s' j :
  utxo_wf (utxos s) -> (forall r, request = Some r -> 0 <= tq_amount r) ->
  settle_coin actor request origin sel s = (s', Ok j) -> coin_settled s s' actor j.
Proof.
  intros Hwf Hamt Hs. destruct request as [r|]; cbn [settle_coin] in Hs.
  2: { injection Hs as <- <-. split; try done; [by rewrite with_utxos_id|cbn; set_solver..|].
       intros m0 [tc tn]. cbn. by rewrite union_empty_l_L. }
  specialize (Hamt r eq_refl).
  apply st_bind_Ok in Hs as (cs & s1 & [-> Hcs]%st_check_Ok & Hs).
  apply st_bind_Ok in Hs as ([inputs total] & s1 & [-> Hsel]%st_lift_Ok & Hs).
  apply st_bind_Ok in Hs as (change & s1 & [-> Hch]%st_lift_Ok & Hs).
  apply ok_or_Ok, checked_sub_Some in Hch as [-> Hle].
  apply st_bind_Ok in Hs as ([] & s1 & Hcons & Hs).
  apply st_bind_Ok in Hs as ([] & s2 & Hcrea & [= <- <-]).
  apply select_inputs_Ok in Hsel as (Hsub & values & Hvals & ->). apply zsum_values in Hvals.
  pose proof (fun id c Hin => coin_candidates_Ok s actor sel cs id c Hwf Hcs (Hsub _ Hin)) as Hown.
  destruct (consume_loop_Ok inputs s s1) as (u1 & -> & Hwf1 & Hv1 & Htr1); [done|done| |].
  { intros id c Hin. by apply (Hown id c Hin). }
  eapply (create_loop_Ok (fun n => from_output origin (Z.of_N n))) in Hcrea
    as (u2 & -> & Hwf2 & Hv2 & Hlive & _ & Htr2); [|done|].
  2: { constructor; [done|]. case_match; constructor; [cbn; lia|constructor]. }
  rewrite settlement_outputs_value in Hv2. cbn [utxos with_utxos] in *.
  split; cbn [utxos with_utxos consumed_coins created_coin_ids]; try done.
  - lia.
  - intros m0 t Ht. by apply Htr2, Htr1.
Qed.
End coin.

(** ** Reasoning about staged computations *)

(** Every successful run from [s] meets [Q]; a panic implies [crash]. *)
Definition wp {S E A} (crash : Prop) (m : Staged S E A) (Q : A -> S -> Prop) (s : S) : Prop :=
  match m s with
  | Returned (Ok (a, s')) => Q a s'
  | Returned (Err _) => True
  | Panicked => crash
  end.

Section wp.
Context {S E : Type} (crash : Prop).

Lemma wp_bind {A B} (m : Staged S E A) (f : A -> Staged S E B) Q s :
  wp crash (m ≫= f) Q s <-> wp crash m (fun a s' => wp crash (f a) Q s') s.
Proof. unfold wp, mbind, staged_mbind. by destruct (m s) as [[[a s']|]|]. Qed.

Lemma wp_mono {A} (m : Staged S E A) (Q Q' : A -> S -> Prop) s :
  wp crash m Q s -> (forall a s', Q a s' -> Q' a s') -> wp crash m Q' s.
Proof. unfold wp. destruct (m s) as [[[a s']|]|]; auto. Qed.

Lemma wp_ret {A} (a : A) (Q : A -> S -> Prop) s : Q a s -> wp crash (mret a : Staged S E A) Q s.
Proof. done. Qed.

Lemma wp_check {A} (f : S -> result E A) (Q : A -> S -> Prop) s :
  (forall a, f s = Ok a -> Q a s) -> wp crash (stage_check f) Q s.
Proof. unfold wp, stage_check. destruct (f s) as [a|]; cbn; auto. Qed.

Lemma wp_lift {A} (r : result E A) (Q : A -> S -> Prop) s :
  (forall a, r = Ok a -> Q a s) -> wp crash (stage_lift r) Q s.
Proof. apply (wp_check (fun _ => r)). Qed.

Lemma wp_require c (e : E) (Q : unit -> S -> Prop) s :
  (c = true -> Q tt s) -> wp crash (stage_require c e) Q s.
Proof. intros HQ. apply wp_lift. intros []. destruct c; [auto|done]. Qed.

Lemma wp_fail {A} (e : E) (Q : A -> S -> Prop) s : wp crash (stage_fail e) Q s.
Proof. done. Qed.

Lemma wp_update (f : S -> result E S) (Q : unit -> S -> Prop) s :
  (forall s', f s = Ok s' -> Q tt s') -> wp crash (stage_update f) Q s.
Proof. unfold wp, stage_update. destruct (f s) as [a|]; cbn; auto. Qed.

Lemma wp_modify (f : S -> S) (Q : unit -> S -> Prop) s :
  Q tt (f s) -> wp crash (stage_modify (E := E) f) Q s.
Proof. done. Qed.

Lemma wp_unwrap {A} (f : S -> option A) (Q : A -> S -> Prop) s :
  (exists a, f s = Some a /\ Q a s) -> wp crash (stage_unwrap (E := E) f) Q s.
Proof. unfold wp, stage_unwrap. by intros (a & -> & HQ). Qed.

Lemma wp_st {A} (m : ST S E A) (Q : A -> S -> Prop) s :
  (forall a s', m s = (s', Ok a) -> Q a s') -> wp crash (stage_st m) Q s.
Proof. unfold wp, stage_st. destruct (m s) as [s' [a|]]; auto. Qed.

Lemma wp_map_err {E' A} (f : E -> E') (m : Staged S E A) Q s :
  wp crash m Q s -> wp crash (stage_map_err f m) Q s.
Proof. unfold wp, stage_map_err. by destruct (m s) as [[[a s']|]|]. Qed.
End wp.

(** ** Asset journals *)

(** The journal, if any, leads the tables of [after] back to those of
    [before]. *)
Definition undoes (j : option AssetJournal) (before after : AssetState) : Prop :=
  match j with
  | None => records after = records before /\ shares after = shares before
  | Some j => journal_unique j /\ restore (records after) (j_records j) = records before /\
              restore (shares after) (j_shares j) = shares before
  end.

Lemma merge_entries_unique {V} (l1 l2 : list (list Z * option V)) :
  NoDup (merge_entries l1 l2).*1.
Proof. unfold merge_entries. rewrite sorted_entries_keys. apply NoDup_sorted_ids. Qed.

Lemma undoes_merge p j a b c :
  undoes p a b -> undoes (Some j) b c -> undoes (merge_journal p j) a c.
Proof.
  intros Hp (Hu & Hr & Hs). destruct p as [p|]; cbn [undoes merge_journal] in *.
  - destruct Hp as ([Hur Hus] & Hpr & Hps), Hu as [Hjr Hjs].
    split; [split; apply merge_entries_unique|]. cbn [j_records j_shares merge]. rewrite !restore_merge by done.
    by rewrite Hr, Hs.
  - destruct Hp as [<- <-]. done.
Qed.

Section asset.
Context `{Sha3} `{RootTest}.
Context (application : AssetApplication).

(** Nothing applied yet, or the expected call applied once, as the tables see it. *)
Definition bound_tables (st : AssetState) (h : BoundAssetHost) : Prop :=
  undoes (b_journal h) st (b_state h).

Lemma bound_apply_tables st operation h :
  bound_tables st h -> bound_tables st (bound_apply operation h).1.
Proof.
  unfold bound_apply, bound_tables. intros Hh. destruct (_ || _) eqn:Hg; [done|].
  apply orb_false_iff in Hg as [_ Hj].
  rewrite bool_decide_eq_false, <- eq_None_not_Some in Hj. rewrite Hj in Hh. destruct Hh as [Hr Hs].
  destruct (apply operation _ _) as [st' [j|e]] eqn:Hap; cbn.
  - pose proof (apply_journal_unique _ _ _ _ _ Hap).
    apply apply_rollback_tables in Hap as [Hr' Hs'].
    rewrite records_rollback in Hr'. rewrite shares_rollback in Hs'. by rewrite Hr', Hs'.
  - rewrite Hj. cbn. by apply apply_Err_tables in Hap as [-> ->].
Qed.

Lemma run_bound_tables st p h :
  bound_tables st h -> bound_tables st (run_asset_program p h).1.
Proof.
  revert h. induction p as [r| |c k IH|c k IH|c k IH|c k IH]; intros h Hh; [done|done|..];
    cbn [run_asset_program host_register host_mint host_transfer host_burn_asset bound_asset_host];
    match goal with |- context [bound_apply ?op h] =>
      pose proof (bound_apply_tables st op h Hh) as Hh'; destruct (bound_apply op h) end;
    by apply IH.
Qed.

Lemma execute_asset_undoes call ctx st st' j :
  execute_asset application call ctx st = (st', Returned (Ok j)) -> undoes (Some j) st st'.
Proof.
  unfold execute_asset. intros He.
  pose proof (run_bound_tables st (application call)
    {| b_state := st; b_expected := call; b_context := ctx; b_journal := None |}) as Hinv.
  destruct (run_asset_program _ _) as [h [[]|]]; [|done..]. cbn [fst] in Hinv.
  specialize (Hinv (conj eq_refl eq_refl)). unfold bound_tables in Hinv.
  destruct (b_journal h) as [j'|]; [|done]. by injection He as <- <-.
Qed.

(** The installed application panics on some call. *)
Definition unwinds : Prop :=
  exists call ctx st, (execute_asset application call ctx st).2 = Panicked.

Definition with_assets (s : LedgerState) (a : AssetState) : LedgerState :=
  {| utxos := utxos s; coin_record := coin_record s; l_programs := l_programs s; l_assets := a |}.

Definition asset_settled (j : option AssetJournal) (s s' : LedgerState) : Prop :=
  s' = with_assets s (l_assets s') /\ undoes j (l_assets s) (l_assets s').

Lemma asset_settled_refl s : asset_settled None s s.
Proof. by destruct s. Qed.

Lemma asset_settled_merge p j a b c :
  asset_settled p a b -> asset_settled (Some j) b c -> asset_settled (merge_journal p j) a c.
Proof.
  intros [Hb Hp] [Hc Hj]. split; [|by eapply undoes_merge]. rewrite Hc, Hb. done.
Qed.

Lemma wp_stage_asset {E} (e : E) call ctx s :
  wp unwinds (stage_asset application e call ctx) (fun j s' => asset_settled (Some j) s s') s.
Proof.
  unfold wp, stage_asset. destruct (execute_asset _ _ _ _) as [a [[j|]|]] eqn:He; [|done|].
  - split; [done|]. by apply execute_asset_undoes in He.
  - exists call, ctx, (l_assets s). by rewrite He.
Qed.

Lemma wp_settle_register id request commitment s :
  wp unwinds (settle_register application id request commitment)
    (fun r s' => asset_settled r.2 s s') s.
Proof.
  unfold settle_register. apply wp_bind, wp_lift. intros md _. apply wp_bind, wp_check.
  intros existing _. destruct existing as [r|].
  - case_match; [apply wp_ret, asset_settled_refl|apply wp_fail].
  - apply wp_bind. eapply wp_mono; [apply wp_stage_asset|]. intros j s' Hj. by apply wp_ret.
Qed.

Lemma wp_settle_mint id request registered commitment s :
  wp unwinds (settle_mint application id request registered commitment)
    (fun j s' => asset_settled (Some j) s s') s.
Proof.
  unfold settle_mint. apply wp_bind, wp_lift. intros a _. apply wp_bind, wp_check.
  intros r _. apply wp_bind, wp_lift. intros n _. apply wp_stage_asset.
Qed.

Lemma wp_settle_asset_transfer id asset request origin s :
  wp unwinds (settle_asset_transfer application id asset request origin)
    (fun j s' => asset_settled (Some j) s s') s.
Proof.
  unfold settle_asset_transfer. apply wp_bind, wp_check. intros [inputs total] _.
  apply wp_bind, wp_lift. intros change _. apply wp_stage_asset.
Qed.

Lemma wp_settle_asset id result commitment origin s :
  wp unwinds (settle_asset application id result commitment origin)
    (fun j s' => asset_settled j s s') s.
Proof.
  unfold settle_asset. apply wp_bind.
  apply (wp_mono _ _ (fun r s1 => asset_settled r.2 s s1)).
  { destruct (asset_register result); [|apply wp_ret, asset_settled_refl].
    apply wp_bind. eapply wp_mono; [apply wp_settle_register|]. by intros [] s1. }
  intros [registered j1] s1 H1. cbn in H1. apply wp_bind.
  apply (wp_mono _ _ (fun j s2 => asset_settled j s s2)).
  { destruct (asset_mint result); [|by apply wp_ret]. apply wp_bind.
    eapply wp_mono; [apply wp_settle_mint|]. intros j s2 H2. apply wp_ret.
    by eapply asset_settled_merge. }
  intros j2 s2 H2. destruct (asset_transfer result) as [[asset request]|]; [|by apply wp_ret].
  apply wp_bind. eapply wp_mono; [apply wp_settle_asset_transfer|]. intros j s3 H3.
  apply wp_ret. by eapply asset_settled_merge.
Qed.

Lemma wp_settle_with_inputs id result commitment sel s :
  utxo_wf (utxos s) -> (forall r, coin_transfer result = Some r -> 0 <= tq_amount r) ->
  wp unwinds (settle_with_inputs application id result commitment sel)
    (fun js s' => exists s1, coin_settled s s1 (Program id) js.1 /\ asset_settled js.2 s1 s') s.
Proof.
  intros Hwf Hamt. unfold settle_with_inputs. apply wp_bind, wp_st. intros j s1 Hj.
  apply settle_coin_Ok in Hj; [|done|done]. apply wp_bind.
  eapply wp_mono; [apply wp_settle_asset|]. intros ja s2 H2. apply wp_ret. by exists s1.
Qed.
End asset.

(** ** Rolling back *)

(** The journal leads the tables of [after] back to those of [before]. *)
Record leads_back (before : LedgerState) (j : StateRollbackJournal) (after : LedgerState) : Prop := {
  lb_coin : exists coin, sj_coin j = Some coin /\ coin_undoable before coin after;
  lb_program : rollback_optional (sj_program j) (l_programs after) = (l_programs before, Ok tt);
  lb_asset : undoes (sj_extension j) (l_assets before) (l_assets after);
}.

Section rollback.
Context `{Sha3} `{RootTest}.

Definition rolled_assets (j : StateRollbackJournal) (a : AssetState) : AssetState :=
  match sj_extension j with Some x => rollback x a | None => a end.

(** Rolling back a state with the tables of [after] gives one with the tables
    of [before]. *)
Lemma rollback_state_leads_back before j after t :
  leads_back before j after -> same_tables t after ->
  rollback_state j t = ({| utxos := utxos before; coin_record := coin_record before;
    l_programs := l_programs before; l_assets := rolled_assets j (l_assets t) |}, Ok tt) /\
  records (rolled_assets j (l_assets t)) = records (l_assets before) /\
  shares (rolled_assets j (l_assets t)) = shares (l_assets before).
Proof.
  intros [(coin & Hc & Hcoin) Hp Ha] [Hu Hr Hpr Hre Hsh]. unfold rolled_assets. split.
  - unfold rollback_state, rollback_staged. rewrite Hc.
    assert (forall s1, utxos s1 = utxos t -> coin_record s1 = coin_record t ->
      l_programs s1 = l_programs before ->
      rollback_coin coin s1 = ({| utxos := utxos before; coin_record := coin_record before;
        l_programs := l_programs before; l_assets := l_assets s1 |}, Ok tt)) as Hroll.
    { intros s1 Hu1 Hr1 Hp1. rewrite (rollback_coin_undoes before).
      - unfold undone. by rewrite Hp1.
      - destruct Hcoin. split; rewrite ?Hu1, ?Hr1, ?Hu, ?Hr; done. }
    rewrite <- Hpr in Hp. unfold mbind, st_mbind.
    destruct (sj_program j) as [p|]; cbn [rollback_optional] in Hp;
      [rewrite Hp|injection Hp as Hp];
      (destruct (sj_extension j); cbn -[rollback_coin rollback]; by rewrite Hroll).
  - destruct (sj_extension j) as [x|]; cbn in Ha.
    + destruct Ha as (_ & Hxr & Hxs). by rewrite records_rollback, shares_rollback, Hre, Hsh.
    + destruct Ha as [<- <-]. done.
Qed.

(** The restored asset state keeps a valid supply summary. *)
Lemma rolled_assets_typed `{!RootTestSpec} before j after t :
  leads_back before j after -> same_tables t after -> asset_typed (l_assets t) ->
  shares_typed (shares (l_assets before)) -> asset_typed (rolled_assets j (l_assets t)).
Proof.
  intros Hl Ht [Hty Hslot] Hb.
  destruct (rollback_state_leads_back before j after t Hl Ht) as (_ & _ & Hs).
  split; [by rewrite Hs|]. destruct Hl as [_ _ Ha]. unfold rolled_assets in *.
  destruct (sj_extension j) as [x|]; [|done]. destruct Ha as ([_ Hnd] & _).
  apply rollback_slot_ok; [done|done|by rewrite Hs].
Qed.
End rollback.
