(* ===== verification/EngineFacts.v ===== *)
(** * What the application interpreter maintains

    The invariant of [Engine] between instructions, and that every routine of
    the engine keeps it, never panics and never gains fuel: the coins consumed
    and created, the registry slots written and the asset journal always lead
    back to the state the invocation started from. *)

From S2P Require Import Prelude Codec Monetary Index Coin Vm Registry RegistryWire Assets AssetFacts AssetProps.
From S2P Require Import State AssetHost Settlement Engine SettleFacts.
#[local] Open Scope Z_scope.

(** ** Scalar code *)

Lemma run_cost_nonneg gas m : 0 <= run_cost gas m.
Proof.
  revert m. induction gas as [|gas IH]; intros m; cbn; [lia|]. destruct (code_rest m) as [|op rest]; [lia|].
  assert (0 <= instruction_cost op) by (unfold instruction_cost; repeat case_match; done).
  destruct (step m) as [[m'|]|]; [specialize (IH m'); lia|lia..].
Qed.

(** Requests are read from bytes, so they have the width of their fields. *)
Lemma dec_uint_fits n bytes x rest :
  dec_uint n bytes = Some (x, rest) -> bytes_wf bytes -> fits (8 * Z.of_nat n) x /\ bytes_wf rest.
Proof.
  intros Hd Hwf. apply dec_uint_canonical in Hd as (_ & Hx & Hr); [|done]. split; [|done].
  unfold fits. by rewrite Z.pow_mul_r by lia.
Qed.

Lemma dec_raw_wf n bytes x rest :
  dec_raw n bytes = Some (x, rest) -> bytes_wf bytes -> bytes_wf rest.
Proof. intros Hd Hwf. by apply dec_raw_canonical in Hd as (_ & _ & _ & ?). Qed.

Lemma dec_owner_typed bytes o rest :
  dec_owner bytes = Some (o, rest) -> bytes_wf bytes -> owner_wf o /\ bytes_wf rest.
Proof.
  unfold dec_owner. intros Hd Hwf. apply bind_Some in Hd as ([t b] & Ht & Hd).
  apply dec_uint_fits in Ht as [_ Hb]; [|done]. case_match; [|done].
  apply bind_Some in Hd as ([id b'] & Hid & [= <- <-]).
  apply dec_raw_canonical in Hid as (_ & ? & ? & ?); [|done]. done.
Qed.

Lemma dec_transfer_typed bytes q rest :
  dec_transfer_request bytes = Some (q, rest) -> bytes_wf bytes ->
  fits 64 (tq_amount q) /\ bytes_wf rest.
Proof.
  unfold dec_transfer_request. intros Hd Hwf. apply bind_Some in Hd as ([o b] & Ho & Hd).
  apply dec_owner_typed in Ho as [_ Hb]; [|done]. apply bind_Some in Hd as ([n b'] & Hn & [= <- <-]).
  by apply (dec_uint_fits 8) in Hn.
Qed.

Lemma decode_register_typed bytes q rest :
  decode_register_request bytes = Ok (q, rest) -> bytes_wf bytes ->
  fits 128 (rq_initial_mint q) /\ bytes_wf rest.
Proof.
  intros Hd Hwf. unfold decode_register_request in Hd. apply bind_Ok in Hd as ([l b] & _ & Hd).
  apply guard_err_Ok in Hd as [_ Hd]. apply bind_Ok in Hd as ([q' b'] & Hq%ok_or_Ok & Hd).
  apply bind_Ok in Hd as ([] & _ & Hd). apply guard_err_Ok in Hd as [_ [= <- <-]].
  unfold dec_register_request, dec_string in Hq. apply bind_Some in Hq as ([nm b1] & Hn & Hq).
  apply bind_Some in Hn as ([ln b0] & Hn0 & Hn). apply dec_uint_fits in Hn0 as [_ Hb0]; [|done].
  apply bind_Some in Hn as ([s b0'] & Hs & Hn). apply dec_raw_wf in Hs; [|done].
  case_match; [|done]. injection Hn as <- <-.
  apply bind_Some in Hq as ([mx b2] & Hmx & Hq). apply dec_uint_fits in Hmx as [_ Hb2]; [|done].
  apply bind_Some in Hq as ([im b3] & Him & Hq). apply (dec_uint_fits 16) in Him as [Him Hb3]; [|done].
  apply bind_Some in Hq as ([nn b4] & Hnn & Hq). apply dec_uint_fits in Hnn as [_ Hb4]; [|done].
  apply bind_Some in Hq as ([sk b5] & Hsk & [= <- <-]). split; [done|].
  unfold dec_bool in Hsk. apply bind_Some in Hsk as ([t b6] & Ht & Hsk).
  apply dec_uint_fits in Ht as [_ Hb6]; [|done]. by repeat case_match; simplify_eq.
Qed.

Lemma dec_mint_typed bytes q rest :
  dec_mint_request bytes = Some (q, rest) -> bytes_wf bytes ->
  fits 128 (mq_amount q) /\ bytes_wf rest.
Proof.
  unfold dec_mint_request. intros Hd Hwf. apply bind_Some in Hd as ([t b] & Ht & Hd).
  assert (bytes_wf b) as Hb.
  { unfold dec_mint_target in Ht. apply bind_Some in Ht as ([tag b0] & H0 & Ht).
    apply dec_uint_fits in H0 as [_ H0]; [|done]. case_match.
    - apply bind_Some in Ht as ([a b1] & H1 & [= <- <-]). by apply dec_raw_wf in H1.
    - case_match; [|done]. by injection Ht as <- <-. }
  apply bind_Some in Hd as ([o b1] & Ho & Hd). apply dec_owner_typed in Ho as [_ Hb1]; [|done].
  apply bind_Some in Hd as ([n b2] & Hn & [= <- <-]). by apply (dec_uint_fits 16) in Hn.
Qed.

Lemma i64_val_typed bytes : bytes_wf bytes -> length bytes = 8%nat -> i64 (i64_val bytes).
Proof.
  intros Hwf Hl. pose proof (le_val_bounds bytes Hwf) as Hb. rewrite Hl in Hb.
  unfold i64_val, i64. case_match; lia.
Qed.

(** What a run of scalar code keeps: its proposals have their widths, and the
    stack and the state slot satisfy [P], which every 64-bit integer does. *)
Section machine.
Context (P : Z -> Prop) (HP : forall n, i64 n -> P n).

Record machine_typed (m : Machine) : Prop := {
  mt_rest : bytes_wf (code_rest m);
  mt_stack : Forall P (stack m);
  mt_state : P (state_value m);
  mt_effect : forall n, m_effect m = Some (ProgramState n) -> P n;
  mt_coin : forall q, m_coin m = Some q -> fits 64 (tq_amount q);
  mt_asset : forall a q, m_asset m = Some (a, q) -> fits 64 (tq_amount q);
  mt_register : forall q, m_register m = Some q -> fits 128 (rq_initial_mint q);
  mt_mint : forall q, m_mint m = Some q -> fits 128 (mq_amount q);
}.

Lemma step_typed m m' : machine_typed m -> step m = Some (Continue m') -> machine_typed m'.
Proof using HP.
  intros [Hr Hst Hs He Hc Ha Hg Hm] Hstep. unfold step in Hstep.
  destruct (code_rest m) as [|opcode bytes] eqn:Hcode; [done|]. apply Forall_cons in Hr as [_ Hb].
  split_opcode Hstep.
  - injection Hstep as <-. by split.
  - case_match eqn:Hl; [done|]. injection Hstep as <-. apply Nat.ltb_ge in Hl.
    split; cbn; try done; [by apply Forall_drop|]. constructor; [|done].
    apply HP, i64_val_typed; [by apply Forall_take|]. rewrite length_take. lia.
  - destruct (stack m) as [|r [|l stk]]; [done..|]. unfold i64_checked_add in Hstep.
    destruct (_ && _) eqn:Hadd; [|done]. injection Hstep as <-.
    apply Forall_cons in Hst as [_ Hst]. apply Forall_cons in Hst as [_ Hst].
    split; cbn; try done. constructor; [apply HP; unfold i64; lia|done].
  - injection Hstep as <-. split; cbn; try done. by constructor.
  - destruct (stack m) as [|v stk]; [done|]. injection Hstep as <-.
    apply Forall_cons in Hst as [Hv Hst]. split; cbn; try done. by intros n [= ->].
  - apply bind_Some in Hstep as ([q b] & Hq & [= <-]). apply dec_transfer_typed in Hq as [Hq ?]; [|done].
    split; cbn; try done. by intros ? [= <-].
  - apply bind_Some in Hstep as ([a b] & Hraw & Hstep). apply dec_raw_wf in Hraw; [|done].
    apply bind_Some in Hstep as ([q b'] & Hq & [= <-]). apply dec_transfer_typed in Hq as [Hq ?]; [|done].
    split; cbn; try done. by intros ? ? [= <- <-].
  - apply bind_Some in Hstep as ([q b] & Hq & [= <-]).
    destruct (decode_register_request bytes) as [[q' b']|] eqn:Hd; [|done]. injection Hq as -> ->.
    apply decode_register_typed in Hd as [Hq ?]; [|done].
    split; cbn; try done. by intros ? [= <-].
  - apply bind_Some in Hstep as ([q b] & Hq & [= <-]). apply dec_mint_typed in Hq as [Hq ?]; [|done].
    split; cbn; try done. by intros ? [= <-].
  - by case_match.
  - done.
Qed.

Lemma run_typed gas m m' r : machine_typed m -> run gas m = Some (m', r) -> machine_typed m'.
Proof using HP.
  revert m. induction gas as [|gas IH]; intros m Hm Hr; [done|]. cbn [run] in Hr.
  apply bind_Some in Hr as ([m1|r1] & Hs & Hr); [|by injection Hr as <- <-].
  apply (IH m1); [by eapply step_typed|done].
Qed.

Lemma machine_start_typed code st : bytes_wf code -> P st -> machine_typed (machine_start code st).
Proof. intros Hc Hst. split; cbn; try done. by apply Forall_drop. Qed.
End machine.

(** Running registered scalar code returns; its charge and the amount it
    proposes to pay are unsigned. *)
Lemma execute_code_total code st limit :
  bytes_wf code -> exists r, execute_code_with_state code st limit = Some r /\
    forall out, r = Ok out -> 0 <= fuel_used out <= limit /\
      forall q, coin_transfer out = Some q -> 0 <= tq_amount q.
Proof.
  intros Hwf. unfold execute_code_with_state.
  destruct (is_application code) eqn:Ha; [by eexists|]. unfold validate_code. rewrite Ha.
  destruct (validate_scalar code) as [v|e] eqn:Hs; [|by eexists].
  destruct (checked_add 64 _ _) as [used|] eqn:Hadd; [|by eexists].
  apply checked_add_Some in Hadd as [-> _]. case_match eqn:Hlim; [by eexists|].
  destruct (run_validated code v st Hwf Hs) as (m & r & Hrun & _ & Hr). rewrite Hrun.
  eexists. split; [done|]. intros out Ho. destruct r as [w|]; [|done]. injection Ho as <-. cbn.
  pose proof (run_cost_nonneg (length code) (machine_start code st)).
  assert (0 <= memory_pages v).
  { unfold validate_scalar in Hs. inv_ok. by apply le_val_nonneg, Forall_take, Forall_drop. }
  split; [unfold MEMORY_PAGE_COST in *; lia|]. intros q Hq.
  apply (run_typed (fun _ => True)) in Hrun; [|done|by apply machine_start_typed].
  by eapply fits_pos, (mt_coin _ _ Hrun).
Qed.

(** Proposals of scalar code and of single instructions. *)
Record result_typed (r : ExecutionResult) : Prop := {
  rs_coin : forall q, coin_transfer r = Some q -> fits 64 (tq_amount q);
  rs_asset : forall a q, asset_transfer r = Some (a, q) -> fits 128 (tq_amount q);
  rs_register : forall q, asset_register r = Some q -> fits 128 (rq_initial_mint q);
  rs_mint : forall q, asset_mint r = Some q -> fits 128 (mq_amount q);
  rs_state : forall n, proposed_effect r = Some (ProgramState n) -> i64 n;
}.

Lemma execute_code_typed code st limit out :
  bytes_wf code -> i64 st -> execute_code_with_state code st limit = Some (Ok out) ->
  result_typed out.
Proof.
  intros Hwf Hst. unfold execute_code_with_state. case_match; [done|].
  destruct (validate_code code); [|done]. destruct (checked_add 64 _ _); [|done].
  case_match; [done|]. intros He. apply bind_Some in He as ([m r] & Hrun & He).
  injection He as He. unfold finish in He. apply bind_Ok in He as (v & -> & [= <-]).
  apply (run_typed i64) in Hrun as []; [|done|by apply machine_start_typed].
  split; cbn; try done. intros b q Hq. specialize (mt_asset0 b q Hq). unfold fits in *. lia.
Qed.

(** ** The invariant *)

(** The code of a registered program is bytes the deployment validated. *)
Definition deployed_code (r : ProgramRegistry) : Prop :=
  forall id record, programs r !! id = Some record ->
    bytes_wf (code record) /\ exists v, validate_code (code record) = Ok v.

Lemma validated_version c v : validate_code c = Ok v -> is_Some (c !! 4%nat).
Proof.
  unfold validate_code, is_application. destruct (c !! 4%nat) eqn:He; [done|].
  rewrite bool_decide_eq_false_2 by done. unfold validate_scalar. intros. inv_ok.
  apply lookup_ge_None in He. rename select ((_ <? _)%nat = false) into Hl.
  apply Nat.ltb_ge in Hl. unfold HEADER_LEN in Hl. lia.
Qed.

(** The owner of a coin is a registered program. *)
Definition program_coin (r : ProgramRegistry) (c : CoinUtxo) : Prop :=
  exists p, cu_owner c = Program p /\ is_Some (programs r !! p).

(** A registered program of application code, the only kind with storage. *)
Definition storing (s0 : LedgerState) (id : ProgramId) : Prop :=
  exists r, programs (l_programs s0) !! id = Some r /\ is_application (code r) = true.

Lemma storing_registered s0 id : storing s0 id -> is_Some (programs (l_programs s0) !! id).
Proof. intros (r & -> & _). by eexists. Qed.

Record engine_inv (s0 : LedgerState) (e : Engine) : Prop := {
  ei_wf : utxo_wf (utxos (e_state e));
  ei_value : total_value (utxos (e_state e)) = total_value (utxos s0);
  ei_record : coin_record (e_state e) = coin_record s0;
  ei_tracked : tracked (coins (utxos s0)) (coins (utxos (e_state e)))
    (e_consumed e) (e_created e);
  ei_own : forall id c, e_consumed e !! id = Some c -> program_coin (l_programs s0) c;
  ei_writes : journaled (l_programs s0) (w_states (e_writes e)) (w_storage (e_writes e))
    (l_programs (e_state e));
  ei_asset : undoes (e_asset e) (l_assets s0) (l_assets (e_state e));
  ei_slots : forall id key v, w_storage (e_writes e) !! (id, key) = Some v -> storing s0 id;
  ei_fuel : 0 <= e_fuel e;
}.

Lemma engine_inv_start s : utxo_wf (utxos s) -> engine_inv s (engine_start s).
Proof.
  intros Hwf. pose proof (tracked_start (coins (utxos s))).
  split; cbn; try done. apply journaled_refl.
Qed.

(** What the invariant depends on. *)
Record same_core (e e' : Engine) : Prop := {
  sc_state : e_state e' = e_state e;
  sc_consumed : e_consumed e' = e_consumed e;
  sc_created : e_created e' = e_created e;
  sc_asset : e_asset e' = e_asset e;
  sc_writes : e_writes e' = e_writes e;
}.

Lemma engine_inv_same s0 e e' :
  engine_inv s0 e -> same_core e e' -> 0 <= e_fuel e' -> engine_inv s0 e'.
Proof.
  intros [] [H1 H2 H3 H4 H5] Hf. split; rewrite ?H1, ?H2, ?H3, ?H4, ?H5; done.
Qed.

(** A registered program stays registered, with the code it was deployed with. *)
Lemma journaled_code r0 st sl r id :
  journaled r0 st sl r ->
  match programs r0 !! id, programs r !! id with
  | Some a, Some b => code a = code b
  | None, None => True
  | _, _ => False
  end.
Proof.
  intros [_ Hr _ _]. specialize (Hr id). repeat case_match; try done.
  destruct Hr as [<- _]. done.
Qed.

Lemma inv_registered s0 e id :
  engine_inv s0 e ->
  is_Some (programs (l_programs s0) !! id) <-> is_Some (programs (l_programs (e_state e)) !! id).
Proof.
  intros [_ _ _ _ _ Hw _ _ _]. pose proof (journaled_code _ _ _ _ id Hw).
  repeat case_match; done.
Qed.

Lemma inv_deployed s0 e :
  engine_inv s0 e -> deployed_code (l_programs s0) -> deployed_code (l_programs (e_state e)).
Proof.
  intros [_ _ _ _ _ Hw _ _ _] Hd id b Hb. pose proof (journaled_code _ _ _ _ id Hw) as Hc.
  rewrite Hb in Hc. case_match eqn:Ha; [|done]. apply Hd in Ha. by rewrite <- Hc.
Qed.

(** ** Safe computations *)

(** From one engine to a later one: the invariant holds, no fuel is gained and
    the call stack is the same. *)
Record evolves (s0 : LedgerState) (e e' : Engine) : Prop := {
  ev_inv : engine_inv s0 e';
  ev_fuel : e_fuel e' <= e_fuel e;
  ev_active : e_active e' = e_active e;
}.

Lemma evolves_refl s0 e : engine_inv s0 e -> evolves s0 e e.
Proof. by split. Qed.

Lemma evolves_trans s0 e1 e2 e3 : evolves s0 e1 e2 -> evolves s0 e2 e3 -> evolves s0 e1 e3.
Proof. intros [] []. split; [done|lia|congruence]. Qed.

Lemma evolves_same s0 e e' :
  engine_inv s0 e -> same_core e e' -> 0 <= e_fuel e' <= e_fuel e -> e_active e' = e_active e ->
  evolves s0 e e'.
Proof. intros. split; [eapply engine_inv_same; [done..|lia]|lia|done]. Qed.

Section safe.
Context (crash : Prop) (s0 : LedgerState) (active : list ProgramId).

Definition safe {A} (m : VMM A) : Prop :=
  forall e, engine_inv s0 e -> e_active e = active ->
    wp crash m (fun _ e' => evolves s0 e e') e.

Lemma safe_bind {A B} (m : VMM A) (f : A -> VMM B) :
  safe m -> (forall a, safe (f a)) -> safe (m ≫= f).
Proof.
  intros Hm Hf e He Hact. apply wp_bind. eapply wp_mono; [by apply Hm|]. intros a e1 H1.
  eapply wp_mono; [apply Hf; [apply (ev_inv _ _ _ H1)|by rewrite (ev_active _ _ _ H1)]|].
  intros b e2 H2.
  exact (evolves_trans _ _ _ _ H1 H2).
Qed.

Lemma safe_ret {A} (a : A) : safe (mret a).
Proof. intros e He Hact. apply wp_ret. by apply evolves_refl. Qed.

Lemma safe_check_bind {A B} (f : Engine -> result ExecutionError A) (k : A -> VMM B) :
  (forall a, (exists e, engine_inv s0 e /\ f e = Ok a) -> safe (k a)) ->
  safe ((stage_check f : VMM A) ≫= k).
Proof. intros Hk e He Hact. apply wp_bind, wp_check. intros a Ha. apply Hk; [by exists e|done..]. Qed.

Lemma safe_lift_bind {A B} (r : result ExecutionError A) (k : A -> VMM B) :
  (forall a, r = Ok a -> safe (k a)) -> safe ((stage_lift r : VMM A) ≫= k).
Proof. intros Hk e He Hact. apply wp_bind, wp_lift. intros a Ha. by apply Hk. Qed.

Lemma safe_require_bind {B} c err (k : unit -> VMM B) :
  (c = true -> safe (k tt)) -> safe ((stage_require c err : VMM unit) ≫= k).
Proof. intros Hk e He Hact. apply wp_bind, wp_require. intros Hc. by apply Hk. Qed.

Lemma safe_lift {A} (r : result ExecutionError A) : safe (stage_lift r).
Proof. intros e He Hact. apply wp_lift. intros a _. by apply evolves_refl. Qed.

Lemma safe_check {A} (f : Engine -> result ExecutionError A) : safe (stage_check f).
Proof. intros e He Hact. apply wp_check. intros a _. by apply evolves_refl. Qed.

Lemma safe_charge n : 0 <= n -> safe (charge n).
Proof.
  intros Hn e He Hact. apply wp_update. intros e' Hu. apply bind_Ok in Hu as (f & Hf & [= <-]).
  apply ok_or_Ok, checked_sub_Some in Hf as [-> Hle].
  pose proof (ei_fuel _ _ He). apply evolves_same; [done|by split|cbn; lia|done].
Qed.

Lemma safe_action : safe action.
Proof.
  apply safe_bind; [|intros; apply safe_check]. intros e He Hact. apply wp_modify.
  pose proof (ei_fuel _ _ He). apply evolves_same; [done|by split|cbn; lia|done].
Qed.

Lemma safe_ensure_accounts id : safe (ensure_accounts id).
Proof.
  intros e He Hact. apply wp_update. intros e' Hu. case_bool_decide.
  { injection Hu as <-. by apply evolves_refl. }
  apply bind_Ok in Hu as (cs & _ & Hu). apply bind_Ok in Hu as (sh & _ & [= <-]).
  pose proof (ei_fuel _ _ He). apply evolves_same; [done|by split|cbn; lia|done].
Qed.

(** The record of a registered program is there to be unwrapped. *)
Lemma safe_own_record {B} id (k : ProgramRecord -> VMM B) :
  is_Some (programs (l_programs s0) !! id) -> (forall r, safe (k r)) ->
  safe (own_record id ≫= k).
Proof.
  intros Hid Hk e He Hact. apply wp_bind, wp_unwrap. apply (inv_registered _ e) in Hid as [r Hr]; [|done].
  exists r. split; [done|]. by apply Hk.
Qed.

(** Only application code writes storage. *)
Definition write_allowed (w : VmWrite) : Prop :=
  match w with WriteState _ _ => True | WriteStorage id _ _ => storing s0 id end.

Lemma vm_write_slots r wr w r' wr' id key v :
  vm_write (r, wr) w = Some (r', wr') -> w_storage wr' !! (id, key) = Some v ->
  is_Some (w_storage wr !! (id, key)) \/ exists key' v', w = WriteStorage id key' v'.
Proof.
  intros Hw Hv. destruct w as [id' x|id' key' x]; cbn in Hw.
  - inv_pairs. cbn in Hv. left. by eexists.
  - inv_ok. destruct (set_storage _ _ _ _); inv_ok. cbn in Hv. rewrite or_insert_lookup in Hv.
    case_decide as Hd; [injection Hd as -> ->; right; eauto|left; by eexists].
Qed.

Lemma set_registry_evolves e w r wr :
  engine_inv s0 e -> write_allowed w -> vm_write (l_programs (e_state e), e_writes e) w = Some (r, wr) ->
  evolves s0 e (set_registry r wr e).
Proof.
  intros He Ha Hw. split; cbn; [|lia|done]. destruct He. split; cbn; try done.
  - by eapply journaled_write.
  - intros id key v Hv. destruct (vm_write_slots _ _ _ _ _ _ _ _ Hw Hv) as [[v' ?]|(k & v' & ->)];
      [by eapply ei_slots0|done].
Qed.

Lemma vm_write_registered r w : is_Some (programs r.1 !! match w with
    | WriteState id _ | WriteStorage id _ _ => id end) -> is_Some (vm_write r w).
Proof.
  destruct r as [r wr], w as [id v|id key v]; cbn; intros [b Hb]; rewrite ?Hb; cbn.
  - unfold set_state. rewrite Hb. by eexists.
  - unfold set_storage. rewrite Hb. cbn. case_decide; cbn; by eexists.
Qed.

Lemma safe_own_write w :
  is_Some (programs (l_programs s0) !! match w with
    | WriteState id _ | WriteStorage id _ _ => id end) -> write_allowed w -> safe (own_write w).
Proof.
  intros Hid Ha e He Hact. apply wp_bind, wp_unwrap. apply (inv_registered _ e) in Hid; [|done].
  destruct (vm_write_registered (l_programs (e_state e), e_writes e) w Hid) as [[r wr] Hw].
  exists (r, wr). split; [done|]. apply wp_modify. by eapply set_registry_evolves.
Qed.
End safe.

(** ** Monetary effects *)

(** What the account bookkeeping leaves alone. *)
Record same_run (e e' : Engine) : Prop := {
  sr_state : e_state e' = e_state e;
  sr_fuel : e_fuel e' = e_fuel e;
  sr_active : e_active e' = e_active e;
  sr_asset : e_asset e' = e_asset e;
  sr_writes : e_writes e' = e_writes e;
}.

Lemma same_run_trans e1 e2 e3 : same_run e1 e2 -> same_run e2 e3 -> same_run e1 e3.
Proof. intros [] []. split; congruence. Qed.

Definition touched (e : Engine) : gmap CoinShare CoinUtxo * gset CoinShare :=
  (e_consumed e, e_created e).

Lemma absorb_consumed_Ok e entry e' :
  absorb_consumed e entry = Ok e' -> same_run e e' /\ touched e' = touch (touched e) entry.
Proof.
  destruct entry as [id c]. unfold absorb_consumed, touch, touched. intros Ha.
  apply bind_Ok in Ha as (cs & _ & Ha). cbn in *.
  case_bool_decide; injection Ha as <-; split; done.
Qed.

Lemma absorb_consumed_all l e e' :
  try_fold absorb_consumed l e = Ok e' ->
  same_run e e' /\ touched e' = fold_left touch l (touched e).
Proof.
  revert e. induction l as [|x l IH]; intros e Hf; cbn [try_fold fold_left] in *.
  { by injection Hf as <-. }
  apply bind_Ok in Hf as (e1 & [Hs Ht]%absorb_consumed_Ok & [Hs' Ht']%IH).
  split; [by eapply same_run_trans|]. by rewrite Ht', Ht.
Qed.

Lemma absorb_created_all l e e' :
  try_fold absorb_created l e = Ok e' ->
  same_run e e' /\ touched e' = ((touched e).1, list_to_set l ∪ (touched e).2).
Proof.
  revert e. induction l as [|x l IH]; intros e Hf; cbn [try_fold list_to_set] in *.
  { injection Hf as <-. split; [done|]. unfold touched. cbn. by rewrite union_empty_l_L. }
  apply bind_Ok in Hf as (e1 & Hx & [Hs Ht]%IH). unfold absorb_created in Hx.
  apply bind_Ok in Hx as (v & _ & Hx). apply bind_Ok in Hx as (cs & _ & [= <-]).
  split; [by destruct Hs; split|]. rewrite Ht. unfold touched. cbn.
  by rewrite (union_comm_L {[x]} (list_to_set l)), <- union_assoc_L.
Qed.

Lemma fold_touch_all (P : CoinUtxo -> Prop) l t :
  (forall id c, (id, c) ∈ l -> P c) -> (forall id c, t.1 !! id = Some c -> P c) ->
  forall id c, (fold_left touch l t).1 !! id = Some c -> P c.
Proof.
  revert t. induction l as [|[k v] l IH]; intros t Hl Ht; [done|]. cbn [fold_left].
  apply IH; [intros id c Hin; apply (Hl id); by right|]. intros id c. unfold touch. cbn.
  case_bool_decide; cbn; [apply Ht|]. rewrite or_insert_lookup. case_decide; [|apply Ht].
  destruct (t.1 !! k) eqn:Hk; intros [= <-]; [by eapply Ht|]. apply (Hl k). left.
Qed.

Section effects.
Context `{Sha3} `{RootTest}.
Context (application : AssetApplication) (signer : ProgramId) (height : Z) (invocation : Hash).
Context (s0 : LedgerState) (active : list ProgramId).

#[local] Notation safe := (safe (unwinds application) s0 active).

Lemma merge_asset_evolves j e a :
  engine_inv s0 e -> undoes (Some j) (l_assets (e_state e)) a ->
  wp (unwinds application) (merge_asset j) (fun _ e' => evolves s0 e e')
    (put_state (with_assets (e_state e) a) e).
Proof.
  intros He Hj. apply wp_update. intros e' Hu. apply bind_Ok in Hu as (m & _ & [= <-]).
  split; cbn; [|lia|done]. destruct He. split; cbn; try done. by eapply undoes_merge.
Qed.

(** An asset call paid for by the program, recorded in the running journal. *)
Lemma safe_asset_call error call ctx :
  safe (journal ← on_state (stage_asset application error call ctx); merge_asset journal).
Proof.
  intros e He Hact. apply wp_bind. unfold wp at 1, on_state.
  pose proof (wp_stage_asset application error call ctx (e_state e)) as Hw. unfold wp in Hw.
  destruct (stage_asset _ _ _ _ _) as [[[j s]|]|]; [|done|done].
  destruct Hw as [-> Hj]. by apply merge_asset_evolves.
Qed.

Lemma settled_evolves e s1 s2 id cj aj e1 e2 :
  engine_inv s0 e -> is_Some (programs (l_programs s0) !! id) ->
  coin_settled (e_state e) s1 (Program id) cj -> asset_settled aj s1 s2 ->
  try_fold absorb_consumed (consumed_coins cj) (put_state s2 e) = Ok e1 ->
  try_fold absorb_created (created_coin_ids cj) e1 = Ok e2 ->
  wp (unwinds application)
    (match aj with Some journal => merge_asset journal | None => mret tt end)
    (fun _ e' => evolves s0 e e') e2.
Proof.
  intros He Hid [Hs1 Hwf Hv Hown Hlive Htr] [Hs2 Hj] [Hr1 Ht1]%absorb_consumed_all
    [Hr2 Ht2]%absorb_created_all.
  pose proof (same_run_trans _ _ _ Hr1 Hr2) as [Hst Hfu Hac Has Hwr].
  rewrite Ht1 in Ht2. injection Ht2 as Hcons Hcrea. cbn in *.
  assert (forall e', evolves s0 e e' <-> engine_inv s0 e' /\ e_fuel e' <= e_fuel e /\
    e_active e' = e_active e) as Hev by (intros; split; [by intros []|by intros (? & ? & ?)]).
  assert (forall e', e_state e' = s2 -> e_fuel e' = e_fuel e -> e_active e' = e_active e ->
    e_writes e' = e_writes e -> e_consumed e' = e_consumed e2 -> e_created e' = e_created e2 ->
    undoes (e_asset e') (l_assets s0) (l_assets s2) -> evolves s0 e e') as Hgoal.
  { intros e' H1 H2 H3 H4 H5 H6 H7. apply Hev. split; [|split; [lia|done]].
    destruct He. split; rewrite ?H1, ?H2, ?H4, ?H5, ?H6; try done.
    - by rewrite Hs2.
    - rewrite Hs2. cbn. by rewrite Hv.
    - rewrite Hs2, Hs1. done.
    - rewrite Hs2, Hcons, Hcrea. cbn. by apply Htr.
    - rewrite Hcons. apply fold_touch_all; [|done]. intros i c Hin. exists id.
      split; [by apply (Hown i c)|done].
    - rewrite Hs2, Hs1. done. }
  assert (l_assets s1 = l_assets (e_state e)) as Hla by (by rewrite Hs1). rewrite Hla in Hj.
  destruct aj as [journal|].
  - apply wp_update. intros e' Hu. apply bind_Ok in Hu as (m & _ & [= <-]).
    apply Hgoal; cbn; try done. rewrite Has. eapply undoes_merge; [apply He|done].
  - apply wp_ret, Hgoal; try done. rewrite Has. destruct Hj as [Hr Hs].
    destruct He as [_ _ _ _ _ _ Ha _]. unfold undoes in *. by rewrite Hr, Hs.
Qed.

Lemma safe_engine_settle id result legacy :
  is_Some (programs (l_programs s0) !! id) ->
  (forall r, coin_transfer result = Some r -> 0 <= tq_amount r) ->
  safe (engine_settle application invocation id result legacy).
Proof.
  intros Hid Hamt. unfold engine_settle. apply safe_bind; [apply safe_ensure_accounts|intros _].
  apply safe_bind.
  { destruct (coin_transfer result); [|apply safe_ret]. apply safe_bind; [apply safe_check|].
    intros sel. apply safe_bind; [|intros; apply safe_ret].
    destruct legacy; [apply safe_ret|apply safe_charge; lia]. }
  intros sel. apply safe_bind; [apply safe_action|intros _].
  apply safe_check_bind. intros commitment _ e He Hact. apply wp_bind. unfold wp at 1, on_state.
  pose proof (wp_map_err (unwinds application) (fun _ => SettlementFailed) _ _ _
    (wp_settle_with_inputs application id result commitment (Some sel) (e_state e)
       (ei_wf _ _ He) Hamt)) as Hw. unfold wp in Hw.
  destruct (stage_map_err _ _ _) as [[[[cj aj] s2]|]|]; [|done|done].
  destruct Hw as (s1 & Hc & Ha). apply wp_bind, wp_update. intros e1 He1.
  apply wp_bind, wp_update. intros e2 He2. by eapply settled_evolves.
Qed.

Lemma safe_transfer_outputs id a outputs multiple :
  safe (transfer_asset_outputs application invocation id a outputs multiple).
Proof.
  unfold transfer_asset_outputs. apply safe_bind; [apply safe_ensure_accounts|intros _].
  apply safe_lift_bind. intros amount _. apply safe_require_bind. intros _.
  apply safe_bind; [apply safe_action|intros _]. apply safe_check_bind. intros [inputs total] _.
  apply safe_bind; [apply safe_charge; lia|intros _]. apply safe_lift_bind. intros change _.
  apply safe_require_bind. intros _. apply safe_check_bind. intros commitment _.
  apply safe_asset_call.
Qed.

Lemma safe_transfer_many id a outputs :
  safe (transfer_asset_many application invocation id a outputs).
Proof.
  unfold transfer_asset_many. apply safe_require_bind. intros _.
  apply safe_bind; [apply safe_charge; lia|intros _]. apply safe_transfer_outputs.
Qed.

Lemma safe_burn_asset id a amount : safe (engine_burn_asset application invocation id a amount).
Proof.
  unfold engine_burn_asset. apply safe_bind; [apply safe_ensure_accounts|intros _].
  apply safe_require_bind. intros _. apply safe_bind; [apply safe_action|intros _].
  apply safe_check_bind. intros [inputs total] _.
  apply safe_bind; [apply safe_charge; lia|intros _]. apply safe_lift_bind. intros change _.
  apply safe_check_bind. intros commitment _. apply safe_asset_call.
Qed.
End effects.
