(* ===== verification/EngineProps.v ===== *)
(** * Safety, conservation and reversal of an invocation

    The interpreter loop and nested calls on top of [EngineFacts]: an
    invocation of deployed code always returns within its fuel, conserves
    coins, spends only coins of programs, and is undone by the journals it
    returns. *)

From S2P Require Import Prelude Codec Monetary Index Coin Calls Vm Registry Assets AssetFacts AssetProps.
From S2P Require Import State AssetHost Authorize Settlement Engine SettleFacts EngineFacts.
#[local] Open Scope Z_scope.

(** ** Decoded instructions *)

(** Immediates have the width their opcode reads. *)
Record instruction_wf (i : Instruction) : Prop := {
  iw_int : op i = 0x01 -> length (immediate i) = 16%nat;
  iw_jump : op i = 0x20 \/ op i = 0x21 -> length (immediate i) = 4%nat;
  iw_owner : op i = 0x11 -> exists o, dec_owner (immediate i) = Some (o, []);
}.

Lemma slice_length code from n bytes :
  0 <= from -> 0 <= n -> slice code from n = Some bytes -> Z.of_nat (length bytes) = n.
Proof.
  unfold slice, bytes_at. intros Hf Hn Hs. case_match eqn:Hle; [|done]. injection Hs as <-.
  rewrite length_take, length_drop. lia.
Qed.

Lemma decode_instruction_wf code pc i :
  0 <= pc -> decode_instruction code pc = Ok i -> instruction_wf i.
Proof.
  intros Hpc Hd. unfold decode_instruction in Hd. apply bind_Ok in Hd as ([from n] & Hsp & Hd).
  apply bind_Ok in Hd as (bytes & Hsl%ok_or_Ok & Hd). apply guard_err_Ok in Hd as [Hg [= <-]].
  unfold immediate_span in Hsp. split; cbn [op immediate].
  - intros He. rewrite He in Hsp. injection Hsp as <- <-. apply slice_length in Hsl; lia.
  - intros [He|He]; rewrite He in Hsp; injection Hsp as <- <-; apply slice_length in Hsl; lia.
  - intros He. rewrite He in Hg. cbn in Hg. destruct (dec_owner bytes) as [[o [|]]|]; [|done..].
    by exists o.
Qed.

Lemma instructions_wf code decoded pc i :
  bytes_wf code -> instructions code = Ok decoded -> decoded !! pc = Some i -> instruction_wf i.
Proof.
  intros Hwf Hi Hpc. unfold instructions in Hi. apply guard_err_Ok in Hi as [Hh Hi].
  apply guard_err_Ok in Hi as [_ Hi]. apply bind_Ok in Hi as ([d ret] & Hl & Hi).
  apply guard_err_Ok in Hi as [_ Hi]. apply guard_err_Ok in Hi as [_ [= ->]].
  apply orb_false_iff in Hh as [Hh _]. apply orb_false_iff in Hh as [Hh _].
  apply Z.ltb_ge in Hh.
  apply decode_loop_flows in Hl as [Hf _];
    [|done|unfold HEADER in *; lia|unfold HEADER in *; lia|by intros ? ?; rewrite lookup_empty|by left].
  destruct (Hf _ _ Hpc) as (Hd & Hs & _). eapply decode_instruction_wf; [|done].
  unfold HEADER in *. lia.
Qed.

Lemma op_cost_pos op : 1 <= op_cost op.
Proof. unfold op_cost. repeat case_match; done. Qed.

Lemma narrow_Ok bits err n m : narrow bits err n = Ok m -> 0 <= m.
Proof. unfold narrow. case_match eqn:Hr; [|done]. intros [= <-]. lia. Qed.

Lemma pop_narrow_Ok bits err stack m rest :
  ('(n, stack) ← pop_int stack; n ← narrow bits err n; Ok (n, stack)) = Ok (m, rest) -> 0 <= m.
Proof.
  intros Hn. apply bind_Ok in Hn as ([n s] & _ & Hn). apply bind_Ok in Hn as (m' & Hm & [= <- <-]).
  by eapply narrow_Ok.
Qed.

Section instructions.
Context `{Sha3} `{RootTest}.
Context (application : AssetApplication) (signer : ProgramId) (height : Z) (invocation : Hash).
Context (s0 : LedgerState) (active : list ProgramId).

#[local] Notation safe := (safe (unwinds application) s0 active).

Lemma exec_pure_total f i stack :
  instruction_wf i -> is_Some (exec_pure signer height f i stack).
Proof.
  intros [Hint Hjump Hown]. unfold exec_pure.
  repeat match goal with
  | |- is_Some (if (op i =? ?k) then _ else _) =>
      destruct (Z.eqb_spec (op i) k) as [?|?]
  | |- is_Some (if (length _ =? _)%nat then _ else _) =>
      rewrite (proj2 (Nat.eqb_eq _ _)) by auto
  | |- is_Some (if _ then _ else _) => case_match
  | |- is_Some (Some _) => by eexists
  | |- is_Some (match dec_owner _ with _ => _ end) => destruct Hown as [o ->]; [done|]
  | |- is_Some (match pop_int _ with _ => _ end) => destruct (pop_int stack) as [[]|]
  end.
Qed.

Lemma safe_pure f i stack :
  instruction_wf i -> safe (lift_pure (exec_pure signer height f i stack)).
Proof.
  intros Hi e He Hact. destruct (exec_pure_total f i stack Hi) as [r Hr]. unfold wp, lift_pure.
  rewrite Hr. destruct r; cbn; [by apply evolves_refl|done].
Qed.

(** Work through a sequence of safe primitives. *)
Ltac safe_step :=
  match goal with
  | |- EngineFacts.safe _ _ _ (mret _) => apply safe_ret
  | |- EngineFacts.safe _ _ _ (stage_lift _ ≫= _) =>
      apply safe_lift_bind; let a := fresh "a" in intros a ?;
      repeat match type of a with (_ * _)%type => destruct a as [a ?] end
  | |- EngineFacts.safe _ _ _ (stage_require _ _ ≫= _) => apply safe_require_bind; intros ?
  | |- EngineFacts.safe _ _ _ (stage_check _ ≫= _) => apply safe_check_bind; intros ? ?
  | |- EngineFacts.safe _ _ _ (charge _ ≫= _) =>
      apply safe_bind; [apply safe_charge;
        try (unfold ASSET_REGISTER_COST, CALL_COST, TRANSFER_COST; repeat case_match; lia)|intros _]
  | |- EngineFacts.safe _ _ _ (action ≫= _) => apply safe_bind; [apply safe_action|intros _]
  | |- EngineFacts.safe _ _ _ (ensure_accounts _ ≫= _) =>
      apply safe_bind; [apply safe_ensure_accounts|intros _]
  | |- EngineFacts.safe _ _ _ (own_record _ ≫= _) => apply safe_own_record; [done|intros ?]
  | |- EngineFacts.safe _ _ _ (own_write _ ≫= _) =>
      apply safe_bind; [apply safe_own_write; done|intros _]
  end.

Lemma safe_storage f i stack :
  instruction_wf i -> storing s0 (f_id f) ->
  safe (exec_storage signer height f i stack).
Proof.
  intros Hi Hst. pose proof (storing_registered _ _ Hst) as Hid. unfold exec_storage. cbn zeta.
  repeat match goal with |- EngineFacts.safe _ _ _ (if ?b then _ else _) => destruct b eqn:? end;
    repeat safe_step.
  - apply safe_bind; [destruct a; (apply safe_ret || (apply safe_charge; lia))|intros _]. safe_step.
  - by eapply pop_narrow_Ok.
  - by apply safe_pure.
Qed.

(** A nested call that is safe from the current call stack. *)
Definition safe_call (call : Call) : Prop :=
  forall id caller data deposit, safe (call id caller data deposit).

Lemma safe_exec_op call f i stack :
  safe_call call -> instruction_wf i -> storing s0 (f_id f) ->
  safe (exec_op application signer height invocation call f i stack).
Proof.
  intros Hcall Hi Hst. pose proof (storing_registered _ _ Hst) as Hid. unfold exec_op. cbn zeta.
  repeat match goal with |- EngineFacts.safe _ _ _ (if ?b then _ else _) => destruct b eqn:? end;
    repeat safe_step.
  all: try (apply safe_bind; [apply safe_engine_settle;
    [done|by intros ? [= <-]; eapply pop_narrow_Ok]|intros _]).
  all: repeat safe_step; try (apply safe_bind; [|intros; safe_step]).
  all: first [ apply safe_transfer_outputs | apply safe_transfer_many | apply safe_burn_asset
             | apply Hcall | by apply safe_storage ].
Qed.
End instructions.

(** ** Frames and calls *)

Section calls.
Context `{Sha3} `{RootTest}.
Context (application : AssetApplication) (signer : ProgramId) (height : Z) (invocation : Hash).
Context (s0 : LedgerState) (Hcode : deployed_code (l_programs s0)).

#[local] Notation safe := (safe (unwinds application) s0).

(** A frame's loop ends before its fuel: every instruction is charged. *)
Lemma frame_loop_safe active call f limits decoded gas pc stack e :
  safe_call application s0 active call -> storing s0 (f_id f) ->
  map_Forall (fun _ i => instruction_wf i) decoded ->
  engine_inv s0 e -> e_active e = active -> e_fuel e < Z.of_nat gas ->
  wp (unwinds application)
    (frame_loop application signer height invocation gas call f limits decoded pc stack)
    (fun _ e' => evolves s0 e e') e.
Proof.
  intros Hcall Hid Hdec. revert pc stack e.
  induction gas as [|gas IH]; intros pc stack e He Hact Hgas.
  { pose proof (ei_fuel _ _ He). lia. }
  cbn [frame_loop]. apply wp_bind, wp_lift. intros i Hi%ok_or_Ok. apply wp_bind.
  apply (wp_mono _ _ (fun _ e1 => evolves s0 e e1 /\ e_fuel e1 < e_fuel e)).
  { apply wp_update. intros e' Hu. apply bind_Ok in Hu as (n & Hn & [= <-]).
    apply ok_or_Ok, checked_sub_Some in Hn as [-> Hle]. pose proof (op_cost_pos (op i)).
    split; [|cbn; lia]. apply evolves_same; [done|by split|cbn; lia|done]. }
  intros _ e1 [H1 Hlt]. apply wp_bind.
  eapply wp_mono; [eapply safe_exec_op; [exact Hcall|by eapply Hdec|done|apply H1|]|].
  { by rewrite (ev_active _ _ _ H1). }
  intros flow e2 H2. pose proof (evolves_trans _ _ _ _ H1 H2) as H12.
  destruct flow as [pc' stack'|n]; [|by apply wp_ret].
  apply wp_bind, wp_require. intros _. pose proof (ev_fuel _ _ _ H2).
  eapply wp_mono; [apply IH; [apply H2|by rewrite (ev_active _ _ _ H12)|lia]|].
  intros ? e3 H23. exact (evolves_trans _ _ _ _ H12 H23).
Qed.

Lemma interpret_safe active call f code :
  safe_call application s0 active call -> storing s0 (f_id f) ->
  bytes_wf code ->
  safe active (interpret application signer height invocation call f code).
Proof.
  intros Hcall Hid Hwf. unfold interpret. apply safe_lift_bind. intros limits Hl.
  apply safe_lift_bind. intros decoded Hd.
  assert (instructions code = Ok decoded) as Hins by (by destruct (instructions code); cbn in Hd; simplify_eq).
  apply safe_bind.
  { apply safe_charge. unfold validate_application in Hl. rewrite Hins in Hl.
    cbn [mbind result_mbind map_err] in Hl. unfold guard_err in Hl.
    repeat (case_match; [done|]). injection Hl as <-. unfold MEMORY_PAGE_COST. cbn [memory_pages].
    assert (0 <= le_val (bytes_at code 7 2)); [|lia].
    by apply le_val_nonneg, Forall_take, Forall_drop. }
  intros _ e He Hact. eapply frame_loop_safe; [done|done| |done|done|].
  - intros pc i Hi. by eapply instructions_wf.
  - pose proof (ei_fuel _ _ He). lia.
Qed.

Lemma call_scalar_safe active id data :
  is_Some (programs (l_programs s0) !! id) ->
  safe active (call_scalar application invocation id data).
Proof using Hcode.
  intros Hid. unfold call_scalar. apply safe_require_bind. intros _ e He Hact. apply wp_bind.
  pose proof (inv_deployed _ _ He Hcode) as Hd.
  pose proof (proj1 (inv_registered _ e id He) Hid) as [r Hr].
  destruct (execute_code_total (Registry.code r) (p_state r) (e_fuel e)) as (res & Hres & Hout);
    [by apply (Hd id r)|].
  unfold wp at 1. unfold execute_registered, program. rewrite Hr, Hres.
  destruct res as [result|]; cbn [mbind result_mbind]; [|done].
  destruct (Hout result eq_refl) as [Hfuel Hamt].
  eapply (safe_bind (unwinds application) s0 active); [apply safe_charge; lia| |done|done].
  intros _. apply safe_check_bind. intros root _. apply safe_bind.
  { destruct (has_monetary_effects result); [by apply safe_engine_settle|apply safe_ret]. }
  intros _. apply safe_bind; [|intros; apply safe_ret].
  destruct (proposed_effect result) as [[n]|]; [|apply safe_ret].
  intros e1 He1 Hact1. apply wp_bind, wp_check. intros [r' wr] Hw%ok_or_Ok. apply wp_modify.
  eapply set_registry_evolves; [done| |done]. done.
Qed.

(** A registered program of version four is application code. *)
Lemma application_storing e id record :
  engine_inv s0 e -> programs (l_programs (e_state e)) !! id = Some record ->
  code record !! 4%nat = Some APPLICATION_VERSION -> storing s0 id.
Proof.
  intros He Hr Hv. pose proof (journaled_code _ _ _ _ id (ei_writes _ _ He)) as Hc.
  rewrite Hr in Hc. destruct (programs (l_programs s0) !! id) as [r|] eqn:Hid; [|done].
  exists r. split; [done|]. unfold is_application. rewrite Hc. by apply bool_decide_eq_true_2.
Qed.

(** Nesting is bounded by [MAX_CALL_DEPTH], so the model's [depth] never runs
    out. *)
Lemma call_safe depth active :
  MAX_CALL_DEPTH <= Z.of_nat (length active + depth) ->
  safe_call application s0 active (call application signer height invocation depth).
Proof using Hcode.
  revert active. induction depth as [|depth IH]; intros active Hd id caller data deposit e He Hact.
  all: cbn [call]; apply wp_bind, wp_check; intros [] Hlim; apply wp_bind, wp_check; intros [] _;
    apply wp_bind, wp_check; intros record Hrec%ok_or_Ok.
  all: destruct (_ || _) eqn:Hl in Hlim; [done|]; apply orb_false_iff in Hl as [Hl _];
    apply orb_false_iff in Hl as [_ Hl]; rewrite Hact in Hl; apply Z.leb_gt in Hl.
  { lia. }
  assert (is_Some (programs (l_programs s0) !! id)) as Hid by (apply (inv_registered _ e); [done|by eexists]).
  destruct (inv_deployed _ _ He Hcode id record Hrec) as (Hwf & v & Hv).
  apply wp_bind, wp_modify. set (e1 := set_calls _ _ e).
  assert (engine_inv s0 e1) as He1.
  { eapply engine_inv_same; [exact He|by split|]. apply (ei_fuel _ _ He). }
  assert (e_active e1 = active ++ [id]) as Hact1 by (cbn; by rewrite Hact).
  apply wp_bind, wp_unwrap. destruct (validated_version _ _ Hv) as [version Hver].
  exists version. split; [done|]. apply wp_bind.
  apply (wp_mono _ _ (fun _ e2 => evolves s0 e1 e2)).
  { destruct (Z.eqb_spec version APPLICATION_VERSION) as [->|]; cbn [negb];
      [|by apply (call_scalar_safe (active ++ [id]))].
    apply (interpret_safe (active ++ [id])); try done; [|by apply (application_storing e id record)].
    apply IH. rewrite length_app. cbn. lia. }
  intros n e2 H2. apply wp_bind, wp_modify, wp_ret. split; cbn.
  - eapply engine_inv_same; [apply H2|by split|]. apply (ei_fuel _ _ (ev_inv _ _ _ H2)).
  - apply (ev_fuel _ _ _ H2).
  - rewrite (ev_active _ _ _ H2), Hact1, removelast_last. done.
Qed.
End calls.

(** ** An invocation as a whole *)

(** The journals of an invocation as the state rolls them back. *)
Definition applied_journal (a : AppliedVm) : StateRollbackJournal :=
  {| sj_coin := Some (av_coin a); sj_program := av_program a; sj_extension := av_asset a |}.

Section invocation.
Context `{Sha3} `{RootTest}.

Lemma asset_application_returns : ~ unwinds asset_application.
Proof. intros (call & ctx & st & Hp). by rewrite asset_application_exact in Hp. Qed.

(** The engine behind a result, and the invariant it ended in. *)
Lemma vm_apply_engine application tx height commitment s :
  utxo_wf (utxos s) -> deployed_code (l_programs s) ->
  match vm_apply application tx height commitment s with
  | Returned (Ok (applied, s')) => exists n e, engine_inv s e /\ s' = e_state e /\
      e_fuel e <= MAX_CALL_FUEL /\ finish_apply n e = Ok applied
  | Returned (Err _) => True
  | Panicked => unwinds application
  end.
Proof.
  intros Hwf Hcode. unfold vm_apply. destruct (_ ≫= _) as [[[id data] deposit]|]; [|done].
  pose proof (call_safe application (ai_signer tx) height commitment s Hcode
    (Z.to_nat MAX_CALL_DEPTH) [] ltac:(done) id (Program (ai_signer tx)) data deposit
    (engine_start s) (engine_inv_start s Hwf) eq_refl) as Hs.
  unfold wp in Hs. destruct (call _ _ _ _ _ _ _ _ _ _) as [[[n e]|]|]; [|done|done].
  destruct (finish_apply n e) as [applied|] eqn:Hf; [|done]. cbn.
  exists n, e. split_and!; [apply Hs|done| |done]. apply (ev_fuel _ _ _ Hs).
Qed.

Lemma finish_apply_Ok n e applied :
  finish_apply n e = Ok applied ->
  av_fuel_used applied = MAX_CALL_FUEL - e_fuel e /\
  av_coin applied = {| consumed_coins := sorted_entries (e_consumed e);
    created_coin_ids := sorted_ids (e_created e); mined := 0; burned := 0 |} /\
  av_asset applied = e_asset e /\ av_program applied = program_journal (e_writes e).
Proof.
  unfold finish_apply. intros Hf. apply bind_Ok in Hf as (d & _ & Hf).
  apply bind_Ok in Hf as (d' & _ & Hf). by apply bind_Ok in Hf as (w & _ & [= <-]).
Qed.

(** (C16) Whatever deployed code does, an invocation of it returns: no
    [unwrap], index or conversion of the interpreter can panic, nested calls
    and loops end, and only an installed application that itself panics can
    unwind it, which the extension's does not.  A successful invocation uses
    at most [MAX_CALL_FUEL], leaves a well-formed coin store of the same total
    value, and touches neither the mined nor the burned counter. *)
Theorem vm_invocation_safe application tx height commitment s :
  utxo_wf (utxos s) -> deployed_code (l_programs s) ->
  match vm_apply application tx height commitment s with
  | Returned (Ok (applied, s')) =>
      0 <= av_fuel_used applied <= MAX_CALL_FUEL /\
      utxo_wf (utxos s') /\ total_value (utxos s') = total_value (utxos s) /\
      coin_record s' = coin_record s
  | Returned (Err _) => True
  | Panicked => unwinds application /\ application <> asset_application
  end.
Proof.
  intros Hwf Hcode. pose proof (vm_apply_engine application tx height commitment s Hwf Hcode) as Hs.
  destruct (vm_apply _ _ _ _ _) as [[[applied s']|]|]; [|done|].
  - destruct Hs as (n & e & [] & -> & Hle & (-> & _)%finish_apply_Ok). split; [lia|done].
  - split; [done|]. intros ->. by apply asset_application_returns.
Qed.

Lemma tracked_undoable s e :
  utxo_wf (utxos s) -> engine_inv s e ->
  0 <= total_mined (coin_record s) -> 0 <= total_burned (coin_record s) ->
  coin_undoable s {| consumed_coins := sorted_entries (e_consumed e);
    created_coin_ids := sorted_ids (e_created e); mined := 0; burned := 0 |} (e_state e).
Proof.
  intros Hwf [Hwf' _ Hrec [Hcr Hco Hsame] _ _ _ _] Hm Hb.
  assert (forall id, id ∈ (sorted_entries (e_consumed e)).*1 <-> is_Some (e_consumed e !! id)) as Hin.
  { intros id. rewrite sorted_entries_keys, elem_of_sorted_ids. apply elem_of_dom. }
  split; cbn; try done; try (rewrite Hrec; lia).
  - apply NoDup_sorted_ids.
  - rewrite sorted_entries_keys. apply NoDup_sorted_ids.
  - intros id Hid%elem_of_sorted_ids. rewrite Hin. by apply Hcr.
  - intros id c Hid%elem_of_sorted_entries. rewrite elem_of_sorted_ids. by apply Hco.
  - intros id. rewrite elem_of_sorted_ids, Hin. intros Hn Hn'. apply Hsame; [done|].
    by apply eq_None_not_Some.
Qed.

(** (C17) The journals of a successful invocation undo it: rolling them back
    succeeds and restores the coin store with its indexes, the supply
    counters, the program registry, and the asset records and shares. *)
Theorem vm_invocation_rollback application tx height commitment s applied s' :
  coin_state_ok s -> deployed_code (l_programs s) ->
  vm_apply application tx height commitment s = Returned (Ok (applied, s')) ->
  exists a, rollback_state (applied_journal applied) s' =
    ({| utxos := utxos s; coin_record := coin_record s; l_programs := l_programs s;
        l_assets := a |}, Ok tt) /\
    records a = records (l_assets s) /\ shares a = shares (l_assets s).
Proof.
  intros [Hwf Hm Hb _] Hcode Hs.
  pose proof (vm_apply_engine application tx height commitment s Hwf Hcode) as He.
  rewrite Hs in He. destruct He as (n & e & He & -> & _ & (_ & Hc & Ha & Hp)%finish_apply_Ok).
  destruct (rollback_state_leads_back s (applied_journal applied) (e_state e) (e_state e))
    as (Ht & Hre & Hsh); [|by split|by eauto].
  unfold applied_journal. split; cbn [sj_coin sj_program sj_extension].
  - rewrite Hc. eexists. split; [done|]. apply tracked_undoable; [done|done|lia..].
  - rewrite Hp. apply rollback_journaled, He.
  - rewrite Ha. apply He.
Qed.

(** (C19) An invocation spends only coins of deployed programs: what its journal
    consumed were such coins of the state it started from, with their owner
    and amount, and every coin whose owner is not a deployed program is left
    as it was. *)
Theorem vm_invocation_spends application tx height commitment s applied s' :
  utxo_wf (utxos s) -> deployed_code (l_programs s) ->
  vm_apply application tx height commitment s = Returned (Ok (applied, s')) ->
  (forall id c, (id, c) ∈ consumed_coins (av_coin applied) ->
     coins (utxos s) !! id = Some c /\ program_coin (l_programs s) c) /\
  (forall id c, coins (utxos s) !! id = Some c -> ~ program_coin (l_programs s) c ->
     coins (utxos s') !! id = Some c).
Proof.
  intros Hwf Hcode Hs.
  pose proof (vm_apply_engine application tx height commitment s Hwf Hcode) as He.
  rewrite Hs in He. destruct He as (n & e & [] & -> & _ & (_ & -> & _)%finish_apply_Ok).
  destruct ei_tracked as [Hcr Hco Hsame]. split.
  - intros id c Hin%elem_of_sorted_entries. split; [by apply Hco|by eapply ei_own].
  - intros id c Hid Hn. assert (e_consumed e !! id = None) as Hnc.
    { destruct (e_consumed e !! id) as [c'|] eqn:He; [|done]. destruct Hn.
      apply ei_own in He as Hp. apply Hco in He as [Hc' _]. by simplify_eq. }
    rewrite Hsame; [done| |done]. intros [_ [Hx|[? Hx]]]%Hcr; congruence.
Qed.
End invocation.

(** ** Previews *)

(** What a caller reads of an invocation's result. *)
Definition applied_summary (a : AppliedVm) : Z * Z * TransferQuote :=
  (av_value a, av_fuel_used a, av_quote a).

Definition summary_of {A} (f : A -> AppliedVm) (o : outcome (result ExecutionError A))
    : outcome (result ExecutionError (Z * Z * TransferQuote)) :=
  match o with
  | Returned (Ok a) => Returned (Ok (applied_summary (f a)))
  | Returned (Err e) => Returned (Err e)
  | Panicked => Panicked
  end.

Section preview.
Context `{Sha3} `{RootTest}.

(** The engine when the root frame of scalar code is about to settle. *)
Definition root_engine (s : LedgerState) (id : ProgramId) (fuel : Z) : Engine :=
  set_fuel fuel (set_calls 1 [id] (engine_start s)).

Lemma finish_scalar s id n used r w :
  w_storage w = ∅ ->
  finish_apply n (set_calls 1 [] (set_registry r w (root_engine s id (MAX_CALL_FUEL - used)))) =
  Ok {| av_value := n; av_fuel_used := used; av_quote := empty_quote;
        av_coin := empty_coin_journal; av_asset := None; av_program := program_journal w |}.
Proof.
  intros Hw. unfold finish_apply. cbn -[program_journal MAX_CALL_FUEL]. rewrite Hw.
  cbn -[program_journal MAX_CALL_FUEL].
  by replace (MAX_CALL_FUEL - (MAX_CALL_FUEL - used)) with used by lia.
Qed.

Lemma set_registry_same s id fuel :
  set_registry (l_programs s) (e_writes (engine_start s)) (root_engine s id fuel)
  = root_engine s id fuel.
Proof. by destruct s. Qed.

(** Running a sequence whose first part is known. *)
Lemma vmm_run {A B} (m : VMM A) (f : A -> VMM B) e a e' :
  m e = Returned (Ok (a, e')) -> (m ≫= f) e = f a e'.
Proof. intros Hm. unfold mbind, vmm_mbind, staged_mbind. by rewrite Hm. Qed.

Lemma vmm_err {A B} (m : VMM A) (f : A -> VMM B) e err :
  m e = Returned (Err err) -> (m ≫= f) e = Returned (Err err).
Proof. intros Hm. unfold mbind, vmm_mbind, staged_mbind. by rewrite Hm. Qed.

(** The guards of a root call, passed; the version byte then routes it. *)
Lemma call_root application signer height commitment depth s id caller data deposit :
  Z.of_nat (length data) <= MAX_DATA_BYTES ->
  call application signer height commitment depth id caller data deposit (engine_start s) =
  match program (l_programs s) id with
  | None => Returned (Err UnknownProgram)
  | Some record =>
      (version ← stage_unwrap (fun _ => code record !! 4%nat);
       n ← (if negb (version =? APPLICATION_VERSION) then call_scalar application commitment id data
            else match depth with
                 | O => (fun _ => Panicked) : VMM Z
                 | S depth =>
                     interpret application signer height commitment
                       (call application signer height commitment depth)
                       {| f_id := id; f_caller := caller; f_data := data; f_deposit := deposit |}
                       (code record)
                 end);
       _ ← (stage_modify (fun e => set_calls (e_calls e) (removelast (e_active e)) e) : VMM unit);
       (mret n : VMM Z)) (set_calls 1 [id] (engine_start s))
  end.
Proof.
  intros Hlen.
  assert (stage_check (fun e : Engine => if (MAX_DATA_BYTES <? Z.of_nat (length data))
       || (MAX_CALL_DEPTH <=? Z.of_nat (length (e_active e))) || (MAX_CALLS <=? e_calls e)
    then Err ResourceLimit else Ok tt) (engine_start s) = Returned (Ok (tt, engine_start s))) as H1.
  { unfold stage_check. by rewrite (proj2 (Z.ltb_ge _ _)). }
  destruct depth; cbn [call]; (erewrite vmm_run by exact H1);
    (erewrite vmm_run by (unfold stage_check; by rewrite bool_decide_eq_false_2 by set_solver));
    destruct (program (l_programs s) id) as [record|] eqn:Hr;
    try (erewrite vmm_err by (unfold stage_check; cbn; by rewrite Hr)); try done;
    (erewrite vmm_run by (unfold stage_check; cbn; by rewrite Hr)); by erewrite vmm_run.
Qed.

(** Scalar code without monetary effects, called as the root. *)
Lemma scalar_root application signer height commitment s id caller data deposit record version :
  deployed_code (l_programs s) -> programs (l_programs s) !! id = Some record ->
  Registry.code record !! 4%nat = Some version -> (version =? APPLICATION_VERSION) = false ->
  Z.of_nat (length data) <= MAX_DATA_BYTES ->
  match execute_registered (l_programs s) id MAX_CALL_FUEL with
  | Some (Ok result) => data = [] -> has_monetary_effects result = false ->
      exists r w, w_storage w = ∅ /\
        call application signer height commitment 8 id caller data deposit (engine_start s)
        = Returned (Ok (as_u128 (value result),
            set_calls 1 [] (set_registry r w
              (root_engine s id (MAX_CALL_FUEL - fuel_used result)))))
  | Some (Err e) => data = [] ->
      call application signer height commitment 8 id caller data deposit (engine_start s)
      = Returned (Err e)
  | None => False
  end /\
  (data <> [] -> call application signer height commitment 8 id caller data deposit (engine_start s)
     = Returned (Err InvalidOperand)).
Proof.
  intros Hcode Hr Hv Hva Hlen.
  rewrite call_root by done. unfold program. rewrite Hr.
  erewrite vmm_run by (unfold stage_unwrap; by rewrite Hv). rewrite Hva. cbn [negb].
  split; [|by intros Hd; unfold call_scalar, mbind, vmm_mbind, staged_mbind, stage_require;
    rewrite bool_decide_eq_false_2].
  destruct (execute_code_total (Registry.code record) (p_state record) MAX_CALL_FUEL)
    as (res & Hres & Hout); [by apply (Hcode id record)|].
  unfold execute_registered, program. rewrite Hr, Hres.
  assert (data = [] -> forall (k : Z -> VMM Z) e1, l_programs (e_state e1) = l_programs s ->
    e_fuel e1 = MAX_CALL_FUEL ->
    (call_scalar application commitment id data ≫= k) e1 = match res with Err e => Returned (Err e)
    | Ok result => ((_ ← charge (fuel_used result);
        root ← stage_check (fun e => Ok (length (e_active e) =? 1)%nat);
        _ ← (if has_monetary_effects result then engine_settle application commitment id result root
             else mret tt : VMM unit);
        _ ← match proposed_effect result with
            | Some (ProgramState n) =>
                s ← stage_check (fun e =>
                  ok_or (vm_write (l_programs (e_state e), e_writes e) (WriteState id n)) UnknownProgram);
                stage_modify (set_registry s.1 s.2)
            | None => mret tt
            end;
        mret (as_u128 (value result))) ≫= k) e1 end) as Hcs.
  { intros -> k e1 Hp Hf. unfold call_scalar at 1, mbind, vmm_mbind, staged_mbind.
    unfold stage_require, stage_lift, stage_check. cbn -[charge engine_settle].
    unfold execute_registered, program. rewrite Hp, Hr, Hf, Hres. destruct res; done. }
  destruct res as [result|err]; intros Hd; rewrite Hcs by done; [|done]. intros Hm.
  destruct (Hout result eq_refl) as [[Hf0 Hf] _].
  assert (charge (fuel_used result) (set_calls 1 [id] (engine_start s))
    = Returned (Ok (tt, root_engine s id (MAX_CALL_FUEL - fuel_used result)))) as Hch.
  { unfold charge, stage_update. cbn [e_fuel set_calls engine_start].
    by rewrite (proj2 (checked_sub_Some _ _ (MAX_CALL_FUEL - fuel_used result))). }
  destruct (proposed_effect result) as [[n]|].
  - destruct (vm_write_registered (l_programs s, e_writes (engine_start s)) (WriteState id n))
      as [[r w] Hw]; [by eexists|].
    exists r, w. split.
    { cbn in Hw. apply bind_Some in Hw as ([before r1] & _ & [= <- <-]). done. }
    rewrite (vmm_run _ _ _ (as_u128 (value result))
      (set_registry r w (root_engine s id (MAX_CALL_FUEL - fuel_used result)))); [done|].
    do 2 (erewrite vmm_run by done). rewrite Hm. erewrite vmm_run by done.
    rewrite (vmm_run _ _ _ tt (set_registry r w
      (root_engine s id (MAX_CALL_FUEL - fuel_used result)))); [done|].
    rewrite (vmm_run _ _ _ (r, w) (root_engine s id (MAX_CALL_FUEL - fuel_used result))); [done|].
    unfold stage_check. by change (vm_write (l_programs (e_state _), e_writes _) _)
      with (vm_write (l_programs s, e_writes (engine_start s)) (WriteState id n)); rewrite Hw.
  - exists (l_programs s), (e_writes (engine_start s)). rewrite set_registry_same. split; [done|].
    rewrite (vmm_run _ _ _ (as_u128 (value result))
      (root_engine s id (MAX_CALL_FUEL - fuel_used result))); [done|].
    do 2 (erewrite vmm_run by done). rewrite Hm. by do 2 (erewrite vmm_run by done).
Qed.

(** What a preview returns is what the invocation returns. *)
Lemma preview_summary application tx height commitment s id data deposit :
  deployed_code (l_programs s) -> call_input (ai_call tx) = Ok (id, data) ->
  deposit_of (ai_payment tx) id = Ok deposit ->
  summary_of (fun a => a) (preview application tx height commitment s)
  = summary_of fst (vm_apply application tx height commitment s).
Proof.
  intros Hcode Hin Hdep.
  assert (Z.of_nat (length data) <= MAX_DATA_BYTES) as Hlen.
  { unfold call_input in Hin. apply guard_err_Ok in Hin as [Hg [= <- <-]].
    rewrite length_drop. apply orb_false_iff in Hg as [Hg _]. apply orb_false_iff in Hg as [_ Hg].
    unfold MAX_DATA_BYTES in *. lia. }
  set (staged := vm_apply application tx height commitment s).
  assert (staged = match call application (ai_signer tx) height commitment
    (Z.to_nat MAX_CALL_DEPTH) id (Program (ai_signer tx)) data deposit (engine_start s) with
    | Panicked => Panicked | Returned (Err e) => Returned (Err e)
    | Returned (Ok (n, e)) => Returned (applied ← finish_apply n e; Ok (applied, e_state e))
    end) as Hst.
  { unfold staged, vm_apply. rewrite Hin. cbn [map_err mbind result_mbind fst]. by rewrite Hdep. }
  unfold preview. fold staged. rewrite Hin. cbn [map_err mbind result_mbind fst].
  change (Z.to_nat MAX_CALL_DEPTH) with 8%nat in Hst. unfold program.
  destruct (programs (l_programs s) !! id) as [record|] eqn:Hr; cbn [ok_or mbind result_mbind].
  2: { rewrite Hst, call_root by done. unfold program. by rewrite Hr. }
  destruct (Hcode id record Hr) as (_ & v & Hval).
  destruct (validated_version _ _ Hval) as [version Hv]. rewrite Hv.
  destruct (version =? APPLICATION_VERSION) eqn:Hva; [by destruct staged as [[[]|]|]|].
  destruct (scalar_root application (ai_signer tx) height commitment s id (Program (ai_signer tx))
    data deposit record version Hcode Hr Hv Hva Hlen) as [Hroot Hdata].
  case_bool_decide as Hd; cbn [negb]; [|by rewrite Hst, Hdata].
  destruct (execute_registered _ _ _) as [[result|e]|]; [| |done].
  - destruct (has_monetary_effects result) eqn:Hm; [by destruct staged as [[[]|]|]|].
    destruct (Hroot Hd eq_refl) as (r & w & Hw & Hc). rewrite Hst, Hc, finish_scalar by done. done.
  - by rewrite Hst, Hroot.
Qed.

(** A preview tells what the invocation will do: on every payment whose
    outputs to the program add up, it returns the value, the fuel, the quote
    or the error the invocation itself returns, also for scalar code, which it
    runs without cloning the state. *)
Theorem preview_agrees application tx height commitment s id data deposit :
  deployed_code (l_programs s) -> call_input (ai_call tx) = Ok (id, data) ->
  deposit_of (ai_payment tx) id = Ok deposit ->
  summary_of (fun a => a) (preview application tx height commitment s)
  = summary_of fst (vm_apply application tx height commitment s).
Proof. apply preview_summary. Qed.
End preview.

(** ** A program that pays *)

(** [push owner; push 5; transfer; push 7; return]: the program pays five to a
    recipient and answers seven. *)
Definition paying_code : list Z :=
  MAGIC ++ [4; 16; 0; 1; 0; 0; 0; 0; 0] ++ (0x11 :: enc_owner (Program (replicate 32 2)))
  ++ (0x01 :: le_bytes 16 5) ++ [0x40] ++ (0x01 :: le_bytes 16 7) ++ [0x03].

Definition payer : ProgramId := replicate 32 7.

Definition paying_registry : ProgramRegistry :=
  {| programs := {[ payer := {| code_hash := replicate 32 0; code := paying_code;
       p_owner := replicate 32 1; nonce := 0; deployed_at := 0; p_state := 0; storage := ∅ |} ]};
     deployments := {[ (replicate 32 1, 0) ]} |}.

(** Nine of the program's and four of somebody else's. *)
Definition paying_coins : UtxoSet :=
  (Coin.run utxo_step utxo_empty
    [OpInsert (replicate 32 3) {| cu_amount := 9; cu_owner := Program payer |};
     OpInsert (replicate 32 4) {| cu_amount := 4; cu_owner := Program (replicate 32 1) |}]).1.

Definition paying_state : LedgerState :=
  {| utxos := paying_coins; coin_record := {| total_mined := 13; total_burned := 0 |};
     l_programs := paying_registry; l_assets := assets_empty |}.

Definition paying_call : AuthorizedProgramInvocation :=
  {| ai_signer := replicate 32 0;
     ai_call := {| pc_program := VM; pc_opcode := 1; pc_payload := payer |};
     ai_payment := ai_payment sample_invocation;
     ai_authorization := ai_authorization sample_invocation |}.

Definition toy_apply : Staged LedgerState ExecutionError AppliedVm :=
  @vm_apply toy_sha3 (fun _ _ _ => false) asset_application paying_call 5 (replicate 32 6).

Lemma paying_coins_wf : utxo_wf paying_coins.
Proof. apply utxo_run_simulation; [apply utxo_empty_wf|]. by repeat constructor. Qed.

Lemma paying_deployed : deployed_code paying_registry.
Proof.
  intros id record Hr. cbn in Hr. apply lookup_singleton_Some in Hr as [_ <-]. cbn [code].
  split; [by apply digits_compute|]. eexists. vm_compute. reflexivity.
Qed.

(** The invocation answers seven; it consumes the program's coin and creates
    the payment and the change. *)
Lemma paying_run :
  match toy_apply paying_state with
  | Returned (Ok (a, s)) =>
      av_value a = 7 /\ length (consumed_coins (av_coin a)) = 1%nat /\
      length (created_coin_ids (av_coin a)) = 2%nat /\ total_value (utxos s) = 13
  | _ => False
  end.
Proof. vm_compute. auto. Qed.

Lemma vm_invocation_safe_witness :
  exists a s, toy_apply paying_state = Returned (Ok (a, s)) /\
    av_fuel_used a <= MAX_CALL_FUEL /\ total_value (utxos s) = 13.
Proof.
  pose proof (@vm_invocation_safe toy_sha3 (fun _ _ _ => false) asset_application paying_call 5
    (replicate 32 6) paying_state paying_coins_wf paying_deployed) as Hs.
  fold toy_apply in Hs. pose proof paying_run as Hr.
  destruct (toy_apply paying_state) as [[[a s]|]|]; [|contradiction..].
  exists a, s. split; [reflexivity|]. split; [apply Hs|apply Hr].
Defined.

Lemma vm_invocation_rollback_witness :
  exists a s assets, toy_apply paying_state = Returned (Ok (a, s)) /\
    @rollback_state (fun _ _ _ => false) (applied_journal a) s =
    ({| utxos := paying_coins; coin_record := coin_record paying_state;
        l_programs := paying_registry; l_assets := assets |}, Ok tt).
Proof.
  pose proof paying_run as Hr.
  destruct (toy_apply paying_state) as [[[a s]|]|] eqn:Ha; [|contradiction..].
  destruct (@vm_invocation_rollback toy_sha3 (fun _ _ _ => false) asset_application paying_call 5
    (replicate 32 6) paying_state a s) as (assets & Hroll & _).
  - constructor; [exact paying_coins_wf|vm_compute; split; [discriminate|reflexivity]..|].
    vm_compute. reflexivity.
  - exact paying_deployed.
  - exact Ha.
  - exists a, s, assets. split; [reflexivity|exact Hroll].
Defined.

Lemma vm_invocation_spends_witness :
  exists a s, toy_apply paying_state = Returned (Ok (a, s)) /\
    coins (utxos s) !! replicate 32 4
    = Some {| cu_amount := 4; cu_owner := Program (replicate 32 1) |}.
Proof.
  pose proof paying_run as Hr.
  destruct (toy_apply paying_state) as [[[a s]|]|] eqn:Ha; [|contradiction..].
  exists a, s. split; [reflexivity|].
  apply (proj2 (@vm_invocation_spends toy_sha3 (fun _ _ _ => false) asset_application paying_call 5
    (replicate 32 6) paying_state a s paying_coins_wf paying_deployed Ha)).
  - vm_compute. reflexivity.
  - intros (p & [= <-] & Hp). vm_compute in Hp. by destruct Hp.
Defined.

Lemma preview_agrees_witness :
  summary_of (fun a => a) (@preview toy_sha3 (fun _ _ _ => false) asset_application paying_call 5
    (replicate 32 6) paying_state)
  = summary_of fst (toy_apply paying_state).
Proof.
  apply (@preview_agrees toy_sha3 (fun _ _ _ => false) asset_application paying_call 5
    (replicate 32 6) paying_state payer [] 0 paying_deployed); vm_compute; reflexivity.
Defined.
