(* ===== verification/VmTypes.v ===== *)
(** * Values of the virtual machine stay in their types

    The interpreter computes with [u128] integers, bytes and owners; the model
    with [Z] and lists.  Whatever code runs, every integer on a stack is an
    unsigned 128-bit number, every byte string consists of bytes, and the asset
    calls the engine makes carry amounts of their width, so that the asset
    tables stay typed and the cached supply summary stays valid. *)

From S2P Require Import Prelude Codec Monetary Index Coin Calls Vm Registry RegistryWire Assets AssetFacts AssetProps.
From S2P Require Import AssetAudit State AssetHost Authorize Settlement Engine SettleFacts EngineFacts EngineProps.
#[local] Open Scope Z_scope.

(** ** Asset calls through the bound host *)

Section host.
Context `{Sha3} `{RootTest, !RootTestSpec}.

Lemma bound_apply_typed operation h :
  asset_typed (b_state h) -> call_amounts (b_expected h) ->
  asset_typed (b_state (bound_apply operation h).1) /\
  b_expected (bound_apply operation h).1 = b_expected h.
Proof.
  intros Hty Ha. unfold bound_apply. case_bool_decide as Hop; [|done].
  destruct (bool_decide (is_Some (b_journal h))); [done|]. cbn [negb orb]. subst operation.
  pose proof (apply_typed (b_expected h) (b_context h) (b_state h) Hty Ha) as Hty'.
  by destruct (apply _ _ _) as [st []].
Qed.

Lemma run_bound_typed p h :
  asset_typed (b_state h) -> call_amounts (b_expected h) ->
  asset_typed (b_state (run_asset_program p h).1).
Proof.
  revert h. induction p as [r| |c k IH|c k IH|c k IH|c k IH]; intros h Hty Ha; [done|done|..];
    cbn [run_asset_program host_register host_mint host_transfer host_burn_asset bound_asset_host];
    match goal with |- context [bound_apply ?op h] =>
      destruct (bound_apply_typed op h Hty Ha) as [Hty' He]; destruct (bound_apply op h) end;
    (apply IH; [done|]); cbn [fst] in He; by rewrite He.
Qed.

Lemma execute_asset_typed application call ctx st st' j :
  asset_typed st -> call_amounts call ->
  execute_asset application call ctx st = (st', Returned (Ok j)) -> asset_typed st'.
Proof.
  intros Hty Ha. unfold execute_asset.
  pose proof (run_bound_typed (application call)
    {| b_state := st; b_expected := call; b_context := ctx; b_journal := None |} Hty Ha) as Hr.
  destruct (run_asset_program _ _) as [h [[]|]]; [|done..]. cbn [fst] in Hr.
  destruct (b_journal h); [|done]. by intros [= <- <-].
Qed.
End host.

(** ** Typed ledger states *)

Record ledger_typed (s : LedgerState) : Prop := {
  lt_coins : utxo_wf (utxos s);
  lt_assets : asset_typed (l_assets s);
  lt_programs : registry_typed (l_programs s);
}.

(** ** Settlement *)

(** The sum a selection returns is bounded by its own check. *)
Lemma select_inputs_bound {K E} bits (f : K -> result E Z) ov amount cs t0 l total :
  (forall k v, k ∈ cs -> f k = Ok v -> 0 <= v) -> fits bits t0 ->
  select_inputs bits f ov amount cs t0 = Ok (l, total) -> fits bits total.
Proof.
  revert t0 l total. induction cs as [|k cs IH]; intros t0 l total Hf Ht Hs;
    cbn [select_inputs] in Hs; [by injection Hs as <- <-|].
  apply bind_Ok in Hs as (v & Hv & Hs). apply bind_Ok in Hs as (t1 & Ht1 & Hs).
  apply ok_or_Ok, checked_add_Some in Ht1 as [-> Hlt]. apply Hf in Hv; [|left]. unfold fits in *.
  destruct (amount <=? t0 + v); [injection Hs as <- <-; lia|].
  apply bind_Ok in Hs as ([l' t'] & Hs & [= <- <-]).
  apply (IH (t0 + v) l' t'); [|lia|done]. intros k' v' Hk'. apply Hf. by right.
Qed.

Lemma elem_of_shares_by_owner_asset st o a id s :
  (id, s) ∈ shares_by_owner_asset st o a -> shares st !! id = Some s.
Proof.
  intros (k & _ & Hk)%list_elem_of_omap. apply bind_Some in Hk as (s' & Hs & Hk).
  case_decide; [|done]. by injection Hk as <- <-.
Qed.

Section settlement.
Context `{Sha3} `{RootTest, !RootTestSpec}.
Context (application : AssetApplication).

Lemma stage_asset_typed {E} (e : E) call ctx s :
  ledger_typed s -> call_amounts call ->
  wp True (stage_asset application e call ctx) (fun _ s' => ledger_typed s') s.
Proof.
  intros [Hc Ha Hp] Hamt. unfold wp, stage_asset.
  destruct (execute_asset _ _ _ _) as [a [[j|]|]] eqn:He; [|done|done].
  split; cbn; try done. by eapply execute_asset_typed.
Qed.

Lemma settle_transfer_typed id asset q origin s :
  ledger_typed s -> fits 128 (tq_amount q) ->
  wp True (settle_asset_transfer application id asset q origin) (fun _ s' => ledger_typed s') s.
Proof.
  intros Hs Hq. unfold settle_asset_transfer. apply wp_bind, wp_check. intros [ins total] Hsel.
  apply wp_bind, wp_lift. intros change Hch%ok_or_Ok. apply checked_sub_Some in Hch as [-> Hle].
  assert (fits 128 total) as Ht.
  { eapply select_inputs_bound; [|by split|exact Hsel]. intros [k v] w Hin [= <-].
    assert ((k, v) ∈ shares_by_owner_asset (l_assets s) (Program id) asset) as Hin'.
    { eapply elem_of_submseteq; [exact Hin|]. apply sublist_submseteq, sublist_take. }
    apply elem_of_shares_by_owner_asset in Hin'. apply (lt_assets _ Hs) in Hin'.
    by apply fits_pos in Hin'. }
  apply stage_asset_typed; [done|].
  cbn. constructor; [done|]. case_match; constructor; [|constructor]. cbn. unfold fits in *. lia.
Qed.

Lemma settle_asset_typed id result commitment origin s :
  ledger_typed s -> result_typed result ->
  wp True (settle_asset application id result commitment origin) (fun _ s' => ledger_typed s') s.
Proof.
  intros Hs [_ Hat Hre Hmi _]. unfold settle_asset. apply wp_bind.
  apply (wp_mono _ _ (fun _ s1 => ledger_typed s1)).
  { destruct (asset_register result) as [q|]; [|by apply wp_ret]. apply wp_bind.
    unfold settle_register. apply wp_bind, wp_lift. intros md _. apply wp_bind, wp_check.
    intros [r|] _; [case_match; [by do 2 apply wp_ret|apply wp_fail]|].
    apply wp_bind. eapply wp_mono; [apply stage_asset_typed; [done|by apply Hre]|].
    intros j s' Hs'. by do 2 apply wp_ret. }
  intros [registered j1] s1 Hs1. apply wp_bind. apply (wp_mono _ _ (fun _ s2 => ledger_typed s2)).
  { destruct (asset_mint result) as [q|]; [|by apply wp_ret]. apply wp_bind.
    unfold settle_mint. apply wp_bind, wp_lift. intros a _. apply wp_bind, wp_check. intros r _.
    apply wp_bind, wp_lift. intros n _.
    eapply wp_mono; [apply stage_asset_typed; [done|by apply Hmi]|]. intros j s' Hs'. by apply wp_ret. }
  intros j2 s2 Hs2. destruct (asset_transfer result) as [[a q]|]; [|by apply wp_ret].
  apply wp_bind. eapply wp_mono; [apply settle_transfer_typed; [done|by eapply Hat]|].
  intros j s' Hs'. by apply wp_ret.
Qed.

Lemma settle_typed id result commitment sel s :
  ledger_typed s -> result_typed result ->
  wp True (settle_with_inputs application id result commitment sel)
    (fun _ s' => ledger_typed s') s.
Proof.
  intros [Hc Ha Hp] Hr. unfold settle_with_inputs. apply wp_bind, wp_st. intros j s1 Hj.
  apply settle_coin_Ok in Hj as [Hs1 Hwf _ _ _ _]; [|done|].
  2: { intros q Hq. by eapply fits_pos, (rs_coin _ Hr). }
  apply wp_bind. eapply wp_mono; [apply settle_asset_typed; [|done]|intros ? ? ?; by apply wp_ret].
  split; [done|by rewrite Hs1..].
Qed.
End settlement.

(** ** The engine's accounts *)

Lemma account_add_typed {E} bits (ov : E) amount share a b :
  0 <= amount -> fits bits a.1 -> account_add bits ov amount share a = Ok b -> fits bits b.1.
Proof.
  intros Hn Ha Hadd. unfold account_add in Hadd. apply bind_Ok in Hadd as (t & Ht & [= <-]).
  apply ok_or_Ok, checked_add_Some in Ht as [-> Hlt]. unfold fits in *. cbn. lia.
Qed.

Lemma account_sub_typed {E} bits (un : E) amount share a b :
  0 <= amount -> fits bits a.1 -> account_sub un amount share a = Ok b -> fits bits b.1.
Proof.
  intros Hn Ha Hsub. unfold account_sub in Hsub. apply bind_Ok in Hsub as (t & Ht & [= <-]).
  apply ok_or_Ok, checked_sub_Some in Ht as [-> Hlt]. unfold fits in *. cbn. lia.
Qed.

Definition accounts_typed `{Countable K} (bits : Z) (m : gmap K Account) : Prop :=
  map_Forall (fun _ a => fits bits a.1) m.

Lemma accounts_default `{Countable K} bits (m : gmap K Account) k :
  0 <= bits -> accounts_typed bits m -> fits bits (default empty_account (m !! k)).1.
Proof. intros Hb Hm. destruct (m !! k) eqn:Hk; [by apply (Hm k)|]. cbn. unfold fits. lia. Qed.

Lemma change_account_typed `{Countable K} {E} bits (key : K) (f : Account -> result E Account) m m' :
  0 <= bits -> (forall a b, fits bits a.1 -> f a = Ok b -> fits bits b.1) -> accounts_typed bits m ->
  change_account key f m = Ok m' -> accounts_typed bits m'.
Proof.
  intros Hb Hf Hm Hc. unfold change_account in Hc. apply bind_Ok in Hc as (a & Ha & [= <-]).
  apply map_Forall_insert_2; [|done]. eapply Hf; [|exact Ha]. by apply accounts_default.
Qed.

Lemma try_fold_invariant {E A B} (P : A -> Prop) (f : A -> B -> result E A) l a a' :
  (forall a b a', b ∈ l -> P a -> f a b = Ok a' -> P a') -> P a -> try_fold f l a = Ok a' -> P a'.
Proof.
  revert a. induction l as [|b l IH]; intros a Hf Ha Hl; cbn [try_fold] in Hl; [by simplify_eq|].
  apply bind_Ok in Hl as (a1 & H1 & Hl). eapply (IH a1); [|eapply Hf; [left|done..]|done].
  intros ? ? ? Hb. apply Hf. by right.
Qed.

(** ** Typed computations of the engine *)

Record typed_inv (e : Engine) : Prop := {
  ty_state : ledger_typed (e_state e);
  ty_coins : accounts_typed 64 (e_coins e);
  ty_assets : accounts_typed 128 (e_assets e);
}.

(** Every successful run keeps the engine typed and returns a [Q]. *)
Definition types {A} (Q : A -> Prop) (m : VMM A) : Prop :=
  forall e, typed_inv e -> wp True m (fun a e' => typed_inv e' /\ Q a) e.

Section rules.

Lemma types_mono {A} (Q R : A -> Prop) m : types Q m -> (forall a, Q a -> R a) -> types R m.
Proof. intros Hm HQ e He. eapply wp_mono; [by apply Hm|]. intros a e' [? ?]. split; [done|by apply HQ]. Qed.

Lemma types_bind {A B} (Q : A -> Prop) (R : B -> Prop) (m : VMM A) (f : A -> VMM B) :
  types Q m -> (forall a, Q a -> types R (f a)) -> types R (m ≫= f).
Proof.
  intros Hm Hf e He. apply wp_bind. eapply wp_mono; [by apply Hm|]. intros a e' [He' Ha].
  by apply Hf.
Qed.

Lemma types_ret {A} (Q : A -> Prop) a : Q a -> types Q (mret a).
Proof. intros HQ e He. by apply wp_ret. Qed.

Lemma types_check_bind {A B} (f : Engine -> result ExecutionError A) (k : A -> VMM B) R :
  (forall e a, typed_inv e -> f e = Ok a -> types R (k a)) ->
  types R ((stage_check f : VMM A) ≫= k).
Proof. intros Hk e He. apply wp_bind, wp_check. intros a Ha. by apply (Hk e). Qed.

Lemma types_lift_bind {A B} (r : result ExecutionError A) (k : A -> VMM B) R :
  (forall a, r = Ok a -> types R (k a)) -> types R ((stage_lift r : VMM A) ≫= k).
Proof. intros Hk e He. apply wp_bind, wp_lift. intros a Ha. by apply Hk. Qed.

Lemma types_require_bind {B} c err (k : unit -> VMM B) R :
  (c = true -> types R (k tt)) -> types R ((stage_require c err : VMM unit) ≫= k).
Proof. intros Hk e He. apply wp_bind, wp_require. intros Hc. by apply Hk. Qed.

(** Steps that leave the state and the accounts alone. *)
Lemma types_charge_bind {B} n (k : unit -> VMM B) R : types R (k tt) -> types R (charge n ≫= k).
Proof.
  intros Hk. apply (types_bind (fun _ => True)); [|by intros []]. intros e [].
  apply wp_update. intros e' Hu. apply bind_Ok in Hu as (f & Hf & [= <-]). done.
Qed.

Lemma types_action_bind {B} (k : unit -> VMM B) R : types R (k tt) -> types R (action ≫= k).
Proof.
  intros Hk. apply (types_bind (fun _ => True)); [|by intros []]. intros e [].
  apply wp_bind, wp_modify, wp_check. by intros [].
Qed.

Lemma types_ensure_accounts_bind {B} id (k : unit -> VMM B) R :
  types R (k tt) -> types R (ensure_accounts id ≫= k).
Proof.
  intros Hk. apply (types_bind (fun _ => True)); [|by intros []]. intros e He.
  apply wp_update. intros e' Hu. case_bool_decide; [by injection Hu as <-|].
  apply bind_Ok in Hu as (cs & Hcs & Hu). apply bind_Ok in Hu as (sh & Hsh & [= <-]).
  destruct He as [Hs Hc Ha]. split; [|done]. split; cbn; [done| |].
  - eapply (try_fold_invariant (accounts_typed 64)); [|exact Hc|exact Hcs].
    intros m [share c] m' Hin Hm. apply change_account_typed; [done| |done]. intros a b.
    apply account_add_typed. apply elem_of_coins_by_owner in Hin as [Hin _]; [|apply Hs].
    apply (utxo_amounts _ (lt_coins _ Hs)) in Hin. unfold coin_wf in Hin. lia.
  - eapply (try_fold_invariant (accounts_typed 128)); [|exact Ha|exact Hsh].
    intros m [share s] m' Hin Hm. apply change_account_typed; [done| |done]. intros a b.
    apply account_add_typed. unfold shares_by_owner in Hin. rewrite list_elem_of_In, in_flat_map in Hin.
    destruct Hin as (x & _ & Hin). apply list_elem_of_In, list_elem_of_omap in Hin as (k' & _ & Hk').
    apply bind_Some in Hk' as (s' & Hs' & Hk'). case_decide; [|done]. injection Hk' as <- <-.
    apply (lt_assets _ Hs) in Hs'. by apply fits_pos in Hs'.
Qed.

Lemma types_own_record {B} id (k : ProgramRecord -> VMM B) R :
  (forall r, record_typed r -> types R (k r)) -> types R (own_record id ≫= k).
Proof.
  intros Hk e He. unfold own_record. apply wp_bind. unfold wp at 1, stage_unwrap, program.
  destruct (programs _ !! id) as [r|] eqn:Hr; [|done]. apply Hk; [|done].
  by apply (lt_programs _ (ty_state _ He)) in Hr as [_ ?].
Qed.

Definition write_typed (w : VmWrite) : Prop :=
  match w with
  | WriteState _ n => i64 n
  | WriteStorage _ key (Some v) => bytes_wf key /\ blob v
  | WriteStorage _ _ None => True
  end.

Lemma vm_write_typed r wr w r' wr' :
  registry_typed r -> write_typed w -> vm_write (r, wr) w = Some (r', wr') -> registry_typed r'.
Proof.
  intros Hr Hw Hv. destruct w as [id n|id key v]; cbn in Hv.
  - apply bind_Some in Hv as ([before r1] & Hs & [= <- _]). unfold set_state in Hs.
    apply bind_Some in Hs as (record & Hrec & [= _ <-]). case_match; [done|].
    apply map_Forall_insert_2; [|done]. apply Hr in Hrec as [? []]. by split; [|split].
  - apply bind_Some in Hv as (record & Hrec & Hv). apply bind_Some in Hv as (r1 & Hs & [= <- _]).
    unfold set_storage in Hs. rewrite Hrec in Hs. cbn in Hs. case_decide; [by injection Hs as <-|].
    injection Hs as <-. apply map_Forall_insert_2; [|done]. apply Hr in Hrec as [? []].
    split; [done|]. split; cbn; try done. destruct v as [v|]; [by apply map_Forall_insert_2|].
    by apply map_Forall_delete.
Qed.

Lemma set_registry_typed e r wr w :
  typed_inv e -> write_typed w -> vm_write (l_programs (e_state e), e_writes e) w = Some (r, wr) ->
  typed_inv (set_registry r wr e).
Proof.
  intros [[] ? ?] Hw Hv. split; cbn; try done. split; cbn; try done. by eapply vm_write_typed.
Qed.

Lemma types_own_write_bind {B} w (k : unit -> VMM B) R :
  write_typed w -> types R (k tt) -> types R (own_write w ≫= k).
Proof.
  intros Hw Hk. apply (types_bind (fun _ => True)); [|by intros []]. intros e He.
  unfold own_write. apply wp_bind. unfold wp at 1, stage_unwrap.
  destruct (vm_write _ w) as [[r wr]|] eqn:Hv; [|done]. apply wp_modify. split; [|done].
  by eapply set_registry_typed.
Qed.
End rules.

(** ** Typed effects *)

Lemma wp_conj {S E A} (c c' : Prop) (m : Staged S E A) (Q Q' : A -> S -> Prop) s :
  wp c m Q s -> wp c' m Q' s -> wp (c /\ c') m (fun a s' => Q a s' /\ Q' a s') s.
Proof. unfold wp. by destruct (m s) as [[[a s']|]|]. Qed.

(** The old values of a journal were shares of the state it leads back to. *)
Lemma undoes_old j a b k v :
  undoes (Some j) a b -> shares_typed (shares a) -> (k, Some v) ∈ j_shares j -> 0 <= amount v.
Proof.
  intros ([_ Hu] & _ & Hs) Hty Hk. apply (lookup_restore_in (shares b)) in Hk; [|done].
  rewrite Hs in Hk. apply Hty in Hk. by apply fits_pos in Hk.
Qed.

Lemma absorb_consumed_typed e entry e' :
  typed_inv e -> 0 <= cu_amount entry.2 -> absorb_consumed e entry = Ok e' -> typed_inv e'.
Proof.
  destruct entry as [share c]. intros [Hs Hc Ha] Hn Hab. unfold absorb_consumed in Hab.
  apply bind_Ok in Hab as (cs & Hcs & Hab). assert (accounts_typed 64 cs) as Hty.
  { destruct (bool_decide (_ ∈ accounts_ready e)) in Hcs; [|by injection Hcs as <-].
    eapply change_account_typed; [done| |exact Hc|exact Hcs]. intros a b. by apply account_sub_typed. }
  cbn in Hab. destruct (bool_decide (share ∈ _)); injection Hab as <-; split; done.
Qed.

Lemma absorb_created_typed e share e' :
  typed_inv e -> absorb_created e share = Ok e' -> typed_inv e'.
Proof.
  intros [Hs Hc Ha] Hab. unfold absorb_created in Hab. apply bind_Ok in Hab as (c & Hl & Hab).
  apply bind_Ok in Hab as (cs & Hcs & [= <-]). split; cbn; try done.
  case_bool_decide; [|by injection Hcs as <-].
  eapply change_account_typed; [done| |exact Hc|exact Hcs]. intros a b. apply account_add_typed.
  apply ok_or_Ok, (utxo_amounts _ (lt_coins _ Hs)) in Hl. unfold coin_wf in Hl. lia.
Qed.

Lemma types_merge_asset j :
  (forall k v, (k, Some v) ∈ j_shares j -> 0 <= amount v) -> types (fun _ => True) (merge_asset j).
Proof.
  intros Hj e [Hs Hc Ha]. apply wp_update. intros e' Hu. apply bind_Ok in Hu as (m & Hm & [= <-]).
  split; [|done]. split; cbn; try done.
  eapply (try_fold_invariant (accounts_typed 128)); [|exact Ha|exact Hm].
  intros m1 [k prev] m2 Hin Hm1 Hms. unfold merge_share in Hms. apply bind_Ok in Hms as (m3 & H3 & Hms).
  assert (accounts_typed 128 m3) as Hm3.
  { destruct prev as [v|]; [|by injection H3 as <-]. case_bool_decide; [|by injection H3 as <-].
    eapply change_account_typed; [done| |exact Hm1|exact H3]. intros a b. apply account_sub_typed.
    by eapply Hj. }
  destruct (shares _ !! k) as [v|] eqn:Hk; [|by injection Hms as <-].
  case_bool_decide; [|by injection Hms as <-].
  eapply change_account_typed; [done| |exact Hm3|exact Hms]. intros a b. apply account_add_typed.
  apply (lt_assets _ Hs) in Hk. by apply fits_pos in Hk.
Qed.

Section effects.
Context `{Sha3} `{RootTest, !RootTestSpec}.
Context (application : AssetApplication) (signer : ProgramId) (height : Z) (invocation : Hash).

Lemma types_asset_call error call ctx :
  call_amounts call ->
  types (fun _ => True)
    (journal ← on_state (stage_asset application error call ctx); merge_asset journal).
Proof.
  intros Hamt e He. apply wp_bind. unfold wp at 1, on_state.
  pose proof (wp_conj _ _ _ _ _ _ (wp_stage_asset application error call ctx (e_state e))
    (stage_asset_typed application error call ctx (e_state e) (ty_state _ He) Hamt)) as Hw.
  unfold wp in Hw. destruct (stage_asset _ _ _ _ _) as [[[j s]|]|]; [|done|done].
  destruct Hw as [[_ Hj] Hs]. apply types_merge_asset; [|by destruct He].
  intros k v. apply (undoes_old _ _ _ _ _ Hj). apply (lt_assets _ (ty_state _ He)).
Qed.

Lemma settled_typed e s1 s2 actor cj aj :
  typed_inv e -> ledger_typed s2 -> coin_settled (e_state e) s1 actor cj -> asset_settled aj s1 s2 ->
  wp True
    (_ ← (stage_update (fun e => try_fold absorb_consumed (consumed_coins cj) e) : VMM unit);
     _ ← (stage_update (fun e => try_fold absorb_created (created_coin_ids cj) e) : VMM unit);
     match aj with Some journal => merge_asset journal | None => mret tt end)
    (fun _ e' => typed_inv e' /\ True) (put_state s2 e).
Proof.
  intros [Hs Hc Ha] Hs2 [Hrest _ _ Hown _ _] [_ Hj].
  apply wp_bind, wp_update. intros e1 He1. assert (typed_inv e1) as Ht1.
  { apply (try_fold_invariant typed_inv _ _ (put_state s2 e) e1) in He1; [done| |by split].
    intros e' [k c] e'' Hin Hty.
    apply absorb_consumed_typed; [done|]. apply Hown in Hin as [Hin _].
    apply (utxo_amounts _ (lt_coins _ Hs)) in Hin. unfold coin_wf in Hin. cbn. lia. }
  apply wp_bind, wp_update. intros e2 He2. assert (typed_inv e2) as Ht2.
  { eapply (try_fold_invariant typed_inv); [|exact Ht1|exact He2]. intros e' k e'' _.
    apply absorb_created_typed. }
  destruct aj as [j|]; [|by apply wp_ret]. apply types_merge_asset; [|done].
  intros k v. apply (undoes_old _ _ _ _ _ Hj). rewrite Hrest. apply (lt_assets _ Hs).
Qed.

Lemma types_engine_settle id result legacy :
  result_typed result ->
  types (fun _ => True) (engine_settle application invocation id result legacy).
Proof.
  intros Hr. unfold engine_settle. apply types_ensure_accounts_bind.
  apply (types_bind (fun _ => True)).
  { destruct (coin_transfer result); [|by apply types_ret]. apply types_check_bind. intros e sel _ _.
    destruct legacy; [by apply types_ret|]. apply types_charge_bind. by apply types_ret. }
  intros sel _. apply types_action_bind, types_check_bind. intros e0 commitment _ _ e He.
  apply wp_bind. unfold wp at 1, on_state.
  pose proof (wp_map_err _ (fun _ => SettlementFailed) _ _ _ (wp_conj _ _ _ _ _ _
    (wp_settle_with_inputs application id result commitment (Some sel) (e_state e)
       (lt_coins _ (ty_state _ He)) (fun q Hq => fits_pos _ _ (rs_coin _ Hr q Hq)))
    (settle_typed application id result commitment (Some sel) (e_state e) (ty_state _ He) Hr))) as Hw.
  unfold wp in Hw. destruct (stage_map_err _ _ _) as [[[[cj aj] s2]|]|]; [|done|done].
  destruct Hw as [(s1 & Hc & Ha) Hs2]. by eapply settled_typed.
Qed.

Lemma output_total_fits outputs t total :
  Forall (fun o => 0 <= ao_amount o) outputs -> fits 128 t ->
  try_fold output_total_step outputs t = Ok total ->
  fits 128 total /\ Forall (fun o => fits 128 (ao_amount o)) outputs.
Proof.
  revert t. induction outputs as [|o outputs IH]; intros t Hpos Ht Hf; cbn [try_fold] in Hf.
  { by injection Hf as <-. }
  apply Forall_cons in Hpos as [Ho Hpos]. apply bind_Ok in Hf as (t1 & Hst & Hf).
  unfold output_total_step in Hst. apply guard_err_Ok in Hst as [_ Hst].
  apply ok_or_Ok, checked_add_Some in Hst as [-> Hlt]. unfold fits in *.
  destruct (IH (t + ao_amount o) Hpos) as [Htot Hall]; [lia|done|].
  split; [done|]. constructor; [lia|done].
Qed.

Lemma select_shares_fits e id a n ins total :
  typed_inv e -> select_shares e id a n = Ok (ins, total) -> fits 128 total.
Proof.
  intros He Hs. unfold select_shares in Hs. destruct (e_assets e !! _) as [acc|];
    [|by injection Hs as <- <-]. eapply select_inputs_bound; [|by split|exact Hs].
  intros k v _ Hv. apply bind_Ok in Hv as (s & Hk%ok_or_Ok & [= <-]).
  apply (lt_assets _ (ty_state _ He)) in Hk. by apply fits_pos in Hk.
Qed.

Lemma types_transfer_outputs id a outputs multiple :
  Forall (fun o => 0 <= ao_amount o) outputs ->
  types (fun _ => True) (transfer_asset_outputs application invocation id a outputs multiple).
Proof.
  intros Hpos. unfold transfer_asset_outputs. apply types_ensure_accounts_bind, types_lift_bind.
  intros n Hn. apply output_total_fits in Hn as [Hn Hall]; [|done|by split].
  apply types_require_bind. intros _. apply types_action_bind, types_check_bind.
  intros e [ins total] He Hsel. apply (select_shares_fits _ _ _ _ _ _ He) in Hsel.
  apply types_charge_bind, types_lift_bind. intros change Hch%ok_or_Ok.
  apply checked_sub_Some in Hch as [-> Hle]. apply types_require_bind. intros _.
  apply types_check_bind. intros e' commitment _ _. apply types_asset_call. cbn.
  apply Forall_app. split; [done|]. case_match; constructor; [|constructor]. cbn.
  unfold fits in *. lia.
Qed.

Lemma types_transfer_many id a outputs :
  Forall (fun o => 0 <= ao_amount o) outputs ->
  types (fun _ => True) (transfer_asset_many application invocation id a outputs).
Proof.
  intros Hpos. unfold transfer_asset_many. apply types_require_bind. intros _.
  by apply types_charge_bind, types_transfer_outputs.
Qed.

Lemma types_burn_asset id a n :
  0 <= n -> types (fun _ => True) (engine_burn_asset application invocation id a n).
Proof.
  intros Hn. unfold engine_burn_asset. apply types_ensure_accounts_bind, types_require_bind.
  intros _. apply types_action_bind, types_check_bind. intros e [ins total] He Hsel.
  apply (select_shares_fits _ _ _ _ _ _ He) in Hsel.
  apply types_charge_bind, types_lift_bind. intros change Hch%ok_or_Ok.
  apply checked_sub_Some in Hch as [-> Hle]. apply types_check_bind. intros e' commitment _ _.
  apply types_asset_call. cbn. unfold fits in *. lia.
Qed.
End effects.

(** ** Typed values and instructions *)

Definition value_typed (v : Value) : Prop :=
  match v with VInt n => fits 128 n | VBytes bytes => blob bytes | VOwner o => owner_wf o end.

Definition flow_typed (f : Flow) : Prop :=
  match f with Next _ stack => Forall value_typed stack | Finish n => fits 128 n end.

Record frame_typed (f : Frame) : Prop := {
  ft_id : hash_wf (f_id f);
  ft_caller : owner_wf (f_caller f);
  ft_data : blob (f_data f);
  ft_deposit : fits 64 (f_deposit f);
}.

Lemma pop_typed stack v rest :
  Forall value_typed stack -> pop stack = Ok (v, rest) -> value_typed v /\ Forall value_typed rest.
Proof. destruct stack; [done|]. intros [? ?]%Forall_cons [= <- <-]. done. Qed.

Lemma pop_int_typed stack n rest :
  Forall value_typed stack -> pop_int stack = Ok (n, rest) -> fits 128 n /\ Forall value_typed rest.
Proof.
  intros Hs Hp. apply bind_Ok in Hp as ([v s] & Hp & Hv). apply pop_typed in Hp as [Ht ?]; [|done].
  apply bind_Ok in Hv as (m & Hm & [= <- <-]). destruct v; [|done..]. by injection Hm as <-.
Qed.

Lemma pop_bytes_typed stack b rest :
  Forall value_typed stack -> pop_bytes stack = Ok (b, rest) -> blob b /\ Forall value_typed rest.
Proof.
  intros Hs Hp. apply bind_Ok in Hp as ([v s] & Hp & Hv). apply pop_typed in Hp as [Ht ?]; [|done].
  apply bind_Ok in Hv as (m & Hm & [= <- <-]). destruct v; [done| |done]. by injection Hm as <-.
Qed.

Lemma pop_owner_typed stack o rest :
  Forall value_typed stack -> pop_owner stack = Ok (o, rest) -> owner_wf o /\ Forall value_typed rest.
Proof.
  intros Hs Hp. apply bind_Ok in Hp as ([v s] & Hp & Hv). apply pop_typed in Hp as [Ht ?]; [|done].
  apply bind_Ok in Hv as (m & Hm & [= <- <-]). destruct v; [done..|]. by injection Hm as <-.
Qed.

Lemma pop_narrow_typed bits err stack m rest :
  Forall value_typed stack ->
  ('(n, stack) ← pop_int stack; n ← narrow bits err n; Ok (n, stack)) = Ok (m, rest) ->
  fits bits m /\ Forall value_typed rest.
Proof.
  intros Hs Hn. apply bind_Ok in Hn as ([n s] & Hp & Hn). apply pop_int_typed in Hp as [_ ?]; [|done].
  apply bind_Ok in Hn as (m' & Hm & [= <- <-]). unfold narrow in Hm. case_match; [|done].
  injection Hm as <-. split; [unfold fits; lia|done].
Qed.

Lemma pop_asset_typed stack a rest :
  Forall value_typed stack ->
  ('(bytes, stack) ← pop_bytes stack; asset ← asset_id bytes; Ok (asset, stack)) = Ok (a, rest) ->
  Forall value_typed rest.
Proof.
  intros Hs Hn. apply bind_Ok in Hn as ([n s] & Hp & Hn). apply pop_bytes_typed in Hp as [_ ?]; [|done].
  by apply bind_Ok in Hn as (m' & Hm & [= <- <-]).
Qed.

Lemma pop_value_typed (c : bool) stack v rest :
  Forall value_typed stack ->
  (if c then '(v, stack) ← pop_bytes stack; Ok (Some v, stack) else Ok (None, stack)) = Ok (v, rest) ->
  match v with Some b => blob b | None => True end /\ Forall value_typed rest.
Proof.
  intros Hs Hp. destruct c; [|by injection Hp as <- <-].
  apply bind_Ok in Hp as ([b s] & Hp & [= <- <-]). by apply pop_bytes_typed in Hp.
Qed.

Lemma blob_short bytes : bytes_wf bytes -> (length bytes <= 256)%nat -> blob bytes.
Proof. split; [done|lia]. Qed.

Lemma arithmetic_fits op a b n :
  fits 128 a -> fits 128 b -> arithmetic op a b = Some n -> fits 128 n.
Proof.
  unfold arithmetic, fits, bool_u128. intros Ha Hb Hn.
  assert (0 <= a / b < 2 ^ 128 \/ b = 0) as Hd.
  { destruct (Z.eq_dec b 0); [by right|left]. split; [apply Z.div_pos; lia|].
    apply Z.div_lt_upper_bound; nia. }
  repeat match type of Hn with (if ?c then _ else _) = _ => destruct c eqn:? end.
  - apply checked_add_Some in Hn. lia.
  - apply checked_sub_Some in Hn. lia.
  - apply checked_mul_Some in Hn as [-> Hlt]. split; [nia|done].
  - done.
  - injection Hn as <-. lia.
  - injection Hn as <-. case_match; lia.
  - injection Hn as <-. case_match; lia.
Qed.

Lemma enc_owner_blob o : owner_wf o -> blob (enc_owner o).
Proof.
  intros Ho. apply blob_short; [|rewrite length_enc_owner by done; lia].
  constructor; [lia|apply Ho].
Qed.

Lemma hash_blob h : hash_wf h -> blob h.
Proof. intros [Hl Hb]. apply blob_short; [done|rewrite Hl; unfold HASH_SIZE; lia]. Qed.

Lemma le_bytes_blob n : blob (le_bytes 16 n).
Proof. apply blob_short; [apply le_bytes_wf|]. rewrite length_le_bytes. lia. Qed.

Lemma bool_fits b : fits 128 (bool_u128 b).
Proof. by destruct b. Qed.

Section pure.
Context (signer : ProgramId) (height : Z).
Context (Hsigner : hash_wf signer) (Hheight : fits 64 height).

Lemma exec_pure_typed f i stack flow :
  frame_typed f -> blob (immediate i) -> Forall value_typed stack ->
  exec_pure signer height f i stack = Some (Ok flow) -> flow_typed flow.
Proof using Hsigner Hheight.
  intros [Hid Hca _ Hde] [Himm _] Hs He. unfold exec_pure in He.
  repeat match type of He with (if ?c then _ else _) = _ => destruct c eqn:? end;
    try discriminate He; try match type of He with
    | Some (Ok _) = Some (Ok _) => injection He as <-
    | Some _ = Some _ => injection He as He
    end; try done.
  - apply Forall_cons_2; [|done]. assert (length (immediate i) = 16%nat) as Hl by (by apply Nat.eqb_eq).
    pose proof (le_val_bounds _ Himm) as Hb. rewrite Hl in Hb. exact Hb.
  - apply bind_Ok in He as ([b s1] & Hb & He). apply pop_int_typed in Hb as [Hb Hs1]; [|done].
    apply bind_Ok in He as ([a s2] & Ha & He). apply pop_int_typed in Ha as [Ha Hs2]; [|done].
    apply bind_Ok in He as (n & Hn%ok_or_Ok & [= <-]). apply Forall_cons_2; [exact (arithmetic_fits _ _ _ _ Ha Hb Hn)|done].
  - apply guard_err_Ok in He as [_ He]. apply bind_Ok in He as ([n s] & Hn & [= <-]).
    by apply pop_int_typed in Hn as [? _].
  - destruct (dec_owner _) as [[o [|]]|] eqn:Ho; [|done..]. injection He as <-.
    apply dec_owner_typed in Ho as [? _]; [|done]. by apply Forall_cons_2.
  - by apply Forall_cons_2.
  - by apply Forall_cons_2.
  - by apply Forall_cons_2.
  - apply bind_Ok in He as ([v s] & Hv & [= <-]). by apply pop_typed in Hv as [_ ?].
  - destruct stack as [|a [|b s]]; [done..|]. injection He as <-. cbn.
    apply Forall_cons in Hs as [? Hs]. apply Forall_cons in Hs as [? Hs]. by repeat apply Forall_cons_2.
  - apply bind_Ok in He as ([r s] & Hr & He). apply pop_typed in Hr as [_ Hs1]; [|done].
    apply bind_Ok in He as ([l s'] & Hl & [= <-]). apply pop_typed in Hl as [_ Hs2]; [|done].
    apply Forall_cons_2; [apply bool_fits|done].
  - destruct (pop_int stack) as [[n s]|] eqn:Hp; [|done]. apply pop_int_typed in Hp as [_ ?]; [|done].
    repeat case_match; by simplify_eq.
  - apply bind_Ok in He as ([n s] & Hn & He). apply guard_err_Ok in He as [_ [= <-]].
    by apply pop_int_typed in Hn as [_ ?].
  - apply bind_Ok in He as ([b s] & Hb & He). apply pop_bytes_typed in Hb as [[Hb _] Hs1]; [|done].
    apply bind_Ok in He as (n & Hn & [= <-]). apply Forall_cons_2; [|done]. case_bool_decide.
    { by injection Hn as <-. }
    case_match eqn:Hl; [|done]. injection Hn as <-. apply Nat.eqb_eq in Hl.
    pose proof (le_val_bounds _ Hb) as Hbd. rewrite Hl in Hbd. exact Hbd.
  - apply bind_Ok in He as ([n s] & Hn & [= <-]). apply pop_int_typed in Hn as [_ Hs1]; [|done].
    apply Forall_cons_2; [|done]. apply le_bytes_blob.
  - apply bind_Ok in He as ([o s] & Ho & [= <-]). apply pop_owner_typed in Ho as [Ho Hs1]; [|done].
    apply Forall_cons_2; [by apply enc_owner_blob|done].
  - apply bind_Ok in He as ([b s] & Hb & He). apply pop_bytes_typed in Hb as [[Hb _] Hs1]; [|done].
    destruct (dec_owner b) as [[o [|]]|] eqn:Ho; [|done..]. injection He as <-.
    apply dec_owner_typed in Ho as [? _]; [|done]. by apply Forall_cons_2.
  - apply bind_Ok in He as ([b s] & Hb & [= <-]). apply pop_bytes_typed in Hb as [[_ Hb] Hs1]; [|done].
    apply Forall_cons_2; [|done]. cbn. unfold fits. lia.
  - apply Forall_cons_2; [|done]. cbn. unfold fits in *. lia.
  - apply Forall_cons_2; [|done]. cbn. unfold fits in *. lia.
Qed.
End pure.

(** Work through a sequence of typed primitives, typing what is popped. *)
Ltac typed_pop :=
  match goal with
  | H : pop _ = Ok _ |- _ => apply pop_typed in H as [? ?]; [|done]
  | H : pop_int _ = Ok _ |- _ => apply pop_int_typed in H as [? ?]; [|done]
  | H : pop_bytes _ = Ok _ |- _ => apply pop_bytes_typed in H as [? ?]; [|done]
  | H : pop_owner _ = Ok _ |- _ => apply pop_owner_typed in H as [? ?]; [|done]
  | H : (pop_int _ ≫= _) = Ok _ |- _ => apply pop_narrow_typed in H as [? ?]; [|done]
  | H : (if _ then pop_bytes _ ≫= _ else _) = Ok _ |- _ =>
      apply pop_value_typed in H as [? ?]; [|done]
  | H : (pop_bytes _ ≫= _) = Ok _ |- _ => apply pop_asset_typed in H; [|done]
  end.

Ltac types_step :=
  match goal with
  | |- types _ (stage_lift _ ≫= _) =>
      apply types_lift_bind; let a := fresh "a" in intros a ?;
      repeat match type of a with (_ * _)%type => destruct a as [a ?] end; try typed_pop
  | |- types _ (stage_require _ _ ≫= _) => apply types_require_bind; intros ?
  | |- types _ (charge _ ≫= _) => apply types_charge_bind
  | |- types _ (action ≫= _) => apply types_action_bind
  | |- types _ (ensure_accounts _ ≫= _) => apply types_ensure_accounts_bind
  | |- types _ (own_record _ ≫= _) => apply types_own_record; intros ? ?
  | |- types _ (own_write _ ≫= _) => apply types_own_write_bind
  | |- types flow_typed (mret _) => apply types_ret; try done
  end.

Lemma slice_blob bytes start len b : blob bytes -> slice bytes start len = Some b -> blob b.
Proof.
  intros [Hb Hl] Hs. unfold slice, bytes_at in Hs. case_match; [|done]. injection Hs as <-.
  split; [by apply Forall_take, Forall_drop|]. rewrite length_take, length_drop. lia.
Qed.

Section instructions.
Context `{Sha3} {Hspec : Sha3Spec} `{RootTest} {Hroot : RootTestSpec}.
Context (application : AssetApplication) (signer : ProgramId) (height : Z) (invocation : Hash).
Context (Hsigner : hash_wf signer) (Hheight : fits 64 height).

Lemma types_storage f i stack :
  frame_typed f -> blob (immediate i) -> Forall value_typed stack ->
  types flow_typed (exec_storage signer height f i stack).
Proof using Hsigner Hheight Hspec.
  intros Hf Hi Hs. unfold exec_storage. cbn zeta.
  repeat match goal with |- types _ (if ?b then _ else _) => destruct b eqn:? end;
    repeat types_step.
  - apply Forall_cons_2; [|done]. unfold as_u128. cbn. unfold fits. apply Z.mod_pos_bound. lia.
  - cbn. unfold i64, fits in *. lia.
  - by apply Forall_cons_2.
  - apply Forall_cons_2; [apply Hf|done].
  - apply (types_bind (fun _ => True)); [|intros ? _; types_step; by apply Forall_cons_2].
    destruct a; [by apply types_ret| |by apply types_ret]. intros e [].
    apply wp_update. intros e' Hu. by apply bind_Ok in Hu as (n & Hn & [= <-]).
  - apply Forall_cons_2; [|done]. rename select (blob a) into Ha. rename select (blob a0) into Hb.
    split; [apply Forall_app; split; [apply Hb|apply Ha]|]. unfold MAX_DATA_BYTES in *.
    rewrite length_app. lia.
  - apply Forall_cons_2; [|done]. destruct (storage r !! a) as [v|] eqn:Hv; [|apply blob_short; [constructor|cbn; lia]].
    rename select (record_typed r) into Hr. by apply (rt_storage _ Hr) in Hv as [_ ?].
  - rename select (blob a0) into Ha0. destruct a; cbn; [split; [apply Ha0|done]|done].
  - apply Forall_cons_2; [|done]. rename select (ok_or (slice _ _ _) _ = _) into Hsl.
    apply ok_or_Ok in Hsl. by eapply slice_blob.
  - apply Forall_cons_2; [|done]. apply hash_blob, Hspec.
  - apply Forall_cons_2; [|done]. by rename select (record_typed r) into Hr; apply Hr.
  - intros e He. unfold wp, lift_pure. destruct (exec_pure _ _ _ _ _) as [[fl|]|] eqn:Hp; [|done|done].
    split; [done|]. by eapply exec_pure_typed.
Qed.

Lemma decode_outputs_typed n reader outs rest :
  bytes_wf reader -> decode_outputs n reader = Ok (outs, rest) ->
  Forall (fun o => 0 <= ao_amount o) outs.
Proof.
  revert reader outs rest. induction n as [|n IH]; intros reader outs rest Hwf Hd;
    cbn [decode_outputs] in Hd; [by injection Hd as <- <-|].
  apply bind_Ok in Hd as ([o b] & Ho%ok_or_Ok & Hd). apply guard_err_Ok in Hd as [_ Hd].
  apply bind_Ok in Hd as ([os b'] & Hos & [= <- <-]). unfold dec_output in Ho.
  apply bind_Some in Ho as ([r b1] & Hr & Ho). apply dec_owner_typed in Hr as [_ Hb1]; [|done].
  apply bind_Some in Ho as ([m b2] & Hm & [= <- <-]). apply (dec_uint_fits 16) in Hm as [Hm Hb2]; [|done].
  constructor; [by apply fits_pos in Hm|]. by eapply IH.
Qed.

Lemma decode_transfer_typed bytes a outs :
  bytes_wf bytes -> decode_asset_transfer bytes = Ok (a, outs) ->
  Forall (fun o => 0 <= ao_amount o) outs.
Proof.
  intros Hwf Hd. unfold decode_asset_transfer in Hd. apply bind_Ok in Hd as ([x b] & Hx%ok_or_Ok & Hd).
  apply dec_raw_wf in Hx; [|done]. apply bind_Ok in Hd as ([n b1] & Hn%ok_or_Ok & Hd).
  apply dec_uint_fits in Hn as [_ Hb1]; [|done]. apply guard_err_Ok in Hd as [_ Hd].
  apply bind_Ok in Hd as ([os b2] & Hos & Hd). apply guard_err_Ok in Hd as [_ [= <- <-]].
  by eapply decode_outputs_typed.
Qed.

Lemma coin_effect_typed o n : fits 64 n -> result_typed (coin_effect o n).
Proof. intros Hn. split; cbn; try done. by intros ? [= <-]. Qed.

Lemma register_effect_typed q : fits 128 (rq_initial_mint q) -> result_typed (register_effect q).
Proof. intros Hn. split; cbn; try done. by intros ? [= <-]. Qed.

Lemma mint_effect_typed a o n : fits 128 n -> result_typed (mint_effect a o n).
Proof. intros Hn. split; cbn; try done. by intros ? [= <-]. Qed.

(** A nested call on typed arguments returns a typed value. *)
Definition types_call (call : Call) : Prop :=
  forall id caller data deposit, hash_wf id -> owner_wf caller -> blob data -> fits 64 deposit ->
    types (fits 128) (call id caller data deposit).

Lemma types_call_bind {A} (m : VMM A) (k : A -> VMM Flow) Q :
  types Q m -> (forall a, Q a -> types flow_typed (k a)) -> types flow_typed (m ≫= k).
Proof. apply types_bind. Qed.

Lemma types_exec_op call f i stack :
  types_call call -> frame_typed f -> blob (immediate i) -> Forall value_typed stack ->
  types flow_typed (exec_op application signer height invocation call f i stack).
Proof using Hsigner Hheight Hspec Hroot.
  intros Hcall Hf Hi Hs. unfold exec_op. cbn zeta.
  repeat match goal with |- types _ (if ?b then _ else _) => destruct b eqn:? end;
    repeat types_step.
  - rename select (map_err _ (decode_register_request _) = Ok _) into Hd. apply map_err_Ok_inv in Hd.
    apply decode_register_typed in Hd as [Hq _]; [|by rename select (blob a) into Hb; apply Hb].
    eapply types_call_bind; [by apply types_engine_settle, register_effect_typed|]. intros _ _.
    types_step. apply Forall_cons_2; [apply hash_blob, Hspec|done].
  - apply types_check_bind. intros e b He [= <-]. types_step. apply Forall_cons_2; [|done].
    apply accounts_default; [done|apply He].
  - apply types_check_bind. intros e b He [= <-]. types_step. apply Forall_cons_2; [|done].
    pose proof (accounts_default 64 _ (f_id f) ltac:(done) (ty_coins _ He)). cbn. unfold fits in *. lia.
  - eapply types_call_bind; [by apply types_engine_settle, coin_effect_typed|]. intros _ _. by types_step.
  - eapply types_call_bind; [apply types_transfer_outputs|intros _ _; by types_step].
    constructor; [|constructor]. cbn. by eapply fits_pos.
  - rename select (decode_asset_transfer _ = _) into Hd. apply decode_transfer_typed in Hd;
      [|by rename select (blob a) into Hb; apply Hb].
    eapply types_call_bind; [by apply types_transfer_many|intros _ _; by types_step].
  - eapply types_call_bind; [by apply types_engine_settle, mint_effect_typed|]. intros _ _. by types_step.
  - eapply types_call_bind; [by apply Hcall; [|apply Hf|..]|]. intros n Hn. types_step.
    by apply Forall_cons_2.
  - eapply types_call_bind; [by apply types_engine_settle, coin_effect_typed|]. intros _ _.
    eapply types_call_bind; [by apply Hcall; [|apply Hf|..]|]. intros n Hn. types_step.
    by apply Forall_cons_2.
  - eapply types_call_bind; [by eapply types_burn_asset, fits_pos|intros _ _; by types_step].
  - by apply types_storage.
Qed.
End instructions.

(** ** Frames and calls *)

Lemma instructions_blob code decoded :
  blob code -> instructions code = Ok decoded -> map_Forall (fun _ i => blob (immediate i)) decoded.
Proof.
  intros Hb Hi pc i Hpc. unfold instructions in Hi. apply guard_err_Ok in Hi as [Hh Hi].
  apply guard_err_Ok in Hi as [_ Hi]. apply bind_Ok in Hi as ([d ret] & Hl & Hi).
  apply guard_err_Ok in Hi as [_ Hi]. apply guard_err_Ok in Hi as [_ [= ->]].
  apply orb_false_iff in Hh as [Hh _]. apply orb_false_iff in Hh as [Hh _]. apply Z.ltb_ge in Hh.
  apply decode_loop_flows in Hl as [Hf _];
    [|apply Hb|unfold HEADER in *; lia..|by intros ? ?; rewrite lookup_empty|by left].
  destruct (Hf _ _ Hpc) as (Hd & _ & _). unfold decode_instruction in Hd.
  apply bind_Ok in Hd as ([from n] & _ & Hd). apply bind_Ok in Hd as (bytes & Hsl%ok_or_Ok & Hd).
  apply guard_err_Ok in Hd as [_ [= <-]]. cbn. by eapply slice_blob.
Qed.

Section calls.
Context `{Sha3} {Hspec : Sha3Spec} `{RootTest} {Hroot : RootTestSpec}.
Context (application : AssetApplication) (signer : ProgramId) (height : Z) (invocation : Hash).
Context (Hsigner : hash_wf signer) (Hheight : fits 64 height).

Lemma types_frame_loop call f limits decoded gas pc stack :
  types_call call -> frame_typed f -> map_Forall (fun _ i => blob (immediate i)) decoded ->
  Forall value_typed stack ->
  types (fits 128) (frame_loop application signer height invocation gas call f limits decoded pc stack).
Proof using Hsigner Hheight Hspec Hroot.
  intros Hcall Hf Hdec. revert pc stack. induction gas as [|gas IH]; intros pc stack Hs; [done|].
  cbn [frame_loop]. apply types_lift_bind. intros i Hi%ok_or_Ok. apply types_charge_bind.
  eapply types_bind; [apply (types_exec_op application signer height invocation Hsigner Hheight);
    [done|done|by eapply Hdec|done]|].
  intros [pc' stack'|n] Hfl; [|by apply types_ret]. apply types_require_bind. intros _. by apply IH.
Qed.

Lemma types_interpret call f code :
  types_call call -> frame_typed f -> blob code ->
  types (fits 128) (interpret application signer height invocation call f code).
Proof using Hsigner Hheight Hspec Hroot.
  intros Hcall Hf Hb. unfold interpret. apply types_lift_bind. intros limits _.
  apply types_lift_bind. intros decoded Hd%map_err_Ok_inv. apply types_charge_bind. intros e He.
  apply types_frame_loop; [done|done|by eapply instructions_blob|constructor|done].
Qed.

Lemma types_call_scalar id data :
  types (fits 128) (call_scalar application invocation id data).
Proof using Hroot.
  unfold call_scalar. apply types_require_bind. intros _ e He. apply wp_bind.
  unfold wp at 1, execute_registered, program.
  destruct (programs _ !! id) as [r|] eqn:Hr; [|done].
  destruct (execute_code_with_state _ _ _) as [[result|]|] eqn:Hx; [|done|done].
  apply (lt_programs _ (ty_state _ He)) in Hr as [_ [_ [Hc _] _ _ _ Hst _]].
  apply execute_code_typed in Hx; [|done|done].
  cbn [mbind result_mbind]. refine (types_charge_bind _ _ _ _ e He).
  apply types_check_bind. intros e0 root _ _. apply (types_bind (fun _ => True)).
  { destruct (has_monetary_effects result); [by apply types_engine_settle|by apply types_ret]. }
  intros _ _. apply (types_bind (fun _ => True)).
  - destruct (proposed_effect result) as [[n]|] eqn:Hn; [|by apply types_ret].
    intros e1 He1. apply wp_bind, wp_check. intros [r' wr] Hw%ok_or_Ok. apply wp_modify.
    split; [|done]. eapply set_registry_typed; [done| |exact Hw]. by apply (rs_state _ Hx).
  - intros _ _. apply types_ret. unfold as_u128, fits. apply Z.mod_pos_bound. lia.
Qed.

Lemma call_typed depth : types_call (call application signer height invocation depth).
Proof using Hsigner Hheight Hspec Hroot.
  induction depth as [|depth IH]; intros id caller data deposit Hid Hca Hda Hde.
  all: cbn [call]; apply types_check_bind; intros _ [] _ _; apply types_check_bind;
    intros _ [] _ _; apply types_check_bind; intros e record He Hrec%ok_or_Ok;
    apply (lt_programs _ (ty_state _ He)) in Hrec as [_ Hrec].
  all: apply (types_bind (fun _ => True)); [intros e1 []; by apply wp_modify|intros _ _].
  all: intros e2 He2; apply wp_bind; unfold wp at 1, stage_unwrap;
    destruct (code record !! 4%nat) as [version|]; [|done]; revert e2 He2.
  all: eapply (types_bind (fits 128)); [|intros n Hn; apply (types_bind (fun _ => True));
    [intros e3 []; by apply wp_modify|intros _ _; by apply types_ret]].
  all: destruct (negb _); [apply types_call_scalar|].
  { done. }
  apply types_interpret; [done|by split|apply Hrec].
Qed.
End calls.

(** ** Invocations *)

(** The values an invocation's Rust types can hold. *)
Record invocation_typed (tx : AuthorizedProgramInvocation) : Prop := {
  it_signer : hash_wf (ai_signer tx);
  it_payload : bytes_wf (pc_payload (ai_call tx));
  it_outputs : Forall (fun o => fits 64 (co_amount o)) (ct_outputs (ai_payment tx));
}.

Lemma deposit_of_fits payment id deposit :
  Forall (fun o => fits 64 (co_amount o)) (ct_outputs payment) ->
  deposit_of payment id = Ok deposit -> fits 64 deposit.
Proof.
  intros Ho Hd. unfold deposit_of in Hd.
  apply (try_fold_invariant (fits 64)) in Hd; [done| |by split].
  intros t o t' Hin Ht Hs. apply list_elem_of_filter in Hin as [_ Hin].
  rewrite Forall_forall in Ho. apply Ho in Hin.
  apply ok_or_Ok, checked_add_Some in Hs as [-> Hlt]. unfold fits in *. lia.
Qed.

Lemma engine_start_typed s : ledger_typed s -> typed_inv (engine_start s).
Proof. intros Hs. split; cbn; [done|by intros ? ?; rewrite lookup_empty..]. Qed.

Lemma vm_apply_typed `{Sha3} {Hspec : Sha3Spec} `{RootTest} {Hroot : RootTestSpec}
    application tx height commitment s applied s' :
  ledger_typed s -> invocation_typed tx -> fits 64 height ->
  vm_apply application tx height commitment s = Returned (Ok (applied, s')) ->
  ledger_typed s' /\ fits 128 (av_value applied).
Proof.
  intros Hs [Hsig Hpay Hout] Hh Hv. unfold vm_apply in Hv.
  destruct (_ ≫= _) as [[[id data] deposit]|] eqn:Hin; [|done].
  apply bind_Ok in Hin as ([i d] & Hin%map_err_Ok_inv & Hdep).
  apply bind_Ok in Hdep as (dep & Hdep & [= <- <- <-]). cbn [fst] in Hdep.
  unfold call_input in Hin. apply guard_err_Ok in Hin as [Hg [= <- <-]].
  repeat (apply orb_false_iff in Hg as [Hg ?]).
  pose proof (call_typed application (ai_signer tx) height commitment Hsig Hh
    (Z.to_nat MAX_CALL_DEPTH) (take 32 (pc_payload (ai_call tx))) (Program (ai_signer tx))
    (drop 32 (pc_payload (ai_call tx))) dep) as Hc. unfold types, wp in Hc.
  assert (hash_wf (take 32 (pc_payload (ai_call tx)))) as Hid.
  { split; [rewrite length_take; unfold HASH_SIZE; lia|by apply Forall_take]. }
  assert (blob (drop 32 (pc_payload (ai_call tx)))) as Hdata.
  { split; [by apply Forall_drop|]. rewrite length_drop. unfold MAX_DATA_BYTES in *. lia. }
  specialize (Hc Hid Hsig Hdata (deposit_of_fits _ _ _ Hout Hdep) _ (engine_start_typed _ Hs)).
  destruct (call _ _ _ _ _ _ _ _ _ _) as [[[n e]|]|]; [|done|done]. injection Hv as Hv.
  apply bind_Ok in Hv as (a & Hf & [= <- <-]). split; [apply Hc|].
  unfold finish_apply in Hf. apply bind_Ok in Hf as (d & _ & Hf).
  apply bind_Ok in Hf as (d' & _ & Hf). apply bind_Ok in Hf as (w & _ & [= <-]). apply Hc.
Qed.

(** (C18) Type soundness of the virtual machine.  Whatever deployed code an
    invocation runs, it does not panic unless the installed application does;
    and when it succeeds, its value is an unsigned 128-bit number, every coin
    of the resulting state is a positive 64-bit amount with the store's total
    and index exact, every asset share is an unsigned 128-bit amount with the
    cached supply summary still valid, and every program record keeps its field
    widths: state slots stay in the signed 64-bit range and storage holds
    bytes. *)
Theorem vm_type_soundness `{Sha3} {Hspec : Sha3Spec} `{RootTest} {Hroot : RootTestSpec}
    application tx height commitment s :
  ledger_typed s -> deployed_code (l_programs s) -> invocation_typed tx -> fits 64 height ->
  match vm_apply application tx height commitment s with
  | Returned (Ok (applied, s')) => ledger_typed s' /\ fits 128 (av_value applied)
  | Returned (Err _) => True
  | Panicked => unwinds application
  end.
Proof.
  intros Hs Hcode Htx Hh.
  pose proof (vm_apply_engine application tx height commitment s (lt_coins _ Hs) Hcode) as He.
  destruct (vm_apply _ _ _ _ _) as [[[applied s']|]|] eqn:Hv; [|done|done].
  by eapply vm_apply_typed.
Qed.

Lemma paying_typed : ledger_typed paying_state.
Proof.
  split; [apply paying_coins_wf|by split|].
  intros id record Hr. cbn in Hr. apply lookup_singleton_Some in Hr as [<- <-].
  split; [by apply hash_wf_compute|].
  split; cbn [code_hash code p_owner nonce deployed_at p_state storage];
    try (by apply hash_wf_compute); try (by split).
  split; [by apply digits_compute|vm_compute; reflexivity].
Qed.

Lemma paying_call_typed : invocation_typed paying_call.
Proof.
  split; cbn; [by apply hash_wf_compute|by apply digits_compute|].
  by repeat constructor.
Qed.

Lemma no_roots_spec : @RootTestSpec (fun _ _ _ => false).
Proof. by intros V m m'. Qed.

Lemma vm_type_soundness_witness :
  exists a s, toy_apply paying_state = Returned (Ok (a, s)) /\ ledger_typed s /\
    fits 128 (av_value a).
Proof.
  assert (fits 64 5) as H5 by (split; [discriminate|reflexivity]).
  pose proof (@vm_type_soundness toy_sha3 toy_sha3_spec (fun _ _ _ => false)
    no_roots_spec asset_application paying_call 5
    (replicate 32 6) paying_state paying_typed paying_deployed paying_call_typed H5) as Hs.
  fold toy_apply in Hs. pose proof paying_run as Hr.
  destruct (toy_apply paying_state) as [[[a s]|]|]; [|contradiction..].
  exists a, s. split; [reflexivity|exact Hs].
Defined.
