(* ===== verification/Apply.v ===== *)
(** * Validating and applying one operation

    Models [kernel/src/consensus/program_call/{error,payment,state_view,
    validation}.rs], [consensus/deploy.rs], [program/preparation.rs],
    [ledger/applied/{deploy,program_call}.rs], [canonical/error.rs] and the
    supply checks of [canonical/accounting.rs].

    An operation is validated against a read-only view and then applied to a
    staging state that the caller discards on any error, in the order of the
    source: the call first, its payment second, the supply checks last.
    [Applications] is what a node installs; a panic of an application unwinds
    the whole operation. *)

From stdpp Require Import strings.
From S2P Require Import Prelude Codec Monetary Index Coin Vm Registry RegistryWire Calls Wire Authorize Policy.
From S2P Require Import Assets AssetAudit Block Chain Consensus State StateRoot CoinHost AssetHost Settlement Engine.
From S2P Require Import SettleFacts.
#[local] Open Scope Z_scope.

Definition MAX_PROGRAM_INVOCATION_SIZE : Z := 256 * 1024.

Record Applications := {
  app_coin : CoinApplication;
  app_asset : AssetApplication;
}.

(** What the extension installs, and the refusing default. *)
Definition extension_applications : Applications :=
  {| app_coin := execute_transfer; app_asset := asset_application |}.
Definition default_applications : Applications :=
  {| app_coin := no_applications; app_asset := no_asset_application |}.

(** ** Errors *)

Inductive ProgramConsensusError :=
| PcUnknownProgram | PcVm (e : ExecutionError) | PcEncoding | InvocationTooLarge
| PcIntent (e : IntentError) | PcInvalidAuthorization | UtxoNotFound | RecipientMismatch
| PcZenoOverflow | ValueMismatch | PcBurn (e : BurnError).

Inductive DeployConsensusError :=
| DcDeploy (e : DeployError) | DcProgram (e : ProgramConsensusError).

Inductive LedgerError :=
| LConsensus (e : ConsensusError) | LProgramCall (e : ProgramConsensusError)
| LDeploy (e : DeployConsensusError) | LState (e : StateError) | LChain (e : ChainError)
| LEmission (e : EmissionError) | LEmptyChain | MissingRollbackJournal | InvalidStateRoot
| InvalidPriorStateRoot | InvalidRollbackStateRoot | LInvalidBlockWeight | LSupplyOverflow
| LCoinSupplyMismatch | LInvalidCoinState | LInvalidAssetState | InvalidProgramState
| LBlockAccountingMismatch | LAssetSupplyMismatch | LUnknownAssetShare.

(** [From] conversions of the error types. *)
Definition codec_error (_ : CodecError) : LedgerError := LConsensus ConsensusSerialization.

Definition supply_error (e : SupplyError) : LedgerError :=
  match e with
  | TotalOverflow => LSupplyOverflow
  | InvalidAssetState => LInvalidAssetState
  | AssetSupplyMismatch => LAssetSupplyMismatch
  | UnknownAssetShare => LUnknownAssetShare
  end.

Definition coin_audit_error (e : CoinAuditError) : LedgerError :=
  match e with
  | CoinSupplyMismatch => LCoinSupplyMismatch
  | InvalidCoinState => LInvalidCoinState
  | CoinSupplyOverflow => LSupplyOverflow
  | BlockAccountingMismatch => LBlockAccountingMismatch
  end.

(** ** Supply checks *)

Section supply.
Context `{RootTest}.

Definition validate_supply_with_asset_cache (allow_cached : bool)
    : ST LedgerState LedgerError unit := fun s =>
  match validate_coin_supply s with
  | Err e => (s, Err (coin_audit_error e))
  | Ok _ =>
      let '(assets, r) := validate_asset_supply allow_cached (l_assets s) in
      (with_assets s assets, map_err supply_error r)
  end.

Definition validate_supply_invariants : ST LedgerState LedgerError unit :=
  validate_supply_with_asset_cache true.

Definition audit_supply_invariants : ST LedgerState LedgerError unit :=
  _ ← validate_supply_with_asset_cache false;
  st_check (fun s => map_err coin_audit_error (audit_coin_supply s)).
End supply.

(** ** The consensus view of a state *)

Record CoinInputState := { ci_amount : Z; ci_owner : Owner }.

Class ProgramStateView (V : Type) := {
  view_ledger_state : V -> option LedgerState;
  view_registry : V -> option ProgramRegistry;
  view_extension_state : V -> option AssetState;
  view_coin : V -> CoinShare -> option CoinInputState;
}.

#[global] Instance ledger_state_view : ProgramStateView LedgerState := {|
  view_ledger_state := Some;
  view_registry := fun s => Some (l_programs s);
  view_extension_state := fun s => Some (l_assets s);
  view_coin := fun s id =>
    (fun c => {| ci_amount := cu_amount c; ci_owner := cu_owner c |}) <$> coin (utxos s) id;
|}.

(** ** Payments *)

Definition created_coin_output_count (outputs : list CoinOutput) : result BurnError Z :=
  ok_or (try_from 64 (Z.of_nat (length outputs))) WeightOverflow.

Definition count_coin_outputs (outputs : list CoinOutput) (miner_fee : Z)
    : result ProgramConsensusError Z :=
  count ← map_err PcBurn (created_coin_output_count outputs);
  ok_or (checked_add 64 count (if Zeno.is_zero miner_fee then 0 else 1)) (PcBurn WeightOverflow).

Definition ensure_unique_coin_ids (ids : list CoinShare) : result ProgramConsensusError unit :=
  if has_duplicate ∅ ids then Err (PcIntent DuplicateInput) else Ok tt.

Section payment.
Context `{ProgramStateView V}.

Definition input_total_step (signer : ProgramId) (state : V) (total : Z) (id : CoinShare)
    : result ProgramConsensusError Z :=
  input ← ok_or (view_coin state id) UtxoNotFound;
  fail_if negb (bool_decide (ci_owner input = Program signer)) with RecipientMismatch;
  ok_or (Zeno.checked_add total (ci_amount input)) PcZenoOverflow.

Definition validate_coin_inputs (inputs : list CoinShare) (outputs : list CoinOutput)
    (miner_fee : Z) (signer : ProgramId) (state : V) : result ProgramConsensusError Z :=
  _ ← ensure_unique_coin_ids inputs;
  fail_if match view_registry state with Some r => contains r signer | None => false end
    with PcInvalidAuthorization;
  input_total ← try_fold (input_total_step signer state) inputs 0;
  output_total ← try_fold
    (fun sum output => ok_or (Zeno.checked_add sum (co_amount output)) PcZenoOverflow) outputs 0;
  ok_or (value ← Zeno.checked_sub input_total output_total; Zeno.checked_sub value miner_fee)
    ValueMismatch.

Definition validate_coin_inputs_for_quote (tx : AuthorizedProgramInvocation) (state : V)
    : result ProgramConsensusError unit :=
  _ ← map_err PcIntent (invocation_validate tx);
  _ ← validate_coin_inputs (ct_inputs (ai_payment tx)) (ct_outputs (ai_payment tx))
        (miner_fee (charges (ai_payment tx))) (ai_signer tx) state;
  Ok tt.
End payment.

(** ** Program calls *)

Record PreparedProgramInvocation := {
  pp_invocation : AuthorizedProgramInvocation;
  pp_required_burn : Z;
  pp_created_state_weight : Z;
  pp_height : Z;
}.

Section calls.
Context `{Sha3} `{SignatureBackend} `{RootTest}.

(** [canonical_bytes(&(chain.genesis_hash, signer, &call, &payment))]. *)
Definition asset_context (genesis : Hash) (tx : AuthorizedProgramInvocation) : ExecutionContext :=
  {| actor := Program (ai_signer tx);
     commitment := domain AssetIntent (genesis ++ ai_signer tx ++ enc_program_call (ai_call tx)
                                       ++ w_enc wire_transition (ai_payment tx)) |}.

Definition program_created_state_weight (transaction : AuthorizedProgramInvocation)
    (genesis : Hash) (extensions : AssetState) (applications : Applications)
    : Run ProgramConsensusError Z :=
  _ ← run_lift (map_err PcIntent (invocation_validate transaction));
  decoded ← run_lift (map_err (fun _ => PcIntent InvalidAssetCall)
                        (decode_program (ai_call transaction)));
  match decoded with
  | XpqTransfer | VmCall _ => mret 0
  | AssetProgramCall call =>
      let context := asset_context genesis transaction in
      preview ← run_lift (map_err (fun _ => PcIntent InvalidAssetCall)
                            (operation_view extensions call context));
      let '(preview, journal) := execute_asset (app_asset applications) call context preview in
      journal ← run_map_err (fun _ => PcIntent InvalidAssetCall) journal;
      delta ← run_lift (map_err (fun _ => PcEncoding) (canonical_delta journal preview));
      run_lift (ok_or (try_from 64 (Z.max delta 0)) (PcBurn WeightOverflow))
  end.

Section view.
Context `{ProgramStateView V}.

(** What the virtual machine will create, consume and burn as fuel. *)
Definition vm_quote (transaction : AuthorizedProgramInvocation) (genesis : Hash)
    (current_height : Z) (state : V) (applications : Applications) (id : ProgramId)
    : Run ProgramConsensusError (TransferQuote * Z) :=
  _ ← run_lift (validate_coin_inputs_for_quote transaction state);
  match view_ledger_state state with
  | Some ledger =>
      commitment ← run_lift (map_err PcIntent
        (program_invocation_commitment (ai_signer transaction) (ai_call transaction)
           (ai_payment transaction) genesis));
      result ← run_map_err PcVm
        (preview (app_asset applications) transaction current_height commitment ledger);
      mret (av_quote result, av_fuel_used result)
  | None =>
      registry ← run_lift (ok_or (view_registry state) PcUnknownProgram);
      result ← match execute_registered registry id MAX_CALL_FUEL with
               | Some r => Returned (map_err PcVm r)
               | None => Panicked
               end;
      if has_monetary_effects result then run_lift (Err PcUnknownProgram)
      else mret (empty_quote, fuel_used result)
  end.

Definition validate_program_call (transaction : AuthorizedProgramInvocation) (genesis : Hash)
    (current_height : Z) (state : V) (applications : Applications)
    : Run ProgramConsensusError PreparedProgramInvocation :=
  _ ← run_lift (map_err PcIntent (invocation_validate transaction));
  transaction_size ← run_lift (map_err (fun _ => PcEncoding)
    (bytes ← operation_bytes (OpProgramCall transaction); canonical_length bytes));
  _ ← run_require (negb (MAX_PROGRAM_INVOCATION_SIZE <? transaction_size)) InvocationTooLarge;
  valid ← run_lift (map_err PcIntent (verify_authorizations transaction genesis current_height));
  _ ← run_require valid PcInvalidAuthorization;
  decoded ← run_lift (map_err (fun _ => PcIntent InvalidAssetCall)
                        (decode_program (ai_call transaction)));
  '(quote, vm_fuel) ←
    (match decoded with
     | VmCall id => vm_quote transaction genesis current_height state applications id
     | _ => mret (empty_quote, 0)
     end : Run ProgramConsensusError (TransferQuote * Z));
  created_state_weight ←
    (match decode_program (ai_call transaction) with
     | Ok XpqTransfer | Ok (VmCall _) => mret (Settlement.created_state_weight quote)
     | _ =>
         extensions ← run_lift (ok_or (view_extension_state state) (PcIntent InvalidAssetCall));
         program_created_state_weight transaction genesis extensions applications
     end : Run ProgramConsensusError Z);
  let payment := ai_payment transaction in
  let fee := miner_fee (charges payment) in
  actual ← run_lift (validate_coin_inputs (ct_inputs payment) (ct_outputs payment) fee
                       (ai_signer transaction) state);
  created ← run_lift (count_coin_outputs (ct_outputs payment) fee);
  let transition :=
    {| Policy.created_coin_utxos := created + Settlement.created_coin_utxos quote;
       Policy.consumed_coin_utxos :=
         Z.of_nat (length (ct_inputs payment)) + Settlement.consumed_coin_utxos quote;
       Policy.created_state_weight := created_state_weight |} in
  burn ← run_lift (map_err PcBurn (for_program_call transition transaction_size));
  total ← run_lift (map_err PcBurn (burn_total burn));
  required_burn ← run_lift (ok_or (Zeno.checked_add total vm_fuel) PcZenoOverflow);
  _ ← run_lift (map_err PcBurn (validate_exact_burn actual required_burn));
  mret {| pp_invocation := transaction; pp_required_burn := required_burn;
          pp_created_state_weight := created_state_weight; pp_height := current_height |}.
End view.

(** ** Deployments *)

Record PreparedDeploy := {
  pd_signed : AuthorizedDeployProgram;
  pd_commitment : Hash;
  pd_program_id : ProgramId;
  pd_height : Z;
  pd_required_burn : Z;
}.

(** The checks [validate_deploy] and [quote_deploy_burn] both start with. *)
Definition deploy_structure (signed : AuthorizedDeployProgram) : result DeployConsensusError unit :=
  _ ← map_err DcDeploy (validate_structure (ad_deploy signed));
  _ ← map_err (fun _ => DcDeploy InvalidPayment) (transition_validate (ad_payment signed));
  fail_if negb (bool_decide (dp_owner (ad_deploy signed) = signer (ad_payment signed)))
    with DcDeploy InvalidPayment;
  Ok tt.

Definition quote_deploy_burn (signed : AuthorizedDeployProgram) (height : Z) (state : LedgerState)
    : result DeployConsensusError (ProgramId * Z) :=
  _ ← deploy_structure signed;
  size ← map_err (fun _ => DcDeploy DeployEncoding)
    (bytes ← operation_bytes (OpDeployProgram signed); canonical_length bytes);
  fail_if MAX_OPERATION_SIZE <? size with DcDeploy ProgramTooLarge;
  '(program_id, record) ← map_err DcDeploy (prepare_deployment (ad_deploy signed) height);
  _ ← map_err (fun e => DcDeploy (DeployRegistry e))
        (check_available (l_programs state) program_id (p_owner record) (nonce record));
  growth ← map_err (fun _ => DcDeploy DeployEncoding)
             (canonical_length (program_id ++ enc_program_record record));
  let payment := ad_payment signed in
  let fee := miner_fee (charges payment) in
  created ← map_err (fun e => DcProgram (PcBurn e)) (created_coin_output_count (ct_outputs payment));
  let transition :=
    {| Policy.created_coin_utxos := created + (if Zeno.is_zero fee then 0 else 1);
       Policy.consumed_coin_utxos := Z.of_nat (length (ct_inputs payment));
       Policy.created_state_weight := growth |} in
  required_burn ← map_err (fun e => DcProgram (PcBurn e))
    (burn ← for_program_call transition size; burn_total burn);
  Ok (program_id, required_burn).

Definition validate_deploy (signed : AuthorizedDeployProgram) (genesis : Hash) (height : Z)
    (state : LedgerState) : result DeployConsensusError PreparedDeploy :=
  _ ← deploy_structure signed;
  let commitment := deploy_commitment signed genesis in
  fail_if negb (authorize (dp_owner (ad_deploy signed)) commitment (ad_authorization signed) height)
    with DcDeploy InvalidAuthorization;
  '(program_id, required_burn) ← quote_deploy_burn signed height state;
  let payment := ad_payment signed in
  actual ← map_err DcProgram
    (validate_coin_inputs (ct_inputs payment) (ct_outputs payment) (miner_fee (charges payment))
       (dp_owner (ad_deploy signed)) state);
  _ ← map_err (fun e => DcProgram (PcBurn e)) (validate_exact_burn actual required_burn);
  Ok {| pd_signed := signed; pd_commitment := commitment; pd_program_id := program_id;
        pd_height := height; pd_required_burn := required_burn |}.

(** ** Application *)

(** [execute_coin_program_with_applications]. *)
Definition pay (intent : CoinTransition) (commitment : Hash) (miner : ProgramId)
    (applications : Applications) : Staged LedgerState LedgerError CoinRollbackJournal :=
  stage_map_err LState
    (stage_st (execute_coin_program intent commitment miner (fun _ _ => Ok tt)
                 (app_coin applications))).

Definition with_programs (s : LedgerState) (r : ProgramRegistry) : LedgerState :=
  {| utxos := utxos s; coin_record := coin_record s; l_programs := r; l_assets := l_assets s |}.

Definition install_program (deploy : DeployProgram) (height : Z)
    : Staged LedgerState LedgerError (ProgramId * ProgramJournal) := fun s =>
  match deploy_program (l_programs s) deploy height with
  | Ok (registry, installed) => Returned (Ok (installed, with_programs s registry))
  | Err _ => Returned (Err (LState InvalidTransition))
  end.

Definition apply_prepared_deploy_in_staged_state (prepared : PreparedDeploy) (miner : ProgramId)
    (applications : Applications) : Staged LedgerState LedgerError StateRollbackJournal :=
  coin ← pay (ad_payment (pd_signed prepared)) (pd_commitment prepared) miner applications;
  '(id, program) ← install_program (ad_deploy (pd_signed prepared)) (pd_height prepared);
  _ ← stage_require (bool_decide (id = pd_program_id prepared)) (LState InvalidTransition);
  _ ← stage_st validate_supply_invariants;
  mret {| sj_coin := Some coin; sj_program := Some program; sj_extension := None |}.

(** The effects of the call itself: the coins the virtual machine touched and
    the asset and program journals. *)
Definition run_call (decoded : DecodedProgramCall) (tx : AuthorizedProgramInvocation) (height : Z)
    (commitment genesis : Hash) (applications : Applications)
    : Staged LedgerState LedgerError
        (CoinRollbackJournal * option AssetJournal * option ProgramJournal) :=
  match decoded with
  | XpqTransfer => mret (empty_coin_journal, None, None)
  | VmCall _ =>
      result ← stage_map_err (fun _ => LState InvalidTransition)
                 (vm_apply (app_asset applications) tx height commitment);
      mret (av_coin result, av_asset result, av_program result)
  | AssetProgramCall call =>
      journal ← stage_asset (app_asset applications) (LState InvalidTransition) call
                  (asset_context genesis tx);
      mret (empty_coin_journal, Some journal, None)
  end.

(** [coin.consumed_coins.append(..)], [coin.created_coin_ids.append(..)]. *)
Definition append_coins (coin vm_coin : CoinRollbackJournal) : CoinRollbackJournal :=
  {| consumed_coins := consumed_coins coin ++ consumed_coins vm_coin;
     created_coin_ids := created_coin_ids coin ++ created_coin_ids vm_coin;
     mined := mined coin; burned := burned coin |}.

Definition apply_prepared_program_call_in_staged_state (prepared : PreparedProgramInvocation)
    (miner : ProgramId) (genesis : Hash) (applications : Applications)
    : Staged LedgerState LedgerError StateRollbackJournal :=
  let height := pp_height prepared in
  let tx := pp_invocation prepared in
  commitment ← stage_lift (map_err (fun e => LProgramCall (PcIntent e))
    (program_invocation_commitment (ai_signer tx) (ai_call tx) (ai_payment tx) genesis));
  decoded ← stage_lift (map_err (fun _ => LState InvalidTransition) (decode_program (ai_call tx)));
  '(vm_coin, extension, program) ← run_call decoded tx height commitment genesis applications;
  coin ← pay (ai_payment tx) commitment miner applications;
  let coin := append_coins coin vm_coin in
  _ ← stage_st validate_supply_invariants;
  mret {| sj_coin := Some coin; sj_program := program; sj_extension := extension |}.

(** The public entry points work on a clone and install it on success. *)
Definition commit {S E A} (m : Staged S E A) : S -> S * outcome (result E A) := fun s =>
  match m s with
  | Returned (Ok (a, staged)) => (staged, Returned (Ok a))
  | Returned (Err e) => (s, Returned (Err e))
  | Panicked => (s, Panicked)
  end.

Definition apply_deploy (signed : AuthorizedDeployProgram) (miner : ProgramId) (genesis : Hash)
    (height : Z) (applications : Applications)
    : LedgerState -> LedgerState * Run LedgerError StateRollbackJournal :=
  commit (prepared ← stage_check (fun s =>
            map_err LDeploy (validate_deploy signed genesis height s));
          apply_prepared_deploy_in_staged_state prepared miner applications).

Definition stage_run {S E A} (f : S -> Run E A) : Staged S E A := fun s =>
  match f s with
  | Returned r => Returned (a ← r; Ok (a, s))
  | Panicked => Panicked
  end.

Definition apply_program_call (transaction : AuthorizedProgramInvocation) (miner : ProgramId)
    (genesis : Hash) (height : Z) (applications : Applications)
    : LedgerState -> LedgerState * Run LedgerError StateRollbackJournal :=
  commit (prepared ← stage_run (fun s =>
            run_map_err LProgramCall
              (validate_program_call transaction genesis height s applications));
          apply_prepared_program_call_in_staged_state prepared miner genesis applications).
End calls.
