(* ===== verification/ApplyFacts.v ===== *)
(** * One operation: journals, types and rollback

    What a successful program call or deployment does to the state: the journal
    it returns leads back, the coin accounting holds, and every value keeps its
    type.  The theorems are at the end. *)

From S2P Require Import Prelude Codec Monetary Index Coin Vm Registry RegistryWire Calls Wire Authorize Policy.
From S2P Require Import Assets AssetFacts AssetProps AssetAudit Block Chain Consensus State StateRoot CoinHost AssetHost.
From S2P Require Import Settlement Engine SettleFacts EngineFacts EngineProps VmTypes Apply.
#[local] Open Scope Z_scope.

(** ** Decoded calls have the widths of their fields *)

Lemma dec_items_typed {A} (dec_item : list Z -> option (A * list Z)) (P : A -> Prop) n bytes l rest :
  (forall b a r, dec_item b = Some (a, r) -> bytes_wf b -> P a /\ bytes_wf r) ->
  dec_items dec_item n bytes = Some (l, rest) -> bytes_wf bytes -> Forall P l /\ bytes_wf rest.
Proof.
  intros Hitem. revert bytes l. induction n as [|n IH]; intros bytes l Hd Hb; cbn in Hd.
  { by injection Hd as <- <-. }
  apply bind_Some in Hd as ([a b] & Ha & Hd). apply Hitem in Ha as [Ha Hb']; [|done].
  apply bind_Some in Hd as ([l' b'] & Hl & [= <- <-]). apply IH in Hl as [Hl ?]; [|done].
  by split; [constructor|].
Qed.

Lemma bounded_vec_typed {A} (dec_item : list Z -> option (A * list Z)) (P : A -> Prop) bytes max e l rest :
  (forall b a r, dec_item b = Some (a, r) -> bytes_wf b -> P a /\ bytes_wf r) ->
  Monetary.bounded_vec dec_item bytes max e = Ok (l, rest) -> bytes_wf bytes ->
  Forall P l /\ bytes_wf rest.
Proof.
  intros Hitem Hd Hb. unfold Monetary.bounded_vec in Hd.
  apply bind_Ok in Hd as ([n b] & Hn%ok_or_Ok & Hd). apply guard_err_Ok in Hd as [_ Hd%ok_or_Ok].
  apply dec_uint_fits in Hn as [_ Hb']; [|done]. by eapply dec_items_typed.
Qed.

Lemma dec_hash_typed b (h : list Z) r :
  dec_raw HASH_SIZE b = Some (h, r) -> bytes_wf b -> True /\ bytes_wf r.
Proof. intros Hd Hb. split; [done|]. by eapply dec_raw_wf. Qed.

Lemma dec_output_typed b o r :
  dec_output b = Some (o, r) -> bytes_wf b -> fits 128 (ao_amount o) /\ bytes_wf r.
Proof.
  intros Hd Hb. unfold dec_output in Hd. apply bind_Some in Hd as ([ow b1] & Ho & Hd).
  apply dec_owner_typed in Ho as [_ Hb1]; [|done].
  apply bind_Some in Hd as ([n b2] & Hn & [= <- <-]). by apply (dec_uint_fits 16) in Hn.
Qed.

Lemma from_slice_Some {A} (d : list Z -> option (A * list Z)) bytes a :
  from_slice d bytes = Some a -> d bytes = Some (a, []).
Proof.
  unfold from_slice. intros Hd. apply bind_Some in Hd as ([a' r] & Hd & Hr).
  case_decide; [|done]. by simplify_eq.
Qed.

Lemma dec_register_amounts bytes call rest :
  dec_register bytes = Some (call, rest) -> bytes_wf bytes -> call_amounts call.
Proof.
  intros Hd Hwf. unfold dec_register, dec_string in Hd.
  apply bind_Some in Hd as ([nm b1] & Hn & Hd).
  apply bind_Some in Hn as ([ln b0] & Hn0 & Hn). apply dec_uint_fits in Hn0 as [_ Hb0]; [|done].
  apply bind_Some in Hn as ([s b0'] & Hs & Hn). apply dec_raw_wf in Hs; [|done].
  case_match; [|done]. injection Hn as <- <-.
  apply bind_Some in Hd as ([mx b2] & Hmx & Hd). apply dec_uint_fits in Hmx as [_ Hb2]; [|done].
  apply bind_Some in Hd as ([im b3] & Him & Hd). apply (dec_uint_fits 16) in Him as [Him Hb3]; [|done].
  apply bind_Some in Hd as ([o b4] & _ & Hd). by apply bind_Some in Hd as ([nn b5] & _ & [= <- <-]).
Qed.

Lemma dec_mint_amounts bytes call rest :
  dec_mint bytes = Some (call, rest) -> bytes_wf bytes -> call_amounts call.
Proof.
  intros Hd Hwf. unfold dec_mint in Hd. apply bind_Some in Hd as ([a b1] & Ha & Hd).
  apply dec_raw_wf in Ha; [|done]. apply bind_Some in Hd as ([nn b2] & Hn & Hd).
  apply dec_uint_fits in Hn as [_ Hb2]; [|done]. apply bind_Some in Hd as ([o b3] & Ho & Hd).
  apply dec_owner_typed in Ho as [_ Hb3]; [|done].
  apply bind_Some in Hd as ([n b4] & Hn & [= <- <-]). by apply (dec_uint_fits 16) in Hn as [? _].
Qed.

Lemma decode_amounts op payload call :
  decode op payload = Ok call -> bytes_wf payload -> call_amounts call.
Proof.
  intros Hd Hb. unfold decode in Hd. apply bind_Ok in Hd as (o & _ & Hd).
  apply guard_err_Ok in Hd as [_ Hd]. destruct o; apply bind_Ok in Hd as (c & Hc & ->%validate_Ok).
  - by apply ok_or_Ok, from_slice_Some, dec_register_amounts in Hc.
  - by apply ok_or_Ok, from_slice_Some, dec_mint_amounts in Hc.
  - unfold decode_transfer in Hc. apply bind_Ok in Hc as ([a b1] & Ha%ok_or_Ok & Hc).
    apply dec_raw_wf in Ha; [|done]. apply bind_Ok in Hc as ([ins b2] & Hi & Hc).
    apply (bounded_vec_typed _ _ _ _ _ _ _ dec_hash_typed) in Hi as [_ Hb2]; [|done].
    apply bind_Ok in Hc as ([outs b3] & Ho & Hc).
    apply (bounded_vec_typed _ _ _ _ _ _ _ dec_output_typed) in Ho as [Ho _]; [|done].
    by apply guard_err_Ok in Hc as [_ [= <-]].
  - unfold decode_burn in Hc. apply bind_Ok in Hc as ([a b1] & Ha%ok_or_Ok & Hc).
    apply dec_raw_wf in Ha; [|done]. apply bind_Ok in Hc as ([ins b2] & Hi & Hc).
    apply (bounded_vec_typed _ _ _ _ _ _ _ dec_hash_typed) in Hi as [_ Hb2]; [|done].
    apply bind_Ok in Hc as ([am b3] & Hm%ok_or_Ok & Hc). apply dec_uint_fits in Hm as [_ Hb3]; [|done].
    apply bind_Ok in Hc as ([ou b4] & Ho%ok_or_Ok & Hc). apply (dec_uint_fits 16) in Ho as [Ho _]; [|done].
    by apply guard_err_Ok in Hc as [_ [= <-]].
Qed.

Lemma decode_program_amounts c call :
  decode_program c = Ok (AssetProgramCall call) -> bytes_wf (pc_payload c) -> call_amounts call.
Proof.
  intros Hd Hb. unfold decode_program in Hd. case_match.
  - apply bind_Ok in Hd as ([|a] & Hm & Hd); [done|]. injection Hd as <-.
    unfold monetary_decode in Hm. case_match.
    + unfold monetary_selected in Hm. apply bind_Ok in Hm as ([cur data] & Hc & Hm).
      assert (bytes_wf data) as Hdata.
      { clear Hm. repeat case_match; simplify_eq; first [by constructor | by inversion Hb]. }
      clear Hc. repeat case_match; try done;
        first [ apply guard_err_Ok in Hm as [_ Hm]; by apply bind_Ok in Hm as (? & _ & ?)
              | apply bind_Ok in Hm as (c' & Hc' & [= <-]); by eapply decode_amounts ].
    + apply bind_Ok in Hm as (o & _ & Hm). apply bind_Ok in Hm as (c' & Hc' & [= <-]).
      by eapply decode_amounts.
  - case_match; [|case_match; [by apply bind_Ok in Hd as ([] & _ & ?)|done]].
    apply bind_Ok in Hd as (c' & Hc' & [= <-]). by eapply decode_amounts.
Qed.

(** ** Coin journals side by side *)

Lemma undoable_refl (s s' : LedgerState) :
  coin_state_wf s -> utxos s' = utxos s -> coin_record s' = coin_record s ->
  coin_undoable s empty_coin_journal s'.
Proof.
  intros [] Hu Hr. split; cbn; rewrite ?Hu, ?Hr; try done; try constructor; try lia; set_solver.
Qed.

(** The call's coins first, the payment's coins after, the payment's first in
    the journal.  The payment may create again what the call consumed. *)
Lemma append_undoable s0 s1 s2 vm j :
  coin_undoable s0 vm s1 -> coin_journaled s1 j s2 -> mined vm = 0 -> burned vm = 0 ->
  (forall id, id ∈ (consumed_coins j).*1 -> id ∉ created_coin_ids vm /\ id ∉ (consumed_coins vm).*1) ->
  coin_undoable s0 (append_coins j vm) s2.
Proof.
  intros [] [] Hm Hb Hdis.
  assert (forall id, id ∈ created_coin_ids j -> id ∉ created_coin_ids vm) as Hcc.
  { intros id [Hn _]%cj_new [[? Hs] _]%ud_new. congruence. }
  split; cbn [append_coins consumed_coins created_coin_ids mined burned]; try done; try lia.
  - apply NoDup_app. split_and!; try done.
  - rewrite fmap_app. apply NoDup_app. split_and!; try done. by intros id [_ ?]%Hdis.
  - intros id. rewrite fmap_app, !elem_of_app. intros [Hid|Hid].
    + pose proof (cj_new id Hid) as [Hn Hs]. split; [done|].
      destruct (decide (id ∈ (consumed_coins vm).*1)); [by right; right|]. left.
      rewrite <- ud_same; auto.
    + destruct (ud_new id Hid) as [Hs Hor]. split; [|naive_solver].
      rewrite cj_same; [done|..].
      * intros Hc. by apply (Hcc id).
      * intros Hc. by apply (proj1 (Hdis id Hc)).
  - intros id c. rewrite !elem_of_app. intros [Hid|Hid].
    + pose proof (cj_old id c Hid) as [Hs Hn]. split; [|by left].
      apply list_elem_of_fmap_2 with (f := fst) in Hid. destruct (Hdis _ Hid). by rewrite <- ud_same.
    + destruct (ud_old id c Hid) as [Hs Hor]. split; [done|].
      destruct Hor as [Hn|?]; [|by right; right].
      destruct (decide (id ∈ created_coin_ids j)); [by right; left|]. left. rewrite cj_same; [done|done|].
      intros Hc. apply Hdis in Hc as [_ Hc]. apply Hc. by apply list_elem_of_fmap_2 with (f := fst) in Hid.
  - intros id. rewrite fmap_app, !not_elem_of_app. intros [? ?] [? ?]. by rewrite cj_same, ud_same.
Qed.

(** ** Payments *)

Section payments.
Context `{Sha3}.

(** What a payment leaves: its journal, which consumed declared inputs only. *)
Record paid (s : LedgerState) (intent : CoinTransition) (j : CoinRollbackJournal) (s' : LedgerState)
    : Prop := {
  pa_journal : coin_journaled s j s';
  pa_inputs : forall id, id ∈ (consumed_coins j).*1 -> id ∈ ct_inputs intent;
  pa_mined : mined j = 0;
  pa_burned : planned_burn s intent = Ok (burned j);
  pa_complete : transition_complete intent (burned j) j = true;
}.

Lemma planned_burn_nonneg s intent n : planned_burn s intent = Ok n -> 0 <= n.
Proof.
  unfold planned_burn. intros Hp. apply bind_Ok in Hp as (i & _ & Hp).
  apply bind_Ok in Hp as (o & _ & [-> ?]%ok_or_Ok%checked_sub_Some). lia.
Qed.

Lemma wp_pay crash intent commitment miner applications s :
  coin_state_wf s -> intent_ok intent commitment miner ->
  wp crash (pay intent commitment miner applications) (paid s intent) s.
Proof.
  intros Hs Hi. apply wp_map_err, wp_st. intros j s' He.
  apply execute_cases in He as (charge & h & Hp & [] & Hc & -> & ->); [|done|done].
  assert (burned (h_journal h) = charge) as Hb
    by (unfold transition_complete in Hc; by apply andb_true_iff in Hc as [_ Hc%Z.eqb_eq]).
  rewrite <- Hb in *. by split.
Qed.

Lemma input_step_fold signer s inputs t n :
  try_fold (input_total_step signer s) inputs t = Ok n ->
  forall id, id ∈ inputs -> exists c, coins (utxos s) !! id = Some c /\ cu_owner c = Program signer.
Proof.
  revert t. induction inputs as [|i inputs IH]; intros t Hf id Hid; [by apply elem_of_nil in Hid|].
  cbn [try_fold] in Hf. apply bind_Ok in Hf as (t' & Hi & Hf).
  apply elem_of_cons in Hid as [->|Hid]; [|by eapply IH].
  unfold input_total_step in Hi. apply bind_Ok in Hi as (input & Hin%ok_or_Ok & Hi).
  apply guard_err_Ok in Hi as [Hg _]. cbn in Hin. unfold coin in Hin.
  destruct (coins (utxos s) !! i) as [c|] eqn:Hc; [|done]. injection Hin as <-. cbn in Hg.
  case_bool_decide; [|done]. by exists c.
Qed.

(** The inputs a validated payment spends are live coins of its signer, who is
    not a registered program. *)
Lemma validate_coin_inputs_Ok inputs outputs fee signer s n :
  validate_coin_inputs inputs outputs fee signer s = Ok n ->
  programs (l_programs s) !! signer = None /\
  forall id, id ∈ inputs -> exists c, coins (utxos s) !! id = Some c /\ cu_owner c = Program signer.
Proof.
  intros Hv. unfold validate_coin_inputs in Hv. apply bind_Ok in Hv as (u & _ & Hv).
  apply guard_err_Ok in Hv as [Hg Hv]. apply bind_Ok in Hv as (t & Hf & _).
  split; [|by eapply input_step_fold]. cbn in Hg. unfold contains in Hg.
  case_bool_decide as Hn; [done|]. by apply eq_None_not_Some.
Qed.

Lemma inputs_fold signer s s1 e o inputs t n :
  (forall id, id ∈ inputs -> coins (utxos s1) !! id = coins (utxos s) !! id) ->
  try_fold (input_total_step signer s) inputs t = Ok n ->
  try_fold (sum_fold (input_amount_of (E := StateError) e s1) o) inputs t = Ok n.
Proof.
  revert t. induction inputs as [|i inputs IH]; intros t Hsame Hf; [by injection Hf as ->|].
  cbn [try_fold] in *. apply bind_Ok in Hf as (t' & Hi & Hf). unfold input_total_step in Hi.
  apply bind_Ok in Hi as (input & Hin%ok_or_Ok & Hi). apply guard_err_Ok in Hi as [_ Hadd%ok_or_Ok].
  cbn in Hin. unfold coin in Hin. destruct (coins (utxos s) !! i) as [c|] eqn:Hc; [|done].
  injection Hin as <-. apply bind_Ok. exists t'. split.
  - unfold sum_fold, input_amount_of, coin. rewrite Hsame, Hc by left. cbn [ok_or mbind result_mbind]. cbn in Hadd. by rewrite Hadd.
  - apply IH; [|done]. intros id Hid. apply Hsame. by right.
Qed.

Lemma fold_shift {B} {E1 E2} (f : B -> Z) (e1 : E1) (e2 : E2) l a b x y :
  try_fold (fun sum o => ok_or (Zeno.checked_add sum (f o)) e1) l a = Ok x ->
  try_fold (fun sum o => ok_or (Zeno.checked_add sum (f o)) e2) l b = Ok y -> x - a = y - b.
Proof.
  revert a b. induction l as [|o l IH]; intros a b; cbn [try_fold].
  { intros [= ->] [= ->]. lia. }
  intros (a' & [-> _]%ok_or_Ok%checked_add_Some & Hx)%bind_Ok
         (b' & [-> _]%ok_or_Ok%checked_add_Some & Hy)%bind_Ok.
  specialize (IH _ _ Hx Hy). lia.
Qed.

(** The kernel host burns exactly what validation computed, as long as the
    inputs are still what they were. *)
Lemma planned_burn_validated s s1 intent signer n m :
  validate_coin_inputs (ct_inputs intent) (ct_outputs intent) (miner_fee (charges intent)) signer s
    = Ok n ->
  (forall id, id ∈ ct_inputs intent -> coins (utxos s1) !! id = coins (utxos s) !! id) ->
  planned_burn s1 intent = Ok m -> m = n.
Proof.
  intros Hv Hsame Hp. unfold validate_coin_inputs in Hv. apply bind_Ok in Hv as (u & _ & Hv).
  apply guard_err_Ok in Hv as [_ Hv]. apply bind_Ok in Hv as (i & Hi & Hv).
  apply bind_Ok in Hv as (o & Ho & Hv%ok_or_Ok). apply bind_Some in Hv as (v & Hv1 & Hv2).
  apply checked_sub_Some in Hv1 as [-> _]. apply checked_sub_Some in Hv2 as [-> _].
  unfold planned_burn in Hp.
  rewrite (inputs_fold _ _ _ _ _ _ _ _ Hsame Hi) in Hp. cbn [mbind result_mbind] in Hp.
  apply bind_Ok in Hp as (o' & Ho' & [-> _]%ok_or_Ok%checked_sub_Some).
  assert (forall l t, try_fold (sum_fold (fun output => Ok output.2) AmountOverflow)
    ((fun output => (co_output output, co_amount output)) <$> l) t =
    try_fold (fun sum o => ok_or (Zeno.checked_add sum (co_amount o)) AmountOverflow) l t) as Hfold.
  { intros l. induction l as [|x l IH]; intros t; [done|]. rewrite fmap_cons. cbn [try_fold].
    change (sum_fold _ _ t _) with (ok_or (Zeno.checked_add t (co_amount x)) AmountOverflow).
    destruct (Zeno.checked_add _ _); [apply IH|done]. }
  rewrite Hfold in Ho'. pose proof (fold_shift co_amount _ _ _ _ _ _ _ Ho Ho'). lia.
Qed.

Lemma signer_coins_not_program s signer c :
  programs (l_programs s) !! signer = None -> cu_owner c = Program signer ->
  ~ program_coin (l_programs s) c.
Proof. intros Hn Ho (p & Hp & [? Hr]). congruence. Qed.
End payments.

(** ** The call itself *)

Section call.
Context `{Sha3} {Hspec : Sha3Spec} `{SignatureBackend} `{RootTest} {Hroot : RootTestSpec}.

(** What a call leaves: the coins it touched, the journals, and a state that is
    typed when the one before was. *)
Record called (s : LedgerState)
    (r : CoinRollbackJournal * option AssetJournal * option ProgramJournal) (s' : LedgerState)
    : Prop := {
  cl_coin : coin_undoable s r.1.1 s';
  cl_mined : mined r.1.1 = 0;
  cl_burned : burned r.1.1 = 0;
  cl_own : forall id c, (id, c) ∈ consumed_coins r.1.1 -> program_coin (l_programs s) c;
  cl_program : rollback_optional r.2 (l_programs s') = (l_programs s, Ok tt);
  cl_code : deployed_code (l_programs s');
  cl_asset : undoes r.1.2 (l_assets s) (l_assets s');
  cl_record : coin_record s' = coin_record s;
}.

Lemma wp_run_call decoded tx height commitment genesis applications s :
  coin_state_wf s -> deployed_code (l_programs s) ->
  wp (unwinds (app_asset applications)) (run_call decoded tx height commitment genesis applications)
    (called s) s.
Proof.
  intros Hs Hcode. destruct decoded as [|call|id]; cbn [run_call].
  - apply wp_ret. split; try done; [by apply undoable_refl|cbn; set_solver].
  - apply wp_bind. eapply wp_mono; [apply wp_stage_asset|]. intros j s' [-> Hj]. apply wp_ret.
    split; try done; [by apply undoable_refl|cbn; set_solver].
  - apply wp_bind, wp_map_err.
    pose proof (vm_apply_engine (app_asset applications) tx height commitment s (sw_utxo _ Hs) Hcode) as Hv.
    unfold wp. destruct (vm_apply _ _ _ _ _) as [[[applied s']|]|]; [|done|done].
    destruct Hv as (n & e & He & -> & _ & (_ & Hc & Ha & Hp)%finish_apply_Ok). cbn.
    rewrite Hc, Ha, Hp. destruct Hs. split; cbn; try done.
    + by apply tracked_undoable.
    + intros i c Hin%elem_of_sorted_entries. by apply (ei_own _ _ He) in Hin.
    + apply rollback_journaled, He.
    + by eapply inv_deployed.
    + apply He.
    + apply He.
Qed.

Lemma run_call_typed decoded tx height commitment genesis applications s r s' :
  ledger_typed s -> invocation_typed tx -> fits 64 height ->
  decode_program (ai_call tx) = Ok decoded ->
  run_call decoded tx height commitment genesis applications s = Returned (Ok (r, s')) ->
  ledger_typed s'.
Proof using Hspec Hroot.
  intros Hs Htx Hh Hdec Hr. destruct decoded as [|call|id]; cbn [run_call] in Hr.
  - by injection Hr as <- <-.
  - unfold mbind, staged_mbind, stage_asset in Hr.
    destruct (execute_asset _ _ _ _) as [a [[j|]|]] eqn:He; [|done..]. injection Hr as <- <-.
    destruct Hs as [Hc Ha Hp]. split; [done| |done]. cbn.
    apply execute_asset_typed in He; [done|done|]. eapply decode_program_amounts; [done|apply Htx].
  - unfold mbind, staged_mbind, stage_map_err in Hr.
    destruct (vm_apply _ _ _ _ _) as [[[applied s1]|]|] eqn:Hv; [|done..]. injection Hr as <- <-.
    by eapply vm_apply_typed in Hv as [? _].
Qed.
End call.

(** ** Supply checks *)

(** The verdict of the full audit reads the tables only. *)
Lemma audit_tables st st' :
  records st = records st' -> shares st = shares st' ->
  (audit_asset_supply st).2 = (audit_asset_supply st').2.
Proof.
  intros Hr Hs. unfold audit_asset_supply, mbind, st_mbind, st_check. rewrite Hr, Hs.
  destruct (audit_shares _ _ _); [|done]. by destruct (audit_records _ _).
Qed.

(** No live coin, no value; the store's coins are positive. *)
Lemma empty_iff_zero u : utxo_wf u -> utxo_is_empty u = Zeno.is_zero (total_value u).
Proof.
  intros [Ha Ht _ _]. unfold utxo_is_empty, Zeno.is_zero. rewrite Ht.
  destruct (decide (coins u = ∅)) as [He|Hne].
  - rewrite bool_decide_eq_true_2, He by done. unfold value_of. by rewrite map_sum_empty.
  - rewrite bool_decide_eq_false_2 by done. symmetry. apply Z.eqb_neq.
    destruct (map_choose _ Hne) as (id & c & Hc). pose proof (value_of_lookup _ _ _ Ha Hc).
    apply Ha in Hc. unfold coin_wf in Hc. lia.
Qed.

Lemma validate_coin_supply_Ok s :
  utxo_wf (utxos s) -> fits 64 (total_mined (coin_record s)) -> 0 <= total_burned (coin_record s) ->
  validate_coin_supply s = Ok tt <-> coin_state_ok s.
Proof.
  intros Hwf Hm Hb. unfold validate_coin_supply, coin_supply.
  rewrite (empty_iff_zero _ Hwf), eqb_reflx, orb_false_r. unfold guard_err, fits in *. split.
  - case_bool_decide as Hs; [|done]. intros _. apply checked_sub_Some in Hs as [Hs ?].
    split; [done|lia..].
  - intros [_ _ _ Hs]. rewrite bool_decide_eq_true_2; [done|]. apply checked_sub_Some.
    pose proof (value_of_nonneg _ (utxo_amounts _ Hwf)). rewrite <- (utxo_total _ Hwf) in *. lia.
Qed.

Section supply.
Context `{Sha3} `{RootTest} {Hroot : RootTestSpec}.

(** A state between operations: its coins add up, its values have their types,
    its programs were validated, and its asset tables pass the full audit. *)
Record state_ok (s : LedgerState) : Prop := {
  sk_coin : coin_state_ok s;
  sk_typed : ledger_typed s;
  sk_code : deployed_code (l_programs s);
  sk_audit : (audit_asset_supply (l_assets s)).2 = Ok tt;
}.

(** Checking the supply of typed assets: the cached verdict is that of the full
    audit, and only the cache changes. *)
Lemma validate_asset_supply_spec cached a a' r :
  asset_typed a -> validate_asset_supply cached a = (a', r) ->
  r = (audit_asset_supply a).2 /\ (r = Ok tt -> a' ≡ a /\ asset_typed a').
Proof using Hroot.
  intros [Hty Hslot] Hv.
  assert (r = (audit_asset_supply a).2) as Hr.
  { unfold validate_asset_supply in Hv. destruct cached; [|by rewrite Hv].
    destruct (validate_incremental_supply a) as [[st' r']|] eqn:Hi; [|by rewrite Hv].
    injection Hv as -> ->. symmetry. by eapply incremental_agrees. }
  split; [done|]. intros ->.
  assert (slot_ok a' /\ a' ≡ a) as [Hs He].
  { unfold validate_asset_supply in Hv.
    destruct cached; [destruct (validate_incremental_supply a) as [[st' r']|] eqn:Hi|];
      [injection Hv as -> ->; by eapply incremental_slot_ok|..];
      by apply audit_asset_supply_Ok in Hv as (_ & ? & ?). }
  split; [done|]. split; [|done]. by rewrite (eq_shares _ _ He).
Qed.

Lemma validate_supply_spec s s' r :
  ledger_typed s -> fits 64 (total_mined (coin_record s)) -> 0 <= total_burned (coin_record s) ->
  validate_supply_invariants s = (s', r) ->
  (r = Ok tt <-> coin_state_ok s /\ (audit_asset_supply (l_assets s)).2 = Ok tt) /\
  (r = Ok tt -> s' = with_assets s (l_assets s') /\ l_assets s' ≡ l_assets s /\
     asset_typed (l_assets s')).
Proof using Hroot.
  intros [Hc Ha Hp] Hm Hb Hv.
  pose proof (validate_coin_supply_Ok s Hc Hm Hb) as Hcoin.
  unfold validate_supply_invariants, validate_supply_with_asset_cache in Hv.
  destruct (validate_coin_supply s) as [[]|e].
  - destruct (validate_asset_supply true (l_assets s)) as [a ra] eqn:Hva. injection Hv as <- <-.
    apply validate_asset_supply_spec in Hva as [Hra Hok]; [|done]. rewrite <- Hra.
    destruct Hcoin as [Hcoin _]. destruct ra as [[]|e]; cbn [map_err].
    + destruct (Hok eq_refl). split; [|done]. split; [|done]. by split; [apply Hcoin|].
    + split; [|done]. by split; [|intros [_ ?]].
  - injection Hv as <- <-. split; [|done]. split; [done|]. intros [Hs _]. by apply Hcoin in Hs.
Qed.

(** What is left after a supply check that passed. *)
Lemma wp_validate_supply crash s :
  ledger_typed s -> deployed_code (l_programs s) -> fits 64 (total_mined (coin_record s)) ->
  0 <= total_burned (coin_record s) ->
  wp crash (stage_st validate_supply_invariants)
    (fun _ s' => same_tables s' s /\ state_ok s') s.
Proof using Hroot.
  intros Ht Hcode Hm Hb. apply wp_st. intros [] s' Hv.
  apply validate_supply_spec in Hv as [[Hok _] Hs]; [|done..].
  destruct (Hok eq_refl) as [Hc Ha], (Hs eq_refl) as (-> & He & Hty).
  pose proof (audit_tables _ _ (eq_records _ _ He) (eq_shares _ _ He)) as Hau.
  split; [split; try done; [apply He|apply He]|].
  destruct Ht, Hc. by split; [split|split| |congruence].
Qed.
End supply.

(** ** Operations *)

Lemma journaled_undoable s j s' : coin_journaled s j s' -> coin_undoable s j s'.
Proof. intros []. split; try done; naive_solver. Qed.

Lemma leads_back_same_tables a j b b' :
  leads_back a j b -> same_tables b' b -> leads_back a j b'.
Proof.
  intros [(coin & Hc & Hu) Hp Ha] [Hut Hco Hpr Hre Hsh]. split.
  - exists coin. split; [done|]. destruct Hu. split; rewrite ?Hut, ?Hco; done.
  - by rewrite Hpr.
  - unfold undoes in *. by rewrite Hre, Hsh.
Qed.

Record deploy_typed (d : DeployProgram) : Prop := {
  dt_owner : hash_wf (dp_owner d);
  dt_nonce : fits 64 (dp_nonce d);
  dt_code : bytes_wf (dp_code d);
}.

Section operations.
Context `{Sha3} {Hspec : Sha3Spec} `{SignatureBackend} `{RootTest} {Hroot : RootTestSpec}.

(** The fields of an operation hold values of their types, and no output
    identifier of its payment is one of the payment's inputs: the identifier
    hashes a commitment to those inputs. *)
Definition operation_ok (genesis : Hash) (miner : ProgramId) (o : BlockOperation) : Prop :=
  match o with
  | OpProgramCall tx => invocation_typed tx /\ forall commitment,
      program_invocation_commitment (ai_signer tx) (ai_call tx) (ai_payment tx) genesis
        = Ok commitment -> intent_ok (ai_payment tx) commitment miner
  | OpDeployProgram signed => deploy_typed (ad_deploy signed) /\
      intent_ok (ad_payment signed) (deploy_commitment signed genesis) miner
  end.

(** What an applied operation leaves: a journal that leads back, a good state,
    and the burn that validation required. *)
Record applied (s : LedgerState) (required : Z) (j : StateRollbackJournal) (s' : LedgerState) : Prop := {
  ap_back : leads_back s j s';
  ap_ok : state_ok s';
  ap_burn : protocol_burn j = required;
  ap_mined : total_mined (coin_record s') = total_mined (coin_record s);
  ap_nonneg : 0 <= protocol_burn j;
}.

Lemma wp_called decoded tx height commitment genesis applications s :
  state_ok s -> invocation_typed tx -> fits 64 height -> decode_program (ai_call tx) = Ok decoded ->
  wp (unwinds (app_asset applications)) (run_call decoded tx height commitment genesis applications)
    (fun r s' => called s r s' /\ ledger_typed s') s.
Proof using Hspec Hroot.
  intros [[] Hty Hcode _] Htx Hh Hdec.
  pose proof (wp_run_call decoded tx height commitment genesis applications s) as Hw.
  unfold wp in *. destruct (run_call _ _ _ _ _ _ _) as [[[r s']|]|] eqn:Hr.
  - split; [apply Hw; [split; [done|lia..]|done]|by eapply run_call_typed].
  - done.
  - apply Hw; [split; [done|lia..]|done].
Qed.

Lemma paid_typed s intent j s' :
  ledger_typed s -> paid s intent j s' -> ledger_typed s'.
Proof.
  intros [Hc Ha Hp] [[] _ _ _ _]. split; [done|by rewrite cj_assets|by rewrite cj_programs].
Qed.

Lemma wp_apply_call prepared miner genesis applications s n :
  state_ok s -> operation_ok genesis miner (OpProgramCall (pp_invocation prepared)) ->
  fits 64 (pp_height prepared) ->
  validate_coin_inputs (ct_inputs (ai_payment (pp_invocation prepared)))
    (ct_outputs (ai_payment (pp_invocation prepared)))
    (miner_fee (charges (ai_payment (pp_invocation prepared))))
    (ai_signer (pp_invocation prepared)) s = Ok n ->
  wp (unwinds (app_asset applications))
    (apply_prepared_program_call_in_staged_state prepared miner genesis applications)
    (fun j s' => applied s n j s') s.
Proof using Hspec Hroot.
  set (tx := pp_invocation prepared). intros Hs [Htx Hpay] Hh Hval.
  pose proof (validate_coin_inputs_Ok _ _ _ _ _ _ Hval) as [Hsigner Hinputs].
  unfold apply_prepared_program_call_in_staged_state. fold tx.
  apply wp_bind, wp_lift. intros commitment Hc%map_err_Ok_inv. specialize (Hpay _ Hc).
  apply wp_bind, wp_lift. intros decoded Hd%map_err_Ok_inv. apply wp_bind.
  eapply wp_mono; [by apply wp_called|]. intros [[vm ext] prog] s1 [[] Hty1]. cbn [fst snd] in *.
  destruct (sk_coin _ Hs) as [Hwf Hm Hb _].
  apply wp_bind. eapply wp_mono; [apply wp_pay; [|exact Hpay]|].
  { split; [apply cl_coin0|rewrite cl_record0; lia..]. }
  intros coin s2 Hpaid. pose proof (paid_typed _ _ _ _ Hty1 Hpaid) as Hty2.
  destruct Hpaid as [Hj Hin Hmz Hbz _]. pose proof (planned_burn_nonneg _ _ _ Hbz). apply wp_bind.
  eapply wp_mono; [apply wp_validate_supply; [done|..]|].
  { by rewrite (cj_programs _ _ _ Hj). }
  { rewrite (cj_mined _ _ _ Hj), Hmz, cl_record0. unfold fits. lia. }
  { rewrite (cj_burned _ _ _ Hj), cl_record0. lia. }
  intros [] s3 [Hst Hok]. apply wp_ret.
  assert (forall id, id ∈ ct_inputs (ai_payment tx) ->
    id ∉ created_coin_ids vm /\ id ∉ (consumed_coins vm).*1) as Hdis.
  { intros id Hid%Hinputs. destruct Hid as (c & Hid & Ho).
    assert (id ∉ (consumed_coins vm).*1) as Hnc.
    { intros ([id' c'] & -> & Hv)%list_elem_of_fmap. cbn in *. apply cl_own0 in Hv as Hp.
      apply (ud_old _ _ _ cl_coin0) in Hv as [Hv _]. rewrite Hid in Hv. injection Hv as <-.
      by apply (signer_coins_not_program s (ai_signer tx) c). }
    split; [|done]. intros [_ [Hn|?]]%(ud_new _ _ _ cl_coin0); [congruence|done]. }
  split; [|done| |by rewrite (same_coin _ _ Hst), (cj_mined _ _ _ Hj), Hmz, Z.add_0_r, cl_record0|done].
  2: { cbn. eapply planned_burn_validated; [exact Hval| |exact Hbz].
       intros id Hid. destruct (Hdis id Hid). by apply (ud_same _ _ _ cl_coin0). }
  eapply leads_back_same_tables; [|exact Hst]. split; cbn [sj_coin sj_program sj_extension].
  - eexists. split; [done|]. eapply append_undoable; [exact cl_coin0|exact Hj|done|done|].
    intros id Hid%Hin. by apply Hdis.
  - by rewrite (cj_programs _ _ _ Hj).
  - by rewrite (cj_assets _ _ _ Hj).
Qed.

Lemma installed_typed r d height r' id journal :
  registry_typed r -> deploy_typed d -> fits 64 height ->
  deploy_program r d height = Ok (r', (id, journal)) -> registry_typed r'.
Proof using Hspec.
  intros Hr [Ho Hn Hc] Hh (Hv & -> & _ & (_ & _ & ->)%registry_insert_Ok)%deploy_program_Ok.
  apply map_Forall_insert_2; [|done]. cbn.
  split; [apply sha3_wf|].
  split; cbn [code_hash code p_owner nonce deployed_at p_state storage deployed_record];
    [apply sha3_wf| |done|done|done|by split|apply map_Forall_empty].
  split; [done|]. unfold validate_structure in Hv. apply guard_err_Ok in Hv as [_ Hv].
    apply guard_err_Ok in Hv as [Hl _]. unfold MAX_PROGRAM_CODE_SIZE in Hl. lia.
Qed.

Lemma installed_code r d height r' id journal :
  deployed_code r -> bytes_wf (dp_code d) ->
  deploy_program r d height = Ok (r', (id, journal)) -> deployed_code r'.
Proof.
  intros Hr Hc (Hv & -> & _ & (_ & _ & ->)%registry_insert_Ok)%deploy_program_Ok i record Hi.
  cbn in Hi. apply lookup_insert_Some in Hi as [[_ <-]|[_ Hi]]; [|by eapply Hr]. cbn. split; [done|].
  unfold validate_structure in Hv. apply guard_err_Ok in Hv as [_ Hv].
  apply guard_err_Ok in Hv as [_ Hv]. apply bind_Ok in Hv as (v & Hv%map_err_Ok_inv & _). by exists v.
Qed.

Lemma wp_apply_deploy crash prepared miner applications s n :
  state_ok s -> deploy_typed (ad_deploy (pd_signed prepared)) -> fits 64 (pd_height prepared) ->
  intent_ok (ad_payment (pd_signed prepared)) (pd_commitment prepared) miner ->
  validate_coin_inputs (ct_inputs (ad_payment (pd_signed prepared)))
    (ct_outputs (ad_payment (pd_signed prepared)))
    (miner_fee (charges (ad_payment (pd_signed prepared))))
    (dp_owner (ad_deploy (pd_signed prepared))) s = Ok n ->
  wp crash (apply_prepared_deploy_in_staged_state prepared miner applications)
    (fun j s' => applied s n j s') s.
Proof using Hspec Hroot.
  intros Hs Hd Hh Hpay Hval. destruct (sk_coin _ Hs) as [Hwf Hm Hb _].
  unfold apply_prepared_deploy_in_staged_state. apply wp_bind.
  eapply wp_mono; [apply wp_pay; [split; [done|lia..]|exact Hpay]|].
  intros coin s1 Hpaid. pose proof (paid_typed _ _ _ _ (sk_typed _ Hs) Hpaid) as Hty1.
  destruct Hpaid as [Hj _ Hmz Hbz _]. pose proof (planned_burn_nonneg _ _ _ Hbz).
  apply wp_bind. unfold wp at 1, install_program.
  destruct (deploy_program _ _ _) as [[r [id journal]]|] eqn:Hdep; [|done].
  rewrite (cj_programs _ _ _ Hj) in Hdep. apply wp_bind, wp_require. intros _.
  destruct Hs as [_ [_ _ Htp] Hcode _]. apply wp_bind.
  eapply wp_mono; [apply wp_validate_supply|].
  - destruct Hty1. split; [done|done|].
    by apply (installed_typed _ _ _ _ _ _ Htp Hd Hh Hdep).
  - cbn. by eapply (installed_code _ _ _ _ _ _ Hcode); [apply Hd|].
  - cbn. rewrite (cj_mined _ _ _ Hj), Hmz. unfold fits. lia.
  - cbn. rewrite (cj_burned _ _ _ Hj). lia.
  - intros [] s2 [Hst Hok]. apply wp_ret.
    split; [|done| |by rewrite (same_coin _ _ Hst); cbn; rewrite (cj_mined _ _ _ Hj), Hmz, Z.add_0_r|done].
    2: { cbn. by eapply planned_burn_validated. }
    eapply leads_back_same_tables; [|exact Hst]. split; cbn.
    + exists coin. split; [done|]. apply journaled_undoable in Hj as []. by split.
    + apply deploy_program_Ok in Hdep as (_ & -> & -> & (? & ? & ->)%registry_insert_Ok).
      by apply rollback_deploy.
    + by rewrite (cj_assets _ _ _ Hj).
Qed.
End operations.

(** ** Validation *)

(** Every success meets [Q]; a panic implies [crash]. *)
Definition rwp {E A} (crash : Prop) (m : Run E A) (Q : A -> Prop) : Prop :=
  match m with
  | Returned (Ok a) => Q a
  | Returned (Err _) => True
  | Panicked => crash
  end.

Section rwp.
Context {E : Type} (crash : Prop).

Lemma rwp_bind {A B} (m : Run E A) (f : A -> Run E B) Q :
  rwp crash m (fun a => rwp crash (f a) Q) -> rwp crash (m ≫= f) Q.
Proof. by destruct m as [[]|]. Qed.

Lemma rwp_mono {A} (m : Run E A) (Q Q' : A -> Prop) :
  rwp crash m Q -> (forall a, Q a -> Q' a) -> rwp crash m Q'.
Proof. destruct m as [[]|]; cbn; auto. Qed.

Lemma rwp_lift {A} (r : result E A) (Q : A -> Prop) :
  (forall a, r = Ok a -> Q a) -> rwp crash (run_lift r) Q.
Proof. destruct r; cbn; auto. Qed.

Lemma rwp_ret {A} (a : A) (Q : A -> Prop) : Q a -> rwp crash (mret a : Run E A) Q.
Proof. done. Qed.

Lemma rwp_map_err {E' A} (f : E -> E') (m : Run E A) Q :
  rwp crash m Q -> rwp crash (run_map_err f m) Q.
Proof. by destruct m as [[]|]. Qed.

Lemma rwp_require c (e : E) (Q : unit -> Prop) : (c = true -> Q tt) -> rwp crash (run_require c e) Q.
Proof. destruct c; cbn; auto. Qed.
End rwp.

Section validation.
Context `{Sha3} {Hspec : Sha3Spec} `{SignatureBackend} `{RootTest} {Hroot : RootTestSpec}.

Lemma preview_safe application tx height commitment s :
  utxo_wf (utxos s) -> deployed_code (l_programs s) ->
  rwp (unwinds application) (preview application tx height commitment s) (fun _ => True).
Proof.
  intros Hwf Hcode. pose proof (vm_apply_engine application tx height commitment s Hwf Hcode) as Hv.
  unfold preview.
  destruct (map_err _ _ ≫= _) as [[[id data] record]|] eqn:Hin; [|done].
  apply bind_Ok in Hin as (input & _ & Hin). apply bind_Ok in Hin as (r & Hr%ok_or_Ok & [= -> <-]).
  cbn [fst] in Hr. unfold program in Hr. destruct (Hcode _ _ Hr) as [Hb (v & Hc)].
  destruct (validated_version _ _ Hc) as [version ->].
  match goal with |- context [rwp _ (if _ then ?m else _)] =>
    assert (rwp (unwinds application) m (fun _ => True)) as Hst; [|generalize dependent m] end.
  { by destruct (vm_apply _ _ _ _ _) as [[[]|]|]. }
  clear Hv. intros staged Hst.
  case_match; [done|]. case_match; [done|]. unfold execute_registered, program. rewrite Hr.
  destruct (execute_code_total (code r) (p_state r) MAX_CALL_FUEL Hb) as (res & -> & _).
  destruct res as [result|]; [|done]. by case_match.
Qed.

Lemma created_weight_safe tx genesis extensions applications :
  rwp (unwinds (app_asset applications))
    (program_created_state_weight tx genesis extensions applications) (fun _ => True).
Proof.
  unfold program_created_state_weight. apply rwp_bind, rwp_lift. intros _ _.
  apply rwp_bind, rwp_lift. intros decoded _. destruct decoded as [|call|id]; [done| |done].
  apply rwp_bind, rwp_lift. intros view _.
  destruct (execute_asset _ _ _ _) as [a j] eqn:He. apply rwp_bind, rwp_map_err.
  destruct j as [[j|]|]; [|done|by eexists _, _, _; rewrite He].
  cbn. destruct (canonical_delta j a); [|done]. by apply rwp_lift.
Qed.

Lemma vm_quote_safe tx genesis height s applications id :
  utxo_wf (utxos s) -> deployed_code (l_programs s) ->
  rwp (unwinds (app_asset applications)) (vm_quote tx genesis height s applications id)
    (fun _ => True).
Proof.
  intros Hwf Hcode. unfold vm_quote. apply rwp_bind, rwp_lift. intros _ _. cbn [view_ledger_state ledger_state_view].
  apply rwp_bind, rwp_lift. intros commitment _. apply rwp_bind, rwp_map_err.
  eapply rwp_mono; [by apply preview_safe|done].
Qed.

(** A call that validates is prepared as it came, and its payment spends live
    coins of its signer. *)
Lemma validate_program_call_spec tx genesis height s applications :
  utxo_wf (utxos s) -> deployed_code (l_programs s) ->
  rwp (unwinds (app_asset applications)) (validate_program_call tx genesis height s applications)
    (fun p => pp_invocation p = tx /\ pp_height p = height /\
       validate_coin_inputs (ct_inputs (ai_payment tx)) (ct_outputs (ai_payment tx))
         (miner_fee (charges (ai_payment tx))) (ai_signer tx) s = Ok (pp_required_burn p)).
Proof.
  intros Hwf Hcode. unfold validate_program_call.
  apply rwp_bind, rwp_lift. intros _ _. apply rwp_bind, rwp_lift. intros size _.
  apply rwp_bind, rwp_require. intros _. apply rwp_bind, rwp_lift. intros valid _.
  apply rwp_bind, rwp_require. intros _. apply rwp_bind, rwp_lift. intros decoded _.
  apply rwp_bind, (rwp_mono _ _ (fun _ => True)).
  { destruct decoded; [done|done|]. by apply vm_quote_safe. }
  intros [q fuel] _. apply rwp_bind, (rwp_mono _ _ (fun _ => True)).
  { destruct (decode_program _) as [[| |]|]; try done;
      (apply rwp_bind, rwp_lift; intros ext _; apply created_weight_safe). }
  intros weight _. apply rwp_bind, rwp_lift. intros actual Hv. apply rwp_bind, rwp_lift. intros n _.
  apply rwp_bind, rwp_lift. intros burn _. apply rwp_bind, rwp_lift. intros total _.
  apply rwp_bind, rwp_lift. intros required _. apply rwp_bind, rwp_lift. intros [] Hex%map_err_Ok_inv.
  apply rwp_ret. unfold validate_exact_burn in Hex. apply guard_err_Ok in Hex as [Hex _].
  destruct (Z.eqb_spec actual required); [subst|done]. done.
Qed.

Lemma validate_deploy_spec signed genesis height s p :
  validate_deploy signed genesis height s = Ok p ->
  pd_signed p = signed /\ pd_height p = height /\ pd_commitment p = deploy_commitment signed genesis /\
  validate_coin_inputs (ct_inputs (ad_payment signed)) (ct_outputs (ad_payment signed))
    (miner_fee (charges (ad_payment signed))) (dp_owner (ad_deploy signed)) s
  = Ok (pd_required_burn p).
Proof.
  unfold validate_deploy. intros Hv. apply bind_Ok in Hv as (u & _ & Hv).
  apply guard_err_Ok in Hv as [_ Hv]. apply bind_Ok in Hv as ([id required] & _ & Hv).
  apply bind_Ok in Hv as (actual & Ha%map_err_Ok_inv & Hv).
  apply bind_Ok in Hv as ([] & Hex%map_err_Ok_inv & [= <-]).
  unfold validate_exact_burn in Hex. apply guard_err_Ok in Hex as [Hex _].
  destruct (Z.eqb_spec actual required); [subst|done]. done.
Qed.
End validation.

(** ** The public entry points *)

Lemma wp_stage_run {S E A} crash (f : S -> Run E A) (Q : A -> S -> Prop) s :
  rwp crash (f s) (fun a => Q a s) -> wp crash (stage_run f) Q s.
Proof. unfold wp, stage_run. by destruct (f s) as [[]|]. Qed.

Section entry_points.
Context `{Sha3} {Hspec : Sha3Spec} `{SignatureBackend} `{RootTest} {Hroot : RootTestSpec}.

Definition apply_operation (o : BlockOperation) (miner : ProgramId) (genesis : Hash) (height : Z)
    (applications : Applications) : LedgerState -> LedgerState * Run LedgerError StateRollbackJournal :=
  match o with
  | OpProgramCall tx => apply_program_call tx miner genesis height applications
  | OpDeployProgram signed => apply_deploy signed miner genesis height applications
  end.

(** The burn validation requires of an operation. *)
Definition required_burn (o : BlockOperation) (genesis : Hash) (height : Z)
    (applications : Applications) (s : LedgerState) : option Z :=
  match o with
  | OpProgramCall tx =>
      match validate_program_call tx genesis height s applications with
      | Returned (Ok prepared) => Some (pp_required_burn prepared)
      | _ => None
      end
  | OpDeployProgram signed =>
      match validate_deploy signed genesis height s with
      | Ok prepared => Some (pd_required_burn prepared)
      | Err _ => None
      end
  end.

Lemma wp_validated_call tx miner genesis height applications s :
  state_ok s -> operation_ok genesis miner (OpProgramCall tx) -> fits 64 height ->
  wp (unwinds (app_asset applications))
    (stage_run (fun s => run_map_err LProgramCall
       (validate_program_call tx genesis height s applications)))
    (fun p s' => s' = s /\ required_burn (OpProgramCall tx) genesis height applications s
                           = Some (pp_required_burn p) /\ pp_invocation p = tx /\
       wp (unwinds (app_asset applications))
         (apply_prepared_program_call_in_staged_state p miner genesis applications)
         (fun j s' => applied s (pp_required_burn p) j s') s) s.
Proof using Hspec Hroot.
  intros Hs Ho Hh. apply wp_stage_run, rwp_map_err.
  pose proof (validate_program_call_spec tx genesis height s applications
    (cs_utxo _ (sk_coin _ Hs)) (sk_code _ Hs)) as Hv.
  cbn [required_burn]. destruct (validate_program_call _ _ _ _ _) as [[p|]|]; [|done|done].
  cbn in Hv. destruct Hv as (<- & <- & Hv). cbn. split_and!; [done|done|done|].
  by apply wp_apply_call.
Qed.

Lemma wp_validated_deploy crash signed miner genesis height applications s :
  state_ok s -> operation_ok genesis miner (OpDeployProgram signed) -> fits 64 height ->
  wp crash (stage_check (fun s => map_err LDeploy (validate_deploy signed genesis height s)))
    (fun p s' => s' = s /\ required_burn (OpDeployProgram signed) genesis height applications s
                           = Some (pd_required_burn p) /\ pd_signed p = signed /\
       wp crash (apply_prepared_deploy_in_staged_state p miner applications)
         (fun j s' => applied s (pd_required_burn p) j s') s) s.
Proof using Hspec Hroot.
  intros Hs [Hd Hp] Hh. apply wp_check. intros p Hv%map_err_Ok_inv. cbn [required_burn].
  rewrite Hv. apply validate_deploy_spec in Hv as (<- & <- & Hc & Hv). split_and!; [done|done|done|].
  rewrite <- Hc in Hp. by apply wp_apply_deploy.
Qed.

(** Applying an operation commits a computation on a clone. *)
Lemma apply_operation_wp o miner genesis height applications s :
  state_ok s -> operation_ok genesis miner o -> fits 64 height ->
  exists m, apply_operation o miner genesis height applications s = commit m s /\
    wp (unwinds (app_asset applications)) m (fun j s' => exists required,
      required_burn o genesis height applications s = Some required /\ applied s required j s') s.
Proof using Hspec Hroot.
  intros Hs Ho Hh. destruct o as [signed|tx]; eexists; (split; [reflexivity|]); apply wp_bind.
  - eapply wp_mono; [by apply wp_validated_deploy|]. intros p s' (-> & Hr & _ & Hp).
    eapply wp_mono; [exact Hp|]. eauto.
  - eapply wp_mono; [by apply wp_validated_call|]. intros p s' (-> & Hr & _ & Hp).
    eapply wp_mono; [exact Hp|]. eauto.
Qed.

(** (C4) An operation is atomic, exact and reversible.  A failed or unwound
    program call or deployment leaves the state as it was, and only a panicking
    application can unwind it.  A successful one leaves a state whose coins add
    up, whose values keep their types and whose assets pass the full audit; the
    live coin value has shrunk by exactly the burn validation required; and
    rolling its one journal back, with the payment's coins and those the
    virtual machine moved merged into it, restores the coin store with its
    indexes, the counters, the program registry, and the asset records and
    shares. *)
Theorem operation_atomic_reversible o miner genesis height applications s :
  state_ok s -> operation_ok genesis miner o -> fits 64 height ->
  match apply_operation o miner genesis height applications s with
  | (s', Returned (Ok j)) =>
      state_ok s' /\
      required_burn o genesis height applications s = Some (protocol_burn j) /\
      total_value (utxos s') = total_value (utxos s) - protocol_burn j /\
      exists a, rollback_state j s' =
        ({| utxos := utxos s; coin_record := coin_record s; l_programs := l_programs s;
            l_assets := a |}, Ok tt) /\
        records a = records (l_assets s) /\ shares a = shares (l_assets s)
  | (s', Returned (Err _)) => s' = s
  | (s', Panicked) => s' = s /\ unwinds (app_asset applications)
  end.
Proof using Hspec Hroot.
  intros Hs Ho Hh. destruct (apply_operation_wp o miner genesis height applications s Hs Ho Hh) as (m & -> & Hm).
  unfold commit, wp in *. destruct (m s) as [[[j s']|]|]; [|done|done].
  destruct Hm as (required & Hr & [Hb Hok Hburn Hmined _]). split; [done|].
  split; [by rewrite Hburn|]. split.
  - pose proof (cs_supply _ (sk_coin _ Hs)). pose proof (cs_supply _ (sk_coin _ Hok)).
    destruct Hb as [(coin & Hc & Hu) _ _]. unfold protocol_burn. rewrite Hc.
    pose proof (ud_burned _ _ _ Hu). lia.
  - destruct (rollback_state_leads_back s j s' s' Hb ltac:(done)) as (Hroll & ? & ?). eauto.
Qed.
End entry_points.

(** ** A paid call of the paying program *)

(** The program's nine, and what the signer pays with: five for a recipient,
    one for the miner, and the burn. *)
Definition charged_coins : UtxoSet :=
  (Coin.run utxo_step utxo_empty
    [OpInsert (replicate 32 3) {| cu_amount := 9; cu_owner := Program payer |};
     OpInsert (replicate 32 1) {| cu_amount := 8303; cu_owner := Program (replicate 32 0) |}]).1.

Definition charged_state : LedgerState :=
  {| utxos := charged_coins; coin_record := {| total_mined := 8312; total_burned := 0 |};
     l_programs := paying_registry; l_assets := assets_empty |}.

Definition toy_miner : ProgramId := replicate 32 12.

Lemma charged_ok : state_ok charged_state.
Proof.
  assert (utxo_wf charged_coins).
  { apply utxo_run_simulation; [apply utxo_empty_wf|]. by repeat constructor. }
  split.
  - split; [done|..]; vm_compute; by repeat split.
  - destruct paying_typed as [_ Ha Hp]. by split.
  - exact paying_deployed.
  - vm_compute. reflexivity.
Qed.

Lemma paying_operation_ok :
  @operation_ok toy_sha3 (replicate 32 3) toy_miner (OpProgramCall paying_call).
Proof.
  split; [exact paying_call_typed|]. intros commitment Hc. vm_compute in Hc. injection Hc as <-.
  split; [by repeat constructor|by split|].
  intros [|[|i]] Hi; [..|cbn in Hi; lia]; apply (bool_decide_unpack _); vm_compute; reflexivity.
Qed.

Lemma operation_atomic_reversible_witness :
  exists s j, @apply_operation toy_sha3 accept_all (fun _ _ _ => false) (OpProgramCall paying_call)
      toy_miner (replicate 32 3) 5 extension_applications charged_state = (s, Returned (Ok j)) /\
    total_value (utxos s) = 8312 - 8297 /\
    exists a, @rollback_state (fun _ _ _ => false) j s =
      ({| utxos := charged_coins; coin_record := coin_record charged_state;
          l_programs := paying_registry; l_assets := a |}, Ok tt).
Proof.
  assert (fits 64 5) as H5 by (split; [discriminate|reflexivity]).
  pose proof (@operation_atomic_reversible toy_sha3 toy_sha3_spec accept_all (fun _ _ _ => false)
    no_roots_spec (OpProgramCall paying_call) toy_miner (replicate 32 3) 5 extension_applications
    charged_state charged_ok paying_operation_ok H5) as Hs.
  assert (match @apply_operation toy_sha3 accept_all (fun _ _ _ => false) (OpProgramCall paying_call)
      toy_miner (replicate 32 3) 5 extension_applications charged_state with
    | (s, Returned (Ok j)) => protocol_burn j = 8297 | _ => False end) as Hr
    by (vm_compute; reflexivity).
  destruct (apply_operation _ _ _ _ _ _) as [s [[j|]|]]; [|contradiction..].
  destruct Hs as (_ & _ & Hv & a & Ha & _). exists s, j. split; [reflexivity|].
  split; [rewrite Hv, Hr; reflexivity|]. exists a. exact Ha.
Defined.
