(* ===== verification/Growth.v ===== *)
(** * State growth and the burn that pays for it

    Validation charges an operation for the canonical bytes it adds to the
    state, but never encodes the state: asset calls are previewed on a view of
    the entries they touch and measured by their journal ([canonical_delta] of
    [ledger/utxo/asset/journal.rs]), invocations by the slots they wrote
    ([program/vm_app/execution.rs]), deployments by one map entry
    ([consensus/deploy.rs]).  Here these shortcuts are shown to measure the
    state itself. *)

From S2P Require Import Prelude Codec Monetary Index Coin Vm Registry RegistryWire Calls Wire Authorize Policy.
From S2P Require Import Assets AssetFacts AssetProps AssetAudit State StateRoot CoinHost CoinProps AssetHost AssetView.
From S2P Require Import Settlement Engine SettleFacts EngineFacts EngineProps VmTypes Apply ApplyFacts.
#[local] Open Scope Z_scope.

(** ** The size of an encoded table *)

Lemma length_concat_fmap {A} (f : A -> list Z) l :
  Z.of_nat (length (concat (f <$> l))) = zsum ((fun x => Z.of_nat (length (f x))) <$> l).
Proof.
  induction l as [|x l IH]; [done|]. rewrite !fmap_cons. cbn [concat].
  rewrite length_app, zsum_cons, Nat2Z.inj_add. lia.
Qed.

Lemma map_sum_list `{Countable K} {V} (f : K -> V -> Z) (m : gmap K V) :
  map_sum f m = zsum ((fun e => f e.1 e.2) <$> map_to_list m).
Proof.
  unfold map_sum. rewrite map_fold_foldr.
  induction (map_to_list m) as [|[k v] l IH]; [done|]. cbn [foldr]. rewrite fmap_cons, zsum_cons.
  by rewrite <- IH.
Qed.

(** What an entry of a table takes on the wire. *)
Definition entry_bytes {V} (enc : V -> list Z) (k : list Z) (v : V) : Z :=
  Z.of_nat (length (k ++ enc v)).

Lemma enc_map_bytes {V} (enc : V -> list Z) (m : gmap (list Z) V) :
  Z.of_nat (length (enc_map enc m)) = 4 + map_sum (entry_bytes enc) m.
Proof.
  unfold enc_map, enc_vec. rewrite length_app, length_le_bytes, Nat2Z.inj_add, length_concat_fmap.
  f_equal. rewrite map_sum_list. apply zsum_permutation. by rewrite sorted_entries_permutation.
Qed.

(** Changing one entry changes the sum by that entry. *)
Lemma map_sum_alter `{Countable K} {V} (f : K -> V -> Z) (m : gmap K V) k p :
  map_sum f (partial_alter (fun _ => p) k m) + from_option (f k) 0 (m !! k)
  = map_sum f m + from_option (f k) 0 p.
Proof.
  assert (map_sum f m = map_sum f (delete k m) + from_option (f k) 0 (m !! k)) as Hm.
  { destruct (m !! k) as [v|] eqn:Hk; cbn.
    - rewrite (map_sum_delete f m k v Hk). lia.
    - rewrite delete_id by done. lia. }
  assert (map_sum f (partial_alter (fun _ => p) k m)
          = map_sum f (delete k m) + from_option (f k) 0 p) as Hp; [|lia].
  destruct p as [v|]; cbn [from_option].
  - change (partial_alter (fun _ => Some v) k m) with (<[k := v]> m).
    rewrite <- insert_delete_eq, map_sum_insert by (by rewrite lookup_delete_eq). lia.
  - change (partial_alter (fun _ => None) k m) with (delete k m). lia.
Qed.

(** Restoring journaled entries changes the sum by those entries. *)
Definition journal_change {V} (f : list Z -> V -> Z) (m : gmap (list Z) V)
    (l : list (list Z * option V)) : Z :=
  zsum ((fun '(k, p) => from_option (f k) 0 (m !! k) - from_option (f k) 0 p) <$> l).

Lemma journal_change_restore {V} (f : list Z -> V -> Z) (m : gmap (list Z) V) l :
  NoDup l.*1 -> map_sum f m - map_sum f (restore m l) = journal_change f m l.
Proof.
  revert m. induction l as [|[k p] l IH]; intros m Hnd; [cbn; unfold journal_change; cbn; lia|].
  rewrite fmap_cons in Hnd. apply NoDup_cons in Hnd as [Hk Hnd].
  cbn [restore fold_left]. fold (restore (partial_alter (fun _ => p) k m) l).
  unfold journal_change. rewrite fmap_cons, zsum_cons. pose proof (map_sum_alter f m k p).
  specialize (IH (partial_alter (fun _ => p) k m) Hnd). unfold journal_change in IH.
  rewrite (list_fmap_ext _ (fun '(k, p) => from_option (f k) 0 (m !! k) - from_option (f k) 0 p) l) in IH.
  - lia.
  - intros i [k' p'] Hi. rewrite lookup_partial_alter_ne; [done|]. intros ->. apply Hk.
    apply list_elem_of_fmap. exists (k', p'). split; [done|]. by eapply list_elem_of_lookup_2.
Qed.

(** ** Asset journals *)

Lemma delta_fold {V} (enc : V -> list Z) (live : gmap (list Z) V) l d d' :
  try_fold (delta_step enc live) l d = Ok d' ->
  d' = d + journal_change (entry_bytes enc) live l.
Proof.
  revert d. induction l as [|[k p] l IH]; intros d; cbn [try_fold].
  { intros [= <-]. unfold journal_change. cbn. lia. }
  intros (d1 & Hd & Hf)%bind_Ok. apply IH in Hf. unfold delta_step in Hd. apply ok_or_Ok in Hd.
  unfold i128_checked_add in Hd. case_match; [|done]. injection Hd as <-. rewrite Hf.
  unfold journal_change. rewrite fmap_cons, zsum_cons. unfold entry_size, entry_bytes, from_option.
  destruct (live !! k), p; lia.
Qed.

(** The canonical size of the asset tables. *)
Definition asset_bytes (a : AssetState) : Z := Z.of_nat (length (enc_assets a)).

Lemma asset_bytes_sum a :
  asset_bytes a = 8 + map_sum (entry_bytes enc_record) (records a)
                  + map_sum (entry_bytes enc_share) (shares a).
Proof.
  unfold asset_bytes, enc_assets. rewrite length_app, Nat2Z.inj_add, !enc_map_bytes. lia.
Qed.

(** The journal of a change measures the change of the canonical bytes. *)
Lemma canonical_delta_exact j before after d :
  undoes (Some j) before after -> canonical_delta j after = Ok d ->
  d = asset_bytes after - asset_bytes before.
Proof.
  intros ([Hr Hs] & Hre & Hsh). unfold canonical_delta. intros (d1 & H1 & H2)%bind_Ok.
  apply delta_fold in H1, H2.
  rewrite <- journal_change_restore in H1 by done. rewrite <- journal_change_restore in H2 by done.
  rewrite Hre in H1. rewrite Hsh in H2. rewrite !asset_bytes_sum. lia.
Qed.

(** ** The registry *)

Definition registry_bytes (r : ProgramRegistry) : Z := Z.of_nat (length (enc_registry r)).

Lemma registry_bytes_sum r :
  registry_bytes r = 4 + map_sum (entry_bytes enc_program_record) (programs r).
Proof. apply enc_map_bytes. Qed.

Lemma enc_string_bytes s : Z.of_nat (length (enc_string s)) = 4 + Z.of_nat (length s).
Proof. unfold enc_string. rewrite length_app, length_le_bytes. lia. Qed.

Lemma storage_bytes m :
  Z.of_nat (length (enc_storage m)) = 4 + map_sum (fun k v => slot_width k (Some v)) m.
Proof.
  unfold enc_storage, enc_vec. rewrite length_app, length_le_bytes, Nat2Z.inj_add, length_concat_fmap.
  f_equal. rewrite map_sum_list. rewrite (zsum_permutation _ ((fun e => Z.of_nat (length (enc_slot e))) <$> map_to_list m)).
  - f_equal. apply list_fmap_ext. intros i [k v] _. unfold enc_slot, slot_width. cbn [fst snd].
    rewrite length_app, Nat2Z.inj_add, !enc_string_bytes. lia.
  - by rewrite sorted_entries_permutation.
Qed.

Lemma with_program_bytes r id b b' :
  programs r !! id = Some b ->
  registry_bytes (with_program r id b') - registry_bytes r
  = Z.of_nat (length (enc_program_record b')) - Z.of_nat (length (enc_program_record b)).
Proof.
  intros Hid. rewrite !registry_bytes_sum. cbn [with_program programs].
  pose proof (map_sum_alter (entry_bytes enc_program_record) (programs r) id (Some b')) as Ha.
  change (partial_alter (fun _ => Some b') id (programs r)) with (<[id := b']> (programs r)) in Ha.
  rewrite Hid in Ha. cbn [from_option] in Ha. unfold entry_bytes in *. rewrite !length_app in Ha. lia.
Qed.

Lemma with_state_bytes b v :
  length (enc_program_record (with_state b v)) = length (enc_program_record b).
Proof.
  unfold enc_program_record, with_state, enc_i64.
  cbn [code code_hash p_owner nonce deployed_at p_state storage]. by rewrite !length_app, !length_le_bytes.
Qed.

Lemma with_storage_bytes b key v :
  is_application (code b) = true ->
  Z.of_nat (length (enc_program_record (with_storage b (partial_alter (fun _ => v) key (storage b)))))
  - Z.of_nat (length (enc_program_record b)) = slot_width key v - slot_width key (storage b !! key).
Proof.
  intros Ha. unfold enc_program_record, with_storage. cbn [code code_hash p_owner nonce deployed_at p_state storage].
  rewrite Ha, !length_app, !Nat2Z.inj_add, !storage_bytes.
  pose proof (map_sum_alter (fun k v => slot_width k (Some v)) (storage b) key v) as Hs.
  assert (forall o, from_option (fun v => slot_width key (Some v)) 0 o = slot_width key o) as Hw
    by (by intros []). rewrite !Hw in Hs. lia.
Qed.

(** A storage slot of a registered program. *)
Definition slot_of (r : ProgramRegistry) (id : ProgramId) (key : list Z) : option (list Z) :=
  b ← programs r !! id; storage b !! key.

Definition slot_change (r : ProgramRegistry) (e : ProgramId * list Z * option (list Z)) : Z :=
  let '(id, key, previous) := e in slot_width key (slot_of r id key) - slot_width key previous.

Definition application_at (r : ProgramRegistry) (id : ProgramId) : Prop :=
  exists b, programs r !! id = Some b /\ is_application (code b) = true.

Lemma rollback_slot_bytes r id key v r' :
  rollback_storage_slot (id, key, v) r = (r', Ok tt) -> application_at r id ->
  registry_bytes r - registry_bytes r' = slot_change r (id, key, v) /\
  (forall id', application_at r id' -> application_at r' id') /\
  (forall id' key', (id', key') <> (id, key) -> slot_of r' id' key' = slot_of r id' key').
Proof.
  unfold rollback_storage_slot, st_update. cbn [fst snd].
  destruct (map_err _ _) as [r1|] eqn:Hs; [|done]. intros [= <-] (b & Hb & Ha).
  apply map_err_Ok_inv, set_storage_eq in Hs as (b' & Hb' & ->). rewrite Hb in Hb'. injection Hb' as <-.
  split_and!.
  - pose proof (with_program_bytes r id b (with_storage b (partial_alter (fun _ => v) key (storage b))) Hb).
    pose proof (with_storage_bytes b key v Ha). unfold slot_change, slot_of. rewrite Hb. cbn. lia.
  - intros id' (c & Hc & Hac). unfold application_at. cbn. destruct (decide (id' = id)) as [->|].
    + rewrite lookup_insert_eq. by eexists.
    + rewrite lookup_insert_ne by done. by exists c.
  - intros id' key' Hne. unfold slot_of. cbn. destruct (decide (id' = id)) as [->|].
    + rewrite lookup_insert_eq, Hb. cbn. rewrite lookup_partial_alter_ne; [done|]. congruence.
    + by rewrite lookup_insert_ne.
Qed.

Lemma rollback_slots_bytes l r r' :
  NoDup l.*1 -> st_iter rollback_storage_slot l r = (r', Ok tt) ->
  Forall (fun e => application_at r e.1.1) l ->
  registry_bytes r - registry_bytes r' = zsum (slot_change r <$> l).
Proof.
  revert r. induction l as [|[[id key] v] l IH]; intros r Hnd Hi Hall.
  { injection Hi as <-. cbn. lia. }
  rewrite fmap_cons in Hnd. apply NoDup_cons in Hnd as [Hk Hnd]. apply Forall_cons in Hall as [Ha Hall].
  cbn [st_iter] in Hi. unfold mbind, st_mbind in Hi.
  destruct (rollback_storage_slot (id, key, v) r) as [r1 [[]|]] eqn:Hr; [|done].
  destruct (rollback_slot_bytes _ _ _ _ _ Hr Ha) as (Hb & Happ & Hsame).
  apply IH in Hi; [|done|eapply Forall_impl; [done|]; intros e; apply Happ].
  rewrite fmap_cons, zsum_cons.
  rewrite (list_fmap_ext _ (slot_change r) l) in Hi; [lia|].
  intros i [[id' key'] v'] Hl. unfold slot_change. rewrite Hsame; [done|]. intros [= -> ->].
  apply Hk. apply list_elem_of_fmap. exists ((id, key), v'). split; [done|]. by eapply list_elem_of_lookup_2.
Qed.

Lemma rollback_states_bytes l r r' :
  st_iter rollback_state_slot l r = (r', Ok tt) -> registry_bytes r' = registry_bytes r.
Proof.
  revert r. induction l as [|[id v] l IH]; intros r Hi; [by injection Hi as <-|].
  cbn [st_iter] in Hi. unfold mbind, st_mbind in Hi.
  destruct (rollback_state_slot (id, v) r) as [r1 [[]|]] eqn:Hr; [|done]. apply IH in Hi.
  rewrite Hi. unfold rollback_state_slot, st_update in Hr. cbn [fst snd] in Hr.
  destruct (set_state r id v) as [[prev r2]|] eqn:Hs; cbn in Hr; [|done]. injection Hr as <-.
  apply set_state_eq in Hs as (b & Hb & _ & ->).
  pose proof (with_program_bytes r id b (with_state b v) Hb) as Hw. rewrite with_state_bytes in Hw. lia.
Qed.

(** The remembered slots of an invocation measure the change of the registry. *)
Lemma journaled_bytes before w r :
  journaled before (w_states w) (w_storage w) r ->
  (forall id key v, w_storage w !! (id, key) = Some v -> application_at r id) ->
  registry_bytes r - registry_bytes before
  = zsum (slot_change r <$> merge_sort slot_le (map_to_list (w_storage w))).
Proof.
  intros Hj Happ. destruct (sorted_entries_map (w_states w)) as [Hnd Hs].
  destruct (sorted_slots_map (w_storage w)) as [Hnd' Hs'].
  destruct (restore_slots before (w_states w) (merge_sort slot_le (map_to_list (w_storage w))) r)
    as (r1 & Hr1 & Hj1); [done|by rewrite Hs'|].
  destruct (restore_states before (sorted_entries (w_states w)) ∅ r1) as (r2 & Hr2 & Hj2);
    [done|by rewrite Hs|].
  apply journaled_done in Hj2 as ->. apply rollback_states_bytes in Hr2.
  apply rollback_slots_bytes in Hr1; [lia|done|].
  apply Forall_forall. intros [[id key] v] Hin. cbn. apply (Happ id key v).
  rewrite <- Hs'. by apply elem_of_list_to_map.
Qed.

Lemma storage_delta_fold r l d d' :
  try_fold (storage_delta_step r) l d = Ok d' -> d' = d + zsum (slot_change r <$> l).
Proof.
  revert d. induction l as [|[[id key] p] l IH]; intros d; cbn [try_fold].
  { intros [= <-]. cbn. lia. }
  intros (d1 & Hd & Hf)%bind_Ok. apply IH in Hf. unfold storage_delta_step in Hd.
  apply bind_Ok in Hd as (b & Hb%ok_or_Ok & Hd%ok_or_Ok). unfold i128_checked_add in Hd.
  case_match; [|done]. injection Hd as <-. rewrite fmap_cons, zsum_cons, Hf.
  unfold slot_change, slot_of. unfold program in Hb. rewrite Hb. cbn. lia.
Qed.

(** ** Programs and assets together *)

(** The canonical bytes of the registry and the asset tables. *)
Definition state_bytes (s : LedgerState) : Z :=
  registry_bytes (l_programs s) + asset_bytes (l_assets s).

Lemma asset_bytes_tables a b :
  records a = records b -> shares a = shares b -> asset_bytes a = asset_bytes b.
Proof. intros Hr Hs. by rewrite !asset_bytes_sum, Hr, Hs. Qed.

Lemma state_bytes_tables s t : same_tables s t -> state_bytes s = state_bytes t.
Proof.
  intros [_ _ Hp Hr Hs]. unfold state_bytes. rewrite Hp. f_equal. by apply asset_bytes_tables.
Qed.

(** What an invocation quotes: the coins in its journal, and the growth of the
    state. *)
Lemma finish_apply_quote s e n a :
  engine_inv s e -> finish_apply n e = Ok a ->
  created_state_weight (av_quote a) = Z.max 0 (state_bytes (e_state e) - state_bytes s) /\
  created_coin_utxos (av_quote a) = Z.of_nat (length (created_coin_ids (av_coin a))) /\
  consumed_coin_utxos (av_quote a) = Z.of_nat (length (consumed_coins (av_coin a))) /\
  av_fuel_used a = MAX_CALL_FUEL - e_fuel e.
Proof.
  intros He Hf. unfold finish_apply in Hf. apply bind_Ok in Hf as (d & Hd & Hf).
  apply bind_Ok in Hf as (d' & Hd'%storage_delta_fold & Hf).
  apply bind_Ok in Hf as (w & Hw%ok_or_Ok & [= <-]).
  cbn [av_quote av_coin av_fuel_used created_state_weight created_coin_utxos consumed_coin_utxos
       created_coin_ids consumed_coins].
  rewrite length_sorted_ids, sorted_entries_length. split_and!; [|done..].
  assert (d = asset_bytes (l_assets (e_state e)) - asset_bytes (l_assets s)) as Ha.
  { pose proof (ei_asset _ _ He) as Hu. destruct (e_asset e) as [j|].
    - apply map_err_Ok_inv in Hd. by apply (canonical_delta_exact j).
    - injection Hd as <-. destruct Hu as [Hr Hs]. rewrite (asset_bytes_tables _ _ Hr Hs). lia. }
  assert (registry_bytes (l_programs (e_state e)) - registry_bytes (l_programs s)
          = zsum (slot_change (l_programs (e_state e)) <$> merge_sort slot_le (map_to_list (w_storage (e_writes e))))) as Hr.
  { apply journaled_bytes; [apply He|]. intros id key v Hv.
    destruct (ei_slots _ _ He _ _ _ Hv) as (r & Hid & Happ).
    pose proof (journaled_code _ _ _ _ id (ei_writes _ _ He)) as Hc. rewrite Hid in Hc.
    destruct (programs (l_programs (e_state e)) !! id) as [b|] eqn:Hb; [|done].
    exists b. by rewrite <- Hc. }
  unfold try_from in Hw. case_match; [|done]. injection Hw as <-. unfold state_bytes. lia.
Qed.

(** A journal measures alike two states that agree on its keys. *)
Lemma journal_change_agree {V} (f : list Z -> V -> Z) (m1 m2 : gmap (list Z) V) l :
  (forall k, k ∈ l.*1 -> m1 !! k = m2 !! k) -> journal_change f m1 l = journal_change f m2 l.
Proof.
  intros Hk. unfold journal_change. f_equal. apply list_fmap_ext. intros i [k p] Hl.
  rewrite Hk; [done|]. apply list_elem_of_fmap. exists (k, p). split; [done|].
  by eapply list_elem_of_lookup_2.
Qed.

Lemma undoes_change j before after :
  undoes (Some j) before after ->
  asset_bytes after - asset_bytes before
  = journal_change (entry_bytes enc_record) (records after) (j_records j)
    + journal_change (entry_bytes enc_share) (shares after) (j_shares j).
Proof.
  intros ([Hr Hs] & Hre & Hsh). rewrite <- !journal_change_restore by done.
  rewrite Hre, Hsh, !asset_bytes_sum. lia.
Qed.

Section charges.
Context `{Sha3} {Hspec : Sha3Spec} `{SignatureBackend} `{RootTest} {Hroot : RootTestSpec}.

(** The weight quoted for an asset call is the growth the call will cause. *)
Lemma asset_quote_exact tx genesis st applications w call a j :
  decode_program (ai_call tx) = Ok (AssetProgramCall call) ->
  program_created_state_weight tx genesis st applications = Returned (Ok w) ->
  execute_asset (app_asset applications) call (asset_context genesis tx) st = (a, Returned (Ok j)) ->
  w = Z.max 0 (asset_bytes a - asset_bytes st).
Proof.
  intros Hd Hw He. unfold program_created_state_weight in Hw.
  apply returns_bind in Hw as (u & _ & Hw).
  apply returns_bind in Hw as (dc & Hdc%returns_lift%map_err_Ok_inv & Hw).
  rewrite Hd in Hdc. injection Hdc as <-.
  apply returns_bind in Hw as (view & Hview%returns_lift%map_err_Ok_inv & Hw).
  apply operation_view_agrees in Hview as (k & ins & outs & Hfp & Hag).
  pose proof (execute_agree _ _ _ _ _ Hfp (app_asset applications) _ _ Hag) as [Hr Hst].
  pose proof (execute_within _ _ _ _ _ Hfp _ _ _ _ He) as [Hkr Hks]. rewrite He in Hr, Hst.
  destruct (execute_asset _ _ _ view) as [view' r] eqn:Hv. cbn in Hr, Hst. subst r.
  apply returns_bind in Hw as (j' & [= <-] & Hw).
  apply returns_bind in Hw as (d & Hdelta%returns_lift%map_err_Ok_inv & Hw).
  apply returns_lift, ok_or_Ok in Hw. unfold try_from in Hw. case_match; [|done]. injection Hw as <-.
  apply execute_asset_undoes, undoes_change in He as ->. apply execute_asset_undoes in Hv.
  apply (canonical_delta_exact j view view' d Hv) in Hdelta as ->. apply undoes_change in Hv as ->.
  rewrite (journal_change_agree _ (records view') (records a)) by (by intros ? ->%Hkr; apply Hst).
  rewrite (journal_change_agree _ (shares view') (shares a)) by (intros; apply Hst; auto). lia.
Qed.

(** What validation charged for: the coins of the payment and of the quote, the
    quoted growth, the bytes, and the fuel. *)
Record call_charge (tx : AuthorizedProgramInvocation) (weight created consumed fuel required : Z)
    : Prop := {
  cc_charge : exists bytes burn total,
    operation_bytes (OpProgramCall tx) = Ok bytes /\
    for_program_call
      {| Policy.created_coin_utxos := Z.of_nat (length (ct_outputs (ai_payment tx))
           + (if Zeno.is_zero (miner_fee (charges (ai_payment tx))) then 0 else 1)) + created;
         Policy.consumed_coin_utxos := Z.of_nat (length (ct_inputs (ai_payment tx))) + consumed;
         Policy.created_state_weight := weight |} (Z.of_nat (length bytes)) = Ok burn /\
    burn_total burn = Ok total /\ required = total + fuel;
}.

Lemma validate_call_charge tx genesis height s applications p :
  validate_program_call tx genesis height s applications = Returned (Ok p) ->
  exists decoded quote fuel, decode_program (ai_call tx) = Ok decoded /\
    match decoded with
    | VmCall id => vm_quote tx genesis height s applications id = Returned (Ok (quote, fuel)) /\
        pp_created_state_weight p = created_state_weight quote
    | XpqTransfer => quote = empty_quote /\ fuel = 0 /\
        pp_created_state_weight p = created_state_weight quote
    | AssetProgramCall _ => quote = empty_quote /\ fuel = 0 /\
        program_created_state_weight tx genesis (l_assets s) applications
        = Returned (Ok (pp_created_state_weight p))
    end /\
    call_charge tx (pp_created_state_weight p) (created_coin_utxos quote) (consumed_coin_utxos quote)
      fuel (pp_required_burn p).
Proof.
  unfold validate_program_call. intros Hv.
  apply returns_bind in Hv as ([] & _ & Hv).
  apply returns_bind in Hv as (size & Hsize%returns_lift%map_err_Ok_inv & Hv).
  apply bind_Ok in Hsize as (bytes & Hbytes & Hsize%canonical_length_Ok).
  apply returns_bind in Hv as ([] & _ & Hv). apply returns_bind in Hv as (valid & _ & Hv).
  apply returns_bind in Hv as ([] & _ & Hv).
  apply returns_bind in Hv as (decoded & Hd%returns_lift%map_err_Ok_inv & Hv).
  apply returns_bind in Hv as ([quote fuel] & Hq & Hv).
  apply returns_bind in Hv as (weight & Hw & Hv). apply returns_bind in Hv as (actual & _ & Hv).
  apply returns_bind in Hv as (created & Hc%returns_lift & Hv).
  apply returns_bind in Hv as (burn & Hburn%returns_lift%map_err_Ok_inv & Hv).
  apply returns_bind in Hv as (total & Htotal%returns_lift%map_err_Ok_inv & Hv).
  apply returns_bind in Hv as (required & Hreq%returns_lift%ok_or_Ok & Hv).
  apply returns_bind in Hv as ([] & _ & [= <-]). cbn [pp_created_state_weight pp_required_burn].
  exists decoded, quote, fuel. split; [done|]. split.
  - rewrite Hd in Hw. destruct decoded as [|call|id].
    + injection Hq as <- <-. by injection Hw as <-.
    + injection Hq as <- <-. apply returns_bind in Hw as (ext & [= <-]%returns_lift%ok_or_Ok & Hw). done.
    + by injection Hw as <-.
  - split. exists bytes, burn, total. split; [done|]. split; [|split; [done|]].
    + rewrite <- Hburn, Hsize. do 2 f_equal. unfold count_coin_outputs, created_coin_output_count, try_from in Hc.
      apply bind_Ok in Hc as (n & Hn%map_err_Ok_inv%ok_or_Ok & [-> _]%ok_or_Ok%checked_add_Some).
      destruct (_ <? _); [injection Hn as <-|done]. case_match; lia.
    + by apply checked_add_Some in Hreq as [-> _].
Qed.

(** The fuel the run of an operation takes from a state: that of the invocation
    when it calls a deployed program, none otherwise. *)
Definition operation_fuel (o : BlockOperation) (genesis : Hash) (height : Z) (applications : Applications)
    (s : LedgerState) : Z :=
  match o with
  | OpDeployProgram _ => 0
  | OpProgramCall tx =>
      match decode_program (ai_call tx),
            program_invocation_commitment (ai_signer tx) (ai_call tx) (ai_payment tx) genesis with
      | Ok (VmCall _), Ok commitment =>
          match vm_apply (app_asset applications) tx height commitment s with
          | Returned (Ok (applied, _)) => av_fuel_used applied
          | _ => 0
          end
      | _, _ => 0
      end
  end.

(** The quote of an invocation is read off the invocation itself. *)
Lemma vm_quote_exact tx genesis height commitment s applications id quote fuel applied s1 :
  utxo_wf (utxos s) -> deployed_code (l_programs s) ->
  program_invocation_commitment (ai_signer tx) (ai_call tx) (ai_payment tx) genesis = Ok commitment ->
  vm_quote tx genesis height s applications id = Returned (Ok (quote, fuel)) ->
  vm_apply (app_asset applications) tx height commitment s = Returned (Ok (applied, s1)) ->
  fuel = av_fuel_used applied /\ 0 <= fuel <= MAX_CALL_FUEL /\
  created_state_weight quote = Z.max 0 (state_bytes s1 - state_bytes s) /\
  created_coin_utxos quote = Z.of_nat (length (created_coin_ids (av_coin applied))) /\
  consumed_coin_utxos quote = Z.of_nat (length (consumed_coins (av_coin applied))).
Proof using.
  intros Hwf Hcode Hc Hq Hvm.
  unfold vm_quote in Hq. apply returns_bind in Hq as ([] & _ & Hq).
  cbn [view_ledger_state ledger_state_view] in Hq.
  apply returns_bind in Hq as (c & Hc'%returns_lift%map_err_Ok_inv & Hq). rewrite Hc in Hc'.
  injection Hc' as <-. apply returns_bind in Hq as (pv & Hpv & [= <- <-]).
  assert (av_quote pv = av_quote applied /\ av_fuel_used pv = av_fuel_used applied) as [-> ->].
  { assert (exists id data deposit, call_input (ai_call tx) = Ok (id, data) /\
      deposit_of (ai_payment tx) id = Ok deposit) as (i & data & deposit & Hi & Hdep).
    { unfold vm_apply in Hvm. destruct (_ ≫= _) as [[[i data] deposit]|] eqn:Hin; [|done].
      apply bind_Ok in Hin as ([i' data'] & Hci%map_err_Ok_inv & Hin).
      apply bind_Ok in Hin as (d & Hd & [= <- <- <-]). by exists i', data', d. }
    pose proof (preview_summary (app_asset applications) tx height commitment s i data deposit Hcode Hi Hdep) as Hp.
    rewrite Hvm in Hp. destruct (preview _ _ _ _ _) as [[r|]|]; [|done..]. injection Hpv as ->.
    by injection Hp as _ -> ->. }
  pose proof (vm_apply_engine (app_asset applications) tx height commitment s Hwf Hcode) as He.
  rewrite Hvm in He. destruct He as (n & e & He & -> & Hfuel & Hfin).
  destruct (finish_apply_quote _ _ _ _ He Hfin) as (Hgw & Hgc & Hgn & Hgf).
  pose proof (ei_fuel _ _ He). split; [done|]. split; [lia|done].
Qed.

(** The quote of a call is what running it does: its coins are those in the
    journal, its weight the growth of the state, its fuel within the limit. *)
Lemma call_quote_exact tx genesis height commitment s applications p decoded vm ext prog s1 :
  utxo_wf (utxos s) -> deployed_code (l_programs s) ->
  program_invocation_commitment (ai_signer tx) (ai_call tx) (ai_payment tx) genesis = Ok commitment ->
  decode_program (ai_call tx) = Ok decoded ->
  validate_program_call tx genesis height s applications = Returned (Ok p) ->
  run_call decoded tx height commitment genesis applications s
    = Returned (Ok ((vm, ext, prog), s1)) ->
  let fuel := operation_fuel (OpProgramCall tx) genesis height applications s in
  0 <= fuel <= MAX_CALL_FUEL /\
  call_charge tx (Z.max 0 (state_bytes s1 - state_bytes s))
    (Z.of_nat (length (created_coin_ids vm))) (Z.of_nat (length (consumed_coins vm))) fuel
    (pp_required_burn p).
Proof.
  intros Hwf Hcode Hc Hd Hv Hr.
  apply validate_call_charge in Hv as (decoded' & quote & fuel & Hd' & Hq & Hcharge).
  rewrite Hd in Hd'. injection Hd' as <-. cbn [operation_fuel]. rewrite Hd, Hc. destruct decoded as [|call|id]; cbn [run_call] in Hr.
  - injection Hr as <- <- <- <-. destruct Hq as (-> & -> & Hw). split; [done|].
    rewrite Hw in Hcharge. by rewrite Z.sub_diag.
  - unfold mbind, staged_mbind, stage_asset in Hr.
    destruct (execute_asset _ _ _ _) as [a [[j|]|]] eqn:He; [|done..]. injection Hr as <- <- <- <-.
    destruct Hq as (-> & -> & Hw). split; [done|].
    rewrite (asset_quote_exact _ _ _ _ _ _ _ _ Hd Hw He) in Hcharge. unfold state_bytes. cbn.
    match goal with |- call_charge _ (Z.max 0 ?x) _ _ _ _ => replace x with (asset_bytes a - asset_bytes (l_assets s)) by lia end.
    exact Hcharge.
  - unfold mbind, staged_mbind, stage_map_err in Hr. destruct Hq as [Hq Hw].
    destruct (vm_apply _ _ _ _ _) as [[[applied s2]|]|] eqn:Hvm; [|done..]. injection Hr as <- <- <- <-.
    destruct (vm_quote_exact _ _ _ _ _ _ _ _ _ _ _ Hwf Hcode Hc Hq Hvm) as (<- & Hfuel & Hgw & Hgc & Hgn).
    rewrite Hw, Hgw, Hgc, Hgn in Hcharge. by split.
Qed.

(** ** Whole operations *)

Lemma staged_bind_Ok {S E A B} (m : Staged S E A) (f : A -> Staged S E B) s b s' :
  (m ≫= f) s = Returned (Ok (b, s')) ->
  exists a s1, m s = Returned (Ok (a, s1)) /\ f a s1 = Returned (Ok (b, s')).
Proof using.
  unfold mbind, staged_mbind. destruct (m s) as [[[a s1]|]|]; [|done..]. by exists a, s1.
Qed.

Lemma stage_check_Ok {S E A} (f : S -> result E A) (s : S) a s' :
  stage_check f s = Returned (Ok (a, s')) -> f s = Ok a /\ s' = s.
Proof using. unfold stage_check. destruct (f s); [|done]. by intros [= -> ->]. Qed.

Lemma stage_lift_Ok {S E A} (r : result E A) (s : S) a s' :
  stage_lift r s = Returned (Ok (a, s')) -> r = Ok a /\ s' = s.
Proof using. apply stage_check_Ok. Qed.

Lemma wp_Ok {S E A} crash (m : Staged S E A) Q s a s' :
  wp crash m Q s -> m s = Returned (Ok (a, s')) -> Q a s'.
Proof using. unfold wp. by intros Hw Hm; rewrite Hm in Hw. Qed.

Lemma commit_Ok {S E A} (m : Staged S E A) s a s' :
  commit m s = (s', Returned (Ok a)) -> m s = Returned (Ok (a, s')).
Proof using. unfold commit. destruct (m s) as [[[b s1]|]|]; [|done..]. by intros [= -> ->]. Qed.

(** The coins a payment consumed and created. *)
Lemma paid_counts s intent j s' :
  paid s intent j s' -> length (consumed_coins j) = length (ct_inputs intent) /\
  length (created_coin_ids j)
  = (length (ct_outputs intent) + (if Zeno.is_zero (miner_fee (charges intent)) then 0 else 1))%nat.
Proof using.
  intros [_ _ _ _ Hc]. unfold transition_complete in Hc.
  apply andb_true_iff in Hc as [Hc _]. by apply andb_true_iff in Hc as [->%Nat.eqb_eq ->%Nat.eqb_eq].
Qed.

Lemma paid_bytes s intent j s' : paid s intent j s' -> state_bytes s' = state_bytes s.
Proof using. intros [[] _ _ _ _]. unfold state_bytes. by rewrite cj_programs, cj_assets. Qed.

(** A coin journal tells how the number of live coins changed. *)
Lemma undoable_count s j s' :
  coin_undoable s j s' ->
  Z.of_nat (size (coins (utxos s'))) - Z.of_nat (size (coins (utxos s)))
  = Z.of_nat (length (created_coin_ids j)) - Z.of_nat (length (consumed_coins j)).
Proof using.
  intros [].
  set (N := list_to_set (created_coin_ids j) : gset (list Z)).
  set (C := list_to_set (consumed_coins j).*1 : gset (list Z)).
  assert (forall id, id ∈ C -> is_Some (coins (utxos s) !! id)) as HC.
  { intros id ([id' c] & -> & Hc)%elem_of_list_to_set%list_elem_of_fmap. apply ud_old in Hc as [Hc _]. by exists c. }
  assert (dom (coins (utxos s')) = (dom (coins (utxos s)) ∖ C) ∪ N) as Hdom.
  { apply set_eq. intros id. rewrite elem_of_union, elem_of_difference, !elem_of_dom.
    destruct (decide (id ∈ N)) as [HN|HN].
    - split; [by right|]. intros _. apply elem_of_list_to_set in HN. by apply ud_new in HN as [? _].
    - destruct (decide (id ∈ C)) as [HC'|HC'].
      + split; [|naive_solver]. intros Hs.
        pose proof HC' as ([id' c] & -> & Hc)%elem_of_list_to_set%list_elem_of_fmap. cbn in *.
        apply ud_old in Hc as [_ [Hn|Hn]]; [rewrite Hn in Hs; by destruct Hs|].
        destruct HN. by apply elem_of_list_to_set.
      + rewrite ud_same; [naive_solver|..]; intros ?; [apply HN|apply HC']; by apply elem_of_list_to_set. }
  assert (N ## dom (coins (utxos s)) ∖ C) as Hdis.
  { intros id HN. rewrite elem_of_difference, elem_of_dom. intros [Hs HnC].
    apply elem_of_list_to_set in HN. apply ud_new in HN as [_ [Hn|Hn]].
    - rewrite Hn in Hs. by destruct Hs.
    - apply HnC. by apply elem_of_list_to_set. }
  rewrite <- (size_dom (coins (utxos s'))), Hdom, size_union by set_solver.
  rewrite size_difference by (intros id Hid; by apply elem_of_dom, HC).
  assert (size C <= size (dom (coins (utxos s))))%nat
    by (apply subseteq_size; intros id Hid; by apply elem_of_dom, HC).
  rewrite size_dom in *. unfold N, C in *. rewrite !size_list_to_set in * by done.
  rewrite length_fmap in *. lia.
Qed.

(** The burn of a transition, without its checks. *)
Lemma burn_formula transition n burn total :
  for_program_call transition n = Ok burn -> burn_total burn = Ok total ->
  total = n + COIN_UTXO_STATE_WEIGHT
      * Z.max 0 (Policy.created_coin_utxos transition - Policy.consumed_coin_utxos transition)
    + Policy.created_state_weight transition.
Proof using.
  unfold for_program_call, state_growth_burn, burn_total. intros Hf Ht.
  apply bind_Ok in Hf as (a & [-> _]%ok_or_Ok%checked_mul_Some & Hf).
  apply bind_Ok in Hf as (g & Hg & [= <-]). cbn in Ht.
  apply bind_Ok in Hg as (c & Hc%ok_or_Ok & [-> _]%ok_or_Ok%checked_mul_Some).
  apply bind_Some in Hc as (w & [-> _]%checked_mul_Some & [-> _]%checked_add_Some).
  apply ok_or_Ok, checked_add_Some in Ht as [-> _].
  unfold saturating_sub, STATE_BURN_RATE_ZENO_PER_BYTE. lia.
Qed.

(** What an applied operation pays for: its bytes, the coins and the canonical
    program and asset bytes it added, and the fuel it used. *)
Definition pays (o : BlockOperation) (fuel : Z) (s : LedgerState) (j : StateRollbackJournal)
    (s' : LedgerState) : Prop :=
  exists bytes, operation_bytes o = Ok bytes /\ 0 <= fuel <= MAX_CALL_FUEL /\
    protocol_burn j = Z.of_nat (length bytes)
      + COIN_UTXO_STATE_WEIGHT
        * Z.max 0 (Z.of_nat (size (coins (utxos s'))) - Z.of_nat (size (coins (utxos s))))
      + Z.max 0 (state_bytes s' - state_bytes s) + fuel.

(** What an applied program call went through. *)
Lemma apply_call_steps tx miner genesis height applications s s' j :
  state_ok s -> operation_ok genesis miner (OpProgramCall tx) -> fits 64 height ->
  apply_program_call tx miner genesis height applications s = (s', Returned (Ok j)) ->
  exists p commitment decoded vm ext prog s1 coin s2,
    validate_program_call tx genesis height s applications = Returned (Ok p) /\
    applied s (pp_required_burn p) j s' /\
    program_invocation_commitment (ai_signer tx) (ai_call tx) (ai_payment tx) genesis = Ok commitment /\
    decode_program (ai_call tx) = Ok decoded /\
    run_call decoded tx height commitment genesis applications s = Returned (Ok ((vm, ext, prog), s1)) /\
    pay (ai_payment tx) commitment miner applications s1 = Returned (Ok (coin, s2)) /\
    stage_st validate_supply_invariants s2 = Returned (Ok (tt, s')) /\
    j = {| sj_coin := Some (append_coins coin vm); sj_program := prog; sj_extension := ext |}.
Proof using Hspec Hroot.
  intros Hs Ho Hh Ha%commit_Ok. apply staged_bind_Ok in Ha as (p & s0 & Hv & Ha).
  pose proof (wp_Ok _ _ _ _ _ _ (wp_validated_call _ miner _ _ _ _ Hs Ho Hh) Hv) as (-> & _ & Hinv & Happ).
  pose proof (wp_Ok _ _ _ _ _ _ Happ Ha) as Hap. clear Happ.
  destruct (sk_coin _ Hs) as [Hwf _ _ _].
  assert (validate_program_call tx genesis height s applications = Returned (Ok p) /\ pp_height p = height) as [Hval Hheight].
  { pose proof (validate_program_call_spec tx genesis height s applications Hwf (sk_code _ Hs)) as Hspecv.
    unfold stage_run in Hv. destruct (validate_program_call _ _ _ _ _) as [[q|]|]; [|done..].
    injection Hv as ->. cbn in Hspecv. by destruct Hspecv as (_ & ? & _). }
  unfold apply_prepared_program_call_in_staged_state in Ha. rewrite Hinv, Hheight in Ha.
  apply staged_bind_Ok in Ha as (commitment & s0 & Hc & Ha). apply stage_lift_Ok in Hc as [Hc%map_err_Ok_inv ->].
  apply staged_bind_Ok in Ha as (decoded & s0 & Hd & Ha). apply stage_lift_Ok in Hd as [Hd%map_err_Ok_inv ->].
  apply staged_bind_Ok in Ha as ([[vm ext] prog] & s1 & Hrun & Ha).
  apply staged_bind_Ok in Ha as (coin & s2 & Hp & Ha).
  apply staged_bind_Ok in Ha as ([] & s3 & Hsup & [= <- <-]).
  by exists p, commitment, decoded, vm, ext, prog, s1, coin, s2.
Qed.

Lemma supply_bytes s s' :
  ledger_typed s -> deployed_code (l_programs s) -> fits 64 (total_mined (coin_record s)) ->
  0 <= total_burned (coin_record s) ->
  stage_st validate_supply_invariants s = Returned (Ok (tt, s')) -> state_bytes s' = state_bytes s.
Proof using Hroot.
  intros Hty Hcode Hm Hb Hsup. apply state_bytes_tables.
  by apply (wp_Ok _ _ _ _ _ _ (wp_validate_supply True s Hty Hcode Hm Hb) Hsup).
Qed.

(** The payment and the supply check leave programs and assets alone. *)
Lemma settled_bytes intent commitment miner applications s1 coin s2 s3 :
  coin_state_wf s1 -> ledger_typed s1 -> deployed_code (l_programs s1) ->
  fits 64 (total_mined (coin_record s1)) -> intent_ok intent commitment miner ->
  pay intent commitment miner applications s1 = Returned (Ok (coin, s2)) ->
  stage_st validate_supply_invariants s2 = Returned (Ok (tt, s3)) ->
  paid s1 intent coin s2 /\ state_bytes s3 = state_bytes s1.
Proof using Hspec Hroot.
  intros Hwf Hty Hcode Hm Hi Hp Hsup.
  pose proof (wp_Ok _ _ _ _ _ _ (wp_pay True _ _ _ applications _ Hwf Hi) Hp) as Hpaid.
  split; [done|]. rewrite <- (paid_bytes _ _ _ _ Hpaid).
  pose proof (paid_typed _ _ _ _ Hty Hpaid) as Hty2.
  destruct Hpaid as [Hj _ Hmz Hbz _]. pose proof (planned_burn_nonneg _ _ _ Hbz).
  destruct Hwf as [_ _ Hb].
  apply supply_bytes; [done|..|done].
  - by rewrite (cj_programs _ _ _ Hj).
  - rewrite (cj_mined _ _ _ Hj), Hmz. unfold fits in *. lia.
  - rewrite (cj_burned _ _ _ Hj). lia.
Qed.

Lemma call_pays tx miner genesis height applications s s' j :
  state_ok s -> operation_ok genesis miner (OpProgramCall tx) -> fits 64 height ->
  apply_program_call tx miner genesis height applications s = (s', Returned (Ok j)) ->
  pays (OpProgramCall tx) (operation_fuel (OpProgramCall tx) genesis height applications s) s j s'.
Proof using Hspec Hroot.
  intros Hs Ho Hh Ha. pose proof Ho as [Htx Hpay].
  destruct (apply_call_steps _ _ _ _ _ _ _ _ Hs Ho Hh Ha)
    as (p & commitment & decoded & vm & ext & prog & s1 & coin & s2 & Hval & Hap & Hc & Hd & Hrun & Hp & Hsup & ->).
  destruct (sk_coin _ Hs) as [Hwf Hm Hb _].
  destruct (wp_Ok _ _ _ _ _ _ (wp_called _ _ _ commitment genesis applications _ Hs Htx Hh Hd) Hrun)
    as [[Hcoin1 _ _ _ _ Hcode1 _ Hrec1] Hty1].
  cbn [fst snd] in *.
  assert (coin_state_wf s1) as Hwf1 by (split; [apply Hcoin1|rewrite Hrec1; lia..]).
  destruct (settled_bytes _ _ _ _ _ _ _ _ Hwf1 Hty1 Hcode1
    ltac:(rewrite Hrec1; unfold fits; lia) (Hpay _ Hc) Hp Hsup) as [[Hcount1 Hcount2]%paid_counts Hbytes].
  destruct (call_quote_exact _ _ _ _ _ _ _ _ _ _ _ _ Hwf (sk_code _ Hs) Hc Hd Hval Hrun)
    as (Hfuel & [(bytes & burn & total & Hb1 & Hb2 & Hb3 & Hreq)]).
  exists bytes. split; [done|]. split; [done|].
  rewrite (ap_burn _ _ _ _ Hap), Hreq, (burn_formula _ _ _ _ Hb2 Hb3), Hbytes.
  destruct (ap_back _ _ _ _ Hap) as [(c & [= <-] & Hu) _ _]. rewrite (undoable_count _ _ _ Hu).
  cbn [append_coins created_coin_ids consumed_coins Policy.created_coin_utxos
    Policy.consumed_coin_utxos Policy.created_state_weight].
  rewrite !length_app, Hcount1, Hcount2. lia.
Qed.

(** A deployment adds one entry to the registry. *)
Lemma deploy_bytes r d height r' id journal :
  deploy_program r d height = Ok (r', (id, journal)) ->
  registry_bytes r' = registry_bytes r + entry_bytes enc_program_record id (deployed_record d height).
Proof using.
  intros (_ & _ & _ & (Hn & _ & ->)%registry_insert_Ok)%deploy_program_Ok.
  rewrite !registry_bytes_sum. cbn [programs]. rewrite map_sum_insert by done. lia.
Qed.

Lemma deploy_charge signed genesis height s p :
  validate_deploy signed genesis height s = Ok p ->
  exists bytes burn, operation_bytes (OpDeployProgram signed) = Ok bytes /\
    for_program_call
      {| Policy.created_coin_utxos := Z.of_nat (length (ct_outputs (ad_payment signed))
           + (if Zeno.is_zero (miner_fee (charges (ad_payment signed))) then 0 else 1));
         Policy.consumed_coin_utxos := Z.of_nat (length (ct_inputs (ad_payment signed)));
         Policy.created_state_weight :=
           entry_bytes enc_program_record (pd_program_id p) (deployed_record (ad_deploy signed) height) |}
      (Z.of_nat (length bytes)) = Ok burn /\
    burn_total burn = Ok (pd_required_burn p).
Proof using.
  unfold validate_deploy. intros Hv. apply bind_Ok in Hv as (u & _ & Hv).
  apply guard_err_Ok in Hv as [_ Hv]. apply bind_Ok in Hv as ([id required] & Hq & Hv).
  apply bind_Ok in Hv as (actual & _ & Hv). apply bind_Ok in Hv as ([] & _ & [= <-]).
  cbn [pd_program_id pd_required_burn]. unfold quote_deploy_burn in Hq.
  apply bind_Ok in Hq as ([] & _ & Hq). apply bind_Ok in Hq as (size & Hsize%map_err_Ok_inv & Hq).
  apply bind_Ok in Hsize as (bytes & Hbytes & ->%canonical_length_Ok).
  apply guard_err_Ok in Hq as [_ Hq]. apply bind_Ok in Hq as ([id' record] & Hprep%map_err_Ok_inv & Hq).
  apply bind_Ok in Hq as (u' & _ & Hq). apply bind_Ok in Hq as (growth & Hg%map_err_Ok_inv & Hq).
  apply canonical_length_Ok in Hg as ->.
  apply bind_Ok in Hq as (created & Hc%map_err_Ok_inv%ok_or_Ok & Hq).
  apply bind_Ok in Hq as (required' & Hb%map_err_Ok_inv & [= <- <-]).
  apply bind_Ok in Hb as (burn & Hb1 & Hb2). exists bytes, burn. split; [done|]. split; [|done].
  unfold prepare_deployment in Hprep. apply bind_Ok in Hprep as (u2 & _ & [= <- <-]).
  rewrite <- Hb1. unfold try_from in Hc. destruct (_ <? _); [injection Hc as <-|done].
  do 2 f_equal. case_match; lia.
Qed.

(** Payment, installation and supply check add the deployed entry. *)
Lemma installed_bytes d intent height s coin s1 id journal s2 s3 :
  state_ok s -> deploy_typed d -> fits 64 height -> paid s intent coin s1 ->
  install_program d height s1 = Returned (Ok ((id, journal), s2)) ->
  stage_st validate_supply_invariants s2 = Returned (Ok (tt, s3)) ->
  state_bytes s3 = state_bytes s + entry_bytes enc_program_record id (deployed_record d height).
Proof using Hspec Hroot.
  intros Hs Hd Hh Hpaid Hi Hsup. pose proof (paid_typed _ _ _ _ (sk_typed _ Hs) Hpaid) as Hty1.
  pose proof (paid_bytes _ _ _ _ Hpaid) as Hb1. destruct Hpaid as [Hj _ Hmz Hbz _].
  pose proof (planned_burn_nonneg _ _ _ Hbz). destruct (sk_coin _ Hs) as [_ Hm Hb _].
  unfold install_program in Hi. destruct (deploy_program _ _ _) as [[r [id' journal']]|] eqn:Hdep; [|done].
  injection Hi as -> -> <-. pose proof (deploy_bytes _ _ _ _ _ _ Hdep) as Hgrow.
  rewrite (cj_programs _ _ _ Hj) in Hdep.
  apply supply_bytes in Hsup as ->; [unfold state_bytes in *; cbn; lia|..].
  - destruct Hty1, (sk_typed _ Hs) as [_ _ Htp]. split; [done|done|]. by apply (installed_typed _ _ _ _ _ _ Htp Hd Hh Hdep).
  - cbn. by eapply (installed_code _ _ _ _ _ _ (sk_code _ Hs)); [apply Hd|].
  - cbn. rewrite (cj_mined _ _ _ Hj), Hmz. unfold fits. lia.
  - cbn. rewrite (cj_burned _ _ _ Hj). lia.
Qed.

Lemma deploy_pays signed miner genesis height applications s s' j :
  state_ok s -> operation_ok genesis miner (OpDeployProgram signed) -> fits 64 height ->
  apply_deploy signed miner genesis height applications s = (s', Returned (Ok j)) ->
  pays (OpDeployProgram signed) 0 s j s'.
Proof using Hspec Hroot.
  intros Hs Ho Hh Ha%commit_Ok. apply staged_bind_Ok in Ha as (p & s0 & Hv & Ha).
  pose proof (wp_Ok _ _ _ _ _ _ (wp_validated_deploy True _ miner _ _ applications _ Hs Ho Hh) Hv)
    as (-> & _ & _ & Happ).
  pose proof (wp_Ok _ _ _ _ _ _ Happ Ha) as Hap. clear Happ.
  apply stage_check_Ok in Hv as [Hv%map_err_Ok_inv _].
  pose proof (validate_deploy_spec _ _ _ _ _ Hv) as (Hsig & Hheight & Hcom & _).
  apply deploy_charge in Hv as (bytes & burn & Hbytes & Hb1 & Hb2).
  unfold apply_prepared_deploy_in_staged_state in Ha. rewrite Hsig, Hheight, Hcom in Ha.
  apply staged_bind_Ok in Ha as (coin & s1 & Hp & Ha).
  apply staged_bind_Ok in Ha as ([id journal] & s2 & Hi & Ha).
  apply staged_bind_Ok in Ha as ([] & s3 & Hid & Ha). apply stage_lift_Ok in Hid as [Hid ->].
  case_bool_decide; [subst id|done].
  apply staged_bind_Ok in Ha as ([] & s3 & Hsup & [= <- <-]).
  destruct Ho as [Hd Hpay], (sk_coin _ Hs) as [Hwf Hm Hb _].
  assert (coin_state_wf s) as Hwf0 by (split; [done|lia..]).
  pose proof (wp_Ok _ _ _ _ _ _ (wp_pay True _ _ _ applications _ Hwf0 Hpay) Hp) as Hpaid.
  pose proof (paid_counts _ _ _ _ Hpaid) as [Hcount1 Hcount2].
  pose proof (installed_bytes _ _ _ _ _ _ _ _ _ _ Hs Hd Hh Hpaid Hi Hsup) as Hgrow.
  exists bytes. split; [done|]. split; [done|].
  rewrite (ap_burn _ _ _ _ Hap), (burn_formula _ _ _ _ Hb1 Hb2), Hgrow.
  destruct (ap_back _ _ _ _ Hap) as [(c & [= <-] & Hu) _ _]. rewrite (undoable_count _ _ _ Hu), Hcount1, Hcount2.
  cbn [Policy.created_coin_utxos Policy.consumed_coin_utxos Policy.created_state_weight].
  unfold entry_bytes. lia.
Qed.

(** (C20) An applied operation pays for exactly what it did.  Validation computes the
    burn from the declared payment, a preview on a view of the assets and the
    slots an invocation wrote; that burn equals, to the unit, the canonical
    bytes of the operation, the weight of the live coins it added, the growth
    of the canonical encoding of the program registry and the asset tables from
    the state before to the state after, and the fuel that running the operation
    on the state before takes, which is within the limit. *)
Theorem burn_pays_exactly o miner genesis height applications s s' j :
  state_ok s -> operation_ok genesis miner o -> fits 64 height ->
  apply_operation o miner genesis height applications s = (s', Returned (Ok j)) ->
  let fuel := operation_fuel o genesis height applications s in
  exists bytes, operation_bytes o = Ok bytes /\ 0 <= fuel <= MAX_CALL_FUEL /\
    protocol_burn j = Z.of_nat (length bytes)
      + COIN_UTXO_STATE_WEIGHT
        * Z.max 0 (Z.of_nat (size (coins (utxos s'))) - Z.of_nat (size (coins (utxos s))))
      + Z.max 0 (state_bytes s' - state_bytes s) + fuel.
Proof using Hspec Hroot.
  intros Hs Ho Hh Ha. destruct o as [signed|tx].
  - by apply (deploy_pays _ _ _ _ _ _ _ _ Hs Ho Hh Ha).
  - by apply (call_pays _ _ _ _ _ _ _ _ Hs Ho Hh Ha).
Qed.
End charges.

(** The call of the paying program: what it burns is its bytes, the coins it
    adds and the fuel its run takes, which is not zero. *)
Lemma burn_pays_exactly_witness :
  let fuel := @operation_fuel toy_sha3 (fun _ _ _ => false) (OpProgramCall paying_call) (replicate 32 3) 5
    extension_applications charged_state in
  0 < fuel /\
  exists s j, @apply_operation toy_sha3 accept_all (fun _ _ _ => false) (OpProgramCall paying_call)
      toy_miner (replicate 32 3) 5 extension_applications charged_state = (s, Returned (Ok j)) /\
    protocol_burn j = 8297 /\
    exists bytes, operation_bytes (OpProgramCall paying_call) = Ok bytes /\
      8297 = Z.of_nat (length bytes)
        + COIN_UTXO_STATE_WEIGHT
          * Z.max 0 (Z.of_nat (size (coins (utxos s))) - Z.of_nat (size (coins (utxos charged_state))))
        + Z.max 0 (state_bytes s - state_bytes charged_state) + fuel.
Proof.
  intros fuel. split; [vm_compute; reflexivity|].
  assert (fits 64 5) as H5 by (split; [discriminate|reflexivity]).
  pose proof (@burn_pays_exactly toy_sha3 toy_sha3_spec accept_all (fun _ _ _ => false)
    no_roots_spec (OpProgramCall paying_call) toy_miner (replicate 32 3) 5 extension_applications
    charged_state) as Hp.
  assert (match @apply_operation toy_sha3 accept_all (fun _ _ _ => false) (OpProgramCall paying_call)
      toy_miner (replicate 32 3) 5 extension_applications charged_state with
    | (s, Returned (Ok j)) => protocol_burn j = 8297 | _ => False end) as Hr
    by (vm_compute; reflexivity).
  destruct (apply_operation _ _ _ _ _ _) as [s [[j|]|]]; [|contradiction..].
  exists s, j. split; [reflexivity|]. split; [exact Hr|].
  destruct (Hp s j charged_ok paying_operation_ok H5 eq_refl) as (bytes & Hb & _ & Hburn).
  exists bytes. split; [exact Hb|]. unfold fuel. rewrite <- Hburn. symmetry. exact Hr.
Defined.
