(* ===== verification/Ledger.v ===== *)
(** * The canonical ledger

    Models [kernel/src/ledger/canonical.rs] and [ledger/canonical/{execution,
    rollback,snapshot}.rs]: a chain, the state its blocks lead to, and one
    rollback journal per emission and operation of the retained heights.

    A block is executed on a clone of the state; the ledger changes only after
    every check has passed.  An application that panics unwinds through the
    ledger, which is the outcome [Unwound].  Wall-clock metrics of a restore
    and the memoized root are left out; [usize] is 64 bits wide. *)

From S2P Require Import Prelude Codec Monetary Index Coin Vm Registry Calls Wire Authorize Policy.
From S2P Require Import Assets AssetAudit Block Chain Consensus State StateRoot CoinHost AssetHost Settlement Engine.
From S2P Require Import SettleFacts Apply.
#[local] Open Scope Z_scope.

Record Ledger := {
  g_applications : Applications;
  g_chain : Chain;
  g_state : LedgerState;
  g_journals : gmap Z (list StateRollbackJournal);
  g_context : option Hash;
}.

Definition ledger_state_new : LedgerState :=
  {| utxos := utxo_empty; coin_record := {| total_mined := 0; total_burned := 0 |};
     l_programs := {| programs := ∅; deployments := ∅ |}; l_assets := assets_empty |}.

Definition ledger_new : Ledger :=
  {| g_applications := default_applications; g_chain := chain_new; g_state := ledger_state_new;
     g_journals := ∅; g_context := None |}.

Definition with_applications (executor : Applications) (self : Ledger) : Ledger :=
  {| g_applications := executor; g_chain := g_chain self; g_state := g_state self;
     g_journals := g_journals self; g_context := g_context self |}.

(** A ledger method fails with an error, or unwinds. *)
Inductive Failure := Failed (e : LedgerError) | Unwound.

(** ** Execution *)

Record ExecutedBlock := {
  x_state : LedgerState;
  x_journals : list StateRollbackJournal;
  x_state_root : Hash;
  x_block_weight : Z;
  x_context : Hash;
}.

Inductive BlockTransitionPoint := EmissionCreated | BeforeAccountingCheck.

(** What runs at a checkpoint; the production path passes a no-op. *)
Definition BlockCheckpoint : Type := BlockTransitionPoint -> Staged LedgerState LedgerError unit.

Definition no_checkpoint : BlockCheckpoint := fun _ => mret tt.

(** The loop over a block's operations carries the burns expected so far and
    the journals pushed so far. *)
Definition Progress : Type := Z * list StateRollbackJournal.

Section ledger.
Context `{Sha3} `{Argon2} `{SignatureBackend} `{RootTest}.

Definition state_root_of (s : LedgerState) : result LedgerError Hash :=
  map_err codec_error (application_state_root s).

Definition ledger_state_root (self : Ledger) : result LedgerError Hash :=
  state_root_of (g_state self).

Definition check_prior_root (self : Ledger) : result LedgerError unit :=
  match tip_height (g_chain self) with
  | Some height =>
      tip ← ok_or (blocks (g_chain self) !! height) LEmptyChain;
      root ← ledger_state_root self;
      fail_if negb (bool_decide (root = h_state_root (header tip))) with InvalidPriorStateRoot;
      Ok tt
  | None =>
      root ← ledger_state_root self;
      fail_if negb (bool_decide (root = STATE_ROOT_ZERO)) with InvalidPriorStateRoot;
      Ok tt
  end.

Definition context_for (self : Ledger) (block : Block) : result LedgerError Hash :=
  match g_context self with
  | Some context => Ok context
  | None => if is_genesis block then Ok (block_hash block) else Err LEmptyChain
  end.

(** [block.weight()?] as a [u32]. *)
Definition weight_u32 (block : Block) : result LedgerError Z :=
  weight ← map_err codec_error (block_size block);
  ok_or (try_from 32 weight) LInvalidBlockWeight.

(** [state.record_protocol_burn(amount, &mut journal)?]. *)
Definition stage_burn (amount : Z) (journal : CoinRollbackJournal)
    : Staged LedgerState LedgerError CoinRollbackJournal := fun s =>
  match record_protocol_burn amount s journal with
  | Ok (s, journal) => Returned (Ok (journal, s))
  | Err e => Returned (Err (LState e))
  end.

(** The emission of a block that is not the genesis: the subsidy and the burns
    expected so far, and the journal. *)
Definition execute_emission (checkpoint : BlockCheckpoint) (block : Block)
    : Staged LedgerState LedgerError (Z * Progress) :=
  if is_genesis block then mret (0, (0, []))
  else
    emission ← stage_lift (map_err LEmission
      (authorize_emission (previous_hash (header block)) (height block)
         (b_emission (body block)) (b_operations (body block))));
    let id := from_emission (ve_origin emission) in
    let created :=
      if Zeno.is_zero (ve_miner_emission emission) then [] else [id] in
    _ ← (if Zeno.is_zero (ve_miner_emission emission) then mret tt
         else stage_map_err LState
                (stage_st (state_insert id {| cu_amount := ve_miner_emission emission;
                                              cu_owner := Program (ve_recipient emission) |})));
    _ ← checkpoint EmissionCreated;
    _ ← stage_update (fun s =>
          total ← ok_or (Zeno.checked_add (total_mined (coin_record s)) (ve_subsidy emission))
                    (LState AmountOverflow);
          Ok (with_coin_record s {| total_mined := total;
                                    total_burned := total_burned (coin_record s) |}));
    coin ← stage_burn (ve_protocol_burn emission)
             {| consumed_coins := []; created_coin_ids := created; mined := ve_subsidy emission;
                burned := 0 |};
    mret (ve_subsidy emission,
          (ve_protocol_burn emission,
           [{| sj_coin := Some coin; sj_program := None; sj_extension := None |}])).

Definition add_burn (expected_burns : Z) (payment : CoinTransition)
    : Staged LedgerState LedgerError Z :=
  burn ← stage_check (fun s => map_err coin_audit_error (expected_coin_burn s payment));
  stage_lift (ok_or (Zeno.checked_add expected_burns burn) LSupplyOverflow).

Definition execute_operation (genesis : Hash) (height : Z) (miner : ProgramId)
    (applications : Applications) (operation : BlockOperation) (progress : Progress)
    : Staged LedgerState LedgerError Progress :=
  match operation with
  | OpProgramCall tx =>
      prepared ← stage_run (fun s =>
        run_map_err LProgramCall (validate_program_call tx genesis height s applications));
      burns ← add_burn progress.1 (ai_payment (pp_invocation prepared));
      journal ← stage_map_err (fun _ => LState InvalidTransition)
        (apply_prepared_program_call_in_staged_state prepared miner genesis applications);
      mret (burns, progress.2 ++ [journal])
  | OpDeployProgram signed =>
      prepared ← stage_check (fun s => map_err LDeploy (validate_deploy signed genesis height s));
      burns ← add_burn progress.1 (ad_payment (pd_signed prepared));
      journal ← apply_prepared_deploy_in_staged_state prepared miner applications;
      mret (burns, progress.2 ++ [journal])
  end.

Fixpoint execute_operations (genesis : Hash) (height : Z) (miner : ProgramId)
    (applications : Applications) (operations : list BlockOperation) (progress : Progress)
    : Staged LedgerState LedgerError Progress :=
  match operations with
  | [] => mret progress
  | operation :: operations =>
      progress ← execute_operation genesis height miner applications operation progress;
      execute_operations genesis height miner applications operations progress
  end.

(** Everything that happens to the staged state. *)
Definition execute_body (applications : Applications) (genesis : Hash) (checkpoint : BlockCheckpoint)
    (block : Block) (coin_supply_before : Z)
    : Staged LedgerState LedgerError (list StateRollbackJournal * Hash) :=
  '(validated_subsidy, progress) ← execute_emission checkpoint block;
  '(expected_burns, journals) ←
    execute_operations genesis (height block) (miner_program_id block) applications
      (b_operations (body block)) progress;
  _ ← checkpoint BeforeAccountingCheck;
  _ ← stage_check (fun s => map_err coin_audit_error
        (validate_block_accounting coin_supply_before s validated_subsidy expected_burns));
  _ ← stage_st validate_supply_invariants;
  root ← stage_check state_root_of;
  mret (journals, root).

Definition execute_block_with_checkpoint (self : Ledger) (block : Block)
    (checkpoint : BlockCheckpoint) : Run LedgerError ExecutedBlock :=
  _ ← run_lift (map_err LChain (validate_next_block (g_chain self) block));
  _ ← run_lift (check_prior_root self);
  block_weight ← run_lift (weight_u32 block);
  context ← run_lift (context_for self block);
  '(journals, root, state) ←
    execute_body (g_applications self) context checkpoint block (total_value (utxos (g_state self)))
      (g_state self);
  mret {| x_state := state; x_journals := journals; x_state_root := root;
          x_block_weight := block_weight; x_context := context |}.

Definition execute_block (self : Ledger) (block : Block) : Run LedgerError ExecutedBlock :=
  execute_block_with_checkpoint self block no_checkpoint.

Definition preview_block_commitments (self : Ledger) (block : Block) : Run LedgerError (Hash * Z) :=
  executed ← execute_block self block;
  mret (x_state_root executed, x_block_weight executed).

(** ** Commit *)

Definition apply_validated_block (validated : ValidatedBlock) : ST Ledger Failure unit := fun self =>
  let block := v_block validated in
  match execute_block self block with
  | Panicked => (self, Err Unwound)
  | Returned (Err e) => (self, Err (Failed e))
  | Returned (Ok executed) =>
      if negb (x_block_weight executed =? block_weight (header block))
      then (self, Err (Failed LInvalidBlockWeight))
      else if negb (bool_decide (h_state_root (header block) = x_state_root executed))
      then (self, Err (Failed InvalidStateRoot))
      else
        match insert_block block (g_chain self) with
        | Err e => (self, Err (Failed (LChain e)))
        | Ok chain =>
            ({| g_applications := g_applications self; g_chain := chain;
                g_state := x_state executed;
                g_journals := <[height block := x_journals executed]> (g_journals self);
                g_context := Some (x_context executed) |}, Ok tt)
        end
  end.

#[global] Instance ledger_apply_state : ApplyBlockState Ledger Failure := {|
  consensus_chain := g_chain;
  commit_validated_block := apply_validated_block;
|}.

(** ** Rollback *)

(** The state a successful method left on a clone. *)
Definition ok_state {S E A} (r : S * result E A) : result E S :=
  match r with (s, Ok _) => Ok s | (_, Err e) => Err e end.

Definition st_map_err {S E E' A} (f : E -> E') (m : ST S E A) : ST S E' A := fun s =>
  let '(s', r) := m s in (s', map_err f r).

(** Journal by journal, the last one first. *)
Definition rollback_all (journals : list StateRollbackJournal) : ST LedgerState LedgerError unit :=
  st_iter (fun journal => st_map_err LState (rollback_state journal)) (rev journals).

Definition parent_root (chain : Chain) : result LedgerError Hash :=
  match tip_height chain with
  | Some parent_height =>
      hd ← ok_or (headers chain !! parent_height) LEmptyChain; Ok (h_state_root hd)
  | None => Ok STATE_ROOT_ZERO
  end.

Definition rollback_tip : ST Ledger LedgerError Block := fun self =>
  match
    height ← ok_or (tip_height (g_chain self)) LEmptyChain;
    hash ← ok_or (tip_hash (g_chain self)) LEmptyChain;
    tip ← ok_or (blocks (g_chain self) !! height) LEmptyChain;
    root ← ledger_state_root self;
    fail_if negb (bool_decide (root = h_state_root (header tip))) with InvalidPriorStateRoot;
    journals ← ok_or (g_journals self !! height) MissingRollbackJournal;
    staged ← ok_state (rollback_all journals (g_state self));
    '(block, chain) ← map_err LChain (remove_tip hash (g_chain self));
    staged ← ok_state (validate_supply_invariants staged);
    expected_root ← parent_root chain;
    root ← state_root_of staged;
    fail_if negb (bool_decide (root = expected_root)) with InvalidRollbackStateRoot;
    Ok (block,
        {| g_applications := g_applications self; g_chain := chain; g_state := staged;
           g_journals := delete height (g_journals self);
           g_context := if bool_decide (tip_height chain = None) then None else g_context self |})
  with
  | Ok (block, ledger) => (ledger, Ok block)
  | Err e => (self, Err e)
  end.

(** [.rev().take_while(|(height, _)| **height > ancestor).all(..)]. *)
Fixpoint journaled_down_to (journals : gmap Z (list StateRollbackJournal)) (ancestor : Z)
    (l : list (Z * Header)) : bool :=
  match l with
  | [] => true
  | (height, _) :: l =>
      if ancestor <? height
      then bool_decide (is_Some (journals !! height)) && journaled_down_to journals ancestor l
      else true
  end.

Definition can_rollback_to (self : Ledger) (ancestor : Z) : bool :=
  journaled_down_to (g_journals self) ancestor (descending (headers (g_chain self))).

Definition prune_rollback_journals_before (height : Z) (self : Ledger) : Ledger :=
  let height := match tip_height (g_chain self) with Some tip => Z.min height tip | None => height end in
  {| g_applications := g_applications self; g_chain := g_chain self; g_state := g_state self;
     g_journals := filter (fun e => height <= e.1) (g_journals self);
     g_context := g_context self |}.

(** ** Receipts *)

Definition program_call_protocol_burns_for_block (self : Ledger) (block : Block)
    : option (list Z) :=
  if bool_decide (headers (g_chain self) !! height block = Some (header block)) then
    journals ← g_journals self !! height block;
    let offset := if bool_decide (is_Some (b_emission (body block))) then 1%nat else 0%nat in
    operation_journals ← (if (offset <=? length journals)%nat then Some (drop offset journals) else None);
    if (length operation_journals =? length (b_operations (body block)))%nat
    then Some (protocol_burn <$> operation_journals) else None
  else None.

Definition program_call_protocol_burns (self : Ledger) (height : Z) : option (list Z) :=
  block ← blocks (g_chain self) !! height;
  program_call_protocol_burns_for_block self block.

(** ** Snapshots *)

Record LedgerSnapshot := {
  sn_state : LedgerState;
  sn_journals : gmap Z (list StateRollbackJournal);
}.

Definition snapshot (self : Ledger) : LedgerSnapshot :=
  {| sn_state := g_state self; sn_journals := g_journals self |}.

(** The loop of [restore_snapshot_blocks]: the chain, the genesis hash, the tip
    and how many retained heights were seen. *)
Record Restoring := {
  rs_chain : Chain;
  rs_genesis : option Hash;
  rs_tip : option (Z * Hash);
  rs_retained : Z;
}.

Definition restore_block (journals : gmap Z (list StateRollbackJournal)) (journal_start : Z)
    (max_body_bytes max_body_blocks : Z) (verify_pow : bool) (block : Block) (self : Restoring)
    : result LedgerError Restoring :=
  _ ← (if verify_pow then
         _ ← map_err LConsensus
               (validate_for_apply block (rs_chain self) true
                  (if is_genesis block then None else Some POW_ARGON2_MEMORY_KIB));
         Ok tt
       else map_err (fun e => LConsensus (ConsensusInvalidBlock e)) (block_validate block));
  chain ← map_err LChain (insert_block block (rs_chain self));
  chain ← map_err LChain (retain_recent_bodies max_body_bytes max_body_blocks chain);
  expected ← ok_or (checked_add 64 (if bool_decide (is_Some (b_emission (body block))) then 1 else 0)
                      (Z.of_nat (length (b_operations (body block))))) MissingRollbackJournal;
  let self' retained :=
    {| rs_chain := chain;
       rs_genesis := Some (default (block_hash block) (rs_genesis self));
       rs_tip := Some (height block, h_state_root (header block));
       rs_retained := retained |} in
  if journal_start <=? height block then
    fail_if negb (bool_decide ((fun l => Z.of_nat (length l)) <$> journals !! height block
                               = Some expected))
      with MissingRollbackJournal;
    Ok (self' (rs_retained self + 1))
  else Ok (self' (rs_retained self)).

Fixpoint restore_blocks (journals : gmap Z (list StateRollbackJournal)) (journal_start : Z)
    (max_body_bytes max_body_blocks : Z) (verify_pow : bool) (history : list Block)
    (self : Restoring) : result LedgerError Restoring :=
  match history with
  | [] => Ok self
  | block :: history =>
      self ← restore_block journals journal_start max_body_bytes max_body_blocks verify_pow block self;
      restore_blocks journals journal_start max_body_bytes max_body_blocks verify_pow history self
  end.

(** The lowest key of a map. *)
Definition first_key {V} (m : gmap Z V) : option Z := fst <$> last (descending m).

Definition restore_snapshot_blocks (snapshot : LedgerSnapshot) (history : list Block)
    (max_body_bytes max_body_blocks : Z) (verify_pow : bool) : result LedgerError Ledger :=
  journal_start ← ok_or (first_key (sn_journals snapshot)) MissingRollbackJournal;
  restored ← restore_blocks (sn_journals snapshot) journal_start max_body_bytes max_body_blocks
               verify_pow history
               {| rs_chain := chain_new; rs_genesis := None; rs_tip := None; rs_retained := 0 |};
  fail_if negb (Z.of_nat (size (sn_journals snapshot)) =? rs_retained restored)
    with MissingRollbackJournal;
  '(tip_height, tip_root) ← ok_or (rs_tip restored) LEmptyChain;
  genesis ← ok_or (rs_genesis restored) LEmptyChain;
  state ← ok_state (audit_supply_invariants (sn_state snapshot));
  _ ← map_err (fun _ => InvalidProgramState) (registry_validate (l_programs state) tip_height);
  root ← state_root_of state;
  fail_if negb (bool_decide (root = tip_root)) with InvalidStateRoot;
  Ok {| g_applications := default_applications; g_chain := rs_chain restored; g_state := state;
        g_journals := sn_journals snapshot; g_context := Some genesis |}.

Definition USIZE_MAX : Z := 2 ^ 64 - 1.

Definition from_snapshot (snapshot : LedgerSnapshot) (history : list Block) : result LedgerError Ledger :=
  restore_snapshot_blocks snapshot history USIZE_MAX USIZE_MAX false.

Definition from_snapshot_with_body_cache (snapshot : LedgerSnapshot) (history : list Block)
    (max_body_bytes max_body_blocks : Z) : result LedgerError Ledger :=
  restore_snapshot_blocks snapshot history max_body_bytes max_body_blocks true.
End ledger.
