(* ===== verification/LedgerProps.v ===== *)
(** * The ledger keeps its word

    Executing a block leaves a trail of states from the one before to the one
    after, one rollback journal per step; rolling the journals back walks the
    trail home.  From this: block application is atomic and accounts for every
    coin, every ledger a node can reach is well formed, and rolling back the
    tip undoes its application. *)

From S2P Require Import Prelude Codec Monetary Index Coin Vm Registry RegistryWire Calls Wire Authorize Policy.
From S2P Require Import Assets AssetFacts AssetProps AssetAudit Block Chain Consensus State StateRoot CoinHost AssetHost.
From S2P Require Import Settlement Engine SettleFacts EngineFacts EngineProps VmTypes Apply ApplyFacts Ledger.
#[local] Open Scope Z_scope.

(** ** Trails *)

#[local] Instance same_tables_refl : Reflexive same_tables.
Proof. by intros s. Qed.

Lemma same_tables_trans s t u : same_tables s t -> same_tables t u -> same_tables s u.
Proof. intros [] []. split; congruence. Qed.

Lemma same_tables_sym s t : same_tables s t -> same_tables t s.
Proof. by intros []. Qed.

Inductive trail : LedgerState -> list StateRollbackJournal -> LedgerState -> Prop :=
| trail_end s s' : same_tables s' s -> trail s [] s'
| trail_step s j s1 js s' :
    shares_typed (shares (l_assets s)) -> leads_back s j s1 -> trail s1 js s' -> trail s (j :: js) s'.

Lemma trail_same s js s' t : trail s js s' -> same_tables t s' -> trail s js t.
Proof.
  intros Ht Hs. induction Ht; [constructor; by eapply same_tables_trans|by econstructor; eauto].
Qed.

Lemma trail_snoc s js s1 j s' :
  trail s js s1 -> shares_typed (shares (l_assets s1)) -> leads_back s1 j s' -> trail s (js ++ [j]) s'.
Proof.
  intros Ht Hty Hj. induction Ht as [s s1 Hs|s j0 s0 js s1 ? ? ? IH]; cbn [app].
  - econstructor; [by rewrite <- (same_shares _ _ Hs)| |by constructor].
    destruct Hs as [Hu Hc Hp Hr Hsh], Hj as [(coin & Hco & Hun) Hpr Ha]. split.
    + exists coin. split; [done|]. destruct Hun. split; rewrite <- ?Hu, <- ?Hc; done.
    + by rewrite <- Hp.
    + unfold undoes in *. by rewrite <- Hr, <- Hsh.
  - econstructor; [done|done|]. by apply IH.
Qed.

Lemma st_iter_app {S E A} (f : A -> ST S E unit) l1 l2 s s1 :
  st_iter f l1 s = (s1, Ok tt) -> st_iter f (l1 ++ l2) s = st_iter f l2 s1.
Proof.
  revert s. induction l1 as [|a l1 IH]; intros s Hi; cbn [st_iter app] in *; [by injection Hi as ->|].
  apply st_bind_Ok in Hi as ([] & s2 & Ha & Hi). erewrite st_bind_run; [|exact Ha]. by apply IH.
Qed.

Section trails.
Context `{Sha3} `{RootTest} {Hroot : RootTestSpec}.

(** Rolling back all journals of a trail from its end, or from a state with the
    same tables, reaches the tables of its start. *)
Lemma rollback_trail s js s' t :
  trail s js s' -> same_tables t s' -> asset_typed (l_assets t) ->
  exists t', rollback_all js t = (t', Ok tt) /\ same_tables t' s /\ asset_typed (l_assets t') /\
    (Forall (fun j => sj_extension j = None) js -> l_assets t' = l_assets t).
Proof using Hroot.
  intros Htr. revert t. induction Htr as [s s' Hs|s j s1 js s' Hty Hj _ IH]; intros t Ht Ha.
  { exists t. split_and!; try done. by eapply same_tables_trans. }
  destruct (IH t Ht Ha) as (t1 & Hr & Ht1 & Ha1 & He1).
  destruct (rollback_state_leads_back s j s1 t1 Hj Ht1) as (Hroll & Hre & Hsh).
  eexists. split_and!.
  - unfold rollback_all in *. cbn [rev]. erewrite st_iter_app by exact Hr. cbn [st_iter].
    erewrite st_bind_run; [done|]. unfold st_map_err. by rewrite Hroll.
  - by split.
  - cbn. by eapply rolled_assets_typed.
  - intros [Hn Hall]%Forall_cons. cbn. unfold rolled_assets. rewrite Hn. by apply He1.
Qed.
End trails.

(** ** Emission *)

Lemma authorize_emission_Ok `{Sha3} previous h em ops e :
  authorize_emission previous h em ops = Ok e ->
  (exists x, em = Some x /\ ve_subsidy e = em_subsidy x) /\
  ve_subsidy e = ve_miner_emission e + ve_protocol_burn e /\
  0 <= ve_miner_emission e /\ 0 <= ve_protocol_burn e.
Proof.
  intros Ha. unfold authorize_emission in Ha. apply bind_Ok in Ha as (x & Hx%ok_or_Ok & Ha).
  apply bind_Ok in Ha as (expected & _ & Ha). apply guard_err_Ok in Ha as [_ Ha].
  apply bind_Ok in Ha as (m & [-> ?]%ok_or_Ok%checked_sub_Some & Ha).
  apply bind_Ok in Ha as (o & _ & [= <-]). cbn.
  assert (0 <= MINER_PROTOCOL_BURN) by done. split; [by eauto|lia].
Qed.

(** What a block mines. *)
Definition block_subsidy (b : Block) : Z :=
  if is_genesis b then 0 else match b_emission (body b) with Some e => em_subsidy e | None => 0 end.

(** The emission coin, if the miner earns anything. *)
Definition emission_paid (s : LedgerState) (id : CoinShare) (amount : Z) (u : UtxoSet) : Prop :=
  utxo_wf u /\ total_value u = total_value (utxos s) + amount /\
  if Zeno.is_zero amount then u = utxos s
  else coins (utxos s) !! id = None /\
    exists c, coins u = <[id := c]> (coins (utxos s)).

Lemma wp_stage_burn crash amount j s (Q : CoinRollbackJournal -> LedgerState -> Prop) :
  (forall total, total = total_burned (coin_record s) + amount -> total < 2 ^ 64 ->
    Q {| consumed_coins := consumed_coins j; created_coin_ids := created_coin_ids j;
         mined := mined j; burned := burned j + amount |}
      (with_coin_record s {| total_mined := total_mined (coin_record s); total_burned := total |})) ->
  wp crash (stage_burn amount j) Q s.
Proof.
  intros HQ. unfold wp, stage_burn, record_protocol_burn.
  destruct (Zeno.checked_add (total_burned _) _) as [total|] eqn:Ht; [|done].
  cbn [ok_or mbind result_mbind]. destruct (Zeno.checked_add (burned j) _) as [b|] eqn:Hb; [|done].
  apply checked_add_Some in Ht as [-> ?], Hb as [-> ?]. cbn. by apply HQ.
Qed.

Lemma wp_emission_coin crash s id amount owner :
  utxo_wf (utxos s) -> 0 <= amount ->
  wp crash (if Zeno.is_zero amount then mret tt
            else stage_map_err LState (stage_st (state_insert id
                   {| cu_amount := amount; cu_owner := owner |})))
    (fun _ s' => exists u, s' = with_utxos s u /\ emission_paid s id amount u) s.
Proof.
  intros Hwf Ha. unfold emission_paid. destruct (Zeno.is_zero amount) eqn:Hz.
  - apply wp_ret. exists (utxos s). rewrite with_utxos_id. apply Z.eqb_eq in Hz. subst.
    split_and!; try done. lia.
  - apply wp_map_err, wp_st. intros [] s' Hi. unfold state_insert, st_update in Hi.
    destruct (insert_coin _ _ _) as [u|] eqn:Hu; cbn in Hi; [|done]. injection Hi as <-.
    exists u. split; [done|]. pose proof (insert_coin_wf _ _ {| cu_amount := amount; cu_owner := owner |} _ Hwf Ha Hu) as Hwf'.
    apply insert_coin_Ok in Hu as (_ & Hn & _ & ->). cbn. eauto.
Qed.

Section execution.
Context `{Sha3} {Hspec : Sha3Spec} `{Argon2} `{SignatureBackend} `{RootTest} {Hroot : RootTestSpec}.

(** What executing some of a block left: a trail of journals to a good state. *)
Record executed (s : LedgerState) (js : list StateRollbackJournal) (s' : LedgerState) : Prop := {
  ex_trail : trail s js s';
  ex_ok : state_ok s';
  ex_burns : Forall (fun j => 0 <= protocol_burn j) js;
}.

Lemma shares_typed_of s : state_ok s -> shares_typed (shares (l_assets s)).
Proof. intros Hs. apply (lt_assets _ (sk_typed _ Hs)). Qed.

Lemma wp_execute_emission crash block s :
  state_ok s ->
  wp crash (execute_emission no_checkpoint block)
    (fun r s' => executed s r.2.2 s' /\ l_assets s' = l_assets s /\
       total_mined (coin_record s') = total_mined (coin_record s) + block_subsidy block /\
       Forall (fun j => sj_extension j = None) r.2.2 /\
       length r.2.2 = (if is_genesis block then 0%nat else 1%nat)) s.
Proof.
  intros Hs. unfold execute_emission, block_subsidy. destruct (is_genesis block).
  { apply wp_ret. cbn. split_and!; try done; [|lia]. split; [by apply trail_end|done|done]. }
  apply wp_bind, wp_lift.
  intros e ((x & -> & Hsx) & Hsub & Hme & Hpb)%map_err_Ok_inv%authorize_emission_Ok.
  pose proof (sk_coin _ Hs) as [Hwf Hm Hb Hsup].
  apply wp_bind. eapply wp_mono; [by apply wp_emission_coin|].
  intros [] s1 (u & -> & Hu). apply wp_bind, wp_ret, wp_bind, wp_update.
  intros s2 Hup. apply bind_Ok in Hup as (total & [-> Hlt]%ok_or_Ok%checked_add_Some & [= <-]).
  apply wp_bind, wp_stage_burn. intros burn -> Hblt. apply wp_ret. cbn in *.
  destruct Hu as (Hwfu & Htv & Hcase). split_and!; [|done|congruence|by repeat constructor|done].
  destruct Hs as [_ [_ Ha Hp] Hcode Haud]. split.
  - econstructor; [apply Ha| |by constructor]. split; [|done|done].
    eexists. split; [done|]. destruct (Zeno.is_zero (ve_miner_emission e)).
    + subst u. split; cbn; try done; try constructor; try lia; set_solver.
    + destruct Hcase as [Hn (c & Hc)]. split; cbn; try done; try lia.
      * apply NoDup_singleton.
      * constructor.
      * intros id ->%list_elem_of_singleton. rewrite Hc, lookup_insert_eq. split; [done|by left].
      * set_solver.
      * intros id Hid _. rewrite Hc, lookup_insert_ne; [done|]. intros <-. apply Hid. by left.
  - split; [split; cbn; try done; lia|by split|done|done].
  - apply Forall_singleton. by vm_compute.
Qed.

Lemma trail_burned s js s' :
  trail s js s' ->
  total_burned (coin_record s') = total_burned (coin_record s) + zsum (protocol_burn <$> js).
Proof.
  induction 1 as [s s' Hs|s j s1 js s' _ [(coin & Hc & Hu) _ _] _ IH].
  { rewrite (same_coin _ _ Hs). cbn. lia. }
  rewrite fmap_cons, zsum_cons, IH, (ud_burned _ _ _ Hu). unfold protocol_burn at 2. rewrite Hc. lia.
Qed.

Lemma wp_add_burn crash burns payment s (Q : Z -> LedgerState -> Prop) :
  (forall n, Q n s) -> wp crash (add_burn burns payment) Q s.
Proof. intros HQ. apply wp_bind, wp_check. intros burn _. apply wp_lift. auto. Qed.

Lemma wp_execute_operation genesis h miner applications o progress s :
  state_ok s -> operation_ok genesis miner o -> fits 64 h ->
  wp (unwinds (app_asset applications))
    (execute_operation genesis h miner applications o progress)
    (fun p s' => exists j required, p.2 = progress.2 ++ [j] /\ applied s required j s') s.
Proof using Hspec Hroot.
  intros Hs Ho Hh. destruct o as [signed|tx]; cbn [execute_operation]; apply wp_bind.
  - eapply wp_mono; [by apply wp_validated_deploy|]. intros p s' (-> & _ & _ & Hp).
    apply wp_bind, wp_add_burn. intros burns. apply wp_bind. eapply wp_mono; [exact Hp|].
    intros j s' Ha. apply wp_ret. eauto.
  - eapply wp_mono; [by apply wp_validated_call|]. intros p s' (-> & _ & _ & Hp).
    apply wp_bind, wp_add_burn. intros burns. apply wp_bind, wp_map_err. eapply wp_mono; [exact Hp|].
    intros j s' Ha. apply wp_ret. eauto.
Qed.

Lemma wp_execute_operations genesis h miner applications ops progress s0 s :
  executed s0 progress.2 s -> Forall (operation_ok genesis miner) ops -> fits 64 h ->
  wp (unwinds (app_asset applications))
    (execute_operations genesis h miner applications ops progress)
    (fun p s' => executed s0 p.2 s' /\ length p.2 = (length progress.2 + length ops)%nat /\
       total_mined (coin_record s') = total_mined (coin_record s) /\
       (ops = [] -> s' = s /\ p = progress)) s.
Proof using Hspec Hroot.
  intros Hex Hops Hh. revert progress s Hex.
  induction Hops as [|o ops Ho _ IH]; intros progress s Hex; cbn [execute_operations].
  { apply wp_ret. cbn. by rewrite Nat.add_0_r. }
  destruct Hex as [Htr Hok Hbs]. apply wp_bind. eapply wp_mono; [by apply wp_execute_operation|].
  intros p s1 (j & required & Hp & [Hb Hok1 _ Hm Hnn]). eapply wp_mono; [apply IH|].
  - rewrite Hp. split; [|done|].
    + eapply trail_snoc; [done|by apply shares_typed_of|done].
    + apply Forall_app. by split; [|apply Forall_singleton].
  - intros p' s' (Hex' & Hl & Hm' & _). rewrite Hp, length_app in Hl. cbn in *.
    split_and!; [done|lia|lia|done].
Qed.

(** What executing a whole block leaves. *)
Record body_executed (block : Block) (s : LedgerState) (js : list StateRollbackJournal) (root : Hash)
    (s' : LedgerState) : Prop := {
  be_executed : executed s js s';
  be_length : length js = ((if is_genesis block then 0 else 1) + length (b_operations (body block)))%nat;
  be_root : state_root_of s' = Ok root;
  be_plain : b_operations (body block) = [] ->
    l_assets s' ≡ l_assets s /\ Forall (fun j => sj_extension j = None) js;
  be_mined : total_mined (coin_record s') = total_mined (coin_record s) + block_subsidy block;
  be_value : total_value (utxos s')
             = total_value (utxos s) + block_subsidy block - zsum (protocol_burn <$> js);
}.

Lemma wp_execute_body applications genesis block s before :
  state_ok s -> Forall (operation_ok genesis (miner_program_id block)) (b_operations (body block)) ->
  fits 64 (height block) ->
  wp (unwinds (app_asset applications))
    (execute_body applications genesis no_checkpoint block before)
    (fun r s' => body_executed block s r.1 r.2 s') s.
Proof using Hspec Hroot.
  intros Hs Hops Hh. unfold execute_body. apply wp_bind.
  eapply wp_mono; [by apply wp_execute_emission|].
  intros [subsidy progress] s1 (Hex1 & Ha1 & Hm1 & Hp1 & Hl1). cbn [fst snd] in *.
  apply wp_bind. eapply wp_mono; [by apply wp_execute_operations|].
  intros [burns js] s2 (Hex2 & Hl2 & Hm2 & Hnone). cbn [fst snd] in *.
  apply wp_bind, wp_ret, wp_bind, wp_check. intros [] _. apply wp_bind.
  destruct Hex2 as [Htr Hok2 Hbs2]. destruct (sk_coin _ Hok2) as [_ Hm Hb _].
  unfold wp at 1, stage_st. destruct (validate_supply_invariants s2) as [s3 [[]|]] eqn:Hv; [|done].
  pose proof Hv as Hv'. apply validate_supply_spec in Hv as [_ Hsame];
    [|apply Hok2|by unfold fits|lia]. destruct (Hsame eq_refl) as (Hs3 & He & _).
  pose proof (wp_validate_supply False s2 (sk_typed _ Hok2) (sk_code _ Hok2) Hm (proj1 Hb)) as Hw.
  unfold wp, stage_st in Hw. rewrite Hv' in Hw. destruct Hw as [Hst Hok3].
  apply wp_bind, wp_check. intros root Hr. apply wp_ret. cbn [fst snd].
  assert (trail s js s3) as Htr3 by (by eapply trail_same).
  split; [by split|lia|done| |by rewrite (same_coin _ _ Hst); lia|].
  - intros Hz. destruct (Hnone Hz) as [-> <-]. by rewrite <- Ha1.
  - pose proof (trail_burned _ _ _ Htr3) as Hbu.
    pose proof (cs_supply _ (sk_coin _ Hs)). pose proof (cs_supply _ (sk_coin _ Hok3)).
    rewrite (same_coin _ _ Hst) in *. lia.
Qed.
End execution.

(** ** Ledgers *)

Section ledgers.
Context `{Sha3} {Hspec : Sha3Spec} `{Argon2} `{SignatureBackend} `{RootTest} {Hroot : RootTestSpec}.

(** The root the next block must find: the tip's, or zero before the genesis. *)
Definition tip_root (hs : list Header) : Hash :=
  match last hs with Some h => h_state_root h | None => STATE_ROOT_ZERO end.

(** A state with the journals of the newest blocks: each leads back to the
    state before its block.  Older journals may have been pruned. *)
Inductive past : list Header -> LedgerState -> gmap Z (list StateRollbackJournal) -> Prop :=
| past_new s :
    state_ok s -> state_root_of s = Ok STATE_ROOT_ZERO -> past [] s ∅
| past_block hs h s0 js s journals :
    past hs s0 journals -> trail s0 js s -> state_ok s -> state_root_of s = Ok (h_state_root h) ->
    past (hs ++ [h]) s (<[Z.of_nat (length hs) := js]> journals)
| past_pruned hs h s :
    state_ok s -> state_root_of s = Ok (h_state_root h) -> past (hs ++ [h]) s ∅.

Record ledger_ok (hs : list Header) (l : Ledger) : Prop := {
  lo_chain : chain_of hs (g_chain l);
  lo_past : past hs (g_state l) (g_journals l);
  lo_context : g_context l = block_header_hash <$> head hs;
}.

Lemma past_ok hs s journals :
  past hs s journals -> state_ok s /\ state_root_of s = Ok (tip_root hs).
Proof. unfold tip_root. by destruct 1; rewrite ?last_snoc. Qed.

Lemma past_keys hs s journals k js :
  past hs s journals -> journals !! k = Some js -> 0 <= k < Z.of_nat (length hs).
Proof.
  intros Hp. revert k js. induction Hp as [|hs h s0 js0 s journals _ IH| ]; intros k js Hk.
  - by rewrite lookup_empty in Hk.
  - rewrite length_app. cbn. apply lookup_insert_Some in Hk as [[<- _]|[_ Hk%IH]]; lia.
  - by rewrite lookup_empty in Hk.
Qed.

Lemma past_same hs s t journals :
  past hs s journals -> same_tables t s -> state_ok t -> state_root_of t = Ok (tip_root hs) ->
  past hs t journals.
Proof.
  intros Hp Ht Hok Hr. unfold tip_root in Hr. destruct Hp; rewrite ?last_snoc in Hr.
  - by constructor.
  - econstructor; [done| |done|done]. by eapply trail_same.
  - by constructor.
Qed.

Lemma past_prune hs s journals cut :
  past hs s journals -> past hs s (filter (fun e => cut <= e.1) journals).
Proof.
  induction 1 as [s|hs h s0 js s journals Hp IH Ht Hok Hr|hs h s].
  - rewrite map_filter_empty. by constructor.
  - destruct (decide (cut <= Z.of_nat (length hs))).
    + rewrite map_filter_insert_True by done. by econstructor.
    + assert (filter (fun e => cut <= e.1) (<[Z.of_nat (length hs) := js]> journals) = ∅) as ->.
      { apply map_empty. intros k. apply map_lookup_filter_None. right.
        intros v [[<- _]|[_ Hk]]%lookup_insert_Some; cbn; [lia|].
        pose proof (past_keys _ _ _ _ _ Hp Hk). lia. }
      by constructor.
  - rewrite map_filter_empty. by constructor.
Qed.

(** The block's operations are well typed under the chain's context. *)
Definition block_ops_ok (l : Ledger) (b : Block) : Prop :=
  Forall (operation_ok (default (block_hash b) (g_context l)) (miner_program_id b))
    (b_operations (body b)).

Lemma execute_block_spec hs l b :
  ledger_ok hs l -> block_ops_ok l b -> 0 <= height b ->
  rwp (unwinds (app_asset (g_applications l))) (execute_block l b)
    (fun x => extends hs b /\ x_context x = default (block_hash b) (g_context l) /\
       body_executed b (g_state l) (x_journals x) (x_state_root x) (x_state x)).
Proof using Hspec Hroot.
  intros [Hc Hp Hx] Hops Hh. unfold execute_block, execute_block_with_checkpoint.
  apply rwp_bind, rwp_lift. intros [] Hn%map_err_Ok_inv.
  apply (validate_next_spec hs) in Hn; [|done|done].
  apply rwp_bind, rwp_lift. intros [] _. apply rwp_bind, rwp_lift. intros w _.
  apply rwp_bind, rwp_lift. intros context Hcx.
  assert (context = default (block_hash b) (g_context l)) as ->.
  { unfold context_for in Hcx. destruct (g_context l); [by injection Hcx as ->|].
    destruct (is_genesis b); [by injection Hcx as ->|done]. }
  pose proof (wp_execute_body (g_applications l) (default (block_hash b) (g_context l)) b (g_state l)
    (total_value (utxos (g_state l)))) as Hw. unfold wp in Hw.
  destruct (past_ok _ _ _ Hp) as [Hok _].
  specialize (Hw Hok Hops ltac:(unfold fits; destruct Hn as (? & ? & _); lia)).
  destruct (execute_body _ _ _ _ _ _) as [[[[js root] s]|]|]; [|done|done]. cbn in *. done.
Qed.

(** One block on a ledger: all or nothing. *)
Lemma apply_block_spec hs l v l' r :
  ledger_ok hs l -> block_ops_ok l (v_block v) -> 0 <= height (v_block v) ->
  apply_validated_block v l = (l', r) ->
  match r with
  | Ok _ => exists js,
      extends hs (v_block v) /\ ledger_ok (hs ++ [header (v_block v)]) l' /\
      body_executed (v_block v) (g_state l) js (h_state_root (header (v_block v))) (g_state l') /\
      insert_block (v_block v) (g_chain l) = Ok (g_chain l') /\
      g_journals l' = <[height (v_block v) := js]> (g_journals l) /\
      g_context l' = Some (default (block_hash (v_block v)) (g_context l)) /\
      g_applications l' = g_applications l
  | Err e => l' = l /\ (e = Unwound -> unwinds (app_asset (g_applications l)))
  end.
Proof using Hspec Hroot.
  intros Hl Hops Hh Ha. set (b := v_block v) in *.
  pose proof (execute_block_spec hs l b Hl Hops Hh) as Hx. unfold apply_validated_block in Ha.
  fold b in Ha. destruct (execute_block l b) as [[x|e]|]; cbn in Hx.
  - destruct Hx as (Hext & Hctx & Hbody). case_match; [injection Ha as <- <-; done|].
    case_bool_decide as Hr; cbn [negb] in Ha; [|injection Ha as <- <-; done].
    destruct (insert_block b (g_chain l)) as [c|] eqn:Hi; [|injection Ha as <- <-; done].
    injection Ha as <- <-. exists (x_journals x). cbn. rewrite Hctx, Hr. split_and!; try done.
    destruct Hl as [Hc Hp Hcx]. destruct Hbody as [[Htr Hok _] _ Hroot' _ _ _].
    apply (insert_block_chain hs) in Hi as [(Hhb & _) Hc']; [|done|done]. rewrite Hhb.
    split; cbn; [done| |].
    + eapply past_block; [exact Hp|exact Htr|done|]. by rewrite Hr.
    + rewrite Hcx. by destruct hs.
  - by injection Ha as <- <-.
  - by injection Ha as <- <-.
Qed.
(** ** Rolling back the tip *)

Lemma state_root_same t s :
  same_tables t s -> total_mined (coin_record s) <> 0 \/ l_assets t ≡ l_assets s ->
  state_root_of t = state_root_of s.
Proof.
  intros [Hu Hc Hp Hr Hs] Hor. unfold state_root_of, application_state_root.
  assert (state_is_empty t = state_is_empty s) as ->.
  { unfold state_is_empty. rewrite Hu, Hc, Hp. destruct Hor as [Hm|[Har Has Hai Hab Hao]].
    - unfold Zeno.is_zero. rewrite (proj2 (Z.eqb_neq _ _) Hm).
      by rewrite !andb_false_r.
    - do 4 f_equal. unfold assets_eqb. by rewrite Har, Has, Hai, Hab, Hao. }
  unfold hash_canonical_state, canonical_encoded_len, assets_canonical_encoded_len, enc_state, enc_assets.
  by rewrite Hu, Hc, Hp, Hr, Hs.
Qed.

(** A typed state with the tables of a good one is good. *)
Lemma state_ok_same t s :
  state_ok s -> same_tables t s -> asset_typed (l_assets t) -> state_ok t.
Proof.
  intros [[] [Hlc Hla Hlp] Hcode Haud] [Hu Hc Hp Hr Hs] Ha. split.
  - split; rewrite ?Hu, ?Hc; done.
  - split; [by rewrite Hu|done|by rewrite Hp].
  - by rewrite Hp.
  - by rewrite (audit_tables _ _ Hr Hs).
Qed.

Lemma validate_supply_total s :
  state_ok s -> exists s', validate_supply_invariants s = (s', Ok tt) /\ same_tables s' s /\
    l_assets s' ≡ l_assets s /\ state_ok s'.
Proof using Hroot.
  intros Hs. destruct (validate_supply_invariants s) as [s' r] eqn:Hv. exists s'.
  pose proof (sk_coin _ Hs) as [_ Hm Hb _].
  apply validate_supply_spec in Hv as [Hok Hsame]; [|apply Hs|done|lia].
  assert (r = Ok tt) as -> by (apply Hok; split; apply Hs). destruct (Hsame eq_refl) as (-> & He & Ha).
  assert (same_tables (with_assets s (l_assets s')) s) as Hst by (destruct He; by split).
  split_and!; try done. by apply (state_ok_same _ s).
Qed.

Lemma parent_root_tip hs c :
  chain_of hs c -> parent_root c = Ok (tip_root hs).
Proof.
  intros Hc. pose proof (chain_of_tip _ _ Hc) as Ht. unfold parent_root, tip_root.
  destruct (last hs) as [h|] eqn:Hl; [|destruct Ht as (_ & -> & _); done].
  destruct Ht as [-> _]. rewrite last_lookup in Hl.
  rewrite (proj2 (co_headers _ _ Hc (Z.of_nat (length hs) - 1) h)); [done|].
  apply lookup_lt_Some in Hl as Hlt. split; [lia|].
  replace (Z.to_nat (Z.of_nat (length hs) - 1)) with (pred (length hs)) by lia. done.
Qed.

(** Rolling back the newest block of a good ledger whose journal is there. *)
Lemma rollback_state_spec hs h s journals js :
  past (hs ++ [h]) s journals -> journals !! Z.of_nat (length hs) = Some js ->
  exists s0 t, trail s0 js s /\ past hs s0 (delete (Z.of_nat (length hs)) journals) /\
    rollback_all js s = (t, Ok tt) /\ same_tables t s0 /\ state_ok t /\
    (Forall (fun j => sj_extension j = None) js -> l_assets t = l_assets s).
Proof using Hroot.
  intros Hp Hj. inversion Hp as [? ? ? Hnil|hs' h' s0 js' s' J Hpast Htr Hok _ Heq|? ? ? ? ? Heq]; subst.
  - by destruct hs.
  - apply app_inj_tail in Heq as [-> ->]. rewrite lookup_insert_eq in Hj. injection Hj as <-.
    assert (J !! Z.of_nat (length hs) = None) as Hn.
    { destruct (J !! _) eqn:Hk; [|done]. apply (past_keys _ _ _ _ _ Hpast) in Hk. lia. }
    destruct (rollback_trail _ _ _ s Htr (reflexivity s) (lt_assets _ (sk_typed _ Hok)))
      as (t & Hr & Hst & Ha & He).
    exists s0, t. rewrite delete_insert_id by done. split_and!; try done.
    apply (state_ok_same _ s0); [by apply past_ok in Hpast as []|done|done].
  - by rewrite lookup_empty in Hj.
Qed.
Lemma ok_state_Ok {S E A} (r : S * result E A) s : ok_state r = Ok s <-> exists a, r = (s, Ok a).
Proof. destruct r as [s' [a|]]; cbn; naive_solver. Qed.

Lemma rollback_tip_spec hs l l' r :
  ledger_ok hs l -> rollback_tip l = (l', r) ->
  match r with
  | Ok b => exists hs', hs = hs' ++ [header b] /\ ledger_ok hs' l' /\
      g_applications l' = g_applications l
  | Err _ => l' = l
  end.
Proof using Hroot.
  intros [Hc Hp Hx] Hr. unfold rollback_tip in Hr.
  match type of Hr with match ?m with _ => _ end = _ => destruct m as [[b l1]|] eqn:Hm end;
    injection Hr as <- <-; [|done].
  apply bind_Ok in Hm as (n & Hn%ok_or_Ok & Hm). apply bind_Ok in Hm as (hash & _ & Hm).
  apply bind_Ok in Hm as (tip & _ & Hm). apply bind_Ok in Hm as (root & _ & Hm).
  apply guard_err_Ok in Hm as [_ Hm]. apply bind_Ok in Hm as (js & Hj%ok_or_Ok & Hm).
  apply bind_Ok in Hm as (t & [[] Ht]%ok_state_Ok & Hm).
  apply bind_Ok in Hm as ([b' c] & Hrm%map_err_Ok_inv & Hm).
  apply bind_Ok in Hm as (t2 & [[] Ht2]%ok_state_Ok & Hm).
  apply bind_Ok in Hm as (expected & He & Hm). apply bind_Ok in Hm as (root2 & Hr2 & Hm).
  apply guard_err_Ok in Hm as [Hg [= <- <-]].
  apply (remove_tip_chain hs) in Hrm as (hs' & -> & _ & Hc'); [|done]. exists hs'.
  split_and!; [done| |done].
  rewrite (co_tip _ _ Hc), length_app in Hn. apply checked_sub_Some in Hn as [-> _]. cbn in Hj.
  replace (Z.of_nat (length hs' + 1) - 1) with (Z.of_nat (length hs')) in * by lia.
  destruct (rollback_state_spec _ _ _ _ _ Hp Hj) as (s0 & t' & _ & Hpast & Hroll & Hst & Hok & _).
  rewrite Hroll in Ht. injection Ht as ->.
  destruct (validate_supply_total t Hok) as (t3 & Hv & Hst3 & _ & Hok3).
  rewrite Hv in Ht2. injection Ht2 as ->.
  rewrite (parent_root_tip hs') in He by done. injection He as <-.
  case_bool_decide; [subst|done]. split; cbn; [done| |].
  - cbn [length]. replace (Z.of_nat (length hs' + 1) - 1) with (Z.of_nat (length hs')) by lia.
    eapply past_same; [exact Hpast|by eapply same_tables_trans|done|done].
  - rewrite (co_tip _ _ Hc'), Hx. destruct hs' as [|h0 hs']; [done|].
    rewrite (proj2 (checked_sub_Some _ _ (Z.of_nat (length hs')))) by (cbn [length]; lia).
    by rewrite bool_decide_eq_false_2.
Qed.
(** (C3) Applying a block is all or nothing, and accounts for every coin.  A
    refused block leaves the ledger exactly as it was, and only a panicking
    application can unwind the node.  An accepted one extends the chain by its
    header, leaves a state whose root is the one the header commits to, stores
    one journal for the emission and one per operation, mines exactly the
    block's subsidy, and changes the live coin value by that subsidy less the
    burns its journals record. *)
Theorem block_application hs l v l' r :
  ledger_ok hs l -> block_ops_ok l (v_block v) -> 0 <= height (v_block v) ->
  apply_validated_block v l = (l', r) ->
  match r with
  | Ok _ => exists js,
      extends hs (v_block v) /\ ledger_ok (hs ++ [header (v_block v)]) l' /\
      ledger_state_root l' = Ok (h_state_root (header (v_block v))) /\
      g_journals l' !! height (v_block v) = Some js /\
      length js = ((if is_genesis (v_block v) then 0 else 1)
                   + length (b_operations (body (v_block v))))%nat /\
      total_mined (coin_record (g_state l'))
        = total_mined (coin_record (g_state l)) + block_subsidy (v_block v) /\
      total_value (utxos (g_state l'))
        = total_value (utxos (g_state l)) + block_subsidy (v_block v)
          - zsum (protocol_burn <$> js)
  | Err e => l' = l /\ (e = Unwound -> unwinds (app_asset (g_applications l)))
  end.
Proof using Hspec Hroot.
  intros Hl Hops Hh Ha. apply (apply_block_spec hs) in Ha; [|done..]. destruct r as [u|e]; [|done].
  destruct Ha as (js & Hext & Hl' & [] & _ & Hj & _). exists js. rewrite Hj, lookup_insert_eq.
  by split_and!.
Qed.

(** (C1) Rolling back the tip undoes its application: after a block has been
    applied, [rollback_tip] succeeds, returns that block, and restores the
    chain, the journals, the chain context, and the state: the coin store with
    its indexes, the supply counters, the program registry, and the asset
    records and shares.  There is one exception.  While nothing has been mined
    the state root depends on whether the derived asset indexes are empty, which
    undoing operations need not restore; so a block with operations on a ledger
    that has mined nothing may be refused, with the ledger kept, and only when
    the restored tables have another root than before. *)
Theorem block_rollback_roundtrip hs l v l' :
  ledger_ok hs l -> block_ops_ok l (v_block v) -> 0 <= height (v_block v) ->
  apply_validated_block v l = (l', Ok tt) ->
  exists s, same_tables s (g_state l) /\
   (rollback_tip l' =
      ({| g_applications := g_applications l; g_chain := g_chain l; g_state := s;
          g_journals := g_journals l; g_context := g_context l |}, Ok (v_block v)) \/
    total_mined (coin_record (g_state l)) = 0 /\ b_operations (body (v_block v)) <> [] /\
    state_root_of s <> state_root_of (g_state l) /\ exists e, rollback_tip l' = (l', Err e)).
Proof using Hspec Hroot.
  intros Hl Hops Hh Ha. apply (apply_block_spec hs) in Ha; [|done..].
  destruct Ha as (js & (Hhb & _) & _ & Hbody & Hi & Hj & Hcx & Happ).
  pose proof Hl as [Hc Hp Hx]. pose proof (insert_remove hs _ _ _ Hc Hh Hi) as Hrm.
  unfold insert_block in Hi. apply bind_Ok in Hi as ([] & _ & [= Hchain]).
  assert (g_journals l !! height (v_block v) = None) as Hn.
  { destruct (g_journals l !! _) eqn:Hk; [|done]. apply (past_keys _ _ _ _ _ Hp) in Hk. lia. }
  destruct Hbody as [[Htr Hok' _] _ Hr' Hplain _ _]. destruct (past_ok _ _ _ Hp) as [Hok Hr].
  destruct (rollback_trail _ _ _ (g_state l') Htr (reflexivity _) (lt_assets _ (sk_typed _ Hok')))
    as (t & Hroll & Hst & Hta & Hext).
  pose proof (state_ok_same _ _ Hok Hst Hta) as Hokt.
  destruct (validate_supply_total t Hokt) as (t2 & Hv & Hst2 & He2 & _).
  assert (total_mined (coin_record (g_state l)) <> 0 \/ b_operations (body (v_block v)) = [] ->
    state_root_of t2 = Ok (tip_root hs)) as Hrt.
  { intros Hor. rewrite <- Hr. apply state_root_same; [by eapply same_tables_trans|].
    destruct Hor as [Hm|Hz]; [by left|right]. destruct (Hplain Hz) as [Hpe Hpf].
    by rewrite He2, (Hext Hpf). }
  exists t2. split; [by eapply same_tables_trans|]. unfold rollback_tip, ledger_state_root.
  rewrite Hr', <- Hchain in *. cbn [tip_height tip_hash blocks ok_or mbind result_mbind].
  rewrite lookup_insert_eq. cbn [ok_or mbind result_mbind]. rewrite bool_decide_eq_true_2 by done.
  cbn [negb guard_err]. rewrite Hj, lookup_insert_eq. cbn [ok_or mbind result_mbind].
  rewrite Hroll. cbn [ok_state mbind result_mbind]. rewrite Hrm. cbn [map_err mbind result_mbind].
  rewrite Hv. cbn [ok_state mbind result_mbind]. rewrite (parent_root_tip hs) by done.
  cbn [mbind result_mbind].
  assert (state_root_of t2 <> Ok (tip_root hs) ->
    total_mined (coin_record (g_state l)) = 0 /\ b_operations (body (v_block v)) <> [] /\
    state_root_of t2 <> state_root_of (g_state l)) as Hbad.
  { intros Hne. rewrite Hr. split_and!; [|by intros Hz; apply Hne, Hrt; right|done].
    destruct (decide (total_mined (coin_record (g_state l)) = 0)); [done|]. destruct Hne. apply Hrt. by left. }
  destruct (state_root_of t2) as [root|e] eqn:Hroot2; cbn [mbind result_mbind].
  2: { right. destruct (Hbad ltac:(done)) as (? & ? & ?). split_and!; [done..|]. by eexists. }
  destruct (decide (root = tip_root hs)) as [->|Hne].
  2: { right. destruct Hbad as (? & ? & ?); [by intros [= ->]|]. split_and!; [done..|].
       rewrite bool_decide_eq_false_2 by done. cbn [negb guard_err]. by eexists. }
  left. rewrite bool_decide_eq_true_2 by done. cbn [negb guard_err].
  rewrite delete_insert_id by done. rewrite Happ. do 3 f_equal.
  rewrite Hcx, Hx, (co_tip _ _ Hc). destruct hs as [|h0 hs]; [done|].
  by rewrite (proj2 (checked_sub_Some _ _ (Z.of_nat (length hs)))) by (cbn [length]; lia).
Qed.

(** ** Ledgers a node can reach *)

Definition with_chain (l : Ledger) (c : Chain) : Ledger :=
  {| g_applications := g_applications l; g_chain := c; g_state := g_state l;
     g_journals := g_journals l; g_context := g_context l |}.

Definition ledger_consensus_error (e : ConsensusError) : Failure := Failed (LConsensus e).

(** The genesis and further blocks through consensus admission, rollback of
    the tip, pruning of journals, and eviction and return of bodies. *)
Inductive node_step : Ledger -> Ledger -> Prop :=
| step_genesis l l' expected b :
    block_ops_ok l b -> 0 <= height b ->
    apply_genesis ledger_consensus_error expected b l = (l', Ok tt) -> node_step l l'
| step_block l l' memory b :
    block_ops_ok l b -> 0 <= height b ->
    apply_block ledger_consensus_error memory b l = (l', Ok tt) -> node_step l l'
| step_rollback l l' b : rollback_tip l = (l', Ok b) -> node_step l l'
| step_prune l height : node_step l (prune_rollback_journals_before height l)
| step_evict l max_bytes max_blocks c :
    retain_recent_bodies max_bytes max_blocks (g_chain l) = Ok c -> node_step l (with_chain l c)
| step_cache l b c : cache_known_block b (g_chain l) = Ok c -> node_step l (with_chain l c).

Definition reachable_ledger (l : Ledger) : Prop :=
  exists applications, rtc node_step (with_applications applications ledger_new) l.

Lemma validate_for_apply_block b c p m v : validate_for_apply b c p m = Ok v -> v_block v = b.
Proof.
  unfold validate_for_apply. intros Hv. apply bind_Ok in Hv as (? & _ & Hv).
  apply bind_Ok in Hv as (? & _ & Hv). apply bind_Ok in Hv as (? & _ & Hv).
  by apply bind_Ok in Hv as (e & _ & [= <-]).
Qed.

Lemma new_state_ok : state_ok ledger_state_new.
Proof.
  split.
  - split; [apply utxo_empty_wf|by split..|done].
  - split; [apply utxo_empty_wf| |apply map_Forall_empty]. split; [apply map_Forall_empty|done].
  - intros id r Hr. cbn in Hr. by rewrite lookup_empty in Hr.
  - vm_compute. reflexivity.
Qed.

Lemma node_step_ok l l' :
  node_step l l' -> (exists hs, ledger_ok hs l) -> exists hs, ledger_ok hs l'.
Proof using Hspec Hroot.
  intros Hstep [hs Hl].
  destruct Hstep as [l l' expected b Hops Hh Ha|l l' memory b Hops Hh Ha|l l' b Hr|l h|l mb mk c Hc|l b c Hc].
  - unfold apply_genesis in Ha. destruct (has_blocks _); [done|].
    destruct (validate_genesis_block b); [|done]. destruct (decide _); [|done].
    destruct (validate_for_apply _ _ _ _) as [v|] eqn:Hv; [|done].
    pose proof (validate_for_apply_block _ _ _ _ _ Hv) as Hb. subst b.
    destruct (apply_block_spec hs l v l' (Ok tt) Hl Hops Hh Ha) as (js & _ & Hl' & _). eauto.
  - unfold apply_block in Ha. destruct (has_blocks _); [|done].
    destruct (validate_for_apply _ _ _ _) as [v|] eqn:Hv; [|done].
    pose proof (validate_for_apply_block _ _ _ _ _ Hv) as Hb. subst b.
    destruct (apply_block_spec hs l v l' (Ok tt) Hl Hops Hh Ha) as (js & _ & Hl' & _). eauto.
  - destruct (rollback_tip_spec hs l l' (Ok b) Hl Hr) as (hs' & _ & ? & _). eauto.
  - exists hs. destruct Hl. split; [done|by apply past_prune|done].
  - exists hs. destruct Hl. split; cbn; [by eapply retain_chain|done|done].
  - exists hs. destruct Hl. split; cbn; [by eapply cache_chain|done|done].
Qed.

Lemma audit_supply_total s : state_ok s -> (audit_supply_invariants s).2 = Ok tt.
Proof using Hroot.
  intros Hs. pose proof (sk_coin _ Hs) as Hc. destruct Hc as [Hwf Hm Hb Hsup].
  unfold audit_supply_invariants, mbind, st_mbind, validate_supply_with_asset_cache.
  rewrite (proj2 (validate_coin_supply_Ok s Hwf Hm (proj1 Hb)) (sk_coin _ Hs)).
  destruct (validate_asset_supply false (l_assets s)) as [a r] eqn:Hv.
  apply validate_asset_supply_spec in Hv as [-> _]; [|apply Hs]. rewrite (sk_audit _ Hs). cbn.
  assert (forall id c, coins (utxos s) !! id = Some c -> 0 < cu_amount c) as Hpos.
  { intros id c Hid. apply (utxo_amounts _ Hwf) in Hid. unfold coin_wf in Hid. lia. }
  unfold st_check. rewrite (proj2 (coin_audit_exact (with_assets s a)
    ltac:(intros id c Hid; apply Hpos in Hid; lia))); [done|]; cbn.
  - split_and!; [|apply Hwf|apply Hwf|].
    + intros id c Hid%Hpos. lia.
    + unfold coin_supply. apply checked_sub_Some. pose proof (value_of_nonneg _ (utxo_amounts _ Hwf)).
      rewrite <- (utxo_total _ Hwf) in *. lia.
Qed.

(** (C2) Every ledger a node can reach is sound: through any sequence of
    admitted blocks, rollbacks, pruning and eviction of bodies, its chain is a
    list of linked headers, its context is the genesis hash, its state hashes
    to the root of the tip's header, the live coins are what was mined less
    what was burned, the deep audit of coins and assets passes, and journals
    are kept for blocks of the chain only. *)
Theorem reachable_ledger_sound l :
  reachable_ledger l ->
  exists hs, chain_of hs (g_chain l) /\
    g_context l = block_header_hash <$> head hs /\
    ledger_state_root l = Ok (tip_root hs) /\
    total_mined (coin_record (g_state l)) - total_burned (coin_record (g_state l))
      = total_value (utxos (g_state l)) /\
    (audit_supply_invariants (g_state l)).2 = Ok tt /\
    (forall h, is_Some (g_journals l !! h) -> 0 <= h < Z.of_nat (length hs)).
Proof using Hspec Hroot.
  intros [applications Hr].
  assert (exists hs, ledger_ok hs l) as [hs [Hc Hp Hx]].
  { refine (rtc_ind_r (R := node_step) (fun l => exists hs, ledger_ok hs l) _ _ _ l Hr);
      [|by intros x y _ Hstep; apply node_step_ok].
    exists []. split; [apply chain_of_new| |done].
    apply past_new; [apply new_state_ok|vm_compute; reflexivity]. }
  destruct (past_ok _ _ _ Hp) as [Hok Hroot']. exists hs. split_and!; try done.
  - apply Hok.
  - by apply audit_supply_total.
  - intros h [js Hj]. by eapply past_keys.
Qed.
End ledgers.

(** ** A small chain *)

Section example.
#[local] Existing Instance toy_sha3.
#[local] Existing Instance toy_sha3_spec.
#[local] Existing Instance toy_argon2.
#[local] Existing Instance accept_all.
#[local] Instance toy_roots : RootTest := fun _ _ _ => false.
#[local] Existing Instance no_roots_spec.

Definition with_state_root (b : Block) (root : Hash) : Block :=
  {| header := {| previous_hash := previous_hash (header b); h_merkle_root := h_merkle_root (header b);
                  h_state_root := root; target_bits := target_bits (header b);
                  block_weight := block_weight (header b); h_nonce := h_nonce (header b) |};
     height := height b; body := body b |}.

(** The block with the state root a preview computes. *)
Definition sealed (l : Ledger) (b : Block) : Block :=
  match preview_block_commitments l b with
  | Returned (Ok (root, _)) => with_state_root b root
  | _ => b
  end.

Definition validated (b : Block) : ValidatedBlock := {| v_block := b; v_emission := None |}.

Definition ledger0 : Ledger := with_applications extension_applications ledger_new.
Definition block0 : Block := sealed ledger0 sample_genesis.
Definition ledger1 : Ledger := (apply_validated_block (validated block0) ledger0).1.

(** The first block pays its miner, who owns the example's key. *)
Definition block1 : Block :=
  sealed ledger1 (ok_block (from_protocol_operations 1 (block_hash block0) TARGET_BITS_START 0
    (Some {| em_to := replicate 32 0; em_subsidy := BLOCK_EMISSION_START |}) [])).
Definition ledger2 : Ledger := (apply_validated_block (validated block1) ledger1).1.

(** The second block holds one transfer of what the first one mined. *)
Definition spend : AuthorizedProgramInvocation :=
  {| ai_signer := replicate 32 0; ai_call := transfer_coin;
     ai_payment := {| signer := replicate 32 0;
                      ct_inputs := (sorted_entries (coins (utxos (g_state ledger2)))).*1;
                      ct_outputs := [{| co_output := Program (replicate 32 2); co_amount := 156241594 |}];
                      charges := {| miner_fee := 1 |} |};
     ai_authorization := sample_auth |}.

Definition block2 : Block :=
  sealed ledger2 (ok_block (from_protocol_operations 2 (block_hash block1) TARGET_BITS_START 0
    (Some {| em_to := toy_miner; em_subsidy := BLOCK_EMISSION_START |}) [OpProgramCall spend])).
Definition ledger3 : Ledger := (apply_validated_block (validated block2) ledger2).1.

Lemma applied1 : apply_validated_block (validated block0) ledger0 = (ledger1, Ok tt).
Proof. apply injective_projections; [reflexivity|vm_compute; reflexivity]. Qed.

Lemma applied2 : apply_validated_block (validated block1) ledger1 = (ledger2, Ok tt).
Proof. apply injective_projections; [reflexivity|vm_compute; reflexivity]. Qed.

Lemma applied3 : apply_validated_block (validated block2) ledger2 = (ledger3, Ok tt).
Proof. apply injective_projections; [reflexivity|vm_compute; reflexivity]. Qed.

Lemma ledger0_ok : ledger_ok [] ledger0.
Proof.
  split; [apply chain_of_new| |reflexivity].
  apply past_new; [apply new_state_ok|vm_compute; reflexivity].
Qed.

Lemma no_operations l b : b_operations (body b) = [] -> block_ops_ok l b.
Proof. unfold block_ops_ok. intros ->. constructor. Qed.

Lemma ledger1_ok : ledger_ok [header block0] ledger1.
Proof.
  destruct (apply_block_spec [] ledger0 (validated block0) ledger1 (Ok tt) ledger0_ok
    ltac:(apply no_operations; vm_compute; reflexivity) ltac:(vm_compute; discriminate) applied1)
    as (js & _ & Hl & _). exact Hl.
Qed.

Lemma ledger2_ok : ledger_ok [header block0; header block1] ledger2.
Proof.
  destruct (apply_block_spec [header block0] ledger1 (validated block1) ledger2 (Ok tt) ledger1_ok
    ltac:(apply no_operations; vm_compute; reflexivity) ltac:(vm_compute; discriminate) applied2)
    as (js & _ & Hl & _). exact Hl.
Qed.

Lemma spend_ok genesis miner : 
  genesis = default (block_hash block2) (g_context ledger2) -> miner = miner_program_id block2 ->
  operation_ok genesis miner (OpProgramCall spend).
Proof.
  intros -> ->. split.
  - split; [by apply hash_wf_compute|by apply digits_compute|by repeat constructor].
  - intros commitment Hc. vm_compute in Hc. injection Hc as <-.
    split; [by repeat constructor|by split|].
    intros [|[|i]] Hi; [..|vm_compute in Hi; lia]; apply (bool_decide_unpack _); vm_compute; reflexivity.
Qed.

Lemma block2_ops_ok : block_ops_ok ledger2 block2.
Proof.
  unfold block_ops_ok.
  assert (b_operations (body block2) = [OpProgramCall spend]) as Hops by (vm_compute; reflexivity).
  rewrite Hops. constructor; [by apply spend_ok|constructor].
Qed.

Lemma block_application_witness :
  exists js, g_journals ledger3 !! 2 = Some js /\ length js = 2%nat /\
    total_value (utxos (g_state ledger3))
    = total_value (utxos (g_state ledger2)) + BLOCK_EMISSION_START - zsum (protocol_burn <$> js).
Proof.
  assert (0 <= height block2) as Hh by (vm_compute; discriminate).
  destruct (block_application _ ledger2 (validated block2) ledger3 (Ok tt) ledger2_ok block2_ops_ok Hh
    applied3) as (js & _ & _ & _ & Hj & Hl & _ & Hv).
  exists js. split; [exact Hj|]. split; [rewrite Hl; vm_compute; reflexivity|].
  rewrite Hv. reflexivity.
Defined.

Lemma block_rollback_roundtrip_witness :
  exists s, same_tables s (g_state ledger2) /\ rollback_tip ledger3 =
    ({| g_applications := g_applications ledger2; g_chain := g_chain ledger2; g_state := s;
        g_journals := g_journals ledger2; g_context := g_context ledger2 |}, Ok block2).
Proof.
  assert (0 <= height block2) as Hh by (vm_compute; discriminate).
  destruct (block_rollback_roundtrip [header block0; header block1] ledger2 (validated block2) ledger3
    ledger2_ok block2_ops_ok Hh applied3) as (s & Hs & [Hr|(Hm & _)]).
  - exists s. split; [exact Hs|exact Hr].
  - exfalso. vm_compute in Hm. discriminate Hm.
Defined.

(** Committing reads the block only. *)
Lemma commit_same_block v w l :
  v_block v = v_block w -> apply_validated_block v l = apply_validated_block w l.
Proof. intros Hb. unfold apply_validated_block. by rewrite Hb. Qed.

Lemma genesis_admitted :
  apply_genesis ledger_consensus_error (block_hash block0) block0 ledger0 = (ledger1, Ok tt).
Proof.
  unfold apply_genesis. change (has_blocks (consensus_chain ledger0)) with false. cbv iota.
  replace (validate_genesis_block block0) with (Ok (E := ConsensusError) tt) by (vm_compute; reflexivity).
  rewrite decide_True by reflexivity.
  destruct (validate_for_apply block0 (consensus_chain ledger0) true None) as [v|e] eqn:Hv;
    [|vm_compute in Hv; discriminate].
  cbn [commit_validated_block ledger_apply_state].
  rewrite (commit_same_block v (validated block0)) by (by apply validate_for_apply_block in Hv).
  exact applied1.
Qed.

Lemma block1_admitted :
  apply_block ledger_consensus_error None block1 ledger1 = (ledger2, Ok tt).
Proof.
  unfold apply_block.
  replace (has_blocks (consensus_chain ledger1)) with true by (vm_compute; reflexivity). cbv iota.
  destruct (validate_for_apply block1 (consensus_chain ledger1) true None) as [v|e] eqn:Hv;
    [|vm_compute in Hv; discriminate].
  cbn [commit_validated_block ledger_apply_state].
  rewrite (commit_same_block v (validated block1)) by (by apply validate_for_apply_block in Hv).
  exact applied2.
Qed.

Lemma reachable_ledger_sound_witness :
  exists hs, chain_of hs (g_chain ledger2) /\ ledger_state_root ledger2 = Ok (tip_root hs).
Proof.
  assert (reachable_ledger ledger2) as Hr.
  { exists extension_applications. apply (rtc_l _ _ ledger1); [|apply rtc_once].
    - eapply step_genesis; [..|exact genesis_admitted];
        [apply no_operations; vm_compute; reflexivity|vm_compute; discriminate].
    - eapply step_block; [..|exact block1_admitted];
        [apply no_operations; vm_compute; reflexivity|vm_compute; discriminate]. }
  destruct (reachable_ledger_sound ledger2 Hr) as (hs & Hc & _ & Hroot & _).
  exists hs. split; [exact Hc|exact Hroot].
Defined.
End example.
