(* ===== verification/LedgerRestore.v ===== *)
(** * Restoring a ledger from a snapshot

    What [restore_snapshot_blocks] guarantees of the ledger it returns, whatever
    snapshot and history it was given. *)

From stdpp Require Import list_numbers.
From S2P Require Import Prelude Codec Monetary Index Coin Vm Registry RegistryWire Calls Wire Authorize Policy.
From S2P Require Import Assets AssetFacts AssetProps AssetAudit Block Chain Consensus State StateRoot CoinHost AssetHost.
From S2P Require Import Settlement Engine SettleFacts EngineFacts EngineProps VmTypes Apply ApplyFacts Ledger LedgerProps.
#[local] Open Scope Z_scope.

(** The journals a block leaves. *)
Definition expected_journals (b : Block) : Z :=
  (if bool_decide (is_Some (b_emission (body b))) then 1 else 0)
  + Z.of_nat (length (b_operations (body b))).

(** The heights of a history that the snapshot should have journals for. *)
Definition retained_heights (start : Z) (n : nat) : list Z :=
  filter (fun h => start <= h) (seqZ 0 (Z.of_nat n)).

Lemma retained_snoc start n :
  retained_heights start (S n) =
  retained_heights start n ++ (if start <=? Z.of_nat n then [Z.of_nat n] else []).
Proof.
  unfold retained_heights. rewrite Nat2Z.inj_succ, <- Z.add_1_r, seqZ_app by lia.
  rewrite filter_app. f_equal. cbn. rewrite Z.add_0_l.
  rewrite (seqZ_cons _ 1) by lia. cbn [Z.pred].
  destruct (Z.leb_spec start (Z.of_nat n)); [by rewrite filter_cons_True|].
  by rewrite filter_cons_False by lia.
Qed.

Section restore.
Context `{Sha3} `{Argon2} `{SignatureBackend} `{RootTest}.

(** How one block was checked. *)
Definition block_checked (verify_pow : bool) (previous : list Header) (b : Block) : Prop :=
  if verify_pow then exists c v, chain_of previous c /\
    validate_for_apply b c true (if is_genesis b then None else Some POW_ARGON2_MEMORY_KIB) = Ok v
  else block_validate b = Ok tt.

Context (journals : gmap Z (list StateRollbackJournal)) (start max_bytes max_blocks : Z)
  (verify_pow : bool).

Record restoring (done : list Block) (r : Restoring) : Prop := {
  rg_chain : chain_of (header <$> done) (rs_chain r);
  rg_genesis : rs_genesis r = block_hash <$> head done;
  rg_tip : rs_tip r = (fun b => (Z.of_nat (length done) - 1, h_state_root (header b))) <$> last done;
  rg_retained : rs_retained r = Z.of_nat (length (retained_heights start (length done)));
  rg_checked : forall i b, done !! i = Some b ->
    height b = Z.of_nat i /\ block_checked verify_pow (header <$> take i done) b /\
    (start <= Z.of_nat i -> exists js, journals !! Z.of_nat i = Some js /\
       Z.of_nat (length js) = expected_journals b);
}.

Lemma restore_block_ok done b r r' :
  restoring done r -> 0 <= height b ->
  restore_block journals start max_bytes max_blocks verify_pow b r = Ok r' ->
  restoring (done ++ [b]) r'.
Proof.
  intros [Hc Hg Ht Hn Hall] Hh Hr. unfold restore_block in Hr.
  apply bind_Ok in Hr as (u & Hchk & Hr). apply bind_Ok in Hr as (c1 & Hi%map_err_Ok_inv & Hr).
  apply bind_Ok in Hr as (c2 & Hret%map_err_Ok_inv & Hr).
  apply bind_Ok in Hr as (expected & Hexp%ok_or_Ok & Hr).
  apply checked_add_Some in Hexp as [-> _]. fold (expected_journals b) in Hr.
  apply (insert_block_chain (header <$> done)) in Hi as [(Hhb & _) Hc1]; [|done|done].
  rewrite length_fmap in Hhb. pose proof (retain_chain _ _ _ _ _ Hc1 Hret) as Hc2.
  assert (block_checked verify_pow (header <$> done) b) as Hck.
  { unfold block_checked. destruct verify_pow.
    - apply bind_Ok in Hchk as (v & Hv%map_err_Ok_inv & _). eauto.
    - by apply map_err_Ok_inv in Hchk; destruct u. }
  assert (exists retained, r' = {| rs_chain := c2;
      rs_genesis := Some (default (block_hash b) (rs_genesis r));
      rs_tip := Some (height b, h_state_root (header b)); rs_retained := retained |} /\
    retained = Z.of_nat (length (retained_heights start (S (length done)))) /\
    (start <= Z.of_nat (length done) -> exists js, journals !! Z.of_nat (length done) = Some js /\
       Z.of_nat (length js) = expected_journals b)) as (retained & -> & Hret' & Hj).
  { rewrite retained_snoc, length_app. rewrite <- Hhb.
    destruct (Z.leb_spec start (height b)).
    - apply guard_err_Ok in Hr as [Hg' [= <-]]. eexists. split; [done|]. split; [cbn; lia|].
      intros _. case_bool_decide as He; [|done]. destruct (journals !! height b) as [js|]; [|done].
      exists js. by injection He.
    - injection Hr as <-. eexists. split; [done|]. split; [cbn; lia|]. lia. }
  split; cbn; rewrite ?fmap_app, ?length_app, ?last_snoc; cbn.
  - done.
  - rewrite Hg. by destruct done.
  - do 2 f_equal. lia.
  - rewrite Hret'. do 3 f_equal. lia.
  - intros i x [Hi|[-> <-]]%lookup_snoc_Some.
    + destruct (Hall i x (proj2 Hi)) as (? & ? & ?). split_and!; [done| |done].
      rewrite take_app_le by lia. done.
    + split_and!; [done| |done]. by rewrite take_app_length.
Qed.
Lemma restore_blocks_ok history done r r' :
  Forall (fun b => 0 <= height b) history -> restoring done r ->
  restore_blocks journals start max_bytes max_blocks verify_pow history r = Ok r' ->
  restoring (done ++ history) r'.
Proof.
  intros Hh. revert done r. induction Hh as [|b history Hb _ IH]; intros done r Hr Hb'.
  { injection Hb' as <-. by rewrite app_nil_r. }
  cbn [restore_blocks] in Hb'. apply bind_Ok in Hb' as (r1 & Hr1 & Hb').
  apply (restore_block_ok done) in Hr1; [|done|done]. rewrite (cons_middle b done history), app_assoc.
  by eapply IH.
Qed.

Lemma elem_of_retained h n : h ∈ retained_heights start n <-> start <= h /\ 0 <= h < Z.of_nat n.
Proof. unfold retained_heights. rewrite list_elem_of_filter, elem_of_seqZ. lia. Qed.

(** As many journals as retained heights, and one for each: no others. *)
Lemma journal_heights n :
  (forall h, h ∈ retained_heights start n -> is_Some (journals !! h)) ->
  Z.of_nat (size journals) = Z.of_nat (length (retained_heights start n)) ->
  forall h, is_Some (journals !! h) <-> start <= h /\ 0 <= h < Z.of_nat n.
Proof.
  intros Hin Hsize h. rewrite <- elem_of_retained, <- elem_of_dom.
  assert (list_to_set (retained_heights start n) ⊆ dom journals) as Hsub.
  { intros k Hk%elem_of_list_to_set. by apply elem_of_dom, Hin. }
  assert (dom journals = list_to_set (C := gset Z) (retained_heights start n)) as ->.
  { symmetry. apply leibniz_equiv, set_subseteq_size_equiv; [done|]. rewrite size_dom.
    rewrite size_list_to_set; [lia|]. apply NoDup_filter, NoDup_seqZ. }
  by rewrite elem_of_list_to_set.
Qed.
End restore.

(** ** What a restored ledger guarantees *)

Section theorem.
Context `{Sha3} `{Argon2} `{SignatureBackend} `{RootTest}.

Lemma audit_supply_Ok s s' :
  shares_typed (shares (l_assets s)) ->
  (forall id c, coins (utxos s) !! id = Some c -> 0 <= cu_amount c) ->
  audit_supply_invariants s = (s', Ok tt) ->
  same_tables s' s /\ l_assets s' ≡ l_assets s /\ audited (l_assets s) /\
  (forall id c, coins (utxos s) !! id = Some c -> cu_amount c <> 0) /\
  total_value (utxos s) = value_of (coins (utxos s)) /\
  coin_supply (coin_record s) = Some (total_value (utxos s)).
Proof.
  intros Hty Hpos Ha. unfold audit_supply_invariants in Ha.
  apply st_bind_Ok in Ha as ([] & s1 & Hv & [-> Hc]%st_check_Ok).
  unfold validate_supply_with_asset_cache in Hv.
  destruct (validate_coin_supply s) as [[]|]; [|done].
  destruct (validate_asset_supply false (l_assets s)) as [a r] eqn:Has. injection Hv as <- Hr.
  destruct r as [[]|]; [|done]. apply audit_asset_supply_Ok in Has as (Hau & _ & He); [|done].
  apply map_err_Ok_inv, coin_audit_exact in Hc as (Hnz & Ht & _ & Hs); [|done]. cbn in *.
  split; [destruct He; by split|]. by split_and!.
Qed.

(** (C5) A snapshot is restored only against a history it fits, whoever
    supplied both.  The history is linked from a genesis and every block of it
    was checked (its structure, or with proof of work the whole admission); the
    chain is that history and the context its genesis hash; the state is the
    snapshot's and hashes to the root of the last header; its coins are
    positive and add up to what was mined less what was burned; its assets pass
    the full audit; every program record is valid; and there are journals for a
    run of heights up to the tip and no others, as many per height as its block
    has an emission and operations. *)
Theorem snapshot_restore_sound snapshot history max_bytes max_blocks verify_pow l :
  Forall (fun b => 0 <= height b) history ->
  shares_typed (shares (l_assets (sn_state snapshot))) ->
  (forall id c, coins (utxos (sn_state snapshot)) !! id = Some c -> 0 <= cu_amount c) ->
  restore_snapshot_blocks snapshot history max_bytes max_blocks verify_pow = Ok l ->
  chain_of (header <$> history) (g_chain l) /\
  (forall i b, history !! i = Some b ->
     block_checked verify_pow (header <$> take i history) b) /\
  is_Some (g_context l) /\ g_context l = block_hash <$> head history /\
  same_tables (g_state l) (sn_state snapshot) /\
  ledger_state_root l = Ok (tip_root (header <$> history)) /\
  (forall id c, coins (utxos (g_state l)) !! id = Some c -> 0 < cu_amount c) /\
  coin_supply (coin_record (g_state l)) = Some (value_of (coins (utxos (g_state l)))) /\
  audited (l_assets (g_state l)) /\
  (forall id record, programs (l_programs (g_state l)) !! id = Some record ->
     record_valid (Z.of_nat (length history) - 1) id record) /\
  registry_ok (l_programs (g_state l)) /\
  exists start, forall i, match history !! i, g_journals l !! Z.of_nat i with
    | Some b, Some js => start <= Z.of_nat i /\ Z.of_nat (length js) = expected_journals b
    | Some _, None => Z.of_nat i < start
    | None, Some _ => False
    | None, None => True
    end.
Proof.
  intros Hh Hty Hpos Hr. unfold restore_snapshot_blocks in Hr.
  apply bind_Ok in Hr as (start & _ & Hr). apply bind_Ok in Hr as (r & Hblocks & Hr).
  apply (restore_blocks_ok _ start _ _ _ _ []) in Hblocks as [Hc Hg Ht Hn Hall];
    [|done|by split; [apply chain_of_new|..]; try done; intros i b Hi; rewrite lookup_nil in Hi].
  cbn [app] in *. apply guard_err_Ok in Hr as [Hsize Hr]. apply negb_false_iff, Z.eqb_eq in Hsize.
  apply bind_Ok in Hr as ([tip root] & Htip%ok_or_Ok & Hr).
  apply bind_Ok in Hr as (g & Hgen%ok_or_Ok & Hr).
  apply bind_Ok in Hr as (s & [[] Haud]%ok_state_Ok & Hr).
  apply bind_Ok in Hr as ([] & Hreg%map_err_Ok_inv & Hr).
  apply bind_Ok in Hr as (root2 & Hroot & Hr). apply guard_err_Ok in Hr as [Heq [= <-]].
  case_bool_decide; [subst root2|done]. cbn [g_chain g_state g_journals g_context].
  apply audit_supply_Ok in Haud as (Hst & He & Hau & Hnz & Htv & Hsup); [|done|done].
  rewrite Ht in Htip. apply fmap_Some in Htip as (lastb & Hlast & [= -> ->]).
  apply registry_validate_Ok in Hreg as [Hrec Hrok].
  assert (forall h, is_Some (sn_journals snapshot !! h) <->
    start <= h /\ 0 <= h < Z.of_nat (length history)) as Hdom.
  { apply journal_heights; [|lia]. intros h [Hs Hb]%elem_of_retained.
    destruct (lookup_lt_is_Some_2 history (Z.to_nat h)) as [b Hb']; [lia|].
    destruct (Hall _ _ Hb') as (_ & _ & Hj). rewrite Z2Nat.id in Hj by lia.
    destruct (Hj Hs) as (js & -> & _). done. }
  split_and!; try done.
  - intros i b Hi. apply (Hall _ _ Hi).
  - by rewrite <- Hg, Hgen.
  - unfold ledger_state_root, tip_root. cbn. by rewrite Hroot, fmap_last, Hlast.
  - intros id c. rewrite (same_utxos _ _ Hst). intros Hid. pose proof (Hpos _ _ Hid).
    pose proof (Hnz _ _ Hid). lia.
  - by rewrite (same_utxos _ _ Hst), (same_coin _ _ Hst), <- Htv.
  - destruct Hau. split; rewrite ?(eq_records _ _ He), ?(eq_shares _ _ He); done.
  - exists start. intros i. destruct (history !! i) as [b|] eqn:Hi.
    + pose proof (lookup_lt_Some _ _ _ Hi). destruct (Hall _ _ Hi) as (_ & _ & Hj).
      destruct (sn_journals snapshot !! Z.of_nat i) as [js|] eqn:Hjs.
      * assert (start <= Z.of_nat i) as Hs by (apply Hdom; by eexists). split; [done|].
        by destruct (Hj Hs) as (js' & [= <-] & ?).
      * destruct (decide (Z.of_nat i < start)); [done|]. destruct (Hj ltac:(lia)) as (? & ? & _). done.
    + apply lookup_ge_None in Hi. destruct (sn_journals snapshot !! Z.of_nat i) eqn:Hjs; [|done].
      destruct (proj1 (Hdom (Z.of_nat i))) as [_ ?]; [by eexists|lia].
Qed.
End theorem.

Section example.
#[local] Existing Instance toy_sha3.
#[local] Existing Instance toy_argon2.
#[local] Existing Instance accept_all.
#[local] Instance plain_roots : RootTest := fun _ _ _ => false.

(** The ledger of two blocks, its snapshot restored with proof of work. *)
Definition restored : result LedgerError Ledger :=
  from_snapshot_with_body_cache (snapshot ledger2) [block0; block1] USIZE_MAX 1.

Lemma snapshot_restore_sound_witness :
  exists l, restored = Ok l /\ chain_of [header block0; header block1] (g_chain l) /\
    ledger_state_root l = Ok (h_state_root (header block1)).
Proof.
  assert (match restored with Ok _ => True | Err _ => False end) as Hr by (vm_compute; exact I).
  destruct restored as [l|e] eqn:He; [|contradiction].
  unfold restored, from_snapshot_with_body_cache in He.
  assert (Forall (fun b => 0 <= height b) [block0; block1]) as Hh
    by (repeat constructor; vm_compute; discriminate).
  pose proof (sk_typed _ (proj1 (past_ok _ _ _ (lo_past _ _ ledger2_ok)))) as Hty.
  assert (forall id c, coins (utxos (g_state ledger2)) !! id = Some c -> 0 <= cu_amount c) as Hpos.
  { intros id c Hid. apply (utxo_amounts _ (lt_coins _ Hty)) in Hid. unfold coin_wf in Hid. lia. }
  destruct (snapshot_restore_sound (snapshot ledger2) [block0; block1] USIZE_MAX 1 true l Hh
    (proj1 (lt_assets _ Hty)) Hpos He) as (Hc & _ & _ & _ & _ & Hroot & _).
  exists l. split; [reflexivity|]. split; [exact Hc|exact Hroot].
Defined.
End example.
