(* ===== verification/Genesis.v ===== *)
(** * Genesis

    Models [kernel/src/genesis/mod.rs]: the frozen first block of each network,
    the chain context derived from it, and the ledger that holds it alone.  The
    network is a build feature, here the record [Network]. *)

From S2P Require Import Prelude Codec Monetary Coin Registry Wire Authorize Policy Block Chain Consensus.
From S2P Require Import Assets State StateRoot CoinHost AssetHost Settlement Engine VmTypes Apply ApplyFacts Ledger LedgerProps.
#[local] Open Scope Z_scope.

Record Network := { genesis_nonce : Z; expected_genesis_hash : Hash }.

Definition mainnet : Network :=
  {| genesis_nonce := 4;
     expected_genesis_hash :=
       [0xd4; 0x09; 0x63; 0xc3; 0x68; 0x81; 0x4a; 0xb2; 0x23; 0x10; 0x57; 0xea; 0xc0; 0x4c; 0xe2; 0xa9;
        0xbb; 0x78; 0x24; 0xac; 0xb9; 0xf6; 0xba; 0x91; 0xed; 0x77; 0xe8; 0x83; 0xb3; 0xea; 0xbc; 0xc5] |}.

Definition testnet : Network :=
  {| genesis_nonce := 5;
     expected_genesis_hash :=
       [0xed; 0x1b; 0x1e; 0x5d; 0x6d; 0x0b; 0x34; 0xd2; 0x58; 0xb9; 0x25; 0x18; 0x66; 0x51; 0x63; 0xc1;
        0xb1; 0x23; 0xb8; 0xc7; 0xdb; 0x33; 0x4a; 0x8d; 0x0b; 0x3b; 0x81; 0x3e; 0xcb; 0x21; 0xa2; 0x44] |}.

Definition devnet : Network :=
  {| genesis_nonce := 6;
     expected_genesis_hash :=
       [0x15; 0xae; 0x31; 0x7b; 0x08; 0xe1; 0xa1; 0x73; 0x91; 0xd1; 0x8d; 0x48; 0x1e; 0xc0; 0x0d; 0x3d;
        0x84; 0xbf; 0x4e; 0x1c; 0xfa; 0x82; 0xa7; 0x8a; 0xef; 0xda; 0x80; 0x6d; 0x8a; 0x7a; 0x6a; 0x54] |}.

Inductive GenesisError := GenesisEncoding (e : CodecError) | HashMismatch | GenesisLedger (e : Failure).

(** [block.header.nonce = nonce]. *)
Definition with_nonce (b : Block) (nonce : Z) : Block :=
  {| header := {| previous_hash := previous_hash (header b); h_merkle_root := h_merkle_root (header b);
                  h_state_root := h_state_root (header b); target_bits := target_bits (header b);
                  block_weight := block_weight (header b); h_nonce := nonce |};
     height := height b; body := body b |}.

Section genesis.
Context `{Sha3} `{Argon2} `{SignatureBackend} `{RootTest}.

Definition genesis_block (network : Network) : result GenesisError Block :=
  block ← map_err GenesisEncoding Block.genesis;
  let block := with_nonce block (genesis_nonce network) in
  fail_if negb (bool_decide (block_hash block = expected_genesis_hash network)) with HashMismatch;
  Ok block.

Definition genesis_hash (network : Network) : result GenesisError Hash :=
  block ← genesis_block network; Ok (block_hash block).

(** [ChainContext] holds the genesis hash. *)
Definition chain_context (network : Network) : result GenesisError Hash := genesis_hash network.

Definition genesis_ledger (network : Network) : result GenesisError Ledger :=
  block ← genesis_block network;
  match apply_genesis ledger_consensus_error (expected_genesis_hash network) block ledger_new with
  | (ledger, Ok _) => Ok ledger
  | (_, Err e) => Err (GenesisLedger e)
  end.

(** ** The first block is admitted *)

Lemma genesis_block_Ok network b :
  genesis_block network = Ok b ->
  block_hash b = expected_genesis_hash network /\
  exists g, Block.genesis = Ok g /\ b = with_nonce g (genesis_nonce network).
Proof.
  unfold genesis_block. intros Hb. apply bind_Ok in Hb as (g & Hg%map_err_Ok_inv & Hb).
  apply guard_err_Ok in Hb as [Hh [= <-]]. case_bool_decide; [|done]. eauto.
Qed.

(** The first block of a network, whatever its nonce and whatever the
    applications of the node, is executed on a new ledger: it carries nothing,
    and the root of the empty state is the zero in its header. *)
Lemma genesis_executes applications n :
  exists x, execute_block (with_applications applications ledger_new) (with_nonce (ok_block Block.genesis) n)
              = Returned (Ok x) /\
    x_block_weight x = block_weight (header (with_nonce (ok_block Block.genesis) n)) /\
    x_state_root x = h_state_root (header (with_nonce (ok_block Block.genesis) n)) /\
    same_tables (x_state x) ledger_state_new.
Proof.
  assert (match execute_block (with_applications applications ledger_new)
            (with_nonce (ok_block Block.genesis) n) with
    | Returned (Ok x) =>
        x_block_weight x = block_weight (header (with_nonce (ok_block Block.genesis) n)) /\
        x_state_root x = h_state_root (header (with_nonce (ok_block Block.genesis) n)) /\
        same_tables (x_state x) ledger_state_new
    | _ => False end) as Hx by (vm_compute; by repeat split).
  destruct (execute_block _ _) as [[x|]|]; [|done..]. by exists x.
Qed.

Lemma genesis_applies applications n :
  let b := with_nonce (ok_block Block.genesis) n in
  exists l, apply_genesis ledger_consensus_error (block_hash b) b (with_applications applications ledger_new)
              = (l, Ok tt) /\ same_tables (g_state l) ledger_state_new.
Proof.
  intros b. unfold apply_genesis.
  change (has_blocks (consensus_chain (with_applications applications ledger_new))) with false. cbv iota.
  replace (validate_genesis_block b) with (Ok (E := ConsensusError) tt) by (vm_compute; reflexivity).
  rewrite decide_True by reflexivity.
  destruct (validate_for_apply b _ true None) as [v|] eqn:Hv; [|vm_compute in Hv; discriminate].
  apply validate_for_apply_block in Hv. cbn [commit_validated_block ledger_apply_state].
  unfold apply_validated_block. rewrite Hv.
  destruct (genesis_executes applications n) as (x & Hx & Hw & Hr & Hs). fold b in Hx, Hw, Hr.
  rewrite Hx, Hw, Hr, Z.eqb_refl, bool_decide_eq_true_2 by done. cbn [negb].
  assert (match insert_block b chain_new with Ok _ => True | Err _ => False end) as Hi by (vm_compute; exact I).
  cbn [with_applications g_chain ledger_new]. destruct (insert_block b chain_new) as [c|]; [|done].
  eexists. split; [reflexivity|]. exact Hs.
Qed.
End genesis.

Section start.
Context `{Sha3} {Hspec : Sha3Spec} `{Argon2} `{SignatureBackend} `{RootTest} {Hroot : RootTestSpec}.

(** (C38) A node can always start.  Where the constructed first block has the frozen
    hash of the network, the genesis ledger exists: it is a sound ledger whose
    chain is that one header, whose context is the frozen hash, which holds no
    coin, asset or program, and whose state has the root the header commits
    to; otherwise the mismatch is reported and no ledger is made. *)
Theorem genesis_ledger_starts network :
  match genesis_block network with
  | Ok b => block_hash b = expected_genesis_hash network /\
      chain_context network = Ok (expected_genesis_hash network) /\
      exists l, genesis_ledger network = Ok l /\ ledger_ok [header b] l /\
        g_context l = Some (expected_genesis_hash network) /\
        same_tables (g_state l) ledger_state_new /\
        ledger_state_root l = Ok (h_state_root (header b))
  | Err e => e = HashMismatch /\ genesis_ledger network = Err HashMismatch
  end.
Proof using Hspec Hroot.
  assert (Block.genesis = Ok (ok_block Block.genesis)) as Hg by (vm_compute; reflexivity).
  unfold chain_context, genesis_hash, genesis_ledger. destruct (genesis_block network) as [b|e] eqn:Hb.
  - pose proof (genesis_block_Ok _ _ Hb) as (Hh & g & Hg' & Hbg).
    assert (g = ok_block Block.genesis) as -> by congruence.
    cbn [mbind result_mbind]. rewrite Hh. split_and!; [done|done|].
    destruct (genesis_applies default_applications (genesis_nonce network)) as (l & Ha & Hs).
    rewrite <- Hbg, Hh in Ha. change (with_applications default_applications ledger_new) with ledger_new in Ha.
    rewrite Ha. exists l.
    assert (ledger_ok [] ledger_new) as Hnew.
    { split; [apply chain_of_new| |done]. apply past_new; [apply new_state_ok|vm_compute; reflexivity]. }
    assert (ledger_ok [header b] l) as Hl.
    { unfold apply_genesis in Ha. change (has_blocks (consensus_chain ledger_new)) with false in Ha.
      destruct (validate_genesis_block b); [|done]. destruct (decide _); [|done].
      destruct (validate_for_apply _ _ _ _) as [v|] eqn:Hv; [|done].
      apply validate_for_apply_block in Hv. subst b. rewrite <- Hv in *.
      destruct (apply_block_spec [] ledger_new v l (Ok tt) Hnew) as (js & _ & Hl' & _); [| |exact Ha|exact Hl'].
      - unfold block_ops_ok. rewrite Hv.
        replace (b_operations (body (with_nonce _ _))) with (@nil BlockOperation) by (vm_compute; reflexivity).
        constructor.
      - rewrite Hv. vm_compute. discriminate. }
    split_and!; [done|done| |done|].
    + rewrite (lo_context _ _ Hl). cbn. by rewrite <- Hh.
    + apply (past_ok _ _ _ (lo_past _ _ Hl)).
  - unfold genesis_block in Hb. rewrite Hg in Hb. cbn [map_err mbind result_mbind] in Hb.
    unfold guard_err in Hb. case_match; [|done]. injection Hb as <-. done.
Qed.
End start.

(** ** A network with the frozen hash of its first block *)

Section example.
#[local] Existing Instance toy_sha3.
#[local] Existing Instance toy_sha3_spec.
#[local] Existing Instance toy_argon2.
#[local] Existing Instance accept_all.
#[local] Existing Instance toy_roots.
#[local] Existing Instance no_roots_spec.

Definition sample_network : Network :=
  {| genesis_nonce := 4; expected_genesis_hash := block_hash (with_nonce (ok_block Block.genesis) 4) |}.

Lemma genesis_ledger_starts_witness :
  exists b l, genesis_ledger sample_network = Ok l /\ ledger_ok [header b] l /\
    g_context l = Some (expected_genesis_hash sample_network).
Proof.
  pose proof (genesis_ledger_starts sample_network) as Hs.
  destruct (genesis_block sample_network) as [b|e] eqn:Hb.
  - destruct Hs as (_ & _ & l & Hl & Hok & Hc & _). exists b, l. split; [exact Hl|]. split; [exact Hok|exact Hc].
  - exfalso. vm_compute in Hb. discriminate Hb.
Defined.
End example.
