(* ===== verification/ChainSpec.v ===== *)
(** * The identity of the chain's rules

    Models [chain_spec_hash] of [kernel/src/genesis/mod.rs]: every parameter the
    nodes of a network must agree on, as one struct whose hash peers compare and
    databases store, and the identity of the rules before assets had several
    outputs per transfer, which a database may still carry. *)

From S2P Require Import Prelude Target Codec Monetary Index Coin Vm Registry Calls Wire Authorize Policy Block Chain Consensus.
From S2P Require Import Assets State StateRoot CoinHost AssetHost Settlement Engine Apply Ledger Genesis.
From stdpp Require Import strings.
#[local] Open Scope Z_scope.
#[local] Open Scope string_scope.
#[local] Open Scope list_scope.

Definition CHAIN_SPEC_VERSION : Z := 3.
Definition POW_ALGORITHM : list Z := ascii_bytes "xparq-argon2id-algorithm".
Definition DIFFICULTY_ALGORITHM : list Z := ascii_bytes "argon2id-wbda-algorithm".
Definition STATE_BURN_ALGORITHM : list Z :=
  ascii_bytes "xparq-canonical-archival-and-net-coin-state-growth-burn".
Definition PROGRAM_ID_SIZE : Z := Z.of_nat HASH_SIZE.

Definition ALL : list AccountSignatureScheme :=
  [MlDsa44; MlDsa65; MlDsa87; SlhDsaShake128s; SlhDsaShake192s; SlhDsaShake256s].

Record ChainSpecIdentity := {
  cs_version : Z;
  cs_genesis_hash : list Z;
  cs_pow_algorithm : list Z;
  cs_pow_memory_kib : Z;
  cs_pow_iterations : Z;
  cs_pow_lanes : Z;
  cs_target_algorithm : list Z;
  cs_genesis_target_bits : Z;
  cs_target_bits_start : Z;
  cs_wbda_window : Z;
  cs_wbda_target_block_weight : Z;
  cs_wbda_low_utilization_ppm : Z;
  cs_wbda_high_utilization_ppm : Z;
  cs_block_emission_start : Z;
  cs_emission_rising_steps : Z;
  cs_emission_interval : Z;
  cs_tail_block_emission : Z;
  cs_fote_activation_height : Z;
  cs_tail_emission_rule : list Z;
  cs_state_burn_algorithm : list Z;
  cs_state_burn_rate_zeno_per_weight : Z;
  cs_block_state_weight : Z;
  cs_coin_utxo_state_weight : Z;
  cs_max_block_size : Z;
  cs_max_block_transactions : Z;
  cs_max_transaction_size : Z;
  cs_max_transaction_items : Z;
  cs_block_accounting_rule : list Z;
  cs_program_id_size : Z;
  cs_program_id_encoding : list Z;
  cs_hash_size : Z;
  cs_native_coin_contract : list Z;
  cs_extension_asset_program : list Z;
  cs_transaction_format : list Z;
  cs_ownership_model : list Z;
  cs_account_signature_schemes : list Z;
  cs_slh_signature_profile : list Z;
  cs_monetary_call_format : list Z;
  cs_application_state_format : list Z;
  cs_vm_bytecode_format : list Z;
  cs_max_vm_code_size : Z;
  cs_max_vm_stack_items : Z;
  cs_max_vm_memory_pages : Z;
  cs_vm_application_limits : list Z;
  cs_vm_call_format : list Z;
  cs_vm_instruction_cost : Z;
  cs_vm_memory_page_cost : Z;
  cs_vm_state_read_cost : Z;
  cs_vm_state_write_cost : Z;
  cs_vm_transfer_cost : Z;
  cs_vm_asset_register_cost : Z;
  cs_vm_asset_mint_cost : Z;
  cs_max_vm_transfer_inputs : Z;
  cs_max_vm_call_fuel : Z;
  cs_program_instance_derivation : list Z;
  cs_deploy_authorization : list Z;
  cs_deploy_burn_rule : list Z;
}.

(** ** Its canonical bytes *)

(** A field as [derive(BorshSerialize)] sees it: an integer of so many bytes, a
    string, a byte array, or an array of [u64]. *)
Inductive Field := UInt (n : nat) (x : Z) | Str (s : list Z) | Bytes (n : nat) (l : list Z) | U64s (n : nat) (l : list Z).

Definition enc_field (f : Field) : list Z :=
  match f with
  | UInt n x => le_bytes n x
  | Str s => le_bytes 4 (Z.of_nat (length s)) ++ s
  | Bytes _ l => l
  | U64s _ l => concat (le_bytes 8 <$> l)
  end.

Definition identity_fields (VM_LIMITS : nat) (i : ChainSpecIdentity) : list Field :=
  [UInt 4 (cs_version i); Bytes HASH_SIZE (cs_genesis_hash i); Str (cs_pow_algorithm i);
   UInt 4 (cs_pow_memory_kib i); UInt 4 (cs_pow_iterations i); UInt 4 (cs_pow_lanes i);
   Str (cs_target_algorithm i); UInt 4 (cs_genesis_target_bits i);
   UInt 4 (cs_target_bits_start i); UInt 8 (cs_wbda_window i);
   UInt 8 (cs_wbda_target_block_weight i); UInt 8 (cs_wbda_low_utilization_ppm i);
   UInt 8 (cs_wbda_high_utilization_ppm i); UInt 8 (cs_block_emission_start i);
   UInt 8 (cs_emission_rising_steps i); UInt 8 (cs_emission_interval i);
   UInt 8 (cs_tail_block_emission i); UInt 8 (cs_fote_activation_height i);
   Str (cs_tail_emission_rule i); Str (cs_state_burn_algorithm i);
   UInt 8 (cs_state_burn_rate_zeno_per_weight i); UInt 8 (cs_block_state_weight i);
   UInt 8 (cs_coin_utxo_state_weight i); UInt 8 (cs_max_block_size i);
   UInt 8 (cs_max_block_transactions i); UInt 8 (cs_max_transaction_size i);
   UInt 8 (cs_max_transaction_items i); Str (cs_block_accounting_rule i);
   UInt 4 (cs_program_id_size i); Str (cs_program_id_encoding i); UInt 4 (cs_hash_size i);
   Bytes HASH_SIZE (cs_native_coin_contract i); Str (cs_extension_asset_program i);
   Str (cs_transaction_format i); Str (cs_ownership_model i);
   Bytes 6 (cs_account_signature_schemes i); Str (cs_slh_signature_profile i);
   Str (cs_monetary_call_format i); Str (cs_application_state_format i);
   Str (cs_vm_bytecode_format i); UInt 8 (cs_max_vm_code_size i);
   UInt 2 (cs_max_vm_stack_items i); UInt 2 (cs_max_vm_memory_pages i);
   U64s VM_LIMITS (cs_vm_application_limits i); Str (cs_vm_call_format i);
   UInt 8 (cs_vm_instruction_cost i); UInt 8 (cs_vm_memory_page_cost i);
   UInt 8 (cs_vm_state_read_cost i); UInt 8 (cs_vm_state_write_cost i);
   UInt 8 (cs_vm_transfer_cost i); UInt 8 (cs_vm_asset_register_cost i);
   UInt 8 (cs_vm_asset_mint_cost i); UInt 8 (cs_max_vm_transfer_inputs i);
   UInt 8 (cs_max_vm_call_fuel i); Str (cs_program_instance_derivation i);
   Str (cs_deploy_authorization i); Str (cs_deploy_burn_rule i)].

Definition identity_bytes (VM_LIMITS : nat) (i : ChainSpecIdentity) : list Z :=
  concat (enc_field <$> identity_fields VM_LIMITS i).

Definition chain_spec_identity (network : Network) (version : Z) (vm_bytecode_format : list Z)
    (vm_application_limits : list Z) : ChainSpecIdentity :=
  {| cs_version := version;
     cs_genesis_hash := expected_genesis_hash network;
     cs_pow_algorithm := POW_ALGORITHM;
     cs_pow_memory_kib := POW_ARGON2_MEMORY_KIB;
     cs_pow_iterations := POW_ARGON2_ITERATIONS;
     cs_pow_lanes := POW_ARGON2_LANES;
     cs_target_algorithm := DIFFICULTY_ALGORITHM;
     cs_genesis_target_bits := GENESIS_TARGET_BITS;
     cs_target_bits_start := TARGET_BITS_START;
     cs_wbda_window := WBDA_WINDOW;
     cs_wbda_target_block_weight := WBDA_TARGET_BLOCK_WEIGHT;
     cs_wbda_low_utilization_ppm := WBDA_LOW_UTILIZATION_PPM;
     cs_wbda_high_utilization_ppm := WBDA_HIGH_UTILIZATION_PPM;
     cs_block_emission_start := BLOCK_EMISSION_START;
     cs_emission_rising_steps := EMISSION_RISING_STEPS;
     cs_emission_interval := EMISSION_INTERVAL;
     cs_tail_block_emission := TAIL_BLOCK_EMISSION;
     cs_fote_activation_height := FOTE_ACTIVATION_HEIGHT;
     cs_tail_emission_rule := ascii_bytes "fee-offset-net-tail-v1";
     cs_state_burn_algorithm := STATE_BURN_ALGORITHM;
     cs_state_burn_rate_zeno_per_weight := STATE_BURN_RATE_ZENO_PER_BYTE;
     cs_block_state_weight := EMPTY_BLOCK_ARCHIVAL_BYTES;
     cs_coin_utxo_state_weight := COIN_UTXO_STATE_WEIGHT;
     cs_max_block_size := MAX_BLOCK_SIZE;
     cs_max_block_transactions := MAX_BLOCK_OPERATIONS;
     cs_max_transaction_size := MAX_PROGRAM_INVOCATION_SIZE;
     cs_max_transaction_items := MAX_PROGRAM_ITEMS;
     cs_block_accounting_rule := ascii_bytes "coin-utxo-delta-v1";
     cs_program_id_size := PROGRAM_ID_SIZE;
     cs_program_id_encoding := ascii_bytes "program-id-32-byte-hex-64";
     cs_hash_size := Z.of_nat HASH_SIZE;
     cs_native_coin_contract := coin_contract;
     cs_extension_asset_program := ascii_bytes "xparq-unified-monetary-program-v1";
     cs_transaction_format :=
       ascii_bytes "program-id-salted-signature-proof-payment-and-monetary-v3";
     cs_ownership_model := ascii_bytes "program-only-tag0-signature-policy-v2-scheme-key-salt32-v3";
     cs_account_signature_schemes := scheme_id <$> ALL;
     cs_slh_signature_profile :=
       ascii_bytes "fips205-pure-shake-s-empty-context-deterministic-wallet-seed32-shake256-XPARQ_SLH_DSA_KEYGEN_V1-scheme-seed";
     cs_monetary_call_format :=
       ascii_bytes "route0-transfer1-create2-mint3-burn4-currency0coin1asset-denycoinburn-legacyassetroute1";
     cs_application_state_format :=
       ascii_bytes "program-owned-coin-asset-share32-and-versioned-program-kv-state-v5";
     cs_vm_bytecode_format := vm_bytecode_format;
     cs_max_vm_code_size := MAX_PROGRAM_CODE_SIZE;
     cs_max_vm_stack_items := MAX_STACK_ITEMS;
     cs_max_vm_memory_pages := MAX_MEMORY_PAGES;
     cs_vm_application_limits := vm_application_limits;
     cs_vm_call_format := ascii_bytes "program-id-2-opcode-0-id-or-opcode-1-id-data-v2";
     cs_vm_instruction_cost := INSTRUCTION_COST;
     cs_vm_memory_page_cost := MEMORY_PAGE_COST;
     cs_vm_state_read_cost := STATE_READ_COST;
     cs_vm_state_write_cost := STATE_WRITE_COST;
     cs_vm_transfer_cost := TRANSFER_COST;
     cs_vm_asset_register_cost := ASSET_REGISTER_COST;
     cs_vm_asset_mint_cost := ASSET_MINT_COST;
     cs_max_vm_transfer_inputs := Z.of_nat MAX_TRANSFER_INPUTS;
     cs_max_vm_call_fuel := MAX_CALL_FUEL;
     cs_program_instance_derivation :=
       ascii_bytes "xparq:program-id:v2-program-principal-nonce-code-hash";
     cs_deploy_authorization := ascii_bytes "xparq:deploy-program:v1";
     cs_deploy_burn_rule := ascii_bytes "operation-bytes-plus-registry-growth-v1" |}.

Definition vm_limits : list Z :=
  [MAX_DATA_BYTES; MAX_KEY_BYTES; MAX_STORAGE_ENTRIES; MAX_STORAGE_BYTES; MAX_CALL_DEPTH; MAX_CALLS;
   MAX_ACTIONS; CALL_COST; APPLICATION_VERSION; MAX_CODE_BYTES; MAX_INSTRUCTIONS].

Section hash.
Context `{Sha3}.

Definition chain_spec_hash (network : Network) : Hash :=
  domain ChainSpec (identity_bytes 12 (chain_spec_identity network CHAIN_SPEC_VERSION
    (ascii_bytes "xpvm-v1-v2-v3-v4-typed-applications-metered-calls-asset-multioutput-v2")
    (vm_limits ++ [MAX_ASSET_TRANSFER_OUTPUTS]))).

Definition pre_asset_multioutput_chain_spec_hash (network : Network) : Hash :=
  domain ChainSpec (identity_bytes 11 (chain_spec_identity network 2
    (ascii_bytes "xpvm-v1-v2-v3-v4-typed-applications-metered-calls-v1") vm_limits)).
End hash.

(** ** The bytes determine the identity *)

(** What the field's type can hold. *)
Definition field_ok (f : Field) : Prop :=
  match f with
  | UInt n x => 0 <= x < 256 ^ Z.of_nat n
  | Str s => Z.of_nat (length s) < 2 ^ 32
  | Bytes n l => length l = n
  | U64s n l => length l = n /\ Forall (fun x => 0 <= x < 2 ^ 64) l
  end.

Definition same_type (f g : Field) : Prop :=
  match f, g with
  | UInt n _, UInt m _ | Bytes n _, Bytes m _ | U64s n _, U64s m _ => n = m
  | Str _, Str _ => True
  | _, _ => False
  end.

Lemma uint_prefix n x y a b :
  0 <= x < 256 ^ Z.of_nat n -> 0 <= y < 256 ^ Z.of_nat n ->
  le_bytes n x ++ a = le_bytes n y ++ b -> x = y /\ a = b.
Proof. intros Hx Hy. by apply (w_prefix_inj (wire_uint n)). Qed.

Lemma u64s_prefix l1 : forall l2 a b,
  length l1 = length l2 -> Forall (fun x => 0 <= x < 2 ^ 64) l1 -> Forall (fun x => 0 <= x < 2 ^ 64) l2 ->
  concat (le_bytes 8 <$> l1) ++ a = concat (le_bytes 8 <$> l2) ++ b -> l1 = l2 /\ a = b.
Proof.
  induction l1 as [|x l1 IH]; intros [|y l2] a b Hl H1 H2 Heq; try done.
  inversion H1; inversion H2; subst. cbn [fmap list_fmap concat] in Heq. rewrite <- !app_assoc in Heq.
  apply uint_prefix in Heq as [-> Heq]; [|done..]. apply IH in Heq as [-> ->]; [done| |done..].
  by injection Hl.
Qed.

Lemma field_prefix f g a b :
  same_type f g -> field_ok f -> field_ok g -> enc_field f ++ a = enc_field g ++ b -> f = g /\ a = b.
Proof.
  destruct f, g; cbn [same_type field_ok enc_field]; try done.
  - intros -> Hx Hy Heq. by apply uint_prefix in Heq as [-> ->].
  - intros _ Hs Ht Heq. rewrite <- !app_assoc in Heq. apply uint_prefix in Heq as [Hl Heq]; [|lia..].
    apply app_inj_1 in Heq as [-> ->]; [done|lia].
  - intros -> Hl Hm Heq. apply app_inj_1 in Heq as [-> ->]; [done|congruence].
  - intros -> [Hl Hf] [Hm Hg] Heq. apply u64s_prefix in Heq as [-> ->]; [done|congruence|done..].
Qed.

Lemma fields_inj l1 l2 :
  Forall2 same_type l1 l2 -> Forall field_ok l1 -> Forall field_ok l2 ->
  concat (enc_field <$> l1) = concat (enc_field <$> l2) -> l1 = l2.
Proof.
  induction 1 as [|f g l1 l2 Ht _ IH]; intros H1 H2 Heq; [done|].
  inversion H1; inversion H2; subst. apply field_prefix in Heq as [-> Heq]; [|done..].
  f_equal. by apply IH.
Qed.

Lemma identity_fields_inj n i1 i2 : identity_fields n i1 = identity_fields n i2 -> i1 = i2.
Proof.
  destruct i1, i2. unfold identity_fields. cbn. intros Heq.
  repeat (apply cons_eq_inj in Heq; destruct Heq as [Hf Heq]; injection Hf as Hf; try subst).
  reflexivity.
Qed.

Definition identity_ok (n : nat) (i : ChainSpecIdentity) : Prop := Forall field_ok (identity_fields n i).

Lemma identity_bytes_inj n i1 i2 :
  identity_ok n i1 -> identity_ok n i2 -> identity_bytes n i1 = identity_bytes n i2 -> i1 = i2.
Proof.
  intros H1 H2 Heq. apply (identity_fields_inj n), fields_inj; [|done..].
  unfold identity_fields. repeat constructor.
Qed.

(** The constants fit the types of their fields. *)
Lemma chain_spec_identity_ok network version format limits :
  length (expected_genesis_hash network) = HASH_SIZE -> 0 <= version < 2 ^ 32 ->
  Z.of_nat (length format) < 2 ^ 32 -> Forall (fun x => 0 <= x < 2 ^ 64) limits ->
  identity_ok (length limits) (chain_spec_identity network version format limits).
Proof.
  intros Hg Hv Hf Hl. unfold identity_ok, identity_fields. cbn.
  repeat (apply Forall_cons_2); try done; cbn [field_ok]; try done; vm_compute; by split.
Qed.

Section identifies.
Context `{Sha3}.

Lemma vm_limits_ok : Forall (fun x => 0 <= x < 2 ^ 64) (vm_limits ++ [MAX_ASSET_TRANSFER_OUTPUTS]).
Proof. repeat (constructor; [vm_compute; by split|]). constructor. Qed.

(** Peers that compare chain-spec hashes agree on the rules, unless SHA3
    collides: any two identities of the same shape with one hash are equal in
    every parameter, two networks with one hash have the same genesis block,
    and no network has the hash of the rules before asset multioutput. *)
Theorem chain_spec_identifies n1 n2 :
  length (expected_genesis_hash n1) = HASH_SIZE -> length (expected_genesis_hash n2) = HASH_SIZE ->
  (forall VM_LIMITS i1 i2, identity_ok VM_LIMITS i1 -> identity_ok VM_LIMITS i2 ->
     domain ChainSpec (identity_bytes VM_LIMITS i1) = domain ChainSpec (identity_bytes VM_LIMITS i2) ->
     i1 = i2 \/ sha3_collision) /\
  (chain_spec_hash n1 = chain_spec_hash n2 ->
     expected_genesis_hash n1 = expected_genesis_hash n2 \/ sha3_collision) /\
  (chain_spec_hash n1 = pre_asset_multioutput_chain_spec_hash n2 -> sha3_collision).
Proof.
  intros H1 H2. split_and!.
  - intros k i1 i2 Hi1 Hi2 [Heq|]%domain_inj; [left|by right]. by eapply identity_bytes_inj.
  - intros [Heq|]%domain_inj; [left|by right].
    apply (identity_bytes_inj 12) in Heq; [by apply (f_equal cs_genesis_hash) in Heq| |];
      apply (chain_spec_identity_ok _ _ _ (vm_limits ++ [MAX_ASSET_TRANSFER_OUTPUTS]));
      [done|done|done|apply vm_limits_ok|done|done|done|apply vm_limits_ok].
  - intros [Heq|]%domain_inj; [|done]. exfalso. unfold identity_bytes, identity_fields in Heq.
    cbn [fmap list_fmap concat] in Heq. apply (uint_prefix 4) in Heq as [Heq _]; [done|vm_compute; by split..].
Qed.
End identifies.

Lemma chain_spec_identifies_witness :
  (@chain_spec_hash toy_sha3 mainnet = @chain_spec_hash toy_sha3 testnet ->
     expected_genesis_hash mainnet = expected_genesis_hash testnet \/ @sha3_collision toy_sha3) /\
  (@chain_spec_hash toy_sha3 mainnet = @pre_asset_multioutput_chain_spec_hash toy_sha3 mainnet ->
     @sha3_collision toy_sha3).
Proof.
  split; [exact (proj1 (proj2 (@chain_spec_identifies toy_sha3 mainnet testnet eq_refl eq_refl)))|].
  exact (proj2 (proj2 (@chain_spec_identifies toy_sha3 mainnet mainnet eq_refl eq_refl))).
Defined.
