(* ===== verification/Mempool.v ===== *)
(** * The pending pool

    Models [runtime/src/node/mempool.rs]: operations waiting for a block, in
    the order they were admitted.  A node keeps the committed bytes of the pool
    in its database, the decoded pool with the state its operations lead to in
    a cache, and the errors of operations it has refused.

    The database is one table of byte strings that a transaction replaces as a
    whole or not at all; the argument [disk] of the functions that write says
    whether the transaction commits.  A process serves one database, so the
    path kept with a cache is left out, and the node's locks make every
    function here one step; the admission gate that turns callers away when too
    many wait is left out.  Error messages are constructors. *)

From S2P Require Import Prelude Codec Monetary Index Coin Vm Registry Calls Wire Authorize Policy Block Chain Consensus.
From S2P Require Import Assets State StateRoot CoinHost AssetHost Settlement Engine Apply Ledger Genesis.
#[local] Open Scope Z_scope.

Definition MAX_STORED_TRANSACTION_SIZE : Z := MAX_PROGRAM_INVOCATION_SIZE.
Definition MAX_STORED_MEMPOOL_SIZE : Z := 64 * 1024 * 1024.
Definition MAX_GOSSIP_INVENTORY_ITEMS : Z := 1024.
Definition MAX_MEMPOOL_TRANSACTIONS : Z := MAX_GOSSIP_INVENTORY_ITEMS.
Definition MIN_RELAY_FEE_ZENO_PER_BYTE : Z := 8.

Definition PROGRAM_ID_ZERO : ProgramId := replicate HASH_SIZE 0.

Inductive NodeError :=
| NodeCodec (e : CodecError) | RelaySizeOverflow | DuplicatePending | MempoolSizeOverflow
| MempoolOverLimit | PendingCount | StoredMempoolOverflow | StoredMempoolOverLimit | StoredOperationSize | UndecodableOperation
| InvalidPending (e : OperationError) | OperationTooLarge | OperationOverBlock | CallTooLarge | RelayFeeTooLow
| RelayFeeOverflow | AlreadyPending | NodeGenesis (e : GenesisError) | NodeLedger (e : Failure)
| TransactionSize | InvalidTransaction (e : IntentError) | DiskError | NodeConsensus (e : ConsensusError)
| NodeEmission (e : EmissionError) | MissingTip | StaleCandidate | BurnDecreased
| InvalidCandidate (e : BlockError) | InvalidCall (e : LedgerError) | NodeRoot (e : LedgerError).

(** ** Entries *)

Record PendingEntry := {
  pe_operation : BlockOperation;
  pe_bytes : list Z;
  pe_id : Hash;
  pe_relay_size : Z;
}.

(** [canonical_bytes(&AuthorizedProgramEnvelope::Program(call))]. *)
Definition envelope_bytes (call : AuthorizedProgramInvocation) : result CodecError (list Z) :=
  if encodable (ai_authorization call) then Ok (0 :: w_enc wire_invocation call) else Err EncodeFailed.

Definition minimum_relay_fee (encoded_size : Z) : result NodeError Z :=
  ok_or (size ← try_from 64 encoded_size; checked_mul 64 size MIN_RELAY_FEE_ZENO_PER_BYTE)
    RelayFeeOverflow.

Definition validate_relay_entry (entry : PendingEntry) : result NodeError unit :=
  fail_if MAX_OPERATION_SIZE <? Z.of_nat (length (pe_bytes entry)) with OperationTooLarge;
  let fee := operation_fee (pe_operation entry) in
  fail_if (match pe_operation entry with OpProgramCall _ => true | OpDeployProgram _ => false end)
          && (MAX_STORED_TRANSACTION_SIZE <? pe_relay_size entry) with CallTooLarge;
  minimum ← minimum_relay_fee (pe_relay_size entry);
  fail_if fee <? minimum with RelayFeeTooLow;
  Ok tt.

Definition pending_relay_size (operation : BlockOperation) : result NodeError Z :=
  match operation with
  | OpProgramCall call =>
      bytes ← map_err NodeCodec (envelope_bytes call);
      let size := Z.of_nat (length bytes) in
      fail_if MAX_STORED_TRANSACTION_SIZE <? size with CallTooLarge;
      Ok size
  | OpDeployProgram _ =>
      bytes ← map_err NodeCodec (operation_bytes operation);
      Ok (Z.of_nat (length bytes))
  end.

#[global] Instance CoinCharges_eq_dec : EqDecision CoinCharges.
Proof. solve_decision. Defined.

#[global] Instance CoinTransition_eq_dec : EqDecision CoinTransition.
Proof. solve_decision. Defined.

#[global] Instance DeployProgram_eq_dec : EqDecision DeployProgram.
Proof. solve_decision. Defined.

#[global] Instance AccountAuthorization_eq_dec : EqDecision AccountAuthorization.
Proof. solve_decision. Defined.

#[global] Instance AuthorizedProgramInvocation_eq_dec : EqDecision AuthorizedProgramInvocation.
Proof. solve_decision. Defined.

#[global] Instance AuthorizedDeployProgram_eq_dec : EqDecision AuthorizedDeployProgram.
Proof. solve_decision. Defined.

#[global] Instance BlockOperation_eq_dec : EqDecision BlockOperation.
Proof. solve_decision. Defined.

(** ** The pool *)

(** The tip and the state root a pool was validated on. *)
Definition PendingAnchor : Type := option Hash * Hash.

Record ValidatedPendingState := { vp_anchor : PendingAnchor; vp_state : LedgerState }.

Record PendingPool := {
  pp_entries : list PendingEntry;
  pp_ids : gset Hash;
  pp_total_bytes : Z;
  pp_fingerprint : Hash;
  pp_validated : option ValidatedPendingState;
}.

Definition pool_default : PendingPool :=
  {| pp_entries := []; pp_ids := ∅; pp_total_bytes := 0; pp_fingerprint := replicate HASH_SIZE 0;
     pp_validated := None |}.

Definition set_validated (v : option ValidatedPendingState) (p : PendingPool) : PendingPool :=
  {| pp_entries := pp_entries p; pp_ids := pp_ids p; pp_total_bytes := pp_total_bytes p;
     pp_fingerprint := pp_fingerprint p; pp_validated := v |}.

Definition matches (self : PendingPool) (raw : list (list Z)) : bool :=
  (length (pp_entries self) =? length raw)%nat
  && forallb (fun '(entry, bytes) => bool_decide (pe_bytes entry = bytes)) (zip (pp_entries self) raw).

(** ** Refused operations *)

Definition RejectionKey : Type := PendingAnchor * Hash * Hash.

Record Rejections := { rj_errors : gmap RejectionKey NodeError; rj_order : list RejectionKey }.

Definition rejections_default : Rejections := {| rj_errors := ∅; rj_order := [] |}.

Definition REJECTIONS_CAPACITY : Z := 256.

Definition rejections_insert (key : RejectionKey) (error : NodeError) (self : Rejections) : Rejections :=
  if bool_decide (is_Some (rj_errors self !! key)) then self
  else
    let '(errors, order) :=
      if Z.of_nat (length (rj_order self)) =? REJECTIONS_CAPACITY then
        match rj_order self with
        | oldest :: order => (delete oldest (rj_errors self), order)
        | [] => (rj_errors self, [])
        end
      else (rj_errors self, rj_order self) in
    {| rj_errors := <[key := error]> errors; rj_order := order ++ [key] |}.

(** ** Reading and writing the table *)

Definition stored_total (raw : list (list Z)) (overflow : NodeError) : result NodeError Z :=
  try_fold (fun sum bytes => ok_or (checked_add 64 sum (Z.of_nat (length bytes))) overflow) raw 0.

Definition encode_pending_operations (pending : list BlockOperation)
    : result NodeError (list (list Z)) :=
  encoded ← collect (fun operation => map_err NodeCodec (operation_bytes operation)) pending;
  total ← stored_total encoded MempoolSizeOverflow;
  fail_if (MAX_STORED_MEMPOOL_SIZE <? total)
          || (MAX_MEMPOOL_TRANSACTIONS <? Z.of_nat (length pending)) with MempoolOverLimit;
  Ok encoded.

Definition reserved_coin_inputs (operations : list BlockOperation) : gset CoinShare :=
  list_to_set (operations ≫= fun operation =>
    match operation with
    | OpProgramCall call => ct_inputs (ai_payment call)
    | OpDeployProgram deploy => ct_inputs (ad_payment deploy)
    end).

(** The height of the next block. *)
Definition next_height (c : Chain) : Z :=
  match tip_height c with Some h => saturating_add 64 h 1 | None => 0 end.

Record Node := {
  nd_ledger : Ledger;
  nd_stored : list (list Z);
  nd_cache : option PendingPool;
  nd_rejections : Rejections;
}.

Section mempool.
Context `{Sha3} `{Argon2} `{SignatureBackend} `{RootTest}.
Context (network : Network).

Definition entry_new (operation : BlockOperation) : result NodeError PendingEntry :=
  bytes ← map_err NodeCodec (operation_bytes operation);
  let id := domain Operation bytes in
  relay_size ←
    match operation with
    | OpProgramCall call =>
        legacy ← map_err NodeCodec (envelope_bytes call);
        ok_or (try_from 64 (Z.of_nat (length legacy))) RelaySizeOverflow
    | OpDeployProgram _ => Ok (Z.of_nat (length bytes))
    end;
  Ok {| pe_operation := operation; pe_bytes := bytes; pe_id := id; pe_relay_size := relay_size |}.

Definition push (entry : PendingEntry) (self : PendingPool) : result NodeError PendingPool :=
  fail_if bool_decide (pe_id entry ∈ pp_ids self) with DuplicatePending;
  total ← ok_or (checked_add 64 (pp_total_bytes self) (Z.of_nat (length (pe_bytes entry))))
            MempoolSizeOverflow;
  fail_if (MAX_STORED_MEMPOOL_SIZE <? total)
          || (MAX_MEMPOOL_TRANSACTIONS <=? Z.of_nat (length (pp_entries self))) with MempoolOverLimit;
  Ok {| pp_entries := pp_entries self ++ [entry]; pp_ids := {[pe_id entry]} ∪ pp_ids self;
        pp_total_bytes := total; pp_fingerprint := domain Raw (pp_fingerprint self ++ pe_id entry);
        pp_validated := None |}.

Definition load_entry (bytes : list Z) (pool : PendingPool) : result NodeError PendingPool :=
  fail_if (length bytes =? 0)%nat || (MAX_OPERATION_SIZE <? Z.of_nat (length bytes))
    with StoredOperationSize;
  operation ← ok_or (w_slice wire_operation bytes) UndecodableOperation;
  entry ← entry_new operation;
  push entry pool.

(** The pool in the table, and the cache afterwards. *)
Definition load_pending_pool (raw : list (list Z)) (cache : option PendingPool)
    : result NodeError (PendingPool * option PendingPool) :=
  total ← stored_total raw StoredMempoolOverflow;
  fail_if (MAX_STORED_MEMPOOL_SIZE <? total)
          || (MAX_MEMPOOL_TRANSACTIONS <? Z.of_nat (length raw)) with StoredMempoolOverLimit;
  match cache with
  | Some pending =>
      if matches pending raw then Ok (pending, cache)
      else
        pool ← try_fold (fun pool bytes => load_entry bytes pool) raw pool_default;
        Ok (pool, if matches pool raw then Some pool else cache)
  | None =>
      pool ← try_fold (fun pool bytes => load_entry bytes pool) raw pool_default;
      Ok (pool, if matches pool raw then Some pool else cache)
  end.

(** ** Validation by replay *)

Definition apply_pending_operation (operation : BlockOperation) (chain : Hash) (height : Z)
    (state : LedgerState) : LedgerState * Run NodeError unit :=
  let '(state, r) :=
    match operation with
    | OpProgramCall call =>
        apply_program_call call PROGRAM_ID_ZERO chain height extension_applications state
    | OpDeployProgram deploy =>
        apply_deploy deploy PROGRAM_ID_ZERO chain height extension_applications state
    end in
  (state, _ ← run_map_err InvalidCall r; mret tt).

Fixpoint replay_entries (chain : Hash) (height : Z) (entries : list PendingEntry) (state : LedgerState)
    : Run NodeError LedgerState :=
  match entries with
  | [] => mret state
  | entry :: entries =>
      _ ← run_lift (validate_relay_entry entry);
      let '(state, r) := apply_pending_operation (pe_operation entry) chain height state in
      _ ← r;
      replay_entries chain height entries state
  end.

Definition replay_pending_pool (ledger : Ledger) (pending : PendingPool) : Run NodeError LedgerState :=
  chain ← run_lift (map_err NodeGenesis (chain_context network));
  replay_entries chain (next_height (g_chain ledger)) (pp_entries pending) (g_state ledger).

Definition validate_pending_pool (ledger : Ledger) (pending : PendingPool) : Run NodeError unit :=
  _ ← replay_pending_pool ledger pending; mret tt.

Definition extend_pending_pool (ledger : Ledger) (current : PendingPool) (entry : PendingEntry)
    (anchor : PendingAnchor) : Run NodeError PendingPool :=
  pending ← run_lift (push entry current);
  state ←
    (match pp_validated current with
     | Some validated =>
         if decide (vp_anchor validated = anchor) then mret (vp_state validated)
         else replay_pending_pool ledger current
     | None => replay_pending_pool ledger current
     end : Run NodeError LedgerState);
  chain ← run_lift (map_err NodeGenesis (chain_context network));
  let '(state, r) :=
    apply_pending_operation (pe_operation entry) chain (next_height (g_chain ledger)) state in
  _ ← r;
  mret (set_validated (Some {| vp_anchor := anchor; vp_state := state |}) pending).

(** The entry of the cached pool at the same place is reused for the same
    operation. *)
Definition reusable_entry (cached : option PendingPool) (index : nat) (operation : BlockOperation)
    : option PendingEntry :=
  pool ← cached;
  entry ← pp_entries pool !! index;
  if decide (pe_operation entry = operation) then Some entry else None.

Fixpoint push_operations (cached : option PendingPool) (index : nat) (operations : list BlockOperation)
    (pending : PendingPool) : result NodeError PendingPool :=
  match operations with
  | [] => Ok pending
  | operation :: operations =>
      entry ← match reusable_entry cached index operation with
              | Some entry => Ok entry
              | None => entry_new operation
              end;
      pending ← push entry pending;
      push_operations cached (S index) operations pending
  end.

Definition validate_pending_operations (ledger : Ledger) (cached : option PendingPool)
    (operations : list BlockOperation) : Run NodeError unit :=
  _ ← run_require (Z.of_nat (length operations) <=? MAX_MEMPOOL_TRANSACTIONS) PendingCount;
  pending ← run_lift (push_operations cached 0 operations pool_default);
  validate_pending_pool ledger pending.

(** ** Admission *)

Definition with_pool (stored : list (list Z)) (cache : option PendingPool) (self : Node) : Node :=
  {| nd_ledger := nd_ledger self; nd_stored := stored; nd_cache := cache;
     nd_rejections := nd_rejections self |}.

Definition reject (key : RejectionKey) (error : NodeError) (self : Node) : Node :=
  {| nd_ledger := nd_ledger self; nd_stored := nd_stored self; nd_cache := nd_cache self;
     nd_rejections := rejections_insert key error (nd_rejections self) |}.

Definition anchor_of (ledger : Ledger) : result NodeError PendingAnchor :=
  root ← map_err NodeRoot (ledger_state_root ledger);
  Ok (tip_hash (g_chain ledger), root).

(** What precedes the lock: the operation as an entry that may be relayed. *)
Definition prepare_entry (operation : BlockOperation) : result NodeError PendingEntry :=
  _ ← map_err InvalidPending (operation_validate operation);
  entry ← entry_new operation;
  fail_if MAX_OPERATION_SIZE <? Z.of_nat (length (pe_bytes entry)) with OperationOverBlock;
  _ ← validate_relay_entry entry;
  Ok entry.

Definition insert_pending_operation (operation : BlockOperation) (duplicate_is_ok disk : bool)
    (self : Node) : Node * Run NodeError Hash :=
  match prepare_entry operation with
  | Err e => (self, Returned (Err e))
  | Ok entry =>
      match load_pending_pool (nd_stored self) (nd_cache self) with
      | Err e => (self, Returned (Err e))
      | Ok (current, cache) =>
          let self := with_pool (nd_stored self) cache self in
          let id := pe_id entry in
          if decide (id ∈ pp_ids current) then
            (self, Returned (if duplicate_is_ok then Ok id else Err AlreadyPending))
          else
            match anchor_of (nd_ledger self) with
            | Err e => (self, Returned (Err e))
            | Ok anchor =>
                let key := (anchor, pp_fingerprint current, id) in
                match rj_errors (nd_rejections self) !! key with
                | Some error => (self, Returned (Err error))
                | None =>
                    match extend_pending_pool (nd_ledger self) current entry anchor with
                    | Panicked => (self, Panicked)
                    | Returned (Err error) => (reject key error self, Returned (Err error))
                    | Returned (Ok pending) =>
                        if disk
                        then (with_pool (pe_bytes <$> pp_entries pending) (Some pending) self,
                              Returned (Ok id))
                        else (self, Returned (Err DiskError))
                    end
                end
            end
      end
  end.

(** [insert_mempool_transaction] and [accept_relayed_transaction]: program
    calls in their envelope. *)
Definition insert_mempool_transaction (transaction : AuthorizedProgramInvocation)
    (duplicate_is_ok disk : bool) (self : Node) : Node * Run NodeError Hash :=
  match
    encoded ← map_err NodeCodec (envelope_bytes transaction);
    fail_if MAX_STORED_TRANSACTION_SIZE <? Z.of_nat (length encoded) with TransactionSize;
    _ ← map_err InvalidTransaction (invocation_validate transaction);
    Ok (domain Transaction encoded)
  with
  | Err e => (self, Returned (Err e))
  | Ok hash =>
      let '(self, r) :=
        insert_pending_operation (OpProgramCall transaction) duplicate_is_ok disk self in
      (self, _ ← r; mret hash)
  end.

(** ** Reconciliation with a new tip *)

(** What one pending operation must satisfy to stay, apart from its place in
    the queue: [None] when it is dropped. *)
Definition retained_id (included seen : gset Hash) (operation : BlockOperation) : option (Hash * bool) :=
  match operation_id operation with
  | Err _ => None
  | Ok id =>
      if decide (id ∈ included) then Some (id, false)
      else if decide (id ∈ seen) then Some (id, false)
      else
        match operation_bytes operation with
        | Err _ => Some (id, false)
        | Ok bytes =>
            if MAX_OPERATION_SIZE <? Z.of_nat (length bytes) then Some (id, false)
            else
              match (size ← pending_relay_size operation; minimum_relay_fee size) with
              | Err _ => Some (id, false)
              | Ok minimum => Some (id, negb (operation_fee operation <? minimum))
              end
        end
  end.

(** [seen.insert] runs only when the identifier is not included. *)
Definition note_seen (included seen : gset Hash) (id : Hash) : gset Hash :=
  if decide (id ∈ included) then seen else {[id]} ∪ seen.

Fixpoint reconcile_loop (chain : Hash) (height : Z) (included seen : gset Hash) (count : Z)
    (pending : list BlockOperation) (state : LedgerState) : outcome (list BlockOperation) :=
  match pending with
  | [] => Returned []
  | operation :: pending =>
      if MAX_MEMPOOL_TRANSACTIONS <=? count then Returned []
      else
        match retained_id included seen operation with
        | None => reconcile_loop chain height included seen count pending state
        | Some (id, false) =>
            reconcile_loop chain height included (note_seen included seen id) count pending state
        | Some (id, true) =>
            let seen := note_seen included seen id in
            match apply_pending_operation operation chain height state with
            | (_, Panicked) => Panicked
            | (state, Returned (Err _)) =>
                reconcile_loop chain height included seen count pending state
            | (state, Returned (Ok _)) =>
                match reconcile_loop chain height included seen (count + 1) pending state with
                | Returned retained => Returned (operation :: retained)
                | Panicked => Panicked
                end
            end
        end
  end.

Definition reconcile_pending_operations (ledger : Ledger) (pending : list BlockOperation)
    (included : gset Hash) : outcome (list BlockOperation) :=
  match chain_context network with
  | Err _ => Returned []
  | Ok chain =>
      reconcile_loop chain (next_height (g_chain ledger)) included ∅ 0 pending (g_state ledger)
  end.
End mempool.
