(* ===== verification/MempoolProps.v ===== *)
(** * The pending pool keeps its word

    The cached state of a pool is what replaying the pool from scratch would
    give, so admission with the cache is admission without it; the cached
    decoding of the table is the table; reconciliation with a new tip keeps
    exactly the operations that are still good. *)

From S2P Require Import Prelude Codec Monetary Index Coin Vm Registry Calls Wire Authorize Policy Block Chain Consensus.
From S2P Require Import Assets State StateRoot CoinHost AssetHost Settlement Engine SettleFacts EngineProps VmTypes Apply ApplyFacts Ledger LedgerProps Genesis Mempool.
#[local] Open Scope Z_scope.

(** ** Refused operations: a bounded queue *)

Record rejections_ok (r : Rejections) : Prop := {
  rk_keys : forall key, is_Some (rj_errors r !! key) <-> key ∈ rj_order r;
  rk_unique : NoDup (rj_order r);
  rk_bound : Z.of_nat (length (rj_order r)) <= REJECTIONS_CAPACITY;
}.

Lemma rejections_default_ok : rejections_ok rejections_default.
Proof. split; cbn; [|constructor|done]. intros key. rewrite lookup_empty, elem_of_nil. by split; [intros []|]. Qed.

(** Inserting keeps the newest errors, at most the capacity, and drops the
    oldest one first. *)
Lemma rejections_insert_ok key error r :
  rejections_ok r -> rejections_ok (rejections_insert key error r).
Proof.
  intros [Hk Hu Hb]. unfold rejections_insert. case_bool_decide as Hs; [done|].
  assert (key ∉ rj_order r) as Hn by (by rewrite <- Hk).
  destruct (Z.eqb_spec (Z.of_nat (length (rj_order r))) REJECTIONS_CAPACITY) as [Hc|Hc].
  - destruct (rj_order r) as [|oldest order]; [done|]. apply NoDup_cons in Hu as [Ho Hu].
    rewrite not_elem_of_cons in Hn. destruct Hn as [Hne Hn].
    split; cbn [rj_errors rj_order].
    + intros k. rewrite lookup_insert_is_Some, lookup_delete_is_Some, elem_of_app, list_elem_of_singleton, Hk, elem_of_cons.
      destruct (decide (key = k)) as [->|]; [naive_solver|]. destruct (decide (k = oldest)) as [->|]; naive_solver.
    + apply NoDup_app. split_and!; [done| |apply NoDup_singleton]. by intros k Hko ->%list_elem_of_singleton.
    + rewrite length_app. cbn in *. lia.
  - split; cbn [rj_errors rj_order].
    + intros k. rewrite lookup_insert_is_Some, elem_of_app, list_elem_of_singleton, Hk.
      destruct (decide (key = k)) as [->|]; naive_solver.
    + apply NoDup_app. split_and!; [done| |apply NoDup_singleton]. by intros k Hko ->%list_elem_of_singleton.
    + rewrite length_app. cbn. lia.
Qed.

Lemma rejections_insert_lookup key error r k e :
  rj_errors (rejections_insert key error r) !! k = Some e ->
  rj_errors r !! k = Some e \/ k = key /\ e = error.
Proof.
  unfold rejections_insert. case_bool_decide; [by left|].
  destruct (Z.of_nat _ =? _); [destruct (rj_order r)|]; cbn [rj_errors];
    rewrite lookup_insert_Some, ?lookup_delete_Some; naive_solver.
Qed.

Section pool.
Context `{Sha3} `{Argon2} `{SignatureBackend} `{RootTest}.
Context (network : Network).

(** ** Entries and pools *)

(** An entry holds what is computed from its operation. *)
Record entry_ok (e : PendingEntry) : Prop := {
  ek_new : entry_new (pe_operation e) = Ok e;
  ek_wf : w_wf wire_operation (pe_operation e);
  ek_size : Z.of_nat (length (pe_bytes e)) <= MAX_OPERATION_SIZE;
}.

Lemma entry_new_Ok o e :
  entry_new o = Ok e ->
  pe_operation e = o /\ operation_bytes o = Ok (pe_bytes e) /\ operation_id o = Ok (pe_id e) /\
  pe_id e = domain Operation (pe_bytes e).
Proof.
  unfold entry_new, operation_id. intros He.
  apply bind_Ok in He as (bytes & Hb%map_err_Ok_inv & He). rewrite Hb.
  apply bind_Ok in He as (n & _ & [= <-]). done.
Qed.

(** The chained hash of the identifiers. *)
Definition fingerprint_of (ids : list Hash) : Hash :=
  foldl (fun f id => domain Raw (f ++ id)) (replicate HASH_SIZE 0) ids.

Record pool_ok (p : PendingPool) : Prop := {
  pk_entries : Forall entry_ok (pp_entries p);
  pk_ids : pp_ids p = list_to_set (pe_id <$> pp_entries p);
  pk_unique : NoDup (pe_id <$> pp_entries p);
  pk_total : pp_total_bytes p = zsum ((fun e => Z.of_nat (length (pe_bytes e))) <$> pp_entries p);
  pk_size : pp_total_bytes p <= MAX_STORED_MEMPOOL_SIZE;
  pk_count : Z.of_nat (length (pp_entries p)) <= MAX_MEMPOOL_TRANSACTIONS;
  pk_fingerprint : pp_fingerprint p = fingerprint_of (pe_id <$> pp_entries p);
}.

Lemma pool_default_ok : pool_ok pool_default.
Proof. by split; try constructor. Qed.

Lemma pool_set_validated v p : pool_ok p -> pool_ok (set_validated v p).
Proof. by intros []; split. Qed.

Lemma push_Ok e p p' :
  push e p = Ok p' ->
  pe_id e ∉ pp_ids p /\ pp_entries p' = pp_entries p ++ [e] /\ pp_validated p' = None /\
  pp_ids p' = {[pe_id e]} ∪ pp_ids p /\
  pp_total_bytes p' = pp_total_bytes p + Z.of_nat (length (pe_bytes e)) /\
  pp_total_bytes p' <= MAX_STORED_MEMPOOL_SIZE /\
  Z.of_nat (length (pp_entries p)) < MAX_MEMPOOL_TRANSACTIONS /\
  pp_fingerprint p' = domain Raw (pp_fingerprint p ++ pe_id e).
Proof.
  unfold push. intros Hp. apply guard_err_Ok in Hp as [Hd Hp].
  apply bind_Ok in Hp as (t & [-> _]%ok_or_Ok%checked_add_Some & Hp).
  apply guard_err_Ok in Hp as [Hl [= <-]]. cbn. apply bool_decide_eq_false in Hd.
  apply orb_false_iff in Hl as [Hl1 Hl2]. split_and!; try done; lia.
Qed.

Lemma push_ok e p p' : pool_ok p -> entry_ok e -> push e p = Ok p' -> pool_ok p'.
Proof.
  intros [] He (Hn & Hes & _ & Hi & Ht & Hs & Hc & Hf)%push_Ok.
  assert (pe_id e ∉ pe_id <$> pp_entries p) as Hni.
  { intros Hin. apply Hn. rewrite pk_ids0. by apply elem_of_list_to_set. }
  split; rewrite ?Hes, ?fmap_app; cbn [fmap list_fmap].
  - apply Forall_app. split; [done|]. by constructor.
  - rewrite Hi, pk_ids0, list_to_set_app_L. cbn. set_solver.
  - apply NoDup_app. split_and!; [done| |apply NoDup_singleton]. by intros id Hid ->%list_elem_of_singleton.
  - rewrite Ht, pk_total0, zsum_app, zsum_cons. cbn. lia.
  - done.
  - rewrite length_app. cbn. lia.
  - rewrite Hf, pk_fingerprint0. unfold fingerprint_of. by rewrite foldl_snoc.
Qed.

(** ** Replay *)

Lemma replay_app chain height l1 l2 s :
  replay_entries chain height (l1 ++ l2) s
  = (s' ← replay_entries chain height l1 s; replay_entries chain height l2 s').
Proof.
  revert s. induction l1 as [|e l1 IH]; intros s; [done|]. cbn [app replay_entries].
  destruct (validate_relay_entry e) as [[]|]; [|done]. cbn [run_lift mbind run_mbind].
  destruct (apply_pending_operation _ _ _ _) as [s' [[[]|]|]]; [|done..]. apply IH.
Qed.

(** What is cached with a pool for an anchor is what replay on this ledger
    gives. *)
Definition validated_for (ledger : Ledger) (anchor : PendingAnchor) (p : PendingPool) : Prop :=
  forall v, pp_validated p = Some v -> vp_anchor v = anchor ->
    replay_pending_pool network ledger p = Returned (Ok (vp_state v)).

(** Extending a pool, by definition: admit the entry, replay everything. *)
Definition extend_by_replay (ledger : Ledger) (current : PendingPool) (entry : PendingEntry)
    (anchor : PendingAnchor) : Run NodeError PendingPool :=
  pending ← run_lift (push entry current);
  state ← replay_pending_pool network ledger pending;
  mret (set_validated (Some {| vp_anchor := anchor; vp_state := state |}) pending).

Lemma extend_exact ledger current entry anchor :
  validated_for ledger anchor current -> validate_relay_entry entry = Ok tt ->
  extend_pending_pool network ledger current entry anchor
  = extend_by_replay ledger current entry anchor.
Proof.
  intros Hv He. unfold extend_pending_pool, extend_by_replay.
  destruct (push entry current) as [pending|] eqn:Hp; [|done]. cbn [run_lift mbind run_mbind].
  apply push_Ok in Hp as (_ & Hes & _). 
  assert (replay_pending_pool network ledger pending =
    (state ← replay_pending_pool network ledger current;
     chain ← run_lift (map_err NodeGenesis (chain_context network));
     let '(state, r) :=
       apply_pending_operation (pe_operation entry) chain (next_height (g_chain ledger)) state in
     _ ← r; mret state)) as ->.
  { unfold replay_pending_pool. destruct (chain_context network) as [chain|]; [|done].
    cbn [map_err run_lift mbind run_mbind]. rewrite Hes, replay_app.
    destruct (replay_entries _ _ _ _) as [[s|]|]; [|done..]. cbn [mbind run_mbind replay_entries].
    by rewrite He. }
  assert ((match pp_validated current with
     | Some validated =>
         if decide (vp_anchor validated = anchor) then mret (vp_state validated)
         else replay_pending_pool network ledger current
     | None => replay_pending_pool network ledger current
     end : Run NodeError LedgerState) = replay_pending_pool network ledger current) as ->.
  { destruct (pp_validated current) as [v|] eqn:Hval; [|done]. case_decide as Ha; [|done].
    symmetry. by apply Hv. }
  destruct (replay_pending_pool network ledger current) as [[s|]|]; [|done..]. cbn [mbind run_mbind].
  destruct (chain_context network) as [chain|]; [|done]. cbn [map_err run_lift mbind run_mbind].
  destruct (apply_pending_operation _ _ _ _) as [s' [[[]|]|]]; done.
Qed.

(** ** Loading the table *)

Lemma load_entry_spec bytes p p' :
  bytes_wf bytes -> pool_ok p -> load_entry bytes p = Ok p' ->
  pool_ok p' /\ pe_bytes <$> pp_entries p' = (pe_bytes <$> pp_entries p) ++ [bytes] /\
  pp_validated p' = None.
Proof.
  intros Hb Hp Hl. unfold load_entry in Hl. apply guard_err_Ok in Hl as [Hg Hl].
  apply bind_Ok in Hl as (o & Ho%ok_or_Ok & Hl). apply bind_Ok in Hl as (e & He & Hl).
  apply w_slice_Some in Ho as [Hw ->]; [|done].
  pose proof (entry_new_Ok _ _ He) as (Heo & Heb & _). unfold operation_bytes in Heb.
  rewrite wf_encodable in Heb by done. injection Heb as Heb.
  assert (entry_ok e) as Hek.
  { split; rewrite ?Heo, <- ?Heb; [done|done|]. by apply orb_false_iff in Hg as [_ Hg%Z.ltb_ge]. }
  split; [by apply (push_ok e p)|]. apply push_Ok in Hl as (_ & -> & -> & _).
  rewrite fmap_app. cbn. by rewrite Heb.
Qed.

Lemma load_fold_spec raw p p' :
  Forall bytes_wf raw -> pool_ok p -> pp_validated p = None ->
  try_fold (fun pool bytes => load_entry bytes pool) raw p = Ok p' ->
  pool_ok p' /\ pe_bytes <$> pp_entries p' = (pe_bytes <$> pp_entries p) ++ raw /\
  pp_validated p' = None.
Proof.
  intros Hr. revert p. induction Hr as [|bytes raw Hb Hr IH]; intros p Hp Hn Hf; cbn [try_fold] in Hf.
  - injection Hf as <-. by rewrite app_nil_r.
  - apply bind_Ok in Hf as (q & Hq & Hf). apply load_entry_spec in Hq as (Hq & Hqe & Hqn); [|done..].
    destruct (IH q Hq Hqn Hf) as (Hp' & He & Hn'). split_and!; [done| |done].
    by rewrite He, Hqe, <- app_assoc.
Qed.

Lemma matches_spec p raw : matches p raw = true <-> pe_bytes <$> pp_entries p = raw.
Proof.
  unfold matches. revert raw. induction (pp_entries p) as [|e es IH]; intros [|b raw]; try done.
  specialize (IH raw). cbn in *. rewrite andb_true_iff in *. split.
  - intros (Hl & [Hb Hr]%andb_true_iff). apply bool_decide_eq_true in Hb. f_equal; [done|].
    by apply IH.
  - intros [= <- <-]. rewrite bool_decide_eq_true_2 by done. by apply IH.
Qed.

Lemma operation_nonempty o : length (w_enc wire_operation o) <> 0%nat.
Proof. by destruct o. Qed.

Lemma entry_bytes e : entry_ok e -> pe_bytes e = w_enc wire_operation (pe_operation e).
Proof.
  intros [Hnew Hw _]. apply entry_new_Ok in Hnew as (_ & Hb & _). unfold operation_bytes in Hb.
  rewrite wf_encodable in Hb by done. by injection Hb.
Qed.

Lemma load_entry_push e p : entry_ok e -> load_entry (pe_bytes e) p = push e p.
Proof.
  intros He. pose proof He as [Hnew Hw Hsz]. unfold load_entry, guard_err.
  rewrite (entry_bytes e He) in *. rewrite (proj2 (Nat.eqb_neq _ _)) by apply operation_nonempty.
  rewrite (proj2 (Z.ltb_ge _ _)) by done. cbn [orb].
  replace (w_slice wire_operation (w_enc wire_operation (pe_operation e))) with (Some (pe_operation e)).
  2: { unfold w_slice. rewrite <- (app_nil_r (w_enc _ _)), w_dec_enc by done. done. }
  cbn [ok_or mbind result_mbind]. by rewrite Hnew.
Qed.

(** Loading the bytes of a good pool gives the pool back. *)
Lemma load_fold_pool entries :
  forall p p', Forall entry_ok entries -> pool_ok p' -> pp_validated p = None ->
  pp_validated p' = None -> pp_entries p' = pp_entries p ++ entries -> pool_ok p ->
  try_fold (fun pool bytes => load_entry bytes pool) (pe_bytes <$> entries) p = Ok p'.
Proof.
  induction entries as [|e entries IH]; intros p p' Hes Hp' Hn Hn' He Hp; cbn [fmap list_fmap try_fold].
  - rewrite app_nil_r in He. destruct Hp, Hp', p, p'; cbn in *. subst. done.
  - apply Forall_cons in Hes as [Hek Hes]. pose proof Hek as [Hnew Hw Hsz].
    rewrite (load_entry_push e p Hek).
    destruct (push e p) as [q|err] eqn:Hpush.
    + cbn [mbind result_mbind]. pose proof (push_Ok _ _ _ Hpush) as (_ & Hqe & Hqn & _).
      apply IH; [done|done|done|done| |by apply (push_ok e p)]. by rewrite He, Hqe, <- app_assoc.
    + exfalso. revert Hpush. unfold push, guard_err.
      rewrite bool_decide_eq_false_2.
      2: { rewrite (pk_ids _ Hp), elem_of_list_to_set. pose proof (pk_unique _ Hp') as Hu.
           rewrite He, fmap_app in Hu. cbn in Hu. apply NoDup_app in Hu as (_ & Hu & _).
           intros Hin. apply (Hu _ Hin). by left. }
      pose proof (pk_total _ Hp') as Ht. rewrite He, fmap_app, zsum_app, fmap_cons, zsum_cons, <- (pk_total _ Hp) in Ht. pose proof (pk_size _ Hp') as Hs.
      pose proof (pk_count _ Hp') as Hc. rewrite He, length_app in Hc. cbn in Hc.
      assert (0 <= zsum ((fun e => Z.of_nat (length (pe_bytes e))) <$> entries)) as Hz0.
      { apply zsum_nonneg, Forall_fmap, Forall_true. cbn. lia. }
      assert (0 <= pp_total_bytes p) as Hz1.
      { rewrite (pk_total _ Hp). apply zsum_nonneg, Forall_fmap, Forall_true. cbn. lia. }
      unfold MAX_STORED_MEMPOOL_SIZE in *.
      rewrite (proj2 (checked_add_Some 64 _ _ _)) by (split; [done|lia]).
      cbn [ok_or mbind result_mbind]. rewrite (proj2 (Z.ltb_ge _ _)) by lia.
      rewrite (proj2 (Z.leb_gt _ _)) by lia. done.
Qed.

(** ** The reference: no cache, no memory of refusals *)

Definition load_cold (raw : list (list Z)) : result NodeError PendingPool :=
  total ← stored_total raw StoredMempoolOverflow;
  fail_if (MAX_STORED_MEMPOOL_SIZE <? total)
          || (MAX_MEMPOOL_TRANSACTIONS <? Z.of_nat (length raw)) with StoredMempoolOverLimit;
  try_fold (fun pool bytes => load_entry bytes pool) raw pool_default.

(** The table and the answer of an insertion that decodes the whole table and
    replays the whole pool each time. *)
Definition insert_reference (ledger : Ledger) (operation : BlockOperation) (duplicate_is_ok disk : bool)
    (stored : list (list Z)) : list (list Z) * Run NodeError Hash :=
  match prepare_entry operation with
  | Err e => (stored, Returned (Err e))
  | Ok entry =>
      match load_cold stored with
      | Err e => (stored, Returned (Err e))
      | Ok current =>
          if decide (pe_id entry ∈ pp_ids current) then
            (stored, Returned (if duplicate_is_ok then Ok (pe_id entry) else Err AlreadyPending))
          else
            match anchor_of ledger with
            | Err e => (stored, Returned (Err e))
            | Ok anchor =>
                match extend_by_replay ledger current entry anchor with
                | Panicked => (stored, Panicked)
                | Returned (Err error) => (stored, Returned (Err error))
                | Returned (Ok pending) =>
                    if disk then (pe_bytes <$> pp_entries pending, Returned (Ok (pe_id entry)))
                    else (stored, Returned (Err DiskError))
                end
            end
      end
  end.

Lemma prepare_entry_Ok o e :
  w_wf wire_operation o -> prepare_entry o = Ok e ->
  entry_ok e /\ pe_operation e = o /\ validate_relay_entry e = Ok tt.
Proof.
  intros Hw Hp. unfold prepare_entry in Hp. apply bind_Ok in Hp as (? & _ & Hp).
  apply bind_Ok in Hp as (e' & He & Hp). apply guard_err_Ok in Hp as [Hl%Z.ltb_ge Hp].
  apply bind_Ok in Hp as ([] & Hv & [= <-]). pose proof (entry_new_Ok _ _ He) as (<- & _).
  by split_and!.
Qed.

(** The cache answers what decoding the table answers, but for the state kept
    with the pool, and afterwards holds the table's pool. *)
Lemma load_transparent raw cache :
  Forall bytes_wf raw -> (forall p, cache = Some p -> pool_ok p) ->
  match load_pending_pool raw cache with
  | Ok (p, cache') => load_cold raw = Ok (set_validated None p) /\ pool_ok p /\
      pe_bytes <$> pp_entries p = raw /\ cache' = Some p /\ (cache = Some p \/ pp_validated p = None)
  | Err e => load_cold raw = Err e
  end.
Proof.
  intros Hr Hc. unfold load_pending_pool, load_cold.
  destruct (stored_total _ _) as [total|]; [|done]. cbn [mbind result_mbind]. unfold guard_err.
  destruct (_ || _); [done|].
  assert (forall cache0 : option PendingPool, match
    (pool ← try_fold (fun pool bytes => load_entry bytes pool) raw pool_default;
     Ok (pool, if matches pool raw then Some pool else cache0)) with
    | Ok (p, cache') => try_fold (fun pool bytes => load_entry bytes pool) raw pool_default
          = Ok (set_validated None p) /\ pool_ok p /\
        pe_bytes <$> pp_entries p = raw /\ cache' = Some p /\ (cache = Some p \/ pp_validated p = None)
    | Err e => try_fold (fun pool bytes => load_entry bytes pool) raw pool_default = Err e
    end) as Hcold.
  { intros cache0. destruct (try_fold _ _ _) as [p|] eqn:Hf; [|done]. cbn [mbind result_mbind].
    apply load_fold_spec in Hf as (Hp & He & Hn); [|done|apply pool_default_ok|done]. cbn in He.
    rewrite (proj2 (matches_spec p raw)) by done. split_and!; try done; [|by right].
    f_equal. destruct p; cbn in *; subst. done. }
  destruct cache as [p|]; [|apply Hcold]. destruct (matches p raw) eqn:Hm; [|apply Hcold].
  apply matches_spec in Hm. specialize (Hc p eq_refl). split_and!; try done; [|by left].
  rewrite <- Hm. apply load_fold_pool; try done; [apply Hc|by apply pool_set_validated|apply pool_default_ok].
Qed.
End pool.

(** ** What identifiers and fingerprints determine *)

Section identity.
Context `{Sha3} {Hspec : Sha3Spec} `{SignatureBackend}.

(** The strings hashed for the identifiers of a table and of an operation, and
    for the fingerprint of the table. *)
Fixpoint fingerprint_inputs (f : Hash) (ids : list Hash) : list (list Z) :=
  match ids with
  | [] => []
  | id :: ids => domain_preimage Raw (f ++ id) :: fingerprint_inputs (domain Raw (f ++ id)) ids
  end.

Definition insertion_inputs (raw : list (list Z)) (bytes : list Z) : list (list Z) :=
  (domain_preimage Operation <$> raw ++ [bytes])
  ++ fingerprint_inputs (replicate HASH_SIZE 0) (domain Operation <$> raw).

(** Two of the hashed strings collide, or one hashes to the all-zero string, the
    fingerprint of the empty pool. *)
Definition confused (X Y : list (list Z)) : Prop :=
  collides X Y \/ exists x, x ∈ X ++ Y /\ sha3_256 x = replicate HASH_SIZE 0.

Lemma fingerprint_inputs_snoc f ids id :
  fingerprint_inputs f (ids ++ [id])
  = fingerprint_inputs f ids ++ [domain_preimage Raw (foldl (fun f id => domain Raw (f ++ id)) f ids ++ id)].
Proof. revert f. induction ids as [|i ids IH]; intros f; [done|]. cbn. by rewrite IH. Qed.

Lemma entry_id_bytes e : entry_ok e -> pe_id e = domain Operation (pe_bytes e).
Proof. intros He. by apply (entry_new_Ok _ _ (ek_new _ He)). Qed.

Lemma entry_ids_bytes l : Forall entry_ok l -> domain Operation <$> (pe_bytes <$> l) = pe_id <$> l.
Proof.
  induction 1 as [|e l He _ IH]; [done|]. rewrite !fmap_cons, IH. by rewrite entry_id_bytes.
Qed.

Section hashed.
Context (X Y : list (list Z)).

Lemma entry_id_inj e1 e2 :
  entry_ok e1 -> entry_ok e2 ->
  domain_preimage Operation (pe_bytes e1) ∈ X -> domain_preimage Operation (pe_bytes e2) ∈ Y ->
  pe_id e1 = pe_id e2 -> e1 = e2 \/ confused X Y.
Proof.
  intros H1 H2 I1 I2 Hid. rewrite !entry_id_bytes in Hid by done.
  destruct (domain_collides _ _ _ X Y Hid I1 I2) as [Hb|]; [left|by right; left].
  rewrite (entry_bytes e1), (entry_bytes e2) in Hb by done.
  apply w_inj in Hb; [|apply H1|apply H2]. destruct H1 as [N1 _ _], H2 as [N2 _ _]. congruence.
Qed.

Lemma entry_id_length e : entry_ok e -> length (pe_id e) = HASH_SIZE.
Proof using Hspec. intros He. rewrite entry_id_bytes by done. apply (sha3_wf _). Qed.

Lemma fingerprint_inj l1 l2 :
  Forall entry_ok l1 -> Forall entry_ok l2 ->
  domain_preimage Operation <$> (pe_bytes <$> l1) ⊆ X -> domain_preimage Operation <$> (pe_bytes <$> l2) ⊆ Y ->
  fingerprint_inputs (replicate HASH_SIZE 0) (pe_id <$> l1) ⊆ X ->
  fingerprint_inputs (replicate HASH_SIZE 0) (pe_id <$> l2) ⊆ Y ->
  fingerprint_of (pe_id <$> l1) = fingerprint_of (pe_id <$> l2) -> l1 = l2 \/ confused X Y.
Proof using Hspec.
  revert l2. induction l1 as [|e1 l1 IH] using rev_ind; intros l2 H1 H2 I1 I2 F1 F2 Heq.
  - destruct l2 as [|e2 l2 _] using rev_ind; [by left|]. right; right.
    rewrite fmap_app in Heq, F2. unfold fingerprint_of in Heq. cbn [fmap list_fmap] in Heq, F2.
    rewrite foldl_snoc in Heq. rewrite fingerprint_inputs_snoc in F2. eexists. split; [|symmetry; exact Heq].
    apply elem_of_app. right. apply F2, elem_of_app. right. by left.
  - rewrite fmap_app in Heq, F1. unfold fingerprint_of in Heq. cbn [fmap list_fmap] in Heq, F1.
    rewrite foldl_snoc in Heq. rewrite fingerprint_inputs_snoc in F1.
    apply Forall_app in H1 as [H1 [He1 _]%Forall_cons].
    destruct l2 as [|e2 l2 _] using rev_ind.
    + right; right. eexists. split; [|exact Heq]. apply elem_of_app. left. apply F1, elem_of_app. right. by left.
    + rewrite fmap_app in Heq, F2. cbn [fmap list_fmap] in Heq, F2.
      rewrite foldl_snoc in Heq. rewrite fingerprint_inputs_snoc in F2.
      apply Forall_app in H2 as [H2 [He2 _]%Forall_cons].
      rewrite !fmap_app in I1, I2. cbn [fmap list_fmap] in I1, I2.
      destruct (domain_collides _ _ _ X Y Heq) as [Happ|];
        [apply F1, elem_of_app; right; by left|apply F2, elem_of_app; right; by left| |by right; left].
      apply app_inj_2 in Happ as [Hf Hid]; [|by rewrite !entry_id_length].
      destruct (IH l2 H1 H2) as [->|];
        [intros z Hz; apply I1, elem_of_app; by left|intros z Hz; apply I2, elem_of_app; by left
        |intros z Hz; apply F1, elem_of_app; by left|intros z Hz; apply F2, elem_of_app; by left|done| |by right].
      destruct (entry_id_inj e1 e2 He1 He2) as [->|]; [apply I1, elem_of_app; right; by left
        |apply I2, elem_of_app; right; by left|done|by left|by right].
Qed.
End hashed.

(** A good pool is its entries and the state kept with it. *)
Lemma pool_eq p q : pool_ok p -> pool_ok q -> pp_entries p = pp_entries q ->
  set_validated None p = set_validated None q.
Proof. intros [] [] He. destruct p, q; cbn in *. subst. done. Qed.
End identity.

(** ** A node over time *)

Section node.
Context `{Sha3} {Hspec : Sha3Spec} `{Argon2} `{SignatureBackend} `{RootTest}.
Context (network : Network).

(** An operation read from the network or a user: decoded from bytes. *)
Definition read_operation (o : BlockOperation) : Prop :=
  exists bytes, bytes_wf bytes /\ w_slice wire_operation bytes = Some o.

(** What happened so far: the state and the height the ledgers held under each
    anchor had, and the insertions tried, each with the table it met. *)
Record History := {
  hi_bases : gmap PendingAnchor (LedgerState * Z);
  hi_insertions : list (list (list Z) * BlockOperation);
}.

Definition add_base (a : PendingAnchor) (base : LedgerState * Z) (past : History) : History :=
  {| hi_bases := <[a := base]> (hi_bases past); hi_insertions := hi_insertions past |}.

Definition add_insertion (raw : list (list Z)) (o : BlockOperation) (past : History) : History :=
  {| hi_bases := hi_bases past; hi_insertions := (raw, o) :: hi_insertions past |}.

Definition replay_on (base : LedgerState * Z) (entries : list PendingEntry) : Run NodeError LedgerState :=
  chain ← run_lift (map_err NodeGenesis (chain_context network));
  replay_entries chain base.2 entries base.1.

Definition base_of (ledger : Ledger) : LedgerState * Z := (g_state ledger, next_height (g_chain ledger)).

(** Why an operation is refused, apart from the state kept with the pool. *)
Definition refusal (base : LedgerState * Z) (p : PendingPool) (e : PendingEntry) : option NodeError :=
  match push e p with
  | Err error => Some error
  | Ok pending =>
      match replay_on base (pp_entries pending) with Returned (Err error) => Some error | _ => None end
  end.

Record node_ok (past : History) (n : Node) : Prop := {
  nk_stored : Forall bytes_wf (nd_stored n);
  nk_past : forall a, anchor_of (nd_ledger n) = Ok a -> hi_bases past !! a = Some (base_of (nd_ledger n));
  nk_cache : forall p, nd_cache n = Some p -> pool_ok p;
  nk_validated : forall p v, nd_cache n = Some p -> pp_validated p = Some v ->
    exists base, hi_bases past !! vp_anchor v = Some base /\
      replay_on base (pp_entries p) = Returned (Ok (vp_state v));
  nk_rejections : rejections_ok (nd_rejections n);
  nk_refused : forall a f id error, rj_errors (nd_rejections n) !! (a, f, id) = Some error ->
    exists base p e, hi_bases past !! a = Some base /\ pool_ok p /\ pp_fingerprint p = f /\
      entry_ok e /\ pe_id e = id /\ refusal base p e = Some error /\
      (pe_bytes <$> pp_entries p, pe_operation e) ∈ hi_insertions past;
}.

Definition with_ledger (ledger : Ledger) (n : Node) : Node :=
  {| nd_ledger := ledger; nd_stored := nd_stored n; nd_cache := nd_cache n;
     nd_rejections := nd_rejections n |}.

Definition write_table (raw : list (list Z)) (n : Node) : Node :=
  {| nd_ledger := nd_ledger n; nd_stored := raw; nd_cache := nd_cache n;
     nd_rejections := nd_rejections n |}.

(** Operations arrive; the tip moves to a ledger with a root, which is the one
    held before if its anchor was held before; the table is written past the
    pool's functions. *)
Inductive pool_step : History * Node -> History * Node -> Prop :=
| step_insert past n o dup disk :
    read_operation o ->
    pool_step (past, n)
      (add_insertion (nd_stored n) o past, (insert_pending_operation network o dup disk n).1)
| step_ledger past n ledger a :
    anchor_of ledger = Ok a ->
    hi_bases past !! a = None \/ hi_bases past !! a = Some (base_of ledger) ->
    pool_step (past, n) (add_base a (base_of ledger) past, with_ledger ledger n)
| step_table past n raw :
    Forall bytes_wf raw -> pool_step (past, n) (past, write_table raw n).

Definition node_start (ledger : Ledger) (raw : list (list Z)) : Node :=
  {| nd_ledger := ledger; nd_stored := raw; nd_cache := None; nd_rejections := rejections_default |}.

Inductive pool_reachable : History * Node -> Prop :=
| pool_start ledger a raw :
    anchor_of ledger = Ok a -> Forall bytes_wf raw ->
    pool_reachable ({| hi_bases := {[a := base_of ledger]}; hi_insertions := [] |}, node_start ledger raw)
| pool_more x y : pool_reachable x -> pool_step x y -> pool_reachable y.

Lemma push_set_validated v e p : push e (set_validated v p) = push e p.
Proof. done. Qed.

Lemma extend_refusal ledger p e a error :
  extend_by_replay network ledger p e a = Returned (Err error) <->
  refusal (base_of ledger) p e = Some error.
Proof.
  unfold extend_by_replay, refusal. destruct (push e p) as [q|]; cbn [run_lift mbind run_mbind].
  - change (replay_pending_pool network ledger q) with (replay_on (base_of ledger) (pp_entries q)).
    destruct (replay_on _ _) as [[|]|]; cbn; naive_solver congruence.
  - naive_solver congruence.
Qed.

(** The strings an insertion into a pool hashes. *)
Definition pool_inputs (p : PendingPool) (e : PendingEntry) : list (list Z) :=
  insertion_inputs (pe_bytes <$> pp_entries p) (pe_bytes e).

Lemma refusal_same base p q e1 e2 :
  pool_ok p -> pool_ok q -> entry_ok e1 -> entry_ok e2 ->
  pp_fingerprint p = pp_fingerprint q -> pe_id e1 = pe_id e2 ->
  refusal base p e1 = refusal base q e2 \/ confused (pool_inputs p e1) (pool_inputs q e2).
Proof using Hspec.
  intros Hp Hq He1 He2 Hf Hid. set (X := pool_inputs p e1). set (Y := pool_inputs q e2).
  assert (forall r e, domain_preimage Operation (pe_bytes e) ∈ pool_inputs r e) as Hlast.
  { intros r e. unfold pool_inputs, insertion_inputs. rewrite fmap_app.
    apply elem_of_app; left; apply elem_of_app; right. by left. }
  destruct (entry_id_inj X Y e1 e2 He1 He2) as [->|]; [apply Hlast|apply Hlast|done| |by right].
  rewrite (pk_fingerprint p Hp), (pk_fingerprint q Hq) in Hf.
  assert (forall r e, domain_preimage Operation <$> (pe_bytes <$> pp_entries r) ⊆ pool_inputs r e) as Hids.
  { intros r e z Hz. unfold pool_inputs, insertion_inputs. rewrite fmap_app.
    apply elem_of_app; left; apply elem_of_app; by left. }
  assert (forall r e, pool_ok r ->
    fingerprint_inputs (replicate HASH_SIZE 0) (pe_id <$> pp_entries r) ⊆ pool_inputs r e) as Hfp.
  { intros r e Hr z Hz. unfold pool_inputs, insertion_inputs. rewrite entry_ids_bytes by apply Hr.
    apply elem_of_app. by right. }
  destruct (fingerprint_inj X Y (pp_entries p) (pp_entries q)) as [He|];
    [apply Hp|apply Hq|apply Hids|apply Hids|by apply Hfp|by apply Hfp|done|left|by right].
  unfold refusal. rewrite <- (push_set_validated None e2 p), <- (push_set_validated None e2 q).
  by rewrite (pool_eq p q Hp Hq He).
Qed.

Lemma extend_Ok (bases : gmap PendingAnchor (LedgerState * Z)) ledger p e a q :
  bases !! a = Some (base_of ledger) -> pool_ok p -> entry_ok e ->
  extend_by_replay network ledger p e a = Returned (Ok q) ->
  pool_ok q /\ pp_entries q = pp_entries p ++ [e] /\
  forall v, pp_validated q = Some v -> exists base, bases !! vp_anchor v = Some base /\
    replay_on base (pp_entries q) = Returned (Ok (vp_state v)).
Proof.
  intros Ha Hp He. unfold extend_by_replay. destruct (push e p) as [pending|] eqn:Hpush; [|done].
  cbn [run_lift mbind run_mbind].
  destruct (replay_pending_pool network ledger pending) as [[s|]|] eqn:Hr; [|done..].
  cbn [mbind run_mbind mret run_mret]. intros [= <-]. cbn [pp_entries set_validated pp_validated].
  split_and!; [by apply pool_set_validated, (push_ok e p)|by apply push_Ok in Hpush as (_ & -> & _)|].
  intros v [= <-]. cbn. exists (base_of ledger). by split.
Qed.

Lemma node_ok_load past n p cache' :
  node_ok past n -> load_pending_pool (nd_stored n) (nd_cache n) = Ok (p, cache') ->
  node_ok past (with_pool (nd_stored n) cache' n) /\ cache' = Some p /\ pool_ok p /\
  load_cold (nd_stored n) = Ok (set_validated None p) /\ pe_bytes <$> pp_entries p = nd_stored n.
Proof.
  intros [] Hl. pose proof (load_transparent (nd_stored n) (nd_cache n) nk_stored0 nk_cache0) as Ht.
  rewrite Hl in Ht. destruct Ht as (Hc & Hp & Hb & -> & Hv). split_and!; try done.
  split; cbn; try done.
  - by intros ? [= <-].
  - intros ? v [= <-] Hval. destruct Hv as [Hv|Hv]; [by apply nk_validated0|congruence].
Qed.

Lemma node_ok_publish (past : History) n p stored :
  node_ok past n -> pool_ok p -> Forall bytes_wf stored ->
  (forall v, pp_validated p = Some v -> exists base, hi_bases past !! vp_anchor v = Some base /\
    replay_on base (pp_entries p) = Returned (Ok (vp_state v))) ->
  node_ok past (with_pool stored (Some p) n).
Proof. intros [] Hp Hs Hv. split; cbn; try done; [by intros ? [= <-]|]. intros ? v [= <-]. apply Hv. Qed.

Lemma node_ok_insertion past n raw o : node_ok past n -> node_ok (add_insertion raw o past) n.
Proof.
  intros []. split; cbn; try done. intros a f id error Hl.
  destruct (nk_refused0 a f id error Hl) as (base & p & e & ? & ? & ? & ? & ? & ? & ?).
  exists base, p, e. split_and!; try done. by right.
Qed.

Lemma node_ok_reject (past : History) n p e a error :
  node_ok past n -> hi_bases past !! a = Some (base_of (nd_ledger n)) -> pool_ok p -> entry_ok e ->
  refusal (base_of (nd_ledger n)) p e = Some error ->
  (pe_bytes <$> pp_entries p, pe_operation e) ∈ hi_insertions past ->
  node_ok past (reject (a, pp_fingerprint p, pe_id e) error n).
Proof.
  intros [] Ha Hp He Hr Hin. split; cbn; try done; [by apply rejections_insert_ok|].
  intros a' f id err Hl. apply rejections_insert_lookup in Hl as [Hl|[[= -> -> ->] ->]]; [by apply nk_refused0|].
  exists (base_of (nd_ledger n)), p, e. by split_and!.
Qed.

(** An earlier insertion hashed strings that are confused with those of the
    insertion of [o] now. *)
Definition confused_before (past : History) (raw : list (list Z)) (o : BlockOperation) : Prop :=
  exists raw' o', (raw', o') ∈ hi_insertions past /\
    confused (insertion_inputs raw (w_enc wire_operation o)) (insertion_inputs raw' (w_enc wire_operation o')).

Lemma refused_reference past n p e a error :
  node_ok past n -> anchor_of (nd_ledger n) = Ok a -> pool_ok p -> entry_ok e ->
  rj_errors (nd_rejections n) !! (a, pp_fingerprint p, pe_id e) = Some error ->
  extend_by_replay network (nd_ledger n) (set_validated None p) e a = Returned (Err error) \/
  confused_before past (pe_bytes <$> pp_entries p) (pe_operation e).
Proof using Hspec.
  intros Hn Ha Hp He Hl. apply (nk_refused _ _ Hn) in Hl as (base & q & e' & Hb & Hq & Hf & He' & Hid & Hr & Hin).
  rewrite (nk_past _ _ Hn a Ha) in Hb. injection Hb as <-.
  destruct (refusal_same (base_of (nd_ledger n)) (set_validated None p) q e e') as [Heq|Hc]; try done;
    [by apply pool_set_validated| |].
  - left. apply extend_refusal. by rewrite Heq.
  - right. exists (pe_bytes <$> pp_entries q), (pe_operation e'). split; [done|].
    unfold pool_inputs in Hc. by rewrite (entry_bytes e He), (entry_bytes e' He') in Hc.
Qed.

Lemma extend_cached past n p e a :
  node_ok past n -> anchor_of (nd_ledger n) = Ok a -> nd_cache n = Some p ->
  validate_relay_entry e = Ok tt ->
  extend_pending_pool network (nd_ledger n) p e a
  = extend_by_replay network (nd_ledger n) (set_validated None p) e a.
Proof.
  intros Hn Ha Hc He. rewrite extend_exact; [done| |done]. intros v Hv <-.
  destruct (nk_validated _ _ Hn p v Hc Hv) as (base & Hb & Hr).
  rewrite (nk_past _ _ Hn _ Ha) in Hb. injection Hb as <-. exact Hr.
Qed.

Lemma insertion_spec past n o dup disk n' r :
  node_ok past n -> read_operation o ->
  insert_pending_operation network o dup disk n = (n', r) ->
  node_ok (add_insertion (nd_stored n) o past) n' /\ nd_ledger n' = nd_ledger n /\
  ((nd_stored n', r) = insert_reference network (nd_ledger n) o dup disk (nd_stored n) \/
   confused_before past (nd_stored n) o /\ nd_stored n' = nd_stored n /\ exists e, r = Returned (Err e)).
Proof using Hspec.
  intros Hn (bytes & Hbytes & (Hw & ->)%w_slice_Some); [|done].
  pose proof (node_ok_insertion past n (nd_stored n) o Hn) as Hlog.
  unfold insert_pending_operation, insert_reference.
  destruct (prepare_entry o) as [e|] eqn:Hpe; [|intros [= <- <-]; by auto].
  apply prepare_entry_Ok in Hpe as (He & Heo & Hrel); [|done].
  pose proof (load_transparent (nd_stored n) (nd_cache n) (nk_stored _ _ Hn) (nk_cache _ _ Hn)) as Ht.
  destruct (load_pending_pool _ _) as [[p cache']|err] eqn:Hl.
  2: { rewrite Ht. intros [= <- <-]. by auto. }
  clear Ht. apply (node_ok_load past) in Hl as (Hn1 & -> & Hp & Hc & Hb); [|done]. rewrite Hc.
  apply (node_ok_insertion _ _ (nd_stored n) o) in Hn1 as Hlog1.
  set (n1 := with_pool (nd_stored n) (Some p) n) in *. cbn [pp_ids set_validated].
  change (nd_ledger n1) with (nd_ledger n). change (nd_stored n) with (nd_stored n1).
  destruct (decide _); [intros [= <- <-]; by auto|].
  destruct (anchor_of (nd_ledger n)) as [a|] eqn:Ha; [|intros [= <- <-]; by auto].
  destruct (rj_errors (nd_rejections n1) !! _) as [err|] eqn:Hrj.
  { intros [= <- <-]. split_and!; [done|done|].
    destruct (refused_reference past n1 p e a err Hn1 Ha Hp He Hrj) as [Heq|Hcf].
    - left. change (nd_ledger n1) with (nd_ledger n) in Heq. by rewrite Heq.
    - right. rewrite Hb, Heo in Hcf. by eauto. }
  change (nd_ledger n) with (nd_ledger n1) in *.
  rewrite (extend_cached past n1 p e a Hn1 Ha eq_refl Hrel).
  destruct (extend_by_replay network (nd_ledger n1) _ e a) as [[q|err]|] eqn:Hx.
  - destruct disk; intros [= <- <-]; [|by auto]. split_and!; [|done|by left].
    destruct (extend_Ok (hi_bases past) (nd_ledger n1) _ e a q (nk_past _ _ Hn1 a Ha) (pool_set_validated None p Hp) He Hx)
      as (Hq & Hqe & Hqv).
    apply node_ok_publish; [done|done| |done]. cbn [pp_entries set_validated] in Hqe.
    rewrite Hqe, fmap_app, Hb. apply Forall_app. split; [apply Hn|]. cbn. apply Forall_singleton.
    by rewrite (entry_bytes e He), Heo.
  - intros [= <- <-]. split_and!; [|done|by left].
    apply (node_ok_reject _ n1 (set_validated None p) e a err);
      [done|by apply (nk_past _ _ Hlog1)|by apply pool_set_validated|done|by eapply extend_refusal|].
    cbn [pp_entries set_validated]. rewrite Hb, Heo. by left.
  - intros [= <- <-]. by auto.
Qed.

Lemma pool_reachable_ok x : pool_reachable x -> node_ok x.1 x.2.
Proof using Hspec.
  induction 1 as [ledger a raw Ha Hr|x y _ IH Hs]; cbn [fst snd] in *.
  - split; cbn; try done; [|apply rejections_default_ok].
    intros a' Ha'. rewrite Ha in Ha'. injection Ha' as <-. apply lookup_singleton_eq.
  - destruct Hs as [past n o dup disk Ho|past n ledger a Ha Hp|past n raw Hr]; cbn [fst snd] in *.
    + destruct (insert_pending_operation _ _ _ _ _) as [n' r] eqn:Hi.
      by apply (insertion_spec past n o dup disk n' r).
    + assert (hi_bases past ⊆ <[a := base_of ledger]> (hi_bases past)) as Hsub.
      { destruct Hp as [Hp|Hp]; [by apply (insert_subseteq (M := gmap PendingAnchor))|].
        by rewrite (insert_id (M := gmap PendingAnchor) _ _ _ Hp). }
      destruct IH as [Hk1 Hk2 Hk3 Hk4 Hk5 Hk6]. split; cbn; try done.
      * intros a' Ha'. rewrite Ha in Ha'. injection Ha' as <-. apply lookup_insert_eq.
      * intros p v Hpc Hv. destruct (Hk4 p v Hpc Hv) as (base & Hb & ?). exists base.
        split; [|done]. by eapply lookup_weaken.
      * intros a' f id error Hl. destruct (Hk6 a' f id error Hl) as (base & p & e & Hb & ?).
        exists base, p, e. split; [|done]. by eapply lookup_weaken.
    + by destruct IH; split.
Qed.

(** (C7) The node's caches are invisible.  In every state a node reaches by inserting
    operations, moving its tip and having its table rewritten, an insertion
    leaves the table and gives the answer that decoding the whole table and
    replaying the whole pool on the ledger would, on every branch, whether the
    disk commits or not; at most 256 refusals are remembered; and the ledger is
    untouched.  The one exception needs the strings hashed for this insertion and
    those hashed for an insertion this node tried before to hold two different
    strings with one digest, or one with the all-zero digest; it refuses a good
    operation and changes nothing. *)
Theorem mempool_refines_replay past n o dup disk :
  pool_reachable (past, n) -> read_operation o ->
  let '(n', r) := insert_pending_operation network o dup disk n in
  nd_ledger n' = nd_ledger n /\ rejections_ok (nd_rejections n') /\
  ((nd_stored n', r) = insert_reference network (nd_ledger n) o dup disk (nd_stored n) \/
   confused_before past (nd_stored n) o /\ nd_stored n' = nd_stored n /\ exists e, r = Returned (Err e)).
Proof using Hspec.
  intros Hn%pool_reachable_ok Ho. destruct (insert_pending_operation _ _ _ _ _) as [n' r] eqn:Hi.
  destruct (insertion_spec past n o dup disk n' r Hn Ho Hi) as (Hn' & Hl & Hs).
  split_and!; [done|apply Hn'|done].
Qed.

(** A table whose operations form a pool that replays on the ledger. *)
Definition table_replays (ledger : Ledger) (stored : list (list Z)) : Prop :=
  exists p s, pool_ok p /\ pe_bytes <$> pp_entries p = stored /\
    replay_pending_pool network ledger p = Returned (Ok s).

Lemma insert_reference_Ok ledger o dup disk stored stored' id :
  read_operation o -> Forall bytes_wf stored ->
  insert_reference network ledger o dup disk stored = (stored', Returned (Ok id)) ->
  operation_id o = Ok id /\
  (stored' = stored /\ dup = true /\ (exists bytes, bytes ∈ stored /\ id = domain Operation bytes) \/
   disk = true /\ stored' = stored ++ [w_enc wire_operation o] /\ table_replays ledger stored').
Proof.
  intros (bytes & Hbytes & (Hw & ->)%w_slice_Some) Hs; [|done]. unfold insert_reference.
  destruct (prepare_entry o) as [e|] eqn:Hpe; [|done].
  apply prepare_entry_Ok in Hpe as (He & <- & Hrel); [|done].
  pose proof (entry_new_Ok _ _ (ek_new _ He)) as (_ & _ & Hid & _).
  pose proof (load_transparent stored None Hs ltac:(done)) as Ht.
  destruct (load_pending_pool stored None) as [[p c]|]; [|by rewrite Ht].
  destruct Ht as (-> & Hp & Hb & _ & _). cbn [pp_ids set_validated].
  case_decide as Hin.
  { destruct dup; intros [= <- <-]. split; [done|left]. split_and!; [done|done|].
    rewrite (pk_ids p Hp), elem_of_list_to_set, list_elem_of_fmap in Hin. destruct Hin as (e' & -> & Hin).
    exists (pe_bytes e'). rewrite <- Hb, list_elem_of_fmap. split; [eauto|].
    pose proof (pk_entries p Hp) as Hes. rewrite Forall_forall in Hes.
    by apply (entry_new_Ok _ _ (ek_new _ (Hes e' Hin))). }
  destruct (anchor_of ledger) as [a|]; [|done].
  destruct (extend_by_replay network ledger _ e a) as [[q|]|] eqn:Hx; [|done..].
  destruct disk; [|done]. intros [= <- <-]. split; [done|right].
  destruct (extend_Ok {[a := base_of ledger]} ledger _ e a q (lookup_singleton_eq _ _)
    (pool_set_validated None p Hp) He Hx) as (Hq & Hqe & Hqv). cbn [pp_entries set_validated] in Hqe.
  split_and!; [done|by rewrite Hqe, fmap_app, Hb, <- entry_bytes|].
  unfold extend_by_replay in Hx. destruct (push e _) as [pending|]; [|done].
  cbn [run_lift mbind run_mbind] in Hx.
  destruct (replay_pending_pool network ledger pending) as [[s|]|] eqn:Hr; [|done..].
  injection Hx as <-. exists pending, s. split_and!; [|done|done].
  destruct Hq; by split.
Qed.

(** (C35) Admission is sound.  An insertion that succeeds in a state the node reaches
    answers with the operation's identifier; either the operation was pending
    already and the table stays, or its canonical bytes are the table's new last
    row, committed to disk, and the whole table decodes to distinct operations,
    at most 1024 of them and 64 MiB together, each paying the relay fee, that
    apply one after the other on the ledger at the next height. *)
Theorem mempool_insert_sound past n o dup disk n' id :
  pool_reachable (past, n) -> read_operation o ->
  insert_pending_operation network o dup disk n = (n', Returned (Ok id)) ->
  operation_id o = Ok id /\
  (nd_stored n' = nd_stored n /\ dup = true /\
     (exists bytes, bytes ∈ nd_stored n /\ id = domain Operation bytes) \/
   disk = true /\ nd_stored n' = nd_stored n ++ [w_enc wire_operation o] /\
     table_replays (nd_ledger n) (nd_stored n')).
Proof using Hspec.
  intros Hn%pool_reachable_ok Ho Hi. destruct (insertion_spec past n o dup disk n' _ Hn Ho Hi) as (_ & _ & Hs).
  destruct Hs as [Hs|(_ & _ & e & [=])].
  exact (insert_reference_Ok _ o dup disk _ _ id Ho (nk_stored _ _ Hn) (eq_sym Hs)).
Qed.

(** ** Reconciliation *)

Lemma relay_size_entry o e :
  entry_new o = Ok e -> validate_relay_entry e = Ok tt -> pending_relay_size o = Ok (pe_relay_size e).
Proof.
  unfold entry_new, pending_relay_size, validate_relay_entry. intros He.
  apply bind_Ok in He as (bytes & Hb & He). apply bind_Ok in He as (size & Hs & [= <-]).
  cbn [pe_operation pe_bytes pe_relay_size]. rewrite Hb. intros Hv.
  apply guard_err_Ok in Hv as [_ Hv]. apply guard_err_Ok in Hv as [Hc _].
  destruct o as [|call]; cbn [mbind result_mbind]; [by injection Hs as <-|].
  destruct (envelope_bytes call) as [legacy|]; [|done]. cbn [map_err mbind result_mbind] in *.
  apply ok_or_Ok in Hs. unfold try_from in Hs. case_match; [|done]. injection Hs as <-.
  unfold guard_err. cbn [andb] in Hc. by rewrite Hc.
Qed.

Lemma relay_size_new o bytes size :
  operation_bytes o = Ok bytes -> pending_relay_size o = Ok size ->
  entry_new o = Ok {| pe_operation := o; pe_bytes := bytes; pe_id := domain Operation bytes;
                      pe_relay_size := size |} /\
  (match o with OpProgramCall _ => true | OpDeployProgram _ => false end)
    && (MAX_STORED_TRANSACTION_SIZE <? size) = false.
Proof.
  unfold entry_new, pending_relay_size. intros -> Hs. cbn [map_err mbind result_mbind] in *.
  destruct o as [|call]; [by injection Hs as <-|].
  destruct (envelope_bytes call) as [legacy|]; [|done]. cbn [map_err mbind result_mbind] in *.
  apply guard_err_Ok in Hs as [Hl [= <-]]. split; [|done]. apply Z.ltb_ge in Hl. unfold try_from.
  rewrite (proj2 (Z.ltb_lt _ _)); [done|]. eapply Z.le_lt_trans; [exact Hl|]. reflexivity.
Qed.

Lemma retained_id_spec included seen o id :
  retained_id included seen o = Some (id, true) <->
  exists e, entry_new o = Ok e /\ pe_id e = id /\ validate_relay_entry e = Ok tt /\
    id ∉ included /\ id ∉ seen.
Proof.
  unfold retained_id. split.
  - destruct (operation_id o) as [id'|] eqn:Hid; [|done]. do 2 (case_decide; [done|]).
    destruct (operation_bytes o) as [bytes|] eqn:Hb; [|done].
    destruct (Z.ltb_spec MAX_OPERATION_SIZE (Z.of_nat (length bytes))) as [|Hl]; [done|].
    destruct (pending_relay_size o) as [size|] eqn:Hs; cbn [mbind result_mbind]; [|done].
    destruct (minimum_relay_fee size) as [minimum|] eqn:Hm; [|done]. intros [= <- Hfee%negb_true_iff].
    unfold operation_id in Hid. rewrite Hb in Hid. injection Hid as <-.
    destruct (relay_size_new o bytes size Hb Hs) as [He Hc].
    eexists. split_and!; [exact He|done| |done|done]. unfold validate_relay_entry. cbn.
    rewrite (proj2 (Z.ltb_ge _ _)) by done. cbn [guard_err]. rewrite Hc. cbn [guard_err].
    rewrite Hm. cbn [mbind result_mbind]. by rewrite Hfee.
  - intros (e & He & <- & Hv & Hi & Hs). pose proof (entry_new_Ok _ _ He) as (Heo & Hb & Hid & _).
    rewrite Hid, !decide_False, Hb, (relay_size_entry o e He Hv) by done.
    unfold validate_relay_entry in Hv. apply guard_err_Ok in Hv as [Hl Hv]. rewrite Hl.
    apply guard_err_Ok in Hv as [_ Hv]. apply bind_Ok in Hv as (minimum & Hm & Hv).
    apply guard_err_Ok in Hv as [Hf _]. rewrite Heo in Hf. cbn [mbind result_mbind]. by rewrite Hm, Hf.
Qed.

(** What one round of the loop does with an entry that may stay. *)
Lemma reconcile_round chain height included seen count o pending s id :
  count < MAX_MEMPOOL_TRANSACTIONS -> retained_id included seen o = Some (id, true) ->
  reconcile_loop chain height included seen count (o :: pending) s
  = match apply_pending_operation o chain height s with
    | (_, Panicked) => Panicked
    | (s', Returned (Err _)) => reconcile_loop chain height included ({[id]} ∪ seen) count pending s'
    | (s', Returned (Ok _)) =>
        match reconcile_loop chain height included ({[id]} ∪ seen) (count + 1) pending s' with
        | Returned retained => Returned (o :: retained)
        | Panicked => Panicked
        end
    end.
Proof.
  intros Hc Hr. cbn [reconcile_loop]. rewrite (proj2 (Z.leb_gt _ _)), Hr by done.
  apply retained_id_spec in Hr as (e & _ & _ & _ & Hi & _).
  unfold note_seen. by rewrite decide_False by done.
Qed.

Lemma apply_pending_failed o chain height s s' e :
  apply_pending_operation o chain height s = (s', Returned (Err e)) -> s' = s.
Proof.
  assert (forall (m : Staged LedgerState LedgerError StateRollbackJournal),
    (let '(state, r) := commit m s in (state, _ ← run_map_err InvalidCall r; mret tt : Run NodeError unit))
    = (s', Returned (Err e)) -> s' = s) as Hm.
  { intros m. unfold commit. destruct (m s) as [[[]|]|]; by intros [= <-]. }
  destruct o; apply Hm.
Qed.

Lemma reconcile_loop_sound chain height included pending : forall seen count s retained,
  0 <= count <= MAX_MEMPOOL_TRANSACTIONS ->
  reconcile_loop chain height included seen count pending s = Returned retained ->
  retained `sublist_of` pending /\ count + Z.of_nat (length retained) <= MAX_MEMPOOL_TRANSACTIONS /\
  exists entries s', Forall2 (fun o e => entry_new o = Ok e) retained entries /\
    NoDup (pe_id <$> entries) /\ Forall (fun e => pe_id e ∉ included /\ pe_id e ∉ seen) entries /\
    replay_entries chain height entries s = Returned (Ok s').
Proof.
  induction pending as [|o pending IH]; intros seen count s retained Hc.
  { intros [= <-]. split_and!; [constructor|cbn; lia|]. exists [], s. by repeat constructor. }
  destruct (Z.ltb_spec count MAX_MEMPOOL_TRANSACTIONS) as [Hlt|Hge].
  2: { cbn [reconcile_loop]. rewrite (proj2 (Z.leb_le _ _)) by lia. intros [= <-].
       split_and!; [apply sublist_nil_l|cbn; lia|]. exists [], s. by repeat constructor. }
  assert (forall seen', seen ⊆ seen' ->
    reconcile_loop chain height included seen' count pending s = Returned retained ->
    retained `sublist_of` (o :: pending) /\
    count + Z.of_nat (length retained) <= MAX_MEMPOOL_TRANSACTIONS /\
    exists entries s', Forall2 (fun o e => entry_new o = Ok e) retained entries /\
      NoDup (pe_id <$> entries) /\ Forall (fun e => pe_id e ∉ included /\ pe_id e ∉ seen) entries /\
      replay_entries chain height entries s = Returned (Ok s')) as Hskip.
  { intros seen' Hsub Hr. apply IH in Hr as (Hs & Hl & entries & s' & He & Hn & Hf & Hp); [|lia].
    split_and!; [by constructor|done|]. exists entries, s'. split_and!; [done|done| |done].
    eapply Forall_impl; [exact Hf|]. cbn. set_solver. }
  destruct (retained_id included seen o) as [[id []]|] eqn:Hid.
  - rewrite (reconcile_round _ _ _ _ _ _ _ _ id) by done.
    apply retained_id_spec in Hid as (e & He & <- & Hv & Hi & Hs).
    destruct (apply_pending_operation o chain height s) as [s1 [[[]|err]|]] eqn:Ha; [| |done].
    + destruct (reconcile_loop _ _ _ _ _ _ s1) as [retained'|] eqn:Hr; [|done]. intros [= <-].
      apply IH in Hr as (Hsub & Hl & entries & s' & Hes & Hn & Hf & Hp); [|lia].
      split_and!; [by constructor|cbn [length]; lia|]. exists (e :: entries), s'. split_and!.
      * by constructor.
      * cbn. apply NoDup_cons. split; [|done]. rewrite list_elem_of_fmap. intros (e' & Heq & Hin).
        rewrite Forall_forall in Hf. apply Hf in Hin as [_ Hin]. set_solver.
      * constructor; [done|]. eapply Forall_impl; [exact Hf|]. cbn. set_solver.
      * cbn [replay_entries]. rewrite Hv. cbn [run_lift mbind run_mbind].
        pose proof (entry_new_Ok _ _ He) as (-> & _). by rewrite Ha.
    + apply apply_pending_failed in Ha as ->. apply Hskip. set_solver.
  - cbn [reconcile_loop]. rewrite (proj2 (Z.leb_gt _ _)), Hid by done. apply Hskip.
    unfold note_seen. case_decide; set_solver.
  - cbn [reconcile_loop]. rewrite (proj2 (Z.leb_gt _ _)), Hid by done. by apply Hskip.
Qed.

Lemma reconcile_loop_stable chain height included entries : forall seen count s s',
  0 <= count -> count + Z.of_nat (length entries) <= MAX_MEMPOOL_TRANSACTIONS ->
  Forall entry_ok entries -> NoDup (pe_id <$> entries) ->
  Forall (fun e => pe_id e ∉ included /\ pe_id e ∉ seen) entries ->
  replay_entries chain height entries s = Returned (Ok s') ->
  reconcile_loop chain height included seen count (pe_operation <$> entries) s
  = Returned (pe_operation <$> entries).
Proof.
  induction entries as [|e entries IH]; intros seen count s s' Hc Hl Hok Hn Hf Hr; [done|].
  apply Forall_cons in Hok as [He Hok]. cbn [fmap list_fmap] in *. apply NoDup_cons in Hn as [Hne Hn].
  apply Forall_cons in Hf as [[Hi Hs] Hf]. cbn [length replay_entries] in *.
  destruct (validate_relay_entry e) as [[]|] eqn:Hv; [|done]. cbn [run_lift mbind run_mbind] in Hr.
  rewrite (reconcile_round _ _ _ _ _ _ _ _ (pe_id e)); [|lia|].
  2: { apply retained_id_spec. exists e. split_and!; [apply He|done..]. }
  destruct (apply_pending_operation _ _ _ s) as [s1 [[[]|]|]]; [|done..]. cbn [mbind run_mbind] in Hr.
  rewrite (IH ({[pe_id e]} ∪ seen) (count + 1) s1 s'); [done|lia|lia|done|done| |done].
  rewrite Forall_forall in Hf |- *. intros e' Hin. destruct (Hf e' Hin) as [Hi' Hs']. split; [done|].
  intros [Heq%elem_of_singleton|]%elem_of_union; [|done]. apply Hne. rewrite <- Heq.
  by apply list_elem_of_fmap_2.
Qed.
End node.

(** ** Reconciliation returns *)

Section total.
Context `{Sha3} {Hspec : Sha3Spec} `{Argon2} `{SignatureBackend} `{RootTest} {Hroot : RootTestSpec}.
Context (network : Network).

(** The shipped applications never unwind, so a pending operation is applied
    or refused. *)
Lemma apply_pending_returns o chain height s :
  state_ok s -> operation_ok chain PROGRAM_ID_ZERO o -> fits 64 height ->
  exists s' r, apply_pending_operation o chain height s = (s', Returned r) /\ state_ok s'.
Proof using Hspec Hroot.
  intros Hs Ho Hh.
  destruct (apply_operation_wp o PROGRAM_ID_ZERO chain height extension_applications s Hs Ho Hh)
    as (m & Hm & Hw).
  assert (apply_pending_operation o chain height s =
    let '(state, r) := commit m s in (state, _ ← run_map_err InvalidCall r; mret tt)) as ->.
  { rewrite <- Hm. by destruct o. }
  unfold commit, wp in *. destruct (m s) as [[[j s']|e]|].
  - destruct Hw as (required & _ & Ha). do 2 eexists. split; [reflexivity|]. apply Ha.
  - do 2 eexists. by split.
  - destruct (asset_application_returns Hw).
Qed.

Lemma reconcile_loop_returns chain height included pending : forall seen count s,
  state_ok s -> Forall (operation_ok chain PROGRAM_ID_ZERO) pending -> fits 64 height ->
  exists retained, reconcile_loop chain height included seen count pending s = Returned retained.
Proof using Hspec Hroot.
  induction pending as [|o pending IH]; intros seen count s Hs Ho Hh; cbn [reconcile_loop]; [by eexists|].
  apply Forall_cons in Ho as [Ho Hos]. destruct (_ <=? _); [by eexists|].
  destruct (retained_id included seen o) as [[id []]|]; [|by apply IH..].
  destruct (apply_pending_returns o chain height s Hs Ho Hh) as (s' & [[]|e] & -> & Hs'); [|by apply IH].
  destruct (IH (note_seen included seen id) (count + 1) s' Hs' Hos Hh) as [retained ->]. by eexists.
Qed.

Lemma next_height_fits hs c : chain_of hs c -> fits 64 (next_height c).
Proof.
  intros Hc. unfold next_height. rewrite (co_tip _ _ Hc). pose proof (co_length _ _ Hc).
  unfold checked_sub. destruct (Z.ltb_spec (Z.of_nat (length hs)) 1); [done|].
  unfold saturating_add, fits. lia.
Qed.

(** (C11) Reconciliation with a new tip is exact.  On a sound ledger it always
    returns; what it keeps is a subsequence of what was pending, at most 1024
    distinct operations of which none is in the new blocks, each small enough
    and paying its relay fee, and they apply one after the other on the new
    ledger at the next height; and pending operations that already do all that
    are kept to the last one. *)
Theorem reconcile_exact hs ledger chain pending included :
  ledger_ok hs ledger -> chain_context network = Ok chain ->
  Forall (operation_ok chain PROGRAM_ID_ZERO) pending ->
  exists retained, reconcile_pending_operations network ledger pending included = Returned retained /\
    retained `sublist_of` pending /\ Z.of_nat (length retained) <= MAX_MEMPOOL_TRANSACTIONS /\
    (exists entries s, Forall2 (fun o e => entry_new o = Ok e) retained entries /\
       NoDup (pe_id <$> entries) /\ Forall (fun e => pe_id e ∉ included) entries /\
       replay_on network (base_of ledger) entries = Returned (Ok s)) /\
    (forall p s, pool_ok p -> pe_operation <$> pp_entries p = pending ->
       Forall (fun e => pe_id e ∉ included) (pp_entries p) ->
       replay_pending_pool network ledger p = Returned (Ok s) -> retained = pending).
Proof using Hspec Hroot.
  intros Hl Hchain Ho. unfold reconcile_pending_operations, replay_pending_pool, replay_on. rewrite Hchain.
  destruct (past_ok _ _ _ (lo_past _ _ Hl)) as [Hs _].
  destruct (reconcile_loop_returns chain (next_height (g_chain ledger)) included pending ∅ 0 (g_state ledger)
    Hs Ho (next_height_fits _ _ (lo_chain _ _ Hl))) as [retained Hr].
  exists retained. cbn [map_err run_lift mbind run_mbind base_of fst snd]. split; [done|].
  pose proof (reconcile_loop_sound chain (next_height (g_chain ledger)) included pending ∅ 0
    (g_state ledger) retained ltac:(done) Hr) as (Hsub & Hlen & entries & s' & He & Hn & Hf & Hp).
  split_and!; [done|done| |].
  - exists entries, s'. split_and!; try done. eapply Forall_impl; [exact Hf|]. by intros e [].
  - intros p s Hpk <- Hi Hrep.
    rewrite (reconcile_loop_stable _ _ included (pp_entries p) ∅ 0 _ s) in Hr;
      [by injection Hr|done|apply Hpk|apply Hpk|apply Hpk| |done].
    eapply Forall_impl; [exact Hi|]. cbn. intros e. set_solver.
Qed.
End total.

(** ** A node with one pending transfer *)

Section example.
#[local] Existing Instance toy_sha3.
#[local] Existing Instance toy_sha3_spec.
#[local] Existing Instance toy_argon2.
#[local] Existing Instance accept_all.
#[local] Existing Instance toy_roots.
#[local] Existing Instance no_roots_spec.

(** A network whose frozen hash is that of its first block. *)
Definition toy_network : Network :=
  {| expected_genesis_hash := block_hash (with_nonce (ok_block Block.genesis) 0); genesis_nonce := 0 |}.

(** The transfer of the ledger's example with a fee that relays. *)
Definition relayed (fee : Z) : BlockOperation :=
  OpProgramCall {| ai_signer := ai_signer spend; ai_call := ai_call spend;
     ai_payment := {| signer := signer (ai_payment spend); ct_inputs := ct_inputs (ai_payment spend);
                      ct_outputs := [{| co_output := Program (replicate 32 2);
                                        co_amount := 156241595 - fee |}];
                      charges := {| miner_fee := fee |} |};
     ai_authorization := sample_auth |}.

Definition toy_node : Node := node_start ledger2 [].
Definition pending_node : Node :=
  (insert_pending_operation toy_network (relayed 140000) false true toy_node).1.

Lemma relayed_read : read_operation (relayed 140000).
Proof.
  exists (w_enc wire_operation (relayed 140000)).
  split; [by apply digits_compute; vm_compute|vm_compute; reflexivity].
Qed.

Lemma toy_node_started : exists past, hi_insertions past = [] /\ pool_reachable toy_network (past, toy_node).
Proof.
  destruct (anchor_of ledger2) as [a|] eqn:Ha; [|vm_compute in Ha; discriminate].
  eexists. split; [|by apply (pool_start toy_network ledger2 a [])]. done.
Qed.

Lemma toy_node_reachable : exists past, pool_reachable toy_network (past, toy_node).
Proof. destruct toy_node_started as (past & _ & Hr). by exists past.
Qed.

Lemma relayed_inserted :
  exists id, insert_pending_operation toy_network (relayed 140000) false true toy_node
    = (pending_node, Returned (Ok id)).
Proof.
  assert (match (insert_pending_operation toy_network (relayed 140000) false true toy_node).2 with
    | Returned (Ok _) => True | _ => False end) as Hi by (vm_compute; exact I).
  unfold pending_node. destruct (insert_pending_operation _ _ _ _ _) as [n [[id|]|]]; [|done..]. by exists id.
Qed.

Lemma single_row p o :
  pool_ok p -> w_wf wire_operation o -> pe_bytes <$> pp_entries p = [w_enc wire_operation o] ->
  pe_operation <$> pp_entries p = [o].
Proof.
  intros Hp Hw Hb. pose proof (pk_entries p Hp) as Hes.
  destruct (pp_entries p) as [|e [|]]; [done| |done]. apply Forall_cons in Hes as [Hes _].
  pose proof (f_equal head Hb : Some (pe_bytes e) = Some (w_enc wire_operation o)) as Hh.
  apply Some_inj in Hh. rewrite (entry_bytes e Hes) in Hh.
  apply (w_inj wire_operation) in Hh; [|apply Hes|done]. change ([pe_operation e] = [o]). by rewrite Hh.
Qed.

(** What the table of the node holds then, as a pool. *)
Lemma mempool_insert_table :
  exists p s, pool_ok p /\ pe_operation <$> pp_entries p = [relayed 140000] /\
    replay_pending_pool toy_network ledger2 p = Returned (Ok s).
Proof.
  destruct toy_node_reachable as [past Hr]. destruct relayed_inserted as [id Hi].
  destruct (insertion_spec toy_network past toy_node (relayed 140000) false true pending_node _
    (pool_reachable_ok _ _ Hr) relayed_read Hi) as (_ & _ & [Hs|(_ & _ & e & [=])]).
  destruct (insert_reference_Ok toy_network ledger2 (relayed 140000) false true [] _ id relayed_read
    ltac:(constructor) (eq_sym Hs)) as (_ & [(_ & [=] & _)|(_ & Ht & p & s & Hp & Hb & Hrep)]).
  exists p, s. split; [exact Hp|]. split; [|exact Hrep]. rewrite Ht in Hb.
  apply (single_row p _ Hp); [|exact Hb].
  destruct relayed_read as (bytes & Hbytes & (Hw & _)%w_slice_Some); [exact Hw|exact Hbytes].
Qed.

Lemma mempool_refines_replay_witness :
  let '(n', r) := insert_pending_operation toy_network (relayed 140000) false true toy_node in
  (nd_stored n', r) = insert_reference toy_network ledger2 (relayed 140000) false true [].
Proof.
  destruct toy_node_started as (past & Hlog & Hr).
  pose proof (mempool_refines_replay toy_network past toy_node (relayed 140000) false true Hr relayed_read) as Hs.
  destruct (insert_pending_operation _ _ _ _ _) as [n' r]. destruct Hs as (_ & _ & [Hs|((raw & o & Hin & _) & _)]).
  - exact Hs.
  - rewrite Hlog in Hin. by apply not_elem_of_nil in Hin.
Defined.

Lemma mempool_insert_sound_witness :
  nd_stored pending_node = [w_enc wire_operation (relayed 140000)] /\
  table_replays toy_network ledger2 (nd_stored pending_node).
Proof.
  destruct toy_node_reachable as [past Hr]. destruct relayed_inserted as [id Hi].
  destruct (mempool_insert_sound toy_network past toy_node (relayed 140000) false true pending_node id
    Hr relayed_read Hi) as (_ & [(_ & Hd & _)|(_ & Hs & Ht)]); [discriminate Hd|].
  split; [exact Hs|exact Ht].
Defined.

Lemma relayed_ok chain :
  chain_context toy_network = Ok chain -> operation_ok chain PROGRAM_ID_ZERO (relayed 140000).
Proof.
  intros Hc. vm_compute in Hc. injection Hc as <-. split.
  - split; [by apply hash_wf_compute|by apply digits_compute|by repeat constructor].
  - intros commitment Hc. vm_compute in Hc. injection Hc as <-.
    split; [by repeat constructor|by split|].
    intros [|[|i]] Hi; [..|vm_compute in Hi; lia]; apply (bool_decide_unpack _); vm_compute; reflexivity.
Qed.

(** The pending transfer survives a tip that does not include it. *)
Lemma reconcile_exact_witness :
  reconcile_pending_operations toy_network ledger2 [relayed 140000] ∅ = Returned [relayed 140000].
Proof.
  destruct (chain_context toy_network) as [chain|] eqn:Hc; [|vm_compute in Hc; discriminate].
  destruct (reconcile_exact toy_network _ ledger2 chain [relayed 140000] ∅ ledger2_ok Hc
    (Forall_cons_2 _ _ _ (relayed_ok chain Hc) (Forall_nil_2 _))) as (retained & Hr & _ & _ & _ & Hkeep).
  destruct mempool_insert_table as (p & s & Hp & Hb & Hrep).
  rewrite Hr. f_equal. apply (Hkeep p s Hp Hb); [|exact Hrep].
  apply Forall_true. intros e. apply not_elem_of_empty.
Defined.
End example.
