(* ===== verification/Mining.v ===== *)
(** * Mining

    Models [runtime/src/node/mining.rs]: choosing pending operations that fit a
    block, building the candidate on the current ledger, and committing the
    mined block with what stays pending.  The search for its nonce is in
    [NonceSearch].

    Logging, timing and the dashboard are left out.  After a block is persisted
    the node refreshes its cache ([update_ledger_cache]): it brings the header
    checkpoints up to date and drops journals and bodies past its retention
    windows, which is left out here together with the errors it can return;
    [BranchSync] has it.  The argument [disk]
    says whether the database transaction commits, which includes encoding the
    block's index rows. *)

From S2P Require Import Prelude Target Codec Monetary Index Coin Vm Registry Calls Wire Authorize Policy Block Chain Consensus.
From S2P Require Import Assets State StateRoot CoinHost AssetHost Settlement Engine Apply Ledger LedgerProps Genesis Mempool.
#[local] Open Scope Z_scope.

Definition set_state_root (b : Block) (root : Hash) : Block :=
  {| header := {| previous_hash := previous_hash (header b); h_merkle_root := h_merkle_root (header b);
                  h_state_root := root; target_bits := target_bits (header b);
                  block_weight := block_weight (header b); h_nonce := h_nonce (header b) |};
     height := height b; body := body b |}.

Definition set_block_weight (b : Block) (weight : Z) : Block := with_weight b weight.

(** ** Candidates *)

Section mining.
Context `{Sha3} `{Argon2} `{SignatureBackend} `{RootTest}.
Context (network : Network).

Definition expected_next_emission (ledger : Ledger) (operations : list BlockOperation)
    : result NodeError Z :=
  map_err NodeEmission (expected_emission_for_operations (next_height (g_chain ledger)) operations).

Definition candidate_operation_block (ledger : Ledger) (miner : ProgramId)
    (operations : list BlockOperation) : Run NodeError Block :=
  previous ← run_lift (ok_or (tip_hash (g_chain ledger)) MissingTip);
  difficulty ← run_lift (map_err NodeConsensus (expected_next_difficulty (g_chain ledger)));
  subsidy ← run_lift (expected_next_emission ledger operations);
  block ← run_lift (map_err NodeCodec
    (from_protocol_operations (next_height (g_chain ledger)) previous difficulty 0
       (Some {| em_to := miner; em_subsidy := subsidy |}) operations));
  '(root, weight) ← run_map_err InvalidCall (preview_block_commitments ledger block);
  mret (set_block_weight (set_state_root block root) weight).

(** Operations in pool order while the block stays within its size; the first
    that does not fit ends the selection. *)
Fixpoint select_operations (weight : Z) (mempool : list BlockOperation)
    : result NodeError (list BlockOperation) :=
  match mempool with
  | [] => Ok []
  | operation :: mempool =>
      operation_weight ← map_err NodeCodec (bytes ← operation_bytes operation; canonical_length bytes);
      match checked_add 64 weight operation_weight with
      | None => Ok []
      | Some candidate_weight =>
          if MAX_BLOCK_SIZE <? candidate_weight then Ok []
          else
            selected ← select_operations candidate_weight mempool;
            Ok (operation :: selected)
      end
  end.

Definition select_block_operations (ledger : Ledger) (miner : ProgramId)
    (mempool : list BlockOperation) : Run NodeError (list BlockOperation) :=
  empty_block ← candidate_operation_block ledger miner [];
  run_lift (select_operations (block_weight (header empty_block)) mempool).

Definition build_mining_candidate (miner : ProgramId) (self : Node)
    : Node * Run NodeError (list BlockOperation * Block) :=
  match load_pending_pool (nd_stored self) (nd_cache self) with
  | Err e => (self, Returned (Err e))
  | Ok (pool, cache) =>
      let self := with_pool (nd_stored self) cache self in
      let ledger := nd_ledger self in
      (self,
       operations ← select_block_operations ledger miner (pe_operation <$> pp_entries pool);
       _ ← validate_pending_operations network ledger cache operations;
       block ← candidate_operation_block ledger miner operations;
       _ ← run_lift (map_err InvalidCandidate (block_validate block));
       mret (operations, block))
  end.

(** ** Committing a mined block *)

Definition persist_mined_block (operations : list BlockOperation) (block : Block) (disk : bool)
    (self : Node) : Node * Run NodeError unit :=
  let ledger := nd_ledger self in
  if negb (bool_decide (tip_hash (g_chain ledger) = Some (previous_hash (header block))))
  then (self, Returned (Err StaleCandidate))
  else
    let burned_before := total_burned (coin_record (g_state ledger)) in
    match apply_block ledger_consensus_error None block ledger with
    | (_, Err Unwound) => (self, Panicked)
    | (_, Err e) => (self, Returned (Err (NodeLedger e)))
    | (ledger, Ok _) =>
        match
          _ ← ok_or (Zeno.checked_sub (total_burned (coin_record (g_state ledger))) burned_before)
                BurnDecreased;
          ids ← collect (fun operation => map_err NodeCodec (operation_id operation)) operations;
          loaded ← load_pending_pool (nd_stored self) (nd_cache self);
          Ok (list_to_set ids : gset Hash, loaded)
        with
        | Err e => (self, Returned (Err e))
        | Ok (included, (pool, cache)) =>
            let self := with_pool (nd_stored self) cache self in
            match
              reconcile_pending_operations network ledger (pe_operation <$> pp_entries pool) included
            with
            | Panicked => (self, Panicked)
            | Returned remaining =>
                match encode_pending_operations remaining with
                | Err e => (self, Returned (Err e))
                | Ok encoded =>
                    if disk
                    then ({| nd_ledger := ledger; nd_stored := encoded; nd_cache := nd_cache self;
                             nd_rejections := nd_rejections self |}, Returned (Ok tt))
                    else (self, Returned (Err DiskError))
                end
            end
        end
    end.
End mining.
