(* ===== verification/MiningProps.v ===== *)
(** * Mined blocks are accepted

    A candidate commits to the state its own execution leads to, and nothing a
    miner changes afterwards enters that execution: with a nonce that meets the
    target, the candidate is admitted by the ledger it was built on, and the
    node that commits it keeps a pool that replays on the new tip. *)

From S2P Require Import Prelude Target Codec Monetary Index Coin Vm Registry Calls Wire Authorize Policy Block Chain Consensus.
From S2P Require Import Assets State StateRoot CoinHost AssetHost Settlement Engine SettleFacts EngineProps VmTypes Apply ApplyFacts Growth.
From S2P Require Import Ledger LedgerProps Genesis Mempool MempoolProps Mining.
#[local] Open Scope Z_scope.

Section candidates.
Context `{Sha3} {Hspec : Sha3Spec} `{Argon2} `{SignatureBackend} `{RootTest} {Hroot : RootTestSpec}.
Context (network : Network).

(** ** What a nonce, a root and a weight leave alone *)

Definition reheader (b : Block) (root : Hash) (weight nonce : Z) : Block :=
  with_nonce (set_block_weight (set_state_root b root) weight) nonce.

Lemma reheader_size b root weight nonce :
  length root = length (h_state_root (header b)) -> block_size (reheader b root weight nonce) = block_size b.
Proof.
  intros Hl. transitivity (block_size (with_weight (reheader b root weight nonce) weight)); [done|].
  transitivity (block_size (with_weight b (block_weight (header b)))); [|by destruct b as [[] ? ?]].
  unfold block_size, block_bytes.
  change (block_encodable (with_weight (reheader b root weight nonce) weight)) with (block_encodable b).
  change (block_encodable (with_weight b _)) with (block_encodable b).
  destruct (block_encodable b); [|done]. cbn [mbind result_mbind].
  rewrite !weight_field_width, !length_app, !length_le_bytes. cbn [header reheader with_nonce set_block_weight
    with_weight set_state_root h_state_root previous_hash h_merkle_root height body]. by rewrite Hl.
Qed.

Lemma execute_reheader l b root weight nonce context :
  g_context l = Some context -> length root = length (h_state_root (header b)) ->
  execute_block l (reheader b root weight nonce) = execute_block l b.
Proof.
  intros Hc Hl. unfold execute_block, execute_block_with_checkpoint, weight_u32, context_for.
  rewrite Hc, reheader_size by done. reflexivity.
Qed.

Lemma validate_with_nonce b nonce : block_validate (with_nonce b nonce) = block_validate b.
Proof.
  assert (block_size (with_nonce b nonce) = block_size b) as Hs.
  { rewrite <- (reheader_size b (h_state_root (header b)) (block_weight (header b)) nonce); [|done].
    by destruct b as [[] ? ?]. }
  unfold block_validate, capped_size. rewrite Hs. reflexivity.
Qed.

Lemma state_root_length s root : state_root_of s = Ok root -> length root = HASH_SIZE.
Proof using Hspec.
  unfold state_root_of, application_state_root. intros Hr%map_err_Ok_inv.
  destruct (state_is_empty s); [by injection Hr as <-|]. unfold hash_canonical_state in Hr.
  apply bind_Ok in Hr as (n & _ & Hr). apply guard_err_Ok in Hr as [_ [= <-]]. apply (sha3_wf _).
Qed.

(** What a successful execution went through. *)
Lemma execute_block_Ok l b x :
  execute_block l b = Returned (Ok x) ->
  validate_next_block (g_chain l) b = Ok tt /\ state_root_of (x_state x) = Ok (x_state_root x) /\
  (is_genesis b = false -> exists e, authorize_emission (previous_hash (header b)) (height b)
     (b_emission (body b)) (b_operations (body b)) = Ok e).
Proof.
  unfold execute_block, execute_block_with_checkpoint. intros Hx.
  apply returns_bind in Hx as ([] & Hn & Hx). apply returns_lift, map_err_Ok_inv in Hn.
  do 2 apply returns_bind in Hx as (? & _ & Hx). apply returns_bind in Hx as (context & _ & Hx).
  apply returns_bind in Hx as ([[js root] s] & Hb & Hx). injection Hx as <-. cbn [x_state x_state_root].
  unfold execute_body in Hb. apply staged_bind_Ok in Hb as ([sub progress] & s1 & He & Hb).
  apply staged_bind_Ok in Hb as ([burns journals] & s2 & _ & Hb).
  do 3 apply staged_bind_Ok in Hb as (? & ? & _ & Hb).
  apply staged_bind_Ok in Hb as (root' & s3 & Hr & Hb). apply stage_check_Ok in Hr as [Hr ->].
  injection Hb as <- <- <-. split_and!; [done|done|]. intros Hg. unfold execute_emission in He. rewrite Hg in He.
  apply staged_bind_Ok in He as (e & s4 & He & _). apply stage_lift_Ok in He as [He%map_err_Ok_inv _]. eauto.
Qed.

(** ** Candidates *)

Lemma context_known hs l tip :
  ledger_ok hs l -> tip_hash (g_chain l) = Some tip -> exists context, g_context l = Some context.
Proof.
  intros Hl Ht. rewrite (lo_context _ _ Hl). destruct hs as [|h hs]; [|by eexists].
  by rewrite (co_tip_hash _ _ (lo_chain _ _ Hl)) in Ht.
Qed.

(** A candidate is the next block of its ledger, claims the prescribed
    difficulty, and commits to the weight and the root of its own execution,
    whatever its nonce. *)
Lemma candidate_Ok hs l miner ops b :
  ledger_ok hs l -> candidate_operation_block l miner ops = Returned (Ok b) ->
  b_operations (body b) = ops /\
  (exists subsidy, b_emission (body b) = Some {| em_to := miner; em_subsidy := subsidy |} /\
     calculate_merkle_root (b_emission (body b)) ops = Ok (h_merkle_root (header b)) /\
     length (h_state_root (header b)) = HASH_SIZE) /\
  height b = next_height (g_chain l) /\
  tip_hash (g_chain l) = Some (previous_hash (header b)) /\
  expected_difficulty (g_chain l) (height b) = Ok (target_bits (header b)) /\
  block_size b = Ok (block_weight (header b)) /\
  exists x, (forall nonce, execute_block l (with_nonce b nonce) = Returned (Ok x)) /\
    x_block_weight x = block_weight (header b) /\ x_state_root x = h_state_root (header b).
Proof using Hspec.
  intros Hl Hc. unfold candidate_operation_block in Hc.
  apply returns_bind in Hc as (previous & Hp & Hc). apply returns_lift, ok_or_Ok in Hp.
  apply returns_bind in Hc as (bits & Hd & Hc). apply returns_lift, map_err_Ok_inv in Hd.
  apply returns_bind in Hc as (subsidy & Hs & Hc).
  apply returns_bind in Hc as (b0 & Hb & Hc). apply returns_lift, map_err_Ok_inv in Hb.
  apply returns_bind in Hc as ([root weight] & Hv & Hc). injection Hc as <-.
  unfold from_protocol_operations in Hb. apply bind_Ok in Hb as (mroot & Hm & Hb).
  apply refresh_block_weight_Ok in Hb as (w & -> & Hsz & _).
  set (b0 := with_weight _ w) in *.
  assert (exists x, execute_block l b0 = Returned (Ok x) /\ root = x_state_root x /\
    weight = x_block_weight x) as (x & Hx & -> & ->).
  { unfold preview_block_commitments in Hv. destruct (execute_block l b0) as [[x|]|]; [|done..].
    injection Hv as <- <-. by exists x. }
  pose proof (execute_block_Ok _ _ _ Hx) as (_ & Hr & _). apply state_root_length in Hr.
  assert (exists context, g_context l = Some context) as [context Hcx].
  { by eapply context_known. }
  assert (forall nonce, execute_block l (reheader b0 (x_state_root x) (x_block_weight x) nonce)
    = Returned (Ok x)) as Hall.
  { intros nonce. by rewrite (execute_reheader l b0 _ _ _ context). }
  assert (x_block_weight x = w) as Hw.
  { unfold execute_block, execute_block_with_checkpoint in Hx.
    do 2 apply returns_bind in Hx as (? & _ & Hx). apply returns_bind in Hx as (w' & Hw & Hx).
    apply returns_bind in Hx as (? & _ & Hx). apply returns_bind in Hx as ([[js root] s] & _ & Hx).
    injection Hx as <-. apply returns_lift in Hw. unfold weight_u32 in Hw. rewrite Hsz in Hw.
    cbn [map_err mbind result_mbind] in Hw. apply ok_or_Ok in Hw. unfold try_from in Hw.
    cbn [x_block_weight]. case_match; [by injection Hw|done]. }
  split_and!; [done|by exists subsidy|done|done|exact Hd| |].
  - transitivity (block_size b0); [|by rewrite Hsz, <- Hw].
    by apply (reheader_size b0 (x_state_root x) (x_block_weight x) (h_nonce (header b0))).
  - exists x. by split_and!.
Qed.

(** With a nonce that meets the target, the ledger admits the candidate. *)
Lemma candidate_applies hs l miner ops b nonce :
  ledger_ok hs l -> candidate_operation_block l miner ops = Returned (Ok b) ->
  block_validate b = Ok tt -> pow_meets (header (with_nonce b nonce)) (target_bits (header b)) ->
  exists e l', let v := {| v_block := with_nonce b nonce; v_emission := Some e |} in
    apply_validated_block v l = (l', Ok tt) /\ 0 < height b /\
    apply_block ledger_consensus_error None (with_nonce b nonce) l = (l', Ok tt).
Proof using Hspec.
  intros Hl Hc Hv Hpow.
  pose proof (candidate_Ok hs l miner ops b Hl Hc) as (_ & _ & Hh & Ht & Hd & _ & x & Hx & Hw & Hr).
  pose proof (execute_block_Ok _ _ _ (Hx nonce)) as (Hn & _ & He).
  pose proof (lo_chain _ _ Hl) as Hchain.
  assert (0 < height b) as Hpos.
  { pose proof (proj1 (next_height_fits _ _ Hchain)) as Hnn. rewrite Hh in *.
    rewrite (co_tip_hash _ _ Hchain) in Ht. destruct hs as [|h hs]; [done|].
    unfold next_height. rewrite (co_tip _ _ Hchain). unfold checked_sub. cbn [length].
    destruct (Z.ltb_spec (Z.of_nat (S (length hs))) 1); [lia|]. unfold saturating_add. lia. }
  destruct He as [e He]; [unfold is_genesis; apply Z.eqb_neq; cbn; lia|].
  assert (extends hs (with_nonce b nonce)) as Hext.
  { apply (validate_next_spec hs (g_chain l)); [done|cbn; lia|done]. }
  exists e. 
  assert (exists l', apply_validated_block {| v_block := with_nonce b nonce; v_emission := Some e |} l
    = (l', Ok tt)) as [l' Ha].
  { unfold apply_validated_block. cbn [v_block]. rewrite Hx, Hw, Hr.
    cbn [header with_nonce block_weight h_state_root]. rewrite Z.eqb_refl, bool_decide_eq_true_2 by done.
    cbn [negb]. unfold insert_block. rewrite Hn. cbn [mbind result_mbind]. by eexists. }
  exists l'. split_and!; [done|done|]. unfold apply_block.
  change (consensus_chain l) with (g_chain l).
  replace (has_blocks (g_chain l)) with true.
  2: { symmetry. apply bool_decide_eq_true_2. rewrite (co_tip _ _ Hchain).
       rewrite (co_tip_hash _ _ Hchain) in Ht. destruct hs as [|h hs]; [done|]. unfold checked_sub.
       cbn [length]. destruct (Z.ltb_spec (Z.of_nat (S (length hs))) 1); [lia|by eexists]. }
  replace (validate_for_apply (with_nonce b nonce) (g_chain l) true None)
    with (Ok (E := ConsensusError) {| v_block := with_nonce b nonce; v_emission := Some e |}); [done|].
  symmetry. apply (validate_for_apply_Ok hs); [done|done|by left|]. rewrite validate_with_nonce.
  split_and!; [done|done|exists (target_bits (header b)); by split|by exists e].
Qed.

(** ** What stays pending *)

Definition pool_of (entries : list PendingEntry) : PendingPool :=
  {| pp_entries := entries; pp_ids := list_to_set (pe_id <$> entries);
     pp_total_bytes := zsum ((fun e => Z.of_nat (length (pe_bytes e))) <$> entries);
     pp_fingerprint := fingerprint_of (pe_id <$> entries); pp_validated := None |}.

Lemma zsum_sublist l1 l2 : Forall (fun x => 0 <= x) l2 -> l1 `sublist_of` l2 -> zsum l1 <= zsum l2.
Proof.
  intros Hn Hs. induction Hs as [|x l1 l2 Hs IH|x l1 l2 Hs IH]; [done|..];
    apply Forall_cons in Hn as [Hx Hn]; rewrite !zsum_cons || rewrite zsum_cons; specialize (IH Hn); lia.
Qed.

Lemma fmap_sublist {A B} (f : A -> B) l1 l2 : l1 `sublist_of` l2 -> f <$> l1 `sublist_of` f <$> l2.
Proof. induction 1; cbn; by constructor. Qed.

Lemma sub_pool p entries :
  pool_ok p -> entries `sublist_of` pp_entries p -> pool_ok (pool_of entries).
Proof.
  intros [Hes _ Hu Ht Hs Hc _] Hsub. split; cbn; try done.
  - rewrite Forall_forall in Hes |- *. intros e He. by eapply Hes, elem_of_sublist.
  - eapply sublist_NoDup; [exact Hu|]. by apply fmap_sublist.
  - etrans; [|exact Hs]. rewrite Ht. apply zsum_sublist; [|by apply fmap_sublist].
    apply Forall_fmap, Forall_true. cbn. lia.
  - apply sublist_length in Hsub. lia.
Qed.

(** Entries computed from operations of a good pool are entries of the pool. *)
Lemma entries_sublist p retained entries :
  pool_ok p -> retained `sublist_of` (pe_operation <$> pp_entries p) ->
  Forall2 (fun o e => entry_new o = Ok e) retained entries -> entries `sublist_of` pp_entries p.
Proof.
  intros [Hes _ _ _ _ _ _]. revert retained entries.
  induction Hes as [|e es He Hes IH]; intros retained entries Hsub Hf; cbn [fmap list_fmap] in Hsub.
  - apply sublist_nil_r in Hsub as ->. apply Forall2_nil_inv_l in Hf as ->. done.
  - apply sublist_cons_r in Hsub as [Hsub|(retained' & -> & Hsub)]; [apply sublist_cons; by eapply IH|].
    apply Forall2_cons_inv_l in Hf as (e' & entries' & He' & Hf & ->).
    rewrite (ek_new _ He) in He'. injection He' as <-. apply sublist_skip. by eapply IH.
Qed.

Lemma collect_Ok {E A B} (f : A -> result E B) (g : A -> B) l :
  Forall (fun a => f a = Ok (g a)) l -> collect f l = Ok (g <$> l).
Proof. induction 1 as [|a l Ha _ IH]; [done|]. cbn [collect]. rewrite Ha. cbn. by rewrite IH. Qed.

Lemma stored_total_Ok raw overflow :
  zsum ((fun b : list Z => Z.of_nat (length b)) <$> raw) < 2 ^ 64 ->
  stored_total raw overflow = Ok (zsum ((fun b : list Z => Z.of_nat (length b)) <$> raw)).
Proof.
  unfold stored_total. rewrite <- (Z.add_0_l (zsum _)). generalize 0.
  induction raw as [|b raw IH]; intros n Hn; cbn [try_fold fmap list_fmap] in *; [by rewrite Z.add_0_r|].
  rewrite zsum_cons in *.
  assert (0 <= zsum ((fun b : list Z => Z.of_nat (length b)) <$> raw))
    by (apply zsum_nonneg, Forall_fmap, Forall_true; cbn; lia).
  rewrite (proj2 (checked_add_Some 64 _ _ _)) by (split; [done|lia]). cbn [ok_or mbind result_mbind].
  rewrite IH by lia. f_equal. lia.
Qed.

Lemma encode_pool p :
  pool_ok p -> encode_pending_operations (pe_operation <$> pp_entries p) = Ok (pe_bytes <$> pp_entries p).
Proof.
  intros [Hes _ _ Ht Hs Hc _]. unfold encode_pending_operations.
  rewrite (collect_Ok _ (w_enc wire_operation)).
  2: { apply Forall_fmap. eapply Forall_impl; [exact Hes|]. intros e He. cbn. unfold operation_bytes.
       by rewrite wf_encodable by apply He. }
  assert (w_enc wire_operation <$> (pe_operation <$> pp_entries p) = pe_bytes <$> pp_entries p) as ->.
  { rewrite <- list_fmap_compose. apply list_fmap_ext. intros i e Hi. cbn. symmetry. apply entry_bytes.
    by eapply Forall_lookup_1. }
  cbn [mbind result_mbind]. rewrite stored_total_Ok; rewrite <- list_fmap_compose.
  - cbn [mbind result_mbind]. unfold guard_err. rewrite length_fmap.
    rewrite (proj2 (Z.ltb_ge _ _)), (proj2 (Z.ltb_ge _ _)); [done|done|]. by rewrite Ht in Hs.
  - rewrite Ht in Hs. eapply Z.le_lt_trans; [exact Hs|done].
Qed.

(** Reconciling a good pool leaves a good pool, without the included. *)
Lemma reconcile_pool hs l p chain included :
  ledger_ok hs l -> chain_context network = Ok chain -> pool_ok p ->
  Forall (operation_ok chain PROGRAM_ID_ZERO) (pe_operation <$> pp_entries p) ->
  exists entries, reconcile_pending_operations network l (pe_operation <$> pp_entries p) included
      = Returned (pe_operation <$> entries) /\
    entries `sublist_of` pp_entries p /\ pool_ok (pool_of entries) /\
    Forall (fun e => pe_id e ∉ included) entries /\
    exists s, replay_pending_pool network l (pool_of entries) = Returned (Ok s).
Proof using Hspec Hroot.
  intros Hl Hchain Hp Ho. unfold reconcile_pending_operations, replay_pending_pool. rewrite Hchain.
  destruct (past_ok _ _ _ (lo_past _ _ Hl)) as [Hs _].
  destruct (reconcile_loop_returns chain (next_height (g_chain l)) included _ ∅ 0 (g_state l) Hs Ho
    (next_height_fits _ _ (lo_chain _ _ Hl))) as [retained Hr].
  pose proof (reconcile_loop_sound chain (next_height (g_chain l)) included _ ∅ 0
    (g_state l) retained ltac:(done) Hr) as (Hsub & _ & entries & s' & He & _ & Hf & Hrep).
  pose proof (entries_sublist p retained entries Hp Hsub He) as Hes. exists entries.
  assert (retained = pe_operation <$> entries) as ->.
  { clear -He. induction He as [|o e os es Ho _ IH]; [done|]. cbn. f_equal; [|done].
    by apply entry_new_Ok in Ho as (-> & _). }
  split_and!; [done|done|by eapply sub_pool| |by exists s'].
  eapply Forall_impl; [exact Hf|]. by intros e [].
Qed.

Lemma build_Ok past n n1 miner ops b :
  node_ok network past n -> build_mining_candidate network miner n = (n1, Returned (Ok (ops, b))) ->
  (exists p, load_cold (nd_stored n) = Ok p) /\ node_ok network past n1 /\
  nd_ledger n1 = nd_ledger n /\ nd_stored n1 = nd_stored n /\
  candidate_operation_block (nd_ledger n) miner ops = Returned (Ok b) /\ block_validate b = Ok tt.
Proof.
  intros Hn Hb. unfold build_mining_candidate in Hb.
  destruct (load_pending_pool _ _) as [[p cache]|] eqn:Hload; [|done].
  apply (node_ok_load network past) in Hload as (Hn1 & -> & Hp & Hcold & _); [|done].
  apply pair_equal_spec in Hb as [<- Hb].
  apply returns_bind in Hb as (ops' & _ & Hb). apply returns_bind in Hb as ([] & _ & Hb).
  apply returns_bind in Hb as (b' & Hcand & Hb). apply returns_bind in Hb as ([] & Hv & Hb).
  apply returns_lift, map_err_Ok_inv in Hv. injection Hb as <- <-. split_and!; by eauto.
Qed.

Lemma block_ids b size :
  block_size b = Ok size ->
  collect (fun o => map_err NodeCodec (operation_id o)) (b_operations (body b))
  = Ok ((fun o => domain Operation (w_enc wire_operation o)) <$> b_operations (body b)).
Proof.
  intros Hs. apply collect_Ok. unfold block_size, block_bytes in Hs.
  destruct (block_encodable b) eqn:He; [|done]. unfold block_encodable in He.
  rewrite forallb_forall in He. apply Forall_forall. intros o Ho%list_elem_of_In%He.
  unfold operation_id, operation_bytes. by rewrite Ho.
Qed.

(** Mining succeeds.  Whatever candidate a node builds, a nonce whose proof of
    work meets the candidate's target makes a block that the node commits as
    long as its tip stays: the block is appended to the ledger, which stays
    sound, and the table keeps, in order, pending operations that apply one
    after the other on the new tip, and none of the block's own. *)
Lemma mined_block_commits past hs n n1 miner ops b chain nonce :
  pool_reachable network (past, n) -> ledger_ok hs (nd_ledger n) -> chain_context network = Ok chain ->
  build_mining_candidate network miner n = (n1, Returned (Ok (ops, b))) ->
  (forall p, load_cold (nd_stored n) = Ok p ->
     Forall (operation_ok chain PROGRAM_ID_ZERO) (pe_operation <$> pp_entries p)) ->
  block_ops_ok (nd_ledger n) b ->
  pow_meets (header (with_nonce b nonce)) (target_bits (header b)) ->
  exists n', persist_mined_block network ops (with_nonce b nonce) true n1 = (n', Returned (Ok tt)) /\
    ledger_ok (hs ++ [header (with_nonce b nonce)]) (nd_ledger n') /\
    b_operations (body b) = ops /\
    nd_stored n' `sublist_of` nd_stored n /\ table_replays network (nd_ledger n') (nd_stored n') /\
    Forall (fun o => w_enc wire_operation o ∉ nd_stored n') ops.
Proof using Hspec Hroot.
  intros Hn%pool_reachable_ok Hl Hchain Hb Hpend Hops Hpow. cbn [fst snd] in Hn.
  destruct (build_Ok past n n1 miner ops b Hn Hb) as ([p0 Hcold] & Hn1 & Hled & Hst & Hcand & Hv).
  destruct (candidate_Ok hs _ miner ops b Hl Hcand) as (Hbo & _ & Hh & Ht & _ & Hsz & _).
  destruct (candidate_applies hs _ miner ops b nonce Hl Hcand Hv Hpow) as (e & l' & Hav & Hpos & Ha).
  destruct (context_known hs _ _ Hl Ht) as [context Hcx].
  assert (block_ops_ok (nd_ledger n) (with_nonce b nonce)) as Hops'
    by (unfold block_ops_ok in *; by rewrite Hcx in * ).
  pose proof (apply_block_spec hs _ _ _ _ Hl
    (Hops' : block_ops_ok _ (v_block {| v_block := with_nonce b nonce; v_emission := Some e |}))
    ltac:(cbn; lia) Hav) as (js & _ & Hl' & Hbody & _).
  pose proof (load_transparent (nd_stored n1) (nd_cache n1) (nk_stored _ _ _ Hn1) (nk_cache _ _ _ Hn1)) as Hload.
  rewrite Hst, Hcold in Hload. unfold persist_mined_block. rewrite Hled, Hst.
  rewrite bool_decide_eq_true_2 by (by rewrite Ht). cbn [negb]. rewrite Ha.
  assert (total_burned (coin_record (g_state (nd_ledger n))) <= total_burned (coin_record (g_state l')))
    as Hburn.
  { destruct Hbody as [[Htr _ Hbs] _ _ _ _ _]. rewrite (trail_burned _ _ _ Htr).
    pose proof (zsum_nonneg (protocol_burn <$> js) ltac:(by apply Forall_fmap)). lia. }
  unfold Zeno.checked_sub, checked_sub. rewrite (proj2 (Z.ltb_ge _ _) Hburn).
  cbn [ok_or mbind result_mbind]. rewrite <- Hbo, (block_ids b _ Hsz). cbn [mbind result_mbind].
  destruct (load_pending_pool (nd_stored n) (nd_cache n1)) as [[p c]|]; [|done].
  destruct Hload as (Hcold' & Hp & Hbytes & _ & _). cbn [mbind result_mbind].
  injection Hcold' as ->. specialize (Hpend _ Hcold). cbn [pp_entries set_validated] in Hpend.
  destruct (reconcile_pool _ l' p chain (list_to_set ((fun o => domain Operation (w_enc wire_operation o))
    <$> b_operations (body b))) Hl' Hchain Hp Hpend) as (entries & -> & Hsub & Hpe & Hinc & s & Hrep).
  rewrite (encode_pool (pool_of entries) Hpe : encode_pending_operations (pe_operation <$> entries) = _).
  eexists. split; [reflexivity|]. cbn [nd_ledger nd_stored pp_entries pool_of]. split_and!.
  - exact Hl'.
  - done.
  - rewrite <- Hbytes. by apply fmap_sublist.
  - by exists (pool_of entries), s.
  - apply Forall_forall. intros o Ho Hin. apply list_elem_of_fmap in Hin as (e' & Heq & Hin).
    rewrite Forall_forall in Hinc. apply (Hinc e' Hin).
    pose proof (pk_entries _ Hpe) as Hes. rewrite Forall_forall in Hes.
    pose proof (entry_new_Ok _ _ (ek_new _ (Hes e' Hin))) as (_ & _ & _ & ->). rewrite <- Heq.
    apply elem_of_list_to_set. apply list_elem_of_fmap. by exists o.
Qed.

(** ** Selection *)

Lemma length_parent_tree t :
  Forall (fun h => length h = HASH_SIZE) (flatten t) -> length (tree_hash t) = HASH_SIZE.
Proof using Hspec.
  destruct t; cbn; intros Hf; [by apply Forall_cons in Hf as [? _]|]. apply (sha3_wf _).
Qed.

Lemma merkle_root_length e ops root :
  Z.of_nat (length ops) < 2 ^ 31 -> calculate_merkle_root (Some e) ops = Ok root -> length root = HASH_SIZE.
Proof using Hspec.
  intros Hl Hr. cbn in Hr. apply bind_Ok in Hr as (leaves & Hlv & Hr%ok_or_Ok).
  unfold merkle_leaves, operation_ids in Hlv. apply bind_Ok in Hlv as (ids & Hids & [= <-]).
  assert (length ids = length ops /\ Forall (fun h => length h = HASH_SIZE) ids) as [Hn Hf].
  { clear -Hids Hspec. revert ids Hids. induction ops as [|o ops IH]; intros ids Hids; cbn [collect] in Hids.
    { by injection Hids as <-. }
    apply bind_Ok in Hids as (id & Hid & Hids). apply bind_Ok in Hids as (ids' & Hids & [= <-]).
    destruct (IH ids' Hids) as [Hn Hf]. cbn. split; [by rewrite Hn|]. constructor; [|done].
    unfold operation_id in Hid. apply bind_Ok in Hid as (bytes & _ & [= <-]). apply (sha3_wf _). }
  apply root_tree in Hr as (t & Ht & <- & _); [|cbn [length]; lia]. apply length_parent_tree. rewrite Ht.
  constructor; [|done]. apply (sha3_wf _).
Qed.

Definition operations_size (ops : list BlockOperation) : Z :=
  zsum ((fun o => Z.of_nat (length (w_enc wire_operation o))) <$> ops).

Lemma length_operations ops :
  Z.of_nat (length (w_enc wire_operations ops)) = 4 + operations_size ops.
Proof.
  cbn [w_enc wire_operations wire_vec wire_limited]. unfold enc_vec, operations_size.
  rewrite length_app, length_le_bytes, Nat2Z.inj_add. f_equal.
  induction ops as [|o ops IH]; [done|]. cbn [fmap list_fmap concat]. rewrite length_app, zsum_cons.
  cbn [w_enc wire_limited]. lia.
Qed.

Lemma candidate_size hs l miner ops b :
  ledger_ok hs l -> Z.of_nat (length ops) < 2 ^ 31 ->
  candidate_operation_block l miner ops = Returned (Ok b) ->
  block_weight (header b) = Z.of_nat (length (default [] (tip_hash (g_chain l))) + length miner + 101)
                            + operations_size ops.
Proof using Hspec.
  intros Hl Hlen Hc.
  pose proof (candidate_Ok hs l miner ops b Hl Hc) as (Hbo & (subsidy & He & Hm & Hs) & _ & Ht & _ & Hsz & _).
  rewrite He in Hm. apply merkle_root_length in Hm; [|done].
  unfold block_size, block_bytes in Hsz. destruct (block_encodable b); [|done].
  pose proof (weight_field_width b (block_weight (header b))) as Hw.
  replace (with_weight b (block_weight (header b))) with b in Hw by (by destruct b as [[] ? ?]).
  rewrite Hw in Hsz. apply (f_equal (fun r : result CodecError Z => match r with Ok n => n | Err _ => 0 end)) in Hsz.
  cbn [mbind result_mbind] in Hsz. rewrite <- Hsz, !length_app, !length_le_bytes, Hs, Hm, Ht, Hbo, He.
  rewrite !Nat2Z.inj_add, length_operations. cbn [w_enc wire_option]. cbn -[Z.of_nat le_bytes Z.add].
  rewrite length_app, length_le_bytes. unfold HASH_SIZE. lia.
Qed.

Lemma operation_length o w :
  (bytes ← operation_bytes o; canonical_length bytes) = Ok w -> w = Z.of_nat (length (w_enc wire_operation o)).
Proof.
  unfold operation_bytes. destruct (encodable _); [|done]. generalize (w_enc wire_operation o). intros bytes.
  cbn [mbind result_mbind]. unfold canonical_length, try_from. destruct (_ <? _); [|done]. by intros [= <-].
Qed.

Lemma select_operations_spec weight pool selected :
  0 <= weight -> select_operations weight pool = Ok selected ->
  selected `prefix_of` pool /\ (selected <> [] -> weight + operations_size selected <= MAX_BLOCK_SIZE) /\
  (forall next rest, pool = selected ++ next :: rest ->
     MAX_BLOCK_SIZE < weight + operations_size (selected ++ [next])).
Proof.
  revert weight selected. induction pool as [|o pool IH]; intros weight selected Hw Hs; cbn [select_operations] in Hs.
  { injection Hs as <-. split_and!; [done|done|]. intros next rest Heq. by destruct rest. }
  apply bind_Ok in Hs as (w & Hwo%map_err_Ok_inv%operation_length & Hs).
  assert (operations_size [o] = w) as Ho
    by (unfold operations_size; rewrite fmap_cons, zsum_cons, <- Hwo; cbn; lia).
  assert (forall selected, operations_size (o :: selected) = w + operations_size selected) as Hcons
    by (intros sel; unfold operations_size; by rewrite fmap_cons, zsum_cons, Hwo).
  assert (MAX_BLOCK_SIZE < weight + w -> [] `prefix_of` o :: pool /\
    (@nil BlockOperation <> [] -> weight + operations_size [] <= MAX_BLOCK_SIZE) /\
    (forall next rest, o :: pool = [] ++ next :: rest ->
       MAX_BLOCK_SIZE < weight + operations_size ([] ++ [next]))) as Hstop.
  { intros Hlt. split_and!; [apply prefix_nil|done|]. cbn [app]. intros next rest [= <- <-]. lia. }
  destruct (checked_add 64 weight w) as [c|] eqn:Hadd.
  2: { injection Hs as <-. apply Hstop. unfold checked_add in Hadd. unfold MAX_BLOCK_SIZE. case_match; [done|]. lia. }
  apply checked_add_Some in Hadd as [-> _].
  destruct (Z.ltb_spec MAX_BLOCK_SIZE (weight + w)) as [Hlt|Hge]; [injection Hs as <-; by apply Hstop|].
  apply bind_Ok in Hs as (sel & Hsel & [= <-]). destruct (IH (weight + w) sel ltac:(lia) Hsel) as (Hp & Hf & Hm).
  split_and!; [by apply prefix_cons| |].
  - intros _. rewrite Hcons. destruct sel as [|o' sel]; [cbn; lia|]. specialize (Hf ltac:(done)). lia.
  - cbn [app]. intros next rest [= Heq]. rewrite Hcons. specialize (Hm next rest Heq). lia.
Qed.

(** (C37) The selection is the longest prefix of the pool that fits a block: the
    candidate built from it serializes to at most the maximum, and with the next
    pending operation it would not. *)
Theorem selection_fits_exactly hs l miner pool selected b :
  ledger_ok hs l -> Z.of_nat (length pool) <= MAX_MEMPOOL_TRANSACTIONS -> length miner = HASH_SIZE ->
  select_block_operations l miner pool = Returned (Ok selected) ->
  candidate_operation_block l miner selected = Returned (Ok b) ->
  selected `prefix_of` pool /\ block_size b = Ok (block_weight (header b)) /\
  block_weight (header b) <= MAX_BLOCK_SIZE /\
  (forall next rest b', pool = selected ++ next :: rest ->
     candidate_operation_block l miner (selected ++ [next]) = Returned (Ok b') ->
     MAX_BLOCK_SIZE < block_weight (header b')).
Proof using Hspec.
  intros Hl Hn Hminer Hs Hb. unfold select_block_operations in Hs.
  apply returns_bind in Hs as (empty & He & Hs). apply returns_lift in Hs.
  pose proof (candidate_size hs l miner [] empty Hl ltac:(done) He) as Hempty.
  change (operations_size []) with 0 in Hempty.
  apply select_operations_spec in Hs as (Hp & Hf & Hm); [|lia].
  pose proof (prefix_length _ _ Hp) as Hlen. unfold MAX_MEMPOOL_TRANSACTIONS, MAX_GOSSIP_INVENTORY_ITEMS in Hn.
  pose proof (candidate_Ok hs l miner selected b Hl Hb) as (_ & _ & _ & Ht & _ & Hsz & _).
  assert (length (default [] (tip_hash (g_chain l))) = HASH_SIZE) as Htip.
  { rewrite (co_tip_hash _ _ (lo_chain _ _ Hl)) in *. destruct (last hs); [|done]. apply (sha3_wf _). }
  split_and!; [done|done| |].
  - rewrite (candidate_size hs l miner selected b Hl ltac:(lia) Hb). destruct selected as [|o selected].
    + change (operations_size []) with 0. rewrite Htip, Hminer. by vm_compute.
    + specialize (Hf ltac:(done)). lia.
  - intros next rest b' -> Hb'. rewrite length_app in Hn. cbn [length] in Hn.
    rewrite (candidate_size hs l miner (selected ++ [next]) b' Hl) by (done || rewrite length_app; cbn; lia).
    specialize (Hm next rest eq_refl). lia.
Qed.
End candidates.

(** ** Mining the pending transfer *)

Section example.
#[local] Existing Instance toy_sha3.
#[local] Existing Instance toy_sha3_spec.
#[local] Existing Instance toy_argon2.
#[local] Existing Instance accept_all.
#[local] Existing Instance toy_roots.
#[local] Existing Instance no_roots_spec.

Definition toy_candidate : Block :=
  match candidate_operation_block ledger2 toy_miner [relayed 140000] with
  | Returned (Ok b) => b
  | _ => sample_block
  end.

Lemma toy_candidate_built :
  candidate_operation_block ledger2 toy_miner [relayed 140000] = Returned (Ok toy_candidate).
Proof.
  assert (match candidate_operation_block ledger2 toy_miner [relayed 140000] with
    | Returned (Ok _) => True | _ => False end) as Hc by (vm_compute; exact I).
  unfold toy_candidate. destruct (candidate_operation_block _ _ _) as [[b|]|]; done.
Qed.

Lemma toy_selection :
  select_block_operations ledger2 toy_miner [relayed 140000] = Returned (Ok [relayed 140000]).
Proof. vm_compute. reflexivity. Qed.

Lemma selection_fits_exactly_witness :
  [relayed 140000] `prefix_of` [relayed 140000] /\ block_weight (header toy_candidate) <= MAX_BLOCK_SIZE.
Proof.
  destruct (selection_fits_exactly _ ledger2 toy_miner [relayed 140000] [relayed 140000] toy_candidate
    ledger2_ok ltac:(vm_compute; discriminate) eq_refl toy_selection toy_candidate_built) as (Hp & _ & Hw & _).
  split; [exact Hp|exact Hw].
Defined.

Definition mined_node : Node := (build_mining_candidate toy_network toy_miner pending_node).1.

Lemma toy_build :
  build_mining_candidate toy_network toy_miner pending_node
  = (mined_node, Returned (Ok ([relayed 140000], toy_candidate))).
Proof.
  assert ((build_mining_candidate toy_network toy_miner pending_node).2
    = Returned (Ok ([relayed 140000], toy_candidate))) as Hb by (vm_compute; reflexivity).
  unfold mined_node. destruct (build_mining_candidate _ _ _) as [n r]. cbn [fst snd] in *. by rewrite Hb.
Qed.

Lemma pending_reachable : exists past, pool_reachable toy_network (past, pending_node).
Proof.
  destruct toy_node_reachable as [past Hr]. eexists. eapply pool_more; [exact Hr|].
  apply step_insert. exact relayed_read.
Qed.

Lemma pending_ledger :
  nd_ledger pending_node = ledger2 /\ nd_stored pending_node = [w_enc wire_operation (relayed 140000)].
Proof.
  destruct toy_node_reachable as [past Hr]. destruct relayed_inserted as [id Hi].
  destruct (insertion_spec toy_network past toy_node (relayed 140000) false true pending_node _
    (pool_reachable_ok _ _ Hr) relayed_read Hi) as (_ & Hl & [Hs|(_ & _ & e & [=])]).
  destruct (insert_reference_Ok toy_network ledger2 (relayed 140000) false true [] _ id relayed_read
    ltac:(constructor) (eq_sym Hs)) as (_ & [(_ & [=] & _)|(_ & Ht & _)]).
  split; [exact Hl|exact Ht].
Qed.

Lemma pending_ok chain p :
  chain_context toy_network = Ok chain -> load_cold (nd_stored pending_node) = Ok p ->
  Forall (operation_ok chain PROGRAM_ID_ZERO) (pe_operation <$> pp_entries p).
Proof.
  intros Hc Hl. destruct pending_ledger as [_ Hst]. rewrite Hst in Hl.
  destruct relayed_read as (bytes & Hbytes & (Hw & ->)%w_slice_Some); [|exact Hbytes].
  pose proof (load_transparent [w_enc wire_operation (relayed 140000)] None
    ltac:(constructor; [exact Hbytes|constructor]) ltac:(discriminate)) as Ht.
  destruct (load_pending_pool _ None) as [[q c]|]; rewrite Hl in Ht; [|discriminate Ht].
  destruct Ht as (Heq & Hq & Hb & _). injection Heq as ->. cbn [pp_entries set_validated].
  rewrite (single_row q _ Hq Hw Hb). constructor; [|constructor]. exact (relayed_ok chain Hc).
Qed.

Lemma toy_candidate_ops : block_ops_ok ledger2 toy_candidate.
Proof.
  destruct (candidate_Ok _ ledger2 toy_miner [relayed 140000] toy_candidate ledger2_ok toy_candidate_built)
    as (Ho & (subsidy & He & _) & _). unfold block_ops_ok, miner_program_id. rewrite Ho, He.
  cbn [em_to]. constructor; [|constructor].
  assert (exists context, g_context ledger2 = Some context) as [context Hcx]
    by (rewrite (lo_context _ _ ledger2_ok); by eexists).
  rewrite Hcx. cbn [default]. vm_compute in Hcx. injection Hcx as <-. split.
  - split; [by apply hash_wf_compute|by apply digits_compute|by repeat constructor].
  - intros commitment Hc. vm_compute in Hc. injection Hc as <-.
    split; [by repeat constructor|by split|].
    intros [|[|i]] Hi; [..|vm_compute in Hi; lia]; apply (bool_decide_unpack _); vm_compute; reflexivity.
Qed.
End example.
