(* ===== verification/NonceSearch.v ===== *)
(** * The nonce search

    Models [mine_until_cancelled] of [runtime/src/miner.rs]: one thread per
    worker, each searching its own lane of nonces, a shared stop flag, a shared
    counter and a locked winner, and the calling thread, which may report the
    template stale.

    A run is driven by a schedule: a list of events, each the next atomic step
    of one worker, or the caller's cancellation.  The flag is accessed with
    relaxed ordering, so a load may miss a store another thread has already
    made: the event says whether this load does.  A panicking worker, which the
    caller turns into [PoWHashFailed], is left out.  The log of hashed nonces is
    for the theorems only. *)

From S2P Require Import Prelude Target Codec Monetary Registry Calls Wire Authorize Policy Block Chain Consensus Genesis.
#[local] Open Scope Z_scope.

(** Where a worker's thread is. *)
Inductive Worker :=
| Starting
| AtLoop (offset : Z)
| Hashing (offset : Z)
| Found (offset : Z)
| Recorded
| Failing (e : ConsensusError)
| Finished (r : result ConsensusError unit).

Record Search := {
  se_workers : list Worker;
  se_stopped : bool;
  se_hashes : Z;
  se_winner : option Z;
  se_cancelled : bool;
  se_rounds : list nat;
  se_log : list (nat * nat);
}.

Inductive Event := Step (worker : nat) (stale : bool) | Cancel.

Definition search_start (workers : nat) : Search :=
  {| se_workers := replicate workers Starting; se_stopped := false; se_hashes := 0;
     se_winner := None; se_cancelled := false; se_rounds := replicate workers 0%nat; se_log := [] |}.

Definition goto (i : nat) (w : Worker) (s : Search) : Search :=
  {| se_workers := <[i := w]> (se_workers s); se_stopped := se_stopped s; se_hashes := se_hashes s;
     se_winner := se_winner s; se_cancelled := se_cancelled s; se_rounds := se_rounds s;
     se_log := se_log s |}.

Definition stop (s : Search) : Search :=
  {| se_workers := se_workers s; se_stopped := true; se_hashes := se_hashes s;
     se_winner := se_winner s; se_cancelled := se_cancelled s; se_rounds := se_rounds s;
     se_log := se_log s |}.

(** [*found = Some(nonce)] unless there is a winner. *)
Definition record_winner (nonce : Z) (s : Search) : Search :=
  {| se_workers := se_workers s; se_stopped := se_stopped s; se_hashes := se_hashes s;
     se_winner := match se_winner s with Some n => Some n | None => Some nonce end;
     se_cancelled := se_cancelled s; se_rounds := se_rounds s; se_log := se_log s |}.

(** [hashes.fetch_add(1)]. *)
Definition count_hash (i : nat) (s : Search) : Search :=
  {| se_workers := se_workers s; se_stopped := se_stopped s; se_hashes := wrap 64 (se_hashes s + 1);
     se_winner := se_winner s; se_cancelled := se_cancelled s;
     se_rounds := alter S i (se_rounds s);
     se_log := se_log s ++ [(i, default 0%nat (se_rounds s !! i))] |}.

(** [if should_cancel() { stopped.store(true); break; }]. *)
Definition cancel (s : Search) : Search :=
  if se_stopped s then s
  else
    {| se_workers := se_workers s; se_stopped := true; se_hashes := se_hashes s;
       se_winner := se_winner s; se_cancelled := true; se_rounds := se_rounds s; se_log := se_log s |}.

Section search.
Context `{Sha3} `{Argon2}.
Context (block : Block) (target : PoWTarget) (stride : Z).

Definition work_at (nonce : Z) : result ConsensusError (list Z) :=
  calculate_work_with_memory POW_ARGON2_MEMORY_KIB (header (with_nonce block nonce)).

(** One atomic step of worker [i]. *)
Definition step_worker (i : nat) (stale : bool) (s : Search) : Search :=
  let stopped := se_stopped s && negb stale in
  match se_workers s !! i with
  | Some Starting => goto i (if stopped then Finished (Ok tt) else AtLoop (wrap 64 (Z.of_nat i))) s
  | Some (AtLoop offset) => goto i (if stopped then Finished (Ok tt) else Hashing offset) s
  | Some (Hashing offset) =>
      match work_at offset with
      | Err e => goto i (Failing e) s
      | Ok hash =>
          goto i (if PoWTarget.meets target hash then Found offset
                  else AtLoop (wrap 64 (offset + stride))) (count_hash i s)
      end
  | Some (Found offset) => goto i Recorded (record_winner offset s)
  | Some Recorded => goto i (Finished (Ok tt)) (stop s)
  | Some (Failing e) => goto i (Finished (Err e)) (stop s)
  | Some (Finished _) | None => s
  end.

Definition run_event (s : Search) (e : Event) : Search :=
  match e with Step i stale => step_worker i stale s | Cancel => cancel s end.

Definition run_search (schedule : list Event) (s : Search) : Search := foldl run_event s schedule.

(** The first error in the order of the workers, if any. *)
Fixpoint worker_error (workers : list Worker) : option ConsensusError :=
  match workers with
  | [] => None
  | Finished (Err e) :: _ => Some e
  | _ :: workers => worker_error workers
  end.

(** What the caller returns once every worker is joined. *)
Definition joined (s : Search) : option (result ConsensusError (option Z)) :=
  if forallb (fun w => match w with Finished _ => true | _ => false end) (se_workers s)
  then Some (match worker_error (se_workers s) with Some e => Err e | None => Ok (se_winner s) end)
  else None.
End search.

(** [None] while a worker still runs. *)
Definition mine_until_cancelled `{Sha3} `{Argon2} (block : Block) (workers : nat) (schedule : list Event)
    : option (result ConsensusError (option Z)) :=
  match PoWTarget.from_compact (target_bits (header block)) with
  | None => Some (Err InvalidDifficulty)
  | Some target =>
      let workers := Nat.max workers 1 in
      joined (run_search block target (Z.of_nat workers) schedule (search_start workers))
  end.

(** ** What every schedule preserves *)

Section facts.
Context `{Sha3} `{Argon2}.
Context (block : Block) (target : PoWTarget) (stride : Z).

(** The nonce worker [i] hashes in its round [k]. *)
Definition lane (i k : nat) : Z := wrap 64 (Z.of_nat i + Z.of_nat k * stride).

Definition winning (nonce : Z) : Prop :=
  fits 64 nonce /\ exists hash, work_at block nonce = Ok hash /\ PoWTarget.meets target hash = true.

(** What one worker's place means. *)
Definition worker_ok (s : Search) (i : nat) (w : Worker) : Prop :=
  match w with
  | Starting => se_rounds s !! i = Some 0%nat
  | AtLoop offset | Hashing offset => exists k, se_rounds s !! i = Some k /\ offset = lane i k
  | Found offset => winning offset
  | Recorded => is_Some (se_winner s)
  | Failing e => exists nonce, work_at block nonce = Err e
  | Finished r => se_stopped s = true /\ match r with Ok _ => True | Err e => exists nonce, work_at block nonce = Err e end
  end.

Record search_ok (s : Search) : Prop := {
  so_workers : forall i w, se_workers s !! i = Some w -> worker_ok s i w;
  so_rounds : length (se_rounds s) = length (se_workers s);
  so_unique : NoDup (se_log s);
  so_log : forall i k, (i, k) ∈ se_log s <-> exists r, se_rounds s !! i = Some r /\ (k < r)%nat;
  so_hashes : se_hashes s = wrap 64 (Z.of_nat (length (se_log s)));
  so_winner : forall nonce, se_winner s = Some nonce -> winning nonce;
  so_stopped : se_stopped s = true -> se_cancelled s = true \/ is_Some (se_winner s) \/
    exists i e, se_workers s !! i = Some (Finished (Err e));
}.

Lemma search_start_ok workers : search_ok (search_start workers).
Proof.
  split; cbn; try done.
  - intros i w [-> Hi]%lookup_replicate. cbn. by apply lookup_replicate.
  - by rewrite !length_replicate.
  - constructor.
  - intros i k. rewrite elem_of_nil. split; [done|]. intros (r & [-> _]%lookup_replicate & Hk). lia.
Qed.

(** Moving one worker, nothing else. *)
Lemma goto_ok i w s :
  search_ok s -> is_Some (se_workers s !! i) -> worker_ok s i w ->
  (forall e, se_workers s !! i <> Some (Finished (Err e))) -> search_ok (goto i w s).
Proof.
  intros [] Hi Hw Hn. split; cbn; try done.
  - intros j w' Hj. destruct (decide (i = j)) as [<-|].
    + rewrite list_lookup_insert_eq in Hj by (by apply lookup_lt_is_Some). by injection Hj as <-.
    + rewrite list_lookup_insert_ne in Hj by done. apply so_workers0 in Hj. by destruct w'.
  - by rewrite length_insert.
  - intros Hs. destruct (so_stopped0 Hs) as [?|[?|(j & e & Hj)]]; [by left|by right; left|]. right; right.
    exists j, e. rewrite list_lookup_insert_ne; [done|]. intros <-. by apply (Hn e).
Qed.

Lemma record_winner_ok nonce s : search_ok s -> winning nonce -> search_ok (record_winner nonce s).
Proof.
  intros [] Hw. split; cbn; try done.
  - intros i w Hi. apply so_workers0 in Hi. destruct w; try done. cbn in *. by destruct (se_winner s).
  - intros n. destruct (se_winner s) as [m|]; [apply so_winner0|by intros [= <-]].
  - intros Hs. right; left. by destruct (se_winner s).
Qed.

Lemma lane_fits i k : fits 64 (lane i k).
Proof. unfold lane, wrap, fits. apply Z.mod_pos_bound. lia. Qed.

Lemma lane_next i k : wrap 64 (lane i k + stride) = lane i (S k).
Proof. unfold lane, wrap. rewrite Z.add_mod_idemp_l by lia. f_equal. lia. Qed.

(** Counting a hash of worker [i], who moves on at once. *)
Lemma count_hash_ok i k w s :
  search_ok s -> se_workers s !! i = Some (Hashing (lane i k)) -> se_rounds s !! i = Some k ->
  w = Found (lane i k) /\ winning (lane i k) \/ w = AtLoop (wrap 64 (lane i k + stride)) ->
  search_ok (goto i w (count_hash i s)).
Proof.
  intros [] Hi Hk Hw. split; cbn.
  - intros j w' Hj. destruct (decide (i = j)) as [<-|Hne].
    + rewrite list_lookup_insert_eq in Hj by (by eapply lookup_lt_Some). injection Hj as <-.
      destruct Hw as [[-> Hw]| ->]; [done|]. exists (S k). cbn. rewrite list_lookup_alter_eq, Hk.
      split; [done|apply lane_next].
    + rewrite list_lookup_insert_ne in Hj by done. apply so_workers0 in Hj.
      destruct w'; try done; cbn in *; by rewrite list_lookup_alter_ne.
  - by rewrite length_insert, length_alter.
  - rewrite Hk. cbn. apply NoDup_app. split_and!; [done| |apply NoDup_singleton].
    intros p Hp ->%list_elem_of_singleton. apply so_log0 in Hp as (r & Hr & Hlt). rewrite Hk in Hr.
    injection Hr as <-. lia.
  - intros j m. rewrite Hk. cbn [default]. rewrite elem_of_app, list_elem_of_singleton, so_log0.
    destruct (decide (i = j)) as [<-|Hne].
    + rewrite list_lookup_alter_eq, Hk. cbn. split.
      * intros [(r & [= <-] & Hlt)|[= ->]]; eexists; (split; [done|lia]).
      * intros (r & [= <-] & Hlt). destruct (decide (m = k)) as [->|]; [by right|].
        left. exists k. split; [done|lia].
    + rewrite list_lookup_alter_ne by done. naive_solver.
  - rewrite length_app. cbn. rewrite so_hashes0. unfold wrap. rewrite Z.add_mod_idemp_l by lia.
    f_equal. lia.
  - done.
  - intros Hs. destruct (so_stopped0 Hs) as [?|[?|(j & e & Hj)]]; [by left|by right; left|]. right; right.
    exists j, e. rewrite list_lookup_insert_ne; [done|]. intros <-. congruence.
Qed.

(** A worker that leaves after setting the flag. *)
Lemma finish_ok i r s :
  search_ok s -> is_Some (se_workers s !! i) ->
  match r with Ok _ => is_Some (se_winner s) | Err e => exists nonce, work_at block nonce = Err e end ->
  search_ok (goto i (Finished r) (stop s)).
Proof.
  intros [] Hi Hr. apply lookup_lt_is_Some in Hi. split; cbn; try done.
  - intros j w' Hj. destruct (decide (i = j)) as [<-|].
    + rewrite list_lookup_insert_eq in Hj by done. injection Hj as <-. cbn. split; [done|]. by destruct r.
    + rewrite list_lookup_insert_ne in Hj by done. apply so_workers0 in Hj. destruct w'; try done. by destruct Hj.
  - by rewrite length_insert.
  - intros _. destruct r as [[]|e]; [by right; left|]. right; right. exists i, e.
    by rewrite list_lookup_insert_eq.
Qed.

Lemma run_event_ok s e : search_ok s -> search_ok (run_event block target stride s e).
Proof.
  intros Hs. destruct e as [i stale|]; cbn [run_event].
  - unfold step_worker. destruct (se_workers s !! i) as [w|] eqn:Hi; [|done].
    pose proof (so_workers _ Hs i w Hi) as Hw.
    destruct w as [|offset|offset|offset| |e|r]; cbn in Hw.
    + apply goto_ok; [done|by eexists| |congruence]. destruct (se_stopped s) eqn:Hst, stale; cbn; try done;
        exists 0%nat; (split; [done|]); unfold lane; f_equal; lia.
    + apply goto_ok; [done|by eexists| |congruence]. destruct (se_stopped s) eqn:Hst, stale; cbn; done.
    + destruct Hw as (k & Hk & ->). destruct (work_at block (lane i k)) as [hash|err] eqn:Hwork.
      * eapply count_hash_ok; [done|done|done|]. destruct (PoWTarget.meets target hash) eqn:Hm; [left|by right].
        split; [done|]. split; [apply lane_fits|]. by exists hash.
      * apply goto_ok; [done|by eexists| |congruence]. by exists (lane i k).
    + apply goto_ok; [by apply record_winner_ok|by eexists| |cbn; congruence]. cbn. by destruct (se_winner s).
    + by apply finish_ok; [|eexists|].
    + by apply finish_ok; [|eexists|].
    + done.
  - unfold cancel. destruct (se_stopped s) eqn:Hst; [done|]. destruct Hs. split; cbn; try done.
    + intros i w Hi. apply so_workers0 in Hi. destruct w; try done. by destruct Hi.
    + intros _. by left.
Qed.

Lemma run_search_ok schedule s : search_ok s -> search_ok (run_search block target stride schedule s).
Proof. revert s. induction schedule as [|e schedule IH]; intros s Hs; [done|]. by apply IH, run_event_ok. Qed.
End facts.

(** ** The search *)

Section theorems.
Context `{Sha3} `{Argon2}.

Lemma cancelled_by block target stride schedule s :
  se_cancelled (run_search block target stride schedule s) = true ->
  se_cancelled s = true \/ Cancel ∈ schedule.
Proof.
  revert s. induction schedule as [|e schedule IH]; intros s; [by left|]. cbn [run_search foldl].
  intros [Hc|Hc]%IH; [|right; by right]. destruct e as [i stale|]; [left|right; by left].
  revert Hc. cbn [run_event]. unfold step_worker.
  destruct (se_workers s !! i) as [[]|]; try done. by destruct (work_at _ _).
Qed.

Lemma run_length block target stride schedule s :
  length (se_workers (run_search block target stride schedule s)) = length (se_workers s).
Proof.
  revert s. induction schedule as [|e schedule IH]; intros s; [done|]. cbn [run_search foldl].
  unfold run_search in IH. rewrite IH. destruct e as [i stale|]; cbn [run_event].
  - unfold step_worker. destruct (se_workers s !! i) as [[]|]; try done;
      try (destruct (work_at _ _)); apply length_insert.
  - unfold cancel. by destruct (se_stopped s).
Qed.

Lemma worker_error_Some workers e :
  worker_error workers = Some e -> exists i, workers !! i = Some (Finished (Err e)).
Proof.
  induction workers as [|w workers IH]; [done|]. cbn.
  assert (worker_error workers = Some e -> exists i, (w :: workers) !! i = Some (Finished (Err e))) as Hnext
    by (intros (i & Hi)%IH; by exists (S i)).
  destruct w as [| | | | | |[|e']]; try done. intros [= ->]. by exists 0%nat.
Qed.

Lemma worker_error_None workers i e :
  worker_error workers = None -> workers !! i <> Some (Finished (Err e)).
Proof.
  revert i. induction workers as [|w workers IH]; intros i; [by rewrite lookup_nil|]. intros Hn.
  destruct i as [|i]; cbn in *; [intros [= ->]; done|]. apply IH. by destruct w as [| | | | | |[|]].
Qed.

(** What the caller gets, whatever the schedule. *)
Lemma search_result block workers schedule :
  match mine_until_cancelled block workers schedule with
  | Some (Ok (Some nonce)) =>
      fits 64 nonce /\ pow_meets (header (with_nonce block nonce)) (target_bits (header block))
  | Some (Ok None) => Cancel ∈ schedule
  | Some (Err e) =>
      PoWTarget.from_compact (target_bits (header block)) = None /\ e = InvalidDifficulty \/
      exists nonce, calculate_work (header (with_nonce block nonce)) = Err e
  | None => True
  end.
Proof.
  unfold mine_until_cancelled.
  destruct (PoWTarget.from_compact (target_bits (header block))) as [target|] eqn:Ht; [|by left].
  set (n := Nat.max workers 1). set (s := run_search _ _ _ _ _).
  assert (search_ok block target (Z.of_nat n) s) as Hs by apply run_search_ok, search_start_ok.
  assert (length (se_workers s) = n) as Hlen.
  { unfold s. rewrite run_length. apply length_replicate. }
  unfold joined. destruct (forallb _ _) eqn:Hall; [|done].
  destruct (worker_error (se_workers s)) as [e|] eqn:He.
  - right. apply worker_error_Some in He as [i Hi]. by apply (so_workers _ _ _ _ Hs) in Hi as [_ Hi].
  - destruct (se_winner s) as [nonce|] eqn:Hw.
    + destruct (so_winner _ _ _ _ Hs nonce Hw) as [Hf (hash & Hh & Hm)]. split; [done|].
      split; [done|]. by exists target, hash.
    + destruct (se_workers s) as [|w0 ws] eqn:Hws; [cbn in Hlen; lia|].
      cbn in Hall. apply andb_true_iff in Hall as [Hw0 _].
      pose proof (so_workers _ _ _ _ Hs 0%nat w0) as Hw0'. rewrite Hws in Hw0'. specialize (Hw0' eq_refl).
      destruct w0; try done. destruct Hw0' as [Hst _].
      destruct (so_stopped _ _ _ _ Hs Hst) as [Hc|[[? Hc]|(i & e & Hc)]]; [|congruence|].
      * by apply cancelled_by in Hc as [?|].
      * rewrite Hws in Hc. by apply worker_error_None with (i := i) (e := e) in He.
Qed.

(** (C12) The search is sound under every interleaving.  A nonce it returns is a 64-bit
    nonce with which the header's proof of work meets its own target; it returns
    none only if the caller reported the template stale; and an error it returns
    is an invalid target or the error of hashing some nonce. *)
Theorem nonce_search_sound block workers schedule :
  match mine_until_cancelled block workers schedule with
  | Some (Ok (Some nonce)) =>
      fits 64 nonce /\ pow_meets (header (with_nonce block nonce)) (target_bits (header block))
  | Some (Ok None) => Cancel ∈ schedule
  | Some (Err e) =>
      PoWTarget.from_compact (target_bits (header block)) = None /\ e = InvalidDifficulty \/
      exists nonce, calculate_work (header (with_nonce block nonce)) = Err e
  | None => True
  end.
Proof. apply search_result. Qed.

(** The lanes are disjoint.  Under every interleaving, the progress counter is
    the number of hashes made modulo 2^64, each worker hashes its lane in order,
    every worker's nonces once, and two different hashes were of two different
    nonces as long as neither lane has run past 2^64. *)
Lemma nonce_lanes_disjoint block target workers schedule :
  let s := run_search block target (Z.of_nat workers) schedule (search_start workers) in
  se_hashes s = wrap 64 (Z.of_nat (length (se_log s))) /\ NoDup (se_log s) /\
  (forall i k, (i, k) ∈ se_log s -> (i < workers)%nat /\ forall m, (m < k)%nat -> (i, m) ∈ se_log s) /\
  (forall i k j m, (i, k) ∈ se_log s -> (j, m) ∈ se_log s ->
     Z.of_nat i + Z.of_nat k * Z.of_nat workers < 2 ^ 64 ->
     Z.of_nat j + Z.of_nat m * Z.of_nat workers < 2 ^ 64 ->
     lane (Z.of_nat workers) i k = lane (Z.of_nat workers) j m -> (i, k) = (j, m)).
Proof.
  intros s. assert (search_ok block target (Z.of_nat workers) s) as Hs by apply run_search_ok, search_start_ok.
  assert (forall i k, (i, k) ∈ se_log s -> (i < workers)%nat) as Hlt.
  { intros i k (r & Hr & _)%(so_log _ _ _ _ Hs). apply lookup_lt_Some in Hr.
    rewrite (so_rounds _ _ _ _ Hs) in Hr. unfold s in Hr. rewrite run_length in Hr.
    cbn [se_workers search_start] in Hr. by rewrite length_replicate in Hr. }
  split_and!; [apply Hs|apply Hs| |].
  - intros i k Hik. split; [by eapply Hlt|]. apply (so_log _ _ _ _ Hs) in Hik as (r & Hr & Hk).
    intros m Hm. apply (so_log _ _ _ _ Hs). exists r. split; [done|lia].
  - intros i k j m Hik Hjm Hb1 Hb2. unfold lane, wrap. apply Hlt in Hik, Hjm.
    rewrite !Z.mod_small by lia. intros Heq.
    assert (Z.of_nat i = Z.of_nat j) as Hij.
    { apply (f_equal (fun z => z mod Z.of_nat workers)) in Heq.
      rewrite !Z.mod_add, !Z.mod_small in Heq by lia. done. }
    assert (Z.of_nat k = Z.of_nat m) by nia. f_equal; lia.
Qed.

(** ** A lane that wins *)

(** Worker [i] alone in its round [k], the others not yet running. *)
Definition alone (s : Search) (workers i k : nat) (w : Worker) : Prop :=
  se_workers s = <[i := w]> (replicate workers Starting) /\ se_stopped s = false /\
  se_winner s = None.

Lemma alone_lookup s workers i k w :
  (i < workers)%nat -> alone s workers i k w -> se_workers s !! i = Some w.
Proof. intros Hi (-> & _). rewrite list_lookup_insert_eq; [done|]. by rewrite length_replicate. Qed.

Lemma alone_goto s workers i k w w' :
  alone s workers i k w -> alone (goto i w' s) workers i k w'.
Proof. intros (Hw & Hs & Hn). split_and!; cbn; [|done..]. by rewrite Hw, list_insert_insert_eq. Qed.

Lemma run_search_app block target stride l1 l2 s :
  run_search block target stride (l1 ++ l2) s
  = run_search block target stride l2 (run_search block target stride l1 s).
Proof. apply foldl_app. Qed.

(** A round that does not win takes two steps. *)
Lemma losing_rounds block target stride workers i rounds : forall k s,
  (i < workers)%nat -> alone s workers i k (AtLoop (lane stride i k)) ->
  (forall m, (k <= m < k + rounds)%nat -> exists hash, work_at block (lane stride i m) = Ok hash /\
     PoWTarget.meets target hash = false) ->
  alone (run_search block target stride (replicate (2 * rounds) (Step i false)) s) workers i (k + rounds)
    (AtLoop (lane stride i (k + rounds))).
Proof.
  induction rounds as [|rounds IH]; intros k s Hi Ha Hl; [by rewrite Nat.add_0_r|].
  replace (2 * S rounds)%nat with (S (S (2 * rounds))) by lia. cbn [replicate].
  change (run_search block target stride (Step i false :: Step i false :: replicate (2 * rounds) (Step i false)) s)
    with (run_search block target stride (replicate (2 * rounds) (Step i false))
           (step_worker block target stride i false (step_worker block target stride i false s))).
  destruct (Hl k ltac:(lia)) as (hash & Hh & Hm).
  assert (alone (step_worker block target stride i false s) workers i k (Hashing (lane stride i k))) as Ha1.
  { unfold step_worker. rewrite (alone_lookup _ _ _ _ _ Hi Ha). pose proof Ha as (_ & -> & _). cbn [andb].
    by eapply alone_goto. }
  assert (alone (step_worker block target stride i false (step_worker block target stride i false s)) workers i
    (S k) (AtLoop (lane stride i (S k)))) as Ha2.
  { unfold step_worker at 1. rewrite (alone_lookup _ _ _ _ _ Hi Ha1), Hh, Hm, lane_next.
    destruct Ha1 as (Hw & Hs & Hn). split_and!; cbn; [|done..]. by rewrite Hw, list_insert_insert_eq. }
  specialize (IH (S k) _ Hi Ha2). rewrite <- Nat.add_succ_comm. apply IH. intros m Hmr. apply Hl. lia.
Qed.

(** The round that wins takes four. *)
Lemma winning_round block target stride workers i k offset hash s :
  (i < workers)%nat -> alone s workers i k (AtLoop offset) -> work_at block offset = Ok hash ->
  PoWTarget.meets target hash = true ->
  let s' := run_search block target stride (replicate 4 (Step i false)) s in
  se_workers s' = <[i := Finished (Ok tt)]> (replicate workers Starting) /\ se_stopped s' = true /\
  se_winner s' = Some offset.
Proof.
  intros Hi Ha Hh Hm. set (step := step_worker block target stride i false).
  cbn zeta. change (run_search block target stride (replicate 4 (Step i false)) s) with (step (step (step (step s)))).
  assert (alone (step s) workers i k (Hashing offset)) as Ha1.
  { unfold step, step_worker. rewrite (alone_lookup _ _ _ _ _ Hi Ha). pose proof Ha as (_ & -> & _).
    by eapply alone_goto. }
  assert (alone (step (step s)) workers i k (Found offset)) as Ha2.
  { unfold step at 1. unfold step_worker. rewrite (alone_lookup _ _ _ _ _ Hi Ha1), Hh, Hm.
    destruct Ha1 as (Hw & Hs & Hn). split_and!; cbn; [|done..]. by rewrite Hw, list_insert_insert_eq. }
  assert (step (step (step s)) = goto i Recorded (record_winner offset (step (step s)))) as ->.
  { unfold step at 1. unfold step_worker. by rewrite (alone_lookup _ _ _ _ _ Hi Ha2). }
  revert Ha2. generalize (step (step s)). intros s2 (Hw & Hs & Hn). unfold step, step_worker.
  cbn [goto se_workers record_winner].
  rewrite list_lookup_insert_eq by (rewrite Hw, length_insert; by rewrite length_replicate).
  cbn. by rewrite Hw, !list_insert_insert_eq, Hn.
Qed.

(** The worker of the nonce's lane runs to its nonce; then the others start. *)
Definition winning_schedule (workers : nat) (i k : nat) : list Event :=
  replicate (1 + 2 * k + 4) (Step i false) ++ ((fun j => Step j false) <$> seq 0 workers).

Lemma others_finish block target stride n s :
  se_stopped s = true ->
  (forall j w, se_workers s !! j = Some w -> w = Starting \/ w = Finished (Ok tt)) ->
  let s' := run_search block target stride ((fun j => Step j false) <$> seq 0 n) s in
  se_stopped s' = true /\ se_winner s' = se_winner s /\ length (se_workers s') = length (se_workers s) /\
  (forall j w, se_workers s' !! j = Some w -> w = Starting \/ w = Finished (Ok tt)) /\
  (forall j w, (j < n)%nat -> se_workers s' !! j = Some w -> w = Finished (Ok tt)).
Proof.
  intros Hst Hw. induction n as [|n IH]; [split_and!; (done || lia)|].
  rewrite seq_S, fmap_app. cbn zeta. rewrite run_search_app. cbn [Nat.add fmap list_fmap].
  destruct IH as (IHs & IHw & IHl & IHa & IHn).
  set (s1 := run_search _ _ _ _ s) in *.
  change (run_search block target stride [Step n false] s1) with (step_worker block target stride n false s1).
  unfold step_worker. rewrite IHs. cbn [negb andb].
  destruct (se_workers s1 !! n) as [w|] eqn:Hn.
  - assert (length (se_workers s1) = length (se_workers (goto n (Finished (Ok tt)) s1))) as Hl
      by (symmetry; apply length_insert).
    destruct (IHa n w Hn) as [->| ->].
    + split_and!; [done|done|by rewrite <- Hl| |]; cbn [goto se_workers].
      * intros j w [(-> & -> & _)|[_ Hj]]%list_lookup_insert_Some; [by right|by eapply IHa].
      * intros j w Hj [(-> & -> & _)|[Hne Hw']]%list_lookup_insert_Some; [done|].
        apply (IHn j w); [lia|done].
    + split_and!; try done. intros j w Hj Hw'. destruct (decide (j = n)) as [->|]; [congruence|].
      apply (IHn j w); [lia|done].
  - split_and!; try done. intros j w Hj Hw'. destruct (decide (j = n)) as [->|]; [congruence|].
    apply (IHn j w); [lia|done].
Qed.

(** The search finds.  If a nonce meets the target and the nonces before it in
    its lane hash without error and miss, some schedule makes the search return
    that nonce: its worker reaches it in two steps a round, records it and
    stops the others. *)
Theorem nonce_search_finds block target workers i k :
  (i < workers)%nat -> PoWTarget.from_compact (target_bits (header block)) = Some target ->
  (forall m, (m < k)%nat -> exists hash, work_at block (lane (Z.of_nat workers) i m) = Ok hash /\
     PoWTarget.meets target hash = false) ->
  winning block target (lane (Z.of_nat workers) i k) ->
  mine_until_cancelled block workers (winning_schedule workers i k)
  = Some (Ok (Some (lane (Z.of_nat workers) i k))).
Proof.
  intros Hi Ht Hl [_ (hash & Hh & Hm)]. unfold mine_until_cancelled. rewrite Ht.
  replace (Nat.max workers 1) with workers by lia. unfold winning_schedule.
  rewrite run_search_app, !replicate_add, !run_search_app.
  set (stride := Z.of_nat workers) in *.
  set (s0 := run_search block target stride (replicate 1 (Step i false)) (search_start workers)).
  assert (alone s0 workers i 0 (AtLoop (lane stride i 0))) as Ha0.
  { unfold s0. cbn [replicate run_search foldl run_event]. unfold step_worker.
    cbn [se_workers search_start]. rewrite lookup_replicate_2 by done.
    split_and!; cbn; [|done..]. f_equal. unfold lane. f_equal. f_equal. lia. }
  pose proof (losing_rounds block target stride workers i k 0 s0 Hi Ha0 ltac:(intros; apply Hl; lia)) as Ha1.
  set (s1 := run_search block target stride (replicate (2 * k) _) s0) in *. cbn [Nat.add] in Ha1.
  set (s2 := run_search block target stride (replicate 4 _) s1).
  assert (se_workers s2 = <[i := Finished (Ok tt)]> (replicate workers Starting) /\ se_stopped s2 = true /\
    se_winner s2 = Some (lane stride i k)) as (Hw2 & Hs2 & Hn2).
  { by apply (winning_round block target stride workers i k (lane stride i k) hash). }
  destruct (others_finish block target stride workers s2 Hs2) as (_ & Hwin & Hlen & _ & Hall).
  { intros j w. rewrite Hw2. intros [(_ & -> & _)|[_ [-> _]%lookup_replicate]]%list_lookup_insert_Some;
      [by right|by left]. }
  set (s3 := run_search _ _ _ _ s2) in *.
  rewrite Hw2, length_insert, length_replicate in Hlen.
  assert (Forall (fun w => w = Finished (Ok tt)) (se_workers s3)) as Hf.
  { apply Forall_lookup. intros j w Hj. apply (Hall j w); [|done].
    apply lookup_lt_Some in Hj. lia. }
  unfold joined. rewrite (proj2 (forallb_forall _ _)).
  2: { intros w Hin%list_elem_of_In. rewrite Forall_forall in Hf. by rewrite (Hf w Hin). }
  replace (worker_error (se_workers s3)) with (@None ConsensusError).
  2: { clear -Hf. induction Hf as [|w l -> _ IH]; [done|]. exact IH. }
  by rewrite Hwin, Hn2.
Qed.
End theorems.

(** ** Two workers, the sixth nonce *)

Section example.
#[local] Existing Instance toy_sha3.

(** A hash that meets the target for one header only. *)
#[local] Instance picky_argon2 : Argon2 := fun seed _ _ _ _ =>
  Ok (if bool_decide (seed = pow_seed (header (with_nonce sample_next 5))) then replicate 32 0
      else replicate 32 255).

Lemma nonce_search_finds_witness :
  mine_until_cancelled sample_next 2 (winning_schedule 2 1 2) = Some (Ok (Some 5)).
Proof.
  assert (exists t, PoWTarget.from_compact (target_bits (header sample_next)) = Some t) as [t Ht]
    by (vm_compute; by eexists).
  pose proof Ht as Hv. vm_compute in Hv. injection Hv as <-.
  apply (nonce_search_finds sample_next _ 2 1 2 ltac:(lia) Ht).
  - intros m Hm. exists (replicate 32 255).
    destruct m as [|[|m]]; [split; vm_compute; reflexivity..|lia].
  - split; [vm_compute; split; [discriminate|reflexivity]|].
    exists (replicate 32 0). split; vm_compute; reflexivity.
Defined.
End example.
