(* ===== verification/MiningLoop.v ===== *)
(** * Mining the next block

    Models [mine_next_block_database] of [runtime/src/node/mining.rs]: build a
    candidate, search its nonce until the tip or the pool moves, commit the mined
    block, and start over when the candidate has become stale.

    One turn of the loop is a [Round]: whether the gossip generation changed
    while the candidate was built, the schedule of the search (which cancels when
    the generation changes), what other threads did to the node until the block
    is committed, and whether the disk commits.  Running out of rounds means that
    the node is still mining.  Progress reports are left out. *)

From S2P Require Import Prelude Target Codec Monetary Index Coin Vm Registry Calls Wire Authorize Policy Block Chain Consensus.
From S2P Require Import Assets State StateRoot CoinHost AssetHost Settlement Engine SettleFacts EngineProps VmTypes Apply ApplyFacts.
From S2P Require Import Ledger LedgerProps Genesis Mempool MempoolProps Mining MiningProps NonceSearch.
#[local] Open Scope Z_scope.

Record Round := {
  rd_moved : bool;
  rd_schedule : list Event;
  rd_others : Node -> Node;
  rd_disk : bool;
}.

Section loop.
Context `{Sha3} `{Argon2} `{SignatureBackend} `{RootTest}.
Context (network : Network) (miner : ProgramId) (workers : nat).

Fixpoint mine_next_block_database (rounds : list Round) (self : Node)
    : Node * option (Run NodeError unit) :=
  match rounds with
  | [] => (self, None)
  | round :: rounds =>
      match build_mining_candidate network miner self with
      | (self, Panicked) => (self, Some Panicked)
      | (self, Returned (Err e)) => (self, Some (Returned (Err e)))
      | (self, Returned (Ok (operations, block))) =>
          if rd_moved round then mine_next_block_database rounds (rd_others round self)
          else
            match mine_until_cancelled block workers (rd_schedule round) with
            | None => (self, None)
            | Some (Err e) => (rd_others round self, Some (Returned (Err (NodeConsensus e))))
            | Some (Ok None) => mine_next_block_database rounds (rd_others round self)
            | Some (Ok (Some nonce)) =>
                match
                  persist_mined_block network operations (with_nonce block nonce) (rd_disk round)
                    (rd_others round self)
                with
                | (self, Returned (Err StaleCandidate)) => mine_next_block_database rounds self
                | (self, r) => (self, Some r)
                end
            end
      end
  end.
End loop.

Section theorems.
Context `{Sha3} {Hspec : Sha3Spec} `{Argon2} `{SignatureBackend} `{RootTest} {Hroot : RootTestSpec}.
Context (network : Network).

(** (C8) Mining works from the pool to the disk.  Whatever candidate a node builds,
    and under whatever interleaving its workers find a nonce: if the node is
    left alone and the disk commits, the call returns with the block appended to
    a sound ledger and a table that keeps, in order, pending operations that
    replay on the new tip and none of the block's own; and if another thread has
    moved the tip meanwhile, nothing is committed and the call goes on with the
    node as that thread left it. *)
Theorem mining_commits_or_retries past hs n n1 miner workers ops b chain schedule nonce rounds :
  pool_reachable network (past, n) -> ledger_ok hs (nd_ledger n) -> chain_context network = Ok chain ->
  build_mining_candidate network miner n = (n1, Returned (Ok (ops, b))) ->
  (forall p, load_cold (nd_stored n) = Ok p ->
     Forall (operation_ok chain PROGRAM_ID_ZERO) (pe_operation <$> pp_entries p)) ->
  block_ops_ok (nd_ledger n) b ->
  mine_until_cancelled b workers schedule = Some (Ok (Some nonce)) ->
  (exists n', mine_next_block_database network miner workers
       ({| rd_moved := false; rd_schedule := schedule; rd_others := id; rd_disk := true |} :: rounds) n
       = (n', Some (Returned (Ok tt))) /\
     ledger_ok (hs ++ [header (with_nonce b nonce)]) (nd_ledger n') /\
     b_operations (body b) = ops /\
     nd_stored n' `sublist_of` nd_stored n /\ table_replays network (nd_ledger n') (nd_stored n') /\
     Forall (fun o => w_enc wire_operation o ∉ nd_stored n') ops) /\
  (forall others disk,
     tip_hash (g_chain (nd_ledger (others n1))) <> tip_hash (g_chain (nd_ledger n)) ->
     mine_next_block_database network miner workers
       ({| rd_moved := false; rd_schedule := schedule; rd_others := others; rd_disk := disk |} :: rounds) n
     = mine_next_block_database network miner workers rounds (others n1)).
Proof using Hspec Hroot.
  intros Hn Hl Hchain Hb Hpend Hops Hs.
  pose proof (search_result b workers schedule) as Hpow. rewrite Hs in Hpow. destruct Hpow as [_ Hpow].
  split.
  - destruct (mined_block_commits network past hs n n1 miner ops b chain nonce Hn Hl Hchain Hb Hpend Hops Hpow)
      as (n' & Hp & Hrest).
    exists n'. split; [|done]. cbn [mine_next_block_database]. rewrite Hb. cbn [rd_moved rd_schedule].
    rewrite Hs. cbn [rd_others rd_disk id]. by rewrite Hp.
  - intros others disk Htip. apply pool_reachable_ok in Hn. cbn [fst snd] in Hn.
    destruct (build_Ok network past n n1 miner ops b Hn Hb) as (_ & _ & _ & _ & Hcand & _).
    destruct (candidate_Ok hs _ miner ops b Hl Hcand) as (_ & _ & _ & Ht & _).
    cbn [mine_next_block_database]. rewrite Hb. cbn [rd_moved rd_schedule]. rewrite Hs. cbn [rd_others rd_disk].
    unfold persist_mined_block. rewrite bool_decide_eq_false_2; [done|].
    cbn [header with_nonce previous_hash]. congruence.
Qed.
End theorems.

(** ** Mining the pending transfer *)

Section example.
#[local] Existing Instance toy_sha3.
#[local] Existing Instance toy_sha3_spec.
#[local] Existing Instance toy_argon2.
#[local] Existing Instance accept_all.
#[local] Existing Instance toy_roots.
#[local] Existing Instance no_roots_spec.

(** Two workers; the second finds nonce 1 first. *)
Lemma toy_search : mine_until_cancelled toy_candidate 2 (winning_schedule 2 1 0) = Some (Ok (Some 1)).
Proof. vm_compute. reflexivity. Qed.

Lemma mining_commits_or_retries_witness :
  exists n', mine_next_block_database toy_network toy_miner 2
      [{| rd_moved := false; rd_schedule := winning_schedule 2 1 0; rd_others := id; rd_disk := true |}]
      pending_node = (n', Some (Returned (Ok tt))) /\
    ledger_ok [header block0; header block1; header (with_nonce toy_candidate 1)] (nd_ledger n').
Proof.
  destruct pending_reachable as [past Hr]. destruct pending_ledger as [Hl _].
  destruct (chain_context toy_network) as [chain|] eqn:Hc; [|vm_compute in Hc; discriminate].
  pose proof ledger2_ok as Hok. rewrite <- Hl in Hok.
  pose proof toy_candidate_ops as Hops. rewrite <- Hl in Hops.
  destruct (mining_commits_or_retries toy_network past _ pending_node mined_node toy_miner 2 [relayed 140000]
    toy_candidate chain (winning_schedule 2 1 0) 1 [] Hr Hok Hc toy_build (fun p => pending_ok chain p Hc)
    Hops toy_search) as [(n' & Hp & Hl' & _) _]. exists n'. split; [exact Hp|exact Hl'].
Defined.
End example.
