(* ===== verification/HeaderCheckpoints.v ===== *)
(** * Header checkpoints and locators

    Models the header side of [runtime/src/node/state.rs] and
    [runtime/src/node/chain_sync.rs]: the checkpoints of accumulated work and
    weight a node keeps every 256 headers, their update after the tip moved, the
    summary of any canonical header computed from the nearest checkpoint, and
    the locator of hashes a node sends to find a common ancestor.

    Hashing a header cannot fail.  Error messages are constructors. *)

From S2P Require Import Prelude Target Work Codec Monetary Registry Calls Wire Authorize Policy.
From S2P Require Import Block Chain Consensus Fork ForkProps HeaderSync.
#[local] Open Scope Z_scope.

Definition HEADER_STATE_CHECKPOINT_INTERVAL : Z := 256.
Definition MAX_LOCATOR_HASHES : Z := 64.
Definition GET_HEADERS_MESSAGE : Z := 1.

Inductive HeaderNodeError :=
| CheckpointWrongGenesis | InvalidTargetBits (bits height : Z) | NoGenesisCheckpoint | NoTip
| MissingCanonicalBlock | MissingAncestor | NoCheckpoint | CheckpointMissing | CheckpointMismatch
| AnchorMissing | RecentMissing | RecentOverflow | EmptyLocalChain | MissingHeader
| LocatorCount | NotGetHeaders | MissingLocatorCount | LocatorSize.

Record HeaderStateCheckpoint := {
  ck_height : Z;
  ck_hash : Hash;
  ck_cumulative_work : list Z;
  ck_cumulative_weight : Z;
}.

(** The checkpoints and the totals up to some header. *)
Record Totals := {
  to_checkpoints : list HeaderStateCheckpoint;
  to_work : list Z;
  to_weight : Z;
}.

(** The headers of a chain, lowest height first. *)
Definition ascending (c : Chain) : list (Z * Header) := rev (descending (headers c)).

(** [iter().rposition(p)]. *)
Fixpoint rposition {A} (p : A -> bool) (l : list A) : option nat :=
  match l with
  | [] => None
  | x :: l =>
      match rposition p l with
      | Some i => Some (S i)
      | None => if p x then Some 0%nat else None
      end
  end.

Section checkpoints.
Context `{Sha3}.
Context (EXPECTED_GENESIS_HASH : Hash).

(** The totals after one more header, which is not the genesis. *)
Definition add_header (height : Z) (h : Header) (t : Totals) : result HeaderNodeError Totals :=
  block_work ← ok_or (block_work (target_bits h)) (InvalidTargetBits (target_bits h) height);
  let work := Work.saturating_add (to_work t) block_work in
  let weight := saturating_add 64 (to_weight t) (block_weight h) in
  Ok {| to_checkpoints :=
          if height mod HEADER_STATE_CHECKPOINT_INTERVAL =? 0
          then to_checkpoints t ++ [{| ck_height := height; ck_hash := block_header_hash h;
                                       ck_cumulative_work := work; ck_cumulative_weight := weight |}]
          else to_checkpoints t;
        to_work := work; to_weight := weight |}.

Definition build_step (t : Totals) (entry : Z * Header) : result HeaderNodeError Totals :=
  let '(height, h) := entry in
  let hash := block_header_hash h in
  if height =? 0 then
    fail_if negb (bool_decide (hash = EXPECTED_GENESIS_HASH)) with CheckpointWrongGenesis;
    Ok {| to_checkpoints := to_checkpoints t ++
            [{| ck_height := height; ck_hash := hash; ck_cumulative_work := to_work t;
                ck_cumulative_weight := to_weight t |}];
          to_work := to_work t; to_weight := to_weight t |}
  else add_header height h t.

Definition totals_zero : Totals := {| to_checkpoints := []; to_work := Work.ZERO; to_weight := 0 |}.

Definition build_header_state_checkpoints (chain : Chain) : result HeaderNodeError Totals :=
  t ← try_fold build_step (ascending chain) totals_zero;
  fail_if (length (to_checkpoints t) =? 0)%nat with NoGenesisCheckpoint;
  Ok t.

(** The loop from [next_height] over [n] headers. *)
Fixpoint update_loop (chain : Chain) (n : nat) (next_height : Z) (t : Totals)
    : result HeaderNodeError Totals :=
  match n with
  | O => Ok t
  | S n =>
      h ← ok_or (headers chain !! next_height) MissingCanonicalBlock;
      t ← add_header next_height h t;
      match checked_add 64 next_height 1 with
      | None => Ok t
      | Some next_height => update_loop chain n next_height t
      end
  end.

(** [while next <= last]: how often it runs. *)
Definition loop_count (next last : Z) : nat := Z.to_nat (last - next + 1).

Definition on_chain (chain : Chain) (tip : Z) (c : HeaderStateCheckpoint) : bool :=
  (ck_height c <=? tip)
  && match headers chain !! ck_height c with
     | Some h => bool_decide (block_header_hash h = ck_hash c)
     | None => false
     end.

Definition updated_header_state_checkpoints (previous : option (list HeaderStateCheckpoint))
    (chain : Chain) : result HeaderNodeError Totals :=
  match previous with
  | None => build_header_state_checkpoints chain
  | Some previous =>
      match tip_height chain with
      | None => Err NoTip
      | Some tip =>
          match rposition (on_chain chain tip) previous with
          | None => build_header_state_checkpoints chain
          | Some anchor_index =>
              match previous !! anchor_index with
              | None => build_header_state_checkpoints chain
              | Some anchor =>
                  let next_height := saturating_add 64 (ck_height anchor) 1 in
                  update_loop chain (loop_count next_height tip) next_height
                    {| to_checkpoints := take (S anchor_index) previous;
                       to_work := ck_cumulative_work anchor;
                       to_weight := ck_cumulative_weight anchor |}
              end
          end
      end
  end.

(** ** The summary of a canonical header *)

(** The totals from the checkpoint to the target: [n] headers from [next]. *)
Fixpoint totals_loop (chain : Chain) (n : nat) (next_height : option Z) (work : list Z) (weight : Z)
    : result HeaderNodeError (list Z * Z) :=
  match n, next_height with
  | O, _ | _, None => Ok (work, weight)
  | S n, Some value =>
      h ← ok_or (headers chain !! value) MissingCanonicalBlock;
      block_work ← ok_or (block_work (target_bits h)) (InvalidTargetBits (target_bits h) value);
      totals_loop chain n (checked_add 64 value 1) (Work.saturating_add work block_work)
        (saturating_add 64 weight (block_weight h))
  end.

(** The loop that collects the recent headers, [n] heights before the target. *)
Fixpoint recent_loop (chain : Chain) (n : nat) (height : Z) : result HeaderNodeError (list HeaderAtHeight) :=
  h ← ok_or (headers chain !! height) RecentMissing;
  let current := {| hh_height := height; hh_header := h |} in
  match n with
  | O => Ok [current]
  | S n =>
      height ← ok_or (checked_add 64 height 1) RecentOverflow;
      rest ← recent_loop chain n height;
      Ok (current :: rest)
  end.

Definition rfind {A} (p : A -> bool) (l : list A) : option A :=
  i ← rposition p l; l !! i.

Definition ledger_header_state_at_height (chain : Chain) (checkpoints : list HeaderStateCheckpoint)
    (target_height : Z) : result HeaderNodeError HeaderValidationState :=
  target_block ← ok_or (headers chain !! target_height) MissingAncestor;
  checkpoint ← ok_or (rfind (fun c => ck_height c <=? target_height) checkpoints) NoCheckpoint;
  checkpoint_block ← ok_or (headers chain !! ck_height checkpoint) CheckpointMissing;
  fail_if negb (bool_decide (block_header_hash checkpoint_block = ck_hash checkpoint))
    with CheckpointMismatch;
  '(work, weight) ←
    totals_loop chain (loop_count (ck_height checkpoint + 1) target_height)
      (checked_add 64 (ck_height checkpoint) 1)
      (ck_cumulative_work checkpoint) (ck_cumulative_weight checkpoint);
  let anchor_height := if target_height =? 0 then 0 else 1 in
  anchor ← ok_or (headers chain !! anchor_height) AnchorMissing;
  let start := saturating_sub (saturating_add 64 target_height 1) RECENT_HEADER_WINDOW in
  recent ← recent_loop chain (Z.to_nat (target_height - start)) start;
  Ok {| hv_height := target_height; hv_header := target_block; hv_cumulative_work := work;
        hv_cumulative_weight := weight;
        hv_difficulty_anchor := {| hh_height := anchor_height; hh_header := anchor |};
        hv_recent_headers := recent |}.

(** ** Locators *)

(** The loop of [ledger_header_locator]: [count] hashes pushed so far. *)
Fixpoint locator_loop (chain : Chain) (fuel : nat) (count height step : Z)
    : result HeaderNodeError (list (Hash * Z)) :=
  h ← ok_or (headers chain !! height) MissingHeader;
  let entry := (block_header_hash h, height) in
  let count := count + 1 in
  match fuel with
  | O => Ok [entry]
  | S fuel =>
      if (height =? 0) || (count =? MAX_LOCATOR_HASHES - 1) then Ok [entry]
      else
        rest ← locator_loop chain fuel count (saturating_sub height step)
                 (if 10 <=? count then Z.min (step * 2) (2 ^ 64 - 1) else step);
        Ok (entry :: rest)
  end.

Definition ledger_header_locator (chain : Chain) : result HeaderNodeError (list (Hash * Z)) :=
  tip ← ok_or (tip_height chain) EmptyLocalChain;
  locator ← locator_loop chain (Z.to_nat MAX_LOCATOR_HASHES) 0 tip 1;
  Ok (if match last locator with
         | None => true
         | Some (hash, _) => negb (bool_decide (hash = EXPECTED_GENESIS_HASH))
         end
      then locator ++ [(EXPECTED_GENESIS_HASH, 0)] else locator).
End checkpoints.

Definition encode_locator (locator : list Hash) : result HeaderNodeError (list Z) :=
  fail_if (length locator =? 0)%nat || (MAX_LOCATOR_HASHES <? Z.of_nat (length locator))
    with LocatorCount;
  Ok (GET_HEADERS_MESSAGE :: wrap 8 (Z.of_nat (length locator)) :: concat locator).

(** [chunks_exact(32)]: what is left over is dropped. *)
Fixpoint chunks_exact (n : nat) (size : nat) (bytes : list Z) : list (list Z) :=
  match n with
  | O => []
  | S n =>
      if (size <=? length bytes)%nat
      then take size bytes :: chunks_exact n size (drop size bytes) else []
  end.

Definition decode_locator (bytes : list Z) : result HeaderNodeError (list Hash) :=
  fail_if negb (bool_decide (head bytes = Some GET_HEADERS_MESSAGE)) with NotGetHeaders;
  count ← ok_or (bytes !! 1%nat) MissingLocatorCount;
  fail_if (count =? 0) || (MAX_LOCATOR_HASHES <? count)
          || negb (Z.of_nat (length bytes) =? 2 + count * 32) with LocatorSize;
  Ok (chunks_exact (length bytes) 32 (drop 2 bytes)).

(** ** The headers in order *)

Definition heights (hs : list Header) : list (Z * Header) := imap (fun i h => (Z.of_nat i, h)) hs.

Lemma heights_lookup hs i : heights hs !! i = (fun h => (Z.of_nat i, h)) <$> hs !! i.
Proof. unfold heights. by rewrite list_lookup_imap. Qed.

Lemma heights_snoc hs h : heights (hs ++ [h]) = heights hs ++ [(Z.of_nat (length hs), h)].
Proof. unfold heights. rewrite imap_app. cbn. by rewrite Nat.add_0_r. Qed.

Definition key_lt {V} (a b : Z * V) : Prop := a.1 < b.1.

#[local] Instance key_lt_antisymm {V} : AntiSymm (=) (@key_lt V).
Proof. intros a b. unfold key_lt. lia. Qed.

Lemma merge_sort_keys {V} (l : list (Z * V)) :
  NoDup l.*1 -> StronglySorted key_lt (merge_sort (fun a b => Is_true (a.1 <=? b.1)) l).
Proof.
  intros Hn. set (R := fun a b : Z * V => Is_true (a.1 <=? b.1)).
  assert (StronglySorted R (merge_sort R l)) as Hs.
  { apply StronglySorted_merge_sort.
    - intros a b c Hab Hbc. unfold R in *. apply Is_true_eq_true in Hab, Hbc. apply Is_true_eq_left. lia.
    - intros a b. unfold R. destruct (Z.le_ge_cases a.1 b.1); [left|right]; apply Is_true_eq_left; lia. }
  assert (NoDup (merge_sort R l).*1) as Hn' by (by rewrite merge_sort_Permutation).
  induction Hs as [|a m Hs IH Hf]; constructor.
  - apply IH. by apply NoDup_cons in Hn' as [_ ?].
  - apply NoDup_cons in Hn' as [Ha _]. rewrite Forall_forall in Hf |- *. intros b Hb.
    specialize (Hf b Hb). apply Is_true_eq_true in Hf. unfold key_lt.
    assert (a.1 <> b.1); [|lia]. intros Heq. apply Ha. rewrite Heq. by apply list_elem_of_fmap_2.
Qed.

Lemma heights_sorted hs : StronglySorted key_lt (heights hs).
Proof.
  induction hs as [|h hs IH] using rev_ind; [constructor|]. rewrite heights_snoc.
  apply StronglySorted_app_2; [|done|by repeat constructor].
  intros x y (i & Hi)%list_elem_of_lookup_1 ->%list_elem_of_singleton. rewrite heights_lookup in Hi.
  destruct (hs !! i) as [x'|] eqn:Hx; [|done]. injection Hi as <-. unfold key_lt. cbn.
  apply lookup_lt_Some in Hx. lia.
Qed.

Section ordered.
Context `{Sha3}.

Lemma ascending_chain hs c : chain_of hs c -> ascending c = heights hs.
Proof.
  intros Hc. unfold ascending, descending. rewrite rev_involutive.
  apply (StronglySorted_unique key_lt).
  - apply merge_sort_keys, NoDup_fst_map_to_list.
  - apply heights_sorted.
  - rewrite merge_sort_Permutation. apply NoDup_Permutation.
    + apply NoDup_map_to_list.
    + pose proof (heights_sorted hs) as Hs. induction Hs as [|a l Hs IH Hf]; constructor; [|done].
      intros Ha. rewrite Forall_forall in Hf. specialize (Hf a Ha). unfold key_lt in Hf. lia.
    + intros [z h]. rewrite elem_of_map_to_list, (co_headers _ _ Hc). split.
      * intros [Hz Hl]. apply list_elem_of_lookup. exists (Z.to_nat z). rewrite heights_lookup, Hl. cbn.
        by rewrite Z2Nat.id.
      * intros (i & Hi)%list_elem_of_lookup. rewrite heights_lookup in Hi. destruct (hs !! i) eqn:Hx; [|done].
        injection Hi as <- <-. rewrite Nat2Z.id. split; [lia|done].
Qed.
End ordered.

(** ** What the checkpoints hold *)

Section totals.
Context `{Sha3}.
Context (genesis : Hash).

Definition totals (hs : list Header) : result HeaderNodeError Totals :=
  try_fold (build_step genesis) (heights hs) totals_zero.

Lemma try_fold_app {E A B} (f : A -> B -> result E A) l1 l2 a :
  try_fold f (l1 ++ l2) a = (b ← try_fold f l1 a; try_fold f l2 b).
Proof.
  revert a. induction l1 as [|x l1 IH]; intros a; [done|]. cbn [app try_fold].
  destruct (f a x); [|done]. cbn [mbind result_mbind]. apply IH.
Qed.

Lemma totals_snoc hs h :
  totals (hs ++ [h]) = (t ← totals hs; build_step genesis t (Z.of_nat (length hs), h)).
Proof.
  unfold totals. rewrite heights_snoc, try_fold_app. destruct (try_fold _ (heights hs) _); [|done].
  cbn [mbind result_mbind try_fold]. by destruct (build_step genesis a (Z.of_nat (length hs), h)).
Qed.

Lemma totals_take hs t n : totals hs = Ok t -> exists t', totals (take n hs) = Ok t'.
Proof.
  intros Ht. rewrite <- (take_drop n hs) in Ht. unfold totals in *. unfold heights in Ht.
  rewrite imap_app, try_fold_app in Ht. fold (heights (take n hs)) in Ht.
  apply bind_Ok in Ht as (t' & Ht & _). eauto.
Qed.

Lemma build_step_later t z h : z <> 0 -> build_step genesis t (z, h) = add_header z h t.
Proof. intros Hz. unfold build_step. by rewrite (proj2 (Z.eqb_neq _ _)). Qed.

(** One step, whatever the height: the totals grow, and the checkpoints gain at
    most one, which is at the height and holds the totals. *)
Lemma build_step_Ok t z h t' :
  build_step genesis t (z, h) = Ok t' ->
  to_checkpoints t' = to_checkpoints t /\ z <> 0 \/
  to_checkpoints t' = to_checkpoints t ++
    [{| ck_height := z; ck_hash := block_header_hash h; ck_cumulative_work := to_work t';
        ck_cumulative_weight := to_weight t' |}].
Proof.
  unfold build_step. destruct (Z.eqb_spec z 0).
  - intros (_ & [= <-])%guard_err_Ok. by right.
  - unfold add_header. intros (w & _ & [= <-])%bind_Ok. cbn. destruct (_ =? 0); [by right|by left].
Qed.

Lemma totals_nonempty hs t : hs <> [] -> totals hs = Ok t -> to_checkpoints t <> [].
Proof.
  revert t. induction hs as [|h hs IH] using rev_ind; intros t Hne Ht; [done|].
  rewrite totals_snoc in Ht. apply bind_Ok in Ht as (t0 & Ht0 & Hs).
  apply build_step_Ok in Hs as [[-> Hz]| ->]; [|by destruct (to_checkpoints t0)].
  apply (IH t0); [|done]. by intros ->.
Qed.

(** A checkpoint holds the totals of the headers up to its height, and its hash. *)
Lemma checkpoint_holds hs t i ck :
  totals hs = Ok t -> to_checkpoints t !! i = Some ck ->
  0 <= ck_height ck /\ block_header_hash <$> hs !! Z.to_nat (ck_height ck) = Some (ck_hash ck) /\
  totals (take (S (Z.to_nat (ck_height ck))) hs)
  = Ok {| to_checkpoints := take (S i) (to_checkpoints t); to_work := ck_cumulative_work ck;
          to_weight := ck_cumulative_weight ck |}.
Proof.
  revert t. induction hs as [|h hs IH] using rev_ind; intros t Ht Hi.
  { injection Ht as <-. done. }
  rewrite totals_snoc in Ht. apply bind_Ok in Ht as (t0 & Ht0 & Hs).
  assert (to_checkpoints t0 !! i = Some ck -> take (S i) (to_checkpoints t) = take (S i) (to_checkpoints t0) ->
    0 <= ck_height ck /\ block_header_hash <$> (hs ++ [h]) !! Z.to_nat (ck_height ck) = Some (ck_hash ck) /\
    totals (take (S (Z.to_nat (ck_height ck))) (hs ++ [h]))
    = Ok {| to_checkpoints := take (S i) (to_checkpoints t); to_work := ck_cumulative_work ck;
            to_weight := ck_cumulative_weight ck |}) as Hold.
  { intros Hi0 ->. destruct (IH t0 Ht0 Hi0) as (Hz & Hh & Htot).
    destruct (hs !! Z.to_nat (ck_height ck)) as [x|] eqn:Hx; [|done].
    pose proof (lookup_lt_Some _ _ _ Hx). rewrite lookup_app_l, Hx, take_app_le by lia. by split_and!. }
  pose proof (build_step_Ok _ _ _ _ Hs) as [[Heq _]|Heq].
  { rewrite Heq in Hi. apply Hold; [done|by rewrite Heq]. }
  rewrite Heq in Hi. apply lookup_snoc_Some in Hi as [[Hlt Hi]|[Hil <-]].
  - apply Hold; [done|]. rewrite Heq, take_app_le by lia. done.
  - cbn [ck_height ck_hash ck_cumulative_work ck_cumulative_weight]. rewrite Nat2Z.id.
    split_and!; [lia|by rewrite lookup_app_r, Nat.sub_diag|].
    rewrite take_ge by (rewrite length_app; cbn; lia). rewrite totals_snoc, Ht0. cbn [mbind result_mbind].
    rewrite Hs. f_equal. rewrite take_ge by (rewrite Heq, length_app; cbn; lia). by destruct t.
Qed.

Lemma build_totals hs c :
  chain_of hs c -> hs <> [] -> build_header_state_checkpoints genesis c = totals hs.
Proof.
  intros Hc Hne. unfold build_header_state_checkpoints. rewrite (ascending_chain hs c Hc). fold (totals hs).
  destruct (totals hs) as [t|] eqn:Ht; [|done]. cbn [mbind result_mbind].
  apply totals_nonempty in Ht; [|done]. by destruct (to_checkpoints t).
Qed.

Lemma heights_take hs k : take k (heights hs) = heights (take k hs).
Proof.
  apply list_eq. intros i. destruct (decide (i < k)%nat).
  - by rewrite lookup_take_lt, !heights_lookup, lookup_take_lt.
  - rewrite lookup_take_ge, heights_lookup, lookup_take_ge by lia. done.
Qed.

(** The loops over later heights continue the fold. *)
Lemma update_loop_fold hs c n : forall k t,
  chain_of hs c -> (0 < k)%nat -> (k + n <= length hs)%nat ->
  update_loop c n (Z.of_nat k) t = try_fold (build_step genesis) (take n (drop k (heights hs))) t.
Proof.
  intros k t Hc. revert k t. induction n as [|n IH]; intros k t Hk Hn; cbn [update_loop]; [done|].
  destruct (lookup_lt_is_Some_2 hs k) as [h Hh]; [lia|].
  rewrite (proj2 (co_headers _ _ Hc (Z.of_nat k) h)) by (rewrite Nat2Z.id; split; [lia|done]).
  cbn [ok_or mbind result_mbind].
  rewrite (drop_S (heights hs) (Z.of_nat k, h) k) by (by rewrite heights_lookup, Hh).
  cbn [take try_fold]. rewrite build_step_later by lia.
  destruct (add_header (Z.of_nat k) h t) as [t'|]; [|done]. cbn [mbind result_mbind].
  destruct (checked_add 64 (Z.of_nat k) 1) as [z|] eqn:Hz.
  - apply checked_add_Some in Hz as [-> _]. replace (Z.of_nat k + 1) with (Z.of_nat (S k)) by lia.
    apply IH; lia.
  - unfold checked_add in Hz. pose proof (co_length _ _ Hc).
    destruct (Z.ltb_spec (Z.of_nat k + 1) (2 ^ 64)); [done|]. replace n with 0%nat by lia. done.
Qed.

Lemma totals_drop hs t k :
  totals (take k hs) = Ok t -> totals hs = try_fold (build_step genesis) (drop k (heights hs)) t.
Proof.
  intros Ht. unfold totals in *. rewrite <- (take_drop k (heights hs)) at 1.
  by rewrite try_fold_app, heights_take, Ht.
Qed.

Lemma totals_genesis hs t :
  hs <> [] -> totals hs = Ok t -> exists ck, ck ∈ to_checkpoints t /\ ck_height ck = 0.
Proof.
  revert t. induction hs as [|h hs IH] using rev_ind; intros t Hne Ht; [done|].
  rewrite totals_snoc in Ht. apply bind_Ok in Ht as (t0 & Ht0 & Hs).
  destruct (decide (hs = [])) as [->|Hn].
  - apply build_step_Ok in Hs as [[_ Hz]| ->]; [done|]. eexists. by rewrite elem_of_app; split; [right; left|].
  - destruct (IH t0 Hn Ht0) as (ck & Hin & Hz). exists ck. split; [|done].
    apply build_step_Ok in Hs as [[-> _]| ->]; [done|]. rewrite elem_of_app. by left.
Qed.
End totals.

(** ** Updates and summaries are exact *)

Section theorems.
Context `{Sha3} `{Argon2}.
Context (genesis : Hash).

Lemma header_hash_inj h1 h2 :
  w_wf wire_header h1 -> w_wf wire_header h2 -> block_header_hash h1 = block_header_hash h2 ->
  h1 = h2 \/ sha3_collision.
Proof.
  intros Hw1 Hw2 Heq. apply domain_inj in Heq as [Heq|]; [left|by right]. by apply (w_inj wire_header).
Qed.

(** One hash at a height determines every header up to it. *)
Lemma linked_same hs hs' n h h' :
  linked hs -> linked hs' -> Forall (w_wf wire_header) hs -> Forall (w_wf wire_header) hs' ->
  hs !! n = Some h -> hs' !! n = Some h' -> block_header_hash h = block_header_hash h' ->
  take (S n) hs = take (S n) hs' \/ sha3_collision.
Proof.
  intros Hl Hl' Hw Hw'. revert h h'. induction n as [|n IH]; intros h h' Hh Hh' Heq;
    (destruct (header_hash_inj h h' (Forall_lookup_1 _ _ _ _ Hw Hh) (Forall_lookup_1 _ _ _ _ Hw' Hh') Heq)
      as [<-|]; [|by right]).
  - left. by rewrite (take_S_r hs 0 h), (take_S_r hs' 0 h).
  - pose proof (Hl _ _ Hh) as Hp. pose proof (Hl' _ _ Hh') as Hp'. cbn in Hp, Hp'.
    destruct (lookup_lt_is_Some_2 hs n) as [x Hx]; [apply lookup_lt_Some in Hh; lia|].
    destruct (lookup_lt_is_Some_2 hs' n) as [x' Hx']; [apply lookup_lt_Some in Hh'; lia|].
    rewrite Hx in Hp. rewrite Hx' in Hp'. cbn in Hp, Hp'.
    destruct (IH x x' Hx Hx') as [Ht|]; [congruence| |by right]. left.
    by rewrite (take_S_r hs (S n) h), (take_S_r hs' (S n) h), Ht.
Qed.

Lemma rposition_Some {A} (p : A -> bool) l i :
  rposition p l = Some i -> exists x, l !! i = Some x /\ p x = true.
Proof.
  revert i. induction l as [|x l IH]; intros i; [done|]. cbn. destruct (rposition p l) as [j|].
  - intros [= <-]. by apply IH.
  - destruct (p x) eqn:Hp; [|done]. intros [= <-]. by exists x.
Qed.

Lemma rposition_None {A} (p : A -> bool) l x : rposition p l = None -> x ∈ l -> p x = false.
Proof.
  induction l as [|y l IH]; [by rewrite elem_of_nil|]. cbn. destruct (rposition p l); [done|].
  destruct (p y) eqn:Hp; [done|]. intros _ [->|]%elem_of_cons; [done|by apply IH].
Qed.

(** (C13) Updating is rebuilding.  After any move of the tip, to any chain, updating the
    checkpoints of the chain before gives the checkpoints and totals, or the
    error, that scanning every header of the new chain gives, unless SHA3
    collides. *)
Theorem checkpoints_update_exact hs c hs' c' t :
  chain_of hs c -> hs <> [] -> Z.of_nat (length hs) < 2 ^ 64 -> chain_of hs' c' -> hs' <> [] ->
  Forall (w_wf wire_header) hs -> Forall (w_wf wire_header) hs' ->
  build_header_state_checkpoints genesis c' = Ok t ->
  updated_header_state_checkpoints genesis (Some (to_checkpoints t)) c
    = build_header_state_checkpoints genesis c \/ sha3_collision.
Proof.
  intros Hc Hne Hlen Hc' Hne' Hw Hw' Ht. rewrite (build_totals genesis hs' c') in Ht by done.
  unfold updated_header_state_checkpoints.
  assert (tip_height c = Some (Z.of_nat (length hs) - 1)) as Htip.
  { rewrite (co_tip _ _ Hc). destruct hs as [|x hs]; [done|]. unfold checked_sub. cbn [length].
    by rewrite (proj2 (Z.ltb_ge _ _)) by lia. }
  rewrite Htip. destruct (rposition _ _) as [i|] eqn:Hr; [|by left].
  apply rposition_Some in Hr as (ck & Hck & Hon). rewrite Hck.
  destruct (checkpoint_holds genesis hs' t i ck Ht Hck) as (Hz & Hh' & Htot).
  unfold on_chain in Hon. apply andb_true_iff in Hon as [Hle%Z.leb_le Hon].
  destruct (headers c !! ck_height ck) as [h|] eqn:Hh; [|done]. apply bool_decide_eq_true in Hon.
  apply (co_headers _ _ Hc) in Hh as [_ Hh]. set (n := Z.to_nat (ck_height ck)) in *.
  destruct (hs' !! n) as [h'|] eqn:Hn'; [|done]. injection Hh' as Hh'.
  destruct (linked_same hs hs' n h h') as [Hp|]; try done;
    [apply Hc|apply Hc'|congruence| |by right]. left.
  rewrite <- Hp in Htot. rewrite (build_totals genesis hs c), (totals_drop genesis hs _ _ Htot) by done.
  pose proof (lookup_lt_Some _ _ _ Hh).
  replace (saturating_add 64 (ck_height ck) 1) with (Z.of_nat (S n))
    by (unfold saturating_add, n; lia).
  rewrite (update_loop_fold genesis hs) by (done || unfold loop_count; lia).
  rewrite take_ge; [done|]. unfold loop_count, heights. rewrite length_drop, length_imap. lia.
Qed.

(** Dropping the checkpoints, the same totals. *)
Lemma totals_loop_update c n : forall k t t',
  update_loop c n k t = Ok t' ->
  totals_loop c n (Some k) (to_work t) (to_weight t) = Ok (to_work t', to_weight t').
Proof.
  induction n as [|n IH]; intros k t t'; cbn [update_loop totals_loop]; [by intros [= <-]|].
  intros (h & -> & Hu)%bind_Ok. cbn [mbind result_mbind]. apply bind_Ok in Hu as (t1 & Hadd & Hu).
  unfold add_header in Hadd. apply bind_Ok in Hadd as (w & -> & [= <-]). cbn [mbind result_mbind].
  destruct (checked_add 64 k 1); [by apply IH in Hu|]. injection Hu as <-. by destruct n.
Qed.

Lemma totals_sum hs t :
  totals genesis hs = Ok t ->
  to_work t = add_work Work.ZERO (drop 1 hs) /\ to_weight t = add_weights 0 (drop 1 (numbered hs)).
Proof.
  revert t. induction hs as [|h hs IH] using rev_ind; intros t Ht; [by injection Ht as <-|].
  rewrite totals_snoc in Ht. apply bind_Ok in Ht as (t0 & Ht0 & Hs). destruct (IH t0 Ht0) as [Hwk Hwt].
  rewrite numbered_snoc. unfold build_step in Hs. destruct (Z.eqb_spec (Z.of_nat (length hs)) 0) as [Hz|Hz].
  - apply guard_err_Ok in Hs as [_ [= <-]]. destruct hs; [|cbn in Hz; lia]. done.
  - unfold add_header in Hs. apply bind_Ok in Hs as (w & Hw%ok_or_Ok & [= <-]). cbn [to_work to_weight].
    rewrite !drop_app_le by (rewrite ?numbered_length; destruct hs; cbn in *; lia).
    rewrite add_weights_app, Hwk, Hwt. unfold add_work. rewrite foldl_snoc, Hw. done.
Qed.

Lemma recent_loop_spec hs c n : forall k,
  chain_of hs c -> (k + n < length hs)%nat ->
  recent_loop c n (Z.of_nat k) = Ok (take (S n) (drop k (numbered hs))).
Proof.
  intros k Hc. revert k. induction n as [|n IH]; intros k Hk; cbn [recent_loop];
    (destruct (lookup_lt_is_Some_2 hs k) as [h Hh]; [lia|]);
    rewrite (proj2 (co_headers _ _ Hc (Z.of_nat k) h)) by (rewrite Nat2Z.id; split; [lia|done]);
    cbn [ok_or mbind result_mbind];
    rewrite (drop_S (numbered hs) {| hh_height := Z.of_nat k; hh_header := h |} k)
      by (by rewrite numbered_lookup, Hh); [done|].
  pose proof (co_length _ _ Hc). rewrite (proj2 (checked_add_Some 64 _ _ _)) by (split; [done|lia]).
  cbn [ok_or mbind result_mbind]. replace (Z.of_nat k + 1) with (Z.of_nat (S k)) by lia.
  rewrite IH by lia. done.
Qed.

(** The checkpoint the summary starts from, and the totals it leads to. *)
Lemma nearest_checkpoint hs c t t' target :
  chain_of hs c -> Z.of_nat (length hs) < 2 ^ 64 -> (target < length hs)%nat ->
  totals genesis hs = Ok t -> totals genesis (take (S target) hs) = Ok t' ->
  exists ck hc, rfind (fun c => ck_height c <=? Z.of_nat target) (to_checkpoints t) = Some ck /\
    headers c !! ck_height ck = Some hc /\ block_header_hash hc = ck_hash ck /\
    totals_loop c (loop_count (ck_height ck + 1) (Z.of_nat target)) (checked_add 64 (ck_height ck) 1)
      (ck_cumulative_work ck) (ck_cumulative_weight ck) = Ok (to_work t', to_weight t').
Proof.
  intros Hc Hlen Hlt Ht Ht'. unfold rfind.
  destruct (rposition _ (to_checkpoints t)) as [i|] eqn:Hr.
  2: { destruct (totals_genesis genesis hs t) as (ck & Hin & Hz); [by intros ->; cbn in Hlt; lia|done|].
       apply (rposition_None _ _ ck Hr) in Hin. rewrite Hz in Hin. lia. }
  apply rposition_Some in Hr as (ck & Hck & Hle%Z.leb_le). cbn [mbind option_bind].
  destruct (checkpoint_holds genesis hs t i ck Ht Hck) as (Hz & Hhash & Htot).
  set (n := Z.to_nat (ck_height ck)) in *.
  destruct (hs !! n) as [hc|] eqn:Hn; [|done]. injection Hhash as Hhash. exists ck, hc.
  split_and!; [done|by apply (co_headers _ _ Hc)|done|].
  rewrite (proj2 (checked_add_Some 64 (ck_height ck) 1 (ck_height ck + 1))) by (split; [done|lia]).
  replace (ck_height ck + 1) with (Z.of_nat (S n)) by (unfold n; lia).
  set (tn := {| to_checkpoints := take (S i) (to_checkpoints t); to_work := ck_cumulative_work ck;
                to_weight := ck_cumulative_weight ck |}) in Htot.
  apply (totals_loop_update c _ _ tn).
  rewrite (update_loop_fold genesis hs) by (done || unfold loop_count, n in *; lia).
  rewrite <- Ht', (totals_drop genesis (take (S target) hs) tn (S n)).
  2: { rewrite take_take, Nat.min_l by (unfold n; lia). exact Htot. }
  rewrite <- heights_take. f_equal. rewrite take_drop_commute. do 2 f_equal. unfold loop_count, n. lia.
Qed.

Lemma numbered_inj l1 l2 : numbered l1 = numbered l2 -> l1 = l2.
Proof.
  intros Heq. apply list_eq. intros i. apply (f_equal (lookup i)) in Heq. rewrite !numbered_lookup in Heq.
  destruct (l1 !! i), (l2 !! i); naive_solver.
Qed.

Lemma numbered_take hs k : take k (numbered hs) = numbered (take k hs).
Proof.
  apply list_eq. intros i. destruct (decide (i < k)%nat).
  - by rewrite lookup_take_lt, !numbered_lookup, lookup_take_lt.
  - rewrite lookup_take_ge, numbered_lookup, lookup_take_ge by lia. done.
Qed.

(** What the summary of validated headers holds of its list. *)
Lemma summary_fields hs st :
  Z.of_nat (length hs) <= 2 ^ 64 -> Forall (fun h => fits 32 (target_bits h)) hs ->
  header_validation_state (numbered hs) genesis = Returned (Ok st) ->
  last hs = Some (hv_header st) /\ hv_height st = Z.of_nat (length hs) - 1 /\
  hv_cumulative_work st = add_work Work.ZERO (drop 1 hs) /\
  hv_cumulative_weight st = add_weights 0 (drop 1 (numbered hs)) /\
  numbered hs !! (if 0 <? hv_height st then 1%nat else 0%nat) = Some (hv_difficulty_anchor st) /\
  hv_recent_headers st = last_n window (numbered hs).
Proof.
  intros Hlen Hf (hash & tip & Hv & [Htip Hz]%last_numbered & Hh & Hhd & Hwt & Han & Hrec)%header_validation_state_Ok.
  rewrite Hh, Hhd. split_and!; try done. apply header_chain_Ok in Hv as (g & new & Hl & _ & _ & _ & ->).
  - by apply numbered_inj in Hl as ->.
  - by rewrite numbered_length.
  - apply Forall_lookup. intros i e He. rewrite numbered_lookup in He. destruct (hs !! i) eqn:Hi; [|done].
    injection He as <-. cbn. by eapply (Forall_lookup_1 _ _ _ _ Hf).
Qed.

(** (C36) The summary of a canonical header computed from the nearest checkpoint is the
    summary that validating all headers up to it from the genesis gives. *)
Theorem header_summary_exact hs c t target st :
  chain_of hs c -> Z.of_nat (length hs) < 2 ^ 64 -> Forall (fun h => fits 32 (target_bits h)) hs ->
  build_header_state_checkpoints genesis c = Ok t -> (target < length hs)%nat ->
  header_validation_state (numbered (take (S target) hs)) genesis = Returned (Ok st) ->
  ledger_header_state_at_height c (to_checkpoints t) (Z.of_nat target) = Ok st.
Proof.
  intros Hc Hlen Hf Ht Hlt Hst. assert (hs <> []) as Hne by (by intros ->; cbn in Hlt; lia).
  rewrite (build_totals genesis hs c) in Ht by done.
  destruct (totals_take genesis hs t (S target) Ht) as [t' Ht'].
  destruct (lookup_lt_is_Some_2 hs target Hlt) as [h Hlk].
  apply summary_fields in Hst as (Hl & Hh & Hwk & Hwt & Han & Hrec);
    [|rewrite length_take; lia|by apply Forall_take].
  rewrite length_take, Nat.min_l in Hh by lia.
  rewrite (take_S_r hs target h Hlk), last_snoc in Hl. injection Hl as Hl.
  destruct (totals_sum (take (S target) hs) t' Ht') as [Hwk' Hwt'].
  destruct (nearest_checkpoint hs c t t' target Hc Hlen Hlt Ht Ht') as (ck & hc & Hfind & Hck & Hhash & Hloop).
  assert (forall i x, hs !! i = Some x -> headers c !! Z.of_nat i = Some x) as Hhdr
    by (intros i x Hi; apply (co_headers _ _ Hc); rewrite Nat2Z.id; split; [lia|done]).
  unfold ledger_header_state_at_height. rewrite (Hhdr target h Hlk), Hfind.
  cbn [ok_or mbind result_mbind]. rewrite Hck. cbn [ok_or mbind result_mbind]. rewrite Hhash, bool_decide_eq_true_2 by done. cbn [negb guard_err].
  rewrite Hloop. cbn [mbind result_mbind].
  assert (exists a, headers c !! (if Z.of_nat target =? 0 then 0 else 1) = Some a /\
    hv_difficulty_anchor st = {| hh_height := if Z.of_nat target =? 0 then 0 else 1; hh_header := a |})
    as (a & -> & Ha).
  { rewrite Hh, numbered_lookup in Han.
    replace (0 <? Z.of_nat (S target) - 1) with (negb (Z.of_nat target =? 0)) in Han
      by (destruct (Z.eqb_spec (Z.of_nat target) 0), (Z.ltb_spec 0 (Z.of_nat (S target) - 1)); (done || lia)).
    destruct (Z.of_nat target =? 0); cbn [negb] in Han.
    - rewrite lookup_take_lt in Han by lia. destruct (hs !! 0%nat) as [a|] eqn:Hi; [|done].
      injection Han as <-. exists a. split; [by apply (Hhdr 0%nat)|done].
    - destruct (take (S target) hs !! 1%nat) as [a|] eqn:Hi; [|done]. injection Han as <-.
      apply lookup_take_Some in Hi as [Hi _]. exists a. split; [by apply (Hhdr 1%nat)|done]. }
  cbn [ok_or mbind result_mbind].
  set (start := (S target - window)%nat).
  replace (saturating_sub (saturating_add 64 (Z.of_nat target) 1) RECENT_HEADER_WINDOW) with (Z.of_nat start).
  2: { unfold start, window, saturating_sub, saturating_add, RECENT_HEADER_WINDOW, WBDA_WINDOW. lia. }
  assert (start <= target)%nat as Hs by (unfold start; pose proof window_pos; lia).
  replace (Z.to_nat (Z.of_nat target - Z.of_nat start)) with (target - start)%nat by lia.
  rewrite (recent_loop_spec hs c) by (done || lia). cbn [mbind result_mbind].
  destruct st; cbn in *; subst. f_equal. f_equal; [lia|congruence|congruence|].
  rewrite take_drop_commute, <- numbered_take. unfold last_n. rewrite length_take, numbered_length.
  rewrite Nat.min_l by lia. fold start. do 2 f_equal. lia.
Qed.
End theorems.

(** ** Locators *)

Definition descends (a b : Hash * Z) : Prop := b.2 < a.2.

Section locators.
Context `{Sha3}.
Context (genesis : Hash).

(** What a locator holds: canonical hashes at falling heights. *)
Record canonical_locator (c : Chain) (l : list (Hash * Z)) : Prop := {
  cl_entries : Forall (fun e => block_header_hash <$> headers c !! e.2 = Some e.1) l;
  cl_falling : StronglySorted descends l;
}.

Lemma locator_loop_spec hs c fuel : forall count height step,
  chain_of hs c -> 0 <= height < Z.of_nat (length hs) -> 1 <= step ->
  0 <= count < MAX_LOCATOR_HASHES - 1 -> MAX_LOCATOR_HASHES - 1 <= count + Z.of_nat fuel ->
  exists hash l, locator_loop c fuel count height step = Ok ((hash, height) :: l) /\
    canonical_locator c ((hash, height) :: l) /\
    count + Z.of_nat (length ((hash, height) :: l)) <= MAX_LOCATOR_HASHES - 1.
Proof.
  intros count height step Hc. revert count height step.
  induction fuel as [|fuel IH]; intros count height step Hh Hs Hcount Hf; [lia|].
  destruct (lookup_lt_is_Some_2 hs (Z.to_nat height)) as [h Hl]; [lia|].
  assert (headers c !! height = Some h) as Hlk by (apply (co_headers _ _ Hc); split; [lia|done]).
  cbn [locator_loop]. rewrite Hlk. cbn [ok_or mbind result_mbind].
  destruct ((height =? 0) || (count + 1 =? MAX_LOCATOR_HASHES - 1)) eqn:Hstop.
  - exists (block_header_hash h), []. split_and!; [done| |cbn [length]; lia].
    split; [|by repeat constructor]. constructor; [|constructor]. cbn. by rewrite Hlk.
  - apply orb_false_iff in Hstop as [Hz%Z.eqb_neq Hm%Z.eqb_neq].
    destruct (IH (count + 1) (saturating_sub height step)
      (if 10 <=? count + 1 then Z.min (step * 2) (2 ^ 64 - 1) else step)) as (hash & l & -> & [He Hfall] & Hlen).
    + unfold saturating_sub. lia.
    + destruct (10 <=? count + 1); lia.
    + lia.
    + lia.
    + cbn [mbind result_mbind]. exists (block_header_hash h), ((hash, saturating_sub height step) :: l).
      split_and!; [done| |cbn [length] in *; lia]. split.
      * constructor; [|done]. cbn. by rewrite Hlk.
      * constructor; [done|]. apply StronglySorted_inv in Hfall as [_ Hfall].
        assert (saturating_sub height step < height) as Hlt by (unfold saturating_sub; lia).
        constructor; [exact Hlt|]. eapply Forall_impl; [exact Hfall|]. intros e He'. unfold descends in *.
        cbn in *. lia.
Qed.

(** The genesis closes a locator that does not end with it. *)
Lemma close_locator hs c g l :
  chain_of (g :: hs) c -> block_header_hash g = genesis -> canonical_locator c l ->
  (exists e, last l = Some e /\ e.1 <> genesis) -> canonical_locator c (l ++ [(genesis, 0)]).
Proof.
  intros Hc Hgh [He Hfall] ([lasth lastz] & Hlast & Hb). cbn [fst] in Hb.
  assert (headers c !! 0 = Some g) as Hg0 by (apply (co_headers _ _ Hc); split; [lia|done]).
  split.
  - apply Forall_app. split; [done|]. constructor; [|constructor]. cbn [fst snd]. rewrite Hg0. cbn. by rewrite Hgh.
  - apply StronglySorted_app_2; [|done|by repeat constructor].
    intros e e0 Hin ->%list_elem_of_singleton. unfold descends. cbn [snd].
    apply last_Some in Hlast as [pre ->].
    apply Forall_app in He as [_ [Hle _]%Forall_cons]. cbn [fst snd] in Hle.
    assert (0 < lastz) as Hpos.
    { destruct (headers c !! lastz) as [y|] eqn:Hy; [|done].
      destruct (decide (lastz = 0)) as [->|]; [|apply (co_headers _ _ Hc) in Hy as [Hz _]; lia].
      rewrite Hg0 in Hy. injection Hy as <-. injection Hle as <-. by destruct Hb. }
    apply elem_of_app in Hin as [Hin| ->%list_elem_of_singleton]; [|exact Hpos].
    pose proof (StronglySorted_app_1_elem_of _ _ _ e (lasth, lastz) Hfall Hin ltac:(by left)) as Hd.
    unfold descends in Hd. cbn [snd] in Hd. lia.
Qed.

(** The locator of a chain always exists and serves to find a common ancestor:
    it starts at the tip, its heights fall strictly, its hashes are the canonical
    ones, it ends with the genesis, which every peer has, and it never exceeds
    the 64 hashes a request may carry. *)
Theorem locator_sound hs c g :
  chain_of (g :: hs) c -> block_header_hash g = genesis ->
  exists l, ledger_header_locator genesis c = Ok l /\ canonical_locator c l /\
    head l.*2 = tip_height c /\ fst <$> last l = Some genesis /\
    Z.of_nat (length l) <= MAX_LOCATOR_HASHES.
Proof.
  intros Hc Hgh.
  assert (tip_height c = Some (Z.of_nat (length hs))) as Htip.
  { rewrite (co_tip _ _ Hc). unfold checked_sub. cbn [length].
    rewrite (proj2 (Z.ltb_ge _ _)) by lia. f_equal. lia. }
  unfold ledger_header_locator.
  assert (MAX_LOCATOR_HASHES - 1 <= 0 + Z.of_nat (Z.to_nat MAX_LOCATOR_HASHES)) as Hfuel
    by (unfold MAX_LOCATOR_HASHES; lia).
  revert Hfuel. generalize (Z.to_nat MAX_LOCATOR_HASHES). intros fuel Hfuel.
  rewrite Htip. cbn [ok_or mbind result_mbind].
  destruct (locator_loop_spec (g :: hs) c fuel 0 (Z.of_nat (length hs)) 1 Hc)
    as (hash & l & Hloop & Hcan & Hl);
    [cbn [length]; lia|lia|unfold MAX_LOCATOR_HASHES; lia|exact Hfuel|].
  rewrite Hloop. clear Hloop. cbn [mbind result_mbind].
  destruct (last ((hash, Z.of_nat (length hs)) :: l)) as [[lasth lastz]|] eqn:Hlast.
  2: { rewrite last_cons in Hlast. by destruct (last l). }
  destruct (decide (lasth = genesis)) as [->|Hb].
  - rewrite bool_decide_eq_true_2 by done. exists ((hash, Z.of_nat (length hs)) :: l). split; [reflexivity|].
    split_and!; [exact Hcan|reflexivity|exact (f_equal (fmap fst) Hlast)|lia].
  - rewrite bool_decide_eq_false_2 by done. exists (((hash, Z.of_nat (length hs)) :: l) ++ [(genesis, 0)]).
    split; [reflexivity|].
    split_and!; [|reflexivity|exact (f_equal (fmap fst) (last_snoc _ _))|rewrite length_app; cbn [length] in *; lia].
    apply (close_locator hs c g); [done|done|exact Hcan|]. by exists (lasth, lastz).
Qed.
End locators.

Lemma chunks_concat hashes n :
  Forall (fun h => length h = 32%nat) hashes -> (length hashes <= n)%nat ->
  chunks_exact n 32 (concat hashes) = hashes.
Proof.
  intros Hf. revert n. induction Hf as [|h hashes Hh Hf IH]; intros n Hn; [by destruct n|].
  destruct n as [|n]; [cbn in Hn; lia|]. cbn [concat chunks_exact].
  rewrite (proj2 (Nat.leb_le _ _)) by (rewrite length_app; lia).
  rewrite take_app_length', drop_app_length' by done. f_equal. apply IH. cbn in Hn. lia.
Qed.

Lemma length_concat_hashes (hashes : list (list Z)) :
  Forall (fun h => length h = 32%nat) hashes -> length (concat hashes) = (32 * length hashes)%nat.
Proof. induction 1 as [|h hashes Hh _ IH]; [done|]. cbn [concat length]. rewrite length_app. lia. Qed.

Lemma chunks_exact_concat n : forall bytes,
  length bytes = (32 * n)%nat -> forall fuel, (n <= fuel)%nat ->
  concat (chunks_exact fuel 32 bytes) = bytes /\ length (chunks_exact fuel 32 bytes) = n /\
  Forall (fun h => length h = 32%nat) (chunks_exact fuel 32 bytes).
Proof.
  induction n as [|n IH]; intros bytes Hb fuel Hf.
  { destruct bytes; [|cbn in Hb; lia]. by destruct fuel. }
  destruct fuel as [|fuel]; [lia|]. cbn [chunks_exact].
  rewrite (proj2 (Nat.leb_le _ _)) by lia.
  destruct (IH (drop 32 bytes)) with (fuel := fuel) as (Hc & Hl & Ha); [rewrite length_drop; lia|lia|].
  cbn [concat length]. rewrite Hc, Hl, take_drop. split_and!; [done|done|].
  constructor; [rewrite length_take; lia|done].
Qed.

Lemma Ok_inj {E A} (a b : A) : Ok (E := E) a = Ok b -> a = b.
Proof. congruence. Qed.

(** Locator messages are a bijection: what is encoded decodes to the same hashes,
    and a message that decodes is the encoding of what it decodes to. *)
Theorem locator_roundtrip hashes bytes :
  Forall (fun h => length h = HASH_SIZE) hashes -> bytes_wf bytes ->
  (encode_locator hashes = Ok bytes <-> decode_locator bytes = Ok hashes).
Proof.
  intros Hf Hwf. unfold encode_locator, decode_locator. split.
  - intros (Hg & [= <-])%guard_err_Ok. apply orb_false_iff in Hg as [Hg1%Nat.eqb_neq Hg2%Z.ltb_ge].
    unfold MAX_LOCATOR_HASHES in *. pose proof (length_concat_hashes hashes Hf) as Hl.
    assert (wrap 8 (Z.of_nat (length hashes)) = Z.of_nat (length hashes)) as Hw
      by (unfold wrap; apply Z.mod_small; lia).
    rewrite Hw. cbn [head lookup list_lookup]. rewrite bool_decide_eq_true_2 by done. cbn [negb guard_err].
    cbn [ok_or mbind result_mbind drop length]. unfold guard_err.
    rewrite (proj2 (Z.eqb_neq _ _)), (proj2 (Z.ltb_ge _ _)) by lia.
    rewrite (proj2 (Z.eqb_eq _ _)) by lia. cbn [orb negb]. f_equal.
    change (drop 0 (concat hashes)) with (concat hashes). apply chunks_concat; [done|]. lia.
  - intros (Hh & Hd)%guard_err_Ok. case_bool_decide as Hhead; [|done].
    apply bind_Ok in Hd as (count & Hc%ok_or_Ok & Hd). apply guard_err_Ok in Hd as [Hg Hd].
    apply Ok_inj in Hd.
    apply orb_false_iff in Hg as [[Hg1%Z.eqb_neq Hg2%Z.ltb_ge]%orb_false_iff Hg3%negb_false_iff%Z.eqb_eq].
    destruct bytes as [|m [|n rest]]; [done|done|]. cbn in Hhead, Hc. injection Hhead as ->. injection Hc as ->.
    change (chunks_exact (S (S (length rest))) 32 rest = hashes) in Hd.
    unfold MAX_LOCATOR_HASHES in *.
    assert (0 <= count < 256) as Hrange by (apply (Forall_lookup_1 _ _ 1%nat count Hwf); done).
    cbn [length] in Hg3.
    destruct (chunks_exact_concat (Z.to_nat count) rest ltac:(lia) (S (S (length rest))) ltac:(lia))
      as (Hcc & Hcl & _). rewrite Hd in Hcc, Hcl.
    unfold guard_err. rewrite Hcl, Hcc, (proj2 (Nat.eqb_neq _ _)), (proj2 (Z.ltb_ge _ _)) by lia.
    cbn [orb]. rewrite Z2Nat.id by lia. unfold wrap. by rewrite Z.mod_small by lia.
Qed.

(** ** A chain of two headers *)

Section examples.
#[local] Existing Instance toy_sha3.
#[local] Existing Instance toy_argon2.

Definition two_chain : Chain :=
  match Chain.insert_block sample_next sample_chain with Ok c => c | Err _ => sample_chain end.

Lemma two_chain_of : chain_of sample_headers two_chain.
Proof.
  destruct (Chain.insert_block sample_next sample_chain) as [c|] eqn:Hi; [|vm_compute in Hi; discriminate].
  unfold two_chain. rewrite Hi.
  by apply (Chain.insert_block_chain [header sample_genesis]) in Hi as [_ Hi]; [|apply sample_chain_of|by vm_compute].
Qed.

Lemma sample_headers_wf : Forall (w_wf wire_header) sample_headers.
Proof.
  assert (forall h : Header, (length (previous_hash h) =? 32)%nat && (length (h_merkle_root h) =? 32)%nat
    && (length (h_state_root h) =? 32)%nat
    && forallb (fun b => (0 <=? b) && (b <? 256)) (previous_hash h ++ h_merkle_root h ++ h_state_root h)
    && (0 <=? target_bits h) && (target_bits h <? 2 ^ 32) && (0 <=? block_weight h)
    && (block_weight h <? 2 ^ 32) && (0 <=? h_nonce h) && (h_nonce h <? 2 ^ 64) = true ->
    w_wf wire_header h) as Hwf.
  { intros h Hh. rewrite !andb_true_iff, !Nat.eqb_eq, forallb_forall in Hh.
    destruct Hh as (((((((((? & ?) & ?) & Hall) & ?) & ?) & ?) & ?) & ?) & ?).
    assert (bytes_wf (previous_hash h ++ h_merkle_root h ++ h_state_root h)) as Hb.
    { apply Forall_forall. intros b Hb%list_elem_of_In. specialize (Hall b Hb). lia. }
    apply bytes_wf_app in Hb as [? [? ?]%bytes_wf_app]. cbn. split_and!; (done || lia). }
  constructor; [|constructor; [|constructor]]; apply Hwf; vm_compute; reflexivity.
Qed.

Definition two_totals : Totals :=
  match build_header_state_checkpoints (block_hash sample_genesis) two_chain with
  | Ok t => t
  | Err _ => totals_zero
  end.

Lemma two_totals_built :
  build_header_state_checkpoints (block_hash sample_genesis) two_chain = Ok two_totals.
Proof.
  unfold two_totals. destruct (build_header_state_checkpoints _ two_chain) eqn:Hb; [done|].
  vm_compute in Hb. discriminate.
Qed.

(** Rolling the tip back to the genesis. *)
Lemma checkpoints_update_exact_witness :
  updated_header_state_checkpoints (block_hash sample_genesis) (Some (to_checkpoints two_totals)) sample_chain
    = build_header_state_checkpoints (block_hash sample_genesis) sample_chain \/ sha3_collision.
Proof.
  pose proof sample_headers_wf as Hw. pose proof (Forall_cons_1 _ _ _ Hw) as [Hg _].
  apply (checkpoints_update_exact (block_hash sample_genesis) [header sample_genesis] sample_chain
    sample_headers two_chain two_totals sample_chain_of ltac:(discriminate) ltac:(reflexivity)
    two_chain_of ltac:(discriminate) ltac:(constructor; [exact Hg|constructor]) Hw two_totals_built).
Defined.

Lemma header_summary_exact_witness :
  exists st, header_validation_state (numbered sample_headers) (block_hash sample_genesis) = Returned (Ok st) /\
    ledger_header_state_at_height two_chain (to_checkpoints two_totals) 1 = Ok st.
Proof.
  destruct (header_validation_state (numbered sample_headers) (block_hash sample_genesis))
    as [[st|]|] eqn:Hv; [|vm_compute in Hv; discriminate..].
  exists st. split; [reflexivity|].
  apply (header_summary_exact (block_hash sample_genesis) sample_headers two_chain two_totals 1 st two_chain_of
    ltac:(vm_compute; reflexivity) ltac:(repeat constructor; vm_compute; congruence) two_totals_built
    ltac:(cbn; lia) Hv).
Defined.

Lemma locator_sound_witness :
  exists l, ledger_header_locator (block_hash sample_genesis) two_chain = Ok l /\
    head l.*2 = Some 1 /\ fst <$> last l = Some (block_hash sample_genesis).
Proof.
  destruct (locator_sound (block_hash sample_genesis) [header sample_next] two_chain (header sample_genesis)
    two_chain_of eq_refl) as (l & Hl & _ & Ht & Hg & _).
  exists l. split; [exact Hl|]. split; [|exact Hg]. rewrite Ht, (co_tip _ _ two_chain_of). reflexivity.
Defined.

Lemma locator_roundtrip_witness :
  exists bytes, encode_locator [replicate 32 7; replicate 32 8] = Ok bytes /\
    decode_locator bytes = Ok [replicate 32 7; replicate 32 8].
Proof.
  destruct (encode_locator [replicate 32 7; replicate 32 8]) as [bytes|] eqn:He; [|vm_compute in He; discriminate].
  exists bytes. split; [reflexivity|].
  apply (locator_roundtrip [replicate 32 7; replicate 32 8] bytes);
    [repeat constructor|vm_compute in He; injection He as <-; by apply digits_compute|exact He].
Defined.
End examples.
