(* ===== verification/BranchSync.v ===== *)
(** * Switching to a better branch

    Models [apply_verified_branch_stream] of [runtime/src/node/chain_sync.rs] with
    the body reads and the cache refresh of [runtime/src/node/state.rs], the
    journal retention of [runtime/src/node/journal.rs], and [recover_branch] of
    [runtime/src/node/recovery.rs].  A node that has validated the headers of a
    peer's branch and downloaded its bodies rolls a private copy of its ledger
    back to the common ancestor and applies the branch; where its journals do not
    reach the ancestor it builds the copy from a local snapshot, or from nothing,
    by replaying its own bodies.  Then it reconciles its pool and commits chain,
    pool and cache together.

    The store is read through a function from heights to the bytes of the
    canonical body.  What the disk does is an argument: whether the receipts of an
    expiring journal could be archived, whether the final transaction commits,
    and for a recovery the record [Surroundings], which also holds what other
    threads made of the node while the lock was released.  Loading the snapshot
    files is part of it; the restoration itself is in [Ledger].  The snapshot
    written after a large synchronization, which does not change the node, and
    logging are left out. *)

From S2P Require Import Prelude Target Work Codec Monetary Index Coin Vm Registry Calls Wire Authorize Policy Block Chain Consensus.
From S2P Require Import Fork HeaderSync HeaderCheckpoints Assets State StateRoot CoinHost AssetHost Settlement Engine Apply.
From S2P Require Import Ledger LedgerProps Genesis Mempool.
#[local] Open Scope Z_scope.

Definition JOURNAL_BLOCKS : Z := 256.
Definition BODY_CACHE_BYTES : Z := 16 * 1024 * 1024.
Definition BODY_CACHE_BLOCKS : Z := 128.

Inductive SyncError :=
| NodeFailed (e : NodeError) | BlockNotFound | ResidentMismatch | LocalBodyMissing | LocalBodySize
| LocalBodyUndecodable | LocalBodyMismatch | LocalBodyMerkle (e : option CodecError)
| NoCanonicalTip | MissingReorgAncestor | AncestorMismatch | ActiveRootMismatch | EmptyActiveChain
| MissingTipHeader | SyncChain (e : ChainError) | RollbackFailed (e : LedgerError)
| RollbackMissedAncestor | SyncOperationId (e : CodecError) | BranchCount | BranchMismatch
| ApplyFailed (e : Failure) | BranchTip | PruneEmpty | DownloadFailed
| SyncHeaders (e : HeaderNodeError)
| RecoveryActive | AlreadyInvalid | PeerHeaders (e : HeaderChainError) | RecoveryWork | ScratchFailed
| SnapshotBranchChanged | PrefixHeaderMissing | GenesisReplay (e : Failure) | ReceiptMissing
| PrefixMissedAncestor | RecoveryBodyMissing | RecoveryBodyMismatch | InvalidRecoveryBody (e : BlockError)
| InvalidCandidate (hash : Hash) (e : SyncError) | RecoveryTip | SnapshotFailed | RecoveryAncestorChanged.

Record HeaderSyncResult := {
  hr_ancestor_height : Z;
  hr_ancestor_hash : Hash;
  hr_headers : list HeaderAtHeight;
  hr_peer_work : list Z;
  hr_peer_weight : Z;
  hr_preferred : bool;
}.

Record ChainMinimums := { cm_work : list Z; cm_weight : Z }.

Definition minimums_allow (self : ChainMinimums) (work : list Z) (weight : Z) : bool :=
  match lex_compare work (cm_work self) with Lt => false | _ => true end && (cm_weight self <=? weight).

Section sync.
Context `{Sha3} `{Argon2} `{SignatureBackend} `{RootTest}.

(** ** Bodies *)

Definition decode_pinned_local_body (z : Z) (pinned : Header) (bytes : list Z) : result SyncError Block :=
  fail_if (length bytes =? 0)%nat || (MAX_BLOCK_SIZE <? Z.of_nat (length bytes)) with LocalBodySize;
  block ← ok_or (w_slice wire_block bytes) LocalBodyUndecodable;
  fail_if negb (height block =? z) || negb (bool_decide (header block = pinned)) with LocalBodyMismatch;
  root ← map_err (fun e => LocalBodyMerkle (Some e))
           (calculate_merkle_root (b_emission (body block)) (b_operations (body block)));
  fail_if negb (bool_decide (root = h_merkle_root pinned)) with LocalBodyMerkle None;
  Ok block.

Definition canonical_block (store : Z -> option (list Z)) (chain : Chain) (z : Z) : result SyncError Block :=
  pinned ← ok_or (headers chain !! z) BlockNotFound;
  match blocks chain !! z with
  | Some block =>
      fail_if negb (bool_decide (header block = pinned)) with ResidentMismatch;
      Ok block
  | None =>
      bytes ← ok_or (store z) LocalBodyMissing;
      decode_pinned_local_body z pinned bytes
  end.

(** ** Retention *)

(** Journals below the window go once the receipts of all of them are archived;
    the heights come in order, so [take_while] is a filter. *)
Definition prune_journals (archive : Z -> bool) (ledger : Ledger) : result SyncError Ledger :=
  tip ← ok_or (tip_height (g_chain ledger)) PruneEmpty;
  let first := saturating_sub tip (Z.max JOURNAL_BLOCKS 1 - 1) in
  let expired := filter (fun z => z < first) (rev (descending (g_journals ledger))).*1 in
  Ok (if forallb archive expired then prune_rollback_journals_before first ledger else ledger).

(** ** Rolling back to the ancestor *)

Definition above (ancestor : Z) (ledger : Ledger) : bool :=
  match tip_height (g_chain ledger) with Some z => ancestor <? z | None => false end.

(** One round: the tip's body made resident, then rolled back. *)
Definition disconnect_tip (store : Z -> option (list Z)) (staged : Ledger)
    : result SyncError (Ledger * Block) :=
  z ← ok_or (tip_height (g_chain staged)) NoCanonicalTip;
  body ← canonical_block store (g_chain staged) z;
  chain ← map_err SyncChain (cache_known_block body (g_chain staged));
  match rollback_tip (with_chain staged chain) with
  | (staged, Ok removed) => Ok (staged, removed)
  | (_, Err e) => Err (RollbackFailed e)
  end.

(** The loop, with the operations of the removed blocks, newest block first;
    the fuel is the distance to the ancestor. *)
Fixpoint disconnect (store : Z -> option (list Z)) (ancestor : Z) (fuel : nat) (staged : Ledger)
    (removed : list (list BlockOperation)) : result SyncError (Ledger * list (list BlockOperation)) :=
  if above ancestor staged then
    match fuel with
    | O => Ok (staged, removed)
    | S fuel =>
        '(staged, block) ← disconnect_tip store staged;
        disconnect store ancestor fuel staged (removed ++ [b_operations (body block)])
    end
  else Ok (staged, removed).

(** ** Applying the branch *)

Definition insert_ids (included : gset Hash) (operations : list BlockOperation)
    : result SyncError (gset Hash) :=
  try_fold (fun included operation =>
    id ← map_err SyncOperationId (operation_id operation); Ok ({[id]} ∪ included)) operations included.

(** [apply_block_with_pow_memory], whose panics unwind. *)
Definition apply_synchronized (block : Block) (staged : Ledger) : Run SyncError Ledger :=
  match apply_block ledger_consensus_error (Some POW_ARGON2_MEMORY_KIB) block staged with
  | (staged, Ok _) => mret staged
  | (_, Err Unwound) => Panicked
  | (_, Err e) => run_lift (Err (ApplyFailed e))
  end.

Fixpoint connect (archive : Z -> bool) (expected : list HeaderAtHeight)
    (blocks : list (result SyncError Block)) (previous : Hash) (staged : Ledger) (included : gset Hash)
    : Run SyncError (Ledger * gset Hash * list (result SyncError Block)) :=
  match expected with
  | [] => mret (staged, included, blocks)
  | e :: expected =>
      '(next, blocks) ←
        (match blocks with
         | [] => run_lift (Err BranchCount)
         | next :: blocks => mret (next, blocks)
         end : Run SyncError (result SyncError Block * list (result SyncError Block)));
      block ← run_lift next;
      _ ← run_require
            ((height block =? hh_height e) && bool_decide (header block = hh_header e)
             && bool_decide (block_hash block = header_hash e)
             && bool_decide (previous_hash (header block) = previous)) BranchMismatch;
      included ← run_lift (insert_ids included (b_operations (body block)));
      staged ← apply_synchronized block staged;
      staged ← run_lift (prune_journals archive staged);
      connect archive expected blocks (block_hash block) staged included
  end.

Definition new_tip (sync : HeaderSyncResult) : Hash :=
  match last (hr_headers sync) with Some h => header_hash h | None => hr_ancestor_hash sync end.

(** The private copy on the branch, the operations of the old branch, and the
    identifiers of the new one's. *)
Definition stage_branch (store : Z -> option (list Z)) (archive : Z -> bool) (sync : HeaderSyncResult)
    (blocks : list (result SyncError Block)) (ledger : Ledger)
    : Run SyncError (Ledger * list BlockOperation * gset Hash) :=
  '(staged, removed) ← run_lift
    (disconnect store (hr_ancestor_height sync)
       (Z.to_nat (default 0 (tip_height (g_chain ledger)) - hr_ancestor_height sync)) ledger []);
  _ ← run_require (bool_decide (tip_hash (g_chain staged) = Some (hr_ancestor_hash sync)))
        RollbackMissedAncestor;
  let disconnected := concat (rev removed) in
  _ ← run_lift (insert_ids ∅ disconnected);
  ancestor_body ← run_lift (canonical_block store (g_chain staged) (hr_ancestor_height sync));
  chain ← run_lift (map_err SyncChain (cache_known_block ancestor_body (g_chain staged)));
  '(staged, included, rest) ←
    connect archive (hr_headers sync) blocks (hr_ancestor_hash sync) (with_chain staged chain) ∅;
  _ ← run_require (match rest with [] => true | _ :: _ => false end) BranchCount;
  _ ← run_require (bool_decide (tip_hash (g_chain staged) = Some (new_tip sync))) BranchTip;
  mret (staged, disconnected, included).

(** ** The cache *)

Definition Path : Type := list Z.

(** The node with the totals cached beside its ledger, and the candidates that
    recoveries found invalid, which are shared by the databases of the process. *)
Record SyncNode := {
  sy_node : Node;
  sy_totals : Totals;
  sy_invalid : list (Path * Hash);
}.

Definition with_node (node : Node) (self : SyncNode) : SyncNode :=
  {| sy_node := node; sy_totals := sy_totals self; sy_invalid := sy_invalid self |}.

Definition trim_body_cache (ledger : Ledger) : result SyncError Ledger :=
  chain ← map_err SyncChain (retain_recent_bodies BODY_CACHE_BYTES BODY_CACHE_BLOCKS (g_chain ledger));
  Ok (with_chain ledger chain).

Context (network : Network).

(** What [update_ledger_cache] puts into the cache. *)
Definition refreshed_cache (archive : Z -> bool) (previous : Totals) (ledger : Ledger)
    : result SyncError (Ledger * Totals) :=
  totals ← map_err SyncHeaders
    (updated_header_state_checkpoints (expected_genesis_hash network) (Some (to_checkpoints previous))
       (g_chain ledger));
  ledger ← prune_journals archive ledger;
  ledger ← trim_body_cache ledger;
  Ok (ledger, totals).

(** The end of both ways to a branch: the pool is read and reconciled, chain and
    pool are written in one transaction, and the cache follows the disk. *)
Definition commit_branch (archive : Z -> bool) (disk : bool) (count : Z)
    (disconnected : list BlockOperation) (included : gset Hash) (staged : Ledger) (self : SyncNode)
    : SyncNode * Run SyncError Z :=
  let node := sy_node self in
  match load_pending_pool (nd_stored node) (nd_cache node) with
  | Err e => (self, run_lift (Err (NodeFailed e)))
  | Ok (pool, cache) =>
      let node := with_pool (nd_stored node) cache node in
      match
        reconcile_pending_operations network staged
          (disconnected ++ (pe_operation <$> pp_entries pool)) included
      with
      | Panicked => (with_node node self, Panicked)
      | Returned mempool =>
          match encode_pending_operations mempool with
          | Err e => (with_node node self, run_lift (Err (NodeFailed e)))
          | Ok encoded =>
              if disk then
                match refreshed_cache archive (sy_totals self) staged with
                | Err e => (with_node (with_pool encoded (nd_cache node) node) self, run_lift (Err e))
                | Ok (ledger, totals) =>
                    ({| sy_node := {| nd_ledger := ledger; nd_stored := encoded; nd_cache := nd_cache node;
                                      nd_rejections := nd_rejections node |};
                        sy_totals := totals; sy_invalid := sy_invalid self |},
                     mret count)
                end
              else (with_node node self, run_lift (Err (NodeFailed DiskError)))
          end
      end
  end.

(** [state_root() != header(tip).state_root]. *)
Definition active_root_matches (ledger : Ledger) : result SyncError unit :=
  root ← map_err (fun e => NodeFailed (NodeRoot e)) (ledger_state_root ledger);
  tip ← ok_or (tip_height (g_chain ledger)) EmptyActiveChain;
  h ← ok_or (headers (g_chain ledger) !! tip) MissingTipHeader;
  fail_if negb (bool_decide (root = h_state_root h)) with ActiveRootMismatch;
  Ok tt.

(** ** Recovery without journals *)

(** What a recovery meets: whether another one is running, what the disk does
    with the scratch database, the newest usable local snapshot up to a height
    with the height after it, and, once the lock is taken again, the node and the
    body store as other threads left them. *)
Record Surroundings := {
  sr_busy : bool;
  sr_scratch : bool;
  sr_snapshot : Z -> option (Ledger * Z);
  sr_reader : bool;
  sr_receipt : Z -> bool;
  sr_saved : Z -> bool;
  sr_archive : Z -> bool;
  sr_sealed : bool;
  sr_active : SyncNode;
  sr_store : Z -> option (list Z);
}.

Section recovery.
Context (database : Path) (minimums : ChainMinimums) (archive : Z -> bool) (around : Surroundings).

Definition known_invalid (invalid : list (Path * Hash)) (l : list HeaderAtHeight) : bool :=
  existsb (fun h => existsb (fun known => bool_decide (known = (database, header_hash h))) invalid) l.

Definition remember_invalid (hash : Hash) (invalid : list (Path * Hash)) : list (Path * Hash) :=
  (if (64 <=? length invalid)%nat then drop 1 invalid else invalid) ++ [(database, hash)].

(** What follows every applied block: the scratch database takes the body. *)
Definition keep_in_scratch (z : Z) (staged : Ledger) : result SyncError Ledger :=
  fail_if negb (sr_saved around z) with NodeFailed DiskError;
  staged ← prune_journals (sr_archive around) staged;
  trim_body_cache staged.

Definition replay_local (z : Z) (block : Block) (staged : Ledger) : Run SyncError Ledger :=
  if z =? 0 then
    match apply_genesis ledger_consensus_error (expected_genesis_hash network) block staged with
    | (staged, Ok _) => mret staged
    | (_, Err Unwound) => Panicked
    | (_, Err e) => run_lift (Err (GenesisReplay e))
    end
  else apply_synchronized block staged.

(** The bodies of [n] heights from [z] on; those below [next] are in the snapshot. *)
Fixpoint replay_prefix (captured : Chain) (store : Z -> option (list Z)) (next : Z) (n : nat) (z : Z)
    (staged : Ledger) : Run SyncError Ledger :=
  match n with
  | O => mret staged
  | S n =>
      bytes ← run_lift (ok_or (store z) LocalBodyMissing);
      pinned ← run_lift (ok_or (headers captured !! z) PrefixHeaderMissing);
      block ← run_lift (decode_pinned_local_body z pinned bytes);
      staged ← (if next <=? z then replay_local z block staged else mret staged : Run SyncError Ledger);
      _ ← run_require ((length (b_operations (body block)) =? 0)%nat || sr_receipt around z) ReceiptMissing;
      staged ← run_lift (keep_in_scratch z staged);
      replay_prefix captured store next n (z + 1) staged
  end.

Fixpoint replay_candidate (expected : list HeaderAtHeight) (blocks : list (result SyncError Block))
    (staged : Ledger) (included : gset Hash)
    : Run SyncError (Ledger * gset Hash * list (result SyncError Block)) :=
  match expected with
  | [] => mret (staged, included, blocks)
  | e :: expected =>
      '(next, blocks) ←
        (match blocks with
         | [] => run_lift (Err RecoveryBodyMissing)
         | next :: blocks => mret (next, blocks)
         end : Run SyncError (result SyncError Block * list (result SyncError Block)));
      block ← run_lift (map_err (fun _ => DownloadFailed) next);
      _ ← run_require ((height block =? hh_height e) && bool_decide (header block = hh_header e))
            RecoveryBodyMismatch;
      included ← run_lift (insert_ids included (b_operations (body block)));
      _ ← run_lift (map_err InvalidRecoveryBody (block_validate block));
      staged ← run_map_err (InvalidCandidate (block_hash block)) (apply_synchronized block staged);
      staged ← run_lift (keep_in_scratch (height block) staged);
      replay_candidate expected blocks staged included
  end.

(** The replay: the verified summary's tip, and the staged ledger with the
    identifiers of the branch's operations; nothing when the minimums refuse. *)
Definition replay_branch (captured : SyncNode) (store : Z -> option (list Z)) (sync : HeaderSyncResult)
    (blocks : list (result SyncError Block)) : Run SyncError (option (Hash * Ledger * gset Hash)) :=
  let chain := g_chain (nd_ledger (sy_node captured)) in
  let ancestor := hr_ancestor_height sync in
  _ ← run_require (negb (sr_busy around)) RecoveryActive;
  _ ← run_require (negb (known_invalid (sy_invalid captured) (hr_headers sync))) AlreadyInvalid;
  totals ← run_lift (map_err SyncHeaders
    (build_header_state_checkpoints (expected_genesis_hash network) chain));
  ancestor_state ← run_lift (map_err SyncHeaders
    (ledger_header_state_at_height chain (to_checkpoints totals) ancestor));
  verified ← run_map_err PeerHeaders
    (advance_header_validation_state_with_memory ancestor_state (hr_headers sync) POW_ARGON2_MEMORY_KIB);
  let tip := block_header_hash (hv_header verified) in
  _ ← run_require
        (bool_decide (hv_cumulative_work verified = hr_peer_work sync)
         && (hv_cumulative_weight verified =? hr_peer_weight sync)) RecoveryWork;
  if negb (minimums_allow minimums (hv_cumulative_work verified) (hv_cumulative_weight verified))
  then mret None
  else
    _ ← run_require (sr_scratch around) ScratchFailed;
    let '(staged, next) :=
      default (with_applications extension_applications ledger_new, 0) (sr_snapshot around ancestor) in
    _ ← run_require
          (forallb (fun entry => bool_decide (headers chain !! entry.1 = Some entry.2))
             (ascending (g_chain staged))) SnapshotBranchChanged;
    _ ← run_require (sr_reader around) (NodeFailed DiskError);
    staged ← replay_prefix chain store next (Z.to_nat (ancestor + 1)) 0 staged;
    _ ← run_require (bool_decide (tip_hash (g_chain staged) = Some (hr_ancestor_hash sync)))
          PrefixMissedAncestor;
    '(staged, included, rest) ← replay_candidate (hr_headers sync) blocks staged ∅;
    _ ← run_require
          (match rest with [] => true | _ :: _ => false end
           && bool_decide (tip_hash (g_chain staged) = Some tip)) RecoveryTip;
    _ ← run_require (sr_sealed around) SnapshotFailed;
    mret (Some (tip, staged, included)).

(** The operations of the active chain above the ancestor, in order. *)
Definition active_operations (ancestor : Z) (active : Ledger) : result SyncError (list BlockOperation) :=
  bodies ← collect (fun entry => canonical_block (sr_store around) (g_chain active) entry.1)
             (filter (fun entry => ancestor < entry.1) (ascending (g_chain active)));
  Ok (concat ((fun b => b_operations (body b)) <$> bodies)).

Definition recover_branch (captured : SyncNode) (store : Z -> option (list Z)) (sync : HeaderSyncResult)
    (blocks : list (result SyncError Block)) (disk : bool) : SyncNode * Run SyncError Z :=
  let self := sr_active around in
  let active := nd_ledger (sy_node self) in
  match replay_branch captured store sync blocks with
  | Panicked => (self, Panicked)
  | Returned (Err (InvalidCandidate hash e)) =>
      ({| sy_node := sy_node self; sy_totals := sy_totals self;
          sy_invalid := remember_invalid hash (sy_invalid self) |},
       run_lift (Err (InvalidCandidate hash e)))
  | Returned (Err e) => (self, run_lift (Err e))
  | Returned (Ok None) => (self, mret 0)
  | Returned (Ok (Some (tip, staged, included))) =>
      if negb (bool_decide (block_header_hash <$> headers (g_chain active) !! hr_ancestor_height sync
                            = Some (hr_ancestor_hash sync)))
      then (self, run_lift (Err RecoveryAncestorChanged))
      else
        match
          _ ← ok_or (tip_height (g_chain active)) NoCanonicalTip; active_root_matches active,
          tip_hash (g_chain active)
        with
        | Err e, _ => (self, run_lift (Err e))
        | _, None => (self, run_lift (Err NoCanonicalTip))
        | Ok _, Some active_tip =>
            match compare_chain_tips (hr_peer_work sync) (hr_peer_weight sync) tip
                    (to_work (sy_totals self)) (to_weight (sy_totals self)) active_tip with
            | Gt =>
                match active_operations (hr_ancestor_height sync) active with
                | Err e => (self, run_lift (Err e))
                | Ok disconnected =>
                    commit_branch archive disk (Z.of_nat (length (hr_headers sync)))
                      disconnected included staged self
                end
            | _ => (self, mret 0)
            end
        end
  end.
End recovery.

(** ** The node *)

Definition apply_verified_branch_stream (database : Path) (minimums : ChainMinimums)
    (store : Z -> option (list Z)) (archive : Z -> bool) (around : Surroundings)
    (sync : HeaderSyncResult) (blocks : list (result SyncError Block)) (disk : bool) (self : SyncNode)
    : SyncNode * Run SyncError Z :=
  if negb (minimums_allow minimums (hr_peer_work sync) (hr_peer_weight sync)) then (self, mret 0)
  else
    let ledger := nd_ledger (sy_node self) in
    match tip_hash (g_chain ledger) with
    | None => (self, run_lift (Err NoCanonicalTip))
    | Some current_tip =>
        match compare_chain_tips (hr_peer_work sync) (hr_peer_weight sync) (new_tip sync)
                (to_work (sy_totals self)) (to_weight (sy_totals self)) current_tip with
        | Gt =>
            match headers (g_chain ledger) !! hr_ancestor_height sync with
            | None => (self, run_lift (Err MissingReorgAncestor))
            | Some ancestor =>
                if negb (bool_decide (block_header_hash ancestor = hr_ancestor_hash sync))
                then (self, run_lift (Err AncestorMismatch))
                else if negb (can_rollback_to ledger (hr_ancestor_height sync)) then
                  match active_root_matches ledger with
                  | Err e => (self, run_lift (Err e))
                  | Ok _ => recover_branch database minimums archive around self store sync blocks disk
                  end
                else
                  match stage_branch store archive sync blocks ledger with
                  | Panicked => (self, Panicked)
                  | Returned (Err e) => (self, Returned (Err e))
                  | Returned (Ok (staged, disconnected, included)) =>
                      commit_branch archive disk (Z.of_nat (length (hr_headers sync)))
                        disconnected included staged self
                  end
            end
        | _ => (self, mret 0)
        end
    end.
End sync.
