(* ===== verification/BranchSyncProps.v ===== *)
(** * Switching branches is sound

    Whatever a peer sent and whatever the disk does, a node either keeps its
    ledger and its table or holds the whole verified branch on top of the common
    ancestor, with a pool that replays there; with its journals, or by replaying
    its own bodies where they do not reach the ancestor. *)

From S2P Require Import Prelude Target Work Codec Monetary Index Coin Vm Registry Calls Wire Authorize Policy Block Chain Consensus.
From S2P Require Import Fork HeaderSync HeaderCheckpoints Assets State StateRoot CoinHost AssetHost Settlement Engine SettleFacts.
From S2P Require Import EngineProps VmTypes Apply ApplyFacts Growth Ledger LedgerProps Genesis Mempool MempoolProps BranchSync.
#[local] Open Scope Z_scope.

Section branches.
Context `{Sha3} {Hspec : Sha3Spec} `{Argon2} `{SignatureBackend} `{RootTest} {Hroot : RootTestSpec}.

(** ** The ledger on the way *)

Lemma cached_ok hs l b c :
  ledger_ok hs l -> cache_known_block b (g_chain l) = Ok c -> ledger_ok hs (with_chain l c).
Proof. intros [Hc Hp Hx] Hb. split; cbn; [by eapply cache_chain|done|done]. Qed.

Lemma pruned_ok hs archive l l' :
  ledger_ok hs l -> prune_journals archive l = Ok l' ->
  ledger_ok hs l' /\ g_applications l' = g_applications l.
Proof.
  intros [Hc Hp Hx] Hr. unfold prune_journals in Hr. apply bind_Ok in Hr as (tip & _ & [= <-]).
  case_match; [|done]. split; [|done]. split; [done|by apply past_prune|done].
Qed.

Lemma disconnect_tip_ok store hs l l' b :
  ledger_ok hs l -> disconnect_tip store l = Ok (l', b) ->
  exists hs', hs = hs' ++ [header b] /\ ledger_ok hs' l'.
Proof using Hroot.
  intros Hl Hd. unfold disconnect_tip in Hd. apply bind_Ok in Hd as (z & _ & Hd).
  apply bind_Ok in Hd as (b0 & _ & Hd). apply bind_Ok in Hd as (c & Hc%map_err_Ok_inv & Hd).
  destruct (rollback_tip (with_chain l c)) as [l1 [b1|]] eqn:Hr; [|done]. injection Hd as -> ->.
  apply (rollback_tip_spec hs) in Hr as (hs' & -> & Hl' & _); [eauto|]. by eapply cached_ok.
Qed.

Lemma tip_of hs l : ledger_ok hs l -> hs <> [] -> tip_height (g_chain l) = Some (Z.of_nat (length hs) - 1).
Proof.
  intros [Hc _ _] Hne. rewrite (co_tip _ _ Hc). unfold checked_sub.
  rewrite (proj2 (Z.ltb_ge _ _)); [done|]. destruct hs; [done|]. cbn. lia.
Qed.

(** The loop stops at the ancestor and nowhere else. *)
Lemma disconnect_ok store a fuel : forall hs l removed l' removed',
  ledger_ok hs l -> 0 <= a < Z.of_nat (length hs) -> Z.of_nat (length hs) - 1 - a = Z.of_nat fuel ->
  disconnect store a fuel l removed = Ok (l', removed') ->
  ledger_ok (take (S (Z.to_nat a)) hs) l'.
Proof using Hroot.
  induction fuel as [|fuel IH]; intros hs l removed l' removed' Hl Ha Hf Hd;
    pose proof (tip_of hs l Hl ltac:(intros ->; cbn in Ha; lia)) as Ht; cbn [disconnect] in Hd; unfold above in Hd; rewrite Ht in Hd.
  - rewrite (proj2 (Z.ltb_ge _ _)) in Hd by lia. injection Hd as <- <-. rewrite take_ge by lia. done.
  - rewrite (proj2 (Z.ltb_lt _ _)) in Hd by lia. apply bind_Ok in Hd as ([l1 b] & Hd1 & Hd).
    apply (disconnect_tip_ok store hs) in Hd1 as (hs' & -> & Hl1); [|done].
    rewrite length_app in *. cbn [length] in *.
    apply (IH hs') in Hd; [|done|lia|lia]. by rewrite take_app_le by lia.
Qed.

(** ** The branch *)

(** What is known of a downloaded block: its operations are well typed under
    the chain's context. *)
Definition download_ok (context : Hash) (r : result SyncError Block) : Prop :=
  match r with
  | Ok b => 0 <= height b /\ Forall (operation_ok context (miner_program_id b)) (b_operations (body b))
  | Err _ => True
  end.

Lemma applied_ok hs l b l' context :
  ledger_ok hs l -> g_context l = Some context -> download_ok context (Ok b) ->
  apply_synchronized b l = Returned (Ok l') ->
  ledger_ok (hs ++ [header b]) l' /\ g_context l' = Some context.
Proof using Hspec Hroot.
  intros Hl Hcx [Hh Hops] Ha. unfold apply_synchronized, apply_block in Ha.
  destruct (has_blocks _); [|done]. destruct (validate_for_apply _ _ _ _) as [v|] eqn:Hv; [|done].
  pose proof (validate_for_apply_block _ _ _ _ _ Hv) as Hb. subst b.
  destruct (commit_validated_block v l) as [l1 r] eqn:Hc.
  destruct r as [[]|[]]; [|done..]. injection Ha as <-.
  destruct (apply_block_spec hs l v l1 (Ok tt) Hl ltac:(unfold block_ops_ok; by rewrite Hcx) Hh Hc)
    as (js & _ & Hl' & _ & _ & _ & Hcx' & _). by rewrite Hcx, Hcx' in *.
Qed.

Lemma insert_ids_spec ops : forall included included',
  insert_ids included ops = Ok included' ->
  included ⊆ included' /\ forall o id, o ∈ ops -> operation_id o = Ok id -> id ∈ included'.
Proof.
  induction ops as [|o ops IH]; intros included included' Hi; unfold insert_ids in *; cbn [try_fold] in Hi.
  { injection Hi as <-. split; [done|]. intros o id Ho. by apply not_elem_of_nil in Ho. }
  apply bind_Ok in Hi as (included1 & Ho & Hi). apply bind_Ok in Ho as (id & Hid%map_err_Ok_inv & [= <-]).
  apply IH in Hi as [Hsub Hin]. split; [set_solver|].
  intros o' id' [->|Ho']%elem_of_cons Hid'; [|by eapply Hin]. rewrite Hid in Hid'. injection Hid' as <-. set_solver.
Qed.

(** Every downloaded block the loop takes is the expected one. *)
Lemma connect_ok archive context expected : forall blocks previous hs l included l' included' rest,
  ledger_ok hs l -> g_context l = Some context -> Forall (download_ok context) blocks ->
  connect archive expected blocks previous l included = Returned (Ok (l', included', rest)) ->
  exists bs, blocks = (Ok <$> bs) ++ rest /\ header <$> bs = hh_header <$> expected /\
    ledger_ok (hs ++ (hh_header <$> expected)) l' /\ included ⊆ included' /\
    forall b o id, b ∈ bs -> o ∈ b_operations (body b) -> operation_id o = Ok id -> id ∈ included'.
Proof using Hspec Hroot.
  induction expected as [|e expected IH]; intros blocks previous hs l included l' included' rest Hl Hcx Hdl Hr;
    cbn [connect] in Hr.
  { injection Hr as <- <- <-. exists []. cbn. rewrite app_nil_r. split_and!; try done.
    intros b o id Hb. by apply not_elem_of_nil in Hb. }
  apply returns_bind in Hr as ([next blocks'] & Hnext & Hr).
  destruct blocks as [|next0 blocks0]; [done|]. injection Hnext as -> ->.
  apply returns_bind in Hr as (b & Hb%returns_lift & Hr). subst next.
  apply Forall_cons in Hdl as [Hdb Hdl].
  apply returns_bind in Hr as ([] & Hm & Hr). apply returns_bind in Hr as (inc1 & Hi%returns_lift & Hr).
  apply returns_bind in Hr as (l1 & Ha & Hr). apply returns_bind in Hr as (l2 & Hp%returns_lift & Hr).
  destruct (applied_ok hs l b l1 context Hl Hcx Hdb Ha) as [Hl1 Hcx1].
  assert (g_context l2 = Some context) as Hcx2.
  { unfold prune_journals in Hp. apply bind_Ok in Hp as (? & _ & [= <-]). by case_match. }
  apply (pruned_ok _ _ _ _ Hl1) in Hp as [Hl2 _].
  apply (IH blocks' _ (hs ++ [header b]) l2) in Hr as (bs & -> & Hbs & Hl' & Hsub & Hin); [|done..].
  apply insert_ids_spec in Hi as [Hsub1 Hin1].
  assert (header b = hh_header e) as Hhe.
  { unfold run_require in Hm. apply returns_lift in Hm. destruct (_ && _) eqn:Ht; [|done].
    rewrite !andb_true_iff, !bool_decide_eq_true in Ht. apply Ht. }
  exists (b :: bs). cbn [fmap list_fmap]. rewrite <- Hhe. split_and!; [done|by f_equal| |set_solver|].
  - by rewrite <- app_assoc in Hl'.
  - intros b' o id [->|Hb']%elem_of_cons Ho Hid; [|by eapply Hin]. apply Hsub. by eapply Hin1.
Qed.

Lemma stage_ok store archive sync blocks hs l h staged disconnected included :
  ledger_ok hs l -> headers (g_chain l) !! hr_ancestor_height sync = Some h ->
  Forall (download_ok (default [] (g_context l))) blocks ->
  stage_branch store archive sync blocks l = Returned (Ok (staged, disconnected, included)) ->
  ledger_ok (take (S (Z.to_nat (hr_ancestor_height sync))) hs ++ (hh_header <$> hr_headers sync)) staged /\
  tip_hash (g_chain staged) = Some (new_tip sync) /\
  exists bs, blocks = Ok <$> bs /\ header <$> bs = hh_header <$> hr_headers sync /\
    forall b o id, b ∈ bs -> o ∈ b_operations (body b) -> operation_id o = Ok id -> id ∈ included.
Proof using Hspec Hroot.
  intros Hl Hh Hdl Hs. unfold stage_branch in Hs.
  apply (co_headers _ _ (lo_chain _ _ Hl)) in Hh as [Ha Hh].
  pose proof (lookup_lt_Some _ _ _ Hh) as Hlt.
  apply returns_bind in Hs as ([l1 removed] & Hd%returns_lift & Hs).
  rewrite (tip_of hs l Hl) in Hd by (intros ->; done). cbn [default] in Hd.
  apply (disconnect_ok store _ _ hs) in Hd; [|done|lia|cbn; lia].
  apply returns_bind in Hs as ([] & _ & Hs). apply returns_bind in Hs as (ids & _ & Hs).
  apply returns_bind in Hs as (ab & _ & Hs). apply returns_bind in Hs as (c & Hc%returns_lift & Hs).
  apply map_err_Ok_inv in Hc. apply (cached_ok _ _ _ _ Hd) in Hc.
  apply returns_bind in Hs as ([[l2 inc] rest] & Hcon & Hs).
  apply returns_bind in Hs as ([] & Hrest%returns_lift & Hs).
  apply returns_bind in Hs as ([] & Htip%returns_lift & Hs). injection Hs as <- <- <-.
  case_bool_decide as Htip'; [|done]. destruct rest; [|done].
  assert (exists context, g_context l = Some context /\ g_context (with_chain l1 c) = Some context)
    as (context & Hcx & Hcx1).
  { destruct hs as [|h0 hs]; [done|]. exists (block_header_hash h0).
    rewrite (lo_context _ _ Hl), (lo_context _ _ Hc). done. }
  rewrite Hcx in Hdl. cbn [default] in Hdl.
  apply (connect_ok archive context _ _ _ _ _ _ _ _ _ Hc Hcx1 Hdl) in Hcon
    as (bs & -> & Hbs & Hl2 & _ & Hin).
  split_and!; [done|done|]. exists bs. rewrite app_nil_r. done.
Qed.

(** ** The pool *)

Lemma encode_entries retained entries raw :
  Forall2 (fun o e => entry_new o = Ok e) retained entries ->
  encode_pending_operations retained = Ok raw -> raw = pe_bytes <$> entries.
Proof.
  intros Hf He. unfold encode_pending_operations in He. apply bind_Ok in He as (encoded & Hc & He).
  apply bind_Ok in He as (total & _ & He). apply guard_err_Ok in He as [_ [= <-]].
  revert encoded Hc. induction Hf as [|o e os es Ho _ IH]; intros encoded Hc; cbn [collect] in Hc.
  - by injection Hc as <-.
  - apply bind_Ok in Hc as (bytes & Hb%map_err_Ok_inv & Hc). apply bind_Ok in Hc as (rest & Hr & [= <-]).
    cbn [fmap list_fmap]. f_equal; [|by apply IH].
    apply bind_Ok in Ho as (bytes' & Hb'%map_err_Ok_inv & Ho). rewrite Hb in Hb'.
    apply bind_Ok in Ho as (size & _ & [= <-]). cbn. by injection Hb' as ->.
Qed.

Context (network : Network).

(** The rows of a table that a node on [ledger] may keep beside blocks [bs]. *)
Definition table_after (ledger : Ledger) (bs : list Block) (raw : list (list Z)) : Prop :=
  exists entries s, raw = pe_bytes <$> entries /\
    Z.of_nat (length raw) <= MAX_MEMPOOL_TRANSACTIONS /\ NoDup (pe_id <$> entries) /\
    replay_on network (base_of ledger) entries = Returned (Ok s) /\
    forall b o id, b ∈ bs -> o ∈ b_operations (body b) -> operation_id o = Ok id -> id ∉ pe_id <$> entries.

Lemma reconciled_table ledger chain pending bs included retained raw :
  chain_context network = Ok chain ->
  (forall b o id, b ∈ bs -> o ∈ b_operations (body b) -> operation_id o = Ok id -> id ∈ included) ->
  reconcile_pending_operations network ledger pending included = Returned retained ->
  encode_pending_operations retained = Ok raw -> table_after ledger bs raw.
Proof.
  intros Hc Hin Hr He. unfold reconcile_pending_operations in Hr. rewrite Hc in Hr.
  apply reconcile_loop_sound in Hr as (_ & Hlen & entries & s & Hf & Hn & Hi & Hrep); [|done].
  apply (encode_entries _ entries) in He as ->; [|done]. exists entries, s.
  rewrite length_fmap, <- (Forall2_length _ _ _ Hf). unfold replay_on. rewrite Hc.
  split_and!; [done|lia|done|done|].
  intros b o id Hb Ho Hid (e & -> & Hein)%list_elem_of_fmap. rewrite Forall_forall in Hi.
  destruct (Hi e Hein) as [Hni _]. by eapply Hni, Hin.
Qed.

(** ** The cache *)

Lemma pruned_keeps archive l l' :
  prune_journals archive l = Ok l' -> g_chain l' = g_chain l /\ g_state l' = g_state l.
Proof. intros Hr. unfold prune_journals in Hr. apply bind_Ok in Hr as (? & _ & [= <-]). by case_match. Qed.

Lemma trimmed_ok hs l l' :
  ledger_ok hs l -> trim_body_cache l = Ok l' ->
  ledger_ok hs l' /\ tip_hash (g_chain l') = tip_hash (g_chain l) /\ base_of l' = base_of l.
Proof.
  intros [Hc Hp Hx] Ht. unfold trim_body_cache in Ht. apply bind_Ok in Ht as (c & Hr%map_err_Ok_inv & [= <-]).
  split_and!; [split; [by eapply retain_chain|done|done]|..]; unfold retain_recent_bodies in Hr;
    apply bind_Ok in Hr as (? & _ & [= <-]); done.
Qed.

Lemma refreshed_ok hs archive t l l' t' :
  ledger_ok hs l -> refreshed_cache network archive t l = Ok (l', t') ->
  ledger_ok hs l' /\ tip_hash (g_chain l') = tip_hash (g_chain l) /\ base_of l' = base_of l.
Proof.
  intros Hl Hr. unfold refreshed_cache in Hr. apply bind_Ok in Hr as (t1 & _ & Hr).
  apply bind_Ok in Hr as (l1 & Hp & Hr). apply bind_Ok in Hr as (l2 & Ht & [= <- <-]).
  pose proof (pruned_keeps _ _ _ Hp) as [Hch Hst].
  apply (pruned_ok hs) in Hp as [Hl1 _]; [|done].
  apply (trimmed_ok hs) in Ht as (Hl2 & Hth & Hb); [|done].
  rewrite Hth, Hb. unfold base_of. by rewrite Hch, Hst.
Qed.

(** ** The commit *)

(** The ledger in memory, the table and the cached totals are as they were. *)
Definition kept (n n' : SyncNode) : Prop :=
  nd_ledger (sy_node n') = nd_ledger (sy_node n) /\ nd_stored (sy_node n') = nd_stored (sy_node n) /\
  sy_totals n' = sy_totals n.

(** A sound ledger on the branch, and a table that fits it: exactly the verified
    headers were downloaded, and [prefix] and they are the chain. *)
Definition on_branch (prefix : list Header) (sync : HeaderSyncResult)
    (blocks : list (result SyncError Block)) (ledger : Ledger) (raw : list (list Z)) : Prop :=
  ledger_ok (prefix ++ (hh_header <$> hr_headers sync)) ledger /\
  tip_hash (g_chain ledger) = Some (new_tip sync) /\
  exists bs, blocks = Ok <$> bs /\ header <$> bs = hh_header <$> hr_headers sync /\
    table_after ledger bs raw.

Lemma on_branch_base prefix sync blocks l l' raw :
  on_branch prefix sync blocks l raw ->
  ledger_ok (prefix ++ (hh_header <$> hr_headers sync)) l' -> tip_hash (g_chain l') = tip_hash (g_chain l) ->
  base_of l' = base_of l -> on_branch prefix sync blocks l' raw.
Proof.
  intros (_ & Ht & bs & Hb & Hh & entries & s & Htab) Hl Htip Hbase. split_and!; [done|by rewrite Htip|].
  exists bs. split_and!; [done..|]. exists entries, s. by rewrite Hbase.
Qed.

Definition commits (archive : Z -> bool) (sync : HeaderSyncResult) (blocks : list (result SyncError Block))
    (disk : bool) (prefix : list Header) (count : Z) (n n' : SyncNode) (r : Run SyncError Z) : Prop :=
  match r with
  | Returned (Ok k) => k = count /\ disk = true /\
      on_branch prefix sync blocks (nd_ledger (sy_node n')) (nd_stored (sy_node n'))
  | Returned (Err e) => kept n n' \/
      disk = true /\ nd_ledger (sy_node n') = nd_ledger (sy_node n) /\
        exists staged, on_branch prefix sync blocks staged (nd_stored (sy_node n')) /\
          refreshed_cache network archive (sy_totals n) staged = Err e
  | Panicked => kept n n'
  end.

Lemma commit_ok archive disk count disconnected included staged sync blocks prefix bs chain n n' r :
  chain_context network = Ok chain ->
  ledger_ok (prefix ++ (hh_header <$> hr_headers sync)) staged ->
  tip_hash (g_chain staged) = Some (new_tip sync) ->
  blocks = Ok <$> bs -> header <$> bs = hh_header <$> hr_headers sync ->
  (forall b o id, b ∈ bs -> o ∈ b_operations (body b) -> operation_id o = Ok id -> id ∈ included) ->
  commit_branch network archive disk count disconnected included staged n = (n', r) ->
  commits archive sync blocks disk prefix count n n' r /\ sy_invalid n' = sy_invalid n.
Proof.
  intros Hchain Hl Ht Hb Hh Hin Hc. unfold commit_branch in Hc.
  destruct (load_pending_pool _ _) as [[pool cache]|]; [|injection Hc as <- <-; by split; [left|]].
  destruct (reconcile_pending_operations _ _ _ _) as [mempool|] eqn:Hrec; [|by injection Hc as <- <-].
  destruct (encode_pending_operations mempool) as [raw|] eqn:Henc; [|injection Hc as <- <-; by split; [left|]].
  destruct disk; [|injection Hc as <- <-; by split; [left|]].
  assert (on_branch prefix sync blocks staged raw) as Hon.
  { split_and!; [done..|]. exists bs. split_and!; [done..|]. by eapply reconciled_table. }
  destruct (refreshed_cache _ _ _ _) as [[l t]|e] eqn:Href; injection Hc as <- <-; (split; [|done]).
  - split_and!; [done..|]. apply (refreshed_ok _ _ _ _ _ _ Hl) in Href as (Hl' & Htip & Hbase).
    by eapply on_branch_base.
  - right. split_and!; [done..|]. by exists staged.
Qed.

(** ** Replaying local bodies *)

(** The bodies of the store that decode are well typed under the chain's context. *)
Definition store_ok (context : Hash) (store : Z -> option (list Z)) : Prop :=
  forall z bytes b, store z = Some bytes -> w_slice wire_block bytes = Some b -> download_ok context (Ok b).

(** A local snapshot is a sound ledger up to the height it was asked for. *)
Definition snapshots_ok (snapshot : Z -> option (Ledger * Z)) : Prop :=
  forall limit l next, snapshot limit = Some (l, next) ->
    exists hs, ledger_ok hs l /\ next = Z.of_nat (length hs) /\ next <= limit + 1.

Lemma pinned_body z h bytes b :
  decode_pinned_local_body z h bytes = Ok b -> header b = h /\ height b = z /\ w_slice wire_block bytes = Some b.
Proof.
  intros Hd. unfold decode_pinned_local_body in Hd. apply guard_err_Ok in Hd as [_ Hd].
  apply bind_Ok in Hd as (b' & Hs%ok_or_Ok & Hd). apply guard_err_Ok in Hd as [Hm Hd].
  apply bind_Ok in Hd as (root & _ & Hd). apply guard_err_Ok in Hd as [_ [= ->]].
  apply orb_false_iff in Hm as [Hz%negb_false_iff Hh%negb_false_iff].
  apply bool_decide_eq_true in Hh. by apply Z.eqb_eq in Hz.
Qed.

Lemma kept_in_scratch around hs z l l' :
  ledger_ok hs l -> keep_in_scratch around z l = Ok l' -> ledger_ok hs l'.
Proof.
  intros Hl Hk. unfold keep_in_scratch in Hk. apply guard_err_Ok in Hk as [_ Hk].
  apply bind_Ok in Hk as (l1 & Hp & Ht). apply (pruned_ok hs) in Hp as [Hl1 _]; [|done].
  by apply (trimmed_ok hs) in Ht as (? & _).
Qed.

Lemma genesis_replayed b l l' :
  ledger_ok [] l -> download_ok (block_hash b) (Ok b) ->
  replay_local network 0 b l = Returned (Ok l') -> ledger_ok [header b] l'.
Proof using Hspec Hroot.
  intros Hl [Hh Hops] Hr. unfold replay_local, apply_genesis in Hr. cbn [Z.eqb] in Hr.
  destruct (has_blocks _); [done|]. destruct (validate_genesis_block b); [|done].
  destruct (decide _); [|done]. destruct (validate_for_apply _ _ _ _) as [v|] eqn:Hv; [|done].
  apply validate_for_apply_block in Hv. subst b.
  destruct (commit_validated_block v l) as [l1 [[]|[]]] eqn:Hc; [|done..]. injection Hr as <-.
  destruct (apply_block_spec [] l v l1 (Ok tt) Hl) as (js & _ & Hl' & _); [|done|exact Hc|exact Hl'].
  unfold block_ops_ok. by rewrite (lo_context _ _ Hl).
Qed.

Lemma take_snoc {A} (l : list A) n x : l !! n = Some x -> take n l ++ [x] = take (S n) l.
Proof. intros Hx. symmetry. by apply take_S_r. Qed.

Lemma local_replayed hs h0 l b l' :
  head hs = Some h0 -> ledger_ok (take (Z.to_nat (height b)) hs) l -> hs !! Z.to_nat (height b) = Some (header b) ->
  download_ok (block_header_hash h0) (Ok b) -> replay_local network (height b) b l = Returned (Ok l') ->
  ledger_ok (take (S (Z.to_nat (height b))) hs) l'.
Proof using Hspec Hroot.
  intros Hh0 Hl Hb Hdl Hr. destruct hs as [|h hs]; [done|]. injection Hh0 as ->.
  destruct (decide (height b = 0)) as [Hz|Hz].
  - rewrite Hz in *. cbn in Hb. injection Hb as ->. cbn [Z.to_nat take firstn]. by eapply genesis_replayed.
  - destruct Hdl as [Hpos Hops]. rewrite <- (take_snoc _ _ _ Hb).
    unfold replay_local in Hr. rewrite (proj2 (Z.eqb_neq _ _) Hz) in Hr.
    assert (g_context l = Some (block_header_hash h0)) as Hcx.
    { rewrite (lo_context _ _ Hl). destruct (Z.to_nat (height b)) eqn:Hn; [lia|done]. }
    by destruct (applied_ok _ l b l' _ Hl Hcx (conj Hpos Hops) Hr).
Qed.

Lemma prefix_replayed around hs h0 c store next n : forall z l l',
  head hs = Some h0 -> chain_of hs c -> store_ok (block_header_hash h0) store -> 0 <= z ->
  ledger_ok (take (Z.to_nat (Z.max next z)) hs) l ->
  replay_prefix network around c store next n z l = Returned (Ok l') ->
  ledger_ok (take (Z.to_nat (Z.max next (z + Z.of_nat n))) hs) l'.
Proof using Hspec Hroot.
  induction n as [|n IH]; intros z l l' Hh0 Hc Hst Hz Hl Hr; cbn [replay_prefix] in Hr.
  { injection Hr as <-. by rewrite Z.add_0_r. }
  apply returns_bind in Hr as (bytes & Hs%returns_lift%ok_or_Ok & Hr).
  apply returns_bind in Hr as (h & Hh%returns_lift%ok_or_Ok & Hr).
  apply (co_headers _ _ Hc) in Hh as [_ Hh].
  apply returns_bind in Hr as (b & Hd%returns_lift & Hr). apply pinned_body in Hd as (Hhb & Hzb & Hdec).
  apply returns_bind in Hr as (l1 & Ha & Hr). apply returns_bind in Hr as ([] & _ & Hr).
  apply returns_bind in Hr as (l2 & Hk%returns_lift & Hr).
  apply IH in Hr; [|done..|lia|].
  - by replace (z + 1 + Z.of_nat n) with (z + Z.of_nat (S n)) in Hr by lia.
  - eapply kept_in_scratch; [|exact Hk]. destruct (Z.leb_spec next z).
    + replace (Z.to_nat (Z.max next (z + 1))) with (S (Z.to_nat z)) by lia.
      rewrite Z.max_r in Hl by lia. subst z h. by eapply local_replayed; [..|exact Ha]; eauto.
    + injection Ha as <-. by replace (Z.max next (z + 1)) with (Z.max next z) by lia.
Qed.

Lemma candidate_replayed around context expected : forall blocks hs l included l' included' rest,
  ledger_ok hs l -> g_context l = Some context -> Forall (download_ok context) blocks ->
  replay_candidate around expected blocks l included = Returned (Ok (l', included', rest)) ->
  exists bs, blocks = (Ok <$> bs) ++ rest /\ header <$> bs = hh_header <$> expected /\
    ledger_ok (hs ++ (hh_header <$> expected)) l' /\ included ⊆ included' /\
    forall b o id, b ∈ bs -> o ∈ b_operations (body b) -> operation_id o = Ok id -> id ∈ included'.
Proof using Hspec Hroot.
  induction expected as [|e expected IH]; intros blocks hs l included l' included' rest Hl Hcx Hdl Hr;
    cbn [replay_candidate] in Hr.
  { injection Hr as <- <- <-. exists []. cbn. rewrite app_nil_r. split_and!; try done.
    intros b o id Hb. by apply not_elem_of_nil in Hb. }
  apply returns_bind in Hr as ([next blocks'] & Hnext & Hr).
  destruct blocks as [|next0 blocks0]; [done|]. injection Hnext as -> ->.
  apply returns_bind in Hr as (b & Hb%returns_lift%map_err_Ok_inv & Hr). subst next.
  apply Forall_cons in Hdl as [Hdb Hdl].
  apply returns_bind in Hr as ([] & Hm%returns_require & Hr).
  apply returns_bind in Hr as (inc1 & Hi%returns_lift & Hr). apply returns_bind in Hr as ([] & _ & Hr).
  apply returns_bind in Hr as (l1 & Ha & Hr). apply returns_bind in Hr as (l2 & Hk%returns_lift & Hr).
  destruct (apply_synchronized b l) as [[l1'|]|] eqn:Ha'; [|done..]. injection Ha as ->.
  destruct (applied_ok hs l b l1 context Hl Hcx Hdb Ha') as [Hl1 Hcx1].
  apply (kept_in_scratch _ _ _ _ _ Hl1) in Hk as Hl2.
  assert (g_context l2 = Some context) as Hcx2.
  { by rewrite (lo_context _ _ Hl2), <- (lo_context _ _ Hl1). }
  apply (IH blocks' (hs ++ [header b]) l2) in Hr as (bs & -> & Hbs & Hl' & Hsub & Hin); [|done..].
  apply insert_ids_spec in Hi as [Hsub1 Hin1].
  apply andb_true_iff in Hm as [_ Hhe%bool_decide_eq_true].
  exists (b :: bs). cbn [fmap list_fmap]. rewrite <- Hhe. split_and!; [done|by f_equal| |set_solver|].
  - by rewrite <- app_assoc in Hl'.
  - intros b' o id [->|Hb']%elem_of_cons Ho Hid; [|by eapply Hin]. apply Hsub. by eapply Hin1.
Qed.

Lemma snapshot_prefix hs0 hs c0 c :
  chain_of hs0 c0 -> chain_of hs c ->
  forallb (fun entry => bool_decide (headers c !! entry.1 = Some entry.2)) (ascending c0) = true ->
  hs0 = take (length hs0) hs.
Proof.
  intros Hc0 Hc Hf. rewrite (ascending_chain hs0 c0 Hc0) in Hf. rewrite forallb_forall in Hf.
  assert (forall i x, hs0 !! i = Some x -> hs !! i = Some x) as Hi.
  { intros i x Hx. specialize (Hf (Z.of_nat i, x)). cbn in Hf.
    assert (In (Z.of_nat i, x) (heights hs0)) as Hin.
    { apply list_elem_of_In, list_elem_of_lookup. exists i. by rewrite heights_lookup, Hx. }
    apply Hf, bool_decide_eq_true, (co_headers _ _ Hc) in Hin as [_ Hin]. by rewrite Nat2Z.id in Hin. }
  apply list_eq. intros i. destruct (hs0 !! i) as [x|] eqn:Hx.
  - pose proof (lookup_lt_Some _ _ _ Hx). rewrite lookup_take_lt by done. symmetry. by apply Hi.
  - apply lookup_ge_None in Hx. by rewrite lookup_take_ge by done.
Qed.

Lemma starting_ledger around limit hs c staged next :
  snapshots_ok (sr_snapshot around) -> 0 <= limit -> chain_of hs c ->
  default (with_applications extension_applications ledger_new, 0) (sr_snapshot around limit) = (staged, next) ->
  forallb (fun entry => bool_decide (headers c !! entry.1 = Some entry.2)) (ascending (g_chain staged)) = true ->
  0 <= next <= limit + 1 /\ ledger_ok (take (Z.to_nat next) hs) staged.
Proof using Hroot.
  intros Hsn Hlim Hc Hd Hf. destruct (sr_snapshot around limit) as [[l k]|] eqn:Hs.
  - cbn in Hd. injection Hd as -> ->. destruct (Hsn _ _ _ Hs) as (hs0 & Hl & -> & Hle).
    split; [lia|]. rewrite Nat2Z.id, <- (snapshot_prefix hs0 hs _ c (lo_chain _ _ Hl) Hc Hf). done.
  - cbn in Hd. injection Hd as <- <-. split; [lia|]. cbn [Z.to_nat take firstn].
    split; [apply chain_of_new| |done]. apply past_new; [apply new_state_ok|vm_compute; reflexivity].
Qed.

(** The staged ledger of a recovery: the headers of the captured chain up to the
    ancestor, and the branch. *)
Lemma branch_replayed database minimums around hs n store sync blocks h tip staged included :
  ledger_ok hs (nd_ledger (sy_node n)) ->
  headers (g_chain (nd_ledger (sy_node n))) !! hr_ancestor_height sync = Some h ->
  Forall (download_ok (default [] (g_context (nd_ledger (sy_node n))))) blocks ->
  store_ok (default [] (g_context (nd_ledger (sy_node n)))) store -> snapshots_ok (sr_snapshot around) ->
  replay_branch network database minimums around n store sync blocks
    = Returned (Ok (Some (tip, staged, included))) ->
  ledger_ok (take (S (Z.to_nat (hr_ancestor_height sync))) hs ++ (hh_header <$> hr_headers sync)) staged /\
  tip_hash (g_chain staged) = Some tip /\ tip = new_tip sync /\
  minimums_allow minimums (hr_peer_work sync) (hr_peer_weight sync) = true /\
  exists bs, blocks = Ok <$> bs /\ header <$> bs = hh_header <$> hr_headers sync /\
    forall b o id, b ∈ bs -> o ∈ b_operations (body b) -> operation_id o = Ok id -> id ∈ included.
Proof using Hspec Hroot.
  intros Hl Hh Hdl Hst Hsn Hr. pose proof (lo_chain _ _ Hl) as Hc.
  apply (co_headers _ _ Hc) in Hh as [Ha Hh]. pose proof (lookup_lt_Some _ _ _ Hh) as Hlt.
  destruct hs as [|h0 hs]; [done|]. rewrite (lo_context _ _ Hl) in Hdl, Hst. cbn [head fmap option_fmap option_map default] in Hdl, Hst.
  unfold replay_branch in Hr.
  apply returns_bind in Hr as ([] & _ & Hr). apply returns_bind in Hr as ([] & _ & Hr).
  apply returns_bind in Hr as (t & _ & Hr). apply returns_bind in Hr as (st & _ & Hr).
  apply returns_bind in Hr as (verified & _ & Hr). apply returns_bind in Hr as ([] & Hw%returns_require & Hr).
  apply andb_true_iff in Hw as [Hw%bool_decide_eq_true Hwt%Z.eqb_eq]. rewrite Hw, Hwt in Hr.
  destruct (minimums_allow _ _ _) eqn:Hmin; cbn [negb] in Hr; [|done].
  apply returns_bind in Hr as ([] & _ & Hr).
  destruct (default _ _) as [staged0 next] eqn:Hd.
  apply returns_bind in Hr as ([] & Hf%returns_require & Hr).
  apply returns_bind in Hr as ([] & _ & Hr). apply returns_bind in Hr as (staged1 & Hp & Hr).
  apply returns_bind in Hr as ([] & Hanc%returns_require%bool_decide_eq_true & Hr).
  apply returns_bind in Hr as ([[staged2 inc] rest] & Hcand & Hr).
  apply returns_bind in Hr as ([] & Htip%returns_require & Hr). apply returns_bind in Hr as ([] & _ & Hr).
  injection Hr as <- <- <-. apply andb_true_iff in Htip as [Hrest Htip%bool_decide_eq_true].
  destruct rest; [|done].
  destruct (starting_ledger _ _ _ _ _ _ Hsn Ha Hc Hd Hf) as [Hnext Hl0].
  apply (prefix_replayed _ (h0 :: hs) h0 _ _ _ _ _ _ _ eq_refl Hc Hst (Z.le_refl 0)) in Hp; [|by rewrite Z.max_l by lia].
  replace (Z.to_nat (Z.max next (0 + Z.of_nat (Z.to_nat (hr_ancestor_height sync + 1)))))
    with (S (Z.to_nat (hr_ancestor_height sync))) in Hp by lia.
  apply (candidate_replayed _ (block_header_hash h0) _ _ _ _ _ _ _ _ Hp) in Hcand
    as (bs & -> & Hbs & Hl2 & _ & Hin); [|by rewrite (lo_context _ _ Hp)|done].
  split_and!; [done|done| |done|by exists bs; rewrite app_nil_r].
  rewrite (co_tip_hash _ _ (lo_chain _ _ Hp)) in Hanc.
  rewrite (co_tip_hash _ _ (lo_chain _ _ Hl2)), last_app, fmap_last in Htip. unfold new_tip.
  destruct (last (hr_headers sync)) as [e|]; cbn [fmap option_fmap option_map] in Htip; [by injection Htip|].
  rewrite Hanc in Htip. by injection Htip.
Qed.

(** A recovery that applies nothing found the branch below the minimums. *)
Lemma replay_none database minimums around n store sync blocks :
  replay_branch network database minimums around n store sync blocks = Returned (Ok None) ->
  minimums_allow minimums (hr_peer_work sync) (hr_peer_weight sync) = false.
Proof.
  intros Hr. unfold replay_branch in Hr.
  apply returns_bind in Hr as ([] & _ & Hr). apply returns_bind in Hr as ([] & _ & Hr).
  apply returns_bind in Hr as (t & _ & Hr). apply returns_bind in Hr as (st & _ & Hr).
  apply returns_bind in Hr as (verified & _ & Hr). apply returns_bind in Hr as ([] & Hw%returns_require & Hr).
  apply andb_true_iff in Hw as [Hw%bool_decide_eq_true Hwt%Z.eqb_eq]. rewrite Hw, Hwt in Hr.
  destruct (minimums_allow _ _ _); [|done]. cbn [negb] in Hr.
  apply returns_bind in Hr as ([] & _ & Hr). destruct (default _ _) as [staged0 next].
  apply returns_bind in Hr as ([] & _ & Hr). apply returns_bind in Hr as ([] & _ & Hr).
  apply returns_bind in Hr as (staged1 & _ & Hr). apply returns_bind in Hr as ([] & _ & Hr).
  apply returns_bind in Hr as ([[staged2 inc] rest] & _ & Hr).
  apply returns_bind in Hr as ([] & _ & Hr). by apply returns_bind in Hr as ([] & _ & Hr).
Qed.

(** ** Candidates found invalid *)

(** An error that reports an invalid candidate names a header of the branch. *)
Definition blames (l : list HeaderAtHeight) {A} (m : Run SyncError A) : Prop :=
  forall hash e, m = Returned (Err (InvalidCandidate hash e)) -> exists h, h ∈ l /\ hash = header_hash h.

Lemma blames_bind l {A B} (m : Run SyncError A) (f : A -> Run SyncError B) :
  blames l m -> (forall a, m = Returned (Ok a) -> blames l (f a)) -> blames l (m ≫= f).
Proof. intros Hm Hf hash e. destruct m as [[a|e']|]; cbn; [by apply Hf| |done]. intros [= ->]. by apply (Hm hash e). Qed.

Lemma blames_require l c e : (forall hash e', e <> InvalidCandidate hash e') -> blames l (run_require c e).
Proof. intros He hash e'. destruct c; [done|]. intros [= ->]. by destruct (He hash e'). Qed.

Lemma blames_ret l {A} (a : A) : blames l (mret a).
Proof. done. Qed.

Lemma blames_map l {E A} (f : E -> SyncError) (m : Run E A) :
  (forall e hash e', f e <> InvalidCandidate hash e') -> blames l (run_map_err f m).
Proof. intros Hf hash e. destruct m as [[a|e']|]; try done. intros [= He]. by destruct (Hf e' hash e). Qed.

Lemma blames_lift l {E A} (f : E -> SyncError) (r : result E A) :
  (forall e hash e', f e <> InvalidCandidate hash e') -> blames l (run_lift (map_err f r)).
Proof. intros Hf. exact (blames_map l f (Returned r) Hf). Qed.

Lemma blames_ok_or l {A} (o : option A) e :
  (forall hash e', e <> InvalidCandidate hash e') -> blames l (run_lift (ok_or o e)).
Proof. intros He hash e'. destruct o; [done|]. intros [= ->]. by destruct (He hash e'). Qed.

Lemma blames_applied l b staged : blames l (apply_synchronized b staged).
Proof. intros hash e. unfold apply_synchronized. by repeat case_match. Qed.

Lemma blames_replayed l z b staged : blames l (replay_local network z b staged).
Proof. unfold replay_local. case_match; [|apply blames_applied]. intros hash e. by repeat case_match. Qed.

Lemma blames_scratch l around z staged : blames l (run_lift (keep_in_scratch around z staged)).
Proof.
  intros hash e. unfold keep_in_scratch, prune_journals, trim_body_cache, guard_err, run_lift.
  destruct (sr_saved around z); [|done]. cbn [negb]. destruct (tip_height _); [|done]. cbn [mbind result_mbind ok_or].
  by destruct (retain_recent_bodies _ _ _).
Qed.

Lemma blames_pinned l z h bytes : blames l (run_lift (decode_pinned_local_body z h bytes)).
Proof.
  intros hash e. unfold decode_pinned_local_body, guard_err, run_lift. case_match; [done|].
  destruct (w_slice wire_block bytes); [|done]. cbn [mbind result_mbind ok_or]. case_match; [done|].
  destruct (calculate_merkle_root _ _); [|done]. cbn [mbind result_mbind map_err]. by case_match.
Qed.

Lemma blames_ids l ops : forall included, blames l (run_lift (insert_ids included ops)).
Proof.
  induction ops as [|o ops IH]; intros included; unfold insert_ids; cbn [try_fold]; [apply blames_ret|].
  destruct (operation_id o); [apply IH|done].
Qed.

#[local] Hint Resolve blames_require blames_ret blames_map blames_lift blames_ok_or blames_applied
  blames_replayed blames_scratch blames_pinned blames_ids : blames.
#[local] Hint Extern 1 (_ <> _) => discriminate : blames.

Lemma blames_prefix l around c store next n : forall z staged,
  blames l (replay_prefix network around c store next n z staged).
Proof.
  induction n as [|n IH]; intros z staged; cbn [replay_prefix]; [apply blames_ret|].
  repeat (apply blames_bind; [|intros ? _]); auto with blames. case_match; auto with blames.
Qed.

Lemma blames_candidate around expected : forall l blocks staged included,
  expected ⊆ l -> blames l (replay_candidate around expected blocks staged included).
Proof.
  induction expected as [|e expected IH]; intros l blocks staged included Hl; cbn [replay_candidate];
    [apply blames_ret|].
  apply blames_bind; [by destruct blocks|]. intros [next blocks'] _.
  apply blames_bind; [auto with blames|]. intros b _.
  apply blames_bind; [auto with blames|]. intros [] Hm%returns_require.
  apply andb_true_iff in Hm as [_ Hhe%bool_decide_eq_true].
  apply blames_bind; [auto with blames|]. intros inc _. apply blames_bind; [auto with blames|]. intros [] _.
  apply blames_bind.
  { intros hash e'. destruct (apply_synchronized b staged) as [[]|]; try done. intros [= <- _].
    exists e. split; [apply Hl; left|]. unfold block_hash, header_hash. by rewrite Hhe. }
  intros l1 _. apply blames_bind; [auto with blames|]. intros l2 _. apply IH. intros x Hx. apply Hl. by right.
Qed.

Lemma blames_branch database minimums around n store sync blocks :
  blames (hr_headers sync) (replay_branch network database minimums around n store sync blocks).
Proof.
  unfold replay_branch. do 6 (apply blames_bind; [auto with blames|intros ? _]).
  case_match; [apply blames_ret|]. apply blames_bind; [auto with blames|intros [] _].
  destruct (default _ _) as [staged next]. do 2 (apply blames_bind; [auto with blames|intros [] _]).
  apply blames_bind; [apply blames_prefix|intros ? _]. apply blames_bind; [auto with blames|intros [] _].
  apply blames_bind; [by apply blames_candidate|intros [[]] _].
  do 2 (apply blames_bind; [auto with blames|intros [] _]). apply blames_ret.
Qed.

(** ** The whole function *)

(** How the branch compares with the tip of a node. *)
Definition beats (sync : HeaderSyncResult) (n : SyncNode) : comparison :=
  compare_chain_tips (hr_peer_work sync) (hr_peer_weight sync) (new_tip sync)
    (to_work (sy_totals n)) (to_weight (sy_totals n))
    (default [] (tip_hash (g_chain (nd_ledger (sy_node n))))).

(** The ways in which [n] may become [n']: nothing to do, the branch on top of
    [prefix], or an error. *)
Definition switches (minimums : ChainMinimums) (archive : Z -> bool) (sync : HeaderSyncResult)
    (blocks : list (result SyncError Block)) (disk : bool) (prefix : list Header) (n n' : SyncNode)
    (r : Run SyncError Z) : Prop :=
  match r with
  | Returned (Ok count) =>
      kept n n' /\ count = 0 /\
        (minimums_allow minimums (hr_peer_work sync) (hr_peer_weight sync) = false \/ beats sync n <> Gt) \/
      count = Z.of_nat (length (hr_headers sync)) /\ disk = true /\ beats sync n = Gt /\
        minimums_allow minimums (hr_peer_work sync) (hr_peer_weight sync) = true /\
        on_branch prefix sync blocks (nd_ledger (sy_node n')) (nd_stored (sy_node n'))
  | Returned (Err e) => kept n n' \/
      disk = true /\ beats sync n = Gt /\ nd_ledger (sy_node n') = nd_ledger (sy_node n) /\
        exists staged, on_branch prefix sync blocks staged (nd_stored (sy_node n')) /\
          refreshed_cache network archive (sy_totals n) staged = Err e
  | Panicked => kept n n'
  end.

Lemma commits_switch minimums archive sync blocks disk prefix n n' r :
  minimums_allow minimums (hr_peer_work sync) (hr_peer_weight sync) = true -> beats sync n = Gt ->
  commits archive sync blocks disk prefix (Z.of_nat (length (hr_headers sync))) n n' r ->
  switches minimums archive sync blocks disk prefix n n' r.
Proof. intros Hm Hb Hc. destruct r as [[k|e]|]; cbn in *; naive_solver. Qed.

Lemma recovered database minimums archive around hs n chain store sync blocks disk h n' r :
  ledger_ok hs (nd_ledger (sy_node n)) -> chain_context network = Ok chain ->
  minimums_allow minimums (hr_peer_work sync) (hr_peer_weight sync) = true ->
  headers (g_chain (nd_ledger (sy_node n))) !! hr_ancestor_height sync = Some h ->
  Forall (download_ok (default [] (g_context (nd_ledger (sy_node n))))) blocks ->
  store_ok (default [] (g_context (nd_ledger (sy_node n)))) store -> snapshots_ok (sr_snapshot around) ->
  recover_branch network database minimums archive around n store sync blocks disk = (n', r) ->
  switches minimums archive sync blocks disk (take (S (Z.to_nat (hr_ancestor_height sync))) hs)
    (sr_active around) n' r /\
  (sy_invalid n' = sy_invalid (sr_active around) \/
   exists h e, h ∈ hr_headers sync /\ r = Returned (Err (InvalidCandidate (header_hash h) e)) /\
     sy_invalid n' = remember_invalid database (header_hash h) (sy_invalid (sr_active around))).
Proof using Hspec Hroot.
  intros Hl Hchain Hmin Hh Hdl Hst Hsn Hr. unfold recover_branch in Hr.
  pose proof (blames_branch database minimums around n store sync blocks) as Hblame.
  destruct (replay_branch _ _ _ _ _ _ _ _) as [[[[[tip staged] included]|]|e]|] eqn:Hrep.
  4: by injection Hr as <- <-; split; [|left].
  3: { destruct e; injection Hr as <- <-; (split; [by left|]); try by left.
       destruct (Hblame _ _ eq_refl) as (h' & Hin & ->). right. by eauto. }
  2: { apply replay_none in Hrep. congruence. }
  apply (branch_replayed _ _ _ hs _ _ _ _ h) in Hrep as (Hs & Htip & -> & _ & bs & Hb & Hbs & Hin); [|done..].
  case_bool_decide; cbn [negb] in Hr; [|by injection Hr as <- <-; split; left].
  destruct (_ ≫= _); [|by injection Hr as <- <-; split; left].
  destruct (tip_hash (g_chain (nd_ledger (sy_node (sr_active around))))) as [t|] eqn:Ht;
    [|by injection Hr as <- <-; split; left].
  destruct (compare_chain_tips _ _ _ _ _ _) eqn:Hcmp;
    [by injection Hr as <- <-; split; left; split; [|split; [|right; unfold beats; rewrite Ht; cbn; rewrite Hcmp]]..|].
  destruct (active_operations _ _ _) as [disconnected|]; [|by injection Hr as <- <-; split; left].
  eapply commit_ok in Hr as [Hc Hi]; [|done..]. split; [|by left].
  apply commits_switch; [done| |done]. unfold beats. by rewrite Ht.
Qed.

(** (C6) Switching branches is all or nothing.  Whatever headers and blocks a peer
    sent and whatever the disk does, a node ends in one of these ways: it reports
    an error or a panic and keeps its ledger, its table and its totals; it reports
    that nothing was applied, because the branch is below the configured minimums
    or does not beat the current tip, and keeps them too; or the branch beats the
    current tip, exactly the verified headers were downloaded, and the new ledger
    is sound and consists of the old headers up to the ancestor and then those of
    the branch, up to its announced tip, while the table holds at most 1024
    distinct operations, none of them in the branch, that apply one after the
    other on the new tip.  The one error after which the table is not the old one
    is a failure to refresh the cache once the transaction has committed: then the
    table on disk is that of the branch and the ledger in memory the old one.

    All of this also holds when the branch forks off below the journals the node
    kept and it rebuilds the ledger from a local snapshot or from its first block
    (then relative to the node as other threads left it meanwhile); such a
    recovery remembers a candidate as invalid only together with an error, and
    under the hash of a header of the branch.  Local bodies that decode are
    assumed well typed, and a local snapshot to be a sound ledger. *)
Theorem branch_sync_sound hs n chain database minimums store archive around sync blocks disk n' r :
  ledger_ok hs (nd_ledger (sy_node n)) -> chain_context network = Ok chain ->
  Forall (download_ok (default [] (g_context (nd_ledger (sy_node n))))) blocks ->
  store_ok (default [] (g_context (nd_ledger (sy_node n)))) store -> snapshots_ok (sr_snapshot around) ->
  apply_verified_branch_stream network database minimums store archive around sync blocks disk n = (n', r) ->
  let switched n := switches minimums archive sync blocks disk
    (take (S (Z.to_nat (hr_ancestor_height sync))) hs) n n' r in
  switched n /\ sy_invalid n' = sy_invalid n \/
  can_rollback_to (nd_ledger (sy_node n)) (hr_ancestor_height sync) = false /\ beats sync n = Gt /\
    switched (sr_active around) /\
    (sy_invalid n' = sy_invalid (sr_active around) \/
     exists h e, h ∈ hr_headers sync /\ r = Returned (Err (InvalidCandidate (header_hash h) e)) /\
       sy_invalid n' = remember_invalid database (header_hash h) (sy_invalid (sr_active around))).
Proof using Hspec Hroot.
  intros Hl Hchain Hdl Hst Hsn Ha switched. unfold apply_verified_branch_stream in Ha.
  destruct (minimums_allow _ _ _) eqn:Hmin; cbn [negb] in Ha.
  2: { injection Ha as <- <-. left. split; [left|done]. split; [done|]. split; [done|by left]. }
  destruct (tip_hash (g_chain (nd_ledger (sy_node n)))) as [tip|] eqn:Htip;
    [|by injection Ha as <- <-; left; split; [left|]].
  destruct (compare_chain_tips _ _ _ _ _ _) eqn:Hcmp;
    [by injection Ha as <- <-; left; split; [left; split; [|split; [|right; unfold beats; rewrite Htip; cbn; rewrite Hcmp]]|]..|].
  assert (beats sync n = Gt) as Hb by (unfold beats; by rewrite Htip).
  destruct (headers (g_chain _) !! _) as [h|] eqn:Hh; [|by injection Ha as <- <-; left; split; [left|]].
  destruct (negb (bool_decide _)); [by injection Ha as <- <-; left; split; [left|]|].
  destruct (can_rollback_to _ _) eqn:Hroll; cbn [negb] in Ha.
  2: { destruct (active_root_matches _); [|by injection Ha as <- <-; left; split; [left|]].
       right. split_and!; [done..| |]; by eapply recovered. }
  left. destruct (stage_branch _ _ _ _ _) as [[[[staged disconnected] included]|e]|] eqn:Hs;
    [|by injection Ha as <- <-; split; [left|]|by injection Ha as <- <-].
  apply (stage_ok _ _ _ _ hs _ h) in Hs as (Hl' & Ht' & bs & Hbs & Hhs & Hin); [|done..].
  eapply commit_ok in Ha as [Hc Hi]; [|done..]. split; [|done]. by apply commits_switch.
Qed.
End branches.

(** ** A node that moves to a longer branch *)

Section example.
#[local] Existing Instance toy_sha3.
#[local] Existing Instance toy_sha3_spec.
#[local] Existing Instance toy_argon2.
#[local] Existing Instance accept_all.
#[local] Existing Instance toy_roots.
#[local] Existing Instance no_roots_spec.

(** The peer's chain: another first block, and one more. *)
Definition peer1 : Block := with_nonce block1 7.
Definition peer_ledger1 : Ledger := (apply_validated_block (validated peer1) ledger1).1.
Definition peer2 : Block :=
  sealed peer_ledger1 (ok_block (from_protocol_operations 2 (block_hash peer1) TARGET_BITS_START 0
    (Some {| em_to := toy_miner; em_subsidy := BLOCK_EMISSION_START |}) [])).
Definition peer_ledger2 : Ledger := (apply_validated_block (validated peer2) peer_ledger1).1.

Definition toy_totals (l : Ledger) : Totals :=
  match build_header_state_checkpoints (block_hash block0) (g_chain l) with Ok t => t | Err _ => totals_zero end.

Definition peer_sync : HeaderSyncResult :=
  {| hr_ancestor_height := 0; hr_ancestor_hash := block_hash block0;
     hr_headers := [{| hh_height := 1; hh_header := header peer1 |};
                    {| hh_height := 2; hh_header := header peer2 |}];
     hr_peer_work := to_work (toy_totals peer_ledger2); hr_peer_weight := to_weight (toy_totals peer_ledger2);
     hr_preferred := true |}.

Definition any_work : ChainMinimums := {| cm_work := Work.ZERO; cm_weight := 0 |}.

Definition started (l : Ledger) : SyncNode :=
  {| sy_node := {| nd_ledger := l; nd_stored := nd_stored toy_node; nd_cache := nd_cache toy_node;
                   nd_rejections := nd_rejections toy_node |};
     sy_totals := toy_totals ledger2; sy_invalid := [] |}.

(** A disk without faults, no snapshot, and no other threads. *)
Definition quiet (active : SyncNode) : Surroundings :=
  {| sr_busy := false; sr_scratch := true; sr_snapshot := fun _ => None; sr_reader := true;
     sr_receipt := fun _ => true; sr_saved := fun _ => true; sr_archive := fun _ => true; sr_sealed := true;
     sr_active := active; sr_store := fun _ => None |}.

Definition body0 : list Z := w_enc wire_block block0.
Definition first_body (z : Z) : option (list Z) := if z =? 0 then Some body0 else None.

(** The ledger with its journals lost. *)
Definition forgetful : Ledger :=
  {| g_applications := g_applications ledger2; g_chain := g_chain ledger2; g_state := g_state ledger2;
     g_journals := filter (fun e => 2 <= e.1) (g_journals ledger2); g_context := g_context ledger2 |}.

Lemma forgetful_ok : ledger_ok [header block0; header block1] forgetful.
Proof. destruct ledger2_ok as [Hc Hp Hx]. split; [exact Hc|by apply past_prune|exact Hx]. Qed.

Definition switch (l : Ledger) : SyncNode * Run SyncError Z :=
  apply_verified_branch_stream toy_network [] any_work first_body (fun _ => true) (quiet (started l))
    peer_sync [Ok peer1; Ok peer2] true (started l).

Lemma switch_returns l :
  match (switch l).2 with Returned (Ok k) => k = 2 | _ => False end ->
  switch l = ((switch l).1, Returned (Ok 2)).
Proof. destruct (switch l) as [n [[k|]|]]; cbn [fst snd]; [|done..]. by intros ->. Qed.

Lemma fmap_Ok_inj {E A} (l k : list A) : (Ok (E := E) <$> l) = Ok <$> k -> l = k.
Proof. revert k. induction l as [|x l IH]; intros [|y k] Heq; try done. injection Heq as -> ?. f_equal. by apply IH. Qed.

Lemma empty_download_ok context b :
  (0 <=? height b) = true -> b_operations (body b) = [] -> download_ok context (Ok b).
Proof. intros Hh Ho. split; [lia|]. rewrite Ho. constructor. Qed.

Lemma first_body_ok context : store_ok context first_body.
Proof.
  intros z bytes b Hs Hd. unfold first_body in Hs. destruct (z =? 0); [|done].
  apply (inj Some) in Hs. subst bytes.
  assert (match w_slice wire_block body0 with
    | Some b => (0 <=? height b) = true /\ b_operations (body b) = [] | None => True end) as Hb
    by (vm_compute; split; reflexivity).
  rewrite Hd in Hb. destruct Hb as [Hh Ho]. by apply empty_download_ok.
Qed.

Lemma peer_blocks_ok context : Forall (download_ok context) [Ok peer1; Ok peer2].
Proof. constructor; [|constructor; [|constructor]]; apply empty_download_ok; vm_compute; reflexivity. Qed.

(** A reported success of two blocks is the third way. *)
Lemma switched_to hs n n' :
  switches toy_network any_work (fun _ => true) peer_sync [Ok peer1; Ok peer2] true
    (take (S (Z.to_nat 0)) hs) n n' (Returned (Ok 2)) ->
  ledger_ok (take 1 hs ++ [header peer1; header peer2]) (nd_ledger (sy_node n')) /\
  table_after toy_network (nd_ledger (sy_node n')) [peer1; peer2] (nd_stored (sy_node n')).
Proof.
  intros [(_ & Hk & _)|(_ & _ & _ & _ & Hl & _ & bs & Hbs & _ & Ht)]; [discriminate Hk|]. split; [exact Hl|].
  rewrite (fmap_Ok_inj [peer1; peer2] bs Hbs : _ = bs) in *. exact Ht.
Qed.

(** The node moves to the branch with its journals, and also without them. *)
Lemma branch_sync_sound_witness : Forall (fun l =>
  ledger_ok [header block0; header peer1; header peer2] (nd_ledger (sy_node (switch l).1)) /\
  table_after toy_network (nd_ledger (sy_node (switch l).1)) [peer1; peer2]
    (nd_stored (sy_node (switch l).1))) [ledger2; forgetful] /\
  can_rollback_to forgetful 0 = false.
Proof.
  destruct (chain_context toy_network) as [chain|] eqn:Hc; [|vm_compute in Hc; discriminate].
  split; [|vm_compute; reflexivity].
  assert (forall l, ledger_ok [header block0; header block1] l ->
    match (switch l).2 with Returned (Ok k) => k = 2 | _ => False end ->
    ledger_ok [header block0; header peer1; header peer2] (nd_ledger (sy_node (switch l).1)) /\
    table_after toy_network (nd_ledger (sy_node (switch l).1)) [peer1; peer2]
      (nd_stored (sy_node (switch l).1))) as Hw.
  { intros l Hl Hr.
    destruct (branch_sync_sound toy_network [header block0; header block1] (started l) chain [] any_work
      first_body (fun _ => true) (quiet (started l)) peer_sync [Ok peer1; Ok peer2] true (switch l).1
      (Returned (Ok 2)) Hl Hc (peer_blocks_ok _) (first_body_ok _) ltac:(intros ? ? ? [=]) (switch_returns l Hr))
      as [[Hs _]|(_ & _ & Hs & _)]; exact (switched_to _ _ _ Hs). }
  constructor; [apply Hw; [exact ledger2_ok|vm_compute; reflexivity]|].
  constructor; [apply Hw; [exact forgetful_ok|vm_compute; reflexivity]|constructor].
Defined.
End example.
