(* ===== verification/CompactRelay.v ===== *)
(** * Compact block relay

    Models the compact relay of [runtime/src/node/gossip.rs]: a node announces a
    block by its header, emission and six-byte salted identifiers of its
    operations; the receiver fills in the operations it has pending, asks for
    the others, and falls back to the full block when something does not fit.

    A peer is a function from the frames sent to it so far to its next frame, or
    nothing when the stream fails; the size limits of [read_frame] are checked on
    what it sends.  The salt, which the sender draws at random, and whether the
    disk commits are arguments.  Error messages are constructors; log lines and
    the refresh of the ledger cache after a commit, with the errors it can
    return, are left out ([BranchSync] has it). *)

From S2P Require Import Prelude Target Work Codec Monetary Index Coin Vm Registry Calls Wire Authorize Policy Block Chain Consensus.
From S2P Require Import Fork HeaderSync HeaderCheckpoints Assets State StateRoot CoinHost AssetHost Settlement Engine Apply.
From S2P Require Import Ledger LedgerProps Genesis Mempool BranchSync.
From stdpp Require Import strings.
#[local] Open Scope list_scope.
#[local] Open Scope Z_scope.

Definition MAX_STORED_BLOCK_SIZE : Z := MAX_BLOCK_SIZE + 1024.
Definition GET_BLOCK_MESSAGE : Z := 4.
Definition BLOCK_MESSAGE : Z := 5.
Definition ACCEPTED_MESSAGE : Z := 11.
Definition REJECTED_MESSAGE : Z := 12.
Definition GET_BLOCK_OPERATIONS_MESSAGE : Z := 19.
Definition BLOCK_OPERATIONS_MESSAGE : Z := 20.

Inductive RelayError :=
| RelayNode (e : NodeError) | RelayCodec (e : CodecError) | InvalidRelayed (e : CodecError)
| InvalidRelayedBlock (e : Failure) | RelayResync | RelayTargetBits | BelowMinimums
| CompactSize | InvalidCompact | CompactCount | FrameRead | FrameSize
| UnexpectedGossip | InvalidGossip (e : CodecError) | GossipMismatch
| PeerRejected (message : list Z) | InvalidMissing | MissingRequest | MissingIndex | OtherBlock
| UnexpectedCompact.

(** ** Short identifiers *)

(** [u64::rotate_left]. *)
Definition rotate_left (x n : Z) : Z := Z.lor (wrap 64 (Z.shiftl x n)) (Z.shiftr x (64 - n)).

Definition wrapping_add (x y : Z) : Z := wrap 64 (x + y).

(** The four words of the state. *)
Record Sip := { v0 : Z; v1 : Z; v2 : Z; v3 : Z }.

Definition sip_round (v : Sip) : Sip :=
  let a := wrapping_add (v0 v) (v1 v) in
  let b := Z.lxor (rotate_left (v1 v) 13) a in
  let a := rotate_left a 32 in
  let c := wrapping_add (v2 v) (v3 v) in
  let d := Z.lxor (rotate_left (v3 v) 16) c in
  let a := wrapping_add a d in
  let d := Z.lxor (rotate_left d 21) a in
  let c := wrapping_add c b in
  let b := Z.lxor (rotate_left b 17) c in
  let c := rotate_left c 32 in
  {| v0 := a; v1 := b; v2 := c; v3 := d |}.

(** One message word, with two rounds. *)
Definition sip_word (v : Sip) (word : Z) : Sip :=
  let v := {| v0 := v0 v; v1 := v1 v; v2 := v2 v; v3 := Z.lxor (v3 v) word |} in
  let v := sip_round (sip_round v) in
  {| v0 := Z.lxor (v0 v) word; v1 := v1 v; v2 := v2 v; v3 := v3 v |}.

(** [final_word |= u64::from(byte) << (shift * 8)] over the remainder. *)
Fixpoint or_bytes (shift : Z) (bytes : list Z) (word : Z) : Z :=
  match bytes with
  | [] => word
  | byte :: bytes => or_bytes (shift + 1) bytes (Z.lor word (Z.shiftl byte (shift * 8)))
  end.

Definition siphash24 (keys : Z * Z) (input : list Z) : Z :=
  let v := {| v0 := Z.lxor 0x736f6d6570736575 keys.1; v1 := Z.lxor 0x646f72616e646f6d keys.2;
              v2 := Z.lxor 0x6c7967656e657261 keys.1; v3 := Z.lxor 0x7465646279746573 keys.2 |} in
  let words := (length input / 8)%nat in
  let v := foldl sip_word v (le_val <$> chunks_exact words 8 input) in
  let final_word :=
    or_bytes 0 (drop (words * 8) input) (wrap 64 (Z.shiftl (wrap 64 (Z.of_nat (length input))) 56)) in
  let v := sip_word v final_word in
  let v := {| v0 := v0 v; v1 := v1 v; v2 := Z.lxor (v2 v) 0xff; v3 := v3 v |} in
  let v := sip_round (sip_round (sip_round (sip_round v))) in
  Z.lxor (Z.lxor (Z.lxor (v0 v) (v1 v)) (v2 v)) (v3 v).

(** ** Messages *)

Record CompactBlock := {
  cb_block_hash : Hash;
  cb_header : Header;
  cb_height : Z;
  cb_emission : option Emission;
  cb_salt : Z;
  cb_short_ids : list (list Z);
}.

Record MissingBlockOperations := { mb_block_hash : Hash; mb_indices : list Z }.

Record RequestedBlockOperations := { rb_block_hash : Hash; rb_operations : list (Z * BlockOperation) }.

Lemma any_count_fits : 2 ^ 32 - 1 < 2 ^ 32.
Proof. done. Qed.

Program Definition wire_compact : Wire CompactBlock :=
  wire_struct
    (wire_pair wire_hash (wire_pair wire_header (wire_pair (wire_uint 8)
      (wire_pair (wire_option wire_emission) (wire_pair (wire_uint 8)
        (wire_vec (2 ^ 32 - 1) any_count_fits (wire_raw 6)))))))
    (fun p => {| cb_block_hash := p.1; cb_header := p.2.1; cb_height := p.2.2.1;
                 cb_emission := p.2.2.2.1; cb_salt := p.2.2.2.2.1; cb_short_ids := p.2.2.2.2.2 |})
    (fun c => (cb_block_hash c, (cb_header c, (cb_height c, (cb_emission c, (cb_salt c, cb_short_ids c)))))) _ _.
Next Obligation. by intros []. Qed.
Next Obligation. by intros [? [? [? [? []]]]]. Qed.

Program Definition wire_missing : Wire MissingBlockOperations :=
  wire_struct (wire_pair wire_hash (wire_vec (2 ^ 32 - 1) any_count_fits (wire_uint 4)))
    (fun p => {| mb_block_hash := p.1; mb_indices := p.2 |})
    (fun m => (mb_block_hash m, mb_indices m)) _ _.
Next Obligation. by intros []. Qed.
Next Obligation. by intros []. Qed.

Program Definition wire_requested : Wire RequestedBlockOperations :=
  wire_struct
    (wire_pair wire_hash
      (wire_vec (2 ^ 32 - 1) any_count_fits (wire_pair (wire_uint 4) wire_operation)))
    (fun p => {| rb_block_hash := p.1; rb_operations := p.2 |})
    (fun r => (rb_block_hash r, rb_operations r)) _ _.
Next Obligation. by intros []. Qed.
Next Obligation. by intros []. Qed.

Definition Peer : Type := list (list Z) -> option (list Z).

(** [write_frame], then [read_frame] with its bound. *)
Definition exchange (peer : Peer) (sent : list (list Z)) (request : list Z) (maximum : Z)
    : result RelayError (list Z) :=
  reply ← ok_or (peer (sent ++ [request])) FrameRead;
  fail_if (length reply =? 0)%nat || (maximum <? Z.of_nat (length reply)) with FrameSize;
  Ok reply.

(** The first position [p] and the identifiers from there. *)
Fixpoint match_short_ids_from (p : Z) (short_ids : list (list Z))
    (index : gmap (list Z) (list BlockOperation)) : list (option BlockOperation) * list Z :=
  match short_ids with
  | [] => ([], [])
  | id :: short_ids =>
      let '(found, missing) := match_short_ids_from (p + 1) short_ids index in
      match index !! id with
      | Some [only] => (Some only :: found, missing)
      | _ => (None :: found, wrap 32 p :: missing)
      end
  end.

Definition match_short_ids (short_ids : list (list Z)) (index : gmap (list Z) (list BlockOperation))
    : list (option BlockOperation) * list Z := match_short_ids_from 0 short_ids index.

(** [read_mempool], as operations: the pending program calls. *)
Definition is_call (o : BlockOperation) : bool :=
  match o with OpProgramCall _ => true | OpDeployProgram _ => false end.

Definition pool_calls (pool : PendingPool) : list BlockOperation :=
  List.filter is_call (pe_operation <$> pp_entries pool).

Section relay.
Context `{Sha3} `{Argon2} `{SignatureBackend} `{RootTest}.

Definition short_id_keys (block_hash : Hash) (salt : Z) : Z * Z :=
  let digest := domain CompactBlockKey
    (ascii_bytes "xparq:compact-block-key:v1" ++ block_hash ++ le_bytes 8 salt) in
  (le_val (take 8 digest), le_val (take 8 (drop 8 digest))).

Definition compact_short_id (keys : Z * Z) (operation_id : Hash) : list Z :=
  take 6 (le_bytes 8 (siphash24 keys operation_id)).

Definition compact_block (block : Block) (salt : Z) : result CodecError CompactBlock :=
  let keys := short_id_keys (block_hash block) salt in
  short_ids ← collect (fun o => id ← operation_id o; Ok (compact_short_id keys id))
                (b_operations (body block));
  Ok {| cb_block_hash := block_hash block; cb_header := header block; cb_height := height block;
        cb_emission := b_emission (body block); cb_salt := salt; cb_short_ids := short_ids |}.

(** ** The sender *)

Record Serving := { sv_operations : bool; sv_block : bool }.

Inductive Served := Accepted | Reply (frame : list Z) (next : Serving).

(** One turn of the loop of [relay_compact_block], for a frame of the receiver. *)
Definition serve (block : Block) (state : Serving) (response : list Z) : result RelayError Served :=
  fail_if (length response =? 0)%nat || (1 + MAX_STORED_BLOCK_SIZE <? Z.of_nat (length response))
    with FrameSize;
  match response with
  | [] => Err UnexpectedCompact
  | tag :: payload =>
      if tag =? ACCEPTED_MESSAGE then Ok Accepted
      else if tag =? REJECTED_MESSAGE then Err (PeerRejected payload)
      else if (tag =? GET_BLOCK_OPERATIONS_MESSAGE) && negb (sv_operations state) && negb (sv_block state)
      then
        missing ← ok_or (w_slice wire_missing payload) InvalidMissing;
        fail_if negb (bool_decide (mb_block_hash missing = block_hash block))
                || (MAX_BLOCK_OPERATIONS <? Z.of_nat (length (mb_indices missing))) with MissingRequest;
        operations ← collect (fun index =>
          ok_or ((fun o => (index, o)) <$> b_operations (body block) !! Z.to_nat index) MissingIndex)
          (mb_indices missing);
        fail_if negb (forallb (fun p => encodable (operation_authorization p.2)) operations)
          with RelayCodec EncodeFailed;
        Ok (Reply (BLOCK_OPERATIONS_MESSAGE ::
                     w_enc wire_requested {| rb_block_hash := block_hash block; rb_operations := operations |})
              {| sv_operations := true; sv_block := sv_block state |})
      else if (tag =? GET_BLOCK_MESSAGE) && negb (sv_block state) then
        fail_if negb (bool_decide (payload = block_hash block)) with OtherBlock;
        encoded ← map_err RelayCodec (block_bytes block);
        Ok (Reply (BLOCK_MESSAGE :: encoded)
              {| sv_operations := sv_operations state; sv_block := true |})
      else Err UnexpectedCompact
  end.

(** The sender as the receiver's peer: its answer to the last of the frames. *)
Fixpoint serve_all (block : Block) (state : Serving) (frames : list (list Z)) : option (list Z) :=
  match frames with
  | [] => None
  | frame :: frames =>
      match serve block state frame with
      | Ok (Reply reply next) => match frames with [] => Some reply | _ => serve_all block next frames end
      | _ => None
      end
  end.

Definition relay_compact_block (block : Block) : Peer :=
  serve_all block {| sv_operations := false; sv_block := false |}.

(** ** The receiver *)

Context (network : Network) (minimums : ChainMinimums) (current : Totals) (disk : bool).

(** [current] is the cached total of the canonical headers. *)
Definition accept_relayed_block (bytes : list Z) (self : Node) : Node * Run RelayError unit :=
  match decode_block bytes with
  | Err e => (self, Returned (Err (InvalidRelayed e)))
  | Ok block =>
      let ledger := nd_ledger self in
      if decide (tip_hash (g_chain ledger) = Some (block_hash block)) then (self, Returned (Ok tt))
      else if negb (bool_decide (tip_hash (g_chain ledger) = Some (previous_hash (header block))))
      then (self, Returned (Err RelayResync))
      else
        match block_work (target_bits (header block)) with
        | None => (self, Returned (Err RelayTargetBits))
        | Some work =>
            if negb (minimums_allow minimums (Work.saturating_add (to_work current) work)
                       (saturating_add 64 (to_weight current) (block_weight (header block))))
            then (self, Returned (Err BelowMinimums))
            else
              match apply_block ledger_consensus_error None block ledger with
              | (_, Err Unwound) => (self, Panicked)
              | (_, Err e) => (self, Returned (Err (InvalidRelayedBlock e)))
              | (ledger, Ok _) =>
                  match
                    ids ← collect (fun o => map_err RelayCodec (operation_id o)) (b_operations (body block));
                    loaded ← map_err RelayNode (load_pending_pool (nd_stored self) (nd_cache self));
                    Ok (list_to_set ids : gset Hash, loaded)
                  with
                  | Err e => (self, Returned (Err e))
                  | Ok (included, (pool, cache)) =>
                      let self := with_pool (nd_stored self) cache self in
                      match
                        reconcile_pending_operations network ledger (pe_operation <$> pp_entries pool) included
                      with
                      | Panicked => (self, Panicked)
                      | Returned mempool =>
                          match encode_pending_operations mempool with
                          | Err e => (self, Returned (Err (RelayNode e)))
                          | Ok encoded =>
                              if disk
                              then ({| nd_ledger := ledger; nd_stored := encoded; nd_cache := nd_cache self;
                                       nd_rejections := nd_rejections self |}, Returned (Ok tt))
                              else (self, Returned (Err (RelayNode DiskError)))
                          end
                      end
                  end
              end
        end
  end.

Definition request_and_accept_gossip_block (peer : Peer) (sent : list (list Z)) (hash : Hash) (self : Node)
    : Node * Run RelayError unit :=
  match
    response ← exchange peer sent (GET_BLOCK_MESSAGE :: hash) (1 + MAX_STORED_BLOCK_SIZE);
    match response with
    | tag :: payload =>
        fail_if negb (tag =? BLOCK_MESSAGE) with UnexpectedGossip;
        block ← map_err InvalidGossip (decode_block payload);
        fail_if negb (bool_decide (block_hash block = hash)) with GossipMismatch;
        Ok payload
    | [] => Err UnexpectedGossip
    end
  with
  | Err e => (self, Returned (Err e))
  | Ok payload => accept_relayed_block payload self
  end.

Definition index_operation (keys : Z * Z) (index : gmap (list Z) (list BlockOperation))
    (operation : BlockOperation) : result CodecError (gmap (list Z) (list BlockOperation)) :=
  id ← operation_id operation;
  let short_id := compact_short_id keys id in
  Ok (<[short_id := default [] (index !! short_id) ++ [operation]]> index).

(** The loop over the operations the sender returned; [None] asks for the full
    block. *)
Fixpoint fill_missing (keys : Z * Z) (short_ids : list (list Z)) (missing : list Z)
    (response : list (Z * BlockOperation)) (operations : list (option BlockOperation))
    : option (list (option BlockOperation)) :=
  match missing, response with
  | expected :: missing, (index, operation) :: response =>
      if negb (expected =? index) || (Z.of_nat (length operations) <=? index) then None
      else
        match operation_id operation with
        | Err _ => None
        | Ok id =>
            if decide (short_ids !! Z.to_nat index = Some (compact_short_id keys id))
            then fill_missing keys short_ids missing response (<[Z.to_nat index := Some operation]> operations)
            else None
        end
  | _, _ => Some operations
  end.

Definition with_header (b : Block) (h : Header) : Block := {| header := h; height := height b; body := body b |}.

Definition reconstruct_compact_block (compact : CompactBlock) (operations : list (option BlockOperation))
    : option Block :=
  operations ← mapM id operations;
  match
    from_protocol_operations (cb_height compact) (previous_hash (cb_header compact))
      (target_bits (cb_header compact)) (h_nonce (cb_header compact)) (cb_emission compact) operations
  with
  | Err _ => None
  | Ok block =>
      let block := with_header block (cb_header compact) in
      if decide (block_hash block = cb_block_hash compact) then Some block else None
  end.

(** The operations of the announced block as far as the receiver can tell:
    [None] asks for the full block. *)
Definition gather_operations (peer : Peer) (compact : CompactBlock) (keys : Z * Z)
    (index : gmap (list Z) (list BlockOperation))
    : list (list Z) * result RelayError (option (list (option BlockOperation))) :=
  let '(operations, missing) := match_short_ids (cb_short_ids compact) index in
  if (length missing =? 0)%nat then ([], Ok (Some operations))
  else
    let request := GET_BLOCK_OPERATIONS_MESSAGE ::
      w_enc wire_missing {| mb_block_hash := cb_block_hash compact; mb_indices := missing |} in
    ([request],
     response ← exchange peer [] request (1 + MAX_STORED_BLOCK_SIZE + 32 * 1024);
     match response with
     | tag :: payload =>
         if negb (tag =? BLOCK_OPERATIONS_MESSAGE) then Ok None
         else
           match w_slice wire_requested payload with
           | None => Ok None
           | Some response =>
               if negb (bool_decide (rb_block_hash response = cb_block_hash compact))
                  || negb (length (rb_operations response) =? length missing)%nat
               then Ok None
               else Ok (fill_missing keys (cb_short_ids compact) missing (rb_operations response) operations)
           end
     | [] => Ok None
     end).

Definition accept_compact_block (peer : Peer) (bytes : list Z) (self : Node) : Node * Run RelayError unit :=
  if MAX_STORED_BLOCK_SIZE <? Z.of_nat (length bytes) then (self, Returned (Err CompactSize))
  else
    match w_slice wire_compact bytes with
    | None => (self, Returned (Err InvalidCompact))
    | Some compact =>
        if MAX_BLOCK_OPERATIONS <? Z.of_nat (length (cb_short_ids compact))
        then (self, Returned (Err CompactCount))
        else if negb (bool_decide (NoDup (cb_short_ids compact)))
        then request_and_accept_gossip_block peer [] (cb_block_hash compact) self
        else
          let keys := short_id_keys (cb_block_hash compact) (cb_salt compact) in
          match load_pending_pool (nd_stored self) (nd_cache self) with
          | Err e => (self, Returned (Err (RelayNode e)))
          | Ok (pool, cache) =>
              let self := with_pool (nd_stored self) cache self in
              match try_fold (index_operation keys) (pool_calls pool) ∅ with
              | Err e => (self, Returned (Err (RelayCodec e)))
              | Ok index =>
                  match gather_operations peer compact keys index with
                  | (_, Err e) => (self, Returned (Err e))
                  | (sent, Ok None) => request_and_accept_gossip_block peer sent (cb_block_hash compact) self
                  | (sent, Ok (Some operations)) =>
                      match reconstruct_compact_block compact operations with
                      | None => request_and_accept_gossip_block peer sent (cb_block_hash compact) self
                      | Some block =>
                          match block_bytes block with
                          | Err e => (self, Returned (Err (RelayCodec e)))
                          | Ok encoded => accept_relayed_block encoded self
                          end
                      end
                  end
              end
          end
    end.
End relay.

(** The published vector of SipHash-2-4 for the empty message. *)
Lemma siphash24_reference :
  siphash24 (0x0706050403020100, 0x0f0e0d0c0b0a0908) [] = 0x726fdb47dd0e0e31.
Proof. vm_compute. reflexivity. Qed.
