(* ===== verification/CompactRelayProps.v ===== *)
(** * Compact relay is as good as sending the block

    Between an honest sender and a receiver whose pending operations do not
    collide with the block's on their short identifiers, relaying a compact block
    has the effect of relaying the block itself; and whatever a peer sends, what
    the receiver commits is a valid block with the announced hash. *)

From S2P Require Import Prelude Target Work Codec Monetary Index Coin Vm Registry Calls Wire Authorize Policy Block Chain Consensus.
From S2P Require Import Fork HeaderSync HeaderCheckpoints Assets State StateRoot CoinHost AssetHost Settlement Engine SettleFacts.
From S2P Require Import EngineProps VmTypes Apply ApplyFacts Growth Ledger LedgerProps Genesis Mempool MempoolProps Mining MiningProps.
From S2P Require Import BranchSync BranchSyncProps CompactRelay.
#[local] Open Scope Z_scope.
#[local] Opaque siphash24.

(** ** Matching *)

Section matching.
Context (ops : list BlockOperation).

(** A partial list of the block's operations: what is known is right, and what
    is not known is asked for. *)
Record partial (found : list (option BlockOperation)) (missing : list Z) : Prop := {
  pa_length : length found = length ops;
  pa_found : forall i o, found !! i = Some (Some o) -> ops !! i = Some o;
  pa_missing : forall i, found !! i = Some None -> Z.of_nat i ∈ missing;
}.

Lemma partial_complete found : partial found [] -> mapM id found = Some ops.
Proof.
  intros [Hl Hf Hm]. apply mapM_Some, Forall2_same_length_lookup. split; [done|].
  intros i x o Hx Ho. destruct x as [o'|]; cbn; [|by apply Hm, not_elem_of_nil in Hx].
  apply Hf in Hx. congruence.
Qed.

(** What is asked for: the operations the index does not settle. *)
Lemma match_asked (sid : BlockOperation -> list Z) (index : gmap (list Z) (list BlockOperation)) :
  forall k p, p = Z.of_nat k -> Z.of_nat (length ops) < 2 ^ 32 ->
  let missing := (match_short_ids_from p (sid <$> drop k ops) index).2 in
  Forall (fun z => Z.of_nat k <= z < Z.of_nat (length ops)) missing /\
  exists asked, Forall2 (fun z o => ops !! Z.to_nat z = Some o) missing asked /\ asked `sublist_of` drop k ops /\
    Forall (fun o => forall x, index !! sid o <> Some [x]) asked.
Proof.
  intros k p Hp Hlen. remember (drop k ops) as rest eqn:Hrest. revert k p Hp Hrest.
  induction rest as [|o rest IH]; intros k p Hp Hrest; cbn [fmap list_fmap match_short_ids_from].
  { split; [constructor|]. by exists []. }
  assert (ops !! k = Some o) as Hko.
  { rewrite <- (Nat.add_0_r k), <- lookup_drop, <- Hrest. done. }
  specialize (IH (S k) (p + 1) ltac:(lia)). cbn beta in IH.
  destruct (match_short_ids_from (p + 1) (sid <$> rest) index) as [found missing]. cbn [snd] in *.
  destruct IH as (Hb & asked & Hask & Hsub & Hno).
  { rewrite <- Nat.add_1_r, <- drop_drop, <- Hrest. done. }
  pose proof (lookup_lt_Some _ _ _ Hko) as Hlt.
  assert (Forall (fun z => Z.of_nat k <= z < Z.of_nat (length ops)) missing) as Hb'
    by (eapply Forall_impl; [exact Hb|]; cbn; intros; lia).
  assert (wrap 32 p = Z.of_nat k) as Hw by (subst p; unfold wrap; rewrite Z.mod_small; lia).
  destruct (index !! sid o) as [[|o1 [|]]|] eqn:Hi; cbn [snd].
  2: { split; [done|]. exists asked. split_and!; [done|by apply sublist_cons|done]. }
  all: rewrite Hw; split; [by constructor; [lia|]|].
  all: exists (o :: asked); split_and!; [constructor; [by rewrite Nat2Z.id|done]|by apply sublist_skip|].
  all: constructor; [by rewrite Hi|done].
Qed.

(** Every operation the index gives is one of the list. *)
Lemma match_partial (sid : BlockOperation -> list Z) (index : gmap (list Z) (list BlockOperation)) :
  forall k p, p = Z.of_nat k -> Z.of_nat (length ops) < 2 ^ 32 ->
  (forall o o', index !! sid o = Some [o'] -> o ∈ ops -> o' = o) ->
  let '(found, missing) := match_short_ids_from p (sid <$> drop k ops) index in
  length found = length (drop k ops) /\
  (forall i o, found !! i = Some (Some o) -> ops !! (k + i)%nat = Some o) /\
  (forall i, found !! i = Some None -> Z.of_nat (k + i) ∈ missing).
Proof.
  intros k p Hp Hlen Hidx. remember (drop k ops) as rest eqn:Hrest. revert k p Hp Hrest.
  induction rest as [|o rest IH]; intros k p Hp Hrest; cbn [fmap list_fmap match_short_ids_from].
  { split_and!; [done|by intros i o; rewrite lookup_nil|by intros i; rewrite lookup_nil]. }
  assert (ops !! k = Some o) as Hko.
  { rewrite <- (Nat.add_0_r k), <- lookup_drop, <- Hrest. done. }
  specialize (IH (S k) (p + 1) ltac:(lia)). cbn beta in IH.
  destruct (match_short_ids_from (p + 1) (sid <$> rest) index) as [found missing].
  destruct IH as (Hl & Hf & Hm).
  { rewrite <- Nat.add_1_r, <- drop_drop, <- Hrest. done. }
  pose proof (lookup_lt_Some _ _ _ Hko) as Hlt.
  assert (wrap 32 p = Z.of_nat k) as Hw by (subst p; unfold wrap; rewrite Z.mod_small; lia).
  destruct (index !! sid o) as [[|o1 [|]]|] eqn:Hi.
  2: { split_and!; [by cbn; rewrite Hl| |].
       - intros [|i] o' Hx; cbn in Hx; [injection Hx as <-; rewrite Nat.add_0_r|].
         + rewrite (Hidx o o1 Hi); [done|by eapply list_elem_of_lookup_2].
         + rewrite <- Nat.add_succ_comm. by apply Hf.
       - intros [|i] Hx; [done|]. rewrite <- Nat.add_succ_comm. by apply Hm. }
  all: rewrite Hw; split_and!; [by cbn; rewrite Hl| |].
  all: intros [|i].
  all: try (intros Hx; rewrite Nat.add_0_r; by left).
  all: intros; rewrite <- ?Nat.add_succ_comm; first [done|by apply Hf|right; by apply Hm].
Qed.
End matching.

Section relay.
Context `{Sha3} {Hspec : Sha3Spec} `{Argon2} `{SignatureBackend} `{RootTest} {Hroot : RootTestSpec}.

Definition op_id (o : BlockOperation) : Hash := domain Operation (w_enc wire_operation o).

Lemma wf_operation_id o : w_wf wire_operation o -> operation_id o = Ok (op_id o).
Proof. intros Hw. unfold operation_id, operation_bytes. by rewrite wf_encodable. Qed.

Definition sid (keys : Z * Z) (o : BlockOperation) : list Z := compact_short_id keys (op_id o).

Lemma short_id_wf keys o : length (sid keys o) = 6%nat /\ bytes_wf (sid keys o).
Proof.
  unfold sid, compact_short_id. rewrite length_take, length_le_bytes. split; [done|].
  apply Forall_take, le_bytes_wf.
Qed.

(** The index holds under each short identifier the calls that have it. *)
Lemma index_Ok keys calls : forall index,
  Forall (w_wf wire_operation) calls ->
  exists index', try_fold (index_operation keys) calls index = Ok index' /\
    forall s, default [] (index' !! s) = default [] (index !! s) ++ filter (fun o => sid keys o = s) calls.
Proof.
  induction calls as [|o calls IH]; intros index Hw; cbn [try_fold].
  { exists index. split; [done|]. intros s. by rewrite app_nil_r. }
  apply Forall_cons in Hw as [Ho Hw].
  set (index1 := <[sid keys o := default [] (index !! sid keys o) ++ [o]]> index).
  assert (index_operation keys index o = Ok index1) as ->
    by (unfold index_operation; by rewrite wf_operation_id).
  cbn [mbind result_mbind]. destruct (IH index1 Hw) as (index' & -> & Hi). exists index'. split; [done|].
  intros s. rewrite Hi, filter_cons. subst index1. case_decide as Hs.
  - subst s. rewrite lookup_insert_eq. cbn [from_option Datatypes.id]. by rewrite <- app_assoc.
  - by rewrite lookup_insert_ne.
Qed.

(** The operations the receiver ends up with: the pending call with the short
    identifier, when there is exactly one, in the place of the block's. *)
Definition heard (keys : Z * Z) (calls ops : list BlockOperation) : list BlockOperation :=
  (fun o => match filter (fun x => sid keys x = sid keys o) calls with [x] => x | _ => o end) <$> ops.

Lemma heard_sid keys calls ops : sid keys <$> heard keys calls ops = sid keys <$> ops.
Proof.
  unfold heard. rewrite <- list_fmap_compose. apply list_fmap_ext. intros i o _. unfold compose.
  destruct (filter _ calls) as [|x [|]] eqn:Hf; [done| |done].
  assert (x ∈ filter (fun x => sid keys x = sid keys o) calls) as Hx by (rewrite Hf; by left).
  by apply list_elem_of_filter in Hx as [Hx _].
Qed.

Lemma heard_from keys calls ops x : x ∈ heard keys calls ops -> x ∈ calls \/ x ∈ ops.
Proof.
  intros (o & -> & Ho)%list_elem_of_fmap. destruct (filter _ calls) as [|x [|]] eqn:Hf; [by right| |by right].
  left. assert (x ∈ filter (fun x => sid keys x = sid keys o) calls) as Hx by (rewrite Hf; by left).
  by apply list_elem_of_filter in Hx as [_ Hx].
Qed.

(** What the sender returns completes the list. *)
Lemma fill_Ok keys ops missing : forall response found,
  Forall (w_wf wire_operation) ops -> Forall (fun z => 0 <= z < Z.of_nat (length ops)) missing ->
  Forall2 (fun z p => p.1 = z /\ ops !! Z.to_nat z = Some p.2) missing response ->
  partial ops found missing ->
  exists found', fill_missing keys (sid keys <$> ops) missing response found = Some found' /\
    partial ops found' [].
Proof.
  induction missing as [|z missing IH]; intros response found Hw Hb Hr Hp;
    inversion Hr as [|? [i o] ? response' [Hz Ho] Hr']; subst; cbn [fill_missing].
  { by exists found. }
  cbn [fst snd] in *. apply Forall_cons in Hb as [Hz Hb]. rewrite Z.eqb_refl. cbn [negb orb].
  rewrite (proj2 (Z.leb_gt _ _)) by (rewrite (pa_length _ _ _ Hp); lia).
  rewrite wf_operation_id by (by eapply Forall_lookup_1). fold (sid keys o).
  rewrite list_lookup_fmap, Ho. cbn. rewrite decide_True by done. apply IH; [done|done|done|].
  destruct Hp as [Hl Hf Hm]. split; [by rewrite length_insert| |].
  - intros j o' [(<- & [= <-] & _)|[_ Hj]]%list_lookup_insert_Some; [done|by apply Hf].
  - intros j [(_ & [=] & _)|[Hne Hj]]%list_lookup_insert_Some.
    apply Hm in Hj. apply elem_of_cons in Hj as [Hj|]; [|done]. lia.
Qed.

(** ** Frames *)

Lemma w_slice_enc {A} (w : Wire A) a : w_wf w a -> w_slice w (w_enc w a) = Some a.
Proof. intros Ha. unfold w_slice. rewrite <- (app_nil_r (w_enc w a)), w_dec_enc by done. done. Qed.

Lemma wf_block_bytes b : w_wf wire_block b -> block_bytes b = Ok (w_enc wire_block b).
Proof. intros Hw. unfold block_bytes. by rewrite wf_block_encodable. Qed.

Lemma decode_valid b :
  w_wf wire_block b -> block_validate b = Ok tt -> decode_block (w_enc wire_block b) = Ok b.
Proof.
  intros Hw Hv. destruct (block_validate_Ok b Hv) as (_ & _ & _ & (bytes & Hb & Hl) & _).
  rewrite (wf_block_bytes b Hw) in Hb. apply Ok_inj in Hb as <-.
  unfold decode_block, guard_err. rewrite (proj2 (Z.ltb_ge _ _)), w_slice_enc by (done || lia).
  cbn [ok_or mbind result_mbind]. by rewrite Hv.
Qed.

Lemma header_length h : w_wf wire_header h -> length (w_enc wire_header h) = 112%nat.
Proof.
  intros ([Hp _] & [Hm _] & [Hs _] & _). cbn [w_enc wire_header wire_struct wire_convert wire_pair wire_dep
    wire_hash wire_raw wire_uint fst snd]. rewrite !length_app, !length_le_bytes. cbn [fst snd] in *.
  rewrite Hp, Hm, Hs. done.
Qed.

(** A valid block in bytes: its operations and a little more. *)
Lemma block_length b :
  w_wf wire_block b ->
  operations_size (b_operations (body b)) + 112 <= Z.of_nat (length (w_enc wire_block b)).
Proof.
  intros Hw. cbn [w_enc wire_block wire_struct wire_convert wire_pair wire_dep fst snd].
  rewrite !length_app, header_length by apply Hw. rewrite !Nat2Z.inj_add, length_operations. lia.
Qed.

Lemma vec_length {A} (enc : A -> list Z) (k : Z) l :
  Forall (fun a => Z.of_nat (length (enc a)) = k) l ->
  Z.of_nat (length (enc_vec enc l)) = 4 + k * Z.of_nat (length l).
Proof.
  intros Hl. unfold enc_vec. rewrite length_app, length_le_bytes, Nat2Z.inj_add. f_equal.
  induction Hl as [|a l Ha _ IH]; [cbn; lia|]. cbn [fmap list_fmap concat length]. rewrite length_app. lia.
Qed.

Section block.
Context (b : Block) (Hw : w_wf wire_block b) (Hv : block_validate b = Ok tt).
Context (salt : Z) (Hsalt : fits 64 salt).

Definition announced : CompactBlock :=
  {| cb_block_hash := block_hash b; cb_header := header b; cb_height := height b;
     cb_emission := b_emission (body b); cb_salt := salt;
     cb_short_ids := sid (short_id_keys (block_hash b) salt) <$> b_operations (body b) |}.

Lemma operations_wf : Forall (w_wf wire_operation) (b_operations (body b)).
Proof using Hw. destruct Hw as (_ & _ & _ & _ & Hops). eapply Forall_impl; [exact Hops|]. by intros o []. Qed.

Lemma operations_count : Z.of_nat (length (b_operations (body b))) <= MAX_BLOCK_OPERATIONS.
Proof using Hv. by destruct (block_validate_Ok b Hv) as (Hl & _). Qed.

Lemma block_fits : Z.of_nat (length (w_enc wire_block b)) <= MAX_BLOCK_SIZE.
Proof using Hv Hw.
  destruct (block_validate_Ok b Hv) as (_ & _ & _ & (bytes & Hb & Hl) & _).
  rewrite (wf_block_bytes b Hw) in Hb. apply Ok_inj in Hb as <-. lia.
Qed.

Lemma compact_block_Ok : compact_block b salt = Ok announced.
Proof using Hw.
  unfold compact_block. erewrite (collect_Ok _ (sid (short_id_keys (block_hash b) salt))); [done|].
  eapply Forall_impl; [exact operations_wf|]. intros o Ho. by rewrite wf_operation_id.
Qed.

Lemma announced_wf : w_wf wire_compact announced.
Proof using Hspec Hv Hw Hsalt.
  pose proof operations_count as Hc. destruct Hw as (Hh & Hz & He & _).
  split; [apply (sha3_wf _)|]. split; [exact Hh|]. split; [exact Hz|]. split; [exact He|].
  split; [exact Hsalt|]. cbn [snd cb_short_ids announced]. split.
  - cbn [announced cb_short_ids]. rewrite length_fmap. unfold MAX_BLOCK_OPERATIONS in Hc. lia.
  - apply Forall_fmap, Forall_true. intros o. apply short_id_wf.
Qed.

Lemma announced_fits : Z.of_nat (length (w_enc wire_compact announced)) <= MAX_STORED_BLOCK_SIZE.
Proof using Hspec Hv Hw.
  pose proof operations_count as Hc. destruct Hw as (Hh & _ & He & _).
  cbn [w_enc wire_compact wire_struct wire_convert wire_pair wire_dep fst snd announced cb_block_hash cb_header
    cb_height cb_emission cb_salt cb_short_ids].
  rewrite !length_app, header_length, !Nat2Z.inj_add by exact Hh. cbn [w_enc wire_vec].
  rewrite (vec_length _ 6).
  2: { apply Forall_fmap, Forall_true. intros o.
       exact (f_equal Z.of_nat (proj1 (short_id_wf (short_id_keys (block_hash b) salt) o))). }
  rewrite length_fmap.
  assert (length (w_enc wire_hash (block_hash b)) = 32%nat) as -> by exact (proj1 (sha3_wf _)).
  assert (forall x, length (w_enc (wire_uint 8) x) = 8%nat) as Hu by (intros; apply length_le_bytes).
  rewrite !Hu.
  assert (Z.of_nat (length (w_enc (wire_option wire_emission) (b_emission (body b)))) <= 41) as Hem.
  { destruct (b_emission (body b)) as [e|]; [|cbn; lia]. destruct He as [[Hto _] _].
    cbn [w_enc wire_option wire_struct wire_convert wire_either wire_emission wire_pair wire_dep wire_hash
      wire_raw wire_uint fst snd length]. rewrite length_app, length_le_bytes. cbn [fst] in Hto. rewrite Hto.
    cbn. lia. }
  unfold MAX_STORED_BLOCK_SIZE, MAX_BLOCK_SIZE, MAX_BLOCK_OPERATIONS in *. lia.
Qed.

Lemma reconstruct_Ok operations :
  mapM id operations = Some (b_operations (body b)) ->
  reconstruct_compact_block announced operations = Some b.
Proof using Hv Hw.
  intros Ho. unfold reconstruct_compact_block. rewrite Ho. cbn [mbind option_bind].
  destruct (block_validate_Ok b Hv) as (_ & _ & _ & (bytes & Hb & Hl) & _ & Hmr).
  cbn [announced cb_height cb_header cb_emission].
  unfold from_protocol_operations. rewrite Hmr. cbn [mbind result_mbind].
  assert (exists B, refresh_block_weight
    {| header := {| previous_hash := previous_hash (header b); h_merkle_root := h_merkle_root (header b);
                    h_state_root := replicate HASH_SIZE 0; target_bits := target_bits (header b);
                    block_weight := 0; h_nonce := h_nonce (header b) |};
       height := height b;
       body := {| b_emission := b_emission (body b); b_operations := b_operations (body b) |} |} = Ok B /\
    height B = height b /\ body B = body b) as (B & -> & HB1 & HB2).
  { pose proof (reheader_size b (replicate HASH_SIZE 0) 0 (h_nonce (header b))) as Hsz.
    destruct Hw as ((_ & _ & [Hs _] & _) & _). cbn [fst snd] in Hs.
    rewrite length_replicate, Hs in Hsz. specialize (Hsz eq_refl).
    unfold refresh_block_weight.
    match goal with |- context [block_size ?x] =>
      replace x with (reheader b (replicate HASH_SIZE 0) 0 (h_nonce (header b)))
        by (by destruct b as [[] ? []]) end.
    rewrite Hsz. unfold block_size. rewrite Hb. cbn [mbind result_mbind]. unfold try_from.
    unfold MAX_BLOCK_SIZE in Hl.
    rewrite (proj2 (Z.ltb_lt _ _)) by lia. cbn [ok_or mbind result_mbind]. eexists. split; [reflexivity|].
    by destruct b as [[] ? []]. }
  replace (with_header B (header b)) with b
    by (unfold with_header; rewrite HB1, HB2; by destruct b as [[] ? []]).
  by rewrite decide_True.
Qed.

(** ** The sender's answers *)

Lemma serves_block : relay_compact_block b [GET_BLOCK_MESSAGE :: block_hash b] = Some (BLOCK_MESSAGE :: w_enc wire_block b).
Proof using Hspec Hw.
  unfold relay_compact_block. cbn [serve_all]. unfold serve, guard_err. cbn [length].
  rewrite (proj1 (sha3_wf _) : length (block_hash b) = 32%nat).
  rewrite bool_decide_eq_true_2, wf_block_bytes by done. done.
Qed.

Definition missing_request (missing : list Z) : list Z :=
  GET_BLOCK_OPERATIONS_MESSAGE :: w_enc wire_missing {| mb_block_hash := block_hash b; mb_indices := missing |}.

Lemma asked_collect missing asked :
  Forall2 (fun z o => b_operations (body b) !! Z.to_nat z = Some o) missing asked ->
  collect (fun index => ok_or ((fun o => (index, o)) <$> b_operations (body b) !! Z.to_nat index) MissingIndex)
    missing = Ok (zip missing asked).
Proof.
  induction 1 as [|z o missing asked Ho _ IH]; [done|]. cbn [collect zip zip_with].
  rewrite Ho. cbn [fmap option_fmap option_map ok_or mbind result_mbind]. by rewrite IH.
Qed.

Lemma requested_length missing asked :
  length missing = length asked -> length (block_hash b) = 32%nat ->
  Z.of_nat (length (w_enc wire_requested {| rb_block_hash := block_hash b; rb_operations := zip missing asked |}))
  = 36 + 4 * Z.of_nat (length asked) + operations_size asked.
Proof.
  intros Hl Hh. cbn [w_enc wire_requested wire_struct wire_convert wire_pair wire_dep wire_hash wire_raw wire_vec
    fst snd rb_block_hash rb_operations]. rewrite length_app, Hh. unfold enc_vec. rewrite length_app, length_le_bytes.
  enough (Z.of_nat (length (concat (w_enc (wire_pair (wire_uint 4) wire_operation) <$> zip missing asked)))
    = 4 * Z.of_nat (length asked) + operations_size asked) as He.
  { cbn [w_enc wire_pair wire_dep] in He. lia. }
  revert missing Hl. induction asked as [|o asked IH]; intros [|z missing] Hl; try done.
  cbn [zip zip_with fmap list_fmap concat length]. rewrite length_app.
  unfold operations_size in *. rewrite fmap_cons, zsum_cons. injection Hl as Hl. specialize (IH missing Hl).
  cbn [w_enc wire_pair wire_dep wire_uint fst snd] in *. rewrite length_app, length_le_bytes. lia.
Qed.

Lemma serves_operations missing asked :
  Forall (fun z => 0 <= z < Z.of_nat (length (b_operations (body b)))) missing ->
  Forall2 (fun z o => b_operations (body b) !! Z.to_nat z = Some o) missing asked ->
  asked `sublist_of` b_operations (body b) ->
  exists reply, relay_compact_block b [missing_request missing] = Some (BLOCK_OPERATIONS_MESSAGE :: reply) /\
    w_slice wire_requested reply = Some {| rb_block_hash := block_hash b; rb_operations := zip missing asked |} /\
    Z.of_nat (length reply) <= MAX_STORED_BLOCK_SIZE + 32 * 1024.
Proof using Hspec Hv Hw.
  intros Hb Ha Hsub. pose proof operations_count as Hc. pose proof (Forall2_length _ _ _ Ha) as Hla.
  pose proof (sublist_length _ _ Hsub) as Hls. unfold MAX_BLOCK_OPERATIONS in Hc.
  assert (w_wf wire_missing {| mb_block_hash := block_hash b; mb_indices := missing |}) as Hmw.
  { split; [apply (sha3_wf _)|]. cbn [snd mb_indices]. split; [cbn [snd mb_indices]; lia|].
    eapply Forall_impl; [exact Hb|]. cbn. intros z Hz. lia. }
  assert (Forall (w_wf wire_operation) asked) as Haw.
  { apply Forall_forall. intros o Ho. pose proof operations_wf as Hf. rewrite Forall_forall in Hf.
    by eapply Hf, elem_of_sublist. }
  eexists. split; [|split].
  - unfold relay_compact_block. cbn [serve_all]. unfold serve, missing_request, guard_err.
    assert (Z.of_nat (length (w_enc wire_missing {| mb_block_hash := block_hash b; mb_indices := missing |}))
      = 36 + 4 * Z.of_nat (length missing)) as Hlen.
    { cbn [w_enc wire_missing wire_struct wire_convert wire_pair wire_dep wire_hash wire_raw fst snd
        mb_block_hash mb_indices]. rewrite length_app, (proj1 (sha3_wf _) : length (block_hash b) = 32%nat).
      cbn [w_enc wire_vec]. rewrite Nat2Z.inj_add, (vec_length _ 4); [lia|].
      apply Forall_true. intros z. cbn [w_enc wire_uint]. by rewrite length_le_bytes. }
    cbn [length]. rewrite (proj2 (Nat.eqb_neq _ _)) by lia. cbn [orb].
    rewrite (proj2 (Z.ltb_ge _ _)) by (unfold MAX_STORED_BLOCK_SIZE, MAX_BLOCK_SIZE; lia).
    change (GET_BLOCK_OPERATIONS_MESSAGE =? ACCEPTED_MESSAGE) with false.
    change (GET_BLOCK_OPERATIONS_MESSAGE =? REJECTED_MESSAGE) with false. cbv iota.
    rewrite Z.eqb_refl. cbn [negb sv_operations sv_block andb].
    rewrite w_slice_enc by exact Hmw. cbn [ok_or mbind result_mbind mb_block_hash mb_indices].
    rewrite bool_decide_eq_true_2 by done. cbn [negb orb].
    rewrite (proj2 (Z.ltb_ge _ _)) by (unfold MAX_BLOCK_OPERATIONS; lia).
    rewrite (asked_collect _ _ Ha). cbn [mbind result_mbind].
    rewrite (proj2 (forallb_forall _ _)); [reflexivity|].
    intros [z o] Hin%list_elem_of_In. cbn [snd]. apply wf_encodable. rewrite Forall_forall in Haw. apply Haw.
    by apply elem_of_zip_r in Hin.
  - apply w_slice_enc. split; [apply (sha3_wf _)|]. cbn [snd rb_operations]. split.
    { cbn [snd rb_operations]. rewrite length_zip_with_l_eq by done. lia. }
    clear -Hb Haw Hc Ha. revert asked Ha Haw. induction Hb as [|z missing Hz _ IH]; intros asked Ha Haw;
      [constructor|]. inversion Ha; subst. inversion Haw; subst. cbn [zip zip_with]. constructor; [|by apply IH].
    split; [cbn; lia|done].
  - rewrite requested_length by (done || apply (sha3_wf _)).
    assert (operations_size asked <= operations_size (b_operations (body b))) as Hos.
    { apply zsum_sublist; [|by apply fmap_sublist]. apply Forall_fmap, Forall_true. cbn. lia. }
    pose proof (block_length b Hw). pose proof block_fits.
    unfold MAX_STORED_BLOCK_SIZE, MAX_BLOCK_SIZE in *. lia.
Qed.
End block.

(** ** The receiver *)

Context (network : Network) (minimums : ChainMinimums) (current : Totals) (disk : bool).

(** What is seen of an attempt: the ledger, the table and the answer. *)
Definition observable (x : Node * Run RelayError unit) : Ledger * list (list Z) * Run RelayError unit :=
  (nd_ledger x.1, nd_stored x.1, x.2).

Lemma accept_relayed_cache bytes n cache :
  Forall bytes_wf (nd_stored n) -> (forall p, nd_cache n = Some p -> pool_ok p) ->
  (forall p, cache = Some p -> pool_ok p) ->
  observable (accept_relayed_block network minimums current disk bytes (with_pool (nd_stored n) cache n))
  = observable (accept_relayed_block network minimums current disk bytes n).
Proof.
  intros Hs Hc Hc'. unfold accept_relayed_block. cbn [nd_ledger nd_stored nd_cache with_pool].
  destruct (decode_block bytes) as [b|]; [|done]. case_decide; [done|]. case_match; [done|].
  destruct (block_work _); [|done]. case_match; [done|].
  destruct (apply_block _ _ _ _) as [ledger [|[]]]; [|done..].
  destruct (collect _ _) as [ids|]; [|done]. cbn [mbind result_mbind].
  pose proof (load_transparent (nd_stored n) (nd_cache n) Hs Hc) as H1'.
  pose proof (load_transparent (nd_stored n) cache Hs Hc') as H2'.
  destruct (load_pending_pool (nd_stored n) (nd_cache n)) as [[p c]|e], (load_pending_pool (nd_stored n) cache) as [[p' c']|e'];
    cbn [map_err mbind result_mbind]; [|destruct H1' as [H1' _]; congruence|destruct H2' as [H2' _]; congruence|].
  - destruct H1' as [H1' _], H2' as [H2' _]. rewrite H1' in H2'. apply Ok_inj in H2'.
    apply (f_equal pp_entries) in H2'. cbn in H2'. rewrite H2'.
    destruct (reconcile_pending_operations _ _ _ _) as [mempool|]; [|done].
    destruct (encode_pending_operations _); [|done]. by destruct disk.
  - rewrite H1' in H2'. by injection H2' as ->.
Qed.

Lemma fallback_exact b n :
  w_wf wire_block b -> block_validate b = Ok tt ->
  request_and_accept_gossip_block network minimums current disk (relay_compact_block b) [] (block_hash b) n
  = accept_relayed_block network minimums current disk (w_enc wire_block b) n.
Proof using Hspec.
  intros Hw Hv. unfold request_and_accept_gossip_block, exchange. cbn [app].
  rewrite serves_block by done. cbn [ok_or mbind result_mbind]. unfold guard_err.
  pose proof (block_fits b Hw Hv) as Hf. cbn [length]. rewrite (proj2 (Nat.eqb_neq _ _)) by lia. cbn [orb].
  rewrite (proj2 (Z.ltb_ge _ _)) by (unfold MAX_STORED_BLOCK_SIZE; lia).
  cbn [mbind result_mbind]. rewrite Z.eqb_refl. cbn [negb]. rewrite decode_valid by done. cbn [map_err mbind result_mbind]. by rewrite bool_decide_eq_true_2.
Qed.

(** The receiver ends up with [ops] when the index can only give operations of
    [ops] and [ops] is the block's where the index gives none. *)
Lemma gather_exact (b : Block) (salt : Z) (index : gmap (list Z) (list BlockOperation)) ops :
  w_wf wire_block b -> block_validate b = Ok tt ->
  let keys := short_id_keys (block_hash b) salt in
  Forall (w_wf wire_operation) ops -> sid keys <$> ops = sid keys <$> b_operations (body b) ->
  (forall o o', index !! sid keys o = Some [o'] -> o ∈ ops -> o' = o) ->
  (forall i o, b_operations (body b) !! i = Some o -> (forall x, index !! sid keys o <> Some [x]) ->
     ops !! i = Some o) ->
  exists sent operations,
    gather_operations (relay_compact_block b) (announced b salt) keys index = (sent, Ok (Some operations)) /\
    mapM id operations = Some ops.
Proof using Hspec.
  intros Hw Hv keys Hwf Hsid Hidx Hrest. unfold gather_operations, match_short_ids.
  cbn [announced cb_short_ids cb_block_hash]. fold keys.
  pose proof (operations_count b Hv) as Hc. unfold MAX_BLOCK_OPERATIONS in Hc.
  assert (length ops = length (b_operations (body b))) as Hlen.
  { apply (f_equal length) in Hsid. by rewrite !length_fmap in Hsid. }
  pose proof (match_asked (b_operations (body b)) (sid keys) index 0 0 eq_refl ltac:(lia)) as Hask.
  pose proof (match_partial ops (sid keys) index 0 0 eq_refl ltac:(lia) Hidx) as Hm.
  rewrite drop_0 in Hm, Hask. rewrite Hsid in Hm.
  destruct (match_short_ids_from 0 _ index) as [found missing]. cbn [snd] in Hask.
  destruct Hask as (Hb & asked & Hask & Hsub & Hno). destruct Hm as (Hl & Hf & Hn).
  cbn [Nat.add] in *.
  assert (partial ops found missing) as Hp by done.
  destruct (length missing =? 0)%nat eqn:Hz.
  - apply Nat.eqb_eq, nil_length_inv in Hz as ->. exists [], found. split; [done|].
    by apply partial_complete.
  - destruct (serves_operations b Hw Hv missing asked Hb Hask Hsub) as (reply & Hr & Hs & Hlr).
    destruct (fill_Ok keys ops missing (zip missing asked) found Hwf) as (found' & Hfill & Hp');
      [by rewrite Hlen| |done|].
    { clear -Hask Hno Hrest. induction Hask; cbn [zip zip_with]; constructor.
      - apply Forall_cons in Hno as [Hno _]. split; [done|]. by apply Hrest.
      - apply Forall_cons in Hno as [_ Hno]. by apply IHHask. }
    rewrite Hsid in Hfill.
    eexists _, found'. split; [|by apply partial_complete]. f_equal. unfold exchange. cbn [app].
    fold (missing_request b missing). rewrite Hr. cbn [ok_or mbind result_mbind]. unfold guard_err.
    cbn [length]. rewrite (proj2 (Nat.eqb_neq _ _)) by lia. cbn [orb].
    rewrite (proj2 (Z.ltb_ge _ _)) by lia. cbn [mbind result_mbind]. rewrite Z.eqb_refl. cbn [negb]. rewrite Hs.
    cbn [rb_block_hash rb_operations]. rewrite bool_decide_eq_true_2 by done. cbn [negb orb].
    rewrite length_zip_with_l_eq, Nat.eqb_refl by (by apply Forall2_length in Hask). cbn [negb].
    by rewrite Hfill.
Qed.

(** The pool of a node, as the receiver reads it. *)
Lemma pool_read past n p :
  node_ok network past n -> load_cold (nd_stored n) = Ok p ->
  exists q, load_pending_pool (nd_stored n) (nd_cache n) = Ok (q, Some q) /\ pool_ok q /\
    pool_calls q = pool_calls p /\
    Forall (w_wf (wire_limited (Z.to_nat MAX_OPERATION_SIZE) wire_operation)) (pool_calls q).
Proof.
  intros Hn Hcold.
  pose proof (load_transparent (nd_stored n) (nd_cache n) (nk_stored _ _ _ Hn) (nk_cache _ _ _ Hn)) as Hload.
  destruct (load_pending_pool (nd_stored n) (nd_cache n)) as [[q cache]|]; [|congruence].
  destruct Hload as (Hq & Hqok & _ & -> & _). rewrite Hcold in Hq. apply Ok_inj in Hq as ->.
  exists q. split_and!; [done|done|done|].
  apply Forall_forall. intros o Ho%list_elem_of_In. apply filter_In in Ho as [Ho _].
  apply list_elem_of_In, list_elem_of_fmap in Ho as (e & -> & He).
  pose proof (pk_entries q Hqok) as Hes. rewrite Forall_forall in Hes. destruct (Hes e He) as [Hnew Hw Hsz].
  split; [done|]. rewrite (entry_bytes e (Hes e He)) in Hsz. apply Nat2Z.inj_le. rewrite Z2Nat.id by done. exact Hsz.
Qed.

(** (C10) Announcing a block is as good as sending it.  For every valid block and every
    salt the sender can announce it, and a receiver in any state it reaches, one
    whose pending calls do not share a short identifier with another operation of
    the block, ends with the ledger, the table and the answer that the full block
    would have left it with: whether it had all, some or none of the operations
    pending, and also when the block's own short identifiers collide and the
    receiver asks for the whole block. *)
Theorem compact_relay_exact past n p b salt :
  pool_reachable network (past, n) -> load_cold (nd_stored n) = Ok p ->
  w_wf wire_block b -> block_validate b = Ok tt -> fits 64 salt ->
  (forall o o' id id', o ∈ pool_calls p -> o' ∈ b_operations (body b) ->
     operation_id o = Ok id -> operation_id o' = Ok id' ->
     compact_short_id (short_id_keys (block_hash b) salt) id
       = compact_short_id (short_id_keys (block_hash b) salt) id' -> o = o') ->
  exists c, compact_block b salt = Ok c /\
    observable (accept_compact_block network minimums current disk (relay_compact_block b)
                  (w_enc wire_compact c) n)
    = observable (accept_relayed_block network minimums current disk (w_enc wire_block b) n).
Proof using Hspec.
  intros Hn%pool_reachable_ok Hcold Hw Hv Hsalt Hcol. cbn [fst snd] in Hn. exists (announced b salt).
  split; [by apply compact_block_Ok|]. unfold accept_compact_block.
  rewrite (proj2 (Z.ltb_ge _ _)) by (by apply announced_fits). rewrite w_slice_enc by (by apply announced_wf).
  pose proof (operations_count b Hv) as Hc.
  cbn [announced cb_short_ids cb_block_hash cb_salt]. rewrite length_fmap, (proj2 (Z.ltb_ge _ _)) by done.
  case_bool_decide as Hdup; cbn [negb]; [|by rewrite fallback_exact].
  set (keys := short_id_keys (block_hash b) salt) in *.
  destruct (pool_read past n p Hn Hcold) as (q & -> & Hqok & Hcalls & Hlim). rewrite <- Hcalls in Hcol.
  assert (Forall (w_wf wire_operation) (pool_calls q)) as Hwfc
    by (eapply Forall_impl; [exact Hlim|]; by intros o []).
  destruct (index_Ok keys (pool_calls q) ∅ Hwfc) as (index & -> & Hidx).
  destruct (gather_exact b salt index (b_operations (body b)) Hw Hv) as (sent & operations & Hg & Hops);
    [by apply operations_wf|done| |done|].
  { intros o o' Ho Hin. fold keys in Ho. specialize (Hidx (sid keys o)). rewrite Ho, lookup_empty in Hidx.
    cbn [from_option Datatypes.id app] in Hidx.
    assert (o' ∈ filter (fun x => sid keys x = sid keys o) (pool_calls q)) as [Hs Ho']%list_elem_of_filter
      by (rewrite <- Hidx; by left).
    pose proof (operations_wf b Hw) as Hwf. rewrite Forall_forall in Hwf, Hwfc.
    eapply (Hcol o' o); [done|done|by apply wf_operation_id, Hwfc|by apply wf_operation_id, Hwf|exact Hs]. }
  fold keys in Hg. rewrite Hg, (reconstruct_Ok b Hw Hv salt operations Hops), wf_block_bytes by done.
  apply accept_relayed_cache; [apply Hn|apply Hn|by intros ? [= <-]].
Qed.

(** ** A collision with the pool *)

Definition with_operations (b : Block) (ops : list BlockOperation) : Block :=
  {| header := header b; height := height b;
     body := {| b_emission := b_emission (body b); b_operations := ops |} |}.

Lemma zsum_submseteq l1 l2 : Forall (fun x => 0 <= x) l2 -> l1 ⊆+ l2 -> zsum l1 <= zsum l2.
Proof.
  intros Hn [k Hk]%submseteq_Permutation. rewrite Hk in Hn. apply Forall_app in Hn as [_ Hn].
  rewrite (zsum_permutation _ _ Hk), zsum_app. apply zsum_nonneg in Hn. lia.
Qed.

Lemma calls_sublist p : pool_calls p `sublist_of` pe_operation <$> pp_entries p.
Proof.
  unfold pool_calls. induction (pe_operation <$> pp_entries p) as [|o l IH]; [done|]. cbn [List.filter].
  destruct (is_call o); [by apply sublist_skip|by apply sublist_cons].
Qed.

(** The pending calls that take the place of an operation. *)
Definition chosen (keys : Z * Z) (calls ops : list BlockOperation) : list BlockOperation :=
  omap (fun o => match filter (fun x => sid keys x = sid keys o) calls with [x] => Some x | _ => None end) ops.

Lemma chosen_calls keys calls ops :
  NoDup (sid keys <$> ops) -> chosen keys calls ops ⊆+ calls.
Proof.
  intros Hnd. assert (sid keys <$> chosen keys calls ops `sublist_of` sid keys <$> ops) as Hsub.
  { clear Hnd. induction ops as [|o ops IH]; [done|]. unfold chosen in *. cbn [omap list_omap].
    destruct (filter _ calls) as [|x [|]] eqn:Hf; [by apply sublist_cons| |by apply sublist_cons].
    rewrite !fmap_cons.
    assert (x ∈ filter (fun x => sid keys x = sid keys o) calls) as [Hx _]%list_elem_of_filter by (rewrite Hf; by left).
    rewrite Hx. by apply sublist_skip. }
  apply NoDup_submseteq.
  - apply (NoDup_fmap_1 (sid keys)). by eapply sublist_NoDup.
  - intros x (o & _ & Ho)%list_elem_of_omap. destruct (filter _ calls) as [|y [|]] eqn:Hf; simplify_eq.
    assert (x ∈ filter (fun x => sid keys x = sid keys o) calls) as [_ Hx]%list_elem_of_filter by (rewrite Hf; by left).
    done.
Qed.

Lemma heard_size keys calls ops :
  operations_size (heard keys calls ops) <= operations_size ops + operations_size (chosen keys calls ops).
Proof.
  unfold operations_size, heard, chosen. induction ops as [|o ops IH]; [done|].
  rewrite !fmap_cons, !zsum_cons. cbn [omap list_omap].
  destruct (filter _ calls) as [|x [|]]; rewrite ?fmap_cons, ?zsum_cons; lia.
Qed.

(** What can be pending is far below 4 GiB. *)
Lemma heard_fits p q b keys :
  pool_ok q -> pool_calls q = pool_calls p -> w_wf wire_block b -> block_validate b = Ok tt ->
  NoDup (sid keys <$> b_operations (body b)) ->
  Z.of_nat (length (w_enc wire_block
    (with_operations b (heard keys (pool_calls p) (b_operations (body b)))))) < 2 ^ 32.
Proof.
  intros Hq Hcalls Hw Hv Hnd. set (ops := heard _ _ _).
  assert (Z.of_nat (length (w_enc wire_block (with_operations b ops)))
    = Z.of_nat (length (w_enc wire_block b)) - operations_size (b_operations (body b)) + operations_size ops) as ->.
  { cbn [w_enc wire_block wire_struct wire_convert wire_pair wire_dep fst snd with_operations header height body
      b_emission b_operations]. rewrite !length_app, !Nat2Z.inj_add, !length_operations. lia. }
  pose proof (heard_size keys (pool_calls p) (b_operations (body b))) as Hsize. fold ops in Hsize.
  pose proof (block_fits b Hw Hv) as Hfit.
  assert (operations_size (chosen keys (pool_calls p) (b_operations (body b))) <= MAX_STORED_MEMPOOL_SIZE) as Hch.
  { transitivity (operations_size (pe_operation <$> pp_entries q)).
    - apply zsum_submseteq; [apply Forall_fmap, Forall_true; cbn; lia|]. apply fmap_submseteq.
      transitivity (pool_calls p); [by apply chosen_calls|]. rewrite <- Hcalls. apply sublist_submseteq, calls_sublist.
    - rewrite <- (pk_size q Hq), (pk_total q Hq). unfold operations_size. rewrite <- list_fmap_compose.
      apply Z.eq_le_incl. f_equal. apply list_fmap_ext. intros i e He%list_elem_of_lookup_2. unfold compose.
      pose proof (pk_entries q Hq) as Hes. rewrite Forall_forall in Hes. by rewrite (entry_bytes e (Hes e He)). }
  unfold MAX_BLOCK_SIZE, MAX_STORED_MEMPOOL_SIZE in *. lia.
Qed.

(** The rebuilt block carries the announced header, whatever its operations. *)
Lemma reconstruct_heard b salt operations ops root :
  mapM id operations = Some ops -> block_encodable (with_operations b ops) = true ->
  length (h_state_root (header b)) = HASH_SIZE ->
  calculate_merkle_root (b_emission (body b)) ops = Ok root -> length root = length (h_merkle_root (header b)) ->
  Z.of_nat (length (w_enc wire_block (with_operations b ops))) < 2 ^ 32 ->
  reconstruct_compact_block (announced b salt) operations = Some (with_operations b ops).
Proof.
  intros Ho Henc Hs Hr Hlr Hfit. unfold reconstruct_compact_block. rewrite Ho. cbn [mbind option_bind].
  cbn [announced cb_height cb_header cb_emission]. unfold from_protocol_operations. rewrite Hr.
  cbn [mbind result_mbind]. unfold refresh_block_weight.
  match goal with |- context [block_size ?x] => set (B := x) end.
  assert (block_size B = Ok (Z.of_nat (length (w_enc wire_block (with_operations b ops))))) as ->.
  { unfold block_size, block_bytes.
    change (block_encodable B) with (block_encodable (with_operations b ops)). rewrite Henc.
    cbn [mbind result_mbind]. do 2 f_equal. subst B.
    cbn [w_enc wire_block wire_header wire_struct wire_convert wire_pair wire_dep wire_hash wire_raw wire_uint fst snd
      with_operations with_weight header height body b_emission b_operations previous_hash h_merkle_root h_state_root
      target_bits block_weight h_nonce].
    rewrite !length_app, !length_le_bytes, length_replicate, Hlr, Hs. done. }
  cbn [mbind result_mbind]. unfold try_from. rewrite (proj2 (Z.ltb_lt _ _)) by exact Hfit.
  cbn [ok_or mbind result_mbind].
  change (with_header (with_weight B (Z.of_nat (length (w_enc wire_block (with_operations b ops))))) (header b))
    with (with_operations b ops).
  by rewrite decide_True.
Qed.

(** (C40) A collision is not noticed.  When the honest sender announces a valid block
    without duplicate short identifiers, and the pending calls that have a short
    identifier of the block's, put in the place of the block's operations, give a
    body with another Merkle root, the receiver refuses the announcement as an
    invalid relayed block and never asks for the block itself: the hash it
    compares is that of the announced header, whatever the operations are.  So
    one pending call whose short identifier collides with another operation of
    the block is enough. *)
Theorem compact_collision_refused past n p b salt root :
  pool_reachable network (past, n) -> load_cold (nd_stored n) = Ok p ->
  w_wf wire_block b -> block_validate b = Ok tt -> fits 64 salt ->
  let keys := short_id_keys (block_hash b) salt in
  let operations := heard keys (pool_calls p) (b_operations (body b)) in
  NoDup (sid keys <$> b_operations (body b)) ->
  calculate_merkle_root (b_emission (body b)) operations = Ok root -> root <> h_merkle_root (header b) ->
  exists c, compact_block b salt = Ok c /\
    observable (accept_compact_block network minimums current disk (relay_compact_block b)
                  (w_enc wire_compact c) n)
    = (nd_ledger n, nd_stored n, Returned (Err (InvalidRelayed InvalidBlock))).
Proof using Hspec.
  intros Hn%pool_reachable_ok Hcold Hw Hv Hsalt keys operations Hnd Hroot' Hne. cbn [fst snd] in Hn.
  assert (length root = HASH_SIZE) as Hlroot.
  { destruct (block_validate_Ok b Hv) as (Hcount & Hem & _ & _ & _ & Hr). destruct (is_genesis b).
    - destruct Hem as [He Ho]. destruct Hne. unfold operations in Hroot'. rewrite Ho in Hroot', Hr.
      cbn [heard fmap list_fmap] in Hroot'. rewrite Hroot' in Hr. by apply Ok_inj in Hr.
    - destruct Hem as [e He]. rewrite He in Hroot'. eapply merkle_root_length; [|exact Hroot'].
      unfold operations, heard. rewrite length_fmap. unfold MAX_BLOCK_OPERATIONS in Hcount. lia. }
  exists (announced b salt). split; [by apply compact_block_Ok|]. unfold accept_compact_block.
  rewrite (proj2 (Z.ltb_ge _ _)) by (by apply announced_fits). rewrite w_slice_enc by (by apply announced_wf).
  pose proof (operations_count b Hv) as Hc.
  cbn [announced cb_short_ids cb_block_hash cb_salt]. rewrite length_fmap, (proj2 (Z.ltb_ge _ _)) by done.
  fold keys. rewrite bool_decide_eq_true_2 by done. cbn [negb].
  destruct (pool_read past n p Hn Hcold) as (q & -> & Hqok & Hcalls & Hlim).
  assert (Forall (w_wf wire_operation) (pool_calls q)) as Hwfc
    by (eapply Forall_impl; [exact Hlim|]; by intros o []).
  destruct (index_Ok keys (pool_calls q) ∅ Hwfc) as (index & -> & Hidx). rewrite Hcalls in *.
  assert (Forall operation_wf operations) as Hlimops.
  { destruct Hw as (_ & _ & _ & _ & Hops). rewrite Forall_forall in *. intros o [Ho|Ho]%heard_from; [by apply Hlim|by apply Hops]. }
  assert (forall o x, index !! sid keys o = Some [x] <-> filter (fun x => sid keys x = sid keys o) (pool_calls p) = [x]) as Hone.
  { intros o x. specialize (Hidx (sid keys o)). rewrite lookup_empty in Hidx. cbn [from_option Datatypes.id app] in Hidx.
    rewrite <- Hidx. destruct (index !! sid keys o) as [l|]; cbn [from_option Datatypes.id]; [|done].
    split; [by intros [= ->]|by intros ->]. }
  destruct (gather_exact b salt index operations Hw Hv) as (sent & found & Hg & Hfound).
  { eapply Forall_impl; [exact Hlimops|]. by intros o []. }
  { apply heard_sid. }
  { fold keys. intros o o' Ho%Hone (y & Hy & Hin)%list_elem_of_fmap. subst o.
    destruct (filter (fun x => sid keys x = sid keys y) (pool_calls p)) as [|x [|x' l]] eqn:Hf.
    - by rewrite Hf in Ho.
    - assert (x ∈ filter (fun x => sid keys x = sid keys y) (pool_calls p)) as [Hx _]%list_elem_of_filter
        by (rewrite Hf; by left).
      rewrite Hx, Hf in Ho. by injection Ho.
    - by rewrite Hf in Ho. }
  { fold keys. intros i o Ho Hno. unfold operations, heard. rewrite list_lookup_fmap, Ho. cbn [fmap option_fmap option_map].
    destruct (filter _ (pool_calls p)) as [|x [|]] eqn:Hf; [done| |done]. by apply Hone, Hno in Hf. }
  fold keys in Hg. rewrite Hg.
  assert (w_wf wire_block (with_operations b operations)) as Hwb.
  { destruct Hw as (Hh & Hz & He & Hlen & _). split; [exact Hh|]. split; [exact Hz|]. split; [exact He|].
    split; [|exact Hlimops]. cbn [snd body with_operations b_operations]. subst operations.
    unfold heard. by rewrite length_fmap. }
  pose proof (heard_fits p q b keys Hqok Hcalls Hw Hv Hnd) as Hfit. fold operations in Hfit.
  rewrite (reconstruct_heard b salt found operations root), wf_block_bytes;
    [|done|done|by apply wf_block_encodable|by destruct Hw as ((_ & _ & [Hs _] & _) & _)|done| |done].
  2: { destruct Hw as ((_ & [Hm _] & _) & _). cbn [fst snd] in Hm. by rewrite Hm. }
  unfold accept_relayed_block.
  assert (decode_block (w_enc wire_block (with_operations b operations)) = Err InvalidBlock) as ->; [|done].
  unfold decode_block, guard_err. destruct (_ <? _); [done|]. rewrite w_slice_enc by done.
  cbn [ok_or mbind result_mbind].
  destruct (block_validate (with_operations b operations)) as [[]|] eqn:Hval; [|done].
  apply block_validate_Ok in Hval as (_ & _ & _ & _ & _ & Hr).
  cbn [with_operations body header b_emission b_operations] in Hr. rewrite Hroot' in Hr.
  apply Ok_inj in Hr. by destruct Hne.
Qed.

(** ** Whatever the peer sends *)

Lemma apply_block_tip memory b l l' :
  apply_block ledger_consensus_error memory b l = (l', Ok tt) ->
  tip_hash (g_chain l') = Some (block_hash b).
Proof.
  unfold apply_block. destruct (has_blocks _); [|done].
  destruct (validate_for_apply _ _ _ _) as [v|] eqn:Hval; [|done].
  apply validate_for_apply_block in Hval as <-. cbn [commit_validated_block ledger_apply_state].
  unfold apply_validated_block. destruct (execute_block _ _) as [[x|]|]; [|done..].
  case_match; [done|]. case_match; [done|].
  destruct (Chain.insert_block _ _) as [c|] eqn:Hi; [|done]. intros [= <-].
  unfold Chain.insert_block in Hi. apply bind_Ok in Hi as ([] & _ & Hi). apply Ok_inj in Hi as <-. done.
Qed.

(** What an accepted full block has done. *)
Definition committed (b : Block) (n n' : Node) : Prop :=
  tip_hash (g_chain (nd_ledger n')) = Some (block_hash b) /\ block_validate b = Ok tt /\
  (nd_ledger n' = nd_ledger n /\ nd_stored n' = nd_stored n \/
   disk = true /\ apply_block ledger_consensus_error None b (nd_ledger n) = (nd_ledger n', Ok tt) /\
   table_after network (nd_ledger n') [b] (nd_stored n')).

Definition unchanged (n n' : Node) : Prop := nd_ledger n' = nd_ledger n /\ nd_stored n' = nd_stored n.

Lemma accept_relayed_safe chain bytes n n' r :
  chain_context network = Ok chain ->
  accept_relayed_block network minimums current disk bytes n = (n', r) ->
  match r with
  | Returned (Ok _) => exists b, decode_block bytes = Ok b /\ committed b n n'
  | _ => unchanged n n'
  end.
Proof.
  intros Hchain Ha. unfold accept_relayed_block in Ha.
  destruct (decode_block bytes) as [b|] eqn:Hd; [|by injection Ha as <- <-].
  assert (block_validate b = Ok tt) as Hbv.
  { unfold decode_block in Hd. apply guard_err_Ok in Hd as [_ Hd]. apply bind_Ok in Hd as (b' & _ & Hd).
    apply bind_Ok in Hd as ([] & Hbv%map_err_Ok_inv & Hd). by apply Ok_inj in Hd as ->. }
  case_decide as Htip; [injection Ha as <- <-; exists b; split; [done|split_and!; [done|done|by left]]|].
  case_match; [by injection Ha as <- <-|]. destruct (block_work _); [|by injection Ha as <- <-].
  case_match; [by injection Ha as <- <-|].
  destruct (apply_block _ _ _ _) as [ledger [[]|[]]] eqn:Hap; [|by injection Ha as <- <-..].
  destruct (collect _ _) as [ids|] eqn:Hids; [|by injection Ha as <- <-]. cbn [mbind result_mbind] in Ha.
  destruct (load_pending_pool _ _) as [[p c]|]; [|by injection Ha as <- <-]. cbn [map_err mbind result_mbind] in Ha.
  destruct (reconcile_pending_operations _ _ _ _) as [mempool|] eqn:Hrec; [|by injection Ha as <- <-].
  destruct (encode_pending_operations mempool) as [raw|] eqn:Henc; [|by injection Ha as <- <-].
  destruct disk eqn:Hdisk; [|by injection Ha as <- <-]. injection Ha as <- <-. exists b. split; [done|].
  split_and!; [by eapply apply_block_tip|done|right]. split_and!; [done|done|].
  eapply reconciled_table; [done| |done|done].
  intros b' o id ->%list_elem_of_singleton Ho Hid. apply elem_of_list_to_set.
  clear -Hids Ho Hid. revert ids Hids. induction (b_operations (body b)) as [|o1 ops IH]; intros ids Hids.
  { by apply not_elem_of_nil in Ho. }
  cbn [collect] in Hids. apply bind_Ok in Hids as (id1 & H1' & Hids). apply bind_Ok in Hids as (ids1 & H2' & Hids).
  apply Ok_inj in Hids as <-. apply elem_of_cons in Ho as [->|Ho]; [|right; by eapply IH].
  rewrite Hid in H1'. apply Ok_inj in H1' as ->. by left.
Qed.

Lemma request_safe chain peer sent hash n n' r :
  chain_context network = Ok chain ->
  request_and_accept_gossip_block network minimums current disk peer sent hash n = (n', r) ->
  match r with
  | Returned (Ok _) => exists b, block_hash b = hash /\ committed b n n'
  | _ => unchanged n n'
  end.
Proof.
  intros Hchain Ha. unfold request_and_accept_gossip_block in Ha.
  match type of Ha with match ?m with _ => _ end = _ => destruct m as [payload|] eqn:Hm end;
    [|by injection Ha as <- <-].
  apply bind_Ok in Hm as (response & _ & Hm). destruct response as [|tag payload']; [done|].
  apply guard_err_Ok in Hm as [_ Hm]. apply bind_Ok in Hm as (b & Hb%map_err_Ok_inv & Hm).
  apply guard_err_Ok in Hm as [Hh Hm]. apply Ok_inj in Hm as ->. case_bool_decide as Hh'; [|done].
  apply (accept_relayed_safe chain) in Ha; [|done]. destruct r as [[]|]; [|done..].
  destruct Ha as (b' & Hb' & Hc). rewrite Hb in Hb'. apply Ok_inj in Hb' as <-. by exists b.
Qed.

Lemma slice_header b b' :
  w_wf wire_header (header b) -> w_slice wire_block (w_enc wire_block b) = Some b' -> header b' = header b.
Proof.
  intros Hh Hs. unfold w_slice in Hs.
  destruct (w_dec wire_block (w_enc wire_block b)) as [[b1 rest]|] eqn:Hd; [|done]. cbn [mbind option_bind] in Hs.
  case_decide; [|done]. injection Hs as ->.
  cbn [w_dec w_enc wire_block wire_struct wire_convert wire_pair wire_dep fst snd] in Hd.
  rewrite w_dec_enc in Hd by done. cbn [mbind option_bind] in Hd.
  repeat match type of Hd with
  | context [match w_dec ?w ?l with _ => _ end] => destruct (w_dec w l) as [[? ?]|]; [|done]; cbn [mbind option_bind] in Hd
  | context [mbind _ (w_dec ?w ?l)] => destruct (w_dec w l) as [[? ?]|]; cbn [mbind option_bind] in Hd; [|done]
  end.
  by injection Hd as <- _.
Qed.

(** (C9) Nothing but the announced block is ever committed.  Whatever bytes a peer
    announces and whatever it answers: if the receiver reports success, its tip is
    the announced hash, and either it had that tip before or a valid block with
    that hash was applied to its ledger, committed to disk, and left a table of
    distinct operations outside the block that replay on the new tip; otherwise
    its ledger and its table are as before. *)
Theorem compact_accept_safe chain peer bytes n n' r :
  chain_context network = Ok chain -> bytes_wf bytes ->
  accept_compact_block network minimums current disk peer bytes n = (n', r) ->
  match r with
  | Returned (Ok _) => exists c b, w_slice wire_compact bytes = Some c /\ block_hash b = cb_block_hash c /\
      committed b n n'
  | _ => unchanged n n'
  end.
Proof.
  intros Hchain Hbytes Ha. unfold accept_compact_block in Ha. case_match; [by injection Ha as <- <-|].
  destruct (w_slice wire_compact bytes) as [c|] eqn:Hc; [|by injection Ha as <- <-].
  assert (forall sent m, unchanged n m ->
    request_and_accept_gossip_block network minimums current disk peer sent (cb_block_hash c) m = (n', r) ->
    match r with
    | Returned (Ok _) => exists c0 b, Some c = Some c0 /\ block_hash b = cb_block_hash c0 /\ committed b n n'
    | _ => unchanged n n'
    end) as Hreq.
  { intros sent m [Hm1 Hm2] Hr. apply (request_safe chain) in Hr; [|done]. unfold committed, unchanged in *.
    rewrite Hm1, Hm2 in Hr. destruct r as [[]|]; [|done..]. destruct Hr as (b & Hb & Hr). by exists c, b. }
  destruct (MAX_BLOCK_OPERATIONS <? _); [by injection Ha as <- <-|].
  destruct (bool_decide _); cbn [negb] in Ha; [|by (eapply Hreq; [|exact Ha])].
  destruct (load_pending_pool _ _) as [[pool cache]|]; [|by injection Ha as <- <-].
  destruct (try_fold _ _ _) as [index|]; [|by injection Ha as <- <-].
  destruct (gather_operations _ _ _ _) as [sent [[operations|]|]]; [|by (eapply Hreq; [|exact Ha])|by injection Ha as <- <-].
  destruct (reconstruct_compact_block c operations) as [blk|] eqn:Hblk; [|by (eapply Hreq; [|exact Ha])].
  destruct (block_bytes blk) as [encoded|] eqn:Henc; [|by injection Ha as <- <-].
  apply (accept_relayed_safe chain) in Ha; [|done]. unfold committed, unchanged in *. cbn [nd_ledger nd_stored with_pool] in Ha.
  destruct r as [[]|]; [|done..]. destruct Ha as (b & Hd & Hcom). exists c, b. split; [done|split; [|done]].
  unfold reconstruct_compact_block in Hblk. destruct (mapM id operations) as [ops|]; [|done]. cbn [mbind option_bind] in Hblk.
  destruct (from_protocol_operations _ _ _ _ _ _) as [B|]; [|done]. case_decide as Hhash; [|done]. injection Hblk as <-.
  rewrite <- Hhash. unfold block_hash. f_equal.
  unfold block_bytes in Henc. destruct (block_encodable _); [|done]. apply Ok_inj in Henc as <-.
  unfold decode_block in Hd. apply guard_err_Ok in Hd as [_ Hd]. apply bind_Ok in Hd as (b' & Hs%ok_or_Ok & Hd).
  apply bind_Ok in Hd as ([] & _ & Hd). apply Ok_inj in Hd as ->. apply slice_header in Hs; [done|].
  cbn [header with_header]. apply w_slice_Some in Hc as [Hcw _]; [|done]. apply Hcw.
Qed.
End relay.

(** ** Relaying a mined transfer *)

Section example.
#[local] Existing Instance toy_sha3.
#[local] Existing Instance toy_sha3_spec.
#[local] Existing Instance toy_argon2.
#[local] Existing Instance accept_all.
#[local] Existing Instance toy_roots.
#[local] Existing Instance no_roots_spec.

(** A peer mined the transfer this node has pending. *)
Definition mined : Block := with_nonce toy_candidate 1.
Definition no_minimums : ChainMinimums := {| cm_work := repeat 0 32; cm_weight := 0 |}.
Definition no_totals : Totals := {| to_checkpoints := []; to_work := repeat 0 32; to_weight := 0 |}.

(** A block whose encoding decodes to it is well formed. *)
Lemma wf_of_decoding (b : Block) :
  forallb (fun z => (0 <=? z) && (z <? 256)) (w_enc wire_block b) = true ->
  w_slice wire_block (w_enc wire_block b) = Some b -> w_wf wire_block b.
Proof. intros Hb%digits_compute Hs. by apply (proj1 (w_slice_Some wire_block _ _ Hb)). Qed.

Lemma mined_wf : w_wf wire_block mined.
Proof. apply wf_of_decoding; vm_compute; reflexivity. Qed.

Lemma mined_valid : block_validate mined = Ok tt.
Proof. vm_compute. reflexivity. Qed.

Lemma relayed_mined :
  (accept_relayed_block toy_network no_minimums no_totals true (w_enc wire_block mined) pending_node).2
  = Returned (Ok tt).
Proof. vm_compute. reflexivity. Qed.

Lemma pending_calls :
  match load_cold (nd_stored pending_node) with Ok p => pool_calls p = [relayed 140000] | Err _ => False end.
Proof. vm_compute. reflexivity. Qed.

Lemma mined_operations : b_operations (body mined) = [relayed 140000].
Proof. vm_compute. reflexivity. Qed.

Lemma compact_relay_exact_witness :
  exists c, compact_block mined 7 = Ok c /\
    (accept_compact_block toy_network no_minimums no_totals true (relay_compact_block mined)
       (w_enc wire_compact c) pending_node).2 = Returned (Ok tt).
Proof.
  destruct pending_reachable as [past Hr]. pose proof pending_calls as Hp.
  destruct (load_cold (nd_stored pending_node)) as [p|] eqn:Hl; [|destruct Hp].
  destruct (compact_relay_exact toy_network no_minimums no_totals true past pending_node p mined 7 Hr Hl
    mined_wf mined_valid ltac:(split; vm_compute; reflexivity || discriminate)) as (c & Hc & Ho).
  - intros o o' i i' Hi Hi' _ _ _. rewrite Hp in Hi. rewrite mined_operations in Hi'.
    apply list_elem_of_singleton in Hi, Hi'. by subst.
  - exists c. split; [exact Hc|]. apply (f_equal snd) in Ho. cbn [snd observable] in Ho.
    rewrite relayed_mined in Ho. exact Ho.
Defined.

(** What the sender announces. *)
Definition announcement : list Z :=
  match compact_block mined 7 with Ok c => w_enc wire_compact c | Err _ => [] end.

Lemma compact_accept_safe_witness :
  exists n' c b, accept_compact_block toy_network no_minimums no_totals true (relay_compact_block mined)
      announcement pending_node = (n', Returned (Ok tt)) /\
    w_slice wire_compact announcement = Some c /\ block_hash b = cb_block_hash c /\
    tip_hash (g_chain (nd_ledger n')) = Some (block_hash b).
Proof.
  destruct (chain_context toy_network) as [chain|] eqn:Hc; [|vm_compute in Hc; discriminate].
  destruct (accept_compact_block toy_network no_minimums no_totals true (relay_compact_block mined)
    announcement pending_node) as [n' r] eqn:Ha.
  assert (r = Returned (Ok tt)) as ->.
  { change r with ((n', r).2). rewrite <- Ha. vm_compute. reflexivity. }
  assert (bytes_wf announcement) as Hb by (apply digits_compute; vm_compute; reflexivity).
  destruct (compact_accept_safe toy_network no_minimums no_totals true chain (relay_compact_block mined)
    announcement pending_node n' _ Hc Hb Ha) as (c & b & Hs & Hh & Ht & _).
  exists n', c, b. split; [reflexivity|]. split; [exact Hs|]. split; [exact Hh|exact Ht].
Defined.

(** ** A collision *)

(** The transfer with a signature that ends in the bytes of [x]. *)
Definition signed (x : Z) : BlockOperation :=
  match relayed 140000 with
  | OpProgramCall i =>
      OpProgramCall {| ai_signer := ai_signer i; ai_call := ai_call i; ai_payment := ai_payment i;
        ai_authorization :=
          {| au_salt := au_salt sample_auth; au_public_key := au_public_key sample_auth;
             au_signature := {| sg_account := SlhDsaShake128s;
                                sg_bytes := replicate (Z.to_nat 7852) 9 ++ rev (le_bytes 4 x) |} |} |}
  | o => o
  end.

Definition pending_other : Node :=
  (insert_pending_operation toy_network (signed 8118363) false true toy_node).1.

Definition mined_other : Block :=
  match candidate_operation_block ledger2 toy_miner [signed 28125560] with
  | Returned (Ok b) => with_nonce b 1
  | _ => mined
  end.

Lemma other_wf : w_wf wire_block mined_other.
Proof. apply wf_of_decoding; vm_compute; reflexivity. Qed.

Lemma other_reachable : exists past, pool_reachable toy_network (past, pending_other).
Proof.
  destruct toy_node_reachable as [past Hr]. eexists. eapply pool_more; [exact Hr|].
  apply step_insert. exists (w_enc wire_operation (signed 8118363)).
  split; [by apply digits_compute; vm_compute|vm_compute; reflexivity].
Qed.

Lemma other_accepted :
  (accept_relayed_block toy_network no_minimums no_totals true (w_enc wire_block mined_other) pending_other).2
  = Returned (Ok tt).
Proof. vm_compute. reflexivity. Qed.

Lemma other_calls :
  match load_cold (nd_stored pending_other) with Ok p => pool_calls p = [signed 8118363] | Err _ => False end.
Proof. vm_compute. reflexivity. Qed.

Lemma other_heard :
  let keys := short_id_keys (block_hash mined_other) 7 in
  let operations := heard keys [signed 8118363] (b_operations (body mined_other)) in
  bool_decide (NoDup (sid keys <$> b_operations (body mined_other))) = true /\
  match calculate_merkle_root (b_emission (body mined_other)) operations with
  | Ok root => bool_decide (root <> h_merkle_root (header mined_other))
  | Err _ => false
  end = true.
Proof. split; vm_compute; reflexivity. Qed.

(** The pending transfer and the mined one differ in their signatures and in
    their identifiers, and agree in the six bytes of their short identifiers: the
    node accepts the block in full, and refuses the announcement of it. *)
Lemma compact_collision_refused_witness :
  (accept_relayed_block toy_network no_minimums no_totals true (w_enc wire_block mined_other) pending_other).2
    = Returned (Ok tt) /\
  exists c, compact_block mined_other 7 = Ok c /\
    (accept_compact_block toy_network no_minimums no_totals true (relay_compact_block mined_other)
       (w_enc wire_compact c) pending_other).2 = Returned (Err (InvalidRelayed InvalidBlock)).
Proof.
  split; [exact other_accepted|]. destruct other_reachable as [past Hr]. pose proof other_calls as Hp.
  destruct (load_cold (nd_stored pending_other)) as [p|] eqn:Hl; [|destruct Hp].
  destruct other_heard as [Hnd%bool_decide_eq_true Hroot]. cbv zeta in Hroot. rewrite <- Hp in Hroot.
  destruct (calculate_merkle_root _ _) as [root|] eqn:Hm in Hroot; [|discriminate Hroot].
  apply bool_decide_eq_true in Hroot as Hne.
  destruct (compact_collision_refused toy_network no_minimums no_totals true past pending_other p mined_other 7 root
    Hr Hl other_wf ltac:(vm_compute; reflexivity) ltac:(split; vm_compute; reflexivity || discriminate)
    Hnd Hm Hne) as (c & Hc & Ho).
  exists c. split; [exact Hc|]. exact (f_equal snd Ho).
Defined.
End example.
